(* ===== verification/_CoqProject ===== *)
-Q . S2P
Prelude.v
Interaction.v
Sha256.v
GoText.v
GoStrings.v
GoJson.v
GoSort.v
ExecutionLease.v
ExecutionLeaseFacts.v
ExecutionLeaseTheorems.v
Envelope.v
ActionQueue.v
ActionQueueFacts.v
ActionQueueCalls.v
Examples.v
EnvelopeTheorems.v
ActionQueueTheorems.v
Credential.v
CredentialFacts.v
CredentialInvariant.v
CredentialHistory.v
CredentialExamples.v
CredentialTheorems.v
System.v
DurableHandles.v
DurableBroker.v
IssuerRegistry.v
DurableBrokerFacts.v
DurableHeap.v
RepositoryTrace.v
BrokerSystem.v
BrokerBacking.v
BrokerExamples.v
DurableBrokerTheorems.v
RevocationWorker.v
RevocationWorkerFacts.v
WorkerSystem.v
RevocationWorkerExamples.v
RevocationWorkerTheorems.v
Policy.v
PolicyTheorems.v
PolicyVetting.v
Service.v
ServiceFacts.v
ServiceTraces.v
ServiceRun.v
ServiceProtocol.v
ServiceExamples.v
ServiceTheorems.v
GoDecode.v
GoRegexp.v
GoUnicode.v
GoFloat.v
SafeText.v
InvestigationDomain.v
TaskSpecs.v
InvestigationRequests.v
StoreErrors.v
InvestigationRepository.v
InvestigationHistory.v
InvestigationOrder.v
InvestigationInvariant.v
InvestigationPreservation.v
InvestigationEndings.v
InvestigationTheorems.v
InvestigationReplay.v
InvestigationReads.v
InvestigationSafety.v
SignalStore.v
SignalDispatcher.v
OutboxFacts.v
OutboxTheorems.v
DispatcherFacts.v
DispatcherTheorems.v
