(* ===== verification/Prelude.v ===== *)
(** * Investigation and write execution of the AIOps system, verified

    The system receives signals, investigates the incidents they belong to and, after
    approval, executes changes of production.  This development models the parts that
    decide: the store of signals with the delivery of its outbox, the repository of
    investigations, from a signal to the confirmed root cause of
    its incident, and everything that can change production, from a signed action to the
    executor and back, with the leases, the credentials and the policy decisions that guard
    it.  It follows the Go sources under [src/internal], definition by
    definition, under the names the sources use (a method [T.m] of a repository is [T_m],
    or [m] where that is unambiguous).

    ** The parts and how they interact

    - an _action envelope_ (internal/action/envelope.go) is the signed, typed description
      of one change;
    - the _policy engine_ (internal/policy/engine.go) decides on an envelope at three
      stages: planning, issue of the credential, just before execution;
    - the _lease repository_ (internal/executionlease) holds one execution per action and
      gives it to one runner at a time, by a lease with an epoch and a secret token;
    - the _action queue_ (internal/execution/action_queue.go) binds the envelope's immutable
      data to the lease state, and gives the target of a write up only when the credential
      of the action is accounted for;
    - the _revocation repository_ (internal/credential/revocation.go, memory.go) records
      every credential from before it exists until it is revoked, and is the inspector the
      queue asks;
    - the _execution service_ (internal/execution/service.go) runs on a write runner.  It
      claims an action from the queue, asks the policy engine twice, has a credential
      prepared and issued, has the executor run in a goroutine while another sends
      heartbeats, has the credential revoked, and completes and finalizes the action;
    - the _durable broker_ (internal/credential/durable_broker.go, issuer_registry.go) is
      what the service asks for credentials.  It records the intent in the repository,
      has an issuer create a child token, anchors the child's accessor, inspects it, draws
      the secret with it and activates the record; its handles are used once, in process;
    - the _revocation worker_ (internal/credential/revocationworker) recovers lapsed
      records, claims a revocation, calls the registered revoker while a goroutine keeps the
      claim alive, and acknowledges the outcome to the repository;
    - the _investigation repository_ (internal/investigation/memory) registers signals,
      correlates them to incidents, creates one investigation at a time per incident with
      the tasks of a plan, takes the evidence of the tasks, and ends the investigation with
      the hypotheses of the model, of which a person may confirm one as the root cause.  It
      validates what it stores (internal/domain), canonicalizes and binds tasks to their
      runtime (internal/investigation/task_specs.go, runtime_binding.go) and answers
      repeated requests by their hash (request_semantics.go);
    - the _signal store_ (internal/store/memory/store.go) accepts signals of registered
      integrations, once per event of the provider, and incidents, and puts an event for each
      into an outbox; the _dispatcher_ (internal/outbox/dispatcher.go) claims signal events in
      batches, starts a workflow for each and acknowledges it or puts it back.

    ** Files

    Shared: [Prelude] (errors, the handler monad [M] with its weakest preconditions [wp],
    integer and time conventions, tactics and hints), [Interaction] (programs that talk to an
    environment and leave a trace, with the rules of [ends]), [Sha256], [GoText], [GoStrings],
    [GoJson], [GoSort], [GoDecode], [GoRegexp], [GoUnicode] and [GoFloat] (what the sources
    use of Go's standard library, executable: encoding and decoding of JSON, regular
    expressions, UTF-8, binary64 numbers).

    - [ExecutionLease], [ExecutionLeaseFacts], [ExecutionLeaseTheorems]: the lease
      repository; [MemoryRepository] is the struct, [run_call] one call of any method.
    - [Envelope], [EnvelopeTheorems]: validation, sealing, verification and key sets.
    - [ActionQueue], [ActionQueueFacts], [ActionQueueCalls], [ActionQueueTheorems]: the
      queue; [MemoryActionQueue] is the struct.
    - [Credential], [CredentialFacts], [CredentialInvariant], [CredentialHistory],
      [CredentialTheorems]: the revocation repository.
    - [System]: the class [CleanupInspector], the queue's guarantee against it, the
      revocation repository as its instance, and both together.
    - [DurableHandles], [DurableBroker], [IssuerRegistry]: the broker's methods, its heap of
      shared handle states, the step relation of concurrent requests to revoke, and the
      registry.  [DurableBrokerFacts] holds the protocol [Issued] of an issue, [DurableHeap]
      what calls keep of the heap.
    - [RepositoryTrace]: traces whose repository calls are answered by one history of the
      revocation repository.  [BrokerSystem] and [BrokerBacking] put the repository behind
      the broker (class [Backed]); [DurableBrokerTheorems] has the properties.
    - [RevocationWorker], [RevocationWorkerFacts]: the worker, with [claimStep] the
      interleaving of the goroutines of one claim and [RunOnce] a round; [WorkerSystem] puts
      the repository behind it (class [WorkerBacked]); [RevocationWorkerTheorems].
    - [Policy], [PolicyTheorems], [PolicyVetting]: the policy engine; the last with [vetted],
      what an action must satisfy, and that the engine allows exactly that.
    - [Service]: the execution service; [RunNext] is the sequence of [RunNext_admission]
      (with [RunNext_claim], [RunNext_policy] and [RunNext_admit]), [RunNext_start],
      [RunNext_execute] and [RunNext_finish], cut where the source's function changes phase.
      [ServiceFacts], [ServiceTraces] and [ServiceRun] hold the rules and what each phase
      adds to the trace; [ServiceProtocol] the specification [Protocol] and its proof;
      [ServiceTheorems] the properties.
    - [SafeText] (identifiers, safe text, safe JSON), [InvestigationDomain] (the records of
      an investigation and their [Validate]), [TaskSpecs] (canonical tasks, authorisation,
      runtime bindings), [InvestigationRequests] (requests, normalization, hashes).
    - [InvestigationRepository]: the operations; [Repository] is the struct.
      [InvestigationHistory]: what an accepted call commits ([commit]), and [after], the
      repository after any sequence of calls.  [InvestigationOrder]: how entries may change
      ([advances]).  [InvestigationInvariant], [InvestigationPreservation],
      [InvestigationEndings]: the invariant [Inv] and that every commit keeps it.
      [InvestigationTheorems], [InvestigationReplay] (refusals and repetitions),
      [InvestigationReads] (lists) and [InvestigationSafety] (stored JSON, order of tasks)
      have the properties.
    - [StoreErrors], [SignalStore]: the store's operations; [Store] is the struct.
      [OutboxFacts]: what a call changes ([store_change], [event_changes]) and the phases of
      an event ([phase_step]).  [SignalDispatcher]: the round [RunOnce].  [DispatcherFacts]:
      delays, and the round trip of the payload.  [OutboxTheorems] and [DispatcherTheorems]
      have the properties; the latter with [System], dispatchers side by side, and [perform],
      one action of it.
    - [Examples], [CredentialExamples], [BrokerExamples], [RevocationWorkerExamples],
      [ServiceExamples]: concrete values for witnesses.

    ** How code becomes definitions

    A method of a repository is a handler of type [M S A]: state passing, with an error
    as a value.  A method holds its mutex from start to end, so handlers are atomic and
    concurrent callers are sequences of calls.  What a method reads from elsewhere (its
    context, the clock, the token source, the answer of another component) is an argument
    of the call, and theorems quantify over it: clocks may run backwards, contexts may be
    cancelled at any call.  An instant is its number of nanoseconds in [Z], with a separate
    zero value where the code tests for it; 64-bit counters keep their bounds where the
    code relies on them.

    Three operations of the investigation repository first look under a read lock and lock
    again to write: what other callers did in between is an argument, and histories give it
    as a list of calls.

    The service is different, since goroutines run beside it.  Its programs have type
    [World W -> A * World W] and append every outside call to a trace of [Event]s.  What
    the called interfaces answer is an [Environment] with a state [W] of its own.  Before
    each operation the main thread yields, and the environment chooses which steps the
    heartbeat goroutine, the executor's goroutine and the contexts take; a theorem over all
    environments thus speaks of all answers and all schedules.  The mutex [beatMu] is
    honoured: a round in flight is finished before the main thread takes the mutex.  The
    executor's goroutine ([ExecutorState]) is created by [EvEnter], calls the executor at
    [EvExecute] and has its answer at [EvReturned], each at a time of its own: an executor
    that the service stopped waiting for may still be called, and return, while the service
    revokes the credential.

    The broker's methods have no goroutine of their own, but their handles are shared: they
    are programs over an [Environment] in the same way, and between any two steps the
    environment lets other callers change the heap.  One claim of the worker has three
    goroutines with channels and contexts between them, so it is a step relation in which
    every enabled step of each may come next, timers and cancellations at any time.

    Third-party code is a parameter: the JSON canonicalizer (RFC 8785), Ed25519, the CEL
    compiler, the reference protector (AES-GCM and HMAC), and the Unicode tables of letters,
    digits and lower case.  The only assumption made about
    one is that a signature of a private key verifies under its public key, in the
    round trip of sealing; its witness instantiates it.

    All loops of the modelled code but three run over finite lists or maps, and the
    recursion of the definitions is structural.  The JSON parser takes fuel twice the length
    of the text plus two: each of its calls but one in two consumes a byte.  The matcher of
    regular expressions repeats at most once per rune of the text, and the search for the
    shortest decimal of a binary64 number takes 25 steps, where 17 digits suffice.  The heartbeat loop of the service is
    unbounded in the source; a schedule decides how many of its rounds fall between two
    operations, and [stop_ends_the_session] shows that [Stop] ends it under every schedule.
    The loop of the dispatcher's [backoff] runs at most as often as the attempt it is for
    ([backoff_value] gives its result).  The doubling loop of the worker's [retryDelay] takes fuel [retryRounds] = 64: it leaves
    when the bound reaches 15 minutes, which takes 8 doublings from 5 seconds, and
    [retry_delay_is_bounded] gives its result in closed form for every attempt.

    ** What the theorems show

    - Across components: an action that had begun to write releases its target only when
      its credential is closed for good, in any interleaving of queue and revocation calls
      ([begun_write_released_on_closed_credential]).
    - Broker, with any environment: an issue follows [Issued]; it leaves no secret behind; a
      handle is used once and is usable once; a secret is gone at its deadline; concurrent
      requests to revoke share one call.  With the repository behind it: every child that was
      created is on record until it is revoked or its deadline has passed, at most one per
      record; a handed-over credential can only end revoked; a failed issue is revoked; the
      repository's answers pass the broker's checks.
    - Worker: in every interleaving a completion follows a successful revocation and is the
      only acknowledgement; the result says what was acknowledged; the method takes at most
      eight steps and reaches its return without the revoker ([claim_processing_returns]);
      delays are bounded.  With the repository behind it, a round counts each claim under the
      acknowledgement its run got, leaves claims out only when its context had ended, and what
      it counts as revoked is closed ([round_reports_what_happened]).
    - Service: every run follows [Protocol] ([run_follows_protocol]).  So the goroutine of the
      executor is created at most once and only for a verified, allowed, leased action with
      a valid credential, and calls the executor at most once, with that action; the
      revocation of an issued credential is requested exactly once, after the service stopped
      waiting for the executor; an action that a credential was prepared for is never handed
      back; finalization waits for the clean-up; heartbeats are numbered without gaps.  What the policy engine allows, the
      service accepts; what is submitted was verified.
    - Leases and queue: data invariants preserved by every call; one holder per lease and
      per target; stale leases are rejected; the statuses follow the declared life cycle;
      claims are granted in order; sweeps resolve every lapsed lease; expiry depends on
      each record alone; refused calls change nothing; submissions are idempotent.
    - Envelopes: a verified envelope carries a signature of an active key over its own
      hash; sealed envelopes verify; valid ones stay within the bounds.
    - Credentials: invariant, life cycle, fenced claims, one authorisation of a child
      credential within its deadline, and [REVOKED] only with evidence.
    - Policy: the engine allows exactly the vetted actions; approvals rest on four eyes.
    - Investigations, after any sequence of calls: the invariant; facts never change and
      everything else only moves forward; one active incident per correlation key and one
      active investigation per incident; an investigation
      ends as its tasks and its model allow; a root cause is a hypothesis on evidence that a
      person confirmed, once; refused calls change nothing; an accepted call can be repeated
      at any later time; lists are exact, without repetition and in their order; stored JSON is safe at every place; the order of
      the tasks of a plan does not matter.
    - Signal store, after any sequence of calls: exactly one event per stored signal and
      incident; events follow waiting, held, delivered; a live claim excludes everyone but its
      holder; a claim takes the first available events; a repeated delivery is recognised.
    - Dispatcher, in any interleaving with other dispatchers and users of the store: a signal
      event is delivered only after its workflow was started or found to exist, or by an
      acknowledgement of one of the other users; a round is
      such an interleaving and accounts for its batch; stored events are understood.  That a
      workflow is the event's own needs random identifiers that do not collide, which the
      statement says.

    Further theorems of the same files (for example [claim_serves_oldest_eligible],
    [batches_take_the_oldest], [success_is_finalized]) complete the picture per call.

    ** Not modelled

    - The PostgreSQL implementations of the repositories: their behaviour is that of SQL
      statements in a database server.  The in-memory implementations of the same
      interfaces are modelled.
    - Vault issuers and revokers, key files, the front ends over the revocation repository
      and the HTTP gateways between the processes: they appear as environments, so the
      theorems hold for whatever they do.
    - Executors and process isolation: operating-system effects, an interface here.
    - The workflows that drive an investigation and the engine that calls its connectors
      (Temporal, language models, HTTP): they reach the modelled repository by its calls.
    - The HTTP side of signal intake (webhooks, label matching): it reaches the modelled
      store by its calls.
    - The read path, asset discovery, web console and process wiring:
      separate subsystems that take no part in a write or in the state of an
      investigation. *)

From stdpp Require Export base tactics list gmap strings.
From Stdlib Require Export ZArith Lia.

Open Scope Z_scope.

(** ** Go values *)

(** Go errors: a sentinel made by [errors.New] (named by its package-level
    variable) or a text made by [fmt.Errorf] without [%w] (named by its format),
    an error wrapped by [fmt.Errorf] with [%w], two errors joined, or an error value
    that comes from outside the modelled code (a context, an entropy source). *)
Inductive GoError :=
| errors_New (name : string)
| Errorf (text : string) (inner : GoError)
| Joined (first second : GoError)
| ForeignError (text : string).

(** [errors.Is]: unwrap until the target is met. *)
Fixpoint errors_Is (err target : GoError) : Prop :=
  err = target \/
  match err with
  | Errorf _ inner => errors_Is inner target
  | Joined first second => errors_Is first target \/ errors_Is second target
  | _ => False
  end.

#[export] Instance GoError_eq_dec : EqDecision GoError.
Proof. solve_decision. Defined.

#[export] Instance errors_Is_dec err target : Decision (errors_Is err target).
Proof. induction err; simpl; apply _. Defined.

(** [errors.Join]: the errors that are not nil, or nil. *)
Fixpoint errors_Join (errs : list (option GoError)) : option GoError :=
  match errs with
  | [] => None
  | None :: errs => errors_Join errs
  | Some e :: errs =>
      match errors_Join errs with
      | Some e' => Some (Joined e e')
      | None => Some e
      end
  end.

Inductive Result (A : Type) :=
| Ok (a : A)
| Err (e : GoError).
Arguments Ok {A} a.
Arguments Err {A} e.

#[export] Instance Result_eq_dec {A} `{EqDecision A} : EqDecision (Result A).
Proof. solve_decision. Defined.

(** Pure calls that return [(value, error)]. *)
#[export] Instance Result_ret : MRet Result := @Ok.
#[export] Instance Result_bind : MBind Result := fun _ _ k r =>
  match r with
  | Ok a => k a
  | Err e => Err e
  end.

(** The value, or a default after an error. *)
Definition Result_default {A} (d : A) (r : Result A) : A :=
  match r with
  | Ok a => a
  | Err _ => d
  end.

(** [if !b { return e }] *)
Definition ensure (b : bool) (e : GoError) : Result unit := if b then Ok tt else Err e.

Lemma ensure_Ok b e u : ensure b e = Ok u -> b = true.
Proof. by destruct b. Qed.

Lemma Result_bind_Ok {A B} (r : Result A) (k : A -> Result B) b :
  r ≫= k = Ok b -> exists a, r = Ok a /\ k a = Ok b.
Proof. destruct r; [by eauto|done]. Qed.

Lemma Result_bind_intro {A B} (r : Result A) (k : A -> Result B) a b :
  r = Ok a -> k a = Ok b -> r ≫= k = Ok b.
Proof. by intros ->. Qed.

(** [time.Time] in nanoseconds after Go's zero instant (year 1, UTC), so that
    the zero value [time.Time{}] is 0; [time.Duration] in nanoseconds. *)
Abbreviation Time := Z (only parsing).
Abbreviation Duration := Z (only parsing).

Definition Time_zero : Time := 0.
Definition IsZero (t : Time) : bool := t =? 0.
Definition Before (t u : Time) : bool := t <? u.
Definition After (t u : Time) : bool := u <? t.
Definition Add (t : Time) (d : Duration) : Time := t + d.
Definition Second : Duration := 1000000000.
Definition Minute : Duration := 60 * Second.
Definition Hour : Duration := 60 * Minute.
Definition MaxInt64 : Z := 2 ^ 63 - 1.
Definition MinInt64 : Z := - 2 ^ 63.
(** [t.Sub(u)] saturates at the bounds of a [Duration]. *)
Definition Sub (t u : Time) : Duration := Z.max MinInt64 (Z.min MaxInt64 (t - u)).

(** Boolean equality of Go values compared with [==]. *)
Definition eqb {A} `{EqDecision A} (x y : A) : bool := bool_decide (x = y).
Infix "==" := eqb (at level 70, no associativity).
Notation "x != y" := (negb (x == y)) (at level 70, no associativity).

(** ** Handlers: a method with a receiver of type [S] reads and writes it and
    returns a value or an error; what it wrote before an error stays written. *)
Definition M (S A : Type) : Type := S -> Result A * S.

#[export] Instance M_ret S : MRet (M S) := fun _ a s => (Ok a, s).
#[export] Instance M_bind S : MBind (M S) := fun _ _ k m s =>
  match m s with
  | (Ok a, s') => k a s'
  | (Err e, s') => (Err e, s')
  end.

Definition throw {S A} (e : GoError) : M S A := fun s => (Err e, s).
Definition get {S} : M S S := fun s => (Ok s, s).
Definition modify {S} (f : S -> S) : M S unit := fun s => (Ok tt, f s).

(** [if !b { return ..., e }] *)
Definition require {S} (b : bool) (e : GoError) : M S unit :=
  fun s => if b then (Ok tt, s) else (Err e, s).

(** [value, exists := m[k]; if !exists { return ..., e }] *)
Definition require_some {S A} (o : option A) (e : GoError) : M S A :=
  fun s => match o with Some a => (Ok a, s) | None => (Err e, s) end.

(** A call that returns [(value, error)], with the error returned as is. *)
Definition lift {S A} (r : Result A) : M S A := fun s => (r, s).

(** [fmt.Errorf("text: %w", err)] around the error of a call. *)
Definition wrapError {A} (text : string) (r : Result A) : Result A :=
  match r with
  | Ok a => Ok a
  | Err e => Err (Errorf text e)
  end.

(** [if err := ctx.Err(); err != nil { return ..., err }] for the reading
    [err] of the context. *)
Definition checkContext {S} (err : option GoError) : M S unit :=
  fun s => match err with Some e => (Err e, s) | None => (Ok tt, s) end.

(** ** Weakest preconditions of handlers *)
Definition wp {S A} (m : M S A) (Q : Result A -> S -> Prop) (s : S) : Prop :=
  Q (m s).1 (m s).2.

Section wp_rules.
Context {S A B : Type}.
Implicit Types (s : S) (Q : Result A -> S -> Prop).

Lemma wp_ret (a : A) Q s : wp (mret a) Q s <-> Q (Ok a) s.
Proof. done. Qed.

Lemma wp_bind (m : M S B) (k : B -> M S A) Q s :
  wp (m ≫= k) Q s <->
  wp m (fun r s' => match r with Ok b => wp (k b) Q s' | Err e => Q (Err e) s' end) s.
Proof. unfold wp, mbind, M_bind. destruct (m s) as [[b|e] s']; done. Qed.

Lemma wp_throw e Q s : wp (throw e) Q s <-> Q (Err e) s.
Proof. done. Qed.

Lemma wp_lift (r : Result A) Q s : wp (lift r) Q s <-> Q r s.
Proof. done. Qed.

Lemma wp_require_some (o : option A) e Q s :
  wp (require_some o e) Q s <->
  (forall a, o = Some a -> Q (Ok a) s) /\ (o = None -> Q (Err e) s).
Proof. unfold wp, require_some. destruct o; naive_solver. Qed.

Lemma wp_if (b : bool) (m1 m2 : M S A) Q s :
  wp (if b then m1 else m2) Q s <->
  (b = true -> wp m1 Q s) /\ (b = false -> wp m2 Q s).
Proof. destruct b; naive_solver. Qed.

Lemma wp_run (m : M S A) Q s : wp m Q s -> forall r s', m s = (r, s') -> Q r s'.
Proof. unfold wp. intros H r s' E. by rewrite E in H. Qed.

Lemma wp_intro (m : M S A) Q s : (forall r s', m s = (r, s') -> Q r s') -> wp m Q s.
Proof. unfold wp. intros H. apply H. by destruct (m s). Qed.

Lemma wp_mono (m : M S A) (Q Q' : Result A -> S -> Prop) s :
  (forall r s', Q r s' -> Q' r s') -> wp m Q s -> wp m Q' s.
Proof. unfold wp. eauto. Qed.
End wp_rules.

Lemma wp_get {S} (Q : Result S -> S -> Prop) s : wp get Q s <-> Q (Ok s) s.
Proof. done. Qed.

Lemma wp_modify {S} (f : S -> S) (Q : Result unit -> S -> Prop) s :
  wp (modify f) Q s <-> Q (Ok tt) (f s).
Proof. done. Qed.

Lemma wp_require {S} (b : bool) e (Q : Result unit -> S -> Prop) s :
  wp (require b e) Q s <-> (b = true -> Q (Ok tt) s) /\ (b = false -> Q (Err e) s).
Proof. unfold wp, require. destruct b; naive_solver. Qed.

Lemma wp_checkContext {S} err (Q : Result unit -> S -> Prop) s :
  wp (checkContext err) Q s <->
  (err = None -> Q (Ok tt) s) /\ (forall e, err = Some e -> Q (Err e) s).
Proof. unfold wp, checkContext. destruct err; naive_solver. Qed.

Lemma wp_and {S A} (m : M S A) (Q1 Q2 : Result A -> S -> Prop) s :
  wp m Q1 s -> wp m Q2 s -> wp m (fun r s' => Q1 r s' /\ Q2 r s') s.
Proof. unfold wp. auto. Qed.

(** One step of symbolic execution of a handler; [wp_run_all] runs it to the
    end, leaving one goal per path with the path condition as hypotheses. *)
Ltac wp_step :=
  lazymatch goal with
  | |- wp (mbind _ _) _ _ => refine (proj2 (wp_bind _ _ _ _) _)
  | |- wp (mret _) _ _ => refine (proj2 (wp_ret _ _ _) _)
  | |- wp (throw _) _ _ => refine (proj2 (wp_throw _ _ _) _)
  | |- wp get _ _ => refine (proj2 (wp_get _ _) _)
  | |- wp (modify _) _ _ => refine (proj2 (wp_modify _ _ _) _)
  | |- wp (lift _) _ _ => refine (proj2 (wp_lift _ _ _) _)
  | |- wp (require _ _) _ _ => refine (proj2 (wp_require _ _ _ _) _); split; intros ?
  | |- wp (require_some _ _) _ _ =>
      refine (proj2 (wp_require_some _ _ _ _) _); split; [intros ? ?|intros ?]
  | |- wp (checkContext _) _ _ =>
      refine (proj2 (wp_checkContext _ _ _) _); split; [intros ?|intros ? ?]
  | |- wp (if _ then _ else _) _ _ => refine (proj2 (wp_if _ _ _ _ _) _); split; intros ?
  | |- wp (let _ := _ in _) _ _ => cbv zeta
  | |- match ?r with Ok _ => _ | Err _ => _ end => destruct r eqn:?
  | |- wp (match ?x with _ => _ end) _ _ => destruct x eqn:?
  end; cbv beta iota.

Ltac wp_run_all := repeat wp_step.

(** The same, closing the paths on which nothing was written. *)
Ltac wp_run_unchanged := repeat (wp_step; try match goal with |- ?s = ?s => reflexivity end).

(** ** Booleans of Go conditions *)

Lemma eqb_true {A} `{EqDecision A} (x y : A) : (x == y) = true <-> x = y.
Proof. apply bool_decide_eq_true. Qed.

Lemma eqb_false {A} `{EqDecision A} (x y : A) : (x == y) = false <-> x <> y.
Proof. apply bool_decide_eq_false. Qed.

Lemma eqb_true_1 {A} `{EqDecision A} (x y : A) : (x == y) = true -> x = y.
Proof. apply eqb_true. Qed.

Lemma eqb_false_1 {A} `{EqDecision A} (x y : A) : (x == y) = false -> x <> y.
Proof. apply eqb_false. Qed.

Lemma eqb_same {A} `{EqDecision A} (x : A) : (x == x) = true.
Proof. by apply eqb_true. Qed.

(** Turn the boolean guards of a path condition into propositions. *)
Ltac guards :=
  repeat match goal with
  | H : (_ && _)%bool = true |- _ => apply andb_true_iff in H; destruct H
  | H : (_ || _)%bool = false |- _ => apply orb_false_iff in H; destruct H
  | H : negb _ = true |- _ => apply negb_true_iff in H
  | H : negb _ = false |- _ => apply negb_false_iff in H
  | H : (_ == _) = true |- _ => apply eqb_true_1 in H
  | H : (_ == _) = false |- _ => apply eqb_false_1 in H
  | H : bool_decide _ = true |- _ => apply bool_decide_eq_true_1 in H
  | H : bool_decide _ = false |- _ => apply bool_decide_eq_false_1 in H
  | H : (_ =? _) = true |- _ => apply Z.eqb_eq in H
  | H : (_ =? _) = false |- _ => apply Z.eqb_neq in H
  | H : (_ <? _) = true |- _ => apply Z.ltb_lt in H
  | H : (_ <? _) = false |- _ => apply Z.ltb_ge in H
  | H : (_ <=? _) = true |- _ => apply Z.leb_le in H
  | H : (_ <=? _) = false |- _ => apply Z.leb_gt in H
  end.

(** What the steps of a computation that succeeded were. *)
Ltac accepted :=
  repeat match goal with
  | H : _ ≫= _ = Ok _ |- _ => apply Result_bind_Ok in H as (? & ? & ?)
  | H : ensure _ _ = Ok _ |- _ => apply ensure_Ok in H
  | H : Ok _ = Ok _ |- _ => injection H as H
  | H : Err _ = Ok _ |- _ => discriminate H
  | u : unit |- _ => destruct u
  end.

(** ** Go's [range] over a map, as an existence test *)

Section range.
Context {A : Type}.
Implicit Types (m : gmap string A) (p : string * A -> bool).

Lemma existsb_map_true m p :
  existsb p (map_to_list m) = true <-> exists k v, m !! k = Some v /\ p (k, v) = true.
Proof.
  rewrite existsb_exists. split.
  - intros ([k v] & Hin & Hp). apply list_elem_of_In, elem_of_map_to_list in Hin. eauto.
  - intros (k & v & Hk & Hp). exists (k, v). split; [|done].
    by apply list_elem_of_In, elem_of_map_to_list.
Qed.

Lemma existsb_map_false m p :
  existsb p (map_to_list m) = false <-> forall k v, m !! k = Some v -> p (k, v) = false.
Proof.
  rewrite <- not_true_iff_false, existsb_map_true. split.
  - intros H k v Hk. apply not_true_iff_false. naive_solver.
  - intros H (k & v & Hk & Hp). specialize (H k v Hk). congruence.
Qed.
End range.

(** ** Go's [range] over a map that rewrites the entry it visits

    [f] is the loop body: [Some] for an assignment to the entry, [None] for
    [continue].  Whatever the order in which the keys are visited, the map ends
    as if each entry had been rewritten on its own. *)

Section range_update.
Context {A : Type} (f : A -> option A).
Implicit Types (m : gmap string A) (ids : list string).

Definition range_update m (id : string) : gmap string A :=
  match m !! id with
  | None => m
  | Some a => match f a with None => m | Some a' => <[id := a']> m end
  end.

Definition rewritten (a : A) : A := default a (f a).

Lemma range_update_lookup m id j :
  range_update m id !! j = if decide (j = id) then rewritten <$> m !! j else m !! j.
Proof.
  unfold range_update, rewritten. destruct (m !! id) as [a|] eqn:Ha; [destruct (f a) as [a'|] eqn:Hf|];
    destruct (decide (j = id)) as [->|]; rewrite ?lookup_insert_eq, ?lookup_insert_ne, ?Ha by done;
    simpl; by rewrite ?Hf.
Qed.

Lemma foldl_range_update_lookup ids m j :
  NoDup ids ->
  foldl range_update m ids !! j = if decide (j ∈ ids) then rewritten <$> m !! j else m !! j.
Proof.
  intros Hnd. revert m. induction Hnd as [|id ids Hid Hnd IH]; intros m; cbn [foldl].
  { by rewrite decide_False by (by intros ?%elem_of_nil). }
  rewrite IH, range_update_lookup. destruct (decide (j = id)) as [->|].
  - rewrite (decide_False (P := id ∈ ids)), decide_True by set_solver. done.
  - by rewrite (decide_ext (j ∈ id :: ids) (j ∈ ids)) by set_solver.
Qed.

Lemma foldl_range_update ids m :
  NoDup ids -> (forall id, is_Some (m !! id) -> id ∈ ids) ->
  foldl range_update m ids = rewritten <$> m.
Proof.
  intros Hnd Hall. apply map_eq. intros j. rewrite foldl_range_update_lookup, lookup_fmap by done.
  destruct (decide (j ∈ ids)) as [|Hni]; [done|].
  destruct (m !! j) eqn:Hj; [|done]. destruct Hni. eauto.
Qed.
End range_update.

Lemma elem_of_keys {A} (m : gmap string A) id : is_Some (m !! id) -> id ∈ (map_to_list m).*1.
Proof.
  intros [a Ha]. apply list_elem_of_fmap. exists (id, a). split; [done|]. by apply elem_of_map_to_list.
Qed.
