(* ===== verification/Interaction.v ===== *)
(** * Programs that call interfaces

    A method that calls interfaces is a function of a world: the state [S] it shares with
    other callers, the trace of the calls made so far, as events [E], and an oracle [W] that
    answers for everything outside.  An environment maps a call and the oracle to an answer
    and the next oracle, so a theorem over all environments speaks of all answers. *)

From S2P Require Import Prelude.

Record Scene (S E W : Type) := { sc_oracle : W; sc_trace : list E; sc_state : S }.
Arguments sc_oracle {S E W}.
Arguments sc_trace {S E W}.
Arguments sc_state {S E W}.

Definition Talk (S E W A : Type) : Type := Scene S E W -> A * Scene S E W.

#[export] Instance Talk_ret S E W : MRet (Talk S E W) := fun _ a w => (a, w).
#[export] Instance Talk_bind S E W : MBind (Talk S E W) := fun _ _ k p w => let '(a, w') := p w in k a w'.

Section talk.
Context {S E W : Type}.

(** Ask the oracle, silently or as a call that the trace records. *)
Definition consult {A} (question : W -> A * W) : Talk S E W A := fun w =>
  let '(a, o) := question (sc_oracle w) in (a, {| sc_oracle := o; sc_trace := sc_trace w; sc_state := sc_state w |}).

Definition note (event : E) : Talk S E W unit := fun w =>
  (tt, {| sc_oracle := sc_oracle w; sc_trace := sc_trace w ++ [event]; sc_state := sc_state w |}).

Definition exchange {A} (question : W -> A * W) (event : A -> E) : Talk S E W A :=
  a ← consult question; note (event a);; mret a.

(** An atomic section on the shared state. *)
Definition atomically {A} (section : S -> A * S) : Talk S E W A := fun w =>
  let '(a, s) := section (sc_state w) in
  (a, {| sc_oracle := sc_oracle w; sc_trace := sc_trace w; sc_state := s |}).

(** Go's [value, err := p; if err != nil { return ..., err }]. *)
Definition attempt {A B} (p : Talk S E W (Result A)) (k : A -> Talk S E W (Result B)) : Talk S E W (Result B) :=
  r ← p; match r with Ok a => k a | Err e => mret (Err e) end.

(** [if !b { return ..., e }] *)
Definition unless {A} (b : bool) (e : GoError) (p : Talk S E W (Result A)) : Talk S E W (Result A) :=
  if b then p else mret (Err e).

(** ** What holds when a program ends *)

Definition ends {A} (p : Talk S E W A) (Q : A -> Scene S E W -> Prop) (w : Scene S E W) : Prop := Q (p w).1 (p w).2.

Section rules.
Context {A B : Type}.
Implicit Types (w : Scene S E W) (Q : A -> Scene S E W -> Prop).

Lemma ends_ret (a : A) Q w : Q a w -> ends (mret a) Q w.
Proof. done. Qed.

Lemma ends_bind (p : Talk S E W B) (k : B -> Talk S E W A) Q w :
  ends p (fun b w' => ends (k b) Q w') w -> ends (p ≫= k) Q w.
Proof. unfold ends, mbind, Talk_bind. by destruct (p w). Qed.

Lemma ends_consult (question : W -> A * W) Q w :
  (forall a o, Q a {| sc_oracle := o; sc_trace := sc_trace w; sc_state := sc_state w |}) -> ends (consult question) Q w.
Proof. unfold ends, consult. intros H. destruct (question (sc_oracle w)). apply H. Qed.

Lemma ends_consult_eq (question : W -> A * W) Q w :
  (forall a o, question (sc_oracle w) = (a, o) ->
     Q a {| sc_oracle := o; sc_trace := sc_trace w; sc_state := sc_state w |}) ->
  ends (consult question) Q w.
Proof. unfold ends, consult. intros H. destruct (question (sc_oracle w)) eqn:Hq. by apply H. Qed.

Lemma ends_note event (Q : unit -> Scene S E W -> Prop) w :
  Q tt {| sc_oracle := sc_oracle w; sc_trace := sc_trace w ++ [event]; sc_state := sc_state w |} -> ends (note event) Q w.
Proof. done. Qed.

Lemma ends_exchange (question : W -> A * W) event Q w :
  (forall a o, Q a {| sc_oracle := o; sc_trace := sc_trace w ++ [event a]; sc_state := sc_state w |}) ->
  ends (exchange question event) Q w.
Proof. unfold ends, exchange, consult, mbind, Talk_bind. intros H. destruct (question (sc_oracle w)). apply H. Qed.

Lemma ends_atomically (section : S -> A * S) Q w :
  (forall a s, section (sc_state w) = (a, s) ->
     Q a {| sc_oracle := sc_oracle w; sc_trace := sc_trace w; sc_state := s |}) ->
  ends (atomically section) Q w.
Proof. unfold ends, atomically. intros H. destruct (section (sc_state w)) eqn:Hs. by apply H. Qed.

Lemma ends_mono (p : Talk S E W A) (Q Q' : A -> Scene S E W -> Prop) w :
  ends p Q w -> (forall a w', Q a w' -> Q' a w') -> ends p Q' w.
Proof. unfold ends. auto. Qed.

Lemma ends_run (p : Talk S E W A) Q w a w' : ends p Q w -> p w = (a, w') -> Q a w'.
Proof. unfold ends. intros H E'. by rewrite E' in H. Qed.

Lemma ends_intro (p : Talk S E W A) Q w : (forall a w', p w = (a, w') -> Q a w') -> ends p Q w.
Proof. unfold ends. intros H. apply H. by destruct (p w). Qed.
End rules.

Lemma ends_attempt {A B} (p : Talk S E W (Result A)) (k : A -> Talk S E W (Result B)) Q w :
  ends p (fun r w' => match r with Ok a => ends (k a) Q w' | Err e => Q (Err e) w' end) w ->
  ends (attempt p k) Q w.
Proof. intros H. unfold attempt. apply ends_bind. eapply ends_mono; [exact H|]. by intros [a|e] w'. Qed.

Lemma ends_unless {A} b e (p : Talk S E W (Result A)) Q w :
  (b = true -> ends p Q w) -> (b = false -> Q (Err e) w) -> ends (unless b e p) Q w.
Proof. intros H1 H2. destruct b; [by apply H1|by apply ends_ret, H2]. Qed.
End talk.

Notation "x ⇐ p ; k" := (attempt p (fun x => k)) (at level 20, p at level 100, k at level 200, right associativity).

(** One step of symbolic execution. *)
Ltac talk_step :=
  lazymatch goal with
  | |- ends (mbind _ _) _ _ => apply ends_bind
  | |- ends (mret _) _ _ => apply ends_ret
  | |- ends (consult _) _ _ => apply ends_consult; intros ? ?
  | |- ends (note _) _ _ => apply ends_note
  | |- ends (exchange _ _) _ _ => apply ends_exchange; intros ? ?
  | |- ends (atomically _) _ _ => apply ends_atomically; intros ? ? ?
  | |- ends (attempt _ _) _ _ => apply ends_attempt
  | |- ends (unless _ _ _) _ _ => apply ends_unless; intros ?
  | |- ends (if ?b then _ else _) _ _ => destruct b eqn:?
  | |- ends (let _ := _ in _) _ _ => cbv zeta
  | |- ends (match ?x with _ => _ end) _ _ => destruct x eqn:?
  end; cbv beta iota.
