(* ===== verification/Sha256.v ===== *)
(** * SHA-256 and hexadecimal text

    The part of Go's [crypto/sha256] and [encoding/hex] the modelled code calls:
    [sha256.Sum256] (FIPS 180-4) on byte strings and [hex.EncodeToString].  A Go
    string or byte slice is a [string] of 8-bit [ascii] characters.  Words are
    32-bit integers kept in [Z] with their wrap-around written out.  The
    definitions evaluate, so witnesses can compute real digests; the FIPS test
    vectors at the end check them. *)

From Stdlib Require Import Ascii String ZArith List.
Import ListNotations.
Open Scope Z_scope.

Definition byteZ (c : ascii) : Z := Z.of_N (N_of_ascii c).
Definition ascii_of_Z (b : Z) : ascii := ascii_of_N (Z.to_N b).
Definition bytes_of_string (s : string) : list Z :=
  List.map byteZ (list_ascii_of_string s).
Definition string_of_bytes (l : list Z) : string :=
  string_of_list_ascii (List.map ascii_of_Z l).

Definition word (x : Z) : Z := Z.land x 0xffffffff.
Definition wadd (x y : Z) : Z := word (x + y).
Definition rotr (n x : Z) : Z := Z.lor (Z.shiftr x n) (word (Z.shiftl x (32 - n))).
Definition wnot (x : Z) : Z := Z.lxor x 0xffffffff.

Definition Ch (x y z : Z) : Z := Z.lxor (Z.land x y) (Z.land (wnot x) z).
Definition Maj (x y z : Z) : Z :=
  Z.lxor (Z.lxor (Z.land x y) (Z.land x z)) (Z.land y z).
Definition Sigma0 (x : Z) : Z := Z.lxor (Z.lxor (rotr 2 x) (rotr 13 x)) (rotr 22 x).
Definition Sigma1 (x : Z) : Z := Z.lxor (Z.lxor (rotr 6 x) (rotr 11 x)) (rotr 25 x).
Definition sigma0 (x : Z) : Z := Z.lxor (Z.lxor (rotr 7 x) (rotr 18 x)) (Z.shiftr x 3).
Definition sigma1 (x : Z) : Z := Z.lxor (Z.lxor (rotr 17 x) (rotr 19 x)) (Z.shiftr x 10).

(** The constants of FIPS 180-4 as the standard defines them: the first 32
    fractional bits of the cube roots (rounds) and square roots (initial digest)
    of the first primes. *)
Definition is_prime (n : Z) : bool :=
  List.forallb (fun d => negb (n mod d =? 0)) (List.map Z.of_nat (List.seq 2 (Z.to_nat n - 2))).
Definition primes : list Z :=
  List.filter is_prime (List.map Z.of_nat (List.seq 2 310)).

(** The integer cube root, bit by bit from bit [bits - 1] down. *)
Fixpoint cube_root (bits : nat) (acc n : Z) : Z :=
  match bits with
  | O => acc
  | S b => let next := acc + 2 ^ Z.of_nat b in
           cube_root b (if next ^ 3 <=? n then next else acc) n
  end.

Definition round_constants : list Z := Eval vm_compute in
  List.map (fun prime => word (cube_root 36 0 (Z.shiftl prime 96))) primes.
Definition initial_digest : list Z := Eval vm_compute in
  List.map (fun prime => word (Z.sqrt (Z.shiftl prime 64))) (List.firstn 8 primes).

(** The big-endian bytes of a [8 * n]-bit number. *)
Fixpoint big_endian (n : nat) (x : Z) : list Z :=
  match n with
  | O => []
  | S n' => Z.land (Z.shiftr x (8 * Z.of_nat n')) 255 :: big_endian n' x
  end.

Definition pad (msg : list Z) : list Z :=
  let len := Z.of_nat (List.length msg) in
  msg ++ [128] ++ List.repeat 0 (Z.to_nat ((55 - len) mod 64)) ++ big_endian 8 (8 * len).

Fixpoint words_of_bytes (l : list Z) : list Z :=
  match l with
  | a :: b :: c :: d :: rest =>
      (Z.shiftl a 24 + Z.shiftl b 16 + Z.shiftl c 8 + d) :: words_of_bytes rest
  | _ => []
  end.

(** The message schedule, newest word first: [n] more words after [ws]. *)
Fixpoint schedule (n : nat) (ws : list Z) : list Z :=
  match n with
  | O => List.rev ws
  | S n' =>
      let w := wadd (wadd (sigma1 (List.nth 1 ws 0)) (List.nth 6 ws 0))
                    (wadd (sigma0 (List.nth 14 ws 0)) (List.nth 15 ws 0)) in
      schedule n' (w :: ws)
  end.

Definition compress_round (st : list Z) (kw : Z * Z) : list Z :=
  match st with
  | [a; b; c; d; e; f; g; h] =>
      let t1 := wadd (wadd (wadd h (Sigma1 e)) (wadd (Ch e f g) (fst kw))) (snd kw) in
      let t2 := wadd (Sigma0 a) (Maj a b c) in
      [wadd t1 t2; a; b; c; wadd d t1; e; f; g]
  | _ => st
  end.

Definition compress (digest block : list Z) : list Z :=
  let ws := schedule 48 (List.rev block) in
  let final := List.fold_left compress_round (List.combine round_constants ws) digest in
  List.map (fun p => wadd (fst p) (snd p)) (List.combine digest final).

(** Process [n] 16-word blocks. *)
Fixpoint blocks (n : nat) (ws digest : list Z) : list Z :=
  match n with
  | O => digest
  | S n' => blocks n' (List.skipn 16 ws) (compress digest (List.firstn 16 ws))
  end.

Definition Sum256_bytes (msg : list Z) : list Z :=
  let ws := words_of_bytes (pad msg) in
  List.concat (List.map (big_endian 4) (blocks (Nat.div (List.length ws) 16) ws initial_digest)).

(** [sha256.Sum256([]byte(s))] as a 32-byte string. *)
Definition Sum256 (s : string) : string :=
  string_of_bytes (Sum256_bytes (bytes_of_string s)).

Definition hexDigit (n : Z) : ascii :=
  ascii_of_Z (if n <? 10 then 48 + n else 87 + n).

(** [hex.EncodeToString] *)
Fixpoint hex_EncodeToString (s : string) : string :=
  match s with
  | EmptyString => EmptyString
  | String c rest =>
      let b := byteZ c in
      String (hexDigit (Z.shiftr b 4)) (String (hexDigit (Z.land b 15)) (hex_EncodeToString rest))
  end.

Definition sha256_hex (s : string) : string := hex_EncodeToString (Sum256 s).

#[global] Arguments Sum256 : simpl never.
#[global] Arguments sha256_hex : simpl never.

(** ** Lengths *)

Lemma length_hex_EncodeToString s :
  String.length (hex_EncodeToString s) = (2 * String.length s)%nat.
Proof. induction s as [|c s IH]; cbn; [reflexivity|]. rewrite IH. cbn. f_equal. rewrite !PeanoNat.Nat.add_succ_r. reflexivity. Qed.

Lemma length_big_endian n x : List.length (big_endian n x) = n.
Proof. induction n; cbn; auto. Qed.

Lemma length_compress_round st kw :
  List.length st = 8%nat -> List.length (compress_round st kw) = 8%nat.
Proof. do 8 (destruct st as [|? st]; [discriminate|]). destruct st; [reflexivity|discriminate]. Qed.

Lemma length_compress d b : List.length d = 8%nat -> List.length (compress d b) = 8%nat.
Proof.
  intros Hd. unfold compress. rewrite length_map, length_combine, Hd.
  enough (forall l st, List.length st = 8%nat -> List.length (List.fold_left compress_round l st) = 8%nat)
    as H by (rewrite H; auto).
  induction l as [|kw l IH]; intros st Hst; cbn; auto using length_compress_round.
Qed.

Lemma length_blocks n ws d : List.length d = 8%nat -> List.length (blocks n ws d) = 8%nat.
Proof. revert ws d. induction n as [|n IH]; intros ws d Hd; cbn; auto using length_compress. Qed.

(** A digest has 32 bytes. *)
Lemma length_Sum256 s : String.length (Sum256 s) = 32%nat.
Proof.
  unfold Sum256, string_of_bytes, Sum256_bytes.
  set (d := blocks _ _ _). assert (List.length d = 8%nat) as Hd by (apply length_blocks; reflexivity).
  clearbody d. do 8 (destruct d as [|? d]; [discriminate|]). destruct d; [reflexivity|discriminate].
Qed.

Lemma length_sha256_hex s : String.length (sha256_hex s) = 64%nat.
Proof. unfold sha256_hex. now rewrite length_hex_EncodeToString, length_Sum256. Qed.

(** ** FIPS 180-4 test vectors *)

Example sha256_empty :
  sha256_hex "" = "e3b0c44298fc1c149afbf4c8996fb92427ae41e4649b934ca495991b7852b855"%string.
Proof. vm_compute. reflexivity. Qed.

Example sha256_abc :
  sha256_hex "abc" = "ba7816bf8f01cfea414140de5dae2223b00361a396177a9cb410ff61f20015ad"%string.
Proof. vm_compute. reflexivity. Qed.

Example sha256_two_blocks :
  sha256_hex "abcdbcdecdefdefgefghfghighijhijkijkljklmklmnlmnomnopnopq"
  = "248d6a61d20638b8e5c026930c3e6039a33ce45964ff2167f6ecedd419db06c1"%string.
Proof. vm_compute. reflexivity. Qed.

#[global] Opaque Sum256 sha256_hex.
