(* ===== verification/GoText.v ===== *)
(** * Text predicates of the Go sources

    The regular expressions and [strings]/[unicode] calls the packages use to
    validate identifiers, digests and opaque text, as boolean functions on byte
    strings.  Every pattern here is anchored at both ends, so a match is a
    statement about all characters of the string. *)

From S2P Require Import Prelude.
From S2P Require Import Sha256.
From Stdlib Require Import Ascii String.

(** ** Character classes *)

Definition in_range (lo hi : Z) (c : ascii) : bool :=
  (lo <=? byteZ c) && (byteZ c <=? hi).

Definition is_digit (c : ascii) : bool := in_range 48 57 c.
Definition is_upper (c : ascii) : bool := in_range 65 90 c.
Definition is_lower (c : ascii) : bool := in_range 97 122 c.
Definition is_alnum (c : ascii) : bool := is_digit c || is_upper c || is_lower c.
Definition is_lower_hex (c : ascii) : bool := is_digit c || in_range 97 102 c.

(** One of the characters of a literal class. *)
Fixpoint one_of_chars (cs : string) (c : ascii) : bool :=
  match cs with
  | EmptyString => false
  | String d rest => Ascii.eqb c d || one_of_chars rest c
  end.

(** Every character of a string is in the class. *)
Fixpoint all_chars (p : ascii -> bool) (s : string) : bool :=
  match s with
  | EmptyString => true
  | String c rest => p c && all_chars p rest
  end.

(** [^H[T]*$]: a first character in one class, the others in another. *)
Definition head_tail (h t : ascii -> bool) (s : string) : bool :=
  match s with
  | EmptyString => false
  | String c rest => h c && all_chars t rest
  end.

Definition len (s : string) : Z := Z.of_nat (String.length s).

(** ** Patterns *)

Definition is_ident_char (c : ascii) : bool := is_alnum c || one_of_chars "._:/@-" c.

(** [^[A-Za-z0-9][A-Za-z0-9._:/@-]*$] *)
Definition identifierPattern (s : string) : bool := head_tail is_alnum is_ident_char s.

(** [^[a-f0-9]{64}$] *)
Definition sha256Pattern (s : string) : bool := (len s =? 64) && all_chars is_lower_hex s.

(** [^[A-Z][A-Z0-9_]{0,63}$] *)
Definition resultCodePattern (s : string) : bool :=
  head_tail is_upper (fun c => is_upper c || is_digit c || one_of_chars "_" c) s && (len s <=? 64).

(** A fixed-length sequence of character classes. *)
Fixpoint matches_classes (ps : list (ascii -> bool)) (s : string) : bool :=
  match ps, s with
  | [], EmptyString => true
  | p :: ps', String c rest => p c && matches_classes ps' rest
  | _, _ => false
  end.

(** [^[a-f0-9]{8}-[a-f0-9]{4}-[1-5][a-f0-9]{3}-[89ab][a-f0-9]{3}-[a-f0-9]{12}$] *)
Definition uuidPattern (s : string) : bool :=
  matches_classes
    (List.repeat is_lower_hex 8 ++ [one_of_chars "-"] ++ List.repeat is_lower_hex 4 ++
     [one_of_chars "-"] ++ [in_range 49 53] ++ List.repeat is_lower_hex 3 ++
     [one_of_chars "-"] ++ [one_of_chars "89ab"] ++ List.repeat is_lower_hex 3 ++
     [one_of_chars "-"] ++ List.repeat is_lower_hex 12) s.

(** [validIdentifier(value, maxBytes)] of the execution packages. *)
Definition validIdentifier (value : string) (maxBytes : Z) : bool :=
  (len value <=? maxBytes) && identifierPattern value.

(** ** Facts *)

Lemma validIdentifier_nonempty s n : validIdentifier s n = true -> s <> ""%string.
Proof. intros H ->. unfold validIdentifier in H. by rewrite andb_false_r in H. Qed.

Lemma all_chars_app p s t : all_chars p (s +:+ t) = all_chars p s && all_chars p t.
Proof. induction s as [|c s IH]; [done|]. simpl. by rewrite IH, andb_assoc. Qed.

Lemma len_nonneg s : 0 <= len s.
Proof. unfold len. lia. Qed.

(** A digest as [hex.EncodeToString] prints it matches the digest pattern. *)
Lemma hexDigit_lower_hex n : 0 <= n < 16 -> is_lower_hex (hexDigit n) = true.
Proof.
  intros Hn.
  assert (forallb (fun k => is_lower_hex (hexDigit (Z.of_nat k))) (seq 0 16) = true) as Hall by reflexivity.
  rewrite forallb_forall in Hall. specialize (Hall (Z.to_nat n)). rewrite Z2Nat.id in Hall by lia.
  apply Hall, in_seq. lia.
Qed.

Lemma byteZ_range c : 0 <= byteZ c < 256.
Proof. unfold byteZ. pose proof (N_ascii_bounded c). lia. Qed.

Lemma hex_EncodeToString_chars s : all_chars is_lower_hex (hex_EncodeToString s) = true.
Proof.
  induction s as [|c s IH]; [done|]. cbn -[hexDigit].
  pose proof (byteZ_range c).
  rewrite !hexDigit_lower_hex, IH; [done| |].
  - change 15 with (Z.ones 4). rewrite Z.land_ones by lia. apply Z.mod_pos_bound. lia.
  - rewrite Z.shiftr_div_pow2 by lia. change (2 ^ 4) with 16.
    split; [apply Z.div_pos; lia | apply Z.div_lt_upper_bound; lia].
Qed.

Lemma sha256_hex_pattern s : sha256Pattern (sha256_hex s) = true.
Proof.
  unfold sha256Pattern, len. rewrite length_sha256_hex.
  replace (sha256_hex s) with (hex_EncodeToString (Sum256 s)); [|by with_strategy transparent [sha256_hex] unfold sha256_hex].
  by rewrite hex_EncodeToString_chars.
Qed.
