(* ===== verification/GoStrings.v ===== *)
(** * Go's [strings], [unicode/utf8], [path] and [encoding/base64]

    The functions of the standard library the modelled packages call on text,
    on byte strings: UTF-8 decoding, [strings.TrimSpace], [strings.Split],
    [strings.EqualFold] on ASCII, [path.Clean] and unpadded URL-safe base64,
    with the round trip of the latter. *)

From S2P Require Import Prelude.
From S2P Require Import Sha256.
From S2P Require Import GoText.
From Stdlib Require Import Ascii String.

(** ** UTF-8 *)

Definition RuneError : Z := 0xfffd.
Definition byte_in (lo hi b : Z) : bool := (lo <=? b) && (b <=? hi).
Definition continuation (b : Z) : bool := byte_in 0x80 0xbf b.
Definition six_bits (b : Z) : Z := Z.land b 0x3f.

(** [utf8.DecodeRune]: the first rune and its width; an invalid or truncated
    sequence is [RuneError] of width 1. *)
Definition DecodeRune (bytes : list Z) : Z * nat :=
  match bytes with
  | [] => (RuneError, 0%nat)
  | b0 :: rest =>
      if b0 <? 0x80 then (b0, 1%nat)
      else
        match rest with
        | b1 :: rest =>
            if byte_in 0xc2 0xdf b0 && continuation b1 then
              (Z.shiftl (Z.land b0 0x1f) 6 + six_bits b1, 2%nat)
            else
              match rest with
              | b2 :: rest =>
                  if byte_in 0xe0 0xef b0 && continuation b2 &&
                     byte_in (if b0 =? 0xe0 then 0xa0 else 0x80) (if b0 =? 0xed then 0x9f else 0xbf) b1
                  then (Z.shiftl (Z.land b0 0x0f) 12 + Z.shiftl (six_bits b1) 6 + six_bits b2, 3%nat)
                  else
                    match rest with
                    | b3 :: _ =>
                        if byte_in 0xf0 0xf4 b0 && continuation b2 && continuation b3 &&
                           byte_in (if b0 =? 0xf0 then 0x90 else 0x80) (if b0 =? 0xf4 then 0x8f else 0xbf) b1
                        then (Z.shiftl (Z.land b0 0x07) 18 + Z.shiftl (six_bits b1) 12 +
                              Z.shiftl (six_bits b2) 6 + six_bits b3, 4%nat)
                        else (RuneError, 1%nat)
                    | [] => (RuneError, 1%nat)
                    end
              | [] => (RuneError, 1%nat)
              end
        | [] => (RuneError, 1%nat)
        end
  end.

(** The runes of a byte sequence, each with its bytes: [for _, r := range s].
    A rune takes at least one byte, so the number of bytes is enough fuel. *)
Fixpoint runes_fuel (fuel : nat) (bytes : list Z) : list (Z * list Z) :=
  match fuel, bytes with
  | O, _ | _, [] => []
  | S fuel, _ =>
      let '(r, n) := DecodeRune bytes in
      (r, firstn n bytes) :: runes_fuel fuel (skipn n bytes)
  end.

Definition runes (s : string) : list (Z * list Z) :=
  let bytes := bytes_of_string s in runes_fuel (List.length bytes) bytes.

(** [unicode.IsSpace] *)
Definition IsSpace (r : Z) : bool :=
  byte_in 0x09 0x0d r || (r =? 0x20) || (r =? 0x85) || (r =? 0xa0) || (r =? 0x1680) ||
  byte_in 0x2000 0x200a r || (r =? 0x2028) || (r =? 0x2029) || (r =? 0x202f) || (r =? 0x205f) ||
  (r =? 0x3000).

Fixpoint drop_spaces (rs : list (Z * list Z)) : list (Z * list Z) :=
  match rs with
  | (r, bytes) :: rest => if IsSpace r then drop_spaces rest else rs
  | [] => []
  end.

(** [strings.TrimSpace] *)
Definition TrimSpace (s : string) : string :=
  string_of_bytes (List.concat (List.map snd (List.rev (drop_spaces (List.rev (drop_spaces (runes s))))))).

(** ** [strings] and [path] *)

Fixpoint HasPrefix (s prefix : string) : bool :=
  match prefix, s with
  | EmptyString, _ => true
  | String c prefix, String d s => Ascii.eqb c d && HasPrefix s prefix
  | String _ _, EmptyString => false
  end.

(** [strings.Split(s, sep)] for a one-byte separator. *)
Fixpoint Split (s : string) (sep : ascii) : list string :=
  match s with
  | EmptyString => [EmptyString]
  | String c rest =>
      if Ascii.eqb c sep then EmptyString :: Split rest sep
      else
        match Split rest sep with
        | first :: others => String c first :: others
        | [] => [String c EmptyString]
        end
  end.

Fixpoint strings_Join (parts : list string) (sep : string) : string :=
  match parts with
  | [] => EmptyString
  | [part] => part
  | part :: rest => part +:+ sep +:+ strings_Join rest sep
  end.

(** [strings.EqualFold] where one side has only ASCII letters without another
    simple folding (neither k nor s), so that folding is that of ASCII. *)
Definition ascii_fold (c : ascii) : ascii :=
  if is_upper c then ascii_of_Z (byteZ c + 32) else c.
Fixpoint EqualFold (s t : string) : bool :=
  match s, t with
  | EmptyString, EmptyString => true
  | String c s, String d t => Ascii.eqb (ascii_fold c) (ascii_fold d) && EqualFold s t
  | _, _ => false
  end.

(** The elements [path.Clean] keeps, newest first: empty and [.] elements are
    dropped, [..] removes the element before it, or is dropped at the root. *)
Fixpoint clean_elements (rooted : bool) (acc : list string) (elements : list string) : list string :=
  match elements with
  | [] => acc
  | element :: rest =>
      clean_elements rooted
        (if (element == ""%string) || (element == "."%string) then acc
         else if element == ".."%string then
           match acc with
           | last :: before => if last == ".."%string then ".."%string :: acc else before
           | [] => if rooted then [] else [".."%string]
           end
         else element :: acc) rest
  end.

(** [path.Clean] *)
Definition path_Clean (path : string) : string :=
  let rooted := HasPrefix path "/" in
  let kept := strings_Join (List.rev (clean_elements rooted [] (Split path "/"%char))) "/" in
  if rooted then "/" +:+ kept else if kept == ""%string then "."%string else kept.

(** ** [base64.RawURLEncoding] *)

Definition base64_char (n : Z) : Z :=
  if n <? 26 then 65 + n else if n <? 52 then 71 + n else if n <? 62 then n - 4
  else if n =? 62 then 45 else 95.

Definition base64_value (c : Z) : option Z :=
  if byte_in 65 90 c then Some (c - 65)
  else if byte_in 97 122 c then Some (c - 71)
  else if byte_in 48 57 c then Some (c + 4)
  else if c =? 45 then Some 62 else if c =? 95 then Some 63 else None.

Fixpoint base64_encode_bytes (bytes : list Z) : list Z :=
  match bytes with
  | a :: b :: c :: rest =>
      base64_char (Z.shiftr a 2) ::
      base64_char (Z.lor (Z.shiftl (Z.land a 3) 4) (Z.shiftr b 4)) ::
      base64_char (Z.lor (Z.shiftl (Z.land b 15) 2) (Z.shiftr c 6)) ::
      base64_char (Z.land c 63) :: base64_encode_bytes rest
  | [a; b] =>
      [base64_char (Z.shiftr a 2);
       base64_char (Z.lor (Z.shiftl (Z.land a 3) 4) (Z.shiftr b 4));
       base64_char (Z.shiftl (Z.land b 15) 2)]
  | [a] => [base64_char (Z.shiftr a 2); base64_char (Z.shiftl (Z.land a 3) 4)]
  | [] => []
  end.

(** The decoder, on input without line breaks; unused low bits of a short last
    group are ignored, as the non-strict encoding does. *)
Fixpoint base64_decode_values (values : list Z) : option (list Z) :=
  match values with
  | a :: b :: c :: d :: rest =>
      more ← base64_decode_values rest;
      Some (Z.lor (Z.shiftl a 2) (Z.shiftr b 4) ::
            Z.lor (Z.shiftl (Z.land b 15) 4) (Z.shiftr c 2) ::
            Z.lor (Z.shiftl (Z.land c 3) 6) d :: more)
  | [a; b; c] => Some [Z.lor (Z.shiftl a 2) (Z.shiftr b 4); Z.lor (Z.shiftl (Z.land b 15) 4) (Z.shiftr c 2)]
  | [a; b] => Some [Z.lor (Z.shiftl a 2) (Z.shiftr b 4)]
  | [_] => None
  | [] => Some []
  end.

Definition base64_EncodeToString (s : string) : string :=
  string_of_bytes (base64_encode_bytes (bytes_of_string s)).

(** [RawURLEncoding.DecodeString]: line breaks are skipped, [None] is an error. *)
Definition base64_DecodeString (s : string) : option string :=
  values ← mapM base64_value (List.filter (fun b => negb ((b =? 10) || (b =? 13))) (bytes_of_string s));
  bytes ← base64_decode_values values;
  Some (string_of_bytes bytes).

(** ** Facts *)

Lemma byteZ_of_Z b : 0 <= b < 256 -> byteZ (ascii_of_Z b) = b.
Proof. intros Hb. unfold byteZ, ascii_of_Z. rewrite N_ascii_embedding by lia. lia. Qed.

Lemma ascii_of_byteZ c : ascii_of_Z (byteZ c) = c.
Proof. unfold byteZ, ascii_of_Z. by rewrite N2Z.id, ascii_N_embedding. Qed.

Lemma string_of_bytes_of_string s : string_of_bytes (bytes_of_string s) = s.
Proof.
  unfold string_of_bytes, bytes_of_string. rewrite List.map_map.
  rewrite (List.map_ext _ id) by (intros c; apply ascii_of_byteZ).
  rewrite List.map_id. apply string_of_list_ascii_of_string.
Qed.

Lemma bytes_of_string_of_bytes l :
  Forall (fun b => 0 <= b < 256) l -> bytes_of_string (string_of_bytes l) = l.
Proof.
  intros Hl. unfold string_of_bytes, bytes_of_string. rewrite list_ascii_of_string_of_list_ascii, List.map_map.
  induction Hl as [|b l Hb _ IH]; simpl; [done|]. by rewrite IH, byteZ_of_Z.
Qed.

Lemma bytes_of_string_range s : Forall (fun b => 0 <= b < 256) (bytes_of_string s).
Proof.
  unfold bytes_of_string. apply List.Forall_map, List.Forall_forall. intros c _. apply byteZ_range.
Qed.

Lemma length_bytes_of_string s : List.length (bytes_of_string s) = String.length s.
Proof. unfold bytes_of_string. rewrite List.length_map. induction s; simpl; auto. Qed.

(** *** Bits of disjoint fields *)

Lemma lor_shiftl_add a b k : 0 <= k -> 0 <= b < 2 ^ k -> Z.lor (Z.shiftl a k) b = a * 2 ^ k + b.
Proof.
  intros Hk Hb. rewrite <- Z.shiftl_mul_pow2 by done.
  assert (Z.land (Z.shiftl a k) b = 0) as Hd; [|pose proof (Z.add_lor_land (Z.shiftl a k) b); lia].
  apply Z.bits_inj'. intros n Hn. rewrite Z.land_spec, Z.bits_0.
  destruct (Z.ltb_spec n k).
  - by rewrite Z.shiftl_spec_low.
  - destruct (decide (b = 0)) as [->|]; [by rewrite Z.bits_0, andb_false_r|].
    rewrite (Z.bits_above_log2 b n), andb_false_r; [done|lia|]. apply Z.log2_lt_pow2; [lia|].
    apply (Z.lt_le_trans _ (2 ^ k)); [lia|]. apply Z.pow_le_mono_r; lia.
Qed.

Lemma land_low a k : 0 <= k -> Z.land a (2 ^ k - 1) = a mod 2 ^ k.
Proof. intros Hk. rewrite <- Z.land_ones by done. by rewrite Z.ones_equiv. Qed.

(** The sextets of three bytes, and the bytes back, as arithmetic. *)
Lemma sextet2 a b : 0 <= b < 256 ->
  Z.lor (Z.shiftl (Z.land a 3) 4) (Z.shiftr b 4) = a mod 4 * 16 + b / 16.
Proof.
  intros Hb. rewrite Z.shiftr_div_pow2 by lia. change 3 with (2 ^ 2 - 1). rewrite land_low by lia.
  apply lor_shiftl_add; [lia|]. change (2 ^ 4) with 16. Z.to_euclidean_division_equations; lia.
Qed.

Lemma sextet3 b c : 0 <= c < 256 ->
  Z.lor (Z.shiftl (Z.land b 15) 2) (Z.shiftr c 6) = b mod 16 * 4 + c / 64.
Proof.
  intros Hb. rewrite Z.shiftr_div_pow2 by lia. change 15 with (2 ^ 4 - 1). rewrite land_low by lia.
  apply lor_shiftl_add; [lia|]. change (2 ^ 6) with 64. change (2 ^ 2) with 4.
  Z.to_euclidean_division_equations; lia.
Qed.

Lemma octet1 v w : 0 <= w < 64 -> Z.lor (Z.shiftl v 2) (Z.shiftr w 4) = v * 4 + w / 16.
Proof.
  intros Hw. rewrite Z.shiftr_div_pow2 by lia. apply lor_shiftl_add; [lia|].
  change (2 ^ 4) with 16. change (2 ^ 2) with 4. Z.to_euclidean_division_equations; lia.
Qed.

Lemma octet2 v w : 0 <= w < 64 ->
  Z.lor (Z.shiftl (Z.land v 15) 4) (Z.shiftr w 2) = v mod 16 * 16 + w / 4.
Proof.
  intros Hw. rewrite Z.shiftr_div_pow2 by lia. change 15 with (2 ^ 4 - 1). rewrite land_low by lia.
  apply lor_shiftl_add; [lia|]. change (2 ^ 4) with 16. change (2 ^ 2) with 4.
  Z.to_euclidean_division_equations; lia.
Qed.

Lemma octet3 v w : 0 <= w < 64 -> Z.lor (Z.shiftl (Z.land v 3) 6) w = v mod 4 * 64 + w.
Proof.
  intros Hw. change 3 with (2 ^ 2 - 1). rewrite land_low by lia. by apply lor_shiftl_add.
Qed.

Lemma base64_value_char n : 0 <= n < 64 -> base64_value (base64_char n) = Some n.
Proof.
  intros Hn.
  assert (forallb (fun k => bool_decide (base64_value (base64_char (Z.of_nat k)) = Some (Z.of_nat k)))
            (seq 0 64) = true) as Hall by reflexivity.
  rewrite forallb_forall in Hall. specialize (Hall (Z.to_nat n)). rewrite Z2Nat.id in Hall by lia.
  eapply bool_decide_eq_true_1, Hall, in_seq. lia.
Qed.

Lemma base64_char_range n : 0 <= n < 64 -> 45 <= base64_char n <= 122.
Proof.
  intros Hn. unfold base64_char.
  repeat match goal with |- context [if ?b then _ else _] => destruct b eqn:? end; guards; lia.
Qed.

Ltac octets :=
  rewrite ?octet1, ?octet2, ?octet3 by (Z.to_euclidean_division_equations; lia);
  repeat f_equal; Z.to_euclidean_division_equations; lia.

Lemma base64_encode_values l :
  Forall (fun b => 0 <= b < 256) l ->
  exists vs, base64_encode_bytes l = List.map base64_char vs /\ Forall (fun v => 0 <= v < 64) vs /\
    base64_decode_values vs = Some l.
Proof.
  induction l as [l IH] using (induction_ltof1 _ (@List.length Z)). intros Hl.
  destruct l as [|a [|b [|c rest]]];
    repeat match goal with H : Forall _ (_ :: _) |- _ => apply Forall_cons in H as [? H] end.
  - by exists [].
  - exists [Z.shiftr a 2; Z.shiftl (Z.land a 3) 4]. split; [done|].
    change 3 with (2 ^ 2 - 1). rewrite Z.shiftr_div_pow2, land_low, Z.shiftl_mul_pow2 by lia.
    split; [repeat constructor; change (2 ^ 2) with 4; change (2 ^ 4) with 16; Z.to_euclidean_division_equations; lia|].
    cbn [base64_decode_values]. change (2 ^ 2) with 4. change (2 ^ 4) with 16. octets.
  - exists [Z.shiftr a 2; Z.lor (Z.shiftl (Z.land a 3) 4) (Z.shiftr b 4); Z.shiftl (Z.land b 15) 2].
    split; [done|]. rewrite sextet2 by done. change 15 with (2 ^ 4 - 1).
    rewrite Z.shiftr_div_pow2, land_low, Z.shiftl_mul_pow2 by lia. change (2 ^ 2) with 4. change (2 ^ 4) with 16.
    split; [repeat constructor; Z.to_euclidean_division_equations; lia|]. cbn [base64_decode_values]. octets.
  - destruct (IH rest) as (vs & Hvs & Hr & Hd); [unfold ltof; simpl; lia|done|].
    exists (Z.shiftr a 2 :: Z.lor (Z.shiftl (Z.land a 3) 4) (Z.shiftr b 4) ::
            Z.lor (Z.shiftl (Z.land b 15) 2) (Z.shiftr c 6) :: Z.land c 63 :: vs).
    split; [cbn; by rewrite Hvs|]. rewrite sextet2, sextet3 by done. change 63 with (2 ^ 6 - 1).
    rewrite Z.shiftr_div_pow2, land_low by lia. change (2 ^ 2) with 4. change (2 ^ 6) with 64.
    split; [repeat constructor; try done; Z.to_euclidean_division_equations; lia|].
    cbn [base64_decode_values]. rewrite Hd. cbn [mbind option_bind]. octets.
Qed.

(** Decoding what was encoded gives it back. *)
Lemma base64_Decode_Encode s : base64_DecodeString (base64_EncodeToString s) = Some s.
Proof.
  destruct (base64_encode_values (bytes_of_string s) (bytes_of_string_range s)) as (vs & He & Hr & Hd).
  unfold base64_DecodeString, base64_EncodeToString. rewrite He.
  assert (Forall (fun c => 45 <= c <= 122) (List.map base64_char vs)) as Hc.
  { apply List.Forall_map. eapply List.Forall_impl; [|apply Hr]. intros. by apply base64_char_range. }
  rewrite bytes_of_string_of_bytes by (eapply List.Forall_impl; [|apply Hc]; simpl; lia).
  assert (List.filter (fun b => negb ((b =? 10) || (b =? 13))) (List.map base64_char vs) =
          List.map base64_char vs) as ->.
  { clear -Hc. induction Hc as [|c l Hc _ IH]; [done|]. simpl. rewrite IH.
    assert (c <> 10 /\ c <> 13) as [->%Z.eqb_neq ->%Z.eqb_neq] by lia. done. }
  assert (mapM base64_value (List.map base64_char vs) = Some vs) as ->.
  { clear -Hr. induction Hr as [|v vs Hv _ IH]; [done|]. simpl. rewrite base64_value_char by done. simpl. by rewrite IH. }
  simpl. rewrite Hd. simpl. by rewrite string_of_bytes_of_string.
Qed.

(** The characters of an encoding, and its length for a 64-byte signature. *)
Lemma length_base64_encode_bytes l :
  (3 * List.length (base64_encode_bytes l) <= 4 * List.length l + 2)%nat.
Proof.
  induction l as [l IH] using (induction_ltof1 _ (@List.length Z)).
  destruct l as [|a [|b [|c rest]]]; simpl; try lia.
  specialize (IH rest). unfold ltof in IH. simpl in IH. lia.
Qed.

Lemma len_base64 s : 3 * len (base64_EncodeToString s) <= 4 * len s + 2.
Proof.
  unfold len, base64_EncodeToString, string_of_bytes.
  assert (forall l, String.length (string_of_list_ascii l) = List.length l) as Hlen
    by (induction l; simpl; auto).
  rewrite Hlen, List.length_map, <- (length_bytes_of_string s).
  pose proof (length_base64_encode_bytes (bytes_of_string s)). lia.
Qed.

(** ** Splitting at the last separator *)

Lemma last_separator c a b a' b' :
  all_chars (fun d => negb (Ascii.eqb d c)) b = true -> all_chars (fun d => negb (Ascii.eqb d c)) b' = true ->
  a +:+ String c b = a' +:+ String c b' -> a = a' /\ b = b'.
Proof.
  intros Hb Hb'. revert a'. induction a as [|d a IH]; intros [|d' a'] H; simplify_eq/=.
  - done.
  - rewrite all_chars_app in Hb. simpl in Hb. rewrite Ascii.eqb_refl in Hb. by rewrite andb_false_r in Hb.
  - rewrite all_chars_app in Hb'. simpl in Hb'. rewrite Ascii.eqb_refl in Hb'. by rewrite andb_false_r in Hb'.
  - by destruct (IH a') as [-> ->].
Qed.

Lemma all_chars_impl (p q : ascii -> bool) s :
  (forall c, p c = true -> q c = true) -> all_chars p s = true -> all_chars q s = true.
Proof. intros H. induction s as [|c s IH]; simpl; [done|]. intros Hs. guards. by rewrite H, IH. Qed.

Lemma string_app_assoc (a b c : string) : a +:+ (b +:+ c) = (a +:+ b) +:+ c.
Proof. induction a as [|d a IH]; [done|]. exact (f_equal (String d) IH). Qed.
