(* ===== verification/GoJson.v ===== *)
(** * Go's [encoding/json] and [time] formatting

    [json.Marshal] on the values the modelled code marshals: structs (as objects
    whose members are in field order), strings, integers, booleans, slices, and
    UTC times in RFC 3339 with nanoseconds.  Strings are escaped as [Marshal]
    does: control characters, quotes, the HTML characters and the line
    separators, with invalid UTF-8 replaced. *)

From S2P Require Import Prelude.
From S2P Require Import Sha256.
From S2P Require Import GoText.
From S2P Require Import GoStrings.
From stdpp Require Import pretty.
From Stdlib Require Import Ascii String.

Open Scope Z_scope.

(** ** Strings *)

Definition quote : string := String (ascii_of_Z 34) EmptyString.

(** [htmlSafeSet], below [utf8.RuneSelf]. *)
Definition htmlSafe (b : Z) : bool :=
  byte_in 0x20 0x7f b && negb ((b =? 34) || (b =? 92) || (b =? 60) || (b =? 62) || (b =? 38)).

Definition hexByte (n : Z) : Z := byteZ (hexDigit n).

(** What [appendString] writes for one rune, given with its bytes. *)
Definition appendRune (rune : Z * list Z) : list Z :=
  let '(r, bytes) := rune in
  if r <? 0x80 then
    if htmlSafe r then bytes
    else if (r =? 34) || (r =? 92) then [92; r]
    else if r =? 8 then [92; 98] else if r =? 12 then [92; 102] else if r =? 10 then [92; 110]
    else if r =? 13 then [92; 114] else if r =? 9 then [92; 116]
    else [92; 117; 48; 48; hexByte (Z.shiftr r 4); hexByte (Z.land r 15)]
  else if (r =? RuneError) && (Z.of_nat (List.length bytes) =? 1) then [92; 117; 102; 102; 102; 100]
  else if (r =? 0x2028) || (r =? 0x2029) then [92; 117; 50; 48; 50; hexByte (Z.land r 15)]
  else bytes.

Definition encodeString (s : string) : string :=
  quote +:+ string_of_bytes (List.concat (List.map appendRune (runes s))) +:+ quote.

(** ** Values *)

(** [JText] is a value whose encoding is given: a number of type [float64], or what
    [json.RawMessage] holds, compacted. *)
#[warnings="-register-all"]
Inductive Json :=
| JString (s : string)
| JInt (n : Z)
| JBool (b : bool)
| JArray (values : list Json)
| JObject (members : list (string * Json))
| JNull
| JText (text : string).

(** [strconv.FormatInt(n, 10)] *)
Definition FormatInt (n : Z) : string := pretty n.

Fixpoint Marshal (value : Json) : string :=
  match value with
  | JString s => encodeString s
  | JInt n => FormatInt n
  | JBool b => if b then "true" else "false"
  | JArray values => "[" +:+ strings_Join (List.map Marshal values) "," +:+ "]"
  | JObject members =>
      "{" +:+ strings_Join (List.map (fun '(key, member) => encodeString key +:+ ":" +:+ Marshal member) members) "," +:+ "}"
  | JNull => "null"
  | JText text => text
  end.

(** A member with [omitempty]: left out when the value is nil, or empty text. *)
Definition omitnil {A} (key : string) (encode : A -> Json) (value : option A) : list (string * Json) :=
  match value with
  | Some a => [(key, encode a)]
  | None => []
  end.
Definition omitempty (key value : string) : list (string * Json) :=
  if value == ""%string then [] else [(key, JString value)].

(** ** Times *)

(** The civil date of a day counted from 1 January of year 1 (proleptic
    Gregorian calendar): years of March to February in 400-year eras. *)
Definition civil_of_days (days : Z) : Z * Z * Z :=
  let z := days + 306 in
  let era := z / 146097 in
  let doe := z mod 146097 in
  let yoe := (doe - doe / 1460 + doe / 36524 - doe / 146096) / 365 in
  let doy := doe - (365 * yoe + yoe / 4 - yoe / 100) in
  let mp := (5 * doy + 2) / 153 in
  let day := doy - (153 * mp + 2) / 5 + 1 in
  let month := if mp <? 10 then mp + 3 else mp - 9 in
  (yoe + 400 * era + (if month <=? 2 then 1 else 0), month, day).

(** [n >= 0] in decimal on at least [width] digits, [width <= 9]. *)
Definition digits (width : nat) (n : Z) : string :=
  String.concat "" [String.substring 0 (width - String.length (FormatInt n)) "000000000"; FormatInt n].

(** The fraction of a second without trailing zeros, with its point. *)
Fixpoint trim_zeros (fuel : nat) (n : Z) (width : nat) : string :=
  match fuel with
  | O => EmptyString
  | S fuel => if n =? 0 then EmptyString
              else if n mod 10 =? 0 then trim_zeros fuel (n / 10) (width - 1)
              else "." +:+ digits width n
  end.

(** A [time.Time] with the offset of its zone, in seconds east of UTC. *)
Record ZonedTime := { zt_instant : Time; zt_offset : Z }.

#[export] Instance ZonedTime_eq_dec : EqDecision ZonedTime.
Proof. solve_decision. Defined.

Definition UTC (t : Time) : ZonedTime := {| zt_instant := t; zt_offset := 0 |}.

(** The zone as [Z07:00] prints it. *)
Definition format_zone (offset : Z) : string :=
  if offset =? 0 then "Z"
  else
    let zone := Z.abs (Z.quot offset 60) in
    (if Z.quot offset 60 <? 0 then "-" else "+") +:+ digits 2 (zone / 60) +:+ ":" +:+ digits 2 (zone mod 60).

(** [t.Format(time.RFC3339Nano)] *)
Definition RFC3339Nano (t : ZonedTime) : string :=
  let seconds := zt_instant t / Second + zt_offset t in
  let rest := seconds mod 86400 in
  let '(year, month, day) := civil_of_days (seconds / 86400) in
  digits 4 year +:+ "-" +:+ digits 2 month +:+ "-" +:+ digits 2 day +:+ "T" +:+
  digits 2 (rest / 3600) +:+ ":" +:+ digits 2 (rest / 60 mod 60) +:+ ":" +:+ digits 2 (rest mod 60) +:+
  trim_zeros 10 (zt_instant t mod Second) 9 +:+ format_zone (zt_offset t).

(** [Time.MarshalJSON]: an error for a year outside 0 to 9999 or a zone of 24
    hours and more. *)
Definition marshalTime (t : ZonedTime) : Result Json :=
  let '(year, _, _) := civil_of_days ((zt_instant t / Second + zt_offset t) / 86400) in
  if negb ((0 <=? year) && (year <=? 9999)) then Err (errors_New "year outside of range [0,9999]")
  else if 24 <=? Z.abs (Z.quot (zt_offset t) 60) / 60 then
    Err (errors_New "timezone hour outside of range [0,23]")
  else Ok (JString (RFC3339Nano t)).

Example RFC3339Nano_zero : RFC3339Nano (UTC 0) = "0001-01-01T00:00:00Z"%string.
Proof. vm_compute. reflexivity. Qed.

(** 2026-02-28T23:59:59.05Z and the leap day of 2024, seen from -05:30. *)
Example RFC3339Nano_fraction :
  RFC3339Nano (UTC (63907919999 * Second + 50000000)) = "2026-02-28T23:59:59.05Z"%string.
Proof. vm_compute. reflexivity. Qed.

Example RFC3339Nano_leap : RFC3339Nano {| zt_instant := 63844761600 * Second; zt_offset := -19800 |} = "2024-02-28T18:30:00-05:30"%string.
Proof. vm_compute. reflexivity. Qed.

(** ** Facts *)

Definition plain_char (c : ascii) : bool := htmlSafe (byteZ c) && (byteZ c <? 0x80).

Lemma runes_fuel_plain fuel s :
  (String.length s <= fuel)%nat -> all_chars plain_char s = true ->
  runes_fuel fuel (bytes_of_string s) = List.map (fun b => (b, [b])) (bytes_of_string s).
Proof.
  revert s. induction fuel as [|fuel IH]; intros [|c s] Hf Hs; [done|simpl in Hf; lia|done|].
  simpl in Hf, Hs. guards. unfold plain_char in *. guards.
  assert (DecodeRune (byteZ c :: bytes_of_string s) = (byteZ c, 1%nat)) as Hd.
  { unfold DecodeRune. by rewrite (proj2 (Z.ltb_lt _ _)). }
  change (bytes_of_string (String c s)) with (byteZ c :: bytes_of_string s).
  cbn [runes_fuel]. rewrite Hd. cbn [firstn skipn List.map]. rewrite take_0, drop_0.
  by rewrite IH by (done || lia).
Qed.

(** Text that needs no escape is quoted as it is. *)
Lemma encodeString_plain s : all_chars plain_char s = true -> encodeString s = quote +:+ s +:+ quote.
Proof.
  intros Hs. unfold encodeString, runes. rewrite runes_fuel_plain by (rewrite ?length_bytes_of_string; done).
  rewrite List.map_map.
  assert (List.concat (List.map (fun b => appendRune (b, [b])) (bytes_of_string s)) = bytes_of_string s) as ->;
    [|by rewrite string_of_bytes_of_string].
  induction s as [|c s IH]; [done|]. simpl in Hs. guards. unfold plain_char in H. guards.
  change (bytes_of_string (String c s)) with (byteZ c :: bytes_of_string s). cbn [List.map List.concat].
  rewrite IH by done. unfold appendRune. by rewrite (proj2 (Z.ltb_lt _ _)), H by done.
Qed.

(** A positive number prints as digits. *)
Lemma FormatInt_digits n : 0 < n -> all_chars is_digit (FormatInt n) = true.
Proof.
  intros Hn. destruct n as [|p|p]; [lia| |lia]. change (FormatInt (Zpos p)) with (pretty_N_go (Npos p) ""%string).
  assert (all_chars is_digit ""%string = true) as Hs by done. revert Hs. generalize ""%string.
  induction (N.lt_wf_0 (Npos p)) as [x _ IH]; intros s Hs.
  assert (x = 0 \/ 0 < x)%N as [->|?] by lia; [by rewrite pretty_N_go_0|].
  rewrite pretty_N_go_step by done. apply IH; [by apply N.div_lt|].
  simpl. rewrite Hs, andb_true_r. unfold pretty_N_char. by repeat case_match.
Qed.

Lemma FormatInt_inj n m : FormatInt n = FormatInt m -> n = m.
Proof. apply (inj pretty). Qed.
