(* ===== verification/GoSort.v ===== *)
(** * Sorting: [sort.Slice] by instants and identifiers

    The comparisons the repositories sort by are lexicographic on a few instants
    and, last, on an identifier.  The result of sorting is then sorted, and it
    depends on the set of elements only, not on the order in which Go's [range]
    over a map delivered them. *)

From S2P Require Import Prelude.
From stdpp Require Import sorting.

Open Scope Z_scope.

Abbreviation StronglySorted := Sorted.StronglySorted.

(** [sort.Slice] with [less] as comparison: the comparisons here leave no two
    different elements equivalent, so that the result does not depend on the
    algorithm; insertion is the simplest. *)
Section sort.
Context {A : Type} (less : A -> A -> bool).

Fixpoint insert_sorted (a : A) (sorted : list A) : list A :=
  match sorted with
  | [] => [a]
  | b :: rest => if less b a then b :: insert_sorted a rest else a :: sorted
  end.

Definition sort_Slice (items : list A) : list A := foldr insert_sorted [] items.

Lemma insert_sorted_perm a l : insert_sorted a l ≡ₚ a :: l.
Proof.
  induction l as [|b l IH]; [done|]. simpl. destruct (less b a); [|done].
  rewrite IH. apply Permutation_swap.
Qed.

Lemma sort_Slice_perm l : sort_Slice l ≡ₚ l.
Proof. induction l as [|a l IH]; [done|]. unfold sort_Slice in *. simpl. by rewrite insert_sorted_perm, IH. Qed.

(** Not greater. *)
Definition le_of (a b : A) : Prop := less b a = false.

Context (le_trans : forall a b c, le_of a b -> le_of b c -> le_of a c).
Context (le_total : forall a b, less b a = true -> le_of b a).

Lemma insert_sorted_sorted a l : StronglySorted le_of l -> StronglySorted le_of (insert_sorted a l).
Proof.
  induction 1 as [|b l Hs IH Hall]; simpl; [by repeat constructor|].
  destruct (less b a) eqn:Hba.
  - constructor; [done|]. rewrite insert_sorted_perm. constructor; [by apply le_total|done].
  - repeat constructor; try done. eapply Forall_impl; [exact Hall|]. intros c Hc. by eapply le_trans.
Qed.

Lemma sort_Slice_sorted l : StronglySorted le_of (sort_Slice l).
Proof. induction l as [|a l IH]; [constructor|]. by apply insert_sorted_sorted. Qed.
End sort.

Section prefix.
Context {A : Type} (R : A -> A -> Prop).

Lemma StronglySorted_take n l : StronglySorted R l -> StronglySorted R (take n l).
Proof.
  intros Hs. revert n. induction Hs as [|a l Hs IH Ha]; intros [|n]; simpl; try by constructor.
  constructor; [apply IH|by apply Forall_take].
Qed.

Lemma StronglySorted_take_drop n l b : StronglySorted R l -> b ∈ drop n l -> Forall (fun a => R a b) (take n l).
Proof.
  intros Hs. revert n. induction Hs as [|a l Hs IH Ha]; intros [|n] Hb; simpl in *; try by constructor.
  constructor; [|by apply IH]. rewrite Forall_forall in Ha. apply Ha.
  rewrite <- (take_drop n l). apply elem_of_app. by right.
Qed.
End prefix.

#[export] Instance filter_Permutation {A} (p : A -> bool) : Proper ((≡ₚ) ==> (≡ₚ)) (List.filter p).
Proof.
  intros l l' Hp. induction Hp; simpl; [done| | |by etrans]; repeat case_match; auto using Permutation_swap.
Qed.

(** ** Comparison of strings, byte by byte *)

Lemma ascii_compare_trans c d e : Ascii.compare d c <> Lt -> Ascii.compare e d <> Lt -> Ascii.compare e c <> Lt.
Proof. unfold Ascii.compare. rewrite !N.compare_nlt_iff. lia. Qed.

Lemma string_compare_trans a b c :
  String.compare b a <> Lt -> String.compare c b <> Lt -> String.compare c a <> Lt.
Proof.
  revert b c. induction a as [|x a IH]; intros [|y b] [|z c] Hba Hcb; simpl in *; try done.
  pose proof (ascii_compare_trans x y z) as Ht.
  unfold Ascii.compare in *.
  destruct (N.compare_spec (Ascii.N_of_ascii y) (Ascii.N_of_ascii x)), (N.compare_spec (Ascii.N_of_ascii z) (Ascii.N_of_ascii y)),
    (N.compare_spec (Ascii.N_of_ascii z) (Ascii.N_of_ascii x)); try done; try lia.
  by apply (IH b).
Qed.

Lemma string_ltb_false a b : String.ltb a b = false <-> String.compare a b <> Lt.
Proof. unfold String.ltb. destruct (String.compare a b); naive_solver. Qed.

Lemma string_ltb_asym a b : String.ltb a b = true -> String.ltb b a = false.
Proof. unfold String.ltb. rewrite String.compare_antisym. by destruct (String.compare b a). Qed.

Lemma string_ltb_antisym a b : String.ltb a b = false -> String.ltb b a = false -> a = b.
Proof.
  unfold String.ltb. rewrite (String.compare_antisym b a). destruct (String.compare a b) eqn:H; simpl; try done.
  intros _ _. by apply String.compare_eq_iff.
Qed.

(** ** Lexicographic comparison *)

(** By instants in turn and then by identifier. *)
Fixpoint lessBy {A} (keys : list (A -> Time)) (id : A -> string) (left right : A) : bool :=
  match keys with
  | [] => String.ltb (id left) (id right)
  | key :: keys => if key left =? key right then lessBy keys id left right else Before (key left) (key right)
  end.

Section lessBy.
Context {A : Type} (id : A -> string).
Implicit Types (keys : list (A -> Time)) (a b c : A).

Lemma lessBy_asym keys a b : lessBy keys id a b = true -> lessBy keys id b a = false.
Proof.
  induction keys as [|key keys IH]; simpl; [apply string_ltb_asym|].
  rewrite (Z.eqb_sym (key b)). destruct (key a =? key b) eqn:He; [done|]. unfold Before. intros. guards.
  apply Z.ltb_ge. lia.
Qed.

Lemma lessBy_trans keys a b c :
  lessBy keys id b a = false -> lessBy keys id c b = false -> lessBy keys id c a = false.
Proof.
  induction keys as [|key keys IH]; simpl.
  { rewrite !string_ltb_false. apply string_compare_trans. }
  unfold Before. destruct (Z.eqb_spec (key b) (key a)), (Z.eqb_spec (key c) (key b)), (Z.eqb_spec (key c) (key a));
    try lia; try done; rewrite ?Z.ltb_ge; lia.
Qed.

Lemma lessBy_antisym keys a b : lessBy keys id a b = false -> lessBy keys id b a = false -> id a = id b.
Proof.
  induction keys as [|key keys IH]; simpl; [apply string_ltb_antisym|].
  unfold Before. rewrite (Z.eqb_sym (key b)). destruct (Z.eqb_spec (key a) (key b)); [done|].
  rewrite !Z.ltb_ge. lia.
Qed.

Lemma lessBy_sorted keys l : StronglySorted (le_of (lessBy keys id)) (sort_Slice (lessBy keys id) l).
Proof.
  apply sort_Slice_sorted; unfold le_of; [intros a b c; by apply lessBy_trans|intros a b; apply lessBy_asym].
Qed.

(** The order in which the elements came does not matter. *)
Lemma lessBy_unique keys l l' :
  (forall a b, a ∈ l -> b ∈ l -> id a = id b -> a = b) -> l ≡ₚ l' ->
  sort_Slice (lessBy keys id) l = sort_Slice (lessBy keys id) l'.
Proof.
  intros Hinj Hp. apply (StronglySorted_unique_strong (le_of (lessBy keys id)));
    [|by apply lessBy_sorted|by apply lessBy_sorted|by rewrite !sort_Slice_perm].
  intros a b Ha Hb Hab Hba. rewrite sort_Slice_perm in Ha, Hb. rewrite <-Hp in Hb.
  apply Hinj; [done..|]. by eapply lessBy_antisym.
Qed.
End lessBy.
