(* ===== verification/ExecutionLease.v ===== *)
(** * Execution leases: model of [internal/executionlease]

    The data of [lease.go] and the in-memory repository of [memory.go].  Every
    method is one handler in [M MemoryRepository]; the body between
    [mu.Lock()] and [mu.Unlock()] is atomic, so interleavings of callers are
    sequences of handler runs.  The clock is read before the lock is taken, so
    the reading [clock] of a call is an arbitrary argument: readings of
    successive calls need not be ordered.  [err] is the reading of [ctx.Err()]
    and [token] what the injected token source returns if it is called. *)

From S2P Require Import Prelude.
From S2P Require Import Sha256.
From S2P Require Import GoText.

(** ** Data of lease.go *)

Definition ErrAlreadyExists := errors_New "executionlease.ErrAlreadyExists".
Definition ErrNotFound := errors_New "executionlease.ErrNotFound".
Definition ErrNoLeaseAvailable := errors_New "executionlease.ErrNoLeaseAvailable".
Definition ErrStaleLease := errors_New "executionlease.ErrStaleLease".
Definition ErrInvalidTransition := errors_New "executionlease.ErrInvalidTransition".
Definition ErrCompletionConflict := errors_New "executionlease.ErrCompletionConflict".
Definition ErrReconciliationConflict := errors_New "executionlease.ErrReconciliationConflict".
Definition ErrClaimBlocked := errors_New "executionlease.ErrClaimBlocked".
Definition ErrInvalidRequest := errors_New "executionlease.ErrInvalidRequest".

(** [Pool] and [Status] are Go string types: the declared constants, and any
    other string (the zero value is the empty string). *)
Inductive Pool :=
| PoolRead
| PoolWrite
| PoolOther (s : string).

Inductive Status :=
| StatusQueued
| StatusLeased
| StatusRunning
| StatusFinalizing
| StatusSucceeded
| StatusFailed
| StatusCancelled
| StatusUncertain
| StatusOther (s : string).

#[export] Instance Pool_eq_dec : EqDecision Pool.
Proof. solve_decision. Defined.
#[export] Instance Status_eq_dec : EqDecision Status.
Proof. solve_decision. Defined.

Record Execution := {
  ex_ExecutionID : string;
  ex_TargetKey : string;
  ex_Pool : Pool;
  ex_Production : bool;
  ex_Status : Status;
  ex_CompletionStatus : Status;
  ex_RunnerID : string;
  ex_RunnerTenantID : string;
  ex_RunnerWorkspaceID : string;
  ex_RunnerEnvironmentID : string;
  ex_ScopeRevision : Z;
  ex_LeaseToken : string;
  ex_LeaseEpoch : Z;
  ex_LeaseExpiresAt : Time;
  ex_LeaseAcquiredAt : Time;
  ex_LastHeartbeatAt : Time;
  ex_HeartbeatSeq : Z;
  ex_CancelRequestedAt : Time;
  ex_CancelReasonHash : string;
  ex_StartedAt : Time;
  ex_CompletedAt : Time;
  ex_ResultHash : string;
  ex_ReconciliationResultHash : string;
  ex_ReconciliationID : string;
  ex_ReconciliationActor : string;
  ex_ReconciledAt : Time;
  ex_CreatedAt : Time;
  ex_UpdatedAt : Time
}.

#[export] Instance Execution_eq_dec : EqDecision Execution.
Proof. solve_decision. Defined.

(** The zero value [Execution{}]. *)
Definition Execution_zero : Execution := {|
  ex_ExecutionID := ""; ex_TargetKey := ""; ex_Pool := PoolOther ""; ex_Production := false;
  ex_Status := StatusOther ""; ex_CompletionStatus := StatusOther "";
  ex_RunnerID := ""; ex_RunnerTenantID := ""; ex_RunnerWorkspaceID := "";
  ex_RunnerEnvironmentID := ""; ex_ScopeRevision := 0; ex_LeaseToken := ""; ex_LeaseEpoch := 0;
  ex_LeaseExpiresAt := Time_zero; ex_LeaseAcquiredAt := Time_zero; ex_LastHeartbeatAt := Time_zero;
  ex_HeartbeatSeq := 0; ex_CancelRequestedAt := Time_zero; ex_CancelReasonHash := "";
  ex_StartedAt := Time_zero; ex_CompletedAt := Time_zero; ex_ResultHash := "";
  ex_ReconciliationResultHash := ""; ex_ReconciliationID := ""; ex_ReconciliationActor := "";
  ex_ReconciledAt := Time_zero; ex_CreatedAt := Time_zero; ex_UpdatedAt := Time_zero |}.

Record LeaseIdentity := {
  lease_ExecutionID : string;
  lease_RunnerID : string;
  lease_Token : string;
  lease_Epoch : Z
}.

Definition Execution_Fence (execution : Execution) : LeaseIdentity := {|
  lease_ExecutionID := ex_ExecutionID execution;
  lease_RunnerID := ex_RunnerID execution;
  lease_Token := ex_LeaseToken execution;
  lease_Epoch := ex_LeaseEpoch execution |}.

Definition terminalStatus (status : Status) : bool :=
  (status == StatusSucceeded) || (status == StatusFailed) ||
  (status == StatusCancelled) || (status == StatusUncertain).

Definition Execution_Terminal (execution : Execution) : bool :=
  terminalStatus (ex_Status execution).

Record EnqueueRequest := {
  enq_ExecutionID : string;
  enq_TargetKey : string;
  enq_Pool : Pool;
  enq_Production : bool
}.

Record ClaimRequest := {
  claim_Pool : Pool;
  claim_RunnerID : string;
  claim_LeaseDuration : Duration;
  claim_ClaimsEnabled : bool
}.

Record HeartbeatRequest := {
  hb_Lease : LeaseIdentity;
  hb_Extension : Duration
}.

Record CompleteRequest := {
  complete_Lease : LeaseIdentity;
  complete_Status : Status;
  complete_ResultHash : string
}.

Record ReconcileRequest := {
  reconcile_ExecutionID : string;
  reconcile_ReconciliationID : string;
  reconcile_ActorID : string;
  reconcile_Status : Status;
  reconcile_ResultHash : string
}.

(** ** State of memory.go *)

Record leaseFence := {
  fence_runnerID : string;
  fence_epoch : Z;
  fence_tokenSHA256 : string
}.

Record MemoryRepository := {
  executions : gmap string Execution;
  leaseFences : gmap string leaseFence;
  order : list string
}.

Definition minLeaseDuration : Duration := Second.
Definition maxLeaseDuration : Duration := 30 * Minute.

(** [NewMemory], for the first reading of the clock. *)
Definition NewMemory (clock : Time) : Result MemoryRepository :=
  if IsZero clock then Err (Errorf "clock returned zero time" ErrInvalidRequest)
  else Ok {| executions := ∅; leaseFences := ∅; order := [] |}.

(** ** Helpers of memory.go *)

Definition validPool (pool : Pool) : bool := (pool == PoolRead) || (pool == PoolWrite).

Definition validLease (lease : LeaseIdentity) : bool :=
  validIdentifier (lease_ExecutionID lease) 256 && validIdentifier (lease_RunnerID lease) 256 &&
  validIdentifier (lease_Token lease) 256 && (0 <? lease_Epoch lease).

Definition tokenDigestMatches (expected token : string) : bool := expected == Sum256 token.

Definition leaseFence_matches (fence : leaseFence) (lease : LeaseIdentity) : bool :=
  (fence_runnerID fence == lease_RunnerID lease) && (fence_epoch fence =? lease_Epoch lease) &&
  tokenDigestMatches (fence_tokenSHA256 fence) (lease_Token lease).

(** [fence, fenceExists := leaseFences[id]; fenceExists && fence.matches(lease)] *)
Definition fenceMatches (fence : option leaseFence) (lease : LeaseIdentity) : bool :=
  match fence with
  | Some f => leaseFence_matches f lease
  | None => false
  end.

Definition currentLease (execution : Execution) (fence : option leaseFence)
    (lease : LeaseIdentity) (now : Time) : bool :=
  (lease_ExecutionID lease == ex_ExecutionID execution) &&
  (lease_RunnerID lease == ex_RunnerID execution) &&
  fenceMatches fence lease &&
  (0 <? lease_Epoch lease) && (lease_Epoch lease =? ex_LeaseEpoch execution) &&
  ((ex_Status execution == StatusLeased) || (ex_Status execution == StatusRunning)) &&
  Before now (ex_LeaseExpiresAt execution).

Definition redactedExecution (execution : Execution) : Execution :=
  {| execution with ex_LeaseToken := "" |}.

(** [repository.now()], for the reading [clock]. *)
Definition repository_now {S} (clock : Time) : M S Time :=
  if IsZero clock then throw (Errorf "clock returned zero time" ErrInvalidRequest)
  else mret clock.

(** [repository.executions[id] = execution] *)
Definition putExecution (execution : Execution) (repository : MemoryRepository) : MemoryRepository :=
  {| repository with executions := <[ex_ExecutionID execution := execution]> (executions repository) |}.

(** [delete(repository.leaseFences, id)] *)
Definition dropFence (id : string) (repository : MemoryRepository) : MemoryRepository :=
  {| repository with leaseFences := delete id (leaseFences repository) |}.

(** One iteration of the loop of [expireLeases]: what happens to an execution
    (the statuses are those of the switch), [None] for [continue]. *)
Definition expireExecution (now : Time) (execution : Execution) : option Execution :=
  if IsZero (ex_LeaseExpiresAt execution) || Before now (ex_LeaseExpiresAt execution) then None
  else
    match ex_Status execution with
    | StatusLeased => Some
        {| execution with
           ex_Status := StatusQueued; ex_RunnerID := ""; ex_LeaseToken := "";
           ex_LeaseAcquiredAt := Time_zero; ex_LastHeartbeatAt := Time_zero;
           ex_LeaseExpiresAt := Time_zero; ex_UpdatedAt := now |}
    | StatusRunning => Some
        {| execution with
           ex_Status := StatusUncertain; ex_LeaseToken := "";
           ex_LeaseExpiresAt := Time_zero; ex_CompletedAt := now; ex_UpdatedAt := now |}
    | _ => None
    end.

Definition expireLeases_body (now : Time) (repository : MemoryRepository) (id : string)
    : MemoryRepository :=
  match executions repository !! id with
  | None => repository
  | Some execution =>
      match expireExecution now execution with
      | None => repository
      | Some expired =>
          {| repository with
             leaseFences := delete id (leaseFences repository);
             executions := <[id := expired]> (executions repository) |}
      end
  end.

(** The loop of [expireLeases] over an enumeration of the map's keys: Go leaves
    the order unspecified, the facts file proves it irrelevant. *)
Definition expireLeases_over (ids : list string) (now : Time) (repository : MemoryRepository)
    : MemoryRepository :=
  foldl (expireLeases_body now) repository ids.

Definition expireLeases (now : Time) (repository : MemoryRepository) : MemoryRepository :=
  expireLeases_over (map_to_list (executions repository)).*1 now repository.

Definition activeStatus (status : Status) : bool :=
  (status == StatusLeased) || (status == StatusRunning) || (status == StatusUncertain).

Definition targetUnavailable (repository : MemoryRepository) (targetKey candidateID : string) : bool :=
  existsb (fun '(executionID, execution) =>
      if (executionID == candidateID) || (ex_TargetKey execution != targetKey) then false
      else activeStatus (ex_Status execution))
    (map_to_list (executions repository)).

(** ** Methods of memory.go *)

Definition queuedExecution (request : EnqueueRequest) (now : Time) : Execution :=
  {| Execution_zero with
     ex_ExecutionID := enq_ExecutionID request;
     ex_TargetKey := enq_TargetKey request;
     ex_Pool := enq_Pool request;
     ex_Production := enq_Production request;
     ex_Status := StatusQueued;
     ex_CreatedAt := now;
     ex_UpdatedAt := now |}.

Definition MemoryRepository_Enqueue (err : option GoError) (clock : Time) (request : EnqueueRequest)
    : M MemoryRepository Execution :=
  checkContext err;;
  require (validIdentifier (enq_ExecutionID request) 256 &&
           validIdentifier (enq_TargetKey request) 512 && validPool (enq_Pool request))
    ErrInvalidRequest;;
  now ← repository_now clock;
  repository ← get;
  require (bool_decide (executions repository !! enq_ExecutionID request = None)) ErrAlreadyExists;;
  let execution := queuedExecution request now in
  modify (fun repository =>
    {| repository with
       executions := <[ex_ExecutionID execution := execution]> (executions repository);
       order := order repository ++ [ex_ExecutionID execution] |});;
  mret execution.

(** The tests of the loop body of [Claim] that end in [continue]. *)
Definition claimSkips (repository : MemoryRepository) (request : ClaimRequest)
    (execution : Execution) : bool :=
  (ex_Status execution != StatusQueued) || (ex_Pool execution != claim_Pool request) ||
  targetUnavailable repository (ex_TargetKey execution) (ex_ExecutionID execution) ||
  ((ex_Pool execution == PoolWrite) && ex_Production execution).

(** The execution as [Claim] leases it. *)
Definition leasedExecution (request : ClaimRequest) (now : Time) (execution : Execution) : Execution :=
  {| execution with
     ex_Status := StatusLeased;
     ex_RunnerID := claim_RunnerID request;
     ex_LeaseToken := "";
     ex_LeaseEpoch := ex_LeaseEpoch execution + 1;
     ex_LeaseAcquiredAt := now;
     ex_LastHeartbeatAt := now;
     ex_LeaseExpiresAt := Add now (claim_LeaseDuration request);
     ex_UpdatedAt := now |}.

(** The body of the loop of [Claim] after its [continue] tests. *)
Definition claimExecution (request : ClaimRequest) (now : Time) (token : Result string)
    (executionID : string) (execution : Execution) : M MemoryRepository Execution :=
  require (ex_LeaseEpoch execution != MaxInt64) (Errorf "lease epoch exhausted" ErrInvalidTransition);;
  token ← lift (wrapError "generate execution lease token" token);
  require (validIdentifier token 256)
    (Errorf "token source returned an invalid token" ErrInvalidRequest);;
  let execution := leasedExecution request now execution in
  modify (fun repository =>
    {| repository with
       leaseFences := <[executionID := {| fence_runnerID := claim_RunnerID request;
                                          fence_epoch := ex_LeaseEpoch execution;
                                          fence_tokenSHA256 := Sum256 token |}]> (leaseFences repository);
       executions := <[executionID := execution]> (executions repository) |});;
  mret {| execution with ex_LeaseToken := token |}.

Fixpoint claimLoop (request : ClaimRequest) (now : Time) (token : Result string)
    (ids : list string) : M MemoryRepository Execution :=
  match ids with
  | [] => throw ErrNoLeaseAvailable
  | executionID :: rest =>
      repository ← get;
      let execution := default Execution_zero (executions repository !! executionID) in
      if claimSkips repository request execution then claimLoop request now token rest
      else claimExecution request now token executionID execution
  end.

Definition MemoryRepository_Claim (err : option GoError) (clock : Time) (token : Result string)
    (request : ClaimRequest) : M MemoryRepository Execution :=
  checkContext err;;
  require (validPool (claim_Pool request) && validIdentifier (claim_RunnerID request) 256 &&
           (minLeaseDuration <=? claim_LeaseDuration request) &&
           (claim_LeaseDuration request <=? maxLeaseDuration)) ErrInvalidRequest;;
  now ← repository_now clock;
  modify (expireLeases now);;
  require (claim_ClaimsEnabled request) ErrClaimBlocked;;
  repository ← get;
  claimLoop request now token (order repository).

Definition startedExecution (now : Time) (execution : Execution) : Execution :=
  {| execution with ex_Status := StatusRunning; ex_StartedAt := now; ex_UpdatedAt := now |}.

Definition MemoryRepository_Start (err : option GoError) (clock : Time) (lease : LeaseIdentity)
    : M MemoryRepository Execution :=
  checkContext err;;
  require (validLease lease) ErrInvalidRequest;;
  now ← repository_now clock;
  repository ← get;
  execution ← require_some (executions repository !! lease_ExecutionID lease) ErrNotFound;
  require (currentLease execution (leaseFences repository !! ex_ExecutionID execution) lease now)
    ErrStaleLease;;
  match ex_Status execution with
  | StatusLeased =>
      let execution := startedExecution now execution in
      modify (putExecution execution);;
      mret (redactedExecution execution)
  | StatusRunning => mret (redactedExecution execution)
  | _ => throw ErrInvalidTransition
  end.

Definition extendedExecution (request : HeartbeatRequest) (now : Time) (execution : Execution)
    : Execution :=
  {| execution with
     ex_LeaseExpiresAt := Add now (hb_Extension request);
     ex_LastHeartbeatAt := now;
     ex_UpdatedAt := now |}.

Definition MemoryRepository_Heartbeat (err : option GoError) (clock : Time)
    (request : HeartbeatRequest) : M MemoryRepository Execution :=
  checkContext err;;
  require (validLease (hb_Lease request) && (minLeaseDuration <=? hb_Extension request) &&
           (hb_Extension request <=? maxLeaseDuration)) ErrInvalidRequest;;
  now ← repository_now clock;
  repository ← get;
  execution ← require_some (executions repository !! lease_ExecutionID (hb_Lease request)) ErrNotFound;
  require (currentLease execution (leaseFences repository !! ex_ExecutionID execution)
             (hb_Lease request) now) ErrStaleLease;;
  let execution := extendedExecution request now execution in
  modify (putExecution execution);;
  mret (redactedExecution execution).

Definition completedExecution (request : CompleteRequest) (now : Time) (execution : Execution)
    : Execution :=
  {| execution with
     ex_Status := complete_Status request;
     ex_ResultHash := complete_ResultHash request;
     ex_CompletedAt := now;
     ex_LeaseExpiresAt := Time_zero;
     ex_UpdatedAt := now;
     ex_LeaseToken := "" |}.

Definition MemoryRepository_Complete (err : option GoError) (clock : Time)
    (request : CompleteRequest) : M MemoryRepository Execution :=
  checkContext err;;
  require (validLease (complete_Lease request) &&
           ((complete_Status request == StatusSucceeded) || (complete_Status request == StatusFailed) ||
            (complete_Status request == StatusUncertain)) &&
           sha256Pattern (complete_ResultHash request)) ErrInvalidRequest;;
  now ← repository_now clock;
  repository ← get;
  execution ← require_some (executions repository !! lease_ExecutionID (complete_Lease request)) ErrNotFound;
  let fence := leaseFences repository !! ex_ExecutionID execution in
  if terminalStatus (ex_Status execution) then
    require (ex_ReconciliationID execution == ""%string) ErrStaleLease;;
    require (fenceMatches fence (complete_Lease request)) ErrStaleLease;;
    if (ex_Status execution == complete_Status request) &&
       (ex_ResultHash execution == complete_ResultHash request)
    then mret (redactedExecution execution)
    else throw ErrCompletionConflict
  else
    require (currentLease execution fence (complete_Lease request) now) ErrStaleLease;;
    require (ex_Status execution == StatusRunning) ErrInvalidTransition;;
    let execution := completedExecution request now execution in
    modify (putExecution execution);;
    mret (redactedExecution execution).

(** Another execution already carries the reconciliation id. *)
Definition reconciliationIDTaken (repository : MemoryRepository) (executionID reconciliationID : string)
    : bool :=
  existsb (fun '(id, existing) =>
      (id != executionID) && (ex_ReconciliationID existing == reconciliationID))
    (map_to_list (executions repository)).

Definition reconciledExecution (request : ReconcileRequest) (now : Time) (execution : Execution)
    : Execution :=
  {| execution with
     ex_Status := reconcile_Status request;
     ex_ReconciliationResultHash := reconcile_ResultHash request;
     ex_ReconciliationID := reconcile_ReconciliationID request;
     ex_ReconciliationActor := reconcile_ActorID request;
     ex_ReconciledAt := now;
     ex_UpdatedAt := now |}.

Definition MemoryRepository_Reconcile (err : option GoError) (clock : Time)
    (request : ReconcileRequest) : M MemoryRepository Execution :=
  checkContext err;;
  require (validIdentifier (reconcile_ExecutionID request) 256 &&
           validIdentifier (reconcile_ReconciliationID request) 256 &&
           validIdentifier (reconcile_ActorID request) 256 &&
           ((reconcile_Status request == StatusSucceeded) || (reconcile_Status request == StatusFailed)) &&
           sha256Pattern (reconcile_ResultHash request)) ErrInvalidRequest;;
  now ← repository_now clock;
  modify (expireLeases now);;
  repository ← get;
  execution ← require_some (executions repository !! reconcile_ExecutionID request) ErrNotFound;
  if ex_ReconciliationID execution != ""%string then
    if (ex_ReconciliationID execution == reconcile_ReconciliationID request) &&
       (ex_ReconciliationActor execution == reconcile_ActorID request) &&
       (ex_Status execution == reconcile_Status request) &&
       (ex_ReconciliationResultHash execution == reconcile_ResultHash request)
    then
      modify (dropFence (ex_ExecutionID execution));;
      mret (redactedExecution execution)
    else throw ErrReconciliationConflict
  else
    require (ex_Status execution == StatusUncertain) ErrInvalidTransition;;
    require (negb (reconciliationIDTaken repository (ex_ExecutionID execution)
                     (reconcile_ReconciliationID request))) ErrReconciliationConflict;;
    let execution := reconciledExecution request now execution in
    modify (dropFence (ex_ExecutionID execution));;
    modify (putExecution execution);;
    mret (redactedExecution execution).

Definition MemoryRepository_SweepExpired (err : option GoError) (clock : Time)
    : M MemoryRepository unit :=
  checkContext err;;
  now ← repository_now clock;
  modify (expireLeases now).

Definition cancelledExecution (now : Time) (execution : Execution) : Execution :=
  let execution :=
    if ex_Status execution == StatusRunning then {| execution with ex_Status := StatusUncertain |}
    else {| execution with ex_Status := StatusCancelled; ex_RunnerID := "" |} in
  {| execution with
     ex_LeaseToken := "";
     ex_LeaseExpiresAt := Time_zero;
     ex_CompletedAt := now;
     ex_UpdatedAt := now |}.

Definition MemoryRepository_Cancel (err : option GoError) (clock : Time) (executionID : string)
    : M MemoryRepository Execution :=
  checkContext err;;
  require (validIdentifier executionID 256) ErrInvalidRequest;;
  now ← repository_now clock;
  repository ← get;
  execution ← require_some (executions repository !! executionID) ErrNotFound;
  if terminalStatus (ex_Status execution) then mret (redactedExecution execution)
  else
    let execution := cancelledExecution now execution in
    modify (dropFence (ex_ExecutionID execution));;
    modify (putExecution execution);;
    mret (redactedExecution execution).

Definition MemoryRepository_Get (err : option GoError) (clock : Time) (executionID : string)
    : M MemoryRepository Execution :=
  checkContext err;;
  require (validIdentifier executionID 256) ErrInvalidRequest;;
  now ← repository_now clock;
  modify (expireLeases now);;
  repository ← get;
  execution ← require_some (executions repository !! executionID) ErrNotFound;
  mret (redactedExecution execution).

(** ** Calls: the [Repository] interface as data, and the states a repository
    reaches from [NewMemory] under any sequence of calls *)

Inductive Call :=
| CallEnqueue (err : option GoError) (clock : Time) (request : EnqueueRequest)
| CallClaim (err : option GoError) (clock : Time) (token : Result string) (request : ClaimRequest)
| CallStart (err : option GoError) (clock : Time) (lease : LeaseIdentity)
| CallHeartbeat (err : option GoError) (clock : Time) (request : HeartbeatRequest)
| CallComplete (err : option GoError) (clock : Time) (request : CompleteRequest)
| CallReconcile (err : option GoError) (clock : Time) (request : ReconcileRequest)
| CallSweepExpired (err : option GoError) (clock : Time)
| CallCancel (err : option GoError) (clock : Time) (executionID : string)
| CallGet (err : option GoError) (clock : Time) (executionID : string).

(** A call returns an execution or an error ([SweepExpired] returns only an
    error; a success is then [Execution_zero]). *)
Definition run_call (call : Call) : M MemoryRepository Execution :=
  match call with
  | CallEnqueue err clock request => MemoryRepository_Enqueue err clock request
  | CallClaim err clock token request => MemoryRepository_Claim err clock token request
  | CallStart err clock lease => MemoryRepository_Start err clock lease
  | CallHeartbeat err clock request => MemoryRepository_Heartbeat err clock request
  | CallComplete err clock request => MemoryRepository_Complete err clock request
  | CallReconcile err clock request => MemoryRepository_Reconcile err clock request
  | CallSweepExpired err clock => MemoryRepository_SweepExpired err clock;; mret Execution_zero
  | CallCancel err clock executionID => MemoryRepository_Cancel err clock executionID
  | CallGet err clock executionID => MemoryRepository_Get err clock executionID
  end.

Definition call_step (repository repository' : MemoryRepository) : Prop :=
  exists call, (run_call call repository).2 = repository'.

Definition reachable (repository : MemoryRepository) : Prop :=
  exists clock initial, NewMemory clock = Ok initial /\ rtc call_step initial repository.

(** Run a list of calls, newest result last. *)
Fixpoint run_calls (calls : list Call) (repository : MemoryRepository)
    : list (Result Execution) * MemoryRepository :=
  match calls with
  | [] => ([], repository)
  | call :: rest =>
      let '(result, repository) := run_call call repository in
      let '(results, repository) := run_calls rest repository in
      (result :: results, repository)
  end.
