(* ===== verification/ExecutionLeaseFacts.v ===== *)
(** * Execution leases: invariants and correctness of the in-memory repository *)

From S2P Require Import Prelude.
From S2P Require Import Sha256.
From S2P Require Import GoText.
From S2P Require Import ExecutionLease.

(** ** The invariant *)

(** Leased or running: some runner holds a lease. *)
Definition heldStatus (status : Status) : bool :=
  (status == StatusLeased) || (status == StatusRunning).

(** The statuses an execution of this repository can have. *)
Definition lifecycleStatus (status : Status) : bool :=
  heldStatus status || terminalStatus status || (status == StatusQueued).

Record execution_wf (fences : gmap string leaseFence) (id : string) (e : Execution) : Prop := {
  wf_id : ex_ExecutionID e = id;
  wf_token : ex_LeaseToken e = ""%string;
  wf_epoch : 0 <= ex_LeaseEpoch e <= MaxInt64;
  wf_status : lifecycleStatus (ex_Status e) = true;
  (** a held execution has the fence of its runner and epoch *)
  wf_held : heldStatus (ex_Status e) = true ->
    exists f, fences !! id = Some f /\ fence_runnerID f = ex_RunnerID e /\
      fence_epoch f = ex_LeaseEpoch e;
  (** no fence outlives a return to the queue or a cancellation *)
  wf_unfenced : ex_Status e = StatusQueued \/ ex_Status e = StatusCancelled -> fences !! id = None;
  wf_fence_epoch : forall f, fences !! id = Some f -> 0 < fence_epoch f <= ex_LeaseEpoch e;
  (** production WRITE work is never leased by this repository *)
  wf_production : activeStatus (ex_Status e) = true ->
    ~ (ex_Pool e = PoolWrite /\ ex_Production e = true)
}.

Record repository_wf (r : MemoryRepository) : Prop := {
  wf_executions : forall id e, executions r !! id = Some e -> execution_wf (leaseFences r) id e;
  wf_fences : forall id f, leaseFences r !! id = Some f -> is_Some (executions r !! id);
  wf_order_nodup : NoDup (order r);
  wf_order : forall id, id ∈ order r <-> is_Some (executions r !! id);
  (** at most one active execution per target *)
  wf_exclusive : forall i j ei ej,
    executions r !! i = Some ei -> executions r !! j = Some ej ->
    activeStatus (ex_Status ei) = true -> activeStatus (ex_Status ej) = true ->
    ex_TargetKey ei = ex_TargetKey ej -> i = j;
  (** a reconciliation decision is recorded on one execution *)
  wf_reconciliation : forall i j ei ej,
    executions r !! i = Some ei -> executions r !! j = Some ej ->
    ex_ReconciliationID ei <> ""%string ->
    ex_ReconciliationID ei = ex_ReconciliationID ej -> i = j
}.

(** ** The abstract lifecycle *)

(** The life of one execution as an abstract machine over its status and lease
    epoch: only granting a lease moves the epoch, by one. *)
Inductive lifecycle_step : Status * Z -> Status * Z -> Prop :=
| step_lease n : lifecycle_step (StatusQueued, n) (StatusLeased, n + 1)
| step_lease_expired n : lifecycle_step (StatusLeased, n) (StatusQueued, n)
| step_start n : lifecycle_step (StatusLeased, n) (StatusRunning, n)
| step_succeed n : lifecycle_step (StatusRunning, n) (StatusSucceeded, n)
| step_fail n : lifecycle_step (StatusRunning, n) (StatusFailed, n)
| step_lose n : lifecycle_step (StatusRunning, n) (StatusUncertain, n)
| step_cancel_queued n : lifecycle_step (StatusQueued, n) (StatusCancelled, n)
| step_cancel_leased n : lifecycle_step (StatusLeased, n) (StatusCancelled, n)
| step_reconcile_succeeded n : lifecycle_step (StatusUncertain, n) (StatusSucceeded, n)
| step_reconcile_failed n : lifecycle_step (StatusUncertain, n) (StatusFailed, n).

(** Abstraction: what the machine sees of an execution. *)
Definition lifecycle (e : Execution) : Status * Z := (ex_Status e, ex_LeaseEpoch e).

(** What stays fixed over an execution's life. *)
Definition same_identity (e e' : Execution) : Prop :=
  ex_ExecutionID e' = ex_ExecutionID e /\ ex_TargetKey e' = ex_TargetKey e /\
  ex_Pool e' = ex_Pool e /\ ex_Production e' = ex_Production e /\ ex_CreatedAt e' = ex_CreatedAt e.

(** A later state of a repository: every execution is still there, has moved
    along the lifecycle, and the fence it now has is either the one it had or
    one of a later epoch. *)
Definition evolves (r r' : MemoryRepository) : Prop :=
  forall id e, executions r !! id = Some e ->
    exists e', executions r' !! id = Some e' /\ rtc lifecycle_step (lifecycle e) (lifecycle e') /\
      same_identity e e' /\
      forall f', leaseFences r' !! id = Some f' ->
        leaseFences r !! id = Some f' \/ ex_LeaseEpoch e < fence_epoch f'.

(** A call made with a lease identity. *)
Definition call_lease (call : Call) : option LeaseIdentity :=
  match call with
  | CallStart _ _ lease => Some lease
  | CallHeartbeat _ _ request => Some (hb_Lease request)
  | CallComplete _ _ request => Some (complete_Lease request)
  | _ => None
  end.

(** ** Updating one execution *)

Lemma execution_wf_fences fences fences' id e :
  fences !! id = fences' !! id -> execution_wf fences id e -> execution_wf fences' id e.
Proof. intros Heq []. constructor; rewrite <- ?Heq; auto. Qed.

(** The only way a handler changes a known execution: [e] becomes [e'], and
    the fence of that execution may change. *)
Lemma update_wf r id e e' fences' :
  repository_wf r ->
  executions r !! id = Some e ->
  ex_TargetKey e' = ex_TargetKey e ->
  (forall j, j <> id -> fences' !! j = leaseFences r !! j) ->
  execution_wf fences' id e' ->
  (activeStatus (ex_Status e') = true ->
   activeStatus (ex_Status e) = true \/
   forall j ej, j <> id -> executions r !! j = Some ej -> ex_TargetKey ej = ex_TargetKey e ->
     activeStatus (ex_Status ej) = false) ->
  (ex_ReconciliationID e' <> ""%string ->
   ex_ReconciliationID e' = ex_ReconciliationID e \/
   forall j ej, j <> id -> executions r !! j = Some ej ->
     ex_ReconciliationID ej <> ex_ReconciliationID e') ->
  repository_wf {| r with executions := <[id := e']> (executions r); leaseFences := fences' |}.
Proof.
  intros [He Hf Hnd Ho Hx Hr] Hid Htk Hfr Hwf Hact Hrec. constructor; simpl.
  - intros j ej [[<- <-]|[? Hj]]%lookup_insert_Some; [done|].
    apply (execution_wf_fences (leaseFences r)); [|by auto]. symmetry. auto.
  - intros j f Hj. destruct (decide (j = id)) as [->|]; [by rewrite lookup_insert_eq|].
    rewrite lookup_insert_ne by done. rewrite Hfr in Hj by done. eauto.
  - done.
  - intros j. rewrite Ho. destruct (decide (j = id)) as [->|]; [|by rewrite lookup_insert_ne].
    rewrite lookup_insert_eq, Hid. split; eauto.
  - intros i j ei ej [[<- <-]|[? Hi]]%lookup_insert_Some [[<- <-]|[? Hj]]%lookup_insert_Some ?? Ht.
    + done.
    + destruct Hact as [?|Hfree]; [done|..].
      * eapply Hx; [apply Hid|apply Hj|..]; congruence.
      * rewrite (Hfree j ej) in *; congruence.
    + destruct Hact as [?|Hfree]; [done|..].
      * eapply Hx; [apply Hi|apply Hid|..]; congruence.
      * rewrite (Hfree i ei) in *; congruence.
    + eauto.
  - intros i j ei ej [[<- <-]|[? Hi]]%lookup_insert_Some [[<- <-]|[? Hj]]%lookup_insert_Some Hne Heq.
    + done.
    + destruct Hrec as [Hsame|Hfree]; [done|..].
      * eapply Hr; [apply Hid|apply Hj|..]; congruence.
      * exfalso. eapply Hfree; [..|symmetry]; eauto.
    + destruct Hrec as [Hsame|Hfree]; [congruence|..].
      * eapply Hr; [apply Hi|apply Hid|..]; congruence.
      * exfalso. eapply Hfree; eauto.
    + eauto.
Qed.

(** Evaluate the status predicates on a known status. *)
Ltac status :=
  unfold lifecycleStatus, heldStatus, activeStatus, terminalStatus, lifecycleStatus in *;
  simpl in *;
  repeat match goal with H : ex_Status ?e = _ |- _ => rewrite H in * end;
  try (simpl in *; try discriminate; try done; naive_solver).

Lemma heldStatus_cases s : heldStatus s = true -> s = StatusLeased \/ s = StatusRunning.
Proof. unfold heldStatus. intros [?%eqb_true_1|?%eqb_true_1]%orb_true_iff; auto. Qed.

Lemma held_active s : heldStatus s = true -> activeStatus s = true.
Proof. intros [-> | ->]%heldStatus_cases; done. Qed.

(** ** Lease expiry *)

(** What an expired lease becomes: a lease that was never started goes back to
    the queue, a running one becomes uncertain and keeps its target. *)
Lemma expireExecution_Some now e e' :
  expireExecution now e = Some e' ->
  ex_LeaseExpiresAt e <> 0 /\ ex_LeaseExpiresAt e <= now /\ ex_LeaseExpiresAt e' = 0 /\
  ((ex_Status e = StatusLeased /\ ex_Status e' = StatusQueued) \/
   (ex_Status e = StatusRunning /\ ex_Status e' = StatusUncertain)) /\
  ex_ExecutionID e' = ex_ExecutionID e /\ ex_TargetKey e' = ex_TargetKey e /\
  ex_Pool e' = ex_Pool e /\ ex_Production e' = ex_Production e /\
  ex_LeaseEpoch e' = ex_LeaseEpoch e /\ ex_ReconciliationID e' = ex_ReconciliationID e /\
  ex_LeaseToken e' = ""%string.
Proof.
  unfold expireExecution, IsZero, Before. destruct (_ || _) eqn:Hg; [done|]. guards.
  destruct (ex_Status e) eqn:Hs; intros [= <-]; simpl; repeat split; auto.
Qed.

Lemma expireExecution_twice now e e' :
  expireExecution now e = Some e' -> forall now', expireExecution now' e' = None.
Proof.
  intros (?&?&Hz&?)%expireExecution_Some now'. unfold expireExecution, IsZero. by rewrite Hz.
Qed.

Lemma expireLeases_body_wf now r id :
  repository_wf r -> repository_wf (expireLeases_body now r id).
Proof.
  intros Hwf. unfold expireLeases_body. destruct (executions r !! id) as [e|] eqn:He; [|done].
  destruct (expireExecution now e) as [e'|] eqn:Hx; [|done].
  apply expireExecution_Some in Hx as (_&_&_&Hst&Hid&Htk&Hpl&Hpr&Hep&Hrc&Htok).
  destruct (wf_executions _ Hwf id e He).
  apply (update_wf r id e e' (delete id (leaseFences r))); auto.
  - intros j Hj. by rewrite lookup_delete_ne.
  - constructor; rewrite ?lookup_delete_eq, ?Hpl, ?Hpr; try congruence.
    + destruct Hst as [[_ ->]|[_ ->]]; done.
    + destruct Hst as [[_ ->]|[_ ->]]; done.
    + intros _. apply wf_production0. destruct Hst as [[-> _]|[-> _]]; done.
  - intros _. left. destruct Hst as [[-> _]|[-> _]]; done.
Qed.

Lemma expireLeases_over_wf ids now r :
  repository_wf r -> repository_wf (expireLeases_over ids now r).
Proof.
  unfold expireLeases_over. revert r. induction ids as [|id ids IH]; intros r Hr; simpl; [done|].
  by apply IH, expireLeases_body_wf.
Qed.

Lemma expireLeases_wf now r : repository_wf r -> repository_wf (expireLeases now r).
Proof. apply expireLeases_over_wf. Qed.

(** ** Every method preserves the invariant *)

Create HintDb lease.
#[export] Hint Resolve expireLeases_wf : lease.

Ltac lease_wp :=
  intros; unfold repository_now;
  repeat (wp_step; auto with lease); guards; auto with lease.

Lemma targetUnavailable_false r tk id :
  targetUnavailable r tk id = false ->
  forall j ej, j <> id -> executions r !! j = Some ej -> ex_TargetKey ej = tk ->
    activeStatus (ex_Status ej) = false.
Proof.
  unfold targetUnavailable. rewrite existsb_map_false. intros H j ej Hj Hej Htk.
  specialize (H j ej Hej). cbv beta iota in H.
  rewrite Htk, (eqb_same tk), orb_false_r in H.
  by rewrite (proj2 (eqb_false j id)) in H.
Qed.

(** Inserting a fresh queued execution. *)
Lemma enqueue_update_wf r e :
  repository_wf r ->
  executions r !! ex_ExecutionID e = None ->
  ex_Status e = StatusQueued -> ex_LeaseToken e = ""%string -> ex_LeaseEpoch e = 0 ->
  ex_ReconciliationID e = ""%string ->
  repository_wf {| r with executions := <[ex_ExecutionID e := e]> (executions r);
                          order := order r ++ [ex_ExecutionID e] |}.
Proof.
  intros [He Hf Hnd Ho Hx Hr] Hnone Hs Ht Hep Hrc.
  assert (leaseFences r !! ex_ExecutionID e = None) as Hnf.
  { destruct (leaseFences r !! _) as [f|] eqn:Hfe; [|done].
    apply Hf in Hfe as [? ?]. congruence. }
  constructor; simpl.
  - intros j ej [[<- <-]|[? Hj]]%lookup_insert_Some; [|by auto].
    constructor; rewrite ?Hep, ?Hs, ?Hnf; try done; unfold MaxInt64; lia.
  - intros j f Hj. destruct (decide (j = ex_ExecutionID e)) as [->|]; [by rewrite lookup_insert_eq|].
    rewrite lookup_insert_ne by done. eauto.
  - apply NoDup_app. split_and!; [done| |apply NoDup_singleton].
    intros j Hj%Ho ->%list_elem_of_singleton. destruct Hj. congruence.
  - intros j. rewrite elem_of_app, list_elem_of_singleton, Ho.
    destruct (decide (j = ex_ExecutionID e)) as [->|]; [rewrite lookup_insert_eq|rewrite lookup_insert_ne by done]; naive_solver.
  - intros i j ei ej [[<- <-]|[? Hi]]%lookup_insert_Some [[<- <-]|[? Hj]]%lookup_insert_Some Ha Hb Heq;
      [done|rewrite Hs in Ha; done|rewrite Hs in Hb; done|eauto].
  - intros i j ei ej [[<- <-]|[? Hi]]%lookup_insert_Some [[<- <-]|[? Hj]]%lookup_insert_Some Hne Heq;
      [done|congruence|congruence|eauto].
Qed.

Lemma Enqueue_wf err clock request r :
  repository_wf r -> wp (MemoryRepository_Enqueue err clock request) (fun _ => repository_wf) r.
Proof.
  unfold MemoryRepository_Enqueue. lease_wp.
  by apply (enqueue_update_wf r (queuedExecution request clock)).
Qed.

Lemma claimSkips_false r request e :
  claimSkips r request e = false ->
  ex_Status e = StatusQueued /\ ex_Pool e = claim_Pool request /\
  targetUnavailable r (ex_TargetKey e) (ex_ExecutionID e) = false /\
  ~ (ex_Pool e = PoolWrite /\ ex_Production e = true).
Proof.
  unfold claimSkips. intros H. guards. repeat split; auto.
  intros [Hp Hq]. by rewrite Hp, Hq in *.
Qed.

(** A candidate that is not skipped is a stored execution. *)
Lemma claimSkips_known r request id :
  claimSkips r request (default Execution_zero (executions r !! id)) = false ->
  exists e, executions r !! id = Some e /\ claimSkips r request e = false.
Proof. destruct (executions r !! id) as [e|] eqn:He; simpl; [by eauto|]. by intros [? _]%claimSkips_false. Qed.

Lemma claimExecution_wf request now token id e r :
  repository_wf r -> executions r !! id = Some e -> claimSkips r request e = false ->
  wp (claimExecution request now token id e) (fun _ => repository_wf) r.
Proof.
  intros Hr He Hs. unfold claimExecution. lease_wp.
  apply claimSkips_false in Hs as (Hq & Hp & Hfree & Hprod).
  destruct (wf_executions _ Hr id e He) as [Hid Htok Hep Hst Hheld Hunf Hfep Hpr].
  apply (update_wf r id e (leasedExecution request now e) (<[id := _]> (leaseFences r))); auto.
  - intros j Hj. by rewrite lookup_insert_ne.
  - constructor; rewrite ?lookup_insert_eq; simpl; auto.
    + unfold MaxInt64 in *. lia.
    + eauto.
    + by intros [|].
    + intros f [= <-]. simpl. lia.
  - intros _. right. intros j ej Hj. rewrite <- Hid in Hj. eauto using targetUnavailable_false.
Qed.

Lemma claimLoop_wf request now token ids r :
  repository_wf r -> wp (claimLoop request now token ids) (fun _ => repository_wf) r.
Proof.
  intros Hr. induction ids as [|id ids IH]; simpl; [by wp_step|].
  repeat wp_step; [done|].
  match goal with H : claimSkips _ _ _ = false |- _ => destruct (claimSkips_known _ _ _ H) as (e & He & Hs) end.
  rewrite He. simpl. by apply claimExecution_wf.
Qed.

Lemma Claim_wf err clock token request r :
  repository_wf r -> wp (MemoryRepository_Claim err clock token request) (fun _ => repository_wf) r.
Proof. unfold MemoryRepository_Claim. lease_wp. by apply claimLoop_wf, expireLeases_wf. Qed.

(** The fields no transition of a known execution changes. *)
Definition same_execution (e e' : Execution) : Prop :=
  ex_ExecutionID e' = ex_ExecutionID e /\ ex_TargetKey e' = ex_TargetKey e /\
  ex_Pool e' = ex_Pool e /\ ex_Production e' = ex_Production e /\
  ex_LeaseEpoch e' = ex_LeaseEpoch e /\ ex_CreatedAt e' = ex_CreatedAt e.

Lemma currentLease_held e fence lease now :
  currentLease e fence lease now = true -> heldStatus (ex_Status e) = true.
Proof. unfold currentLease. intros. guards. auto. Qed.

Lemma stored_token r id e :
  repository_wf r -> executions r !! id = Some e -> ex_LeaseToken e = ""%string.
Proof. intros Hr He. by destruct (wf_executions _ Hr id e He). Qed.

(** Writing back an execution whose lease is held, its fence kept. *)
Lemma held_put_wf r id e e' :
  repository_wf r -> executions r !! id = Some e -> heldStatus (ex_Status e) = true ->
  same_execution e e' -> ex_RunnerID e' = ex_RunnerID e -> ex_LeaseToken e' = ""%string ->
  ex_ReconciliationID e' = ex_ReconciliationID e ->
  heldStatus (ex_Status e') = true \/ ex_Status e' = StatusSucceeded \/
  ex_Status e' = StatusFailed \/ ex_Status e' = StatusUncertain ->
  repository_wf (putExecution e' r).
Proof.
  intros Hr He Hh (Hid & Htk & Hpl & Hpd & Hep & _) Hrun Htok Hrec Hst.
  destruct (wf_executions _ Hr id e He) as [Hi Ht He' Hs Hheld Hunf Hfep Hpr].
  unfold putExecution. rewrite Hid, Hi.
  apply (update_wf r id e e'); auto using held_active.
  constructor; rewrite ?Hep, ?Hpl, ?Hpd, ?Hrun; auto using held_active; try congruence.
  - unfold lifecycleStatus. destruct Hst as [->|[->|[->| ->]]]; done.
  - intros Hs'. exfalso. destruct Hst as [[Hc|Hc]%heldStatus_cases|[Hc|[Hc|Hc]]]; rewrite Hc in Hs'; by destruct Hs'.
Qed.

(** Writing back an execution whose fence is dropped. *)
Lemma unfenced_put_wf r id e e' :
  repository_wf r -> executions r !! id = Some e ->
  same_execution e e' -> ex_LeaseToken e' = ""%string ->
  terminalStatus (ex_Status e') = true ->
  (ex_Status e' = StatusUncertain -> activeStatus (ex_Status e) = true) ->
  (ex_ReconciliationID e' = ex_ReconciliationID e \/
   forall j ej, j <> id -> executions r !! j = Some ej ->
     ex_ReconciliationID ej <> ex_ReconciliationID e') ->
  repository_wf (putExecution e' (dropFence (ex_ExecutionID e') r)).
Proof.
  intros Hr He (Hid & Htk & Hpl & Hpd & Hep & _) Htok Hst Hact Hrec.
  destruct (wf_executions _ Hr id e He) as [Hi Ht He' Hs Hheld Hunf Hfep Hpr].
  unfold putExecution, dropFence. rewrite Hid, Hi. simpl.
  assert (heldStatus (ex_Status e') = false) as Hnh by (destruct (ex_Status e'); done).
  assert (activeStatus (ex_Status e') = true -> activeStatus (ex_Status e) = true) as Ha.
  { intros ?. apply Hact. destruct (ex_Status e'); done. }
  apply (update_wf r id e e' (delete id (leaseFences r))); auto.
  - intros j Hj. by rewrite lookup_delete_ne.
  - constructor; rewrite ?lookup_delete_eq, ?Hep, ?Hpl, ?Hpd, ?Hnh; auto; try congruence.
    unfold lifecycleStatus. by rewrite Hst, orb_true_r.
Qed.

Lemma Start_wf err clock lease r :
  repository_wf r -> wp (MemoryRepository_Start err clock lease) (fun _ => repository_wf) r.
Proof.
  unfold MemoryRepository_Start. lease_wp.
  eapply held_put_wf; [done|eassumption|eapply currentLease_held; eassumption|done|done| |done|by left].
  simpl. eapply stored_token; eassumption.
Qed.

Lemma Heartbeat_wf err clock request r :
  repository_wf r -> wp (MemoryRepository_Heartbeat err clock request) (fun _ => repository_wf) r.
Proof.
  unfold MemoryRepository_Heartbeat. lease_wp.
  eapply held_put_wf; [done|eassumption|eapply currentLease_held; eassumption|done|done| |done|].
  - simpl. eapply stored_token; eassumption.
  - left. simpl. eapply currentLease_held; eassumption.
Qed.

Lemma Complete_wf err clock request r :
  repository_wf r -> wp (MemoryRepository_Complete err clock request) (fun _ => repository_wf) r.
Proof.
  unfold MemoryRepository_Complete. lease_wp.
  eapply held_put_wf; [done|eassumption|eapply currentLease_held; eassumption|done|done|done|done|].
  right. simpl.
  repeat match goal with H : (_ || _)%bool = true |- _ => apply orb_true_iff in H as [H|H] end;
    guards; auto.
Qed.

Lemma reconciliationIDTaken_false r id rid :
  reconciliationIDTaken r id rid = false ->
  forall j ej, j <> id -> executions r !! j = Some ej -> ex_ReconciliationID ej <> rid.
Proof.
  unfold reconciliationIDTaken. rewrite existsb_map_false. intros H j ej Hj Hej.
  specialize (H j ej Hej). cbv beta iota in H.
  rewrite (proj2 (eqb_false j id)) in H by done. simpl in H. by guards.
Qed.

(** Dropping the fence of an execution that no runner holds. *)
Lemma dropFence_wf r id e :
  repository_wf r -> executions r !! id = Some e -> heldStatus (ex_Status e) = false ->
  repository_wf (dropFence id r).
Proof.
  intros Hr He Hh.
  destruct (wf_executions _ Hr id e He) as [Hi Ht He' Hs Hheld Hunf Hfep Hpr].
  enough (repository_wf {| r with executions := <[id := e]> (executions r);
                                  leaseFences := delete id (leaseFences r) |}) as H.
  { by rewrite insert_id in H. }
  apply (update_wf r id e e (delete id (leaseFences r))); auto.
  - intros j Hj. by rewrite lookup_delete_ne.
  - constructor; rewrite ?lookup_delete_eq; auto; congruence.
Qed.

Lemma terminal_not_held s : terminalStatus s = true -> heldStatus s = false.
Proof. by destruct s. Qed.

Lemma reconcile_status_terminal s :
  ((s == StatusSucceeded) || (s == StatusFailed))%bool = true ->
  (s = StatusSucceeded \/ s = StatusFailed) /\ terminalStatus s = true.
Proof. intros [->%eqb_true_1| ->%eqb_true_1]%orb_true_iff; auto. Qed.

Lemma Reconcile_wf err clock request r :
  repository_wf r -> wp (MemoryRepository_Reconcile err clock request) (fun _ => repository_wf) r.
Proof.
  intros Hr. apply (expireLeases_wf clock) in Hr as Hr1.
  unfold MemoryRepository_Reconcile. lease_wp;
    match goal with H : _ !! reconcile_ExecutionID request = Some ?e |- _ =>
      rename H into He; pose proof (wf_id _ _ _ (wf_executions _ Hr1 _ _ He)) as Hid end;
    match goal with H : (_ || _)%bool = true |- _ =>
      apply reconcile_status_terminal in H as [Hst Hterm] end.
  - rewrite Hid. eapply dropFence_wf; [done|eassumption|].
    apply terminal_not_held. congruence.
  - apply (unfenced_put_wf _ _ _ (reconciledExecution request clock a) Hr1 He); try done.
    + simpl. eapply stored_token; eassumption.
    + intros _. match goal with H : ex_Status a = _ |- _ => by rewrite H end.
    + right. intros j ej Hj. simpl. rewrite <- Hid in Hj. by eapply reconciliationIDTaken_false.
Qed.

Lemma SweepExpired_wf err clock r :
  repository_wf r -> wp (MemoryRepository_SweepExpired err clock) (fun _ => repository_wf) r.
Proof. unfold MemoryRepository_SweepExpired. lease_wp. Qed.

Lemma cancelledExecution_status now e :
  ex_Status (cancelledExecution now e) =
  if ex_Status e == StatusRunning then StatusUncertain else StatusCancelled.
Proof. unfold cancelledExecution. by destruct (_ == _). Qed.

Lemma cancelledExecution_same now e :
  same_execution e (cancelledExecution now e) /\ ex_LeaseToken (cancelledExecution now e) = ""%string /\
  ex_ReconciliationID (cancelledExecution now e) = ex_ReconciliationID e.
Proof. unfold cancelledExecution. destruct (_ == _); repeat split. Qed.

Lemma Cancel_wf err clock id r :
  repository_wf r -> wp (MemoryRepository_Cancel err clock id) (fun _ => repository_wf) r.
Proof.
  intros Hr. unfold MemoryRepository_Cancel. lease_wp.
  pose proof (cancelledExecution_same clock a) as (? & ? & ?).
  pose proof (cancelledExecution_status clock a) as Hst.
  eapply (unfenced_put_wf _ _ _ (cancelledExecution clock a)); eauto.
  - rewrite Hst. by destruct (_ == _).
  - rewrite Hst. destruct (_ == _) eqn:Hrun; [|done]. guards. by rewrite Hrun.
Qed.

Lemma Get_wf err clock id r :
  repository_wf r -> wp (MemoryRepository_Get err clock id) (fun _ => repository_wf) r.
Proof. unfold MemoryRepository_Get. lease_wp. Qed.

#[export] Hint Resolve Enqueue_wf Claim_wf Start_wf Heartbeat_wf Complete_wf Reconcile_wf
  SweepExpired_wf Cancel_wf Get_wf : lease.

Lemma run_call_wf call r : repository_wf r -> wp (run_call call) (fun _ => repository_wf) r.
Proof.
  intros Hr. destruct call; simpl; auto with lease.
  refine (proj2 (wp_bind _ _ _ _) _). eapply wp_mono; [|by apply SweepExpired_wf].
  intros [] ?; [by rewrite wp_ret|done].
Qed.

Lemma initial_wf clock r : NewMemory clock = Ok r -> repository_wf r.
Proof.
  unfold NewMemory. destruct (IsZero clock); [done|]. intros [= <-]. constructor; simpl; try done.
  - by constructor.
  - intros id. rewrite lookup_empty. split; [by intros ?%elem_of_nil|by intros []].
Qed.

Lemma rtc_call_step_wf r r' : repository_wf r -> rtc call_step r r' -> repository_wf r'.
Proof. intros Hr H. induction H as [|? ? ? [call <-] _ IH]; [done|]. by apply IH, run_call_wf. Qed.

Lemma reachable_repository_wf r : reachable r -> repository_wf r.
Proof. intros (clock & r0 & H0 & H). eauto using rtc_call_step_wf, initial_wf. Qed.

(** ** The lifecycle of executions *)

Lemma lifecycle_step_epoch p q : lifecycle_step p q -> p.2 <= q.2.
Proof. destruct 1; simpl; lia. Qed.

Lemma lifecycle_epoch_mono p q : rtc lifecycle_step p q -> p.2 <= q.2.
Proof. induction 1 as [|??? ?%lifecycle_step_epoch]; lia. Qed.

Lemma evolves_refl r : evolves r r.
Proof. intros id e He. exists e. repeat split; eauto. apply rtc_refl. Qed.

Lemma evolves_trans r1 r2 r3 : evolves r1 r2 -> evolves r2 r3 -> evolves r1 r3.
Proof.
  intros H12 H23 id e1 (e2 & He2 & Hl12 & (?&?&?&?&?) & Hf12)%H12.
  destruct (H23 _ _ He2) as (e3 & He3 & Hl23 & (?&?&?&?&?) & Hf23).
  exists e3. split; [done|]. split; [by etrans|]. split; [repeat split; congruence|].
  intros f' [Hf|Hlt]%Hf23; [by apply Hf12|]. right.
  apply lifecycle_epoch_mono in Hl12. simpl in Hl12. lia.
Qed.

#[export] Hint Resolve evolves_refl : lease.

(** Rewriting one execution, its fence kept or dropped. *)
Lemma evolves_update r id e e' fences' :
  executions r !! id = Some e ->
  rtc lifecycle_step (lifecycle e) (lifecycle e') -> same_identity e e' ->
  (forall j f, fences' !! j = Some f ->
     leaseFences r !! j = Some f \/ (j = id /\ ex_LeaseEpoch e < fence_epoch f)) ->
  evolves r {| r with executions := <[id := e']> (executions r); leaseFences := fences' |}.
Proof.
  intros He Hl Hs Hf j ej Hj. simpl. destruct (decide (j = id)) as [->|Hne].
  - exists e'. rewrite lookup_insert_eq. simplify_eq. split_and!; auto.
    intros f [?|[??]]%Hf; auto.
  - exists ej. rewrite lookup_insert_ne by done. split_and!; [done|apply rtc_refl|by repeat split|].
    intros f [?|[??]]%Hf; [by auto|done].
Qed.

Lemma stored_id r id e : repository_wf r -> executions r !! id = Some e -> ex_ExecutionID e = id.
Proof. intros Hr He. by destruct (wf_executions _ Hr id e He). Qed.

Lemma evolves_put r id e e' :
  repository_wf r -> executions r !! id = Some e ->
  rtc lifecycle_step (lifecycle e) (lifecycle e') -> same_identity e e' ->
  evolves r (putExecution e' r).
Proof.
  intros Hr He Hl [Hid Hs]. unfold putExecution. rewrite Hid, (stored_id r id e Hr He).
  eapply evolves_update; eauto. by split.
Qed.

Lemma evolves_dropFence r id : evolves r (dropFence id r).
Proof.
  intros j e He. exists e. split_and!; [done|apply rtc_refl|by repeat split|].
  simpl. intros f [??]%lookup_delete_Some. auto.
Qed.

Lemma evolves_dropFence_put r id e e' :
  repository_wf r -> executions r !! id = Some e ->
  rtc lifecycle_step (lifecycle e) (lifecycle e') -> same_identity e e' ->
  evolves r (putExecution e' (dropFence (ex_ExecutionID e') r)).
Proof.
  intros Hr He Hl [Hid Hs]. unfold putExecution. rewrite Hid, (stored_id r id e Hr He).
  eapply evolves_trans; [apply (evolves_dropFence r id)|].
  eapply evolves_update; eauto. by split.
Qed.

Lemma evolves_expireLeases_over ids now r : evolves r (expireLeases_over ids now r).
Proof.
  unfold expireLeases_over. revert r. induction ids as [|id ids IH]; intros r; simpl; [apply evolves_refl|].
  eapply evolves_trans; [|apply IH]. unfold expireLeases_body.
  destruct (executions r !! id) as [e|] eqn:He; [|apply evolves_refl].
  destruct (expireExecution now e) as [e'|] eqn:Hx; [|apply evolves_refl].
  assert (same_identity e e') as Hs.
  { unfold expireExecution in Hx. destruct (_ || _); [done|].
    destruct (ex_Status e); simplify_eq; done. }
  apply expireExecution_Some in Hx as (_&_&_&Hst&_&_&_&_&Hep&_).
  apply (evolves_update r id e e'); [done| |done|].
  - unfold lifecycle. rewrite Hep. apply rtc_once. destruct Hst as [[-> ->]|[-> ->]]; constructor.
  - intros j f [??]%lookup_delete_Some. auto.
Qed.

Lemma evolves_expireLeases now r : evolves r (expireLeases now r).
Proof. apply evolves_expireLeases_over. Qed.

#[export] Hint Resolve evolves_expireLeases : lease.

Lemma claimLoop_evolves request now token ids r :
  wp (claimLoop request now token ids) (fun _ => evolves r) r.
Proof.
  induction ids as [|id ids IH]; simpl; [wp_step; auto with lease|].
  repeat wp_step; [done|].
  match goal with H : claimSkips _ _ _ = false |- _ => destruct (claimSkips_known _ _ _ H) as (e & He & Hs) end.
  rewrite He. simpl. apply claimSkips_false in Hs as (Hq & _).
  unfold claimExecution. lease_wp.
  apply (evolves_update r id e (leasedExecution request now e)); [done| |done|].
  - unfold lifecycle. rewrite Hq. apply rtc_once. constructor.
  - intros j f [[<- <-]|[??]]%lookup_insert_Some; [right|by left]. simpl. split; [done|lia].
Qed.

(** Compose the expiry sweep with what follows it. *)
Lemma wp_evolves_expire {A} now (m : M MemoryRepository A) r :
  wp m (fun _ => evolves (expireLeases now r)) (expireLeases now r) ->
  wp m (fun _ => evolves r) (expireLeases now r).
Proof. apply wp_mono. intros _ r'. apply evolves_trans, evolves_expireLeases. Qed.

Lemma run_call_evolves call r : repository_wf r -> wp (run_call call) (fun _ => evolves r) r.
Proof.
  intros Hr. destruct call; simpl.
  - unfold MemoryRepository_Enqueue. lease_wp.
    intros j ej Hj. simpl. exists ej. rewrite lookup_insert_ne by congruence.
    split_and!; [done|apply rtc_refl|by repeat split|by auto].
  - unfold MemoryRepository_Claim. lease_wp. apply wp_evolves_expire, claimLoop_evolves.
  - unfold MemoryRepository_Start. lease_wp.
    eapply (evolves_put r _ a); [done|eassumption| |done].
    unfold lifecycle. match goal with H : ex_Status a = _ |- _ => rewrite H end. apply rtc_once. constructor.
  - unfold MemoryRepository_Heartbeat. lease_wp.
    eapply (evolves_put r _ a); [done|eassumption|apply rtc_refl|done].
  - unfold MemoryRepository_Complete. lease_wp.
    eapply (evolves_put r _ a); [done|eassumption| |done].
    unfold lifecycle. match goal with H : ex_Status a = _ |- _ => rewrite H end. apply rtc_once. simpl.
    repeat match goal with H : (_ || _)%bool = true |- _ => apply orb_true_iff in H as [H|H] end;
      guards; match goal with H : complete_Status _ = _ |- _ => rewrite H end; constructor.
  - apply (expireLeases_wf clock) in Hr as Hr1.
    unfold MemoryRepository_Reconcile. lease_wp; eapply evolves_trans; [apply evolves_expireLeases| |apply evolves_expireLeases|].
    + apply evolves_dropFence.
    + match goal with H : _ !! reconcile_ExecutionID request = Some ?e |- _ => rename H into He end.
      match goal with H : (_ || _)%bool = true |- _ => apply reconcile_status_terminal in H as [Hst _] end.
      apply (evolves_dropFence_put _ _ a _ Hr1 He); [ |done].
      unfold lifecycle. match goal with H : ex_Status a = _ |- _ => rewrite H end. apply rtc_once. simpl.
      destruct Hst as [-> | ->]; constructor.
  - unfold MemoryRepository_SweepExpired. lease_wp.
  - unfold MemoryRepository_Cancel. lease_wp.
    pose proof (cancelledExecution_same clock a) as ((?&?&?&?&Hep&?) & _ & _).
    eapply (evolves_dropFence_put r _ a (cancelledExecution clock a)); [done|eassumption|..].
    + unfold lifecycle. rewrite cancelledExecution_status, Hep.
      pose proof (wf_status _ _ _ (wf_executions _ Hr _ _ ltac:(eassumption))) as Hs.
      apply rtc_once. destruct (ex_Status a); simpl; try done; constructor.
    + by repeat split.
  - unfold MemoryRepository_Get. lease_wp.
Qed.

Lemma rtc_call_step_evolves r r' : repository_wf r -> rtc call_step r r' -> evolves r r'.
Proof.
  intros Hr H. induction H as [|r ? ? [call <-] _ IH]; [apply evolves_refl|].
  eapply evolves_trans; [by apply (run_call_evolves call r)|]. by apply IH, run_call_wf.
Qed.

(** ** What a granted claim leaves behind *)

Definition granted_by (request : ClaimRequest) (granted : Execution) (r : MemoryRepository) : Prop :=
  exists e, executions r !! ex_ExecutionID granted = Some e /\ ex_Status e = StatusLeased /\
    granted = {| e with ex_LeaseToken := ex_LeaseToken granted |} /\
    ex_RunnerID granted = claim_RunnerID request /\
    leaseFences r !! ex_ExecutionID granted =
      Some {| fence_runnerID := claim_RunnerID request; fence_epoch := ex_LeaseEpoch granted;
              fence_tokenSHA256 := Sum256 (ex_LeaseToken granted) |}.

Lemma claimLoop_granted request now token ids r :
  repository_wf r ->
  wp (claimLoop request now token ids) (fun result r' =>
    match result with
    | Ok granted => granted_by request granted r'
    | Err _ => r' = r
    end) r.
Proof.
  intros Hr. induction ids as [|id ids IH]; simpl; [by wp_step|].
  repeat wp_step; [done|].
  match goal with H : claimSkips _ _ _ = false |- _ => destruct (claimSkips_known _ _ _ H) as (e & He & Hs) end.
  rewrite He. simpl. pose proof (stored_id _ _ _ Hr He) as Hid.
  unfold claimExecution. lease_wp.
  exists (leasedExecution request now e). simpl. rewrite Hid, !lookup_insert_eq. by repeat split.
Qed.

Lemma Claim_granted err clock token request r :
  repository_wf r ->
  wp (MemoryRepository_Claim err clock token request) (fun result r' =>
    match result with
    | Ok granted => granted_by request granted r'
    | Err _ => r' = r \/ r' = expireLeases clock r
    end) r.
Proof.
  intros Hr. unfold MemoryRepository_Claim. lease_wp.
  eapply wp_mono; [|by apply claimLoop_granted, expireLeases_wf]. intros []; auto.
Qed.

Lemma granted_evolves request granted r r' :
  granted_by request granted r -> evolves r r' ->
  forall f, leaseFences r' !! ex_ExecutionID granted = Some f ->
    f = {| fence_runnerID := claim_RunnerID request; fence_epoch := ex_LeaseEpoch granted;
           fence_tokenSHA256 := Sum256 (ex_LeaseToken granted) |} \/
    ex_LeaseEpoch granted < fence_epoch f.
Proof.
  intros (e & He & _ & Hg & _ & Hfence) Hev f Hf.
  destruct (Hev _ _ He) as (_ & _ & _ & _ & Hfr). apply Hfr in Hf as [Hf|Hlt].
  - left. congruence.
  - right. rewrite Hg. done.
Qed.

(** ** Expiry, execution by execution *)

(** The reference definition: expire every execution on its own. *)
Definition expireAll (now : Time) (r : MemoryRepository) : MemoryRepository :=
  {| r with
     executions := (fun e => default e (expireExecution now e)) <$> executions r;
     leaseFences := map_imap (fun id f =>
       match executions r !! id with
       | Some e => if expireExecution now e is Some _ then None else Some f
       | None => Some f
       end) (leaseFences r) |}.

Lemma expireLeases_body_lookup now r id j :
  executions (expireLeases_body now r id) !! j =
    (if decide (j = id) then (fun e => default e (expireExecution now e)) <$> executions r !! j
     else executions r !! j) /\
  leaseFences (expireLeases_body now r id) !! j =
    (if decide (j = id) then leaseFences (expireAll now r) !! j else leaseFences r !! j) /\
  order (expireLeases_body now r id) = order r.
Proof.
  unfold expireLeases_body, expireAll. simpl. rewrite map_lookup_imap.
  destruct (executions r !! id) as [e|] eqn:He; [destruct (expireExecution now e) as [e'|] eqn:Hx|];
    simpl; (destruct (decide (j = id)) as [->|Hne]; [rewrite ?He; simpl; rewrite ?Hx|]);
    rewrite ?lookup_insert_eq, ?lookup_delete_eq, ?lookup_insert_ne, ?lookup_delete_ne by done; simpl; auto;
    destruct (leaseFences r !! id); auto.
Qed.

Lemma expireAll_idem now e :
  (fun e => default e (expireExecution now e)) (default e (expireExecution now e)) =
  default e (expireExecution now e).
Proof.
  destruct (expireExecution now e) as [e'|] eqn:Hx; simpl; [|by rewrite Hx].
  by rewrite (expireExecution_twice _ _ _ Hx).
Qed.

Lemma expireLeases_over_lookup ids now r j :
  executions (expireLeases_over ids now r) !! j =
    (if decide (j ∈ ids) then (fun e => default e (expireExecution now e)) <$> executions r !! j
     else executions r !! j) /\
  leaseFences (expireLeases_over ids now r) !! j =
    (if decide (j ∈ ids) then leaseFences (expireAll now r) !! j else leaseFences r !! j) /\
  order (expireLeases_over ids now r) = order r.
Proof.
  unfold expireLeases_over. revert r. induction ids as [|id ids IH]; intros r; cbn [foldl].
  { rewrite !decide_False by (by intros ?%elem_of_nil). auto. }
  destruct (IH (expireLeases_body now r id)) as (-> & -> & ->).
  destruct (expireLeases_body_lookup now r id j) as (Hex & Hfn & ->).
  unfold expireAll in *. cbn [leaseFences] in *. rewrite map_lookup_imap in *.
  rewrite map_lookup_imap. rewrite Hex, Hfn. clear IH Hex Hfn.
  destruct (decide (j = id)) as [->|Hne].
  2: by rewrite !(decide_ext (j ∈ id :: ids) (j ∈ ids)) by set_solver.
  rewrite !(decide_True (P := id ∈ id :: ids)) by set_solver.
  destruct (executions r !! id) as [e|]; cbn [fmap option_fmap option_map].
  2: destruct (leaseFences r !! id); by repeat case_decide.
  rewrite expireAll_idem.
  destruct (expireExecution now e) as [e'|] eqn:Hx; cbn [default];
    [rewrite (expireExecution_twice _ _ _ Hx)|rewrite Hx];
    destruct (leaseFences r !! id); by repeat case_decide.
Qed.

Lemma MemoryRepository_eq r r' :
  (forall id, executions r !! id = executions r' !! id) ->
  (forall id, leaseFences r !! id = leaseFences r' !! id) ->
  order r = order r' -> r = r'.
Proof.
  destruct r, r'. simpl. intros He%map_eq Hf%map_eq Ho. congruence.
Qed.

Lemma expireLeases_over_all ids now r :
  repository_wf r -> (forall id, is_Some (executions r !! id) -> id ∈ ids) ->
  expireLeases_over ids now r = expireAll now r.
Proof.
  intros Hr Hids. apply MemoryRepository_eq; [intros id|intros id|];
    destruct (expireLeases_over_lookup ids now r id) as (Hex & Hfn & Ho) || idtac.
  - rewrite Hex. simpl. rewrite lookup_fmap. destruct (decide (id ∈ ids)) as [|Hni]; [done|].
    destruct (executions r !! id) eqn:He; [|done]. destruct Hni. auto.
  - rewrite Hfn. destruct (decide (id ∈ ids)) as [|Hni]; [done|].
    destruct (leaseFences r !! id) as [f|] eqn:Hf.
    + destruct Hni. apply Hids. by eapply wf_fences.
    + unfold expireAll. simpl. by rewrite map_lookup_imap, Hf.
  - by destruct (expireLeases_over_lookup ids now r "") as (_ & _ & ->).
Qed.

Lemma expireLeases_all now r : repository_wf r -> expireLeases now r = expireAll now r.
Proof.
  intros Hr. apply expireLeases_over_all; [done|]. intros id [e He].
  apply list_elem_of_fmap. exists (id, e). split; [done|]. by apply elem_of_map_to_list.
Qed.

(** ** The choice [Claim] makes *)

Lemma claimLoop_cons request now token id ids r :
  claimLoop request now token (id :: ids) r =
  (if claimSkips r request (default Execution_zero (executions r !! id))
   then claimLoop request now token ids
   else claimExecution request now token id (default Execution_zero (executions r !! id))) r.
Proof. done. Qed.

Lemma claimLoop_choice request now token ids r :
  (Forall (fun id => claimSkips r request (default Execution_zero (executions r !! id)) = true) ids /\
   claimLoop request now token ids r = (Err ErrNoLeaseAvailable, r)) \/
  (exists before id after e, ids = before ++ id :: after /\
   Forall (fun id => claimSkips r request (default Execution_zero (executions r !! id)) = true) before /\
   executions r !! id = Some e /\ claimSkips r request e = false /\
   claimLoop request now token ids r = claimExecution request now token id e r).
Proof.
  induction ids as [|id ids IH]; [by left|].
  destruct (claimSkips r request (default Execution_zero (executions r !! id))) eqn:Hs.
  - assert (claimLoop request now token (id :: ids) r = claimLoop request now token ids r) as ->.
    { by rewrite claimLoop_cons, Hs. }
    destruct IH as [[Hall ->]|(before & i & after & e & -> & Hall & He & Hsk & ->)].
    + left. auto.
    + right. exists (id :: before), i, after, e. auto.
  - right. destruct (claimSkips_known _ _ _ Hs) as (e & He & Hsk).
    exists [], id, ids, e. repeat split; auto. by rewrite claimLoop_cons, Hs, He.
Qed.

Lemma claimExecution_grants request now token id e r :
  validIdentifier token 256 = true -> ex_LeaseEpoch e <> MaxInt64 ->
  claimExecution request now (Ok token) id e r =
    (Ok (let leased := leasedExecution request now e in {| leased with ex_LeaseToken := token |}),
     {| r with
        leaseFences := <[id := {| fence_runnerID := claim_RunnerID request;
                                  fence_epoch := ex_LeaseEpoch e + 1;
                                  fence_tokenSHA256 := Sum256 token |}]> (leaseFences r);
        executions := <[id := leasedExecution request now e]> (executions r) |}).
Proof.
  intros Ht He%eqb_false.
  unfold claimExecution, wrapError, lift, require, modify, mbind, M_bind, mret, M_ret.
  cbv beta iota zeta. rewrite He. cbn [negb]. cbv iota. by rewrite Ht.
Qed.

(** An execution a claim may be granted: queued, of the requested pool, not
    production WRITE work, and with no other active execution on its target. *)
Definition eligible (r : MemoryRepository) (request : ClaimRequest) (id : string) : Prop :=
  exists e, executions r !! id = Some e /\ ex_Status e = StatusQueued /\
    ex_Pool e = claim_Pool request /\ ~ (ex_Pool e = PoolWrite /\ ex_Production e = true) /\
    forall j ej, j <> id -> executions r !! j = Some ej -> ex_TargetKey ej = ex_TargetKey e ->
      activeStatus (ex_Status ej) = false.

Lemma claimSkips_eligible r request id :
  repository_wf r ->
  claimSkips r request (default Execution_zero (executions r !! id)) = false <-> eligible r request id.
Proof.
  intros Hr. split.
  - intros (e & He & (?&?&Ht&?)%claimSkips_false)%claimSkips_known.
    exists e. split_and!; auto. rewrite (stored_id _ _ _ Hr He) in Ht. by apply targetUnavailable_false.
  - intros (e & He & Hq & Hp & Hw & Ht). rewrite He. simpl. unfold claimSkips.
    rewrite Hq, Hp, !eqb_same. simpl. apply orb_false_iff. split.
    + unfold targetUnavailable. apply existsb_map_false. intros j ej Hj. rewrite (stored_id _ _ _ Hr He).
      destruct (j == id) eqn:Hji; [done|]. apply eqb_false_1 in Hji.
      destruct (ex_TargetKey ej == ex_TargetKey e) eqn:Htk; simpl; [|done].
      apply eqb_true_1 in Htk. eauto.
    + rewrite Hp in Hw. destruct (claim_Pool request == PoolWrite) eqn:Hpw; [|done].
      apply eqb_true_1 in Hpw. destruct (ex_Production e); naive_solver.
Qed.

Definition validClaim (request : ClaimRequest) : Prop :=
  (claim_Pool request = PoolRead \/ claim_Pool request = PoolWrite) /\
  validIdentifier (claim_RunnerID request) 256 = true /\
  minLeaseDuration <= claim_LeaseDuration request <= maxLeaseDuration /\
  claim_ClaimsEnabled request = true.

(** A valid claim is the loop over the FIFO order of the expired repository. *)
Lemma Claim_unfold clock token request r :
  validClaim request -> clock <> 0 -> repository_wf r ->
  MemoryRepository_Claim None clock token request r =
  claimLoop request clock token (order r) (expireAll clock r).
Proof.
  intros (Hp & Hi & [Hlo Hhi] & Hen) Hc Hr. unfold MemoryRepository_Claim.
  assert (validPool (claim_Pool request) = true) as Hv by by destruct Hp as [-> | ->].
  apply Z.leb_le in Hlo, Hhi. apply Z.eqb_neq in Hc.
  unfold repository_now, IsZero, checkContext, require, get, modify, mbind, M_bind, mret, M_ret.
  cbv beta iota. rewrite Hv, Hi, Hlo, Hhi, Hc, Hen. simpl. by rewrite (expireLeases_all clock r Hr).
Qed.

Lemma not_eligible r request ids :
  repository_wf r ->
  Forall (fun id => claimSkips r request (default Execution_zero (executions r !! id)) = true) ids ->
  forall id, id ∈ ids -> ~ eligible r request id.
Proof.
  intros Hr Hall id Hid He%claimSkips_eligible; [|done].
  rewrite Forall_forall in Hall. specialize (Hall id Hid). simpl in Hall. congruence.
Qed.

Lemma expireAll_wf now r : repository_wf r -> repository_wf (expireAll now r).
Proof. intros Hr. rewrite <- (expireLeases_all now r Hr). by apply expireLeases_wf. Qed.

(** A lapsed lease that was never started is eligible again. *)
Lemma lapsed_eligible clock r request id e :
  repository_wf r -> executions r !! id = Some e -> ex_Status e = StatusLeased ->
  ex_LeaseExpiresAt e <> 0 -> ex_LeaseExpiresAt e <= clock -> ex_Pool e = claim_Pool request ->
  eligible (expireAll clock r) request id.
Proof.
  intros Hr He Hs Hz Hle Hp.
  assert (exists e', expireExecution clock e = Some e') as [e' Hx].
  { unfold expireExecution, IsZero, Before. rewrite (proj2 (Z.eqb_neq _ _) Hz), (proj2 (Z.ltb_ge _ _) Hle).
    simpl. rewrite Hs. eauto. }
  pose proof (expireExecution_Some _ _ _ Hx) as (_&_&_&Hst&_&Htk&Hpl&Hpr&_).
  assert (activeStatus (ex_Status e) = true) as Hact by by rewrite Hs.
  exists e'. simpl. rewrite lookup_fmap, He. simpl. rewrite Hx, Hpl, Hpr, Htk.
  split_and!; [done|destruct Hst as [[_ ?]|[? _]]; congruence|done|by eapply wf_production; [eapply wf_executions|]|].
  intros j ej' Hne. rewrite lookup_fmap. intros (ej & Hj & ->)%fmap_Some Htj.
  destruct (activeStatus (ex_Status (default ej (expireExecution clock ej)))) eqn:Ha; [|done].
  exfalso. apply Hne. eapply (wf_exclusive _ Hr j id ej e); try done.
  - destruct (expireExecution clock ej) as [ej'|] eqn:Hxj; simpl in *; [|done].
    apply expireExecution_Some in Hxj as (_&_&_&[[-> _]|[-> _]]&_); done.
  - destruct (expireExecution clock ej) as [ej'|] eqn:Hxj; simpl in *; [|done].
    apply expireExecution_Some in Hxj as (_&_&_&_&_&?&_). congruence.
Qed.

(** ** Settled executions *)

(** Completed by its runner, with the fence of that runner kept for retries. *)
Definition settled (id : string) (e : Execution) (f : leaseFence) (r : MemoryRepository) : Prop :=
  executions r !! id = Some e /\ leaseFences r !! id = Some f /\
  ex_ReconciliationID e = ""%string /\ (ex_Status e = StatusSucceeded \/ ex_Status e = StatusFailed).

Lemma settled_put id e f r e' id' :
  settled id e f r -> repository_wf r -> executions r !! id' = Some e' ->
  (ex_Status e' <> StatusSucceeded /\ ex_Status e' <> StatusFailed \/
   ex_ReconciliationID e' <> ""%string) ->
  forall e'' fences', ex_ExecutionID e'' = ex_ExecutionID e' ->
  (forall j, j <> id' -> fences' !! j = leaseFences r !! j) ->
  settled id e f {| r with executions := <[ex_ExecutionID e'' := e'']> (executions r);
                           leaseFences := fences' |}.
Proof.
  intros (He & Hf & Hrec & Hs) Hr He' Hst e'' fences' Hid Hfr.
  rewrite Hid, (stored_id _ _ _ Hr He').
  assert (id' <> id) by (intros ->; naive_solver).
  unfold settled. simpl. rewrite lookup_insert_ne, Hfr by done. auto.
Qed.

Lemma settled_expireAll id e f now r :
  settled id e f r -> settled id e f (expireAll now r).
Proof.
  intros (He & Hf & Hrec & Hs). unfold settled. simpl. rewrite lookup_fmap, map_lookup_imap, He, Hf. simpl.
  assert (expireExecution now e = None) as ->.
  { unfold expireExecution. destruct (_ || _); [done|]. by destruct Hs as [-> | ->]. }
  auto.
Qed.

Lemma settled_expire id e f now r :
  settled id e f r -> repository_wf r -> settled id e f (expireLeases now r).
Proof. intros ??. rewrite expireLeases_all by done. by apply settled_expireAll. Qed.

#[export] Hint Resolve settled_expire : lease.

Lemma settled_insert id e f r id' e' :
  settled id e f r -> executions r !! id' = None ->
  settled id e f {| r with executions := <[id' := e']> (executions r); order := order r ++ [id'] |}.
Proof.
  intros (He & Hf & Hs) Hn. unfold settled. simpl. by rewrite lookup_insert_ne by congruence.
Qed.

Lemma claimLoop_settled id e f request now token ids r :
  settled id e f r -> repository_wf r ->
  wp (claimLoop request now token ids) (fun _ => settled id e f) r.
Proof.
  intros Hs Hr. destruct (claimLoop_choice request now token ids r)
    as [[_ Heq]|(? & i & ? & ei & _ & _ & Hi & (Hq&_)%claimSkips_false & Heq)].
  - unfold wp. by rewrite Heq.
  - unfold wp. rewrite Heq. change (wp (claimExecution request now token i ei) (fun _ => settled id e f) r).
    unfold claimExecution. lease_wp.
    destruct Hs as (He & Hf & Hrec & Hst). assert (i <> id) by (intros ->; simplify_eq; destruct Hst; congruence).
    unfold settled. simpl. by rewrite !lookup_insert_ne.
Qed.

Lemma settled_putExecution id e f r e' id' e'' :
  settled id e f r -> repository_wf r -> executions r !! id' = Some e' ->
  (ex_Status e' <> StatusSucceeded /\ ex_Status e' <> StatusFailed \/
   ex_ReconciliationID e' <> ""%string) ->
  ex_ExecutionID e'' = ex_ExecutionID e' -> settled id e f (putExecution e'' r).
Proof.
  intros Hs Hr He' Hst Hid. apply (settled_put id e f r e' id' Hs Hr He' Hst e'' (leaseFences r) Hid). done.
Qed.

Lemma settled_dropFence_put id e f r e' id' e'' :
  settled id e f r -> repository_wf r -> executions r !! id' = Some e' ->
  (ex_Status e' <> StatusSucceeded /\ ex_Status e' <> StatusFailed \/
   ex_ReconciliationID e' <> ""%string) ->
  ex_ExecutionID e'' = ex_ExecutionID e' ->
  settled id e f (putExecution e'' (dropFence (ex_ExecutionID e'') r)).
Proof.
  intros Hs Hr He' Hst Hid.
  apply (settled_put id e f r e' id' Hs Hr He' Hst e'' (delete (ex_ExecutionID e'') (leaseFences r)) Hid).
  intros j Hj. rewrite Hid, (stored_id _ _ _ Hr He'). by rewrite lookup_delete_ne.
Qed.

Lemma settled_dropFence id e f r e' id' :
  settled id e f r -> repository_wf r -> executions r !! id' = Some e' ->
  ex_ReconciliationID e' <> ""%string -> settled id e f (dropFence (ex_ExecutionID e') r).
Proof.
  intros (He & Hf & Hrec & Hs) Hr He' Hne. rewrite (stored_id _ _ _ Hr He').
  assert (id' <> id) by (intros ->; naive_solver).
  unfold settled. simpl. by rewrite lookup_delete_ne.
Qed.

Lemma held_unsettled e fence lease now :
  currentLease e fence lease now = true ->
  ex_Status e <> StatusSucceeded /\ ex_Status e <> StatusFailed.
Proof. intros [-> | ->]%currentLease_held%heldStatus_cases; done. Qed.

(** No call moves a settled execution or takes its fence. *)
Lemma run_call_settled id e f call r :
  settled id e f r -> repository_wf r -> wp (run_call call) (fun _ => settled id e f) r.
Proof.
  intros Hs Hr. pose proof (fun now => expireLeases_wf now r Hr).
  pose proof (fun now => settled_expire id e f now r Hs Hr).
  destruct call; simpl;
    unfold MemoryRepository_Enqueue, MemoryRepository_Claim, MemoryRepository_Start,
      MemoryRepository_Heartbeat, MemoryRepository_Complete, MemoryRepository_Reconcile,
      MemoryRepository_SweepExpired, MemoryRepository_Cancel, MemoryRepository_Get;
    lease_wp; guards; try (by apply settled_insert); try (by apply claimLoop_settled);
    try (eapply settled_dropFence_put; [done|by auto|eassumption| |done]);
    try (eapply settled_putExecution; [done|by auto|eassumption| |done]);
    try (by eapply settled_dropFence; [..|eassumption|]); try left; eauto using held_unsettled.
  - match goal with H : ex_Status _ = StatusUncertain |- _ => by rewrite H end.
  - pose proof (cancelledExecution_same clock a) as ((Hid & _) & _).
    eapply settled_dropFence_put; [done|done|eassumption| |done]. left.
    match goal with H : terminalStatus _ = false |- _ => unfold terminalStatus in H end. by guards.
Qed.

Lemma rtc_call_step_settled id e f r r' :
  settled id e f r -> repository_wf r -> rtc call_step r r' -> settled id e f r'.
Proof.
  intros Hs Hr H. induction H as [|r ? ? [call <-] _ IH]; [done|].
  apply IH; [by apply (run_call_settled id e f call r)|by apply run_call_wf].
Qed.

(** What a successful [Complete] with success or failure leaves behind. *)
Lemma Complete_settles err clock request r :
  repository_wf r ->
  wp (MemoryRepository_Complete err clock request) (fun result r' =>
    match result with
    | Ok execution =>
        complete_Status request <> StatusUncertain -> ex_ReconciliationID execution = ""%string ->
        validLease (complete_Lease request) = true /\
        exists f e, settled (lease_ExecutionID (complete_Lease request)) e f r' /\
          execution = redactedExecution e /\ ex_Status e = complete_Status request /\
          ex_ResultHash e = complete_ResultHash request /\
          leaseFence_matches f (complete_Lease request) = true
    | Err _ => r' = r
    end) r.
Proof.
  intros Hr. unfold MemoryRepository_Complete. lease_wp;
    intros Hnu Hrec; split; try done;
    match goal with H : executions r !! _ = Some ?a |- _ =>
      rename H into He; pose proof (stored_id _ _ _ Hr He) as Hid end.
  - unfold fenceMatches in *. rewrite Hid in *. case_match eqn:Hf; [|done].
    exists l, a. unfold settled. rewrite Hf. split_and!; try done.
    assert (complete_Status request = StatusSucceeded \/ complete_Status request = StatusFailed)
      by (repeat match goal with H : _ || _ = true |- _ => apply orb_true_iff in H as [H|H] end; guards; auto; done).
    naive_solver congruence.
  - match goal with H : currentLease _ _ _ _ = true |- _ => unfold currentLease in H end. guards.
    unfold fenceMatches in *. rewrite Hid in *. case_match eqn:Hf; [|done].
    exists l, (completedExecution request clock a). unfold settled, putExecution. simpl.
    rewrite Hid, lookup_insert_eq. split_and!; try done.
    repeat match goal with H : _ || _ = true |- _ => apply orb_true_iff in H as [H|H] end; guards; auto; done.
Qed.

Lemma Complete_settled clock request id e f r :
  settled id e f r -> repository_wf r -> clock <> 0 ->
  validLease (complete_Lease request) = true -> lease_ExecutionID (complete_Lease request) = id ->
  leaseFence_matches f (complete_Lease request) = true ->
  (complete_Status request = StatusSucceeded \/ complete_Status request = StatusFailed) ->
  sha256Pattern (complete_ResultHash request) = true ->
  MemoryRepository_Complete None clock request r =
    (if (ex_Status e == complete_Status request) && (ex_ResultHash e == complete_ResultHash request)
     then Ok (redactedExecution e) else Err ErrCompletionConflict, r).
Proof.
  intros (He & Hf & Hrec & Hst) Hr Hc%Z.eqb_neq Hv Hid Hm Hs Hh. unfold MemoryRepository_Complete.
  assert (((complete_Status request == StatusSucceeded) || (complete_Status request == StatusFailed) ||
          (complete_Status request == StatusUncertain)) = true) as Hs' by by destruct Hs as [-> | ->].
  assert (terminalStatus (ex_Status e) = true) as Ht by by destruct Hst as [-> | ->].
  unfold repository_now, IsZero, checkContext, require_some, require, get, throw, mbind, M_bind, mret, M_ret.
  cbv beta iota zeta. rewrite Hv, Hs', Hh, Hc. cbn [andb]. cbv iota.
  rewrite Hid, He, (stored_id _ _ _ Hr He), Hf, Ht, Hrec, eqb_same. cbn [fenceMatches]. rewrite Hm.
  by destruct (_ && _).
Qed.
