(* ===== verification/ExecutionLeaseTheorems.v ===== *)
(** * Execution leases: the properties of the in-memory repository

    The correctness statements of [internal/executionlease], each proved from
    the invariant and the lifecycle simulation of [ExecutionLeaseFacts], and the
    concrete runs that show their hypotheses can hold. *)

From S2P Require Import Prelude.
From S2P Require Import Sha256.
From S2P Require Import GoText.
From S2P Require Import ExecutionLease.
From S2P Require Import ExecutionLeaseFacts.

(** ** A concrete run: two executions on one target, one of them leased *)

Definition demo_start : Time := 1000 * Second.
Definition demo_enqueue (id : string) : Call :=
  CallEnqueue None demo_start
    {| enq_ExecutionID := id; enq_TargetKey := "cluster/ns/app"; enq_Pool := PoolWrite;
       enq_Production := false |}.
Definition demo_claim_request (runner : string) : ClaimRequest :=
  {| claim_Pool := PoolWrite; claim_RunnerID := runner; claim_LeaseDuration := 60 * Second;
     claim_ClaimsEnabled := true |}.
Definition demo_claim (runner token : string) (clock : Time) : Call :=
  CallClaim None clock (Ok token) (demo_claim_request runner).
Definition demo_lease (id runner token : string) (epoch : Z) : LeaseIdentity :=
  {| lease_ExecutionID := id; lease_RunnerID := runner; lease_Token := token; lease_Epoch := epoch |}.
Definition demo_hash : string := sha256_hex "result".
Definition demo_complete (lease : LeaseIdentity) (status : Status) : CompleteRequest :=
  {| complete_Lease := lease; complete_Status := status; complete_ResultHash := demo_hash |}.

Definition demo_initial : MemoryRepository :=
  {| executions := ∅; leaseFences := ∅; order := [] |}.
Definition demo_after (calls : list Call) : MemoryRepository := (run_calls calls demo_initial).2.
Definition demo_queued : MemoryRepository := demo_after [demo_enqueue "a"; demo_enqueue "b"].
Definition demo_leased : MemoryRepository :=
  demo_after [demo_enqueue "a"; demo_enqueue "b"; demo_claim "runner-1" "token-1" demo_start].

Lemma run_calls_steps calls r : rtc call_step r (run_calls calls r).2.
Proof.
  revert r. induction calls as [|call calls IH]; intros r; simpl; [apply rtc_refl|].
  destruct (run_call call r) as [result r1] eqn:E. specialize (IH r1).
  destruct (run_calls calls r1) as [results r2]. simpl in *.
  eapply rtc_l; [|apply IH]. exists call. by rewrite E.
Qed.

Lemma demo_reachable calls : reachable (demo_after calls).
Proof. exists 1, demo_initial. split; [done|]. apply run_calls_steps. Qed.

#[local] Opaque demo_after.

(** ** Theorems *)

(** In every reachable repository an execution's key, redacted token, epoch
    range, status and fence are consistent, the FIFO order lists exactly the
    stored executions once each, at most one execution per target is active,
    and a reconciliation id is recorded on one execution only. *)
Theorem lease_repository_invariant r : reachable r -> repository_wf r.
Proof. apply reachable_repository_wf. Qed.

Lemma lease_repository_invariant_witness : repository_wf demo_leased.
Proof. apply (lease_repository_invariant demo_leased). apply demo_reachable. Defined.

(** Two different executions with the same target key are never active
    (leased, running or uncertain) together, whatever calls were made. *)
Theorem target_mutual_exclusion r i j ei ej :
  reachable r -> i <> j ->
  executions r !! i = Some ei -> executions r !! j = Some ej ->
  ex_TargetKey ei = ex_TargetKey ej ->
  ~ (activeStatus (ex_Status ei) = true /\ activeStatus (ex_Status ej) = true).
Proof.
  intros Hr Hne Hi Hj Ht [Ha Hb]. apply Hne.
  by eapply (wf_exclusive _ (reachable_repository_wf r Hr)).
Qed.

Lemma target_mutual_exclusion_witness :
  exists ea eb, executions demo_leased !! "a"%string = Some ea /\
    executions demo_leased !! "b"%string = Some eb /\ ex_Status ea = StatusLeased /\
    ~ (activeStatus (ex_Status ea) = true /\ activeStatus (ex_Status eb) = true).
Proof.
  exists (default Execution_zero (executions demo_leased !! "a"%string)),
         (default Execution_zero (executions demo_leased !! "b"%string)).
  split; [vm_compute; reflexivity|]. split; [vm_compute; reflexivity|].
  split; [vm_compute; reflexivity|].
  apply (target_mutual_exclusion demo_leased "a" "b"); [apply demo_reachable|done|vm_compute; reflexivity..].
Defined.

(** C11. The repository implements the abstract lifecycle: under any sequence of
    calls every execution keeps its identity and moves only along the
    transitions of [lifecycle_step], so leases are granted one epoch at a time
    and succeeded, failed and cancelled executions never change status. *)
Theorem executions_follow_lifecycle r r' id e :
  reachable r -> rtc call_step r r' -> executions r !! id = Some e ->
  exists e', executions r' !! id = Some e' /\ same_identity e e' /\
    rtc lifecycle_step (lifecycle e) (lifecycle e') /\
    (ex_Status e = StatusSucceeded \/ ex_Status e = StatusFailed \/ ex_Status e = StatusCancelled ->
     lifecycle e' = lifecycle e).
Proof.
  intros Hr Hs He. apply reachable_repository_wf in Hr.
  destruct (rtc_call_step_evolves r r' Hr Hs id e He) as (e' & He' & Hl & Hid & _).
  exists e'. split_and!; [done|done|done|]. intros Hst.
  apply rtc_inv in Hl as [Heq|(q & Hq & _)]; [done|]. unfold lifecycle in Hq.
  destruct Hst as [Hst|[Hst|Hst]]; rewrite Hst in Hq; inversion Hq.
Qed.

Lemma executions_follow_lifecycle_witness :
  exists e', executions demo_leased !! "a"%string = Some e' /\
    rtc lifecycle_step (StatusQueued, 0) (lifecycle e').
Proof.
  destruct (executions_follow_lifecycle demo_queued demo_leased "a"
              (default Execution_zero (executions demo_queued !! "a"%string)))
    as (e' & He' & _ & Hl & _).
  - apply demo_reachable.
  - apply (run_calls_steps [demo_claim "runner-1" "token-1" demo_start] demo_queued).
  - vm_compute. reflexivity.
  - exists e'. split; [exact He'|exact Hl].
Defined.

(** The fence a call presents must be the one stored: a call that succeeds with
    a lease leaves evidence of the stored fence it matched. *)
Lemma call_lease_matches call lease r :
  call_lease call = Some lease -> repository_wf r ->
  wp (run_call call) (fun result r' =>
    match result with
    | Ok _ => fenceMatches (leaseFences r !! lease_ExecutionID lease) lease = true
    | Err _ => r' = r
    end) r.
Proof.
  intros Hc Hr. destruct call; simplify_eq/=.
  - unfold MemoryRepository_Start. lease_wp;
      match goal with H : currentLease _ _ _ _ = true |- _ => unfold currentLease in H end; guards; congruence.
  - unfold MemoryRepository_Heartbeat. lease_wp.
    match goal with H : currentLease _ _ _ _ = true |- _ => unfold currentLease in H end; guards; congruence.
  - unfold MemoryRepository_Complete. lease_wp;
      match goal with H : _ !! _ = Some ?a |- _ => pose proof (stored_id _ _ _ Hr H) end.
    + congruence.
    + match goal with H : currentLease _ _ _ _ = true |- _ => unfold currentLease in H end; guards; congruence.
Qed.

(** Fencing. Once [Claim] granted an epoch of an execution to a runner with
    a token, then at any later time a Start, Heartbeat or Complete that succeeds
    for that execution and epoch comes from that runner and presents a token
    with the same SHA-256 digest. *)
Theorem granted_lease_is_exclusive r1 err clock token request granted r2 r3 call lease execution r4 :
  reachable r1 ->
  MemoryRepository_Claim err clock token request r1 = (Ok granted, r2) ->
  rtc call_step r2 r3 ->
  call_lease call = Some lease ->
  lease_ExecutionID lease = ex_ExecutionID granted ->
  lease_Epoch lease = ex_LeaseEpoch granted ->
  run_call call r3 = (Ok execution, r4) ->
  lease_RunnerID lease = claim_RunnerID request /\
  Sum256 (lease_Token lease) = Sum256 (ex_LeaseToken granted).
Proof.
  intros Hr1%reachable_repository_wf Hclaim Hsteps Hc Hid Hep Hrun.
  pose proof (wp_run _ _ _ (Claim_granted err clock token request r1 Hr1) _ _ Hclaim) as Hg.
  pose proof (wp_run _ _ _ (Claim_wf err clock token request r1 Hr1) _ _ Hclaim) as Hr2.
  pose proof (rtc_call_step_wf _ _ Hr2 Hsteps) as Hr3.
  pose proof (wp_run _ _ _ (call_lease_matches call lease r3 Hc Hr3) _ _ Hrun) as Hm.
  rewrite Hid in Hm. unfold fenceMatches in Hm.
  destruct (leaseFences r3 !! _) as [f|] eqn:Hf; [|done].
  unfold leaseFence_matches, tokenDigestMatches in Hm. guards.
  destruct (granted_evolves _ _ _ _ Hg (rtc_call_step_evolves _ _ Hr2 Hsteps) f Hf) as [-> | ?];
    simpl in *; [by split|lia].
Qed.

Lemma granted_lease_is_exclusive_witness :
  let lease := demo_lease "a" "runner-1" "token-1" 1 in
  exists execution r4,
    run_call (CallStart None demo_start lease) demo_leased = (Ok execution, r4) /\
    lease_RunnerID lease = "runner-1"%string.
Proof.
  intros lease.
  exists (match (run_call (CallStart None demo_start lease) demo_leased).1 with
          | Ok e => e | Err _ => Execution_zero end),
         (run_call (CallStart None demo_start lease) demo_leased).2.
  split; [vm_compute; reflexivity|].
  eapply (proj1 (A := lease_RunnerID lease = claim_RunnerID (demo_claim_request "runner-1"))).
  eapply (granted_lease_is_exclusive demo_queued None demo_start (Ok "token-1"%string)
            (demo_claim_request "runner-1")
            (match (run_call (demo_claim "runner-1" "token-1" demo_start) demo_queued).1 with
             | Ok e => e | Err _ => Execution_zero end)
            demo_leased demo_leased (CallStart None demo_start lease) lease);
    [apply demo_reachable|vm_compute; reflexivity|apply rtc_refl|vm_compute; reflexivity..].
Defined.

(** A superseded runner is locked out: after an epoch was granted, every
    Start, Heartbeat or Complete with an older epoch of that execution is an
    error and changes nothing, at any later time. *)
Theorem superseded_lease_is_rejected r1 err clock token request granted r2 r3 call lease :
  reachable r1 ->
  MemoryRepository_Claim err clock token request r1 = (Ok granted, r2) ->
  rtc call_step r2 r3 ->
  call_lease call = Some lease ->
  lease_ExecutionID lease = ex_ExecutionID granted ->
  lease_Epoch lease < ex_LeaseEpoch granted ->
  exists e, run_call call r3 = (Err e, r3).
Proof.
  intros Hr1%reachable_repository_wf Hclaim Hsteps Hc Hid Hep.
  pose proof (wp_run _ _ _ (Claim_granted err clock token request r1 Hr1) _ _ Hclaim) as Hg.
  pose proof (wp_run _ _ _ (Claim_wf err clock token request r1 Hr1) _ _ Hclaim) as Hr2.
  pose proof (rtc_call_step_wf _ _ Hr2 Hsteps) as Hr3.
  destruct (run_call call r3) as [[e|e] r4] eqn:Hrun;
    pose proof (wp_run _ _ _ (call_lease_matches call lease r3 Hc Hr3) _ _ Hrun) as Hm;
    simpl in Hm; [|by subst; eauto].
  rewrite Hid in Hm. unfold fenceMatches in Hm.
  destruct (leaseFences r3 !! _) as [f|] eqn:Hf; [|done].
  unfold leaseFence_matches in Hm. guards.
  destruct (granted_evolves _ _ _ _ Hg (rtc_call_step_evolves _ _ Hr2 Hsteps) f Hf) as [-> | ?];
    simpl in *; lia.
Qed.

(** Runner 1 lets its lease lapse, runner 2 is granted the next epoch. *)
Definition demo_late : Time := demo_start + 61 * Second.

Lemma superseded_lease_is_rejected_witness :
  exists e,
    run_call (CallComplete None demo_late
                (demo_complete (demo_lease "a" "runner-1" "token-1" 1) StatusSucceeded))
      (demo_after [demo_enqueue "a"; demo_enqueue "b"; demo_claim "runner-1" "token-1" demo_start;
                   demo_claim "runner-2" "token-2" demo_late])
    = (Err e, demo_after [demo_enqueue "a"; demo_enqueue "b"; demo_claim "runner-1" "token-1" demo_start;
                          demo_claim "runner-2" "token-2" demo_late]).
Proof.
  apply (superseded_lease_is_rejected demo_leased None demo_late (Ok "token-2"%string)
           (demo_claim_request "runner-2")
           (match (run_call (demo_claim "runner-2" "token-2" demo_late) demo_leased).1 with
            | Ok e => e | Err _ => Execution_zero end)
           (demo_after [demo_enqueue "a"; demo_enqueue "b"; demo_claim "runner-1" "token-1" demo_start;
                        demo_claim "runner-2" "token-2" demo_late])
           _ _ (demo_lease "a" "runner-1" "token-1" 1));
    [apply demo_reachable|vm_compute; reflexivity|apply rtc_refl|vm_compute; reflexivity..].
Defined.

(** Go's map iteration order does not matter to lease expiry: the loop over
    any enumeration that lists every stored execution gives the repository in
    which each execution is expired on its own. *)
Theorem expiry_is_pointwise ids now r :
  reachable r -> (forall id, is_Some (executions r !! id) -> id ∈ ids) ->
  expireLeases_over ids now r = expireAll now r.
Proof. intros Hr%reachable_repository_wf. by apply expireLeases_over_all. Qed.

Lemma expiry_is_pointwise_witness :
  expireLeases_over ["b"; "a"]%string demo_late demo_leased = expireAll demo_late demo_leased /\
  ex_Status <$> (executions demo_leased !! "a"%string) = Some StatusLeased /\
  ex_Status <$> (executions (expireAll demo_late demo_leased) !! "a"%string) = Some StatusQueued.
Proof.
  split; [|split; vm_compute; reflexivity].
  apply (expiry_is_pointwise ["b"; "a"]%string demo_late demo_leased); [apply demo_reachable|].
  intros id Hid. apply (wf_order _ (reachable_repository_wf demo_leased (demo_reachable _))) in Hid.
  assert (order demo_leased = ["a"; "b"]%string) as Ho by (vm_compute; reflexivity).
  rewrite Ho in Hid. set_solver.
Defined.

(** What a valid [Claim] does: after expiry it grants the first execution of
    the FIFO order that is eligible, with the next epoch and an expiry one lease
    duration ahead, and stores its fence but not its token; it returns
    [ErrNoLeaseAvailable], with nothing but expiry done, exactly when no stored
    execution is eligible. *)
Theorem claim_serves_oldest_eligible clock token request r result r' :
  reachable r -> validClaim request -> clock <> 0 -> validIdentifier token 256 = true ->
  MemoryRepository_Claim None clock (Ok token) request r = (result, r') ->
  let expired := expireAll clock r in
  (result = Err ErrNoLeaseAvailable /\ r' = expired /\ forall id, ~ eligible expired request id) \/
  exists before id after e, order r = before ++ id :: after /\ executions expired !! id = Some e /\
    eligible expired request id /\ (forall i, i ∈ before -> ~ eligible expired request i) /\
    ((ex_LeaseEpoch e = MaxInt64 /\ result = Err (Errorf "lease epoch exhausted" ErrInvalidTransition) /\
      r' = expired) \/
     (ex_LeaseEpoch e < MaxInt64 /\
      result = Ok (let leased := leasedExecution request clock e in {| leased with ex_LeaseToken := token |}) /\
      executions r' = <[id := leasedExecution request clock e]> (executions expired) /\
      leaseFences r' = <[id := {| fence_runnerID := claim_RunnerID request;
                                  fence_epoch := ex_LeaseEpoch e + 1;
                                  fence_tokenSHA256 := Sum256 token |}]> (leaseFences expired))).
Proof.
  intros Hr%reachable_repository_wf Hv Hc Ht. rewrite Claim_unfold by done. cbv zeta.
  pose proof (expireAll_wf clock r Hr) as Hr'.
  destruct (claimLoop_choice request clock (Ok token) (order r) (expireAll clock r))
    as [[Hall ->]|(before & id & after & e & Ho & Hall & He & Hs & ->)].
  - intros [= <- <-]. left. split_and!; [done|done|]. intros id Hel.
    eapply (not_eligible _ _ _ Hr' Hall id); [|done].
    apply (wf_order _ Hr' id). destruct Hel as (e & -> & _). eauto.
  - intros Heq. right. exists before, id, after, e. split_and!; [done|done| |by apply not_eligible|].
    { apply claimSkips_eligible; [done|]. by rewrite He. }
    destruct (decide (ex_LeaseEpoch e = MaxInt64)) as [Hmax|Hmax].
    + left. split_and!; [done|..]; unfold claimExecution in Heq; cbv [require mbind M_bind] in Heq;
        rewrite Hmax in Heq; by injection Heq as <- <-.
    + right. rewrite claimExecution_grants in Heq by done. injection Heq as <- <-.
      pose proof (wf_epoch _ _ _ (wf_executions _ Hr' id e He)). split_and!; [lia|done..].
Qed.

(** The two executions are queued and runner 1 is served. *)
Lemma claim_serves_oldest_eligible_witness :
  exists before id after e, order demo_queued = before ++ id :: after /\
    eligible (expireAll demo_start demo_queued) (demo_claim_request "runner-1") id /\
    (MemoryRepository_Claim None demo_start (Ok "token-1"%string) (demo_claim_request "runner-1")
       demo_queued).1 =
    Ok (let leased := leasedExecution (demo_claim_request "runner-1") demo_start e in
        {| leased with ex_LeaseToken := "token-1" |}).
Proof.
  destruct (MemoryRepository_Claim None demo_start (Ok "token-1"%string) (demo_claim_request "runner-1")
              demo_queued) as [result r'] eqn:Hrun.
  assert (exists e, result = Ok e) as [e0 ->].
  { change result with (result, r').1. rewrite <- Hrun. eexists. vm_compute. reflexivity. }
  destruct (claim_serves_oldest_eligible demo_start "token-1" (demo_claim_request "runner-1") demo_queued
              (Ok e0) r')
    as [(Herr & _)|(before & id & after & e & Ho & _ & Hel & _ & [(_ & Herr & _)|(_ & Hres & _)])].
  - apply demo_reachable.
  - split_and!; try (vm_compute; done). by right.
  - done.
  - vm_compute. reflexivity.
  - exact Hrun.
  - discriminate.
  - discriminate.
  - exists before, id, after, e. split_and!; [exact Ho|exact Hel|exact Hres].
Defined.

(** A crashed runner does not block the queue: while a lapsed lease that was
    never started is waiting, a valid claim for its pool is granted (if epochs
    remain) rather than answered with [ErrNoLeaseAvailable]. *)
Theorem lapsed_lease_is_reclaimed clock token request r id e :
  reachable r -> validClaim request -> clock <> 0 -> validIdentifier token 256 = true ->
  executions r !! id = Some e -> ex_Status e = StatusLeased -> ex_Pool e = claim_Pool request ->
  ex_LeaseExpiresAt e <> 0 -> ex_LeaseExpiresAt e <= clock ->
  (forall i ei, executions r !! i = Some ei -> ex_LeaseEpoch ei < MaxInt64) ->
  exists granted r', MemoryRepository_Claim None clock (Ok token) request r = (Ok granted, r').
Proof.
  intros Hr%reachable_repository_wf Hv Hc Ht He Hs Hp Hz Hle Hmax. rewrite Claim_unfold by done.
  pose proof (expireAll_wf clock r Hr) as Hr'.
  pose proof (lapsed_eligible clock r request id e Hr He Hs Hz Hle Hp) as Hel.
  destruct (claimLoop_choice request clock (Ok token) (order r) (expireAll clock r))
    as [[Hall _]|(? & i & ? & ei & _ & _ & Hi & _ & ->)].
  - exfalso. eapply (not_eligible _ _ _ Hr' Hall id); [|done]. apply (wf_order _ Hr id). eauto.
  - simpl in Hi. rewrite lookup_fmap in Hi. apply fmap_Some in Hi as (e0 & Hi & ->).
    specialize (Hmax i e0 Hi). eexists _, _. apply claimExecution_grants; [done|].
    destruct (expireExecution clock e0) as [e0'|] eqn:Hx; simpl; [|lia].
    apply expireExecution_Some in Hx as (_&_&_&_&_&_&_&_&->&_). lia.
Qed.

Lemma lapsed_lease_is_reclaimed_witness :
  exists granted r', MemoryRepository_Claim None demo_late (Ok "token-2"%string)
    (demo_claim_request "runner-2") demo_leased = (Ok granted, r').
Proof.
  apply (lapsed_lease_is_reclaimed demo_late "token-2" (demo_claim_request "runner-2") demo_leased "a"
           (default Execution_zero (executions demo_leased !! "a"%string))).
  - apply demo_reachable.
  - split_and!; try (vm_compute; done). by right.
  - done.
  - vm_compute. reflexivity.
  - vm_compute. reflexivity.
  - vm_compute. reflexivity.
  - vm_compute. reflexivity.
  - vm_compute. discriminate.
  - vm_compute. discriminate.
  - intros i ei Hi%elem_of_map_to_list.
    assert (forallb (fun p => ex_LeaseEpoch p.2 <? MaxInt64) (map_to_list (executions demo_leased)) = true)
      as Hall by (vm_compute; reflexivity).
    rewrite forallb_forall in Hall. apply Z.ltb_lt, (Hall (i, ei)). by apply list_elem_of_In.
Defined.

(** A completion report can be retried: after [Complete] recorded success or
    failure, the same report at any later time, at any clock, returns the same
    execution and changes nothing, and a different report with the same lease
    is a conflict. *)
Theorem completion_is_idempotent r1 err clock request execution r2 r3 clock' request' :
  reachable r1 ->
  MemoryRepository_Complete err clock request r1 = (Ok execution, r2) ->
  complete_Status request <> StatusUncertain ->
  rtc call_step r2 r3 -> clock' <> 0 ->
  complete_Lease request' = complete_Lease request ->
  (complete_Status request' = StatusSucceeded \/ complete_Status request' = StatusFailed) ->
  sha256Pattern (complete_ResultHash request') = true ->
  ex_ReconciliationID execution = ""%string ->
  MemoryRepository_Complete None clock' request' r3 =
    (if (complete_Status request' == complete_Status request) &&
        (complete_ResultHash request' == complete_ResultHash request)
     then Ok execution else Err ErrCompletionConflict, r3).
Proof.
  intros Hr%reachable_repository_wf Hrun Hnu Hsteps Hc Hl Hs Hh Hrec.
  pose proof (wp_run _ _ _ (Complete_settles err clock request r1 Hr) _ _ Hrun) as Hset.
  pose proof (wp_run _ _ _ (Complete_wf err clock request r1 Hr) _ _ Hrun) as Hr2.
  destruct (Hset Hnu Hrec) as (Hv & f & e & Hse & -> & Hes & Heh & Hm).
  pose proof (rtc_call_step_settled _ _ _ _ _ Hse Hr2 Hsteps) as Hse3.
  rewrite (Complete_settled clock' request' _ e f r3 Hse3) by (rewrite ?Hl; by eauto using rtc_call_step_wf).
  rewrite Hes, Heh. unfold eqb. f_equal. by rewrite (bool_decide_ext _ _ (eq_comm _ _)),
    (bool_decide_ext _ _ (eq_comm (complete_ResultHash request) (complete_ResultHash request'))).
Qed.

Definition demo_running : MemoryRepository :=
  demo_after [demo_enqueue "a"; demo_enqueue "b"; demo_claim "runner-1" "token-1" demo_start;
              CallStart None demo_start (demo_lease "a" "runner-1" "token-1" 1)].
Definition demo_report (status : Status) : CompleteRequest :=
  demo_complete (demo_lease "a" "runner-1" "token-1" 1) status.

Lemma completion_is_idempotent_witness :
  let r2 := (run_call (CallComplete None demo_start (demo_report StatusSucceeded)) demo_running).2 in
  MemoryRepository_Complete None demo_late (demo_report StatusFailed) r2 =
    (Err ErrCompletionConflict, r2).
Proof.
  intros r2.
  destruct (run_call (CallComplete None demo_start (demo_report StatusSucceeded)) demo_running)
    as [result r2'] eqn:Hrun.
  assert (exists e, result = Ok e /\ ex_ReconciliationID e = ""%string) as (e & -> & Hrec).
  { change result with (result, r2').1. rewrite <- Hrun. eexists. split; vm_compute; reflexivity. }
  apply (completion_is_idempotent demo_running None demo_start (demo_report StatusSucceeded) e r2' r2'
           demo_late (demo_report StatusFailed)).
  - apply demo_reachable.
  - exact Hrun.
  - done.
  - apply rtc_refl.
  - done.
  - done.
  - by right.
  - vm_compute. reflexivity.
  - exact Hrec.
Defined.
