(* ===== verification/Envelope.v ===== *)
(** * Action envelopes: model of [internal/action/envelope.go]

    The signed, typed input of every write action: its data, the whole of
    [Validate], the signing-key sets, [Seal] and [Verify].  The JSON canonicalizer
    ([jsoncanonicalizer.Transform]) and Ed25519 are libraries outside the
    sources: they are variables of the section that uses them.  A pointer field
    is an [option]; [fmt.Errorf] texts are named by their format. *)

From S2P Require Import Prelude.
From S2P Require Import Sha256.
From S2P Require Import GoText.
From S2P Require Import GoStrings.
From S2P Require Import GoJson.
From Stdlib Require Import Ascii String.

Open Scope Z_scope.

(** ** Constants, errors and patterns *)

Definition SchemaVersionV1 : string := "action-envelope.v1".
Definition SignatureEd25519 : string := "Ed25519".
Definition MaxEnvelopeValidity : Duration := 30 * Minute.
Definition MaxCredentialTTL : Duration := 15 * Minute.
Definition MaxAWXHosts : Z := 10.
Definition maxJCSSafeInteger : Z := 2 ^ 53 - 1.

Definition ErrPlanHashMismatch := errors_New "action.ErrPlanHashMismatch".
Definition ErrInvalidSignature := errors_New "action.ErrInvalidSignature".
Definition ErrEnvelopeExpired := errors_New "action.ErrEnvelopeExpired".
Definition ErrEnvelopeNotActive := errors_New "action.ErrEnvelopeNotActive".
Definition ErrUnknownSigningKey := errors_New "action.ErrUnknownSigningKey".
Definition ErrSigningKeyRevoked := errors_New "action.ErrSigningKeyRevoked".
Definition ErrSigningKeyInactive := errors_New "action.ErrSigningKeyInactive".

(** [^[A-Za-z0-9][A-Za-z0-9._:/@-]{0,255}$] *)
Definition tokenPattern (s : string) : bool := identifierPattern s && (len s <=? 256).

(** [^[a-z0-9]([-a-z0-9.]*[a-z0-9])?$]: the first and last characters are
    letters or digits. *)
Fixpoint last_char (c : ascii) (s : string) : ascii :=
  match s with
  | EmptyString => c
  | String d rest => last_char d rest
  end.
Definition is_lower_alnum (c : ascii) : bool := is_lower c || is_digit c.
Definition kubernetesPattern (s : string) : bool :=
  match s with
  | EmptyString => false
  | String c rest =>
      is_lower_alnum c && all_chars (fun d => is_lower_alnum d || one_of_chars "-." d) rest &&
      is_lower_alnum (last_char c rest)
  end.

(** [^[A-Za-z0-9][A-Za-z0-9_.@-]{0,127}$] *)
Definition serviceNamePattern (s : string) : bool :=
  head_tail is_alnum (fun c => is_alnum c || one_of_chars "_.@-" c) s && (len s <=? 128).

Definition hex32Pattern (s : string) : bool := (len s =? 32) && all_chars is_lower_hex s.
Definition hex64Pattern (s : string) : bool := (len s =? 64) && all_chars is_lower_hex s.
Definition gitOIDPattern (s : string) : bool :=
  ((len s =? 40) || (len s =? 64)) && all_chars is_lower_hex s.

(** [^[A-Za-z0-9._/-]+$] *)
Definition repoPathPattern (s : string) : bool :=
  (1 <=? len s) && all_chars (fun c => is_alnum c || one_of_chars "._/-" c) s.

(** ** Data *)

(** [ActionType] is a Go string type: the declared constants and any other. *)
Inductive ActionType :=
| ActionKubernetesRolloutRestart
| ActionKubernetesScale
| ActionGitOpsRevert
| ActionAWXServiceRestart
| ActionTypeOther (s : string).

#[export] Instance ActionType_eq_dec : EqDecision ActionType.
Proof. solve_decision. Defined.

Definition ActionType_string (t : ActionType) : string :=
  match t with
  | ActionKubernetesRolloutRestart => "K8S_ROLLOUT_RESTART"
  | ActionKubernetesScale => "K8S_SCALE"
  | ActionGitOpsRevert => "GITOPS_REVERT"
  | ActionAWXServiceRestart => "AWX_SERVICE_RESTART"
  | ActionTypeOther s => s
  end.

Record KubernetesDeploymentTarget := {
  kt_ClusterID : string; kt_Namespace : string; kt_Name : string; kt_UID : string;
  kt_ResourceVersion : string
}.

Record GitOpsTarget := { gt_RepositoryID : string; gt_Application : string; gt_Path : string }.

Record AWXTarget := {
  at_InventoryID : Z; at_HostIDs : list Z; at_InventorySnapshotSHA256 : string;
  at_JobTemplateSnapshotSHA256 : string
}.

Record TargetRef := {
  target_ServiceID : string; target_EnvironmentID : string;
  target_KubernetesDeployment : option KubernetesDeploymentTarget;
  target_GitOpsApplication : option GitOpsTarget;
  target_AWXHosts : option AWXTarget
}.

Record KubernetesRolloutRestartParameters := { restart_Reason : string }.

Record KubernetesScaleParameters := {
  scale_Replicas : Z; scale_Minimum : Z; scale_Maximum : Z; scale_HPAAbsent : bool;
  scale_PDBChecked : bool; scale_QuotaChecked : bool
}.

Record GitOpsRevertParameters := {
  revert_Provider : string; revert_BaseCommit : string; revert_HeadCommit : string;
  revert_RevertCommit : string; revert_DiffSHA256 : string; revert_TreeSHA256 : string
}.

Record AWXServiceRestartParameters := {
  awx_JobTemplateID : Z; awx_ServiceName : string; awx_OSFamily : string; awx_Serial : Z
}.

Record ActionParameters := {
  param_KubernetesRolloutRestart : option KubernetesRolloutRestartParameters;
  param_KubernetesScale : option KubernetesScaleParameters;
  param_GitOpsRevert : option GitOpsRevertParameters;
  param_AWXServiceRestart : option AWXServiceRestartParameters
}.

Record KubernetesDeploymentObservedState := {
  ks_Generation : Z; ks_Replicas : Z; ks_AvailableReplicas : Z; ks_UpdatedReplicas : Z
}.

Record GitOpsObservedState := {
  gs_LiveRevision : string; gs_DesiredRevision : string; gs_HeadTreeSHA256 : string;
  gs_SyncStatus : string; gs_HealthStatus : string
}.

Record AWXServiceObservedState := {
  as_HostCount : Z; as_ServiceState : string; as_InventorySnapshotSHA256 : string;
  as_ServiceStateSnapshotSHA256 : string
}.

Record ObservedState := {
  obs_KubernetesDeployment : option KubernetesDeploymentObservedState;
  obs_GitOpsApplication : option GitOpsObservedState;
  obs_AWXService : option AWXServiceObservedState
}.

Record Preconditions := {
  pre_MappingResult : string; pre_ExpectedResourceVersion : string;
  pre_ExpectedGitHeadCommit : string; pre_RequireWhitelist : bool
}.

Record VerificationPlan := { verify_Mode : string; verify_TimeoutSeconds : Z }.
Record CompensationPlan := { comp_Mode : string; comp_Summary : string }.
Record RiskAssessment := { risk_Level : string; risk_ReasonCodes : list string }.

Record CredentialScope := {
  cred_ConnectorID : string; cred_Permission : string; cred_Resource : string; cred_TTLSeconds : Z
}.

Record Signature := { sig_Algorithm : string; sig_KeyID : string; sig_Value : string }.

#[export] Instance Signature_eq_dec : EqDecision Signature.
Proof. solve_decision. Defined.

Definition Signature_zero : Signature := {| sig_Algorithm := ""; sig_KeyID := ""; sig_Value := "" |}.

Record Envelope := {
  env_SchemaVersion : string;
  env_ActionID : string;
  env_WorkspaceID : string;
  env_IncidentID : string;
  env_RequestedBy : string;
  env_ActionType : ActionType;
  env_Target : TargetRef;
  env_Parameters : ActionParameters;
  env_ObservedState : ObservedState;
  env_Preconditions : Preconditions;
  env_Verification : VerificationPlan;
  env_Compensation : CompensationPlan;
  env_Risk : RiskAssessment;
  env_PolicyVersion : string;
  env_PlanHash : string;
  env_CredentialScope : CredentialScope;
  env_IdempotencyKey : string;
  env_NotBefore : ZonedTime;
  env_ExpiresAt : ZonedTime;
  env_TraceID : string;
  env_Signature : Signature
}.

(** ** Helpers *)

Definition fail {A} (text : string) : Result A := Err (errors_New text).
Definition check (b : bool) (text : string) : Result unit := ensure b (errors_New text).

Definition validToken (value : string) : bool := tokenPattern value.
Definition oneOf (value : string) (allowed : list string) : bool := existsb (fun a => a == value) allowed.
Definition countNonNil (values : list bool) : Z := Z.of_nat (List.length (List.filter id values)).
Definition is_some {A} (o : option A) : bool := if o is Some _ then true else false.

Definition safePositiveInteger (value : Z) : bool := (0 <? value) && (value <=? maxJCSSafeInteger).

(** The loops compare each element with the one before it. *)
Fixpoint increasing_after (previous : option Z) (values : list Z) : bool :=
  match values with
  | [] => true
  | value :: rest =>
      safePositiveInteger value &&
      (match previous with Some p => p <? value | None => true end) && increasing_after (Some value) rest
  end.
Definition strictlyIncreasingPositive (values : list Z) : bool := increasing_after None values.

Fixpoint slices_IsSorted (values : list string) : bool :=
  match values with
  | a :: (b :: _) as rest => String.leb a b && slices_IsSorted rest
  | _ => true
  end.

Fixpoint reasons_after (previous : option string) (reasons : list string) : bool :=
  match reasons with
  | [] => true
  | reason :: rest =>
      validToken reason && (match previous with Some p => reason != p | None => true end) &&
      reasons_after (Some reason) rest
  end.

Definition validRepositoryPath (value : string) : bool :=
  if (value == ""%string) || (512 <? len value) || negb (repoPathPattern value) || HasPrefix value "/" ||
     (path_Clean value != value) || (value == "."%string) then false
  else
    let segments := Split value "/"%char in
    if HasPrefix (default ""%string (head segments)) "-" then false
    else
      forallb (fun segment =>
        negb ((segment == ""%string) || (segment == "."%string) || (segment == ".."%string) ||
              EqualFold segment ".git")) segments.

Definition kubernetesCredentialResource (target : KubernetesDeploymentTarget) : string :=
  kt_ClusterID target +:+ "/" +:+ kt_Namespace target +:+ "/deployment/" +:+ kt_Name target.

(** ** Validation of the parts *)

Definition KubernetesDeploymentTarget_validate (target : KubernetesDeploymentTarget) : Result unit :=
  check (validToken (kt_ClusterID target) && validToken (kt_UID target) &&
         validToken (kt_ResourceVersion target)) "invalid Kubernetes deployment target identity";;
  check ((len (kt_Namespace target) <=? 63) && (len (kt_Name target) <=? 253) &&
         kubernetesPattern (kt_Namespace target) && kubernetesPattern (kt_Name target))
    "invalid Kubernetes deployment target name".

Definition KubernetesDeploymentObservedState_validate (state : KubernetesDeploymentObservedState) : Result unit :=
  check (safePositiveInteger (ks_Generation state))
    "Kubernetes generation must be a positive RFC 8785 safe integer";;
  check (negb ((ks_Replicas state <? 0) || (ks_AvailableReplicas state <? 0) || (ks_UpdatedReplicas state <? 0) ||
               (ks_Replicas state <? ks_AvailableReplicas state) ||
               (ks_Replicas state <? ks_UpdatedReplicas state)))
    "invalid Kubernetes deployment observed state".

Definition VerificationPlan_validate (plan : VerificationPlan) : Result unit :=
  check (oneOf (verify_Mode plan) ["KUBERNETES_ROLLOUT"; "ARGO_CD_HEALTH"; "AWX_SERVICE_HEALTH"]%string &&
         (0 <? verify_TimeoutSeconds plan) && (verify_TimeoutSeconds plan <=? 900))
    "invalid verification plan".

Definition CompensationPlan_validate (plan : CompensationPlan) : Result unit :=
  check (oneOf (comp_Mode plan) ["MANUAL_ONLY"; "PROPOSE_ONLY"]%string &&
         (TrimSpace (comp_Summary plan) != ""%string) && (len (comp_Summary plan) <=? 1000))
    "invalid compensation plan".

Definition RiskAssessment_validate (risk : RiskAssessment) : Result unit :=
  check (oneOf (risk_Level risk) ["LOW"; "MEDIUM"; "HIGH"]%string &&
         (1 <=? Z.of_nat (List.length (risk_ReasonCodes risk))) &&
         (Z.of_nat (List.length (risk_ReasonCodes risk)) <=? 16)) "invalid risk assessment";;
  check (slices_IsSorted (risk_ReasonCodes risk)) "risk reason codes must be sorted";;
  check (reasons_after None (risk_ReasonCodes risk)) "invalid or duplicate risk reason code".

Definition CredentialScope_validate (scope : CredentialScope) (validity : Duration) : Result unit :=
  check (validToken (cred_ConnectorID scope) && validToken (cred_Permission scope) &&
         validToken (cred_Resource scope)) "invalid credential scope";;
  let ttl := cred_TTLSeconds scope * Second in
  check ((0 <? ttl) && (ttl <=? MaxCredentialTTL) && (ttl <=? validity))
    "credential ttl must be positive, at most 15 minutes, and within envelope validity".

Definition Signature_validateOptional (signature : Signature) : Result unit :=
  if signature == Signature_zero then Ok tt
  else
    check ((sig_Algorithm signature == SignatureEd25519) && validToken (sig_KeyID signature) &&
           (sig_Value signature != ""%string) && (len (sig_Value signature) <=? 256))
      "invalid action envelope signature metadata";;
    check (match base64_DecodeString (sig_Value signature) with
           | Some decoded => len decoded =? 64
           | None => false
           end) "invalid action envelope signature encoding".

Definition validateTimes (notBefore expiresAt : ZonedTime) : Result unit :=
  check (negb (IsZero (zt_instant notBefore) || IsZero (zt_instant expiresAt)))
    "not_before and expires_at are required";;
  check ((zt_offset notBefore =? 0) && (zt_offset expiresAt =? 0))
    "action envelope timestamps must use UTC";;
  let validity := Sub (zt_instant expiresAt) (zt_instant notBefore) in
  check ((0 <? validity) && (validity <=? MaxEnvelopeValidity))
    "action envelope validity window must be positive and at most 30 minutes".

(** ** Validation of the envelope, per action type *)

Definition Envelope_validateCredentialBinding (envelope : Envelope) (permission resource : string) : Result unit :=
  check ((cred_Permission (env_CredentialScope envelope) == permission) &&
         (cred_Resource (env_CredentialScope envelope) == resource))
    "credential scope does not match action and exact target".

(** The variants take the target, parameters and observed state [Validate] has
    found non-nil. *)
Definition Envelope_validateKubernetesRestart (envelope : Envelope) (target : KubernetesDeploymentTarget)
    (parameters : KubernetesRolloutRestartParameters) (state : KubernetesDeploymentObservedState) : Result unit :=
  KubernetesDeploymentTarget_validate target;;
  check ((TrimSpace (restart_Reason parameters) != ""%string) && (len (restart_Reason parameters) <=? 500))
    "restart reason is required and limited to 500 bytes";;
  KubernetesDeploymentObservedState_validate state;;
  check (pre_ExpectedResourceVersion (env_Preconditions envelope) == kt_ResourceVersion target)
    "expected resource version must match the target";;
  check ((pre_ExpectedGitHeadCommit (env_Preconditions envelope) == ""%string) &&
         (verify_Mode (env_Verification envelope) == "KUBERNETES_ROLLOUT"%string))
    "invalid Kubernetes restart precondition or verification mode";;
  Envelope_validateCredentialBinding envelope "PATCH_DEPLOYMENT_RESTART" (kubernetesCredentialResource target).

Definition Envelope_validateKubernetesScale (envelope : Envelope) (target : KubernetesDeploymentTarget)
    (parameters : KubernetesScaleParameters) (state : KubernetesDeploymentObservedState) : Result unit :=
  KubernetesDeploymentTarget_validate target;;
  check (negb ((scale_Minimum parameters <? 0) || (scale_Maximum parameters <? scale_Minimum parameters) ||
               (scale_Replicas parameters <? scale_Minimum parameters) ||
               (scale_Maximum parameters <? scale_Replicas parameters)))
    "scale replicas must be within the signed minimum and maximum";;
  check (scale_HPAAbsent parameters && scale_PDBChecked parameters && scale_QuotaChecked parameters)
    "scale requires HPA absence plus PDB and quota checks";;
  KubernetesDeploymentObservedState_validate state;;
  check ((pre_ExpectedResourceVersion (env_Preconditions envelope) == kt_ResourceVersion target) &&
         (verify_Mode (env_Verification envelope) == "KUBERNETES_ROLLOUT"%string))
    "invalid Kubernetes scale precondition or verification mode";;
  Envelope_validateCredentialBinding envelope "PATCH_DEPLOYMENT_SCALE" (kubernetesCredentialResource target).

Definition Envelope_validateGitOpsRevert (envelope : Envelope) (target : GitOpsTarget)
    (parameters : GitOpsRevertParameters) (state : GitOpsObservedState) : Result unit :=
  check (validToken (gt_RepositoryID target) && validToken (gt_Application target) &&
         validRepositoryPath (gt_Path target)) "invalid GitOps target";;
  check ((revert_Provider parameters == "GITLAB"%string) || (revert_Provider parameters == "GITHUB"%string))
    "GitOps provider must be GITLAB or GITHUB";;
  check (gitOIDPattern (revert_BaseCommit parameters) && gitOIDPattern (revert_HeadCommit parameters) &&
         gitOIDPattern (revert_RevertCommit parameters) && hex64Pattern (revert_DiffSHA256 parameters) &&
         hex64Pattern (revert_TreeSHA256 parameters))
    "GitOps revert requires immutable base, head, revert, diff, and tree bindings";;
  check (gitOIDPattern (gs_LiveRevision state) && gitOIDPattern (gs_DesiredRevision state) &&
         hex64Pattern (gs_HeadTreeSHA256 state) && oneOf (gs_SyncStatus state) ["SYNCED"; "OUT_OF_SYNC"]%string &&
         oneOf (gs_HealthStatus state) ["HEALTHY"; "DEGRADED"; "PROGRESSING"; "MISSING"; "UNKNOWN"]%string)
    "invalid GitOps observed state";;
  check ((revert_HeadCommit parameters == gs_DesiredRevision state) &&
         (revert_HeadCommit parameters == pre_ExpectedGitHeadCommit (env_Preconditions envelope)) &&
         (pre_ExpectedResourceVersion (env_Preconditions envelope) == ""%string))
    "GitOps head revision must match observed and expected state";;
  check (verify_Mode (env_Verification envelope) == "ARGO_CD_HEALTH"%string)
    "GitOps revert requires Argo CD health verification";;
  Envelope_validateCredentialBinding envelope "CREATE_REVERT_MR" (gt_RepositoryID target).

(** [int32(len(hostIDs))]: at most [MaxAWXHosts] here, so no truncation. *)
Definition Envelope_validateAWXRestart (envelope : Envelope) (target : AWXTarget)
    (parameters : AWXServiceRestartParameters) (state : AWXServiceObservedState) : Result unit :=
  let hosts := Z.of_nat (List.length (at_HostIDs target)) in
  check (safePositiveInteger (at_InventoryID target) && negb (hosts =? 0) && (hosts <=? MaxAWXHosts) &&
         strictlyIncreasingPositive (at_HostIDs target) && hex64Pattern (at_InventorySnapshotSHA256 target) &&
         hex64Pattern (at_JobTemplateSnapshotSHA256 target))
    "AWX target requires sorted unique positive host ids";;
  check (safePositiveInteger (awx_JobTemplateID parameters) && serviceNamePattern (awx_ServiceName parameters) &&
         oneOf (awx_OSFamily parameters) ["LINUX_SYSTEMD"; "WINDOWS_SERVICE"]%string &&
         (awx_Serial parameters =? 1))
    "AWX restart requires a fixed template, typed service, supported OS family, and serial execution";;
  check ((as_HostCount state =? hosts) &&
         oneOf (as_ServiceState state) ["RUNNING"; "STOPPED"; "DEGRADED"; "UNKNOWN"]%string &&
         (as_InventorySnapshotSHA256 state == at_InventorySnapshotSHA256 target) &&
         hex64Pattern (as_ServiceStateSnapshotSHA256 state))
    "invalid AWX service observed state";;
  check ((pre_ExpectedResourceVersion (env_Preconditions envelope) == ""%string) &&
         (pre_ExpectedGitHeadCommit (env_Preconditions envelope) == ""%string) &&
         (verify_Mode (env_Verification envelope) == "AWX_SERVICE_HEALTH"%string))
    "invalid AWX restart precondition or verification mode";;
  Envelope_validateCredentialBinding envelope "LAUNCH_SERVICE_RESTART_TEMPLATE"
    ("inventory/" +:+ FormatInt (at_InventoryID target) +:+ "/job-template/" +:+
     FormatInt (awx_JobTemplateID parameters)).

(** The loop over the map of required tokens: Go picks one of the invalid
    fields for its message, the model the first of this list. *)
Definition Envelope_tokens (envelope : Envelope) : list string :=
  [env_ActionID envelope; env_WorkspaceID envelope; env_IncidentID envelope; env_RequestedBy envelope;
   env_PolicyVersion envelope; env_IdempotencyKey envelope].

Definition Envelope_Validate (envelope : Envelope) : Result unit :=
  check (env_SchemaVersion envelope == SchemaVersionV1) "unsupported schema version";;
  check (forallb validToken (Envelope_tokens envelope)) "invalid token field";;
  check (hex32Pattern (env_TraceID envelope)) "trace id must be 32 lowercase hexadecimal characters";;
  validateTimes (env_NotBefore envelope) (env_ExpiresAt envelope);;
  check ((pre_MappingResult (env_Preconditions envelope) == "EXACT"%string) &&
         pre_RequireWhitelist (env_Preconditions envelope))
    "production action requires exact mapping and whitelist membership";;
  CredentialScope_validate (env_CredentialScope envelope)
    (Sub (zt_instant (env_ExpiresAt envelope)) (zt_instant (env_NotBefore envelope)));;
  VerificationPlan_validate (env_Verification envelope);;
  CompensationPlan_validate (env_Compensation envelope);;
  RiskAssessment_validate (env_Risk envelope);;
  check ((env_PlanHash envelope == ""%string) || hex64Pattern (env_PlanHash envelope))
    "plan hash must be a lowercase SHA-256 value";;
  Signature_validateOptional (env_Signature envelope);;
  let target := env_Target envelope in
  let parameters := env_Parameters envelope in
  let observed := env_ObservedState envelope in
  check (countNonNil [is_some (target_KubernetesDeployment target); is_some (target_GitOpsApplication target);
                      is_some (target_AWXHosts target)] =? 1)
    "action envelope must have exactly one target";;
  check (validToken (target_ServiceID target) && validToken (target_EnvironmentID target))
    "target service and environment ids are required";;
  check (countNonNil [is_some (param_KubernetesRolloutRestart parameters); is_some (param_KubernetesScale parameters);
                      is_some (param_GitOpsRevert parameters); is_some (param_AWXServiceRestart parameters)] =? 1)
    "action envelope must have exactly one parameter set";;
  check (countNonNil [is_some (obs_KubernetesDeployment observed); is_some (obs_GitOpsApplication observed);
                      is_some (obs_AWXService observed)] =? 1)
    "action envelope must have exactly one observed state";;
  match env_ActionType envelope with
  | ActionKubernetesRolloutRestart =>
      match target_KubernetesDeployment target, param_KubernetesRolloutRestart parameters,
            obs_KubernetesDeployment observed with
      | Some t, Some p, Some o => Envelope_validateKubernetesRestart envelope t p o
      | _, _, _ => fail "parameters do not match action type"
      end
  | ActionKubernetesScale =>
      match target_KubernetesDeployment target, param_KubernetesScale parameters,
            obs_KubernetesDeployment observed with
      | Some t, Some p, Some o => Envelope_validateKubernetesScale envelope t p o
      | _, _, _ => fail "parameters do not match action type"
      end
  | ActionGitOpsRevert =>
      match target_GitOpsApplication target, param_GitOpsRevert parameters, obs_GitOpsApplication observed with
      | Some t, Some p, Some o => Envelope_validateGitOpsRevert envelope t p o
      | _, _, _ => fail "parameters do not match action type"
      end
  | ActionAWXServiceRestart =>
      match target_AWXHosts target, param_AWXServiceRestart parameters, obs_AWXService observed with
      | Some t, Some p, Some o => Envelope_validateAWXRestart envelope t p o
      | _, _, _ => fail "parameters do not match action type"
      end
  | ActionTypeOther _ => fail "unsupported action type"
  end.

Definition Envelope_ValidateAt (envelope : Envelope) (now : Time) : Result unit :=
  Envelope_Validate envelope;;
  ensure (Before now (zt_instant (env_ExpiresAt envelope))) ErrEnvelopeExpired;;
  ensure (negb (Before now (zt_instant (env_NotBefore envelope)))) ErrEnvelopeNotActive.

(** ** The JSON form *)

Definition json_target (t : TargetRef) : Json :=
  JObject ([("service_id", JString (target_ServiceID t));
            ("environment_id", JString (target_EnvironmentID t))]%string ++
    omitnil "kubernetes_deployment" (fun k => JObject
      [("cluster_id", JString (kt_ClusterID k)); ("namespace", JString (kt_Namespace k));
       ("name", JString (kt_Name k)); ("uid", JString (kt_UID k));
       ("resource_version", JString (kt_ResourceVersion k))]%string) (target_KubernetesDeployment t) ++
    omitnil "gitops_application" (fun g => JObject
      [("repository_id", JString (gt_RepositoryID g)); ("application", JString (gt_Application g));
       ("path", JString (gt_Path g))]%string) (target_GitOpsApplication t) ++
    omitnil "awx_hosts" (fun a => JObject
      [("inventory_id", JInt (at_InventoryID a)); ("host_ids", JArray (List.map JInt (at_HostIDs a)));
       ("inventory_snapshot_sha256", JString (at_InventorySnapshotSHA256 a));
       ("job_template_snapshot_sha256", JString (at_JobTemplateSnapshotSHA256 a))]%string) (target_AWXHosts t)).

Definition json_parameters (p : ActionParameters) : Json :=
  JObject (
    omitnil "kubernetes_rollout_restart" (fun r => JObject [("reason", JString (restart_Reason r))]%string)
      (param_KubernetesRolloutRestart p) ++
    omitnil "kubernetes_scale" (fun s => JObject
      [("replicas", JInt (scale_Replicas s)); ("minimum", JInt (scale_Minimum s));
       ("maximum", JInt (scale_Maximum s)); ("hpa_absent", JBool (scale_HPAAbsent s));
       ("pdb_checked", JBool (scale_PDBChecked s)); ("quota_checked", JBool (scale_QuotaChecked s))]%string)
      (param_KubernetesScale p) ++
    omitnil "gitops_revert" (fun g => JObject
      [("provider", JString (revert_Provider g)); ("base_commit", JString (revert_BaseCommit g));
       ("head_commit", JString (revert_HeadCommit g)); ("revert_commit", JString (revert_RevertCommit g));
       ("diff_sha256", JString (revert_DiffSHA256 g)); ("tree_sha256", JString (revert_TreeSHA256 g))]%string)
      (param_GitOpsRevert p) ++
    omitnil "awx_service_restart" (fun a => JObject
      [("job_template_id", JInt (awx_JobTemplateID a)); ("service_name", JString (awx_ServiceName a));
       ("os_family", JString (awx_OSFamily a)); ("serial", JInt (awx_Serial a))]%string)
      (param_AWXServiceRestart p)).

Definition json_observed (o : ObservedState) : Json :=
  JObject (
    omitnil "kubernetes_deployment" (fun k => JObject
      [("generation", JInt (ks_Generation k)); ("replicas", JInt (ks_Replicas k));
       ("available_replicas", JInt (ks_AvailableReplicas k));
       ("updated_replicas", JInt (ks_UpdatedReplicas k))]%string) (obs_KubernetesDeployment o) ++
    omitnil "gitops_application" (fun g => JObject
      [("live_revision", JString (gs_LiveRevision g)); ("desired_revision", JString (gs_DesiredRevision g));
       ("head_tree_sha256", JString (gs_HeadTreeSHA256 g)); ("sync_status", JString (gs_SyncStatus g));
       ("health_status", JString (gs_HealthStatus g))]%string) (obs_GitOpsApplication o) ++
    omitnil "awx_service" (fun a => JObject
      [("host_count", JInt (as_HostCount a)); ("service_state", JString (as_ServiceState a));
       ("inventory_snapshot_sha256", JString (as_InventorySnapshotSHA256 a));
       ("service_state_snapshot_sha256", JString (as_ServiceStateSnapshotSHA256 a))]%string) (obs_AWXService o)).

Definition json_envelope (e : Envelope) : Result Json :=
  notBefore ← marshalTime (env_NotBefore e);
  expiresAt ← marshalTime (env_ExpiresAt e);
  let pre := env_Preconditions e in
  let scope := env_CredentialScope e in
  let signature := env_Signature e in
  mret (JObject
    [("schema_version", JString (env_SchemaVersion e)); ("action_id", JString (env_ActionID e));
     ("workspace_id", JString (env_WorkspaceID e)); ("incident_id", JString (env_IncidentID e));
     ("requested_by", JString (env_RequestedBy e));
     ("action_type", JString (ActionType_string (env_ActionType e)));
     ("target_ref", json_target (env_Target e)); ("parameters", json_parameters (env_Parameters e));
     ("observed_state", json_observed (env_ObservedState e));
     ("preconditions", JObject
        [("mapping_result", JString (pre_MappingResult pre));
         ("expected_resource_version", JString (pre_ExpectedResourceVersion pre));
         ("expected_git_head_commit", JString (pre_ExpectedGitHeadCommit pre));
         ("require_whitelist", JBool (pre_RequireWhitelist pre))]);
     ("verification", JObject
        [("mode", JString (verify_Mode (env_Verification e)));
         ("timeout_seconds", JInt (verify_TimeoutSeconds (env_Verification e)))]);
     ("compensation", JObject
        [("mode", JString (comp_Mode (env_Compensation e)));
         ("summary", JString (comp_Summary (env_Compensation e)))]);
     ("risk", JObject
        [("level", JString (risk_Level (env_Risk e)));
         ("reason_codes", JArray (List.map JString (risk_ReasonCodes (env_Risk e))))]);
     ("policy_version", JString (env_PolicyVersion e)); ("plan_hash", JString (env_PlanHash e));
     ("credential_scope", JObject
        [("connector_id", JString (cred_ConnectorID scope)); ("permission", JString (cred_Permission scope));
         ("resource", JString (cred_Resource scope)); ("ttl_seconds", JInt (cred_TTLSeconds scope))]);
     ("idempotency_key", JString (env_IdempotencyKey e)); ("not_before", notBefore); ("expires_at", expiresAt);
     ("trace_id", JString (env_TraceID e));
     ("signature", JObject
        [("alg", JString (sig_Algorithm signature)); ("key_id", JString (sig_KeyID signature));
         ("value", JString (sig_Value signature))])]%string).

(** ** Signing keys *)

Definition PublicKeySize : Z := 32.
Definition PrivateKeySize : Z := 64.
Definition SignatureSize : Z := 64.

Record KeyRecord := {
  key_PublicKey : string; key_Revoked : bool; key_ActiveAt : Time; key_RetireAt : Time
}.

Definition validKeyRecord (keyID : string) (record : KeyRecord) : bool :=
  validToken keyID && (len (key_PublicKey record) =? PublicKeySize) &&
  negb (negb (IsZero (key_RetireAt record)) && negb (IsZero (key_ActiveAt record)) &&
        negb (Before (key_ActiveAt record) (key_RetireAt record))).

(** The clone owns its key bytes; as values the records are the same. *)
Definition cloneKeyRecords (records : gmap string KeyRecord) : Result (gmap string KeyRecord) :=
  if forallb (fun '(keyID, record) => validKeyRecord keyID record) (map_to_list records) then Ok records
  else fail "invalid signing key record".

Record StaticKeySet := { static_records : gmap string KeyRecord }.

Definition NewStaticKeySet (records : gmap string KeyRecord) : Result StaticKeySet :=
  cloned ← cloneKeyRecords records;
  mret {| static_records := cloned |}.

(** A nil receiver is [None]. *)
Definition StaticKeySet_Resolve (keys : option StaticKeySet) (err : option GoError) (keyID : string)
    : Result KeyRecord :=
  match err with
  | Some e => Err e
  | None =>
      match keys with
      | None => Err ErrUnknownSigningKey
      | Some keys =>
          match static_records keys !! keyID with
          | Some record => Ok record
          | None => Err ErrUnknownSigningKey
          end
      end
  end.

Record RotatingKeySet := { rotating_records : gmap string KeyRecord }.

Definition NewRotatingKeySet (records : gmap string KeyRecord) : Result RotatingKeySet :=
  cloned ← cloneKeyRecords records;
  mret {| rotating_records := cloned |}.

Definition RotatingKeySet_Replace (records : gmap string KeyRecord) : M RotatingKeySet unit :=
  cloned ← lift (cloneKeyRecords records);
  modify (fun _ => {| rotating_records := cloned |}).

Definition RotatingKeySet_Resolve (err : option GoError) (keyID : string) : M RotatingKeySet KeyRecord :=
  checkContext err;;
  keys ← Prelude.get;
  require_some (rotating_records keys !! keyID) ErrUnknownSigningKey.

(** The [Signer] and [KeyResolver] interfaces, for one reading of the context. *)
Record Signer := { signer_KeyID : string; signer_Sign : string -> Result string }.
Definition KeyResolver := string -> Result KeyRecord.

Section crypto.
(** [jsoncanonicalizer.Transform] and Ed25519. *)
Context (Transform : string -> Result string).
Context (ed25519_Sign : string -> string -> string).
Context (ed25519_Verify : string -> string -> string -> bool).

Definition NewEd25519Signer (keyID privateKey : string) (err : option GoError) : Result Signer :=
  if validToken keyID && (len privateKey =? PrivateKeySize) then
    Ok {| signer_KeyID := keyID;
          signer_Sign := fun message =>
            match err with
            | Some e => Err e
            | None => Ok (ed25519_Sign privateKey message)
            end |}
  else fail "valid key id and Ed25519 private key are required".

Definition canonicalJSON (envelope : Envelope) : Result string :=
  value ← json_envelope envelope;
  Transform (Marshal value).

Definition calculatePlanHash (envelope : Envelope) : Result string :=
  let envelope := {| envelope with env_PlanHash := ""; env_Signature := Signature_zero |} in
  canonical ← wrapError "canonicalize action plan" (canonicalJSON envelope);
  mret (sha256_hex canonical).

Definition canonicalSigningMessage (envelope : Envelope) : Result string :=
  let signature := env_Signature envelope in
  let envelope := {| envelope with env_Signature := {| signature with sig_Value := "" |} |} in
  wrapError "canonicalize action envelope" (canonicalJSON envelope).

(** The envelope [Seal] validates: bound to the requester, unsigned. *)
Definition unsealed (envelope : Envelope) (authenticatedRequester : string) : Envelope :=
  {| envelope with env_RequestedBy := authenticatedRequester; env_PlanHash := "";
                   env_Signature := Signature_zero |}.

Definition Seal (envelope : Envelope) (authenticatedRequester : string) (signer : option Signer)
    : Result Envelope :=
  match signer with
  | None => fail "valid action envelope signer is required"
  | Some signer =>
      check (validToken (signer_KeyID signer) && validToken authenticatedRequester)
        "valid action envelope signer is required";;
      check ((env_RequestedBy envelope == ""%string) || (env_RequestedBy envelope == authenticatedRequester))
        "action requester does not match the authenticated OIDC subject";;
      let envelope := unsealed envelope authenticatedRequester in
      Envelope_Validate envelope;;
      planHash ← calculatePlanHash envelope;
      let envelope :=
        {| envelope with env_PlanHash := planHash;
           env_Signature := {| sig_Algorithm := SignatureEd25519; sig_KeyID := signer_KeyID signer;
                               sig_Value := "" |} |} in
      message ← canonicalSigningMessage envelope;
      signature ← wrapError "sign action envelope" (signer_Sign signer message);
      check (len signature =? SignatureSize) "signer returned invalid Ed25519 signature length";;
      mret {| envelope with env_Signature :=
                {| sig_Algorithm := SignatureEd25519; sig_KeyID := signer_KeyID signer;
                   sig_Value := base64_EncodeToString signature |} |}
  end.

(** The activation window of a key. *)
Definition keyInactive (record : KeyRecord) (now : Time) : bool :=
  (negb (IsZero (key_ActiveAt record)) && Before now (key_ActiveAt record)) ||
  (negb (IsZero (key_RetireAt record)) && negb (Before now (key_RetireAt record))).

Definition Verify (envelope : Envelope) (resolver : option KeyResolver) (now : Time) : Result unit :=
  match resolver with
  | None => fail "action envelope key resolver is required"
  | Some Resolve =>
      Envelope_Validate envelope;;
      ensure (Before now (zt_instant (env_ExpiresAt envelope))) ErrEnvelopeExpired;;
      ensure (negb (Before now (zt_instant (env_NotBefore envelope)))) ErrEnvelopeNotActive;;
      ensure (negb ((env_PlanHash envelope == ""%string) || (env_Signature envelope == Signature_zero)))
        ErrInvalidSignature;;
      Signature_validateOptional (env_Signature envelope);;
      expectedHash ← calculatePlanHash envelope;
      ensure (EqualFold expectedHash (env_PlanHash envelope)) ErrPlanHashMismatch;;
      record ← Resolve (sig_KeyID (env_Signature envelope));
      ensure (negb (key_Revoked record)) ErrSigningKeyRevoked;;
      ensure (negb (keyInactive record now)) ErrSigningKeyInactive;;
      ensure (len (key_PublicKey record) =? PublicKeySize) ErrUnknownSigningKey;;
      message ← canonicalSigningMessage envelope;
      ensure (match base64_DecodeString (sig_Value (env_Signature envelope)) with
              | Some signature => ed25519_Verify (key_PublicKey record) message signature
              | None => false
              end) ErrInvalidSignature
  end.
End crypto.
