(* ===== verification/ActionQueue.v ===== *)
(** * The action queue: model of [internal/execution/action_queue.go]

    The queue that binds immutable action metadata to lease state, with the
    result types of [service.go] it stores.  Every method of [MemoryActionQueue]
    is a handler in [M MemoryActionQueue]; the body under the mutex is atomic.
    [err] is the reading of [ctx.Err()], [clock] a reading of the clock.  The
    credential gate is an argument of each call: what [InspectCleanup] answers
    while that call holds the lock ([None] is a queue without a gate); a method
    that expires leases and then inspects again takes two, because the
    credential repository may move in between.  The JSON canonicalizer is a
    variable of the section. *)

From S2P Require Import Prelude.
From S2P Require Import Sha256.
From S2P Require Import GoText.
From S2P Require Import GoJson.
From S2P Require Import ExecutionLease.
From S2P Require Import Envelope.

Definition minimumActionLease : Duration := Second.
Definition maximumActionLease : Duration := 30 * Minute.

(** ** Errors of action_queue.go and service.go *)

Definition ErrCredentialCleanupPending := errors_New "execution.ErrCredentialCleanupPending".
Definition ErrInvalidAction := errors_New "execution.ErrInvalidAction".
Definition ErrJobConflict := errors_New "execution.ErrJobConflict".
Definition ErrIdempotencyConflict := errors_New "execution.ErrIdempotencyConflict".
Definition ErrHeartbeatSequence := errors_New "execution.ErrHeartbeatSequence".
Definition ErrClockZero := errors_New "execution queue clock returned zero time".

(** ** Executor results (service.go) *)

Inductive ExecutorOutcome :=
| ExecutorSucceeded
| ExecutorFailed
| ExecutorUncertain
| ExecutorOutcomeOther (s : string).

Inductive Verification :=
| VerificationPassed
| VerificationFailed
| VerificationUnknown
| VerificationOther (s : string).

#[export] Instance ExecutorOutcome_eq_dec : EqDecision ExecutorOutcome.
Proof. solve_decision. Defined.
#[export] Instance Verification_eq_dec : EqDecision Verification.
Proof. solve_decision. Defined.

Record ExecutorResult := {
  result_Outcome : ExecutorOutcome;
  result_Code : string;
  result_Verification : Verification;
  result_Changed : bool;
  result_ExternalOperationRefHash : string
}.

#[export] Instance ExecutorResult_eq_dec : EqDecision ExecutorResult.
Proof. solve_decision. Defined.

Definition validExecutorResult (result : ExecutorResult) : bool :=
  if negb (resultCodePattern (result_Code result)) ||
     ((result_ExternalOperationRefHash result != ""%string) &&
      negb (sha256Pattern (result_ExternalOperationRefHash result)))
  then false
  else
    match result_Outcome result with
    | ExecutorSucceeded => result_Verification result == VerificationPassed
    | ExecutorFailed => result_Verification result == VerificationFailed
    | ExecutorUncertain => result_Verification result == VerificationUnknown
    | ExecutorOutcomeOther _ => false
    end.

Definition ResultSummaryStatus (summary : ExecutorResult) : Result Status :=
  if negb (validExecutorResult summary) then Err ErrInvalidRequest
  else
    match result_Outcome summary with
    | ExecutorSucceeded => Ok StatusSucceeded
    | ExecutorFailed => Ok StatusFailed
    | ExecutorUncertain => Ok StatusUncertain
    | ExecutorOutcomeOther _ => Err ErrInvalidRequest
    end.

(** The strings behind the enumerations, as they are marshalled. *)
Definition Pool_string (pool : Pool) : string :=
  match pool with PoolRead => "READ" | PoolWrite => "WRITE" | PoolOther s => s end.
Definition Status_string (status : Status) : string :=
  match status with
  | StatusQueued => "QUEUED" | StatusLeased => "LEASED" | StatusRunning => "RUNNING"
  | StatusFinalizing => "FINALIZING" | StatusSucceeded => "SUCCEEDED" | StatusFailed => "FAILED"
  | StatusCancelled => "CANCELLED" | StatusUncertain => "UNCERTAIN" | StatusOther s => s
  end.
Definition ExecutorOutcome_string (outcome : ExecutorOutcome) : string :=
  match outcome with
  | ExecutorSucceeded => "SUCCEEDED" | ExecutorFailed => "FAILED" | ExecutorUncertain => "UNCERTAIN"
  | ExecutorOutcomeOther s => s
  end.
Definition Verification_string (verification : Verification) : string :=
  match verification with
  | VerificationPassed => "PASSED" | VerificationFailed => "FAILED" | VerificationUnknown => "UNKNOWN"
  | VerificationOther s => s
  end.

(** ** Data of the queue *)

Record ActionSubmission := {
  sub_Envelope : Envelope;
  sub_PlanHash : string;
  sub_TargetKey : string;
  sub_EnvironmentRevision : string;
  sub_Production : bool;
  sub_Pool : Pool
}.

Record RunnerScopeBinding := { binding_WorkspaceID : string; binding_EnvironmentID : string }.

Record RunnerRegistration := {
  reg_RunnerID : string;
  reg_TenantID : string;
  reg_Pool : Pool;
  reg_Enabled : bool;
  reg_ScopeRevision : Z;
  reg_MaxConcurrency : Z;
  reg_ScopeBindings : list RunnerScopeBinding
}.

Record RunnerScope := {
  scope_runnerID : string;
  scope_tenantID : string;
  scope_pool : Pool;
  scope_scopeRevision : Z;
  scope_maxConcurrency : Z;
  scope_bindings : list RunnerScopeBinding
}.

(** [workspaceID + "\x00" + environmentID] *)
Definition NUL : string := String (ascii_of_Z 0) EmptyString.
Definition scopeBindingKey (workspaceID environmentID : string) : string :=
  workspaceID +:+ NUL +:+ environmentID.

(** The loop over the bindings, with the keys seen so far. *)
Fixpoint distinctBindings (seen : list string) (bindings : list RunnerScopeBinding) : bool :=
  match bindings with
  | [] => true
  | binding :: rest =>
      let key := scopeBindingKey (binding_WorkspaceID binding) (binding_EnvironmentID binding) in
      validIdentifier (binding_WorkspaceID binding) 256 && validIdentifier (binding_EnvironmentID binding) 256 &&
      negb (existsb (fun k => k == key) seen) && distinctBindings (key :: seen) rest
  end.

Definition validWorkPool (pool : Pool) : bool := (pool == PoolRead) || (pool == PoolWrite).

Definition RunnerRegistration_Scope (registration : RunnerRegistration) : Result RunnerScope :=
  ensure (reg_Enabled registration && validIdentifier (reg_RunnerID registration) 256 &&
          validIdentifier (reg_TenantID registration) 256 && validWorkPool (reg_Pool registration) &&
          (0 <? reg_ScopeRevision registration) && (1 <=? reg_MaxConcurrency registration) &&
          (reg_MaxConcurrency registration <=? 1024) &&
          negb (Z.of_nat (List.length (reg_ScopeBindings registration)) =? 0)) ErrInvalidRequest;;
  ensure (distinctBindings [] (reg_ScopeBindings registration)) ErrInvalidRequest;;
  mret {| scope_runnerID := reg_RunnerID registration; scope_tenantID := reg_TenantID registration;
          scope_pool := reg_Pool registration; scope_scopeRevision := reg_ScopeRevision registration;
          scope_maxConcurrency := reg_MaxConcurrency registration;
          scope_bindings := reg_ScopeBindings registration |}.

Definition RunnerScope_allows (scope : RunnerScope) (workspaceID environmentID : string) : bool :=
  existsb (fun binding => (binding_WorkspaceID binding == workspaceID) &&
                          (binding_EnvironmentID binding == environmentID)) (scope_bindings scope).

Record ActionClaimRequest := { aclaim_Scope : RunnerScope; aclaim_LeaseDuration : Duration }.

Record ClaimedAction := {
  claimed_Execution : Execution;
  claimed_Envelope : Envelope;
  claimed_PlanHash : string;
  claimed_TargetKey : string;
  claimed_EnvironmentRevision : string;
  claimed_Production : bool
}.

Record ActionQueueReason := { reason_Code : string; reason_DetailHash : string }.
Record ActionRejectRequest := { reject_Lease : LeaseIdentity; reject_Reason : ActionQueueReason }.
Record ActionNackRequest := {
  nack_Lease : LeaseIdentity; nack_Reason : ActionQueueReason; nack_RetryAfter : Duration
}.

Inductive HeartbeatDirective := HeartbeatContinue | HeartbeatTerminate.

Record ActionHeartbeatRequest := { ahb_Lease : LeaseIdentity; ahb_Sequence : Z; ahb_Extension : Duration }.
Record ActionHeartbeatResult := { ahb_Execution : Execution; ahb_Directive : HeartbeatDirective }.
Record ActionCompleteRequest := { acomplete_Lease : LeaseIdentity; acomplete_Summary : ExecutorResult }.

Record RunnerResultReceipt := {
  receipt_ActionID : string;
  receipt_TenantID : string;
  receipt_WorkspaceID : string;
  receipt_EnvironmentID : string;
  receipt_PlanHash : string;
  receipt_RunnerID : string;
  receipt_LeaseEpoch : Z;
  receipt_ScopeRevision : Z;
  receipt_CertificateSHA256 : string;
  receipt_CompletionStatus : Status;
  receipt_Summary : ExecutorResult;
  receipt_ResultHash : string;
  receipt_ReceivedAt : Time
}.

Record memoryActionRecord := {
  rec_submission : ActionSubmission;
  rec_requestHash : string;
  rec_receipt : option RunnerResultReceipt;
  rec_completedTokenHash : string;
  rec_completedEpoch : Z;
  rec_execution : Execution;
  rec_notBefore : Time;
  rec_lastNackHash : string
}.

Record MemoryActionQueue := {
  queue_records : gmap string memoryActionRecord;
  queue_idempotency : gmap string string;
  queue_order : list string
}.

(** [NewMemoryActionQueue], for the first reading of the clock. *)
Definition NewMemoryActionQueue (clock : Time) : Result MemoryActionQueue :=
  if IsZero clock then Err ErrClockZero
  else Ok {| queue_records := ∅; queue_idempotency := ∅; queue_order := [] |}.

(** What [InspectCleanup] answers: [(present, terminal)] or an error. *)
Definition CleanupGate := string -> Z -> Result (bool * bool).

(** ** Helpers *)

Definition validActionFence (fence : LeaseIdentity) : bool :=
  validIdentifier (lease_ExecutionID fence) 256 && validIdentifier (lease_RunnerID fence) 256 &&
  validIdentifier (lease_Token fence) 256 && (0 <? lease_Epoch fence).

Definition sameActionFence (execution : Execution) (fence : LeaseIdentity) : bool :=
  (ex_ExecutionID execution == lease_ExecutionID fence) && (ex_RunnerID execution == lease_RunnerID fence) &&
  (ex_LeaseToken execution == lease_Token fence) && (ex_LeaseEpoch execution =? lease_Epoch fence).

Definition currentActionFence (execution : Execution) (fence : LeaseIdentity) (now : Time) : bool :=
  sameActionFence execution fence && After (ex_LeaseExpiresAt execution) now.

Definition redactActionExecution (execution : Execution) : Execution :=
  {| execution with ex_LeaseToken := "" |}.

Definition actionLeaseActive (status : Status) : bool :=
  (status == StatusLeased) || (status == StatusRunning) || (status == StatusFinalizing) ||
  (status == StatusUncertain).

Definition releasesTargetLock (status : Status) : bool :=
  (status == StatusSucceeded) || (status == StatusFailed) || (status == StatusCancelled) ||
  (status == StatusQueued).

Definition hashLeaseToken (token : string) : string := sha256_hex token.

(** [queue.now()], for the reading [clock]. *)
Definition queue_now {S} (clock : Time) : M S Time :=
  if IsZero clock then throw ErrClockZero else mret clock.

Definition validActionQueueReason (reason : ActionQueueReason) : bool :=
  resultCodePattern (reason_Code reason) && sha256Pattern (reason_DetailHash reason).

(** Marshalling a struct of strings does not fail. *)
Definition hashActionQueueReason (reason : ActionQueueReason) : string :=
  sha256_hex (Marshal (JObject
    [("schema_version", JString "action-queue-reason.v1"); ("code", JString (reason_Code reason));
     ("detail_hash", JString (reason_DetailHash reason))]%string)).

(** [hex.EncodeToString(make([]byte, sha256.Size))]: 64 zeros. *)
Definition zeroDigestHex : string := hex_EncodeToString (string_of_bytes (List.repeat 0 32)).

Definition expiredRunningResultHash : string :=
  hashActionQueueReason {| reason_Code := "RUNNING_LEASE_EXPIRED"; reason_DetailHash := zeroDigestHex |}.

Definition CancellationIntentHash : string :=
  sha256_hex ("action-queue-cancel-intent.v1" +:+ NUL +:+ "REQUESTED").

Definition validateActionSubmission (submission : ActionSubmission) : Result unit :=
  match Envelope_Validate (sub_Envelope submission) with
  | Err e => Err (Errorf "invalid envelope" ErrInvalidAction)
  | Ok _ =>
      ensure ((sub_PlanHash submission != ""%string) &&
              (sub_PlanHash submission == env_PlanHash (sub_Envelope submission)) &&
              validIdentifier (sub_TargetKey submission) 512 &&
              validIdentifier (sub_EnvironmentRevision submission) 256 && validWorkPool (sub_Pool submission))
        ErrInvalidRequest
  end.

Definition validateRunnerScope (request : ActionClaimRequest) : Result unit :=
  let scope := aclaim_Scope request in
  ensure (validIdentifier (scope_runnerID scope) 256 && validIdentifier (scope_tenantID scope) 256 &&
          validWorkPool (scope_pool scope) && (0 <? scope_scopeRevision scope) &&
          negb (Z.of_nat (List.length (scope_bindings scope)) =? 0) &&
          (minimumActionLease <=? aclaim_LeaseDuration request) &&
          (aclaim_LeaseDuration request <=? maximumActionLease)) ErrInvalidRequest;;
  ensure (distinctBindings [] (scope_bindings scope)) ErrInvalidRequest.

(** [requireCredentialTerminal]: [None] for a nil gate. *)
Definition requireCredentialTerminal (gate : option CleanupGate) (record : memoryActionRecord)
    (allowMissing : bool) : Result unit :=
  if ex_Pool (rec_execution record) != PoolWrite then Ok tt
  else
    match gate with
    | None => Err ErrCredentialCleanupPending
    | Some InspectCleanup =>
        match InspectCleanup (ex_ExecutionID (rec_execution record)) (ex_LeaseEpoch (rec_execution record)) with
        | Err _ => Err ErrCredentialCleanupPending
        | Ok (present, terminal) =>
            ensure (negb (present && negb terminal || negb present && negb allowMissing))
              ErrCredentialCleanupPending
        end
    end.

Definition claimedAction (record : memoryActionRecord) : ClaimedAction :=
  {| claimed_Execution := rec_execution record;
     claimed_Envelope := sub_Envelope (rec_submission record);
     claimed_PlanHash := sub_PlanHash (rec_submission record);
     claimed_TargetKey := sub_TargetKey (rec_submission record);
     claimed_EnvironmentRevision := sub_EnvironmentRevision (rec_submission record);
     claimed_Production := sub_Production (rec_submission record) |}.

Definition targetActive (queue : MemoryActionQueue) (targetKey excludingID : string) : bool :=
  existsb (fun '(executionID, record) =>
      (executionID != excludingID) && (ex_TargetKey (rec_execution record) == targetKey) &&
      actionLeaseActive (ex_Status (rec_execution record)))
    (map_to_list (queue_records queue)).

(** A record that counts against its runner's concurrency. *)
Definition heldBy (runnerID : string) (record : memoryActionRecord) : bool :=
  (ex_RunnerID (rec_execution record) == runnerID) && actionLeaseActive (ex_Status (rec_execution record)).

Definition runnerActive (queue : MemoryActionQueue) (runnerID : string) : Z :=
  Z.of_nat (List.length (List.filter (fun '(_, record) => heldBy runnerID record)
                           (map_to_list (queue_records queue)))).

Definition actionHeartbeatResult (value : Execution) : ActionHeartbeatResult :=
  {| ahb_Execution := redactActionExecution value;
     ahb_Directive := if IsZero (ex_CancelRequestedAt value) then HeartbeatContinue else HeartbeatTerminate |}.

(** [queue.records[id] = record] *)
Definition putRecord (id : string) (record : memoryActionRecord) (queue : MemoryActionQueue) : MemoryActionQueue :=
  {| queue with queue_records := <[id := record]> (queue_records queue) |}.

(** [record.execution = execution] *)
Definition setExecution (record : memoryActionRecord) (execution : Execution) : memoryActionRecord :=
  {| record with rec_execution := execution |}.

(** The envelope's deadline. *)
Definition rec_ExpiresAt (record : memoryActionRecord) : Time :=
  zt_instant (env_ExpiresAt (sub_Envelope (rec_submission record))).

(** ** Expiry of leases *)

(** Back to the queue: the fields a released lease clears. *)
Definition releasedExecution (execution : Execution) : Execution :=
  {| execution with
     ex_Status := StatusQueued; ex_RunnerID := ""; ex_RunnerTenantID := ""; ex_RunnerWorkspaceID := "";
     ex_RunnerEnvironmentID := ""; ex_ScopeRevision := 0; ex_LeaseToken := ""; ex_HeartbeatSeq := 0;
     ex_CancelRequestedAt := Time_zero; ex_CancelReasonHash := ""; ex_LeaseExpiresAt := Time_zero;
     ex_LeaseAcquiredAt := Time_zero; ex_LastHeartbeatAt := Time_zero |}.

Definition lostExecution (now : Time) (execution : Execution) : Execution :=
  {| execution with
     ex_Status := StatusUncertain; ex_CompletionStatus := StatusUncertain;
     ex_ResultHash := expiredRunningResultHash; ex_CompletedAt := now; ex_LeaseToken := "";
     ex_LeaseExpiresAt := Time_zero; ex_UpdatedAt := now |}.

Definition finalizedExecution (now : Time) (execution : Execution) : Execution :=
  {| execution with
     ex_Status := ex_CompletionStatus execution; ex_CompletedAt := now; ex_UpdatedAt := now |}.

(** [err == nil] of a call without a value. *)
Definition succeeds (r : Result unit) : bool := if r is Ok _ then true else false.

(** One iteration of the loop of [expireLocked], [None] for [continue]. *)
Definition expireRecord (gate : option CleanupGate) (now : Time) (record : memoryActionRecord)
    : option memoryActionRecord :=
  let execution := rec_execution record in
  if ex_Status execution == StatusFinalizing then
    match rec_receipt record with
    | None => None
    | Some receipt =>
        if After (rec_ExpiresAt record) now || (ex_CompletionStatus execution != receipt_CompletionStatus receipt)
        then None
        else if releasesTargetLock (ex_CompletionStatus execution) &&
                negb (succeeds (requireCredentialTerminal gate record false))
        then None
        else Some (setExecution record (finalizedExecution now execution))
    end
  else if IsZero (ex_LeaseExpiresAt execution) || After (ex_LeaseExpiresAt execution) now then None
  else
    match ex_Status execution with
    | StatusLeased =>
        if negb (succeeds (requireCredentialTerminal gate record true)) then None
        else
          let released := releasedExecution execution in
          Some {| record with rec_execution := {| released with ex_UpdatedAt := now |};
                              rec_notBefore := Time_zero |}
    | StatusRunning => Some (setExecution record (lostExecution now execution))
    | _ => None
    end.

Definition expireLocked_body (gate : option CleanupGate) (now : Time) (queue : MemoryActionQueue) (id : string)
    : MemoryActionQueue :=
  match queue_records queue !! id with
  | None => queue
  | Some record =>
      match expireRecord gate now record with
      | None => queue
      | Some record => putRecord id record queue
      end
  end.

(** The loop over an enumeration of the map's keys. *)
Definition expireLocked_over (ids : list string) (gate : option CleanupGate) (now : Time)
    (queue : MemoryActionQueue) : MemoryActionQueue :=
  foldl (expireLocked_body gate now) queue ids.

Definition expireLocked (gate : option CleanupGate) (now : Time) (queue : MemoryActionQueue)
    : MemoryActionQueue :=
  expireLocked_over (map_to_list (queue_records queue)).*1 gate now queue.

(** ** Semantic hashes and receipts *)

Section canonical.
Context (Transform : string -> Result string).

Definition RequestSemanticHash (submission : ActionSubmission) : Result string :=
  let envelope := sub_Envelope submission in
  let envelope := {| envelope with env_ActionID := ""; env_PlanHash := ""; env_TraceID := "";
                                   env_Signature := Signature_zero |} in
  encoded ← wrapError "marshal action request semantics" (json_envelope envelope);
  canonical ← wrapError "canonicalize action request semantics" (Transform (Marshal (JObject
    [("schema_version", JString "action-request.v1"); ("envelope", encoded);
     ("target_key", JString (sub_TargetKey submission));
     ("environment_revision", JString (sub_EnvironmentRevision submission));
     ("production", JBool (sub_Production submission));
     ("pool", JString (Pool_string (sub_Pool submission)))]%string)));
  mret (sha256_hex canonical).

(** The receipt without its hash. *)
Definition unhashedReceipt (claimed : ClaimedAction) (request : ActionCompleteRequest) (completionStatus : Status)
    (certificateSHA256 : string) (receivedAt : Time) : RunnerResultReceipt :=
  {| receipt_ActionID := ex_ExecutionID (claimed_Execution claimed);
     receipt_TenantID := ex_RunnerTenantID (claimed_Execution claimed);
     receipt_WorkspaceID := ex_RunnerWorkspaceID (claimed_Execution claimed);
     receipt_EnvironmentID := ex_RunnerEnvironmentID (claimed_Execution claimed);
     receipt_PlanHash := claimed_PlanHash claimed;
     receipt_RunnerID := lease_RunnerID (acomplete_Lease request);
     receipt_LeaseEpoch := lease_Epoch (acomplete_Lease request);
     receipt_ScopeRevision := ex_ScopeRevision (claimed_Execution claimed);
     receipt_CertificateSHA256 := certificateSHA256;
     receipt_CompletionStatus := completionStatus;
     receipt_Summary := acomplete_Summary request;
     receipt_ResultHash := "";
     receipt_ReceivedAt := receivedAt |}.

Definition json_receipt (schemaVersion : string) (receipt : RunnerResultReceipt) : Json :=
  let summary := receipt_Summary receipt in
  JObject (
    [("schema_version", JString schemaVersion); ("action_id", JString (receipt_ActionID receipt));
     ("tenant_id", JString (receipt_TenantID receipt)); ("workspace_id", JString (receipt_WorkspaceID receipt));
     ("environment_id", JString (receipt_EnvironmentID receipt)); ("plan_hash", JString (receipt_PlanHash receipt));
     ("runner_id", JString (receipt_RunnerID receipt));
     ("lease_epoch", JString (FormatInt (receipt_LeaseEpoch receipt)));
     ("scope_revision", JString (FormatInt (receipt_ScopeRevision receipt)))]%string ++
    omitempty "certificate_sha256" (receipt_CertificateSHA256 receipt) ++
    [("completion_status", JString (Status_string (receipt_CompletionStatus receipt)));
     ("outcome", JString (ExecutorOutcome_string (result_Outcome summary)));
     ("code", JString (result_Code summary));
     ("verification", JString (Verification_string (result_Verification summary)));
     ("changed", JBool (result_Changed summary))]%string ++
    omitempty "external_operation_ref_hash" (result_ExternalOperationRefHash summary)).

(** Marshalling a struct of strings and booleans does not fail. *)
Definition buildRunnerResultReceipt (claimed : ClaimedAction) (request : ActionCompleteRequest)
    (completionStatus : Status) (schemaVersion certificateSHA256 : string) (receivedAt : Time)
    : Result RunnerResultReceipt :=
  let receipt := unhashedReceipt claimed request completionStatus certificateSHA256 receivedAt in
  let encoded := Marshal (json_receipt schemaVersion receipt) in
  ensure (len encoded <=? 16 * 1024) ErrInvalidRequest;;
  canonical ← wrapError "canonicalize runner result receipt" (Transform encoded);
  mret {| receipt with receipt_ResultHash := sha256_hex (schemaVersion +:+ NUL +:+ canonical) |}.

Definition BuildRunnerResultReceipt (claimed : ClaimedAction) (request : ActionCompleteRequest)
    (completionStatus : Status) (receivedAt : Time) : Result RunnerResultReceipt :=
  buildRunnerResultReceipt claimed request completionStatus "runner-result.v1" "" receivedAt.

Definition BuildRunnerResultReceiptV2 (claimed : ClaimedAction) (request : ActionCompleteRequest)
    (completionStatus : Status) (certificateSHA256 : string) (receivedAt : Time) : Result RunnerResultReceipt :=
  ensure (sha256Pattern certificateSHA256) ErrInvalidRequest;;
  buildRunnerResultReceipt claimed request completionStatus "runner-result.v2" certificateSHA256 receivedAt.

(** ** Methods *)

Definition submittedExecution (submission : ActionSubmission) (now : Time) : Execution :=
  {| Execution_zero with
     ex_ExecutionID := env_ActionID (sub_Envelope submission);
     ex_TargetKey := sub_TargetKey submission;
     ex_Pool := sub_Pool submission;
     ex_Production := sub_Production submission;
     ex_Status := StatusQueued;
     ex_CreatedAt := now;
     ex_UpdatedAt := now |}.

Definition submittedRecord (submission : ActionSubmission) (requestHash : string) (now : Time) : memoryActionRecord :=
  {| rec_submission := submission; rec_requestHash := requestHash; rec_receipt := None;
     rec_completedTokenHash := ""; rec_completedEpoch := 0;
     rec_execution := submittedExecution submission now;
     rec_notBefore := Time_zero; rec_lastNackHash := "" |}.

(** [existing := queue.records[existingID]] of a map without the key. *)
Definition Envelope_none : Envelope := {|
  env_SchemaVersion := ""; env_ActionID := ""; env_WorkspaceID := ""; env_IncidentID := "";
  env_RequestedBy := ""; env_ActionType := ActionTypeOther "";
  env_Target := {| target_ServiceID := ""; target_EnvironmentID := ""; target_KubernetesDeployment := None;
                   target_GitOpsApplication := None; target_AWXHosts := None |};
  env_Parameters := {| param_KubernetesRolloutRestart := None; param_KubernetesScale := None;
                       param_GitOpsRevert := None; param_AWXServiceRestart := None |};
  env_ObservedState := {| obs_KubernetesDeployment := None; obs_GitOpsApplication := None;
                          obs_AWXService := None |};
  env_Preconditions := {| pre_MappingResult := ""; pre_ExpectedResourceVersion := "";
                          pre_ExpectedGitHeadCommit := ""; pre_RequireWhitelist := false |};
  env_Verification := {| verify_Mode := ""; verify_TimeoutSeconds := 0 |};
  env_Compensation := {| comp_Mode := ""; comp_Summary := "" |};
  env_Risk := {| risk_Level := ""; risk_ReasonCodes := [] |};
  env_PolicyVersion := ""; env_PlanHash := "";
  env_CredentialScope := {| cred_ConnectorID := ""; cred_Permission := ""; cred_Resource := "";
                            cred_TTLSeconds := 0 |};
  env_IdempotencyKey := ""; env_NotBefore := UTC Time_zero; env_ExpiresAt := UTC Time_zero;
  env_TraceID := ""; env_Signature := Signature_zero |}.

Definition record_zero : memoryActionRecord :=
  {| rec_submission := {| sub_Envelope := Envelope_none; sub_PlanHash := ""; sub_TargetKey := "";
                          sub_EnvironmentRevision := ""; sub_Production := false; sub_Pool := PoolOther "" |};
     rec_requestHash := ""; rec_receipt := None; rec_completedTokenHash := ""; rec_completedEpoch := 0;
     rec_execution := Execution_zero; rec_notBefore := Time_zero; rec_lastNackHash := "" |}.

Definition ActionQueue_Submit (err : option GoError) (clock : Time) (submission : ActionSubmission)
    : M MemoryActionQueue Execution :=
  checkContext err;;
  lift (validateActionSubmission submission);;
  now ← queue_now clock;
  requestHash ← lift (RequestSemanticHash submission);
  queue ← get;
  let envelope := sub_Envelope submission in
  match queue_records queue !! env_ActionID envelope with
  | Some existing =>
      if rec_requestHash existing == requestHash then mret (redactActionExecution (rec_execution existing))
      else throw ErrJobConflict
  | None =>
      let idempotencyKey := scopeBindingKey (env_WorkspaceID envelope) (env_IdempotencyKey envelope) in
      match queue_idempotency queue !! idempotencyKey with
      | Some existingID =>
          let existing := default record_zero (queue_records queue !! existingID) in
          if rec_requestHash existing == requestHash then mret (redactActionExecution (rec_execution existing))
          else throw ErrIdempotencyConflict
      | None =>
          let execution := submittedExecution submission now in
          modify (fun queue =>
            {| queue_records := <[ex_ExecutionID execution := submittedRecord submission requestHash now]>
                                  (queue_records queue);
               queue_idempotency := <[idempotencyKey := ex_ExecutionID execution]> (queue_idempotency queue);
               queue_order := queue_order queue ++ [ex_ExecutionID execution] |});;
          mret execution
      end
  end.

(** The tests of the loop of [Claim] that end in [continue]. *)
Definition actionClaimSkips (queue : MemoryActionQueue) (request : ActionClaimRequest) (now : Time)
    (record : memoryActionRecord) : bool :=
  let execution := rec_execution record in
  let envelope := sub_Envelope (rec_submission record) in
  (ex_Status execution != StatusQueued) || (ex_Pool execution != scope_pool (aclaim_Scope request)) ||
  ((ex_Pool execution == PoolWrite) && ex_Production execution) ||
  After (rec_notBefore record) now ||
  negb (After (rec_ExpiresAt record) now) ||
  negb (RunnerScope_allows (aclaim_Scope request) (env_WorkspaceID envelope)
          (target_EnvironmentID (env_Target envelope))) ||
  targetActive queue (ex_TargetKey execution) (ex_ExecutionID execution).

(** A lease of the requested length, cut at the envelope's deadline. *)
Definition cappedExpiry (expiresAt now : Time) (duration : Duration) : Time :=
  if Before expiresAt (Add now duration) then expiresAt else Add now duration.

Definition actionLeasedExecution (request : ActionClaimRequest) (now : Time) (token : string)
    (record : memoryActionRecord) : Execution :=
  let execution := rec_execution record in
  let envelope := sub_Envelope (rec_submission record) in
  {| execution with
     ex_Status := StatusLeased;
     ex_RunnerID := scope_runnerID (aclaim_Scope request);
     ex_RunnerTenantID := scope_tenantID (aclaim_Scope request);
     ex_RunnerWorkspaceID := env_WorkspaceID envelope;
     ex_RunnerEnvironmentID := target_EnvironmentID (env_Target envelope);
     ex_ScopeRevision := scope_scopeRevision (aclaim_Scope request);
     ex_LeaseToken := token;
     ex_LeaseEpoch := ex_LeaseEpoch execution + 1;
     ex_HeartbeatSeq := 0;
     ex_CancelRequestedAt := Time_zero;
     ex_CancelReasonHash := "";
     ex_LeaseAcquiredAt := now;
     ex_LastHeartbeatAt := now;
     ex_LeaseExpiresAt := cappedExpiry (rec_ExpiresAt record) now (aclaim_LeaseDuration request);
     ex_UpdatedAt := now |}.

(** The loop of [Claim]. [source n] is the answer of the [n]-th call of the token
    source and the reading of the clock after it, which also replaces [now] for
    the rest of the loop. *)
Fixpoint actionClaimLoop (request : ActionClaimRequest) (source : nat -> Result string * Time) (n : nat)
    (now : Time) (ids : list string) : M MemoryActionQueue ClaimedAction :=
  match ids with
  | [] => throw ErrNoLeaseAvailable
  | executionID :: rest =>
      queue ← get;
      let record := default record_zero (queue_records queue !! executionID) in
      if actionClaimSkips queue request now record then actionClaimLoop request source n now rest
      else
        require (ex_LeaseEpoch (rec_execution record) != MaxInt64)
          (Errorf "lease epoch exhausted" ErrInvalidTransition);;
        token ← lift (wrapError "generate execution queue lease token" (source n).1);
        require (validIdentifier token 256) (Errorf "invalid lease token" ErrInvalidRequest);;
        now ← queue_now (source n).2;
        if negb (After (rec_ExpiresAt record) now) then actionClaimLoop request source (S n) now rest
        else
          let record := setExecution record (actionLeasedExecution request now token record) in
          modify (putRecord executionID record);;
          mret (claimedAction record)
  end.

Definition ActionQueue_Claim (err : option GoError) (clock : Time) (gate : option CleanupGate)
    (source : nat -> Result string * Time) (request : ActionClaimRequest) : M MemoryActionQueue ClaimedAction :=
  checkContext err;;
  lift (validateRunnerScope request);;
  now ← queue_now clock;
  modify (expireLocked gate now);;
  queue ← get;
  require (runnerActive queue (scope_runnerID (aclaim_Scope request)) <?
           scope_maxConcurrency (aclaim_Scope request)) ErrNoLeaseAvailable;;
  actionClaimLoop request source 0 now (queue_order queue).

Definition actionStartedExecution (now : Time) (execution : Execution) : Execution :=
  {| execution with ex_Status := StatusRunning; ex_StartedAt := now; ex_UpdatedAt := now |}.

Definition ActionQueue_Start (err : option GoError) (clock : Time) (fence : LeaseIdentity)
    : M MemoryActionQueue Execution :=
  checkContext err;;
  require (validActionFence fence) ErrInvalidRequest;;
  now ← queue_now clock;
  queue ← get;
  record ← require_some (queue_records queue !! lease_ExecutionID fence) ErrNotFound;
  require (After (rec_ExpiresAt record) now) ErrStaleLease;;
  require (currentActionFence (rec_execution record) fence now) ErrStaleLease;;
  match ex_Status (rec_execution record) with
  | StatusLeased =>
      let record := setExecution record (actionStartedExecution now (rec_execution record)) in
      modify (putRecord (lease_ExecutionID fence) record);;
      mret (redactActionExecution (rec_execution record))
  | StatusRunning => mret (redactActionExecution (rec_execution record))
  | _ => throw ErrInvalidTransition
  end.

(** An accepted heartbeat: a pending cancellation is not extended. *)
Definition beatenExecution (request : ActionHeartbeatRequest) (now : Time) (record : memoryActionRecord) : Execution :=
  let execution := rec_execution record in
  let execution := {| execution with ex_HeartbeatSeq := ahb_Sequence request |} in
  let execution :=
    if IsZero (ex_CancelRequestedAt execution) then
      {| execution with
         ex_LeaseExpiresAt := cappedExpiry (rec_ExpiresAt record) now (ahb_Extension request);
         ex_LastHeartbeatAt := now |}
    else execution in
  {| execution with ex_UpdatedAt := now |}.

Definition ActionQueue_Heartbeat (err : option GoError) (clock : Time) (request : ActionHeartbeatRequest)
    : M MemoryActionQueue ActionHeartbeatResult :=
  checkContext err;;
  require (validActionFence (ahb_Lease request) && (minimumActionLease <=? ahb_Extension request) &&
           (ahb_Extension request <=? maximumActionLease)) ErrInvalidRequest;;
  require (0 <? ahb_Sequence request) ErrHeartbeatSequence;;
  now ← queue_now clock;
  queue ← get;
  record ← require_some (queue_records queue !! lease_ExecutionID (ahb_Lease request)) ErrNotFound;
  let execution := rec_execution record in
  require (sameActionFence execution (ahb_Lease request)) ErrStaleLease;;
  require ((ex_Status execution == StatusLeased) || (ex_Status execution == StatusRunning)) ErrInvalidTransition;;
  if negb (After (rec_ExpiresAt record) now) then
    mret {| ahb_Execution := redactActionExecution execution; ahb_Directive := HeartbeatTerminate |}
  else
    require (After (ex_LeaseExpiresAt execution) now) ErrStaleLease;;
    if ahb_Sequence request =? ex_HeartbeatSeq execution then mret (actionHeartbeatResult execution)
    else
      require (ahb_Sequence request =? ex_HeartbeatSeq execution + 1) ErrHeartbeatSequence;;
      let record := setExecution record (beatenExecution request now record) in
      modify (putRecord (lease_ExecutionID (ahb_Lease request)) record);;
      mret (actionHeartbeatResult (rec_execution record)).

(** The fence of the runner that completed: kept as epoch and token digest. *)
Definition completedBy (record : memoryActionRecord) (lease : LeaseIdentity) : bool :=
  (ex_ReconciliationID (rec_execution record) == ""%string) &&
  (ex_RunnerID (rec_execution record) == lease_RunnerID lease) &&
  (rec_completedEpoch record =? lease_Epoch lease) &&
  (rec_completedTokenHash record == hashLeaseToken (lease_Token lease)).

Definition finalizingRecord (completionStatus : Status) (receipt : RunnerResultReceipt) (lease : LeaseIdentity)
    (now : Time) (record : memoryActionRecord) : memoryActionRecord :=
  let execution := rec_execution record in
  {| record with
     rec_execution :=
       {| execution with
          ex_Status := StatusFinalizing; ex_CompletionStatus := completionStatus;
          ex_ResultHash := receipt_ResultHash receipt; ex_LeaseExpiresAt := Time_zero;
          ex_LeaseToken := ""; ex_UpdatedAt := now |};
     rec_receipt := Some receipt;
     rec_completedTokenHash := hashLeaseToken (lease_Token lease);
     rec_completedEpoch := lease_Epoch lease |}.

Definition ActionQueue_Complete (err : option GoError) (clock : Time) (request : ActionCompleteRequest)
    : M MemoryActionQueue Execution :=
  checkContext err;;
  completionStatus ← lift (match ResultSummaryStatus (acomplete_Summary request) with
                           | Ok status => if validActionFence (acomplete_Lease request) then Ok status
                                          else Err ErrInvalidRequest
                           | Err _ => Err ErrInvalidRequest
                           end);
  now ← queue_now clock;
  queue ← get;
  record ← require_some (queue_records queue !! lease_ExecutionID (acomplete_Lease request)) ErrNotFound;
  receipt ← lift (BuildRunnerResultReceipt (claimedAction record) request completionStatus now);
  let execution := rec_execution record in
  if (ex_Status execution == StatusFinalizing) || Execution_Terminal execution then
    require (completedBy record (acomplete_Lease request)) ErrStaleLease;;
    if (match rec_receipt record with
        | Some stored => receipt_ResultHash stored == receipt_ResultHash receipt
        | None => false
        end) && (ex_CompletionStatus execution == completionStatus)
    then mret (redactActionExecution execution)
    else throw ErrCompletionConflict
  else
    require (currentActionFence execution (acomplete_Lease request) now) ErrStaleLease;;
    require (ex_Status execution == StatusRunning) ErrInvalidTransition;;
    let record := finalizingRecord completionStatus receipt (acomplete_Lease request) now record in
    modify (putRecord (lease_ExecutionID (acomplete_Lease request)) record);;
    mret (redactActionExecution (rec_execution record)).

Definition ActionQueue_Finalize (err : option GoError) (clock : Time) (gate : option CleanupGate)
    (fence : LeaseIdentity) : M MemoryActionQueue Execution :=
  checkContext err;;
  require (validActionFence fence) ErrInvalidRequest;;
  now ← queue_now clock;
  queue ← get;
  record ← require_some (queue_records queue !! lease_ExecutionID fence) ErrNotFound;
  let execution := rec_execution record in
  require (completedBy record fence) ErrStaleLease;;
  if Execution_Terminal execution then mret (redactActionExecution execution)
  else
    require ((ex_Status execution == StatusFinalizing) &&
             match rec_receipt record with
             | Some receipt => ex_CompletionStatus execution == receipt_CompletionStatus receipt
             | None => false
             end) ErrInvalidTransition;;
    lift (if releasesTargetLock (ex_CompletionStatus execution) then requireCredentialTerminal gate record false
          else Ok tt);;
    let record := setExecution record (finalizedExecution now execution) in
    modify (putRecord (lease_ExecutionID fence) record);;
    mret (redactActionExecution (rec_execution record)).

Definition rejectedRecord (reasonHash : string) (lease : LeaseIdentity) (now : Time) (record : memoryActionRecord)
    : memoryActionRecord :=
  let execution := rec_execution record in
  {| record with
     rec_execution :=
       {| execution with
          ex_Status := StatusFailed; ex_CompletionStatus := StatusFailed; ex_ResultHash := reasonHash;
          ex_CompletedAt := now; ex_LeaseExpiresAt := Time_zero; ex_LeaseToken := ""; ex_UpdatedAt := now |};
     rec_completedTokenHash := hashLeaseToken (lease_Token lease);
     rec_completedEpoch := lease_Epoch lease |}.

Definition ActionQueue_Reject (err : option GoError) (clock : Time) (gate : option CleanupGate)
    (request : ActionRejectRequest) : M MemoryActionQueue Execution :=
  checkContext err;;
  require (validActionFence (reject_Lease request) && validActionQueueReason (reject_Reason request))
    ErrInvalidRequest;;
  let reasonHash := hashActionQueueReason (reject_Reason request) in
  now ← queue_now clock;
  queue ← get;
  record ← require_some (queue_records queue !! lease_ExecutionID (reject_Lease request)) ErrNotFound;
  let execution := rec_execution record in
  if ex_Status execution == StatusFailed then
    require (completedBy record (reject_Lease request)) ErrStaleLease;;
    require (ex_ResultHash execution == reasonHash) ErrCompletionConflict;;
    mret (redactActionExecution execution)
  else
    require (currentActionFence execution (reject_Lease request) now) ErrStaleLease;;
    require (ex_Status execution == StatusLeased) ErrInvalidTransition;;
    lift (requireCredentialTerminal gate record true);;
    let record := rejectedRecord reasonHash (reject_Lease request) now record in
    modify (putRecord (lease_ExecutionID (reject_Lease request)) record);;
    mret (redactActionExecution (rec_execution record)).

Definition nackedRecord (request : ActionNackRequest) (now : Time) (record : memoryActionRecord) : memoryActionRecord :=
  let released := releasedExecution (rec_execution record) in
  {| record with
     rec_execution := {| released with ex_UpdatedAt := now |};
     rec_notBefore := Add now (nack_RetryAfter request);
     rec_lastNackHash := hashActionQueueReason (nack_Reason request) |}.

Definition ActionQueue_Nack (err : option GoError) (clock : Time) (gate : option CleanupGate)
    (request : ActionNackRequest) : M MemoryActionQueue Execution :=
  checkContext err;;
  require (validActionFence (nack_Lease request) && validActionQueueReason (nack_Reason request) &&
           (Second <=? nack_RetryAfter request) && (nack_RetryAfter request <=? maximumActionLease))
    ErrInvalidRequest;;
  now ← queue_now clock;
  queue ← get;
  record ← require_some (queue_records queue !! lease_ExecutionID (nack_Lease request)) ErrNotFound;
  require (currentActionFence (rec_execution record) (nack_Lease request) now) ErrStaleLease;;
  require (ex_Status (rec_execution record) == StatusLeased) ErrInvalidTransition;;
  lift (requireCredentialTerminal gate record true);;
  let record := nackedRecord request now record in
  modify (putRecord (lease_ExecutionID (nack_Lease request)) record);;
  mret (rec_execution record).

Definition actionReconciliationIDTaken (queue : MemoryActionQueue) (executionID reconciliationID : string) : bool :=
  existsb (fun '(id, existing) =>
      (id != executionID) && (ex_ReconciliationID (rec_execution existing) == reconciliationID))
    (map_to_list (queue_records queue)).

Definition actionReconciledExecution (request : ReconcileRequest) (now : Time) (execution : Execution) : Execution :=
  {| execution with
     ex_Status := reconcile_Status request;
     ex_ReconciliationID := reconcile_ReconciliationID request;
     ex_ReconciliationActor := reconcile_ActorID request;
     ex_ReconciliationResultHash := reconcile_ResultHash request;
     ex_ReconciledAt := now;
     ex_UpdatedAt := now |}.

(** [gate] answers during expiry, [gate'] the inspection that follows. *)
Definition ActionQueue_Reconcile (err : option GoError) (clock : Time) (gate gate' : option CleanupGate)
    (request : ReconcileRequest) : M MemoryActionQueue Execution :=
  checkContext err;;
  require (validIdentifier (reconcile_ExecutionID request) 256 &&
           validIdentifier (reconcile_ReconciliationID request) 256 &&
           validIdentifier (reconcile_ActorID request) 256 &&
           ((reconcile_Status request == StatusSucceeded) || (reconcile_Status request == StatusFailed)) &&
           sha256Pattern (reconcile_ResultHash request)) ErrInvalidRequest;;
  now ← queue_now clock;
  modify (expireLocked gate now);;
  queue ← get;
  record ← require_some (queue_records queue !! reconcile_ExecutionID request) ErrNotFound;
  let execution := rec_execution record in
  if ex_ReconciliationID execution != ""%string then
    if (ex_ReconciliationID execution == reconcile_ReconciliationID request) &&
       (ex_ReconciliationActor execution == reconcile_ActorID request) &&
       (ex_Status execution == reconcile_Status request) &&
       (ex_ReconciliationResultHash execution == reconcile_ResultHash request)
    then mret (redactActionExecution execution)
    else throw ErrReconciliationConflict
  else
    require (ex_Status execution == StatusUncertain) ErrInvalidTransition;;
    lift (requireCredentialTerminal gate' record false);;
    require (negb (actionReconciliationIDTaken queue (reconcile_ExecutionID request)
                     (reconcile_ReconciliationID request))) ErrReconciliationConflict;;
    let record := setExecution record (actionReconciledExecution request now execution) in
    modify (putRecord (reconcile_ExecutionID request) record);;
    mret (redactActionExecution (rec_execution record)).

Definition cancelRequestedExecution (now : Time) (execution : Execution) : Execution :=
  {| execution with
     ex_CancelRequestedAt := now; ex_CancelReasonHash := CancellationIntentHash; ex_UpdatedAt := now |}.

Definition actionCancelledExecution (now : Time) (execution : Execution) : Execution :=
  {| execution with
     ex_Status := StatusCancelled; ex_RunnerID := ""; ex_RunnerTenantID := ""; ex_RunnerWorkspaceID := "";
     ex_RunnerEnvironmentID := ""; ex_LeaseToken := ""; ex_LeaseExpiresAt := Time_zero;
     ex_CompletedAt := now; ex_UpdatedAt := now |}.

Definition ActionQueue_Cancel (err : option GoError) (clock : Time) (gate gate' : option CleanupGate)
    (executionID : string) : M MemoryActionQueue Execution :=
  checkContext err;;
  require (validIdentifier executionID 256) ErrInvalidRequest;;
  now ← queue_now clock;
  modify (expireLocked gate now);;
  queue ← get;
  record ← require_some (queue_records queue !! executionID) ErrNotFound;
  let execution := rec_execution record in
  if Execution_Terminal execution then mret (redactActionExecution execution)
  else
    require (ex_Status execution != StatusFinalizing) ErrInvalidTransition;;
    if ex_Status execution == StatusRunning then
      if IsZero (ex_CancelRequestedAt execution) then
        let record := setExecution record (cancelRequestedExecution now execution) in
        modify (putRecord executionID record);;
        mret (redactActionExecution (rec_execution record))
      else mret (redactActionExecution execution)
    else
      lift (if ex_Status execution == StatusLeased then requireCredentialTerminal gate' record true else Ok tt);;
      let record := setExecution record (actionCancelledExecution now execution) in
      modify (putRecord executionID record);;
      mret (redactActionExecution (rec_execution record)).

Definition ActionQueue_SweepExpired (err : option GoError) (clock : Time) (gate : option CleanupGate)
    : M MemoryActionQueue unit :=
  checkContext err;;
  now ← queue_now clock;
  modify (expireLocked gate now).

Definition ActionQueue_Get (err : option GoError) (clock : Time) (gate : option CleanupGate) (executionID : string)
    : M MemoryActionQueue Execution :=
  checkContext err;;
  require (validIdentifier executionID 256) ErrInvalidRequest;;
  now ← queue_now clock;
  modify (expireLocked gate now);;
  queue ← get;
  record ← require_some (queue_records queue !! executionID) ErrNotFound;
  mret (redactActionExecution (rec_execution record)).

(** ** Calls: the [ActionQueue] interface as data *)

Inductive QueueCall :=
| QSubmit (err : option GoError) (clock : Time) (submission : ActionSubmission)
| QClaim (err : option GoError) (clock : Time) (gate : option CleanupGate)
    (source : nat -> Result string * Time) (request : ActionClaimRequest)
| QStart (err : option GoError) (clock : Time) (fence : LeaseIdentity)
| QHeartbeat (err : option GoError) (clock : Time) (request : ActionHeartbeatRequest)
| QComplete (err : option GoError) (clock : Time) (request : ActionCompleteRequest)
| QFinalize (err : option GoError) (clock : Time) (gate : option CleanupGate) (fence : LeaseIdentity)
| QReject (err : option GoError) (clock : Time) (gate : option CleanupGate) (request : ActionRejectRequest)
| QNack (err : option GoError) (clock : Time) (gate : option CleanupGate) (request : ActionNackRequest)
| QReconcile (err : option GoError) (clock : Time) (gate gate' : option CleanupGate) (request : ReconcileRequest)
| QCancel (err : option GoError) (clock : Time) (gate gate' : option CleanupGate) (executionID : string)
| QSweepExpired (err : option GoError) (clock : Time) (gate : option CleanupGate)
| QGet (err : option GoError) (clock : Time) (gate : option CleanupGate) (executionID : string).

(** What a call returns, as an execution. *)
Definition run_queue (call : QueueCall) : M MemoryActionQueue Execution :=
  match call with
  | QSubmit err clock submission => ActionQueue_Submit err clock submission
  | QClaim err clock gate source request =>
      claimed ← ActionQueue_Claim err clock gate source request; mret (claimed_Execution claimed)
  | QStart err clock fence => ActionQueue_Start err clock fence
  | QHeartbeat err clock request =>
      result ← ActionQueue_Heartbeat err clock request; mret (ahb_Execution result)
  | QComplete err clock request => ActionQueue_Complete err clock request
  | QFinalize err clock gate fence => ActionQueue_Finalize err clock gate fence
  | QReject err clock gate request => ActionQueue_Reject err clock gate request
  | QNack err clock gate request => ActionQueue_Nack err clock gate request
  | QReconcile err clock gate gate' request => ActionQueue_Reconcile err clock gate gate' request
  | QCancel err clock gate gate' executionID => ActionQueue_Cancel err clock gate gate' executionID
  | QSweepExpired err clock gate => ActionQueue_SweepExpired err clock gate;; mret Execution_zero
  | QGet err clock gate executionID => ActionQueue_Get err clock gate executionID
  end.

Definition queue_step (queue queue' : MemoryActionQueue) : Prop :=
  exists call, (run_queue call queue).2 = queue'.

Definition queue_reachable (queue : MemoryActionQueue) : Prop :=
  exists clock initial, NewMemoryActionQueue clock = Ok initial /\ rtc queue_step initial queue.
End canonical.
