(* ===== verification/ActionQueueFacts.v ===== *)
(** * The action queue: invariant, gated lifecycle and their preservation *)

From S2P Require Import Prelude.
From S2P Require Import Sha256.
From S2P Require Import GoText.
From S2P Require Import GoJson.
From S2P Require Import ExecutionLease.
From S2P Require Import Envelope.
From S2P Require Import ActionQueue.

(** ** The invariant *)

(** A runner holds the lease and its token. *)
Definition actionHeld (status : Status) : bool := (status == StatusLeased) || (status == StatusRunning).

Definition actionStatus (status : Status) : bool :=
  actionLeaseActive status || releasesTargetLock status.

Definition completedStatus (status : Status) : bool :=
  (status == StatusFinalizing) || (status == StatusSucceeded) || (status == StatusFailed) ||
  (status == StatusUncertain).

(** ** The gated lifecycle *)

(** The life of one action as an abstract machine over its status and lease
    epoch. [ev n missing] is the evidence that the credential of epoch [n] is
    cleaned up; with [missing = true] it is enough that none was ever made.
    Every transition that gives the target up asks for it. *)
Inductive action_step (ev : Z -> bool -> Prop) : Status * Z -> Status * Z -> Prop :=
| astep_lease n : action_step ev (StatusQueued, n) (StatusLeased, n + 1)
| astep_requeue n : ev n true -> action_step ev (StatusLeased, n) (StatusQueued, n)
| astep_reject n : ev n true -> action_step ev (StatusLeased, n) (StatusFailed, n)
| astep_cancel_leased n : ev n true -> action_step ev (StatusLeased, n) (StatusCancelled, n)
| astep_cancel_queued n : action_step ev (StatusQueued, n) (StatusCancelled, n)
| astep_start n : action_step ev (StatusLeased, n) (StatusRunning, n)
| astep_complete n : action_step ev (StatusRunning, n) (StatusFinalizing, n)
| astep_lose n : action_step ev (StatusRunning, n) (StatusUncertain, n)
| astep_finalize_succeeded n : ev n false -> action_step ev (StatusFinalizing, n) (StatusSucceeded, n)
| astep_finalize_failed n : ev n false -> action_step ev (StatusFinalizing, n) (StatusFailed, n)
| astep_finalize_uncertain n : action_step ev (StatusFinalizing, n) (StatusUncertain, n)
| astep_reconcile_succeeded n : ev n false -> action_step ev (StatusUncertain, n) (StatusSucceeded, n)
| astep_reconcile_failed n : ev n false -> action_step ev (StatusUncertain, n) (StatusFailed, n).

Definition cycle (r : memoryActionRecord) : Status * Z :=
  (ex_Status (rec_execution r), ex_LeaseEpoch (rec_execution r)).

(** A gate's answer for one epoch of an action of the WRITE pool. *)
Definition gateClears (gate : option CleanupGate) (id : string) (n : Z) (missing : bool) : Prop :=
  exists InspectCleanup present terminal, gate = Some InspectCleanup /\
    InspectCleanup id n = Ok (present, terminal) /\
    (present = true /\ terminal = true \/ present = false /\ missing = true).

(** The evidence one of the gates of a call gives for a record: none is asked
    of READ work. *)
Definition evidence (gates : list (option CleanupGate)) (r : memoryActionRecord) (n : Z) (missing : bool) : Prop :=
  ex_Pool (rec_execution r) = PoolWrite ->
  Exists (fun gate => gateClears gate (ex_ExecutionID (rec_execution r)) n missing) gates.

(** What a record keeps over its life. *)
Definition same_action (r r' : memoryActionRecord) : Prop :=
  rec_submission r' = rec_submission r /\ rec_requestHash r' = rec_requestHash r /\
  ex_ExecutionID (rec_execution r') = ex_ExecutionID (rec_execution r) /\
  ex_TargetKey (rec_execution r') = ex_TargetKey (rec_execution r) /\
  ex_Pool (rec_execution r') = ex_Pool (rec_execution r) /\
  ex_Production (rec_execution r') = ex_Production (rec_execution r) /\
  ex_CreatedAt (rec_execution r') = ex_CreatedAt (rec_execution r).

(** Within one epoch a token is dropped, never replaced, and only the holder's
    token is recorded as the one that completed it. *)
Definition fence_kept (r r' : memoryActionRecord) : Prop :=
  ex_LeaseEpoch (rec_execution r') = ex_LeaseEpoch (rec_execution r) ->
  (ex_LeaseToken (rec_execution r') = ex_LeaseToken (rec_execution r) \/
   ex_LeaseToken (rec_execution r') = ""%string) /\
  (ex_RunnerID (rec_execution r') = ex_RunnerID (rec_execution r) \/
   ex_RunnerID (rec_execution r') = ""%string) /\
  (rec_completedEpoch r' = rec_completedEpoch r /\ rec_completedTokenHash r' = rec_completedTokenHash r \/
   rec_completedEpoch r' = ex_LeaseEpoch (rec_execution r) /\
   rec_completedTokenHash r' = hashLeaseToken (ex_LeaseToken (rec_execution r)) /\
   ex_LeaseToken (rec_execution r) <> ""%string).

(** A requested cancellation stays and stops every extension of the lease; a
    lease that is not held is not held again in the same epoch. *)
Definition cancel_kept (r r' : memoryActionRecord) : Prop :=
  ex_LeaseEpoch (rec_execution r') = ex_LeaseEpoch (rec_execution r) ->
  actionHeld (ex_Status (rec_execution r')) = true ->
  actionHeld (ex_Status (rec_execution r)) = true /\
  (ex_CancelRequestedAt (rec_execution r) <> 0 ->
   ex_CancelRequestedAt (rec_execution r') = ex_CancelRequestedAt (rec_execution r) /\
   ex_LeaseExpiresAt (rec_execution r') = ex_LeaseExpiresAt (rec_execution r)).

(** What the runner reported, with the identity it reported as, is final. *)
Definition reported (r : memoryActionRecord) :=
  let e := rec_execution r in
  (rec_receipt r, rec_completedEpoch r, rec_completedTokenHash r, ex_CompletionStatus e, ex_ResultHash e,
   (ex_RunnerID e, ex_RunnerTenantID e, ex_RunnerWorkspaceID e, ex_RunnerEnvironmentID e, ex_ScopeRevision e)).

Definition report_kept (r r' : memoryActionRecord) : Prop :=
  rec_completedEpoch r <> 0 -> reported r' = reported r.

Record record_moves (gates : list (option CleanupGate)) (r r' : memoryActionRecord) : Prop := {
  moves_cycle : rtc (action_step (evidence gates r)) (cycle r) (cycle r');
  moves_same : same_action r r';
  moves_fence : fence_kept r r';
  moves_cancel : cancel_kept r r';
  moves_report : report_kept r r'
}.

Lemma record_moves_stay gates r r' :
  same_action r r' -> cycle r' = cycle r -> fence_kept r r' -> cancel_kept r r' -> report_kept r r' ->
  record_moves gates r r'.
Proof. intros Hs Hc Hf Hk Hr. constructor; [|done..]. rewrite Hc. apply rtc_refl. Qed.

Lemma record_moves_step gates r r' :
  same_action r r' -> action_step (evidence gates r) (cycle r) (cycle r') -> fence_kept r r' ->
  cancel_kept r r' -> report_kept r r' -> record_moves gates r r'.
Proof. intros Hs Hc Hf Hk Hr. constructor; [|done..]. by apply rtc_once. Qed.

(** The gate's test is the evidence the machine asks for. *)
Lemma requireCredentialTerminal_evidence gates gate r missing u :
  gate ∈ gates -> requireCredentialTerminal gate r missing = Ok u ->
  evidence gates r (ex_LeaseEpoch (rec_execution r)) missing.
Proof.
  intros Hin H Hp. apply Exists_exists. exists gate. split; [done|].
  unfold requireCredentialTerminal in H. rewrite Hp in H. simpl in H.
  destruct gate as [I|]; [|done]. destruct (I _ _) as [[present terminal]|] eqn:Hi; [|done].
  exists I, present, terminal. split_and!; [done|done|]. apply ensure_Ok in H.
  destruct present, terminal, missing; try done; auto.
Qed.

Section queue.
Context (Transform : string -> Result string).

Record record_wf (id : string) (r : memoryActionRecord) : Prop := {
  rwf_id : ex_ExecutionID (rec_execution r) = id;
  (** the metadata is what was submitted, and the execution is bound to it *)
  rwf_submission : validateActionSubmission (rec_submission r) = Ok tt;
  rwf_action : env_ActionID (sub_Envelope (rec_submission r)) = id;
  rwf_target : ex_TargetKey (rec_execution r) = sub_TargetKey (rec_submission r);
  rwf_pool : ex_Pool (rec_execution r) = sub_Pool (rec_submission r);
  rwf_production : ex_Production (rec_execution r) = sub_Production (rec_submission r);
  rwf_hash : RequestSemanticHash Transform (rec_submission r) = Ok (rec_requestHash r);
  rwf_epoch : 0 <= ex_LeaseEpoch (rec_execution r) <= MaxInt64;
  (** a completion is recorded once, for the last epoch *)
  rwf_completed : rec_completedEpoch r <> 0 ->
    rec_completedEpoch r = ex_LeaseEpoch (rec_execution r) /\
    completedStatus (ex_Status (rec_execution r)) = true;
  rwf_status : actionStatus (ex_Status (rec_execution r)) = true;
  (** only a held lease has a token, and it ends with the envelope *)
  rwf_token : actionHeld (ex_Status (rec_execution r)) = false -> ex_LeaseToken (rec_execution r) = ""%string;
  rwf_held : actionHeld (ex_Status (rec_execution r)) = true ->
    ex_LeaseToken (rec_execution r) <> ""%string /\ 0 < ex_LeaseEpoch (rec_execution r) /\
    ex_LeaseExpiresAt (rec_execution r) <= rec_ExpiresAt r;
  (** a result waiting for finalization has its receipt, of this epoch *)
  rwf_finalizing : ex_Status (rec_execution r) = StatusFinalizing ->
    exists receipt, rec_receipt r = Some receipt /\
      receipt_CompletionStatus receipt = ex_CompletionStatus (rec_execution r) /\
      rec_completedEpoch r = ex_LeaseEpoch (rec_execution r) /\
      terminalStatus (ex_CompletionStatus (rec_execution r)) = true /\
      ex_CompletionStatus (rec_execution r) <> StatusCancelled;
  (** production WRITE work is never leased *)
  rwf_write : actionLeaseActive (ex_Status (rec_execution r)) = true ->
    ~ (ex_Pool (rec_execution r) = PoolWrite /\ ex_Production (rec_execution r) = true);
  rwf_reconciled : ex_ReconciliationID (rec_execution r) <> ""%string ->
    ex_Status (rec_execution r) = StatusSucceeded \/ ex_Status (rec_execution r) = StatusFailed
}.

Definition recordKey (r : memoryActionRecord) : string :=
  let envelope := sub_Envelope (rec_submission r) in
  scopeBindingKey (env_WorkspaceID envelope) (env_IdempotencyKey envelope).

Record queue_wf (q : MemoryActionQueue) : Prop := {
  qwf_records : forall id r, queue_records q !! id = Some r -> record_wf id r;
  qwf_order_nodup : NoDup (queue_order q);
  qwf_order : forall id, id ∈ queue_order q <-> is_Some (queue_records q !! id);
  (** the idempotency index is exactly the keys of the records *)
  qwf_idempotency : forall key id,
    queue_idempotency q !! key = Some id <-> exists r, queue_records q !! id = Some r /\ recordKey r = key;
  qwf_exclusive : forall i j ri rj,
    queue_records q !! i = Some ri -> queue_records q !! j = Some rj ->
    actionLeaseActive (ex_Status (rec_execution ri)) = true ->
    actionLeaseActive (ex_Status (rec_execution rj)) = true ->
    ex_TargetKey (rec_execution ri) = ex_TargetKey (rec_execution rj) -> i = j;
  qwf_reconciliation : forall i j ri rj,
    queue_records q !! i = Some ri -> queue_records q !! j = Some rj ->
    ex_ReconciliationID (rec_execution ri) <> ""%string ->
    ex_ReconciliationID (rec_execution ri) = ex_ReconciliationID (rec_execution rj) -> i = j
}.

(** What a handler may do to one record. *)
Record record_update (q : MemoryActionQueue) (id : string) (r r' : memoryActionRecord) : Prop := {
  upd_submission : rec_submission r' = rec_submission r;
  upd_hash : rec_requestHash r' = rec_requestHash r;
  upd_wf : record_wf id r -> record_wf id r';
  upd_target : ex_TargetKey (rec_execution r') = ex_TargetKey (rec_execution r);
  upd_active : actionLeaseActive (ex_Status (rec_execution r')) = true ->
    actionLeaseActive (ex_Status (rec_execution r)) = true \/
    targetActive q (ex_TargetKey (rec_execution r)) id = false;
  upd_reconciliation : ex_ReconciliationID (rec_execution r') <> ""%string ->
    ex_ReconciliationID (rec_execution r') = ex_ReconciliationID (rec_execution r) \/
    actionReconciliationIDTaken q id (ex_ReconciliationID (rec_execution r')) = false
}.

Lemma targetActive_false q tk id :
  targetActive q tk id = false ->
  forall j rj, j <> id -> queue_records q !! j = Some rj -> ex_TargetKey (rec_execution rj) = tk ->
    actionLeaseActive (ex_Status (rec_execution rj)) = false.
Proof.
  unfold targetActive. rewrite existsb_map_false. intros H j rj Hj Hrj Htk.
  specialize (H j rj Hrj). cbv beta iota in H.
  by rewrite Htk, (eqb_same tk), (proj2 (eqb_false j id)) in H.
Qed.

Lemma actionReconciliationIDTaken_false q id rid :
  actionReconciliationIDTaken q id rid = false ->
  forall j rj, j <> id -> queue_records q !! j = Some rj -> ex_ReconciliationID (rec_execution rj) <> rid.
Proof.
  unfold actionReconciliationIDTaken. rewrite existsb_map_false. intros H j rj Hj Hrj.
  specialize (H j rj Hrj). cbv beta iota in H.
  rewrite (proj2 (eqb_false j id)) in H by done. by apply eqb_false_1.
Qed.

Lemma putRecord_wf q id r r' :
  queue_wf q -> queue_records q !! id = Some r -> record_update q id r r' -> queue_wf (putRecord id r' q).
Proof.
  intros [Hr Hnd Ho Hi Hx Hc] Hid [Hsub Hh Hwf Htk Hact Hrec]. constructor; simpl.
  - intros j rj [[<- <-]|[? Hj]]%lookup_insert_Some; eauto.
  - done.
  - intros j. rewrite Ho. destruct (decide (j = id)) as [->|]; [|by rewrite lookup_insert_ne].
    rewrite lookup_insert_eq, Hid. split; eauto.
  - intros key j. rewrite Hi. unfold recordKey. destruct (decide (j = id)) as [->|].
    + rewrite Hid, lookup_insert_eq. split; intros (? & [= <-] & <-); eexists; (split; [done|]); by rewrite ?Hsub.
    + by rewrite lookup_insert_ne.
  - intros i j ri rj [[<- <-]|[? Hri]]%lookup_insert_Some [[<- <-]|[? Hrj]]%lookup_insert_Some ?? Ht; try done.
    + destruct Hact as [?|Hfree]; [done|..].
      * eapply Hx; [apply Hid|apply Hrj|..]; congruence.
      * pose proof (targetActive_false _ _ _ Hfree j rj). naive_solver congruence.
    + destruct Hact as [?|Hfree]; [done|..].
      * eapply Hx; [apply Hri|apply Hid|..]; congruence.
      * pose proof (targetActive_false _ _ _ Hfree i ri). naive_solver congruence.
    + eauto.
  - intros i j ri rj [[<- <-]|[? Hri]]%lookup_insert_Some [[<- <-]|[? Hrj]]%lookup_insert_Some Hne Heq; try done.
    + destruct Hrec as [?|Hfree]; [done|..].
      * eapply Hc; [apply Hid|apply Hrj|..]; congruence.
      * pose proof (actionReconciliationIDTaken_false _ _ _ Hfree j rj). naive_solver congruence.
    + destruct Hrec as [?|Hfree]; [congruence|..].
      * eapply Hc; [apply Hri|apply Hid|..]; congruence.
      * pose proof (actionReconciliationIDTaken_false _ _ _ Hfree i ri). naive_solver congruence.
    + eauto.
Qed.
(** ** The updates *)

Ltac rewrite_status :=
  repeat match goal with H : ex_Status ?e = ?s |- _ =>
    match goal with |- context [ex_Status e] => rewrite H | H' : context [ex_Status e] |- _ =>
      lazymatch H' with H => fail | _ => rewrite H in H' end end end.

Ltac update_record :=
  constructor; simpl; try done; try (by auto);
  lazymatch goal with
  | |- record_wf _ _ -> record_wf _ _ =>
      intros []; constructor; unfold rec_ExpiresAt, setExecution in *; simpl in *; rewrite_status; auto;
      try done; try lia;
      try (intros Hne;
           match goal with
           | H : _ -> _ = StatusSucceeded \/ _ = StatusFailed |- _ => by destruct (H Hne)
           | H : rec_completedEpoch _ <> 0 -> _ |- _ => by destruct (H Hne)
           end)
  | _ => rewrite_status; try done; try (by auto)
  end.

Lemma started_update q id r now :
  ex_Status (rec_execution r) = StatusLeased ->
  record_update q id r (setExecution r (actionStartedExecution now (rec_execution r))).
Proof. intros Hs. update_record. Qed.

Lemma cappedExpiry_le expiresAt now d : cappedExpiry expiresAt now d <= expiresAt.
Proof. unfold cappedExpiry, Before, Add. destruct (_ <? _) eqn:?; guards; lia. Qed.

Lemma beatenExecution_fields request now r :
  let e := rec_execution r in
  let e' := beatenExecution request now r in
  ex_ExecutionID e' = ex_ExecutionID e /\ ex_TargetKey e' = ex_TargetKey e /\ ex_Pool e' = ex_Pool e /\
  ex_Production e' = ex_Production e /\ ex_Status e' = ex_Status e /\ ex_LeaseToken e' = ex_LeaseToken e /\
  ex_LeaseEpoch e' = ex_LeaseEpoch e /\ ex_CompletionStatus e' = ex_CompletionStatus e /\
  ex_ReconciliationID e' = ex_ReconciliationID e /\ ex_RunnerID e' = ex_RunnerID e /\
  ex_HeartbeatSeq e' = ahb_Sequence request /\ ex_CancelRequestedAt e' = ex_CancelRequestedAt e /\
  ex_CreatedAt e' = ex_CreatedAt e /\
  ex_LeaseExpiresAt e' =
    if IsZero (ex_CancelRequestedAt e) then cappedExpiry (rec_ExpiresAt r) now (ahb_Extension request)
    else ex_LeaseExpiresAt e.
Proof. unfold beatenExecution. cbv zeta. simpl. destruct (IsZero _); repeat split. Qed.

Lemma beaten_update q id r request now :
  record_update q id r (setExecution r (beatenExecution request now r)).
Proof.
  pose proof (beatenExecution_fields request now r) as
    (Hid & Htk & Hp & Hpr & Hs & Ht & He & Hc & Hrc & _ & _ & _ & _ & Hx).
  set (e' := beatenExecution request now r) in *. clearbody e'.
  constructor; simpl; rewrite ?Hs, ?Htk, ?Hrc; auto.
  intros []. constructor; unfold rec_ExpiresAt in *; simpl in *; rewrite ?Hid, ?Htk, ?Hp, ?Hpr, ?Hs, ?Ht, ?He, ?Hc, ?Hrc;
    auto. intros (? & ? & ?)%rwf_held0. split_and!; auto. rewrite Hx.
  destruct (IsZero _); [apply cappedExpiry_le|done].
Qed.

Lemma finalizing_update q id r status receipt lease now :
  ex_Status (rec_execution r) = StatusRunning -> lease_Epoch lease = ex_LeaseEpoch (rec_execution r) ->
  receipt_CompletionStatus receipt = status ->
  status = StatusSucceeded \/ status = StatusFailed \/ status = StatusUncertain ->
  record_update q id r (finalizingRecord status receipt lease now r).
Proof.
  intros Hs He Hr Hst. update_record. intros _. exists receipt.
  split_and!; auto; by destruct Hst as [-> |[-> | ->]].
Qed.

Lemma finalized_update q id r now :
  ex_Status (rec_execution r) = StatusFinalizing ->
  record_update q id r (setExecution r (finalizedExecution now (rec_execution r))).
Proof.
  intros Hs. constructor; simpl; auto; [|rewrite Hs; auto].
  intros []. constructor; simpl; auto; rewrite Hs in *; destruct (rwf_finalizing0 eq_refl) as (? & _ & _ & _ & Ht & Hn);
    unfold terminalStatus in Ht;
    repeat match goal with H : _ || _ = true |- _ => apply orb_true_iff in H as [H|H] end; guards;
    match goal with H : ex_CompletionStatus _ = _ |- _ => rewrite H in * end; auto; try done.
  all: intros Hne; by destruct (rwf_reconciled0 Hne).
Qed.

Lemma rejected_update q id r hash lease now :
  ex_Status (rec_execution r) = StatusLeased -> 0 <= lease_Epoch lease ->
  lease_Epoch lease = ex_LeaseEpoch (rec_execution r) ->
  record_update q id r (rejectedRecord hash lease now r).
Proof. intros Hs Hpos He. update_record. Qed.

Lemma nacked_update q id r request now :
  ex_Status (rec_execution r) = StatusLeased ->
  record_update q id r (nackedRecord request now r).
Proof. intros Hs. update_record. Qed.

Lemma requeued_update q id r now :
  ex_Status (rec_execution r) = StatusLeased ->
  record_update q id r (let released := releasedExecution (rec_execution r) in
    {| r with rec_execution := {| released with ex_UpdatedAt := now |}; rec_notBefore := Time_zero |}).
Proof. intros Hs. update_record. Qed.

Lemma lost_update q id r now :
  ex_Status (rec_execution r) = StatusRunning ->
  record_update q id r (setExecution r (lostExecution now (rec_execution r))).
Proof. intros Hs. update_record. Qed.

Lemma reconciled_update q id r request now :
  ex_Status (rec_execution r) = StatusUncertain ->
  reconcile_Status request = StatusSucceeded \/ reconcile_Status request = StatusFailed ->
  actionReconciliationIDTaken q id (reconcile_ReconciliationID request) = false ->
  record_update q id r (setExecution r (actionReconciledExecution request now (rec_execution r))).
Proof.
  intros Hs Hst Hfree. constructor; simpl; auto; [|by destruct Hst as [-> | ->]].
  intros []. rewrite Hs in *. constructor; simpl; auto; destruct Hst as [-> | ->]; auto; done.
Qed.

Lemma cancelRequested_update q id r now :
  record_update q id r (setExecution r (cancelRequestedExecution now (rec_execution r))).
Proof. constructor; simpl; auto. intros []. constructor; simpl; auto. Qed.

Lemma cancelled_update q id r now :
  ex_Status (rec_execution r) = StatusLeased \/ ex_Status (rec_execution r) = StatusQueued ->
  record_update q id r (setExecution r (actionCancelledExecution now (rec_execution r))).
Proof. intros [Hs|Hs]; update_record. Qed.

Lemma leased_update q id r request checked now token :
  actionClaimSkips q request checked r = false -> record_wf id r ->
  ex_LeaseEpoch (rec_execution r) <> MaxInt64 -> token <> ""%string ->
  record_update q id r (setExecution r (actionLeasedExecution request now token r)).
Proof.
  unfold actionClaimSkips. intros Hsk Hwf Hmax Htok. guards.
  pose proof (rwf_id _ _ Hwf) as Hid.
  constructor; simpl; auto.
  - intros []. constructor; simpl; auto; try lia; try done.
    + intros Hne. destruct (rwf_completed0 Hne) as [_ Hc]. rewrite H in Hc. done.
    + intros _. split_and!; [done|lia|apply cappedExpiry_le].
    + intros _ [Hp Hq]. match goal with H : _ && _ = false |- _ => rewrite Hp, Hq in H end. done.
    + intros Hne. rewrite H in *. by destruct (rwf_reconciled0 Hne).
  - intros _. right. by rewrite <- Hid.
Qed.

(** ** Changes: what a handler does to the queue *)

Inductive queue_change (gates : list (option CleanupGate)) : MemoryActionQueue -> MemoryActionQueue -> Prop :=
| change_record q id r r' :
    queue_records q !! id = Some r -> record_update q id r r' -> record_moves gates r r' ->
    queue_change gates q (putRecord id r' q)
| change_submit q submission hash now :
    validateActionSubmission submission = Ok tt -> RequestSemanticHash Transform submission = Ok hash ->
    let r := submittedRecord submission hash now in
    let id := env_ActionID (sub_Envelope submission) in
    queue_records q !! id = None -> queue_idempotency q !! recordKey r = None ->
    queue_change gates q
      {| queue_records := <[id := r]> (queue_records q);
         queue_idempotency := <[recordKey r := id]> (queue_idempotency q);
         queue_order := queue_order q ++ [id] |}.

Ltac move_step :=
  apply record_moves_step; [by repeat split| |by repeat split; auto|
    unfold cancel_kept; simpl; rewrite_status; try done; auto|];
  unfold cycle, setExecution; simpl; rewrite_status.

(** No completion is recorded before the runner reports. *)
Lemma unreported id r :
  record_wf id r -> completedStatus (ex_Status (rec_execution r)) = false -> forall r', report_kept r r'.
Proof. intros Hr Hs r' Hne. destruct (rwf_completed _ _ Hr Hne) as [_ ?]. congruence. Qed.

Lemma actionHeld_unreported status : actionHeld status = true -> completedStatus status = false.
Proof.
  unfold actionHeld. intros [->%eqb_true_1| ->%eqb_true_1]%orb_true_iff; done.
Qed.

Section moves.
Context (gates : list (option CleanupGate)) (now : Time) (id : string) (r : memoryActionRecord).
Hypothesis Hr : record_wf id r.

Lemma started_moves :
  ex_Status (rec_execution r) = StatusLeased ->
  record_moves gates r (setExecution r (actionStartedExecution now (rec_execution r))).
Proof. intros Hs. move_step; [constructor|done]. Qed.

Lemma beaten_moves request :
  actionHeld (ex_Status (rec_execution r)) = true ->
  record_moves gates r (setExecution r (beatenExecution request now r)).
Proof.
  intros Hs. pose proof (beatenExecution_fields request now r) as
    (Hid & Htk & Hp & Hpr & Hst & Ht & He & Hc & Hrc & Hru & _ & Hca & Hcr & Hx).
  set (e' := beatenExecution request now r) in *. clearbody e'.
  apply record_moves_stay; [by repeat split|unfold cycle; simpl; congruence|intros _; simpl; auto|..].
  - intros _ _. split; [done|]. intros Hne%Z.eqb_neq. simpl. rewrite Hx, Hca. unfold IsZero. by rewrite Hne.
  - eapply unreported; [done|]. by apply actionHeld_unreported.
Qed.

Lemma finalizing_moves status receipt lease :
  ex_Status (rec_execution r) = StatusRunning -> lease_Epoch lease = ex_LeaseEpoch (rec_execution r) ->
  ex_LeaseToken (rec_execution r) = lease_Token lease -> lease_Token lease <> ""%string ->
  record_moves gates r (finalizingRecord status receipt lease now r).
Proof.
  intros Hs He Ht Hne. apply record_moves_step; [by repeat split| | |by intros ? ?|].
  - unfold cycle. simpl. rewrite Hs. constructor.
  - intros _. simpl. rewrite Ht. auto 10.
  - eapply unreported; [done|]. by rewrite Hs.
Qed.

Lemma finalized_moves :
  ex_Status (rec_execution r) = StatusFinalizing ->
  terminalStatus (ex_CompletionStatus (rec_execution r)) = true ->
  ex_CompletionStatus (rec_execution r) <> StatusCancelled ->
  (releasesTargetLock (ex_CompletionStatus (rec_execution r)) = true ->
   evidence gates r (ex_LeaseEpoch (rec_execution r)) false) ->
  record_moves gates r (setExecution r (finalizedExecution now (rec_execution r))).
Proof.
  intros Hs Ht Hc Hev. unfold terminalStatus in Ht.
  repeat match goal with H : _ || _ = true |- _ => apply orb_true_iff in H as [H|H] end; guards; try done;
    (apply record_moves_step; [by repeat split| |by repeat split; auto| |done];
     [unfold cycle|unfold cancel_kept]; simpl; rewrite ?Hs;
     match goal with H : ex_CompletionStatus _ = _ |- _ => rewrite H in * end; try done; constructor; by apply Hev).
Qed.

Lemma rejected_moves hash lease :
  ex_Status (rec_execution r) = StatusLeased -> lease_Epoch lease = ex_LeaseEpoch (rec_execution r) ->
  ex_LeaseToken (rec_execution r) = lease_Token lease -> lease_Token lease <> ""%string ->
  evidence gates r (ex_LeaseEpoch (rec_execution r)) true ->
  record_moves gates r (rejectedRecord hash lease now r).
Proof.
  intros Hs He Ht Hne Hev. apply record_moves_step; [by repeat split| | |by intros ? ?|].
  - unfold cycle. simpl. rewrite Hs. by constructor.
  - intros _. simpl. rewrite Ht. auto 10.
  - eapply unreported; [done|]. by rewrite Hs.
Qed.

Lemma nacked_moves request :
  ex_Status (rec_execution r) = StatusLeased ->
  evidence gates r (ex_LeaseEpoch (rec_execution r)) true ->
  record_moves gates r (nackedRecord request now r).
Proof. intros Hs Hev. move_step; [by constructor|eapply unreported; [done|]; by rewrite Hs]. Qed.

Lemma requeued_moves :
  ex_Status (rec_execution r) = StatusLeased ->
  evidence gates r (ex_LeaseEpoch (rec_execution r)) true ->
  record_moves gates r (let released := releasedExecution (rec_execution r) in
    {| r with rec_execution := {| released with ex_UpdatedAt := now |}; rec_notBefore := Time_zero |}).
Proof. intros Hs Hev. move_step; [by constructor|eapply unreported; [done|]; by rewrite Hs]. Qed.

Lemma lost_moves :
  ex_Status (rec_execution r) = StatusRunning ->
  record_moves gates r (setExecution r (lostExecution now (rec_execution r))).
Proof. intros Hs. move_step; [constructor|eapply unreported; [done|]; by rewrite Hs]. Qed.

Lemma reconciled_moves request :
  ex_Status (rec_execution r) = StatusUncertain ->
  reconcile_Status request = StatusSucceeded \/ reconcile_Status request = StatusFailed ->
  evidence gates r (ex_LeaseEpoch (rec_execution r)) false ->
  record_moves gates r (setExecution r (actionReconciledExecution request now (rec_execution r))).
Proof.
  intros Hs Hst Hev. apply record_moves_step; [by repeat split| |by repeat split; auto| |done].
  - unfold cycle. simpl. rewrite Hs. destruct Hst as [-> | ->]; by constructor.
  - intros _. simpl. by destruct Hst as [-> | ->].
Qed.

Lemma cancelRequested_moves :
  ex_CancelRequestedAt (rec_execution r) = 0 ->
  record_moves gates r (setExecution r (cancelRequestedExecution now (rec_execution r))).
Proof. intros Hz. apply record_moves_stay; [by repeat split|done|by repeat split; auto|by split|done]. Qed.

Lemma cancelled_moves :
  (ex_Status (rec_execution r) = StatusLeased /\
   evidence gates r (ex_LeaseEpoch (rec_execution r)) true \/
   ex_Status (rec_execution r) = StatusQueued) ->
  record_moves gates r (setExecution r (actionCancelledExecution now (rec_execution r))).
Proof.
  intros [[Hs Hev]|Hs]; (move_step; [by constructor|eapply unreported; [done|]; by rewrite Hs]).
Qed.

Lemma leased_moves request token :
  ex_Status (rec_execution r) = StatusQueued ->
  record_moves gates r (setExecution r (actionLeasedExecution request now token r)).
Proof.
  intros Hs.
  apply record_moves_step; [by repeat split| |intros He; simpl in He; lia|intros He; simpl in He; lia|].
  - unfold cycle. simpl. rewrite Hs. constructor.
  - eapply unreported; [done|]. by rewrite Hs.
Qed.
End moves.

Lemma submit_wf q submission hash now :
  queue_wf q ->
  validateActionSubmission submission = Ok tt -> RequestSemanticHash Transform submission = Ok hash ->
  let r := submittedRecord submission hash now in
  let id := env_ActionID (sub_Envelope submission) in
  queue_records q !! id = None -> queue_idempotency q !! recordKey r = None ->
  queue_wf {| queue_records := <[id := r]> (queue_records q);
              queue_idempotency := <[recordKey r := id]> (queue_idempotency q);
              queue_order := queue_order q ++ [id] |}.
Proof.
  intros [Hr Hnd Ho Hi Hx Hc] Hv Hh r id Hid Hkey. constructor; simpl.
  - intros j rj [[<- <-]|[? Hj]]%lookup_insert_Some; [|by auto].
    constructor; simpl; auto; try done; unfold MaxInt64; try lia.
  - apply NoDup_app. split_and!; [done| |apply NoDup_singleton].
    intros j Hj ->%list_elem_of_singleton. apply Ho in Hj as [? Hj]. congruence.
  - intros j. rewrite elem_of_app, list_elem_of_singleton, Ho.
    destruct (decide (j = id)) as [->|]; [rewrite lookup_insert_eq|rewrite lookup_insert_ne by done]; naive_solver.
  - intros key j. destruct (decide (j = id)) as [->|].
    + rewrite lookup_insert_eq. split.
      * intros [[<- _]|[Hne Hk]]%lookup_insert_Some; [by eauto|].
        apply Hi in Hk as (r' & Hr' & _). congruence.
      * intros (? & [= <-] & <-). by rewrite lookup_insert_eq.
    + rewrite (lookup_insert_ne (queue_records q)) by done. rewrite <- Hi. split.
      * intros [[_ ?]|[_ ?]]%lookup_insert_Some; [congruence|done].
      * intros Hk. rewrite lookup_insert_ne; [done|]. intros <-. congruence.
  - intros i j ri rj [[<- <-]|[? Hri]]%lookup_insert_Some [[<- <-]|[? Hrj]]%lookup_insert_Some ?? Ht;
      try done; eauto.
  - intros i j ri rj [[<- <-]|[? Hri]]%lookup_insert_Some [[<- <-]|[? Hrj]]%lookup_insert_Some Hne Heq;
      try done; eauto.
Qed.

Lemma queue_change_wf gates q q' : queue_change gates q q' -> queue_wf q -> queue_wf q'.
Proof. intros [] Hq; eauto using putRecord_wf, submit_wf. Qed.

Lemma rtc_queue_change_wf gates q q' : rtc (queue_change gates) q q' -> queue_wf q -> queue_wf q'.
Proof. induction 1; eauto using queue_change_wf. Qed.

(** *** Expiry *)

Lemma succeeds_Ok r : succeeds r = true -> exists u, r = Ok u.
Proof. destruct r; [by eauto|done]. Qed.

Lemma expireRecord_change gates gate now q id r r' :
  gate ∈ gates -> queue_wf q -> queue_records q !! id = Some r -> expireRecord gate now r = Some r' ->
  queue_change gates q (putRecord id r' q).
Proof.
  intros Hg Hq Hid Hx. pose proof (qwf_records _ Hq id r Hid) as Hr. unfold expireRecord in Hx.
  destruct (_ == StatusFinalizing) eqn:Hs; guards.
  - destruct (rwf_finalizing _ _ Hr Hs) as (receipt & Hrc & Heq & _ & Ht & Hc). rewrite Hrc in Hx.
    destruct (_ || _); [done|].
    destruct (releasesTargetLock _) eqn:Hrel; simpl in Hx;
      [destruct (succeeds _) eqn:Hok; simpl in Hx; [|done]|]; simplify_eq;
      (eapply change_record; [done|by apply finalized_update|apply finalized_moves; auto]).
    + intros _. apply succeeds_Ok in Hok as [u Hok]. eauto using requireCredentialTerminal_evidence.
    + congruence.
  - destruct (_ || _); [done|]. destruct (ex_Status (rec_execution r)) eqn:Hst; try done.
    + destruct (succeeds _) eqn:Hok; simpl in Hx; [|done]. apply succeeds_Ok in Hok as [u Hok]. simplify_eq.
      eapply change_record; [done|by apply requeued_update|eapply requeued_moves; [done|done|]].
      eauto using requireCredentialTerminal_evidence.
    + simplify_eq. eapply change_record; [done|by apply lost_update|by eapply lost_moves].
Qed.

Lemma expireLocked_changes gates gate ids now q :
  gate ∈ gates -> queue_wf q -> rtc (queue_change gates) q (expireLocked_over ids gate now q).
Proof.
  intros Hg. unfold expireLocked_over. revert q. induction ids as [|id ids IH]; intros q Hq; [apply rtc_refl|].
  simpl. assert (rtc (queue_change gates) q (expireLocked_body gate now q id)) as Hb.
  { unfold expireLocked_body. destruct (queue_records q !! id) as [r|] eqn:Hid; [|apply rtc_refl].
    destruct (expireRecord gate now r) as [r'|] eqn:Hx; [|apply rtc_refl].
    eapply rtc_once, expireRecord_change; eauto. }
  etrans; [exact Hb|]. apply IH. by eapply rtc_queue_change_wf.
Qed.

(** *** Handlers *)

Definition call_gates (call : QueueCall) : list (option CleanupGate) :=
  match call with
  | QClaim _ _ gate _ _ | QFinalize _ _ gate _ | QReject _ _ gate _ | QNack _ _ gate _
  | QSweepExpired _ _ gate | QGet _ _ gate _ => [gate]
  | QReconcile _ _ gate gate' _ | QCancel _ _ gate gate' _ => [gate; gate']
  | QSubmit _ _ _ | QStart _ _ _ | QHeartbeat _ _ _ | QComplete _ _ _ => []
  end.

Lemma expireLocked_all_changes gates gate now q :
  gate ∈ gates -> queue_wf q ->
  rtc (queue_change gates) q (expireLocked gate now q) /\ queue_wf (expireLocked gate now q).
Proof.
  intros Hg Hq. assert (rtc (queue_change gates) q (expireLocked gate now q)) as Hx
    by by apply expireLocked_changes.
  split; [done|]. by eapply rtc_queue_change_wf.
Qed.

Ltac queue_wp := intros; unfold queue_now; repeat (wp_step; try apply rtc_refl); guards.

(** One change of the record the handler looked up. *)
Ltac one_change :=
  eapply rtc_once, change_record; [eassumption|..].

Lemma currentActionFence_true e fence now :
  currentActionFence e fence now = true ->
  ex_ExecutionID e = lease_ExecutionID fence /\ ex_RunnerID e = lease_RunnerID fence /\
  ex_LeaseToken e = lease_Token fence /\ ex_LeaseEpoch e = lease_Epoch fence.
Proof. unfold currentActionFence, sameActionFence. intros. guards. auto. Qed.

Lemma validActionFence_true fence :
  validActionFence fence = true -> 0 < lease_Epoch fence /\ lease_Token fence <> ""%string.
Proof. unfold validActionFence. intros. guards. eauto using validIdentifier_nonempty. Qed.

Lemma actionClaimSkips_known q request now id :
  actionClaimSkips q request now (default record_zero (queue_records q !! id)) = false ->
  exists r, queue_records q !! id = Some r /\ actionClaimSkips q request now r = false /\
    ex_Status (rec_execution r) = StatusQueued.
Proof.
  intros H. destruct (queue_records q !! id) as [r|] eqn:Hr; simpl in H.
  - exists r. split_and!; [done|done|]. unfold actionClaimSkips in H. guards. done.
  - unfold actionClaimSkips in H. guards. done.
Qed.

Lemma claimLoop_changes gates request source ids n now q :
  queue_wf q ->
  wp (actionClaimLoop request source n now ids) (fun _ q' => rtc (queue_change gates) q q') q.
Proof.
  intros Hq. revert n now. induction ids as [|id ids IH]; intros n now; simpl; [wp_step; apply rtc_refl|].
  wp_step. wp_step. wp_step; [apply IH|].
  match goal with H : actionClaimSkips _ _ _ _ = false |- _ =>
    destruct (actionClaimSkips_known _ _ _ _ H) as (r & Hr & Hsk & Hs) end.
  rewrite Hr. simpl. repeat (wp_step; try apply rtc_refl); unfold queue_now in *.
  repeat (wp_step; try apply rtc_refl); [by apply IH|]. guards. one_change.
  - eapply leased_update; eauto using qwf_records, validIdentifier_nonempty.
  - eapply leased_moves; eauto using qwf_records.
Qed.

Lemma Claim_changes err clock gate source request q :
  queue_wf q ->
  wp (ActionQueue_Claim err clock gate source request) (fun _ q' => rtc (queue_change [gate]) q q') q.
Proof.
  intros Hq. destruct (expireLocked_all_changes [gate] gate clock q) as [Hx Hq']; [set_solver|done|].
  unfold ActionQueue_Claim. queue_wp; [|done].
  eapply wp_mono; [|by apply claimLoop_changes]. intros ? q'' H'. etrans; [exact Hx|exact H'].
Qed.

Lemma completedBy_known r lease :
  completedBy r lease = true ->
  rec_completedEpoch r = lease_Epoch lease /\ rec_completedTokenHash r = hashLeaseToken (lease_Token lease) /\
  ex_RunnerID (rec_execution r) = lease_RunnerID lease /\ ex_ReconciliationID (rec_execution r) = ""%string.
Proof. unfold completedBy. intros. guards. auto. Qed.

Lemma terminal_cases r id :
  record_wf id r -> Execution_Terminal (rec_execution r) = false ->
  ex_Status (rec_execution r) <> StatusFinalizing -> ex_Status (rec_execution r) <> StatusRunning ->
  ex_Status (rec_execution r) = StatusLeased \/ ex_Status (rec_execution r) = StatusQueued.
Proof.
  intros Hr%rwf_status Ht Hf Hn. unfold Execution_Terminal, terminalStatus, actionStatus, actionLeaseActive,
    releasesTargetLock in *. guards.
  repeat match goal with H : _ || _ = true |- _ => apply orb_true_iff in H as [H|H] end; guards; auto; done.
Qed.

Lemma BuildRunnerResultReceipt_status claimed request status now receipt :
  BuildRunnerResultReceipt Transform claimed request status now = Ok receipt ->
  receipt_CompletionStatus receipt = status.
Proof.
  unfold BuildRunnerResultReceipt, buildRunnerResultReceipt. intros (? & _ & H)%Result_bind_Ok.
  apply Result_bind_Ok in H as (? & _ & H). by injection H as <-.
Qed.

Lemma ResultSummaryStatus_cases summary status :
  ResultSummaryStatus summary = Ok status ->
  status = StatusSucceeded \/ status = StatusFailed \/ status = StatusUncertain.
Proof. unfold ResultSummaryStatus. destruct (negb _); [done|]. destruct (result_Outcome _); naive_solver. Qed.

Lemma Complete_changes err clock request q :
  queue_wf q ->
  wp (ActionQueue_Complete Transform err clock request) (fun _ q' => rtc (queue_change []) q q') q.
Proof.
  intros Hq. unfold ActionQueue_Complete. queue_wp.
  match goal with H : currentActionFence _ _ _ = true |- _ => apply currentActionFence_true in H as (?&?&?&?) end.
  destruct (ResultSummaryStatus _) as [status|] eqn:Hst; [|done].
  destruct (validActionFence _) eqn:Hf; [|done]. simplify_eq.
  apply validActionFence_true in Hf as [??]. one_change.
  - apply finalizing_update; eauto using BuildRunnerResultReceipt_status, ResultSummaryStatus_cases.
  - eapply finalizing_moves; eauto using qwf_records.
Qed.

Lemma run_queue_changes call q :
  queue_wf q ->
  wp (run_queue Transform call) (fun _ q' => rtc (queue_change (call_gates call)) q q') q.
Proof.
  intros Hq. destruct call; simpl.
  - unfold ActionQueue_Submit. queue_wp. eapply rtc_once, change_submit; eauto.
    by match goal with H : unit |- _ => destruct H end.
  - wp_step. eapply wp_mono; [|by apply Claim_changes]. intros [?|?] ? ?; [wp_step|]; done.
  - unfold ActionQueue_Start. queue_wp. one_change; auto using started_update, started_moves.
  - unfold ActionQueue_Heartbeat. queue_wp. one_change; [apply beaten_update|].
    eapply beaten_moves; eauto using qwf_records.
  - by apply Complete_changes.
  - unfold ActionQueue_Finalize. queue_wp.
    match goal with H : queue_records q !! _ = Some ?r |- _ =>
      destruct (rwf_finalizing _ _ (qwf_records _ Hq _ _ H)) as (receipt & _ & _ & _ & Ht & Hc); [done|] end.
    one_change; [by apply finalized_update|apply finalized_moves; auto]. intros Hrel. rewrite Hrel in *.
    eapply requireCredentialTerminal_evidence; [|eassumption]; set_solver.
  - unfold ActionQueue_Reject. queue_wp.
    match goal with H : currentActionFence _ _ _ = true |- _ => apply currentActionFence_true in H as (?&?&?&?) end.
    match goal with H : validActionFence _ = true |- _ => apply validActionFence_true in H as [??] end.
    one_change; [apply rejected_update; auto; lia|eapply rejected_moves; eauto using qwf_records].
    eapply requireCredentialTerminal_evidence; [|eassumption]; set_solver.
  - unfold ActionQueue_Nack. queue_wp. one_change; [by apply nacked_update|eapply nacked_moves; eauto using qwf_records].
    eapply requireCredentialTerminal_evidence; [|eassumption]; set_solver.
  - destruct (expireLocked_all_changes [gate; gate'] gate clock q) as [Hx Hq']; [set_solver|done|].
    unfold ActionQueue_Reconcile. queue_wp; try done. etrans; [exact Hx|].
    assert (reconcile_Status request = StatusSucceeded \/ reconcile_Status request = StatusFailed)
      by (repeat match goal with H : _ || _ = true |- _ => apply orb_true_iff in H as [H|H] end; guards; auto).
    one_change; [by apply reconciled_update|apply reconciled_moves; auto].
    eapply requireCredentialTerminal_evidence; [|eassumption]; set_solver.
  - destruct (expireLocked_all_changes [gate; gate'] gate clock q) as [Hx Hq']; [set_solver|done|].
    unfold ActionQueue_Cancel. queue_wp; try done; (etrans; [exact Hx|]).
    + one_change; [apply cancelRequested_update|apply cancelRequested_moves]. by apply Z.eqb_eq.
    + match goal with H : queue_records _ !! _ = Some ?r |- _ =>
        pose proof (terminal_cases _ _ (qwf_records _ Hq' _ _ H)) as Hcases end.
      one_change; [by apply cancelled_update, Hcases|eapply cancelled_moves; [by eauto using qwf_records|]].
      destruct Hcases as [Hs|Hs]; auto. left. split; [done|].
      match goal with H : (if _ then _ else _) = Ok _ |- _ => rewrite Hs, eqb_same in H end.
      eapply requireCredentialTerminal_evidence; [|eassumption]; set_solver.
  - destruct (expireLocked_all_changes [gate] gate clock q) as [Hx Hq']; [set_solver|done|].
    unfold ActionQueue_SweepExpired. queue_wp; done.
  - destruct (expireLocked_all_changes [gate] gate clock q) as [Hx Hq']; [set_solver|done|].
    unfold ActionQueue_Get. queue_wp; done.
Qed.

Lemma run_queue_wf call q : queue_wf q -> queue_wf (run_queue Transform call q).2.
Proof. intros Hq. eapply rtc_queue_change_wf; [by apply (run_queue_changes call q)|done]. Qed.

Lemma rtc_queue_step_wf q q' : queue_wf q -> rtc (queue_step Transform) q q' -> queue_wf q'.
Proof. intros Hq H. induction H as [|q ? ? [call <-] _ IH]; [done|]. by apply IH, run_queue_wf. Qed.

Lemma initial_queue_wf clock q : NewMemoryActionQueue clock = Ok q -> queue_wf q.
Proof.
  unfold NewMemoryActionQueue. destruct (IsZero clock); [done|]. intros [= <-].
  constructor; simpl; try (by intros; simplify_map_eq); [apply NoDup_nil_2|..].
  - intros id. rewrite lookup_empty. split; [by intros ?%elem_of_nil|by intros [??]].
  - intros key id. rewrite lookup_empty. split; [done|]. intros (r & Hr & _). by rewrite lookup_empty in Hr.
Qed.

Lemma queue_reachable_wf q : queue_reachable Transform q -> queue_wf q.
Proof. intros (clock & initial & Hi & Hs). eauto using rtc_queue_step_wf, initial_queue_wf. Qed.
End queue.

(** ** Records over time *)

Lemma action_step_epoch ev p p' : action_step ev p p' -> p.2 <= p'.2.
Proof. destruct 1; simpl; lia. Qed.

Lemma rtc_action_step_epoch ev p p' : rtc (action_step ev) p p' -> p.2 <= p'.2.
Proof. induction 1 as [|??? H%action_step_epoch _ IH]; lia. Qed.

Lemma action_step_mono (ev ev' : Z -> bool -> Prop) p p' :
  (forall n b, ev n b -> ev' n b) -> action_step ev p p' -> action_step ev' p p'.
Proof. intros H. destruct 1; constructor; auto. Qed.

Lemma rtc_action_step_mono (ev ev' : Z -> bool -> Prop) p p' :
  (forall n b, ev n b -> ev' n b) -> rtc (action_step ev) p p' -> rtc (action_step ev') p p'.
Proof. intros H. induction 1; [apply rtc_refl|]. eapply rtc_l; eauto using action_step_mono. Qed.

Lemma same_action_refl r : same_action r r.
Proof. by repeat split. Qed.

Lemma same_action_trans r1 r2 r3 : same_action r1 r2 -> same_action r2 r3 -> same_action r1 r3.
Proof. intros (?&?&?&?&?&?&?) (?&?&?&?&?&?&?). repeat split; congruence. Qed.

Lemma fence_kept_refl r : fence_kept r r.
Proof. intros _. auto. Qed.

Lemma fence_kept_trans r1 r2 r3 :
  ex_LeaseEpoch (rec_execution r1) <= ex_LeaseEpoch (rec_execution r2) ->
  ex_LeaseEpoch (rec_execution r2) <= ex_LeaseEpoch (rec_execution r3) ->
  fence_kept r1 r2 -> fence_kept r2 r3 -> fence_kept r1 r3.
Proof.
  intros Hle1 Hle2 H12 H23 Heq.
  destruct H12 as (Ht12 & Hr12 & Hc12); [lia|]. destruct H23 as (Ht23 & Hr23 & Hc23); [lia|].
  split_and!.
  - destruct Ht23 as [-> | ->]; auto.
  - destruct Hr23 as [-> | ->]; auto.
  - destruct Hc23 as [[-> ->]|(-> & -> & Hne)]; [done|]. right.
    destruct Ht12 as [Ht|Ht]; [|congruence]. rewrite Ht in *. split_and!; [lia|done|done].
Qed.

Lemma evidence_same gates r r' n b : same_action r r' -> evidence gates r' n b -> evidence gates r n b.
Proof. intros (_&_&Hid&_&Hp&_) Hev. unfold evidence in *. rewrite <- Hid, <- Hp. done. Qed.

Lemma cancel_kept_refl r : cancel_kept r r.
Proof. by intros _. Qed.

Lemma cancel_kept_trans r1 r2 r3 :
  ex_LeaseEpoch (rec_execution r1) <= ex_LeaseEpoch (rec_execution r2) ->
  ex_LeaseEpoch (rec_execution r2) <= ex_LeaseEpoch (rec_execution r3) ->
  cancel_kept r1 r2 -> cancel_kept r2 r3 -> cancel_kept r1 r3.
Proof.
  intros Hle1 Hle2 H12 H23 Heq Hh3.
  destruct H23 as [Hh2 H23]; [lia|done|]. destruct H12 as [Hh1 H12]; [lia|done|]. split; [done|].
  intros Hne. destruct (H12 Hne) as [Hc Hx]. rewrite <- Hc, <- Hx. apply H23. congruence.
Qed.

Lemma report_kept_trans r1 r2 r3 : report_kept r1 r2 -> report_kept r2 r3 -> report_kept r1 r3.
Proof.
  intros H12 H23 Hne. rewrite <- (H12 Hne). apply H23.
  specialize (H12 Hne). unfold reported in H12. injection H12 as _ He _ _ _ _ _ _ _ _. congruence.
Qed.

(** The parts of [record_moves] that do not mention the gates. *)
Definition record_later (r r' : memoryActionRecord) : Prop :=
  rtc (action_step (fun _ _ => True)) (cycle r) (cycle r') /\ same_action r r' /\ fence_kept r r' /\
  cancel_kept r r' /\ report_kept r r'.

Lemma record_later_refl r : record_later r r.
Proof.
  split_and!; [apply rtc_refl|apply same_action_refl|apply fence_kept_refl|apply cancel_kept_refl|done].
Qed.

Lemma record_later_trans r1 r2 r3 : record_later r1 r2 -> record_later r2 r3 -> record_later r1 r3.
Proof.
  intros (Hc12 & Hs12 & Hf12 & Hk12 & Hr12) (Hc23 & Hs23 & Hf23 & Hk23 & Hr23).
  pose proof (rtc_action_step_epoch _ _ _ Hc12). pose proof (rtc_action_step_epoch _ _ _ Hc23). simpl in *.
  split_and!; [by etrans|by eapply same_action_trans|by eapply fence_kept_trans|by eapply cancel_kept_trans|].
  by eapply report_kept_trans.
Qed.

Lemma record_moves_later gates r r' :
  record_moves gates r r' <-> rtc (action_step (evidence gates r)) (cycle r) (cycle r') /\ record_later r r'.
Proof.
  split.
  - intros [Hc Hs Hf Hk Hr]. split; [done|]. split_and!; [|done..]. by eapply rtc_action_step_mono.
  - intros (Hc & _ & Hs & Hf & Hk & Hr). by constructor.
Qed.

Lemma record_moves_refl gates r : record_moves gates r r.
Proof. apply record_moves_later. split; [apply rtc_refl|apply record_later_refl]. Qed.

Lemma record_moves_trans gates r1 r2 r3 :
  record_moves gates r1 r2 -> record_moves gates r2 r3 -> record_moves gates r1 r3.
Proof.
  intros [Hc12 Hl12]%record_moves_later [Hc23 Hl23]%record_moves_later. apply record_moves_later. split.
  - etrans; [exact Hc12|]. eapply rtc_action_step_mono; [|exact Hc23].
    intros n b. apply evidence_same, Hl12.
  - by eapply record_later_trans.
Qed.

(** Every record is kept and moves as the machine allows. *)
Definition queue_moves (gates : list (option CleanupGate)) (q q' : MemoryActionQueue) : Prop :=
  forall id r, queue_records q !! id = Some r ->
    exists r', queue_records q' !! id = Some r' /\ record_moves gates r r'.

Lemma queue_change_moves Transform gates q q' : queue_change Transform gates q q' -> queue_moves gates q q'.
Proof.
  intros [q0 j rj rj' Hj _ Hm|q0 submission hash now _ _ r id Hid _] i ri Hi; simpl.
  - destruct (decide (i = j)) as [->|].
    + rewrite lookup_insert_eq. simplify_eq. eauto.
    + rewrite lookup_insert_ne by done. eauto using record_moves_refl.
  - rewrite lookup_insert_ne by congruence. eauto using record_moves_refl.
Qed.

Lemma rtc_queue_change_moves Transform gates q q' :
  rtc (queue_change Transform gates) q q' -> queue_moves gates q q'.
Proof.
  induction 1 as [|q1 q2 q3 H12 _ IH]; intros id r Hr; [eauto using record_moves_refl|].
  destruct (queue_change_moves _ _ _ _ H12 id r Hr) as (r2 & Hr2 & Hm12).
  destruct (IH id r2 Hr2) as (r3 & Hr3 & Hm23). eauto using record_moves_trans.
Qed.

Lemma run_queue_moves Transform call q :
  queue_wf Transform q -> queue_moves (call_gates call) q (run_queue Transform call q).2.
Proof. intros Hq. by eapply rtc_queue_change_moves, (run_queue_changes Transform call q). Qed.

(** Over many calls. *)
Lemma rtc_queue_step_later Transform q q' :
  queue_wf Transform q -> rtc (queue_step Transform) q q' ->
  forall id r, queue_records q !! id = Some r ->
    exists r', queue_records q' !! id = Some r' /\ record_later r r'.
Proof.
  intros Hq H. induction H as [q|q1 ? q3 [call <-] _ IH]; intros id r Hr.
  - exists r. split; [done|]. apply record_later_refl.
  - destruct (run_queue_moves Transform call q1 Hq id r Hr) as (r2 & Hr2 & Hm).
    destruct (IH (run_queue_wf Transform call q1 Hq) id r2 Hr2) as (r3 & Hr3 & Hl).
    exists r3. split; [done|]. eapply record_later_trans; [apply record_moves_later in Hm as [_ Hm]; exact Hm|done].
Qed.

(** *** What a target's release needs *)

Lemma release_needs_evidence (ev : Z -> bool -> Prop) p p' :
  (forall n, ev n false -> ev n true) ->
  rtc (action_step ev) p p' -> actionLeaseActive p.1 = true ->
  (actionLeaseActive p'.1 = true /\ p'.2 = p.2) \/
  (ev p.2 true /\ (p.1 <> StatusLeased -> ev p.2 false)).
Proof.
  intros Hev. induction 1 as [|p1 p2 p3 Hs _ IH]; intros Ha; [auto|].
  destruct Hs; simpl in *; try discriminate; auto; try (by right; auto);
    (destruct (IH eq_refl) as [?|[Ht Hf]]; [by left|right; split; [done|]; intros _; by apply Hf]).
Qed.

Lemma gateClears_missing gate id n : gateClears gate id n false -> gateClears gate id n true.
Proof.
  intros (I & present & terminal & Hg & Hi & [Hc|[_ Hc]]); [|done]. exists I, present, terminal. auto.
Qed.

Lemma evidence_missing gates r n : evidence gates r n false -> evidence gates r n true.
Proof. intros H Hp. eapply Exists_impl; [by apply H|]. intros g. apply gateClears_missing. Qed.
