(* ===== verification/ActionQueueCalls.v ===== *)
(** * The action queue: what single calls do

    The choice [Claim] makes, the runner's concurrency, the submission index,
    expiry record by record, and retried completions. *)

From S2P Require Import Prelude.
From S2P Require Import Sha256.
From S2P Require Import GoText.
From S2P Require Import GoJson.
From S2P Require Import ExecutionLease.
From S2P Require Import Envelope.
From S2P Require Import ActionQueue.
From S2P Require Import ActionQueueFacts.

(** ** Expiry, record by record *)

Lemma expireLocked_over_fields gate now ids q :
  queue_records (expireLocked_over ids gate now q) =
    foldl (range_update (expireRecord gate now)) (queue_records q) ids /\
  queue_idempotency (expireLocked_over ids gate now q) = queue_idempotency q /\
  queue_order (expireLocked_over ids gate now q) = queue_order q.
Proof.
  unfold expireLocked_over. revert q. induction ids as [|id ids IH]; intros q; [done|]. cbn [foldl].
  destruct (IH (expireLocked_body gate now q id)) as (-> & -> & ->).
  unfold expireLocked_body, range_update.
  destruct (queue_records q !! id) as [r|]; [|done]. by destruct (expireRecord gate now r).
Qed.

(** What expiry rewrote is no longer held. *)
Lemma expireRecord_Some Transform id gate now r r' :
  record_wf Transform id r -> expireRecord gate now r = Some r' ->
  ex_Status (rec_execution r') <> StatusRunning /\ ex_Status (rec_execution r') <> StatusLeased.
Proof.
  intros Hr Hx. unfold expireRecord in Hx. destruct (_ == StatusFinalizing) eqn:Hs; guards.
  - destruct (rwf_finalizing _ _ _ Hr Hs) as (receipt & Hrc & _ & _ & Ht & _). rewrite Hrc in Hx.
    destruct (_ || _); [done|]. destruct (_ && _); [done|]. injection Hx as <-. simpl.
    split; intros Heq; by rewrite Heq in Ht.
  - destruct (_ || _); [done|]. destruct (ex_Status (rec_execution r)); try done.
    + destruct (negb _); [done|]. by injection Hx as <-.
    + by injection Hx as <-.
Qed.

Lemma requireCredentialTerminal_Err gate r missing :
  succeeds (requireCredentialTerminal gate r missing) = false ->
  requireCredentialTerminal gate r missing = Err ErrCredentialCleanupPending.
Proof.
  unfold requireCredentialTerminal. destruct (_ != PoolWrite); [done|]. destruct gate as [I|]; [|done].
  destruct (I _ _) as [[p t]|]; [|done]. unfold ensure. by destruct (negb _).
Qed.

(** What expiry left alone was not lapsed, or the gate refused. *)
Lemma expireRecord_None gate now r :
  expireRecord gate now r = None ->
  ex_LeaseExpiresAt (rec_execution r) <> 0 -> ex_LeaseExpiresAt (rec_execution r) <= now ->
  ex_Status (rec_execution r) <> StatusRunning /\
  (ex_Status (rec_execution r) = StatusLeased ->
   requireCredentialTerminal gate r true = Err ErrCredentialCleanupPending).
Proof.
  unfold expireRecord, IsZero, After. intros Hx Hz%Z.eqb_neq Hle%Z.ltb_ge. rewrite Hz, Hle in Hx. simpl in Hx.
  destruct (ex_Status (rec_execution r)) eqn:Hs; simpl in Hx; try done.
  split; [done|]. intros _. destruct (succeeds _) eqn:Hok; [done|]. by apply requireCredentialTerminal_Err.
Qed.

(** The reference: every record expires on its own. *)
Definition expireAllRecords (gate : option CleanupGate) (now : Time) (q : MemoryActionQueue) : MemoryActionQueue :=
  {| q with queue_records := rewritten (expireRecord gate now) <$> queue_records q |}.

Lemma expireLocked_over_all gate now ids q :
  NoDup ids -> (forall id, is_Some (queue_records q !! id) -> id ∈ ids) ->
  expireLocked_over ids gate now q = expireAllRecords gate now q.
Proof.
  intros Hnd Hall. destruct (expireLocked_over_fields gate now ids q) as (Hr & Hi & Ho).
  rewrite foldl_range_update in Hr by done. unfold expireAllRecords.
  destruct (expireLocked_over ids gate now q). simpl in *. congruence.
Qed.

Lemma expireLocked_all gate now q : expireLocked gate now q = expireAllRecords gate now q.
Proof. apply expireLocked_over_all; [apply NoDup_fst_map_to_list|apply elem_of_keys]. Qed.

(** ** The choice of [Claim] *)

(** The conditions under which [Claim] may grant an action at time [t]. *)
Definition claimable (q : MemoryActionQueue) (request : ActionClaimRequest) (t : Time) (id : string) : Prop :=
  exists r, queue_records q !! id = Some r /\
    ex_Status (rec_execution r) = StatusQueued /\
    ex_Pool (rec_execution r) = scope_pool (aclaim_Scope request) /\
    ~ (ex_Pool (rec_execution r) = PoolWrite /\ ex_Production (rec_execution r) = true) /\
    rec_notBefore r <= t < rec_ExpiresAt r /\
    (exists b, b ∈ scope_bindings (aclaim_Scope request) /\
       binding_WorkspaceID b = env_WorkspaceID (sub_Envelope (rec_submission r)) /\
       binding_EnvironmentID b = target_EnvironmentID (env_Target (sub_Envelope (rec_submission r)))) /\
    forall j rj, j <> id -> queue_records q !! j = Some rj ->
      ex_TargetKey (rec_execution rj) = ex_TargetKey (rec_execution r) ->
      actionLeaseActive (ex_Status (rec_execution rj)) = false.

Lemma validateRunnerScope_bounds request u :
  validateRunnerScope request = Ok u -> minimumActionLease <= aclaim_LeaseDuration request <= maximumActionLease.
Proof. unfold validateRunnerScope. intros ([] & H%ensure_Ok & _)%Result_bind_Ok. guards. lia. Qed.

Lemma RunnerScope_allows_spec scope workspaceID environmentID :
  RunnerScope_allows scope workspaceID environmentID = true <->
  exists b, b ∈ scope_bindings scope /\ binding_WorkspaceID b = workspaceID /\
    binding_EnvironmentID b = environmentID.
Proof.
  unfold RunnerScope_allows. rewrite existsb_exists. split.
  - intros (b & Hb%list_elem_of_In & H). guards. eauto.
  - intros (b & Hb%list_elem_of_In & <- & <-). exists b. by rewrite !eqb_same.
Qed.

Lemma targetActive_free q tk id :
  (forall j rj, j <> id -> queue_records q !! j = Some rj -> ex_TargetKey (rec_execution rj) = tk ->
    actionLeaseActive (ex_Status (rec_execution rj)) = false) -> targetActive q tk id = false.
Proof.
  intros H. unfold targetActive. apply existsb_map_false. intros j rj Hj.
  destruct (j == id) eqn:Hji; [done|]. apply eqb_false_1 in Hji.
  destruct (_ == tk) eqn:Htk; [|done]. apply eqb_true_1 in Htk. simpl. eauto.
Qed.

Lemma claimable_skips Transform q request t id :
  queue_wf Transform q ->
  claimable q request t id <->
  actionClaimSkips q request t (default record_zero (queue_records q !! id)) = false.
Proof.
  intros Hq. split.
  - intros (r & Hr & Hs & Hp & Hw & [Hn Hx] & Hb & Ht). rewrite Hr. simpl. unfold actionClaimSkips.
    pose proof (rwf_id _ _ _ (qwf_records _ _ Hq id r Hr)) as Hid.
    rewrite Hs, Hp, Hid, (targetActive_free q _ _ Ht), (proj2 (RunnerScope_allows_spec _ _ _) Hb).
    rewrite !eqb_same. unfold After. rewrite (proj2 (Z.ltb_ge t (rec_notBefore r))), (proj2 (Z.ltb_lt t _)) by done.
    simpl. rewrite !orb_false_r. destruct (_ == PoolWrite) eqn:Hpw; [|done]. apply eqb_true_1 in Hpw.
    destruct (ex_Production _); [|done]. exfalso. apply Hw. split; congruence.
  - intros Hsk. destruct (actionClaimSkips_known _ _ _ _ Hsk) as (r & Hr & Hsk' & Hs).
    pose proof (rwf_id _ _ _ (qwf_records _ _ Hq id r Hr)) as Hid.
    unfold actionClaimSkips, After in Hsk'. guards. exists r. split_and!; auto.
    + intros [Hp Hpr]. match goal with H : _ && _ = false |- _ => rewrite Hp, Hpr in H end. done.
    + by apply RunnerScope_allows_spec.
    + rewrite <- Hid. by apply targetActive_false.
Qed.

(** A time at which the loop looks at the queue. *)
Definition reading (source : nat -> Result string * Time) (now t : Time) : Prop :=
  t = now \/ exists k, t = (source k).2.

Lemma reading_later source now t n : reading source (source n).2 t -> reading source now t.
Proof. intros [-> |[k ->]]; right; eauto. Qed.

(** What the loop over [ids] returns and leaves behind. *)
Definition claim_choice (q : MemoryActionQueue) (request : ActionClaimRequest)
    (source : nat -> Result string * Time) (now : Time) (ids : list string)
    (result : Result ClaimedAction) (q' : MemoryActionQueue) : Prop :=
  match result with
  | Ok claimed => exists before id after r checked t token,
      ids = before ++ id :: after /\
      (forall i, i ∈ before -> exists t', reading source now t' /\ ~ claimable q request t' i) /\
      queue_records q !! id = Some r /\ reading source now checked /\ claimable q request checked id /\
      reading source now t /\ t < rec_ExpiresAt r /\ validIdentifier token 256 = true /\
      ex_LeaseEpoch (rec_execution r) <> MaxInt64 /\
      let r' := setExecution r (actionLeasedExecution request t token r) in
      claimed = claimedAction r' /\ q' = putRecord id r' q
  | Err e => q' = q /\ (e = ErrNoLeaseAvailable ->
      forall i, i ∈ ids -> exists t', reading source now t' /\ ~ claimable q request t' i)
  end.

Lemma claim_choice_cons q request source now now' id ids t result q' :
  reading source now t -> ~ claimable q request t id ->
  (forall t', reading source now' t' -> reading source now t') ->
  claim_choice q request source now' ids result q' ->
  claim_choice q request source now (id :: ids) result q'.
Proof.
  intros Ht Hnc Hr. destruct result as [c|e]; simpl.
  - intros (before & i & after & r & ck & u & token & -> & Hb & ? & ? & ? & ? & ? & ? & ? & ? & ?).
    exists (id :: before), i, after, r, ck, u, token. split_and!; auto.
    intros j [-> |Hj]%elem_of_cons; [by eauto|]. destruct (Hb j Hj) as (t' & ? & ?). eauto.
  - intros [-> He]. split; [done|]. intros Heq j [-> |Hj]%elem_of_cons; [by eauto|].
    destruct (He Heq j Hj) as (t' & ? & ?). eauto.
Qed.

Lemma actionClaimLoop_choice Transform request source ids n now q :
  queue_wf Transform q ->
  wp (actionClaimLoop request source n now ids) (claim_choice q request source now ids) q.
Proof.
  intros Hq. revert n now. induction ids as [|id ids IH]; intros n now; cbn [actionClaimLoop].
  { wp_step. split; [done|]. by intros _ i ?%elem_of_nil. }
  do 3 wp_step.
  { eapply wp_mono; [|apply IH]. intros result q'.
    apply (claim_choice_cons _ _ _ _ _ _ _ now); [by left| |done].
    rewrite (claimable_skips Transform) by done. congruence. }
  match goal with H : actionClaimSkips _ _ _ _ = false |- _ =>
    pose proof (proj2 (claimable_skips Transform q request now id Hq) H) as Hc;
    destruct (actionClaimSkips_known _ _ _ _ H) as (r & Hr & _ & Hs) end.
  rewrite Hr. simpl. unfold queue_now.
  repeat (wp_step; try (split; [done|]; intros Heq; by inversion Heq)).
  - eapply wp_mono; [|apply IH]. intros result q'.
    apply (claim_choice_cons _ _ _ _ _ _ _ (source n).2); [by right; eauto| |by intros t'; apply reading_later].
    intros (r0 & Hr0 & _ & _ & _ & [_ Hx] & _). simplify_eq. unfold After in *. guards. lia.
  - unfold After in *. guards. exists [], id, ids, r, now, (source n).2, a.
    split_and!; try done; [by intros i ?%elem_of_nil|by left|by right; eauto].
  - split; [done|]. intros ->. destruct (source n).1; simplify_eq/=.
Qed.

(** ** Concurrency of a runner *)

Lemma length_filter_perm {A} (p : A -> bool) l l' : l ≡ₚ l' ->
  List.length (List.filter p l) = List.length (List.filter p l').
Proof.
  induction 1 as [|x l l' _ IH|x y l|l1 l2 l3 _ IH1 _ IH2]; simpl; [done|destruct (p x); simpl; lia| |lia].
  by destruct (p x), (p y).
Qed.

Lemma runnerActive_put q id r' runner :
  runnerActive (putRecord id r' q) runner <= runnerActive q runner + 1.
Proof.
  unfold runnerActive, putRecord. simpl. set (p := fun '(_, record) => heldBy runner record).
  rewrite <- (insert_delete_eq (queue_records q) id r').
  rewrite (length_filter_perm p _ _ (map_to_list_insert _ id r' (lookup_delete_eq _ _))). simpl.
  assert (List.length (List.filter p (map_to_list (delete id (queue_records q)))) <=
          List.length (List.filter p (map_to_list (queue_records q))))%nat.
  { destruct (queue_records q !! id) as [r|] eqn:Hr.
    - rewrite <- (length_filter_perm p _ _ (map_to_list_delete _ id r Hr)). simpl. destruct (heldBy _ _); simpl; lia.
    - by rewrite delete_id. }
  destruct (heldBy runner r'); simpl; lia.
Qed.

(** ** Calls made with a lease *)

Definition queue_call_lease (call : QueueCall) : option LeaseIdentity :=
  match call with
  | QStart _ _ fence | QFinalize _ _ _ fence => Some fence
  | QHeartbeat _ _ request => Some (ahb_Lease request)
  | QComplete _ _ request => Some (acomplete_Lease request)
  | QReject _ _ _ request => Some (reject_Lease request)
  | QNack _ _ _ request => Some (nack_Lease request)
  | _ => None
  end.

(** The lease is the current one of the record, or the one that completed it. *)
Definition fence_of (r : memoryActionRecord) (lease : LeaseIdentity) : Prop :=
  0 < lease_Epoch lease /\ lease_RunnerID lease <> ""%string /\
  lease_RunnerID lease = ex_RunnerID (rec_execution r) /\
  (lease_Epoch lease = ex_LeaseEpoch (rec_execution r) /\ lease_Token lease <> ""%string /\
   lease_Token lease = ex_LeaseToken (rec_execution r) \/
   lease_Epoch lease = rec_completedEpoch r /\ hashLeaseToken (lease_Token lease) = rec_completedTokenHash r).

Lemma fence_of_same r lease :
  validActionFence lease = true -> sameActionFence (rec_execution r) lease = true -> fence_of r lease.
Proof.
  unfold validActionFence, sameActionFence. intros. guards.
  split_and!; [done|by eapply validIdentifier_nonempty|done|]. left.
  split_and!; [done|by eapply validIdentifier_nonempty|done].
Qed.

Lemma fence_of_current r lease now :
  validActionFence lease = true -> currentActionFence (rec_execution r) lease now = true -> fence_of r lease.
Proof. unfold currentActionFence. intros. guards. by apply fence_of_same. Qed.

Lemma fence_of_completed r lease :
  validActionFence lease = true -> completedBy r lease = true -> fence_of r lease.
Proof.
  unfold validActionFence, completedBy. intros. guards.
  split_and!; [done|by eapply validIdentifier_nonempty|done|]. by right.
Qed.

Ltac fence_wp :=
  unfold queue_now; wp_run_unchanged;
  (eexists; split; [eassumption|]);
  repeat match goal with H : _ && _ = true |- _ => apply andb_true_iff in H as [H ?] end.

Lemma queue_call_fence Transform call lease q :
  queue_call_lease call = Some lease ->
  wp (run_queue Transform call) (fun result q' =>
    match result with
    | Ok _ => exists r, queue_records q !! lease_ExecutionID lease = Some r /\ fence_of r lease
    | Err _ => q' = q
    end) q.
Proof.
  intros Hc. destruct call; try discriminate Hc; injection Hc as <-; cbn [run_queue].
  - unfold ActionQueue_Start. fence_wp; eauto using fence_of_current.
  - unfold ActionQueue_Heartbeat. fence_wp; eauto using fence_of_same.
  - unfold ActionQueue_Complete. fence_wp;
      (destruct (validActionFence (acomplete_Lease request)) eqn:?; [|by destruct (ResultSummaryStatus _)]);
      eauto using fence_of_current, fence_of_completed.
  - unfold ActionQueue_Finalize. fence_wp; eauto using fence_of_completed.
  - unfold ActionQueue_Reject. fence_wp; eauto using fence_of_current, fence_of_completed.
  - unfold ActionQueue_Nack. fence_wp; eauto using fence_of_current.
Qed.

(** ** Submissions *)

Lemma validateActionSubmission_Ok submission u : validateActionSubmission submission = Ok u -> u = tt.
Proof. by destruct u. Qed.

(** [Submit] of a validated submission whose action is already stored. *)
Lemma Submit_known Transform clock submission hash q r :
  validateActionSubmission submission = Ok tt -> RequestSemanticHash Transform submission = Ok hash ->
  clock <> 0 -> queue_records q !! env_ActionID (sub_Envelope submission) = Some r ->
  ActionQueue_Submit Transform None clock submission q =
    (if rec_requestHash r == hash then Ok (redactActionExecution (rec_execution r)) else Err ErrJobConflict, q).
Proof.
  intros Hv Hh Hc%Z.eqb_neq Hr. unfold ActionQueue_Submit, queue_now, IsZero, checkContext, lift, get, throw,
    mbind, M_bind, mret, M_ret. cbv beta iota zeta. rewrite Hv, Hh, Hc, Hr. by destruct (_ == _).
Qed.

(** What a successful [Submit] leaves: a record with the semantics submitted. *)
Lemma Submit_stored Transform err clock submission q :
  queue_wf Transform q ->
  wp (ActionQueue_Submit Transform err clock submission) (fun result q' =>
    match result with
    | Ok e => exists hash r, validateActionSubmission submission = Ok tt /\
        RequestSemanticHash Transform submission = Ok hash /\
        queue_records q' !! ex_ExecutionID e = Some r /\ rec_requestHash r = hash
    | Err _ => q' = q
    end) q.
Proof.
  intros Hq. unfold ActionQueue_Submit, queue_now. wp_run_unchanged; guards;
    match goal with H : validateActionSubmission _ = Ok ?u |- _ => destruct u end;
    match goal with H : RequestSemanticHash _ _ = Ok ?hash |- _ => exists hash end.
  - exists m. split_and!; try (assumption || reflexivity). simpl.
    match goal with H : queue_records q !! _ = Some m |- _ =>
      rewrite (rwf_id _ _ _ (qwf_records _ _ Hq _ _ H)); exact H end.
  - match goal with H : queue_idempotency q !! _ = Some _ |- _ =>
      apply (qwf_idempotency _ _ Hq) in H as (r & Hr & _); rewrite Hr in * end.
    exists r. split_and!; try (assumption || reflexivity). simpl.
    by rewrite (rwf_id _ _ _ (qwf_records _ _ Hq _ _ Hr)).
  - eexists. split_and!; [reflexivity|reflexivity|apply lookup_insert_eq|reflexivity].
Qed.

(** ** Retried completions *)

(** The hash of the receipt depends on what stays after a completion. *)
Lemma receipt_hash_same Transform r r' request status now now' receipt :
  same_action r r' ->
  ex_RunnerTenantID (rec_execution r') = ex_RunnerTenantID (rec_execution r) ->
  ex_RunnerWorkspaceID (rec_execution r') = ex_RunnerWorkspaceID (rec_execution r) ->
  ex_RunnerEnvironmentID (rec_execution r') = ex_RunnerEnvironmentID (rec_execution r) ->
  ex_ScopeRevision (rec_execution r') = ex_ScopeRevision (rec_execution r) ->
  BuildRunnerResultReceipt Transform (claimedAction r) request status now = Ok receipt ->
  exists receipt', BuildRunnerResultReceipt Transform (claimedAction r') request status now' = Ok receipt' /\
    receipt_ResultHash receipt' = receipt_ResultHash receipt.
Proof.
  intros (Hsub & _ & Hid & _) Ht Hw He Hs. unfold BuildRunnerResultReceipt, buildRunnerResultReceipt.
  assert (json_receipt "runner-result.v1" (unhashedReceipt (claimedAction r') request status "" now') =
          json_receipt "runner-result.v1" (unhashedReceipt (claimedAction r) request status "" now)) as ->
    by (unfold json_receipt; simpl; rewrite Ht, Hw, He, Hs, Hid, Hsub; reflexivity).
  intros ([] & Hlen & H)%Result_bind_Ok. rewrite Hlen.
  apply Result_bind_Ok in H as (canonical & Hc & H). injection H as <-.
  eexists. split; [unfold mbind, Result_bind; rewrite Hc; reflexivity|reflexivity].
Qed.

(** The record holds the answer to a completion report. *)
Record answers Transform (request : ActionCompleteRequest) (r : memoryActionRecord) : Prop := {
  ans_fence : validActionFence (acomplete_Lease request) = true;
  ans_status : ResultSummaryStatus (acomplete_Summary request) = Ok (ex_CompletionStatus (rec_execution r));
  ans_epoch : rec_completedEpoch r = lease_Epoch (acomplete_Lease request);
  ans_token : rec_completedTokenHash r = hashLeaseToken (lease_Token (acomplete_Lease request));
  ans_runner : ex_RunnerID (rec_execution r) = lease_RunnerID (acomplete_Lease request);
  ans_receipt : exists now receipt stored,
    BuildRunnerResultReceipt Transform (claimedAction r) request (ex_CompletionStatus (rec_execution r)) now
      = Ok receipt /\
    rec_receipt r = Some stored /\ receipt_ResultHash stored = receipt_ResultHash receipt
}.

Lemma answers_positive Transform request r : answers Transform request r -> rec_completedEpoch r <> 0.
Proof. intros [Hf _ -> _ _ _]. apply validActionFence_true in Hf. lia. Qed.

Lemma answers_later Transform request r r' :
  answers Transform request r -> record_later r r' -> answers Transform request r'.
Proof.
  intros Ha (_ & Hs & _ & _ & Hk). specialize (Hk (answers_positive _ _ _ Ha)).
  destruct Ha as [Hf Hst He Ht Hr (now & receipt & stored & Hb & Hrec & Hh)].
  unfold reported in Hk. injection Hk as ??????????.
  assert (ex_CompletionStatus (rec_execution r') = ex_CompletionStatus (rec_execution r)) as Hcs by done.
  constructor; try congruence.
  destruct (receipt_hash_same Transform r r' request (ex_CompletionStatus (rec_execution r)) now now receipt)
    as (receipt' & Hb' & Hh'); try done.
  exists now, receipt', stored. rewrite Hcs. split_and!; [done|congruence|congruence].
Qed.

Lemma completedBy_fence Transform request r :
  answers Transform request r ->
  completedBy r (acomplete_Lease request) = (ex_ReconciliationID (rec_execution r) == ""%string).
Proof.
  intros [_ _ He Ht Hr _]. unfold completedBy. rewrite He, Ht, Hr, !eqb_same, Z.eqb_refl. by rewrite !andb_true_r.
Qed.

Lemma completedStatus_settled e :
  completedStatus (ex_Status e) = true -> (ex_Status e == StatusFinalizing) || Execution_Terminal e = true.
Proof.
  unfold completedStatus, Execution_Terminal, terminalStatus.
  destruct (_ == StatusFinalizing); [done|]. simpl. intros [->|H]%orb_true_iff; [by rewrite ?orb_true_r|].
  rewrite H. by rewrite ?orb_true_r.
Qed.

(** A stored answer is given again, whatever the clock, unless an operator has
    reconciled the action meanwhile. *)
Lemma Complete_answered Transform clock request q r :
  queue_wf Transform q -> clock <> 0 ->
  queue_records q !! lease_ExecutionID (acomplete_Lease request) = Some r ->
  answers Transform request r ->
  ActionQueue_Complete Transform None clock request q =
    (if ex_ReconciliationID (rec_execution r) == ""%string
     then Ok (redactActionExecution (rec_execution r)) else Err ErrStaleLease, q).
Proof.
  intros Hq Hc%Z.eqb_neq Hr Ha.
  destruct (rwf_completed _ _ _ (qwf_records _ _ Hq _ _ Hr) (answers_positive _ _ _ Ha)) as [_ Hs].
  pose proof (completedStatus_settled _ Hs) as Hset. pose proof (completedBy_fence _ _ _ Ha) as Hby.
  destruct Ha as [Hf Hst _ _ _ (now & receipt & stored & Hb & Hrec & Hh)].
  destruct (receipt_hash_same Transform r r request (ex_CompletionStatus (rec_execution r)) now clock receipt)
    as (receipt' & Hb' & Hh'); [apply same_action_refl|done..|].
  unfold ActionQueue_Complete, queue_now, IsZero, checkContext, lift, get, throw, require, require_some,
    mbind, M_bind, mret, M_ret.
  rewrite Hst, Hf, Hc, Hr. cbv beta iota zeta. rewrite Hb', Hset, Hby, Hrec, Hh', Hh, !eqb_same.
  by destruct (_ == ""%string).
Qed.

Lemma answers_finalizing Transform request r status receipt now :
  validActionFence (acomplete_Lease request) = true ->
  ResultSummaryStatus (acomplete_Summary request) = Ok status ->
  ex_RunnerID (rec_execution r) = lease_RunnerID (acomplete_Lease request) ->
  BuildRunnerResultReceipt Transform (claimedAction r) request status now = Ok receipt ->
  answers Transform request (finalizingRecord status receipt (acomplete_Lease request) now r).
Proof.
  intros Hf Hst Hr Hb. constructor; simpl; try done.
  destruct (receipt_hash_same Transform r (finalizingRecord status receipt (acomplete_Lease request) now r)
              request status now now receipt) as (receipt' & Hb' & Hh'); [by repeat split|done..|].
  exists now, receipt', receipt. auto.
Qed.

Lemma Complete_stores Transform err clock request q :
  queue_wf Transform q ->
  wp (ActionQueue_Complete Transform err clock request) (fun result q' =>
    match result with
    | Ok e => exists r, queue_records q' !! lease_ExecutionID (acomplete_Lease request) = Some r /\
        answers Transform request r /\ e = redactActionExecution (rec_execution r)
    | Err _ => q' = q
    end) q.
Proof.
  intros Hq. unfold ActionQueue_Complete, queue_now. wp_run_unchanged.
  all: destruct (ResultSummaryStatus _) as [status|] eqn:Hst; [|done];
    destruct (validActionFence _) eqn:Hf; [|done]; simplify_eq; guards.
  - eexists. split_and!; [eassumption| |reflexivity].
    match goal with H : completedBy _ _ = true |- _ => apply completedBy_known in H as (He & Ht & Hr & _) end.
    match goal with H : match ?o with Some _ => _ | None => _ end = true |- _ => destruct o as [stored|] eqn:Hrec;
      [apply eqb_true_1 in H|done] end.
    constructor; try congruence. eexists clock, _, stored. split_and!; [|done|eassumption].
    match goal with H : ex_CompletionStatus _ = _ |- _ => by rewrite H end.
  - match goal with H : currentActionFence _ _ _ = true |- _ => apply currentActionFence_true in H as (?&?&?&?) end.
    eexists. split_and!; [apply lookup_insert_eq| |reflexivity]. by apply answers_finalizing.
Qed.

(** ** Granted leases *)

(** What a granted claim leaves in the queue. *)
Lemma Claim_grants Transform err clock gate source request q claimed q' :
  queue_wf Transform q ->
  ActionQueue_Claim err clock gate source request q = (Ok claimed, q') ->
  exists r, queue_records q' !! ex_ExecutionID (claimed_Execution claimed) = Some r /\
    claimed_Execution claimed = rec_execution r /\
    ex_RunnerID (rec_execution r) = scope_runnerID (aclaim_Scope request) /\
    ex_LeaseToken (rec_execution r) <> ""%string /\ rec_completedEpoch r = 0 /\ queue_wf Transform q'.
Proof.
  intros Hq Hrun.
  pose proof (wp_run _ _ _ (Claim_changes Transform err clock gate source request q Hq) _ _ Hrun) as Hch.
  assert (queue_wf Transform q') as Hq2 by (eapply rtc_queue_change_wf; [exact Hch|exact Hq]).
  destruct (expireLocked_all_changes Transform [gate] gate clock q) as [_ Hq']; [set_solver|done|].
  assert (wp (ActionQueue_Claim err clock gate source request) (fun result q' =>
    match result with
    | Ok c => exists id r t token, queue_records (expireLocked gate clock q) !! id = Some r /\
        validIdentifier token 256 = true /\
        let r' := setExecution r (actionLeasedExecution request t token r) in
        c = claimedAction r' /\ queue_records q' !! id = Some r'
    | Err _ => True
    end) q) as Hwp.
  { unfold ActionQueue_Claim, queue_now. repeat (wp_step; try exact I).
    eapply wp_mono; [|by apply (actionClaimLoop_choice Transform)]. intros [c|e] q2; [|done].
    intros (? & id & ? & r & ? & t & token & _ & _ & Hr & _ & _ & _ & _ & Htok & _ & -> & ->).
    exists id, r, t, token. split_and!; [done|done|done|apply lookup_insert_eq]. }
  destruct (wp_run _ _ _ Hwp _ _ Hrun) as (id & r & t & token & Hr & Htok & -> & Hr'). simpl.
  rewrite (rwf_id _ _ _ (qwf_records _ _ Hq' id r Hr)).
  exists (setExecution r (actionLeasedExecution request t token r)).
  split_and!; try done; [by eapply validIdentifier_nonempty|].
  destruct (decide (rec_completedEpoch r = 0)) as [|Hne]; [done|exfalso].
  by destruct (rwf_completed _ _ _ (qwf_records _ _ Hq2 _ _ Hr') Hne) as [_ ?].
Qed.

(** A lease that fences a later state of a granted record. *)
Lemma fence_of_granted Transform r2 r3 id lease runner :
  record_wf Transform id r3 -> record_later r2 r3 -> fence_of r3 lease ->
  ex_RunnerID (rec_execution r2) = runner -> ex_LeaseToken (rec_execution r2) <> ""%string ->
  rec_completedEpoch r2 = 0 -> lease_Epoch lease <= ex_LeaseEpoch (rec_execution r2) ->
  lease_Epoch lease = ex_LeaseEpoch (rec_execution r2) /\ lease_RunnerID lease = runner /\
  hashLeaseToken (lease_Token lease) = hashLeaseToken (ex_LeaseToken (rec_execution r2)).
Proof.
  intros Hwf (Hcy & _ & Hk & _) (Hpos & Hne & Hrun & Hcase) Hr2 Ht2 Hc0 Hle.
  apply rtc_action_step_epoch in Hcy. simpl in Hcy.
  assert (lease_Epoch lease = ex_LeaseEpoch (rec_execution r3)) as He3.
  { destruct Hcase as [(-> & _)|(He & _)]; [done|].
    destruct (rwf_completed _ _ _ Hwf) as [Hc3 _]; [lia|]. congruence. }
  destruct Hk as (Htok & Hru & Hco); [lia|].
  split_and!; [lia|destruct Hru; congruence|].
  destruct Hcase as [(_ & Hn & Heq)|(He & ->)]; [destruct Htok; congruence|].
  destruct Hco as [[Hco _]|(_ & -> & _)]; [lia|done].
Qed.
