(* ===== verification/Examples.v ===== *)
(** * Concrete values

    A valid envelope of each kind the witnesses run on, its submission, and a
    canonicalizer to instantiate the library parameter with: the identity, which
    is what RFC 8785 does to text that is already canonical. *)

From S2P Require Import Prelude.
From S2P Require Import Sha256.
From S2P Require Import GoText.
From S2P Require Import GoJson.
From S2P Require Import ExecutionLease.
From S2P Require Import Envelope.
From S2P Require Import ActionQueue.

Definition demo_Transform (s : string) : Result string := Ok s.

(** 2026-01-01T00:00:00Z *)
Definition demo_epoch : Time := 63902822400 * Second.

Definition demo_kubernetes (name : string) : KubernetesDeploymentTarget :=
  {| kt_ClusterID := "cluster-1"; kt_Namespace := "payments"; kt_Name := name; kt_UID := "uid-1";
     kt_ResourceVersion := "42" |}.

(** A rollout restart of one deployment, valid for 20 minutes. *)
Definition demo_envelope (id key name : string) : Envelope := {|
  env_SchemaVersion := SchemaVersionV1;
  env_ActionID := id;
  env_WorkspaceID := "workspace-1";
  env_IncidentID := "incident-1";
  env_RequestedBy := "operator-1";
  env_ActionType := ActionKubernetesRolloutRestart;
  env_Target := {| target_ServiceID := "service-1"; target_EnvironmentID := "staging";
                   target_KubernetesDeployment := Some (demo_kubernetes name);
                   target_GitOpsApplication := None; target_AWXHosts := None |};
  env_Parameters := {| param_KubernetesRolloutRestart := Some {| restart_Reason := "memory leak" |};
                       param_KubernetesScale := None; param_GitOpsRevert := None;
                       param_AWXServiceRestart := None |};
  env_ObservedState := {| obs_KubernetesDeployment :=
                            Some {| ks_Generation := 7; ks_Replicas := 3; ks_AvailableReplicas := 2;
                                    ks_UpdatedReplicas := 3 |};
                          obs_GitOpsApplication := None; obs_AWXService := None |};
  env_Preconditions := {| pre_MappingResult := "EXACT"; pre_ExpectedResourceVersion := "42";
                          pre_ExpectedGitHeadCommit := ""; pre_RequireWhitelist := true |};
  env_Verification := {| verify_Mode := "KUBERNETES_ROLLOUT"; verify_TimeoutSeconds := 300 |};
  env_Compensation := {| comp_Mode := "MANUAL_ONLY"; comp_Summary := "roll back by hand" |};
  env_Risk := {| risk_Level := "LOW"; risk_ReasonCodes := ["single-deployment"; "staging"]%string |};
  env_PolicyVersion := "policy-1";
  env_PlanHash := "0123456789abcdef0123456789abcdef0123456789abcdef0123456789abcdef";
  env_CredentialScope := {| cred_ConnectorID := "kubernetes-1"; cred_Permission := "PATCH_DEPLOYMENT_RESTART";
                            cred_Resource := kubernetesCredentialResource (demo_kubernetes name);
                            cred_TTLSeconds := 600 |};
  env_IdempotencyKey := key;
  env_NotBefore := UTC demo_epoch;
  env_ExpiresAt := UTC (demo_epoch + 20 * Minute);
  env_TraceID := "0123456789abcdef0123456789abcdef";
  env_Signature := Signature_zero |}.

Example demo_envelope_valid : Envelope_Validate (demo_envelope "action-1" "key-1" "api") = Ok tt.
Proof. vm_compute. reflexivity. Qed.

(** A toy signature scheme to instantiate Ed25519 with: 64 bytes that determine
    the message digest, so that its own signatures verify; and a key. *)
Definition demo_Sign (privateKey message : string) : string := Sum256 message +:+ Sum256 message.
Definition demo_Verify (publicKey message signature : string) : bool := signature == demo_Sign "" message.
Definition demo_key : KeyRecord :=
  {| key_PublicKey := Sum256 "public"; key_Revoked := false; key_ActiveAt := 0; key_RetireAt := 0 |}.
Definition demo_resolver : KeyResolver := fun keyID =>
  if keyID == "key-a"%string then Ok demo_key else Err ErrUnknownSigningKey.

Definition demo_signer : Signer :=
  {| signer_KeyID := "key-a"; signer_Sign := fun message => Ok (demo_Sign (Sum256 "a" +:+ Sum256 "b") message) |}.

Definition demo_submission (id key name : string) : ActionSubmission :=
  {| sub_Envelope := demo_envelope id key name;
     sub_PlanHash := env_PlanHash (demo_envelope id key name);
     sub_TargetKey := "k8s:" +:+ name; sub_EnvironmentRevision := "rev-1"; sub_Production := false;
     sub_Pool := PoolWrite |}.

Definition demo_scope (runner : string) : RunnerScope :=
  {| scope_runnerID := runner; scope_tenantID := "tenant-1"; scope_pool := PoolWrite; scope_scopeRevision := 1;
     scope_maxConcurrency := 2;
     scope_bindings := [{| binding_WorkspaceID := "workspace-1"; binding_EnvironmentID := "staging" |}] |}.

(** The credential repository answers that the credential is cleaned up, or
    still pending. *)
Definition demo_clean : option CleanupGate := Some (fun _ _ => Ok (true, true)).
Definition demo_pending : option CleanupGate := Some (fun _ _ => Ok (true, false)).
Definition demo_missing : option CleanupGate := Some (fun _ _ => Ok (false, false)).

Definition demo_action_claim (runner : string) : ActionClaimRequest :=
  {| aclaim_Scope := demo_scope runner; aclaim_LeaseDuration := 60 * Second |}.
Definition demo_source (token : string) (t : Time) : nat -> Result string * Time := fun _ => (Ok token, t).
Definition demo_fence (id runner token : string) (epoch : Z) : LeaseIdentity :=
  {| lease_ExecutionID := id; lease_RunnerID := runner; lease_Token := token; lease_Epoch := epoch |}.
Definition demo_summary : ExecutorResult :=
  {| result_Outcome := ExecutorSucceeded; result_Code := "ROLLED_OUT"; result_Verification := VerificationPassed;
     result_Changed := true; result_ExternalOperationRefHash := "" |}.

(** Run a list of calls on an empty queue. *)
Definition demo_empty_queue : MemoryActionQueue :=
  {| queue_records := ∅; queue_idempotency := ∅; queue_order := [] |}.
Fixpoint demo_run (calls : list QueueCall) (q : MemoryActionQueue) : MemoryActionQueue :=
  match calls with
  | [] => q
  | call :: rest => demo_run rest (run_queue demo_Transform call q).2
  end.

Lemma demo_run_steps calls q : rtc (queue_step demo_Transform) q (demo_run calls q).
Proof.
  revert q. induction calls as [|call calls IH]; intros q; simpl; [apply rtc_refl|].
  eapply rtc_l; [|apply IH]. by exists call.
Qed.

Definition demo_queue (calls : list QueueCall) : MemoryActionQueue := demo_run calls demo_empty_queue.

Lemma demo_queue_reachable calls : queue_reachable demo_Transform (demo_queue calls).
Proof. exists 1, demo_empty_queue. split; [done|]. apply demo_run_steps. Qed.

#[global] Opaque demo_queue.

(** Two submissions for one deployment and one for another; the oldest leased,
    then started. *)
Definition demo_now : Time := demo_epoch + 60 * Second.
Definition demo_submit_calls : list QueueCall :=
  [QSubmit None demo_now (demo_submission "action-1" "key-1" "api");
   QSubmit None demo_now (demo_submission "action-2" "key-2" "api");
   QSubmit None demo_now (demo_submission "action-3" "key-3" "worker")].
Definition demo_lease_calls : list QueueCall :=
  demo_submit_calls ++
  [QClaim None demo_now demo_clean (demo_source "token-1" demo_now) (demo_action_claim "runner-1")].
Definition demo_start_calls : list QueueCall :=
  demo_lease_calls ++ [QStart None demo_now (demo_fence "action-1" "runner-1" "token-1" 1)].

Example demo_leased_status :
  (fun r => ex_Status (rec_execution r)) <$>
    (queue_records (demo_queue demo_start_calls) !! "action-1"%string) = Some StatusRunning.
Proof. vm_compute. reflexivity. Qed.

Definition demo_record (calls : list QueueCall) (id : string) : memoryActionRecord :=
  default record_zero (queue_records (demo_queue calls) !! id).

Definition demo_finalize_calls : list QueueCall :=
  demo_start_calls ++
  [QComplete None demo_now {| acomplete_Lease := demo_fence "action-1" "runner-1" "token-1" 1;
                              acomplete_Summary := demo_summary |}].
Definition demo_finalize (gate : option CleanupGate) : QueueCall :=
  QFinalize None demo_now gate (demo_fence "action-1" "runner-1" "token-1" 1).
