(* ===== verification/EnvelopeTheorems.v ===== *)
(** * Action envelopes: properties of validation, sealing and verification

    The canonicalizer and Ed25519 are arbitrary functions throughout; the round
    trip assumes of Ed25519 only that a signature of the private key verifies
    under its public key, and its witness instantiates both. *)

From S2P Require Import Prelude.
From S2P Require Import Sha256.
From S2P Require Import GoText.
From S2P Require Import GoStrings.
From S2P Require Import GoJson.
From S2P Require Import ExecutionLease.
From S2P Require Import Envelope.
From S2P Require Import ActionQueue.
From S2P Require Import Examples.
From stdpp Require Import pretty.
From Stdlib Require Import Ascii String.

Open Scope Z_scope.

(** ** Checks in sequence *)

Lemma check_Ok b text u : check b text = Ok u -> b = true.
Proof. apply ensure_Ok. Qed.

(** Take a successful chain of checks apart, and the guards it passed. *)
Ltac checked :=
  repeat match goal with
  | H : mbind _ _ = Ok _ |- _ => apply Result_bind_Ok in H as (? & ? & ?)
  | H : check _ _ = Ok _ |- _ => apply check_Ok in H
  | H : ensure _ _ = Ok _ |- _ => apply ensure_Ok in H
  end.

Lemma check_true b text : b = true -> check b text = Ok tt.
Proof. by intros ->. Qed.

(** ** Hexadecimal digests and case folding *)

Lemma ascii_fold_lower_hex c : is_lower_hex c = true -> ascii_fold c = c.
Proof.
  unfold is_lower_hex, is_digit, ascii_fold, is_upper, in_range.
  destruct (_ && (byteZ c <=? 90)) eqn:H; [|done]. guards.
  intros [H'|H']%orb_true_iff; guards; lia.
Qed.

Lemma EqualFold_lower_hex s t :
  all_chars is_lower_hex s = true -> all_chars is_lower_hex t = true -> EqualFold s t = true -> s = t.
Proof.
  revert t. induction s as [|c s IH]; intros [|d t] Hs Ht H; simpl in *; try done. guards.
  match goal with H : Ascii.eqb _ _ = true |- _ => apply Ascii.eqb_eq in H; rewrite !ascii_fold_lower_hex in H by done end.
  f_equal; [done|by apply IH].
Qed.

Lemma EqualFold_refl s : EqualFold s s = true.
Proof. induction s as [|c s IH]; [done|]. simpl. by rewrite Ascii.eqb_refl. Qed.

Lemma sha256_hex_hex64 s : hex64Pattern (sha256_hex s) = true.
Proof. apply (sha256_hex_pattern s). Qed.

Lemma hex64_chars s : hex64Pattern s = true -> all_chars is_lower_hex s = true.
Proof. unfold hex64Pattern. intros. by guards. Qed.

(** ** Sealing changes the plan hash and the signature only *)

Section sealing.
Context (Transform : string -> Result string).

Lemma calculatePlanHash_ignores e h sig :
  calculatePlanHash Transform {| e with env_PlanHash := h; env_Signature := sig |} =
  calculatePlanHash Transform e.
Proof. done. Qed.

Lemma canonicalSigningMessage_ignores e value :
  let sig := env_Signature e in
  canonicalSigningMessage Transform {| e with env_Signature := {| sig with sig_Value := value |} |} =
  canonicalSigningMessage Transform e.
Proof. done. Qed.

Lemma calculatePlanHash_hex e h : calculatePlanHash Transform e = Ok h -> hex64Pattern h = true.
Proof.
  unfold calculatePlanHash. intros (canonical & _ & H)%Result_bind_Ok. injection H as <-. apply sha256_hex_hex64.
Qed.

(** Validation sees the plan hash and the signature through their own checks. *)
Lemma Validate_seal e h sig :
  Envelope_Validate e = Ok tt -> (h == ""%string) || hex64Pattern h = true ->
  Signature_validateOptional sig = Ok tt ->
  Envelope_Validate {| e with env_PlanHash := h; env_Signature := sig |} = Ok tt.
Proof.
  intros Hv Hh Hs. unfold Envelope_Validate in *.
  repeat (apply Result_bind_Ok in Hv as ([] & Hstep & Hv);
          refine (Result_bind_intro _ _ tt _ _ _);
          [first [exact Hstep|exact Hs|exact (check_true _ _ Hh)]|clear Hstep]).
  exact Hv.
Qed.
End sealing.

Lemma Validate_planHash e :
  Envelope_Validate e = Ok tt -> env_PlanHash e = ""%string \/ hex64Pattern (env_PlanHash e) = true.
Proof.
  unfold Envelope_Validate. intros Hv.
  do 9 apply Result_bind_Ok in Hv as ([] & _ & Hv). apply Result_bind_Ok in Hv as ([] & Hstep & _).
  apply check_Ok, orb_true_iff in Hstep as [H|H]; [left; exact (eqb_true_1 _ _ H)|by right].
Qed.

(** ** The signature block a seal writes *)

Lemma sealed_signature_valid keyID signature :
  validToken keyID = true -> len signature = SignatureSize ->
  Signature_validateOptional {| sig_Algorithm := SignatureEd25519; sig_KeyID := keyID;
                                sig_Value := base64_EncodeToString signature |} = Ok tt.
Proof.
  intros Hk Hl. unfold Signature_validateOptional. rewrite (proj2 (eqb_false _ _)) by discriminate.
  cbn [sig_Algorithm sig_KeyID sig_Value]. rewrite eqb_same, Hk.
  pose proof (base64_Decode_Encode signature) as Hd. pose proof (len_base64 signature) as Hb.
  rewrite (proj2 (eqb_false (base64_EncodeToString signature) ""%string)), Hd, Hl.
  - unfold SignatureSize in *. by rewrite (proj2 (Z.leb_le _ 256)) by lia.
  - intros He. rewrite He in Hd. injection Hd as <-. done.
Qed.

(** Sealing and verifying: an envelope sealed with a signing key verifies, as
    sealed, at every time of its validity window with any resolver that knows the
    key as active and not revoked. *)
Theorem sealed_envelope_verifies Transform ed25519_Sign ed25519_Verify keyID privateKey signer
    envelope requester sealed (resolver : KeyResolver) record now :
  (forall message, ed25519_Verify (key_PublicKey record) message (ed25519_Sign privateKey message) = true) ->
  NewEd25519Signer ed25519_Sign keyID privateKey None = Ok signer ->
  Seal Transform envelope requester (Some signer) = Ok sealed ->
  resolver keyID = Ok record -> len (key_PublicKey record) = PublicKeySize ->
  key_Revoked record = false -> keyInactive record now = false ->
  zt_instant (env_NotBefore envelope) <= now < zt_instant (env_ExpiresAt envelope) ->
  Verify Transform ed25519_Verify sealed (Some resolver) now = Ok tt.
Proof.
  intros Hlaw Hsigner Hseal Hres Hlen Hrev Hact [Hnb Hex].
  unfold NewEd25519Signer in Hsigner. destruct (validToken keyID && _) eqn:Hk; [|done]. injection Hsigner as <-.
  apply andb_true_iff in Hk as [Hk _]. unfold Seal in Hseal. cbn [signer_KeyID signer_Sign] in Hseal. checked.
  match goal with H : wrapError _ (Ok ?s) = Ok _ |- _ => injection H as <- end.
  match goal with H : (len _ =? SignatureSize) = true |- _ => apply Z.eqb_eq in H; rename H into Hsl end.
  match goal with H : calculatePlanHash _ _ = Ok ?h |- _ => rename H into Hph, h into planHash end.
  match goal with H : canonicalSigningMessage _ _ = Ok ?m |- _ => rename H into Hmsg, m into message end.
  match goal with H : Envelope_Validate _ = Ok ?u |- _ => rename H into Hval; destruct u end.
  match goal with H : mret _ = Ok sealed |- _ => injection H as <- end.
  set (sealed := {| env_SchemaVersion := _ |}).
  pose proof (calculatePlanHash_hex _ _ _ Hph) as Hhex.
  assert (Envelope_Validate sealed = Ok tt) as Hv.
  { apply (Validate_seal (unsealed envelope requester)); [done|by rewrite Hhex, orb_true_r|].
    by apply sealed_signature_valid. }
  assert (planHash <> ""%string) as Hne by (intros ->; done).
  unfold Verify. rewrite Hv. unfold mbind, Result_bind.
  change (env_ExpiresAt sealed) with (env_ExpiresAt envelope). change (env_NotBefore sealed) with (env_NotBefore envelope).
  unfold Before. rewrite (proj2 (Z.ltb_lt _ _) Hex), (proj2 (Z.ltb_ge _ _) Hnb). cbn [ensure negb].
  change (env_PlanHash sealed) with planHash. rewrite (proj2 (eqb_false _ _) Hne).
  rewrite (proj2 (eqb_false (env_Signature sealed) Signature_zero)) by discriminate. cbn [orb negb ensure].
  change (env_Signature sealed) with {| sig_Algorithm := SignatureEd25519; sig_KeyID := keyID;
    sig_Value := base64_EncodeToString (ed25519_Sign privateKey message) |}.
  rewrite sealed_signature_valid by done. cbn [sig_KeyID sig_Value].
  change (calculatePlanHash Transform sealed) with (calculatePlanHash Transform (unsealed envelope requester)).
  rewrite Hph, EqualFold_refl. cbn [ensure]. rewrite Hres, Hrev, Hact, Hlen. cbn [negb ensure Z.eqb].
  match type of Hmsg with canonicalSigningMessage _ ?x = _ =>
    change (canonicalSigningMessage Transform sealed) with (canonicalSigningMessage Transform x) end.
  rewrite Hmsg, base64_Decode_Encode, Hlaw. done.
Qed.

Lemma demo_seals :
  match Seal demo_Transform (demo_envelope "action-1" "key-1" "api") "operator-1" (Some demo_signer) with
  | Ok _ => true
  | Err _ => false
  end = true.
Proof. vm_compute. reflexivity. Qed.

Lemma demo_key_accepted : validToken "key-a" && (len (Sum256 "a" +:+ Sum256 "b") =? PrivateKeySize) = true.
Proof. vm_compute. reflexivity. Qed.

Lemma sealed_envelope_verifies_witness :
  exists sealed, Seal demo_Transform (demo_envelope "action-1" "key-1" "api") "operator-1" (Some demo_signer) = Ok sealed /\
    Verify demo_Transform demo_Verify sealed (Some demo_resolver) demo_now = Ok tt.
Proof.
  pose proof demo_seals as Hok.
  destruct (Seal demo_Transform (demo_envelope "action-1" "key-1" "api") "operator-1" (Some demo_signer))
    as [sealed|e] eqn:Hseal; [clear Hok|discriminate Hok].
  exists sealed. split; [reflexivity|].
  apply (sealed_envelope_verifies demo_Transform demo_Sign demo_Verify "key-a" (Sum256 "a" +:+ Sum256 "b") demo_signer
    (demo_envelope "action-1" "key-1" "api") "operator-1" sealed demo_resolver demo_key demo_now).
  - intros message. unfold demo_Verify. apply eqb_same.
  - unfold NewEd25519Signer. rewrite demo_key_accepted. reflexivity.
  - exact Hseal.
  - reflexivity.
  - vm_compute. reflexivity.
  - reflexivity.
  - reflexivity.
  - vm_compute. split; [discriminate|reflexivity].
Defined.

(** C29. What a verified envelope is: valid, within its window, with a plan hash
    that is exactly the SHA-256 of its canonical form without hash and signature,
    and an Ed25519 signature that the resolved key, neither revoked nor outside
    its activation window, accepts for the canonical form with the hash. *)
Theorem verified_envelope_is_authentic Transform ed25519_Verify envelope (resolver : KeyResolver) now u :
  Verify Transform ed25519_Verify envelope (Some resolver) now = Ok u ->
  Envelope_ValidateAt envelope now = Ok tt /\
  calculatePlanHash Transform envelope = Ok (env_PlanHash envelope) /\
  exists record message signature,
    resolver (sig_KeyID (env_Signature envelope)) = Ok record /\
    key_Revoked record = false /\ keyInactive record now = false /\
    len (key_PublicKey record) = PublicKeySize /\
    canonicalSigningMessage Transform envelope = Ok message /\
    base64_DecodeString (sig_Value (env_Signature envelope)) = Some signature /\
    ed25519_Verify (key_PublicKey record) message signature = true.
Proof.
  unfold Verify. intros H. checked.
  match goal with H : Envelope_Validate _ = Ok ?u |- _ => destruct u; rename H into Hv end.
  match goal with H : calculatePlanHash _ _ = Ok ?h |- _ => rename H into Hph, h into planHash end.
  repeat match goal with
  | H : negb ?b = true |- _ => apply negb_true_iff in H
  | H : _ || _ = false |- _ => apply orb_false_iff in H as [? ?]
  | H : (_ == _) = false |- _ => apply eqb_false in H
  | H : (len _ =? _) = true |- _ => apply Z.eqb_eq in H
  end.
  split_and!.
  - unfold Envelope_ValidateAt. rewrite Hv. unfold mbind, Result_bind.
    repeat match goal with H : Before _ _ = _ |- _ => rewrite H end. done.
  - rewrite Hph. f_equal. apply EqualFold_lower_hex; [| |done]; apply hex64_chars.
    + by apply (calculatePlanHash_hex Transform envelope).
    + by destruct (Validate_planHash _ Hv).
  - destruct (base64_DecodeString _) as [signature|] eqn:Hsig; [|done].
    eexists _, _, signature. by split_and!.
Qed.

Lemma demo_signer_verifies :
  match Seal demo_Transform (demo_envelope "action-1" "key-1" "api") "operator-1" (Some demo_signer) with
  | Ok sealed => Verify demo_Transform demo_Verify sealed (Some demo_resolver) demo_now
  | Err e => Err e
  end = Ok tt.
Proof. vm_compute. reflexivity. Qed.

Lemma verified_envelope_is_authentic_witness : exists sealed,
  Seal demo_Transform (demo_envelope "action-1" "key-1" "api") "operator-1" (Some demo_signer) = Ok sealed /\
  calculatePlanHash demo_Transform sealed = Ok (env_PlanHash sealed).
Proof.
  pose proof demo_signer_verifies as H.
  destruct (Seal demo_Transform (demo_envelope "action-1" "key-1" "api") "operator-1" (Some demo_signer))
    as [sealed|e] eqn:Hseal; [|discriminate H].
  exists sealed. split; [reflexivity|].
  exact (proj1 (proj2 (verified_envelope_is_authentic demo_Transform demo_Verify sealed demo_resolver demo_now tt H))).
Defined.

(** ** The variant a validated envelope carries *)

(** The target, parameters and observed state are of the action type, and no
    other variant is set. *)
Definition single_variant (e : Envelope) : Prop :=
  let target := env_Target e in
  let param := env_Parameters e in
  let obs := env_ObservedState e in
  match env_ActionType e with
  | ActionKubernetesRolloutRestart | ActionKubernetesScale =>
      is_Some (target_KubernetesDeployment target) /\ target_GitOpsApplication target = None /\
      target_AWXHosts target = None /\
      is_Some (obs_KubernetesDeployment obs) /\ obs_GitOpsApplication obs = None /\ obs_AWXService obs = None /\
      param_GitOpsRevert param = None /\ param_AWXServiceRestart param = None /\
      if env_ActionType e == ActionKubernetesScale
      then is_Some (param_KubernetesScale param) /\ param_KubernetesRolloutRestart param = None
      else is_Some (param_KubernetesRolloutRestart param) /\ param_KubernetesScale param = None
  | ActionGitOpsRevert =>
      is_Some (target_GitOpsApplication target) /\ target_KubernetesDeployment target = None /\
      target_AWXHosts target = None /\
      is_Some (obs_GitOpsApplication obs) /\ obs_KubernetesDeployment obs = None /\ obs_AWXService obs = None /\
      is_Some (param_GitOpsRevert param) /\ param_AWXServiceRestart param = None /\
      param_KubernetesScale param = None /\ param_KubernetesRolloutRestart param = None
  | ActionAWXServiceRestart =>
      is_Some (target_AWXHosts target) /\ target_KubernetesDeployment target = None /\
      target_GitOpsApplication target = None /\
      is_Some (obs_AWXService obs) /\ obs_KubernetesDeployment obs = None /\ obs_GitOpsApplication obs = None /\
      is_Some (param_AWXServiceRestart param) /\ param_GitOpsRevert param = None /\
      param_KubernetesScale param = None /\ param_KubernetesRolloutRestart param = None
  | ActionTypeOther _ => False
  end.

(** The resource the credential of an action gives access to. *)
Inductive CredentialedResource :=
| Deployment (cluster namespace name : string)
| Repository (id : string)
| JobTemplate (inventory template : Z)
| Unbound.

Definition credentialed_resource (e : Envelope) : CredentialedResource :=
  match target_KubernetesDeployment (env_Target e), target_GitOpsApplication (env_Target e),
        target_AWXHosts (env_Target e), param_AWXServiceRestart (env_Parameters e) with
  | Some t, _, _, _ => Deployment (kt_ClusterID t) (kt_Namespace t) (kt_Name t)
  | None, Some t, _, _ => Repository (gt_RepositoryID t)
  | None, None, Some t, Some p => JobTemplate (at_InventoryID t) (awx_JobTemplateID p)
  | None, None, _, _ => Unbound
  end.

(** What a credential scope may say of an action type and a resource: the
    permission of the type, and the resource's name. *)
Definition scope_names (actionType : ActionType) (resource : CredentialedResource) (permission name : string) : Prop :=
  match actionType, resource with
  | ActionKubernetesRolloutRestart, Deployment cluster namespace deployment =>
      permission = "PATCH_DEPLOYMENT_RESTART"%string /\
      kubernetesPattern namespace = true /\ kubernetesPattern deployment = true /\
      name = cluster +:+ "/" +:+ namespace +:+ "/deployment/" +:+ deployment
  | ActionKubernetesScale, Deployment cluster namespace deployment =>
      permission = "PATCH_DEPLOYMENT_SCALE"%string /\
      kubernetesPattern namespace = true /\ kubernetesPattern deployment = true /\
      name = cluster +:+ "/" +:+ namespace +:+ "/deployment/" +:+ deployment
  | ActionGitOpsRevert, Repository id => permission = "CREATE_REVERT_MR"%string /\ name = id
  | ActionAWXServiceRestart, JobTemplate inventory template =>
      permission = "LAUNCH_SERVICE_RESTART_TEMPLATE"%string /\ 0 < inventory /\ 0 < template /\
      name = "inventory/" +:+ FormatInt inventory +:+ "/job-template/" +:+ FormatInt template
  | _, _ => False
  end.

Lemma binding_Ok e permission resource u :
  Envelope_validateCredentialBinding e permission resource = Ok u ->
  cred_Permission (env_CredentialScope e) = permission /\ cred_Resource (env_CredentialScope e) = resource.
Proof. unfold Envelope_validateCredentialBinding. intros H%check_Ok. by guards. Qed.

(** Decide the options a count of one leaves open. *)
Ltac only_one H :=
  cbn [is_some] in H;
  repeat match type of H with
  | context [is_some ?o] => destruct o; cbn [is_some] in H; try (vm_compute in H; discriminate H)
  end; clear H.

Lemma Validate_variant e u :
  Envelope_Validate e = Ok u ->
  single_variant e /\
  scope_names (env_ActionType e) (credentialed_resource e)
    (cred_Permission (env_CredentialScope e)) (cred_Resource (env_CredentialScope e)).
Proof.
  unfold Envelope_Validate. intros Hv. do 11 apply Result_bind_Ok in Hv as ([] & _ & Hv).
  cbv zeta in Hv. apply Result_bind_Ok in Hv as ([] & Ht%check_Ok & Hv).
  apply Result_bind_Ok in Hv as ([] & _ & Hv). apply Result_bind_Ok in Hv as ([] & Hp%check_Ok & Hv).
  apply Result_bind_Ok in Hv as ([] & Ho%check_Ok & Hv).
  unfold single_variant, credentialed_resource, scope_names.
  destruct (env_ActionType e) eqn:Hty; [| | | |discriminate Hv];
    [destruct (target_KubernetesDeployment _) as [t|], (param_KubernetesRolloutRestart _) as [p|],
      (obs_KubernetesDeployment _) as [o|]; try discriminate Hv
    |destruct (target_KubernetesDeployment _) as [t|], (param_KubernetesScale _) as [p|],
      (obs_KubernetesDeployment _) as [o|]; try discriminate Hv
    |destruct (target_GitOpsApplication _) as [t|], (param_GitOpsRevert _) as [p|],
      (obs_GitOpsApplication _) as [o|]; try discriminate Hv
    |destruct (target_AWXHosts _) as [t|], (param_AWXServiceRestart _) as [p|],
      (obs_AWXService _) as [o|]; try discriminate Hv];
    only_one Ht; only_one Hp; only_one Ho; (split; [by split_and!|]);
    [unfold Envelope_validateKubernetesRestart in Hv|unfold Envelope_validateKubernetesScale in Hv
    |unfold Envelope_validateGitOpsRevert in Hv|unfold Envelope_validateAWXRestart in Hv];
    try unfold KubernetesDeploymentTarget_validate in Hv; checked;
    match goal with H : Envelope_validateCredentialBinding _ _ _ = Ok _ |- _ => apply binding_Ok in H as [-> ->] end;
    unfold safePositiveInteger in *; guards; split_and!; done || lia.
Qed.

(** ** Resource names determine resources *)

Definition not_slash (c : ascii) : bool := negb (Ascii.eqb c "/").

Lemma kubernetesPattern_not_slash s : kubernetesPattern s = true -> all_chars not_slash s = true.
Proof.
  destruct s as [|c s]; [done|]. intros H. simpl in H. guards. simpl.
  assert (forall d, is_lower_alnum d || one_of_chars "-." d = true -> not_slash d = true) as Hd.
  { intros d. by destruct d as [[] [] [] [] [] [] [] []]. }
  rewrite Hd by (apply orb_true_iff; by left). by apply (all_chars_impl _ _ _ Hd).
Qed.

Lemma FormatInt_not_slash n : 0 < n -> all_chars not_slash (FormatInt n) = true.
Proof.
  intros Hn. apply (all_chars_impl is_digit); [|by apply FormatInt_digits].
  intros c. by destruct c as [[] [] [] [] [] [] [] []].
Qed.

Lemma kubernetes_resource_inj cluster namespace deployment cluster' namespace' deployment' :
  kubernetesPattern namespace = true -> kubernetesPattern deployment = true ->
  kubernetesPattern namespace' = true -> kubernetesPattern deployment' = true ->
  cluster +:+ "/" +:+ namespace +:+ "/deployment/" +:+ deployment =
  cluster' +:+ "/" +:+ namespace' +:+ "/deployment/" +:+ deployment' ->
  cluster = cluster' /\ namespace = namespace' /\ deployment = deployment'.
Proof.
  intros Hn Hd Hn' Hd' H.
  assert (forall c n d, c +:+ "/" +:+ n +:+ "/deployment/" +:+ d =
    ((c +:+ String "/" n) +:+ "/deployment") +:+ String "/" d) as Hsplit.
  { intros c n d. rewrite <-!string_app_assoc. done. }
  rewrite !Hsplit in H. apply last_separator in H as [H ->]; try by apply kubernetesPattern_not_slash.
  apply (last_separator "/" _ "deployment" _ "deployment") in H as [H _]; [|done|done].
  by apply last_separator in H as [-> ->]; try by apply kubernetesPattern_not_slash.
Qed.

Lemma job_template_resource_inj inventory template inventory' template' :
  0 < inventory -> 0 < template -> 0 < inventory' -> 0 < template' ->
  "inventory/" +:+ FormatInt inventory +:+ "/job-template/" +:+ FormatInt template =
  "inventory/" +:+ FormatInt inventory' +:+ "/job-template/" +:+ FormatInt template' ->
  inventory = inventory' /\ template = template'.
Proof.
  intros Hi Ht Hi' Ht' H.
  assert (forall i t, "inventory/" +:+ i +:+ "/job-template/" +:+ t =
    (("inventory" +:+ String "/" i) +:+ "/job-template") +:+ String "/" t) as Hsplit.
  { intros i t. rewrite <-!string_app_assoc. done. }
  rewrite !Hsplit in H. apply last_separator in H as [H Heq]; try by apply FormatInt_not_slash.
  apply (last_separator "/" _ "job-template" _ "job-template") in H as [H _]; [|done|done].
  apply last_separator in H as [_ Heq']; try by apply FormatInt_not_slash.
  split; by apply (inj pretty).
Qed.

Lemma scope_names_inj t1 r1 t2 r2 permission name :
  scope_names t1 r1 permission name -> scope_names t2 r2 permission name -> t1 = t2 /\ r1 = r2.
Proof.
  intros H1 H2.
  destruct t1, r1; simpl in H1; try done; destruct t2, r2; simpl in H2; try done; destruct_and!; subst; try done; (split; [done|]); try done;
    first [match goal with H : _ = _ |- _ => apply kubernetes_resource_inj in H as (-> & -> & ->); done end
          |match goal with H : _ = _ |- _ => apply job_template_resource_inj in H as (-> & ->); done end].
Qed.

(** The credential scope of a validated envelope identifies what it may touch:
    two validated envelopes whose scopes name the same permission and resource
    have the same action type and the same deployment, repository or job
    template, although identifiers may contain the separator. *)
Theorem credential_scope_binds_target e1 e2 u1 u2 :
  Envelope_Validate e1 = Ok u1 -> Envelope_Validate e2 = Ok u2 ->
  cred_Permission (env_CredentialScope e1) = cred_Permission (env_CredentialScope e2) ->
  cred_Resource (env_CredentialScope e1) = cred_Resource (env_CredentialScope e2) ->
  env_ActionType e1 = env_ActionType e2 /\ credentialed_resource e1 = credentialed_resource e2.
Proof.
  intros [_ H1]%Validate_variant [_ H2]%Validate_variant Hp Hr. rewrite Hp, Hr in H1.
  by apply (scope_names_inj _ _ _ _ _ _ H1 H2).
Qed.

Lemma credential_scope_binds_target_witness :
  credentialed_resource (demo_envelope "action-1" "key-1" "api") =
  credentialed_resource (demo_envelope "action-2" "key-2" "api").
Proof.
  apply (credential_scope_binds_target (demo_envelope "action-1" "key-1" "api")
    (demo_envelope "action-2" "key-2" "api") tt tt); vm_compute; reflexivity.
Defined.

(** ** Bounds *)

Lemma Sub_small t u bound : 0 < Sub t u <= bound -> bound < MaxInt64 -> Sub t u = t - u.
Proof. unfold Sub, MinInt64, MaxInt64. lia. Qed.

Lemma Validate_window e u :
  Envelope_Validate e = Ok u ->
  let validity := zt_instant (env_ExpiresAt e) - zt_instant (env_NotBefore e) in
  0 < validity <= MaxEnvelopeValidity /\
  0 < cred_TTLSeconds (env_CredentialScope e) * Second <= MaxCredentialTTL /\
  cred_TTLSeconds (env_CredentialScope e) * Second <= validity.
Proof.
  intros Hv validity. unfold Envelope_Validate in Hv.
  do 3 apply Result_bind_Ok in Hv as ([] & _ & Hv). apply Result_bind_Ok in Hv as ([] & Htimes & Hv).
  apply Result_bind_Ok in Hv as ([] & _ & Hv). apply Result_bind_Ok in Hv as ([] & Hscope & _).
  unfold validateTimes in Htimes. unfold CredentialScope_validate in Hscope. cbv zeta in Htimes, Hscope.
  checked. guards.
  pose proof (Sub_small (zt_instant (env_ExpiresAt e)) (zt_instant (env_NotBefore e)) MaxEnvelopeValidity) as Hsub.
  specialize (Hsub ltac:(lia) ltac:(done)). unfold validity. lia.
Qed.

(** The check of the action type's own part, behind all the common ones. *)
Lemma Validate_own_part e u :
  Envelope_Validate e = Ok u ->
  match env_ActionType e with
  | ActionKubernetesScale => forall t p o,
      target_KubernetesDeployment (env_Target e) = Some t -> param_KubernetesScale (env_Parameters e) = Some p ->
      obs_KubernetesDeployment (env_ObservedState e) = Some o -> Envelope_validateKubernetesScale e t p o = Ok u
  | ActionAWXServiceRestart => forall t p o,
      target_AWXHosts (env_Target e) = Some t -> param_AWXServiceRestart (env_Parameters e) = Some p ->
      obs_AWXService (env_ObservedState e) = Some o -> Envelope_validateAWXRestart e t p o = Ok u
  | _ => True
  end.
Proof.
  unfold Envelope_Validate. intros Hv. do 15 apply Result_bind_Ok in Hv as ([] & _ & Hv).
  destruct (env_ActionType e); try done; intros t p o Ht Hp Ho; by rewrite Ht, Hp, Ho in Hv.
Qed.

Lemma increasing_after_lt values previous :
  increasing_after previous values = true ->
  NoDup values /\ Forall (fun v => 0 < v /\ forall p, previous = Some p -> p < v) values.
Proof.
  revert previous. induction values as [|v values IH]; intros previous H; [by split; constructor|].
  simpl in H. apply andb_true_iff in H as [H Hrest]. destruct (IH _ Hrest) as [Hnd Hall].
  assert (0 < v /\ forall p, previous = Some p -> p < v) as Hv.
  { unfold safePositiveInteger in *. guards. split; [lia|]. intros p ->. guards. lia. }
  split.
  - constructor; [|done]. intros Hin. rewrite Forall_forall in Hall. destruct (Hall _ Hin) as [_ Hlt].
    specialize (Hlt v eq_refl). lia.
  - constructor; [done|]. eapply Forall_impl; [exact Hall|]. intros w [Hw Hlt]. split; [done|]. intros p Hp.
    specialize (Hlt v eq_refl). destruct Hv as [_ Hv]. specialize (Hv p Hp). lia.
Qed.

(** Validation bounds what an envelope authorises: the validity window is
    positive and at most 30 minutes, the credential lives between one second and
    15 minutes and not longer than the window, exactly one target, parameter set
    and observed state is present and all are of the action type, and the target
    set is bounded: replicas within the signed bounds, at most ten distinct hosts. *)
Theorem valid_envelope_is_bounded e u :
  Envelope_Validate e = Ok u ->
  let validity := zt_instant (env_ExpiresAt e) - zt_instant (env_NotBefore e) in
  0 < validity <= MaxEnvelopeValidity /\
  1 <= cred_TTLSeconds (env_CredentialScope e) <= 900 /\
  cred_TTLSeconds (env_CredentialScope e) * Second <= validity /\
  single_variant e /\
  (forall p, env_ActionType e = ActionKubernetesScale -> param_KubernetesScale (env_Parameters e) = Some p ->
    0 <= scale_Minimum p <= scale_Replicas p /\ scale_Replicas p <= scale_Maximum p) /\
  (forall t, env_ActionType e = ActionAWXServiceRestart -> target_AWXHosts (env_Target e) = Some t ->
    1 <= Z.of_nat (List.length (at_HostIDs t)) <= 10 /\ NoDup (at_HostIDs t) /\ Forall (Z.lt 0) (at_HostIDs t)).
Proof.
  intros Hv validity. pose proof (Validate_variant _ _ Hv) as [Hvar _].
  pose proof (Validate_own_part _ _ Hv) as Hown.
  destruct (Validate_window _ _ Hv) as (Hw & Httl & Hle). unfold MaxCredentialTTL, Minute, Second in Httl.
  split_and!; try done; try lia.
  - intros p Hty Hp. rewrite Hty in Hown. unfold single_variant in Hvar. rewrite Hty in Hvar.
    destruct Hvar as ([t Ht] & _ & _ & [o Ho] & _). specialize (Hown t p o Ht Hp Ho).
    unfold Envelope_validateKubernetesScale in Hown. checked. guards. lia.
  - intros t Hty Ht. rewrite Hty in Hown. unfold single_variant in Hvar. rewrite Hty in Hvar.
    destruct Hvar as (_ & _ & _ & [o Ho] & _ & _ & [p Hp] & _). specialize (Hown t p o Ht Hp Ho).
    unfold Envelope_validateAWXRestart, MaxAWXHosts in Hown. cbv zeta in Hown. checked. guards.
    match goal with H : strictlyIncreasingPositive _ = true |- _ =>
      destruct (increasing_after_lt _ _ H) as [Hnd Hall] end.
    split_and!; try done; try lia. eapply Forall_impl; [exact Hall|]. by intros v [? _].
Qed.

Lemma valid_envelope_is_bounded_witness :
  1 <= cred_TTLSeconds (env_CredentialScope (demo_envelope "action-1" "key-1" "api")) <= 900.
Proof.
  assert (Envelope_Validate (demo_envelope "action-1" "key-1" "api") = Ok tt) as Hv by (vm_compute; reflexivity).
  exact (proj1 (proj2 (valid_envelope_is_bounded _ tt Hv))).
Defined.
