(* ===== verification/ActionQueueTheorems.v ===== *)
(** * The action queue: its properties

    The correctness statements of [MemoryActionQueue], for every canonicalizer
    [Transform], every answer of the credential gate and every reading of the
    clocks, with concrete runs that show their hypotheses can hold. *)

From S2P Require Import Prelude.
From S2P Require Import Sha256.
From S2P Require Import GoText.
From S2P Require Import GoJson.
From S2P Require Import ExecutionLease.
From S2P Require Import Envelope.
From S2P Require Import ActionQueue.
From S2P Require Import ActionQueueFacts.
From S2P Require Import ActionQueueCalls.
From S2P Require Import Examples.

(** C36. In every reachable queue each record is bound to the submission it was
    created from, only held leases have a token and they end with the envelope,
    a result that waits for finalization has its receipt, the FIFO order and the
    idempotency index list exactly the records, at most one action per target is
    active, and a reconciliation id is used once. *)
Theorem action_queue_invariant Transform q : queue_reachable Transform q -> queue_wf Transform q.
Proof. apply queue_reachable_wf. Qed.

Lemma action_queue_invariant_witness : queue_wf demo_Transform (demo_queue demo_start_calls).
Proof. apply (action_queue_invariant demo_Transform). apply demo_queue_reachable. Defined.

(** C12. Every call implements the gated lifecycle: each stored action keeps its
    submission, request hash and identity and moves only along [action_step], whose
    steps that give up the target carry the evidence a gate of that very call gave.
    Within an epoch the lease token and the runner are dropped at most, never
    replaced, and only the holder's token is recorded as the one that completed it;
    once a result was reported, its receipt, the token hash and epoch it was reported
    with, the completion status, the result hash and the runner's identity are final. *)
Theorem calls_follow_gated_lifecycle Transform q call result q' id r :
  queue_reachable Transform q -> run_queue Transform call q = (result, q') ->
  queue_records q !! id = Some r ->
  exists r', queue_records q' !! id = Some r' /\ same_action r r' /\
    rtc (action_step (evidence (call_gates call) r)) (cycle r) (cycle r') /\
    fence_kept r r' /\ report_kept r r'.
Proof.
  intros Hq%queue_reachable_wf Hrun Hr. pose proof (run_queue_moves Transform call q Hq id r Hr) as Hm.
  rewrite Hrun in Hm. destruct Hm as (r' & Hr' & [Hc Hs Hf _ Hk]). eauto 6.
Qed.

Lemma calls_follow_gated_lifecycle_witness :
  exists r', rtc (action_step (evidence [demo_clean] (demo_record demo_finalize_calls "action-1")))
    (StatusFinalizing, 1) (cycle r').
Proof.
  destruct (calls_follow_gated_lifecycle demo_Transform (demo_queue demo_finalize_calls) (demo_finalize demo_clean)
    (run_queue demo_Transform (demo_finalize demo_clean) (demo_queue demo_finalize_calls)).1
    (run_queue demo_Transform (demo_finalize demo_clean) (demo_queue demo_finalize_calls)).2
    "action-1" (demo_record demo_finalize_calls "action-1")) as (r' & _ & _ & Hc & _).
  - apply demo_queue_reachable.
  - apply surjective_pairing.
  - vm_compute. reflexivity.
  - exists r'.
    assert (cycle (demo_record demo_finalize_calls "action-1") = (StatusFinalizing, 1)) as <-
      by (vm_compute; reflexivity).
    exact Hc.
Defined.

(** C7. The target of a WRITE action is never given up on an open credential. If
    an action is active in some epoch before a call and not active in that epoch
    after it, a credential gate of that call answered, for this action and epoch,
    that its credential is terminal; only a lease that was never started may also
    be released because there is no credential at all. *)
Theorem write_target_released_only_when_clean Transform q call result q' id r r' :
  queue_reachable Transform q -> run_queue Transform call q = (result, q') ->
  queue_records q !! id = Some r -> queue_records q' !! id = Some r' ->
  sub_Pool (rec_submission r) = PoolWrite ->
  actionLeaseActive (ex_Status (rec_execution r)) = true ->
  ~ (actionLeaseActive (ex_Status (rec_execution r')) = true /\
     ex_LeaseEpoch (rec_execution r') = ex_LeaseEpoch (rec_execution r)) ->
  exists gate, gate ∈ call_gates call /\
    gateClears gate id (ex_LeaseEpoch (rec_execution r)) (ex_Status (rec_execution r) == StatusLeased).
Proof.
  intros Hq%queue_reachable_wf Hrun Hr Hr' Hp Ha Hrel.
  pose proof (qwf_records _ _ Hq id r Hr) as Hwf. rewrite <- (rwf_pool _ _ _ Hwf) in Hp.
  pose proof (run_queue_moves Transform call q Hq id r Hr) as Hm. rewrite Hrun in Hm.
  destruct Hm as (r1 & Hr1 & [Hc _ _ _ _]). simpl in Hr1. rewrite Hr' in Hr1. injection Hr1 as <-.
  destruct (release_needs_evidence (evidence (call_gates call) r) (cycle r) (cycle r')) as [Hk|[Ht Hf]];
    [intros n; apply evidence_missing|exact Hc|exact Ha|destruct (Hrel Hk)|].
  simpl in Ht, Hf. rewrite <- (rwf_id _ _ _ Hwf).
  destruct (_ == StatusLeased) eqn:Hs; guards.
  - by apply Exists_exists, Ht.
  - by apply Exists_exists, Hf.
Qed.

Lemma write_target_released_only_when_clean_witness :
  exists gate, gate ∈ [demo_clean] /\ gateClears gate "action-1" 1 false.
Proof.
  apply (write_target_released_only_when_clean demo_Transform (demo_queue demo_finalize_calls)
    (demo_finalize demo_clean)
    (run_queue demo_Transform (demo_finalize demo_clean) (demo_queue demo_finalize_calls)).1
    (run_queue demo_Transform (demo_finalize demo_clean) (demo_queue demo_finalize_calls)).2
    "action-1" (demo_record demo_finalize_calls "action-1")
    (demo_record (demo_finalize_calls ++ [demo_finalize demo_clean]) "action-1")).
  - apply demo_queue_reachable.
  - apply surjective_pairing.
  - vm_compute. reflexivity.
  - vm_compute. reflexivity.
  - vm_compute. reflexivity.
  - vm_compute. reflexivity.
  - vm_compute. intros [? _]. discriminate.
Defined.

(** What [Claim] grants: the first action of the FIFO order (after expiry)
    that was not passed over at one of the times the loop read the clock; the
    grant is for the next epoch, in the runner's scope, before the envelope's
    deadline, at most one lease duration long and never past that deadline.
    [ErrNoLeaseAvailable] with spare concurrency means that every stored action
    was not claimable at one of those times. *)
Theorem claim_grants_in_order Transform clock gate source request q result q' :
  queue_reachable Transform q -> validateRunnerScope request = Ok tt -> clock <> 0 ->
  ActionQueue_Claim None clock gate source request q = (result, q') ->
  let expired := expireAllRecords gate clock q in
  runnerActive expired (scope_runnerID (aclaim_Scope request)) <
    scope_maxConcurrency (aclaim_Scope request) ->
  match result with
  | Ok claimed => exists before id after r checked t token,
      queue_order q = before ++ id :: after /\
      (forall i, i ∈ before -> exists t', reading source clock t' /\ ~ claimable expired request t' i) /\
      queue_records expired !! id = Some r /\ reading source clock checked /\
      claimable expired request checked id /\ reading source clock t /\ t < rec_ExpiresAt r /\
      let granted := claimed_Execution claimed in
      granted = actionLeasedExecution request t token r /\
      q' = putRecord id (setExecution r granted) expired /\
      ex_LeaseEpoch granted = ex_LeaseEpoch (rec_execution r) + 1 /\ ex_LeaseEpoch granted <= MaxInt64 /\
      t < ex_LeaseExpiresAt granted <= Z.min (rec_ExpiresAt r) (t + maximumActionLease)
  | Err e => q' = expired /\ (e = ErrNoLeaseAvailable ->
      forall i, i ∈ queue_order q -> exists t', reading source clock t' /\ ~ claimable expired request t' i)
  end.
Proof.
  intros Hq%queue_reachable_wf Hv Hc%Z.eqb_neq Hrun expired Hact%Z.ltb_lt.
  destruct (expireLocked_all_changes Transform [gate] gate clock q) as [_ Hq']; [set_solver|done|].
  rewrite expireLocked_all in Hq'. fold expired in Hq'.
  pose proof (actionClaimLoop_choice Transform request source (queue_order q) 0 clock expired Hq') as Hloop.
  assert (ActionQueue_Claim None clock gate source request q =
          actionClaimLoop request source 0 clock (queue_order q) expired) as Heq.
  { unfold ActionQueue_Claim, queue_now, IsZero, checkContext, lift, get, require, modify, mbind, M_bind, mret, M_ret.
    rewrite Hv, Hc. cbv beta iota zeta. rewrite expireLocked_all. fold expired. by rewrite Hact. }
  rewrite Heq in Hrun. pose proof (wp_run _ _ _ Hloop _ _ Hrun) as Hch.
  destruct result as [claimed|e]; [|exact Hch].
  destruct Hch as (before & id & after & r & ck & t & token & Ho & Hb & Hr & Hck & Hcl & Ht & Hx & Htok & Hmax & -> & ->).
  pose proof (rwf_epoch _ _ _ (qwf_records _ _ Hq' id r Hr)).
  apply validateRunnerScope_bounds in Hv. unfold minimumActionLease, Second in Hv.
  exists before, id, after, r, ck, t, token. do 7 (split; [done|]). simpl.
  split_and!; try done; try lia; unfold cappedExpiry, Before, Add;
    destruct (Z.ltb_spec (rec_ExpiresAt r) (t + aclaim_LeaseDuration request)); lia.
Qed.

Definition demo_claim_2 : QueueCall :=
  QClaim None demo_now demo_clean (demo_source "token-2" demo_now) (demo_action_claim "runner-1").

(** The second deployment is granted past the blocked second action. *)
Lemma claim_grants_in_order_witness :
  exists before id after claimed q', queue_order (demo_queue demo_start_calls) = before ++ id :: after /\
    ActionQueue_Claim None demo_now demo_clean (demo_source "token-2" demo_now) (demo_action_claim "runner-1")
      (demo_queue demo_start_calls) = (Ok claimed, q').
Proof.
  destruct (ActionQueue_Claim None demo_now demo_clean (demo_source "token-2" demo_now)
              (demo_action_claim "runner-1") (demo_queue demo_start_calls)) as [result q'] eqn:Hrun.
  assert (exists claimed, result = Ok claimed) as [claimed ->].
  { change result with (result, q').1. rewrite <- Hrun. eexists. vm_compute. reflexivity. }
  destruct (claim_grants_in_order demo_Transform demo_now demo_clean (demo_source "token-2" demo_now)
    (demo_action_claim "runner-1") (demo_queue demo_start_calls) (Ok claimed) q')
    as (before & id & after & r & ck & t & token & Ho & _).
  - apply demo_queue_reachable.
  - vm_compute. reflexivity.
  - done.
  - exact Hrun.
  - vm_compute. reflexivity.
  - exists before, id, after, claimed, q'. split; [exact Ho|reflexivity].
Defined.

(** A runner never holds more active actions than its registered concurrency
    because of a claim: after a granted claim the count is within the limit. *)
Theorem claim_respects_concurrency Transform err clock gate source request q claimed q' :
  queue_reachable Transform q ->
  ActionQueue_Claim err clock gate source request q = (Ok claimed, q') ->
  runnerActive q' (scope_runnerID (aclaim_Scope request)) <= scope_maxConcurrency (aclaim_Scope request).
Proof.
  intros Hq%queue_reachable_wf Hrun.
  assert (wp (ActionQueue_Claim err clock gate source request) (fun result q' =>
    if result is Ok _ then runnerActive q' (scope_runnerID (aclaim_Scope request)) <=
      scope_maxConcurrency (aclaim_Scope request) else True) q) as Hwp; [|exact (wp_run _ _ _ Hwp _ _ Hrun)].
  destruct (expireLocked_all_changes Transform [gate] gate clock q) as [_ Hq']; [set_solver|done|].
  unfold ActionQueue_Claim, queue_now. repeat (wp_step; try exact I). guards.
  eapply wp_mono; [|by apply (actionClaimLoop_choice Transform)].
  intros [c|e] q2; [|done].
  intros (before & id & after & r & ck & t & token & _ & _ & _ & _ & _ & _ & _ & _ & _ & _ & ->).
  pose proof (runnerActive_put (expireLocked gate clock q) id
    (setExecution r (actionLeasedExecution request t token r)) (scope_runnerID (aclaim_Scope request))). lia.
Qed.

Lemma claim_respects_concurrency_witness :
  runnerActive (demo_queue (demo_start_calls ++ [demo_claim_2])) "runner-1" = 2 /\
  runnerActive (demo_queue (demo_start_calls ++ [demo_claim_2])) "runner-1" <= 2.
Proof.
  split; [vm_compute; reflexivity|].
  destruct (ActionQueue_Claim None demo_now demo_clean (demo_source "token-2" demo_now)
              (demo_action_claim "runner-1") (demo_queue demo_start_calls)) as [result q'] eqn:Hrun.
  assert (exists claimed, result = Ok claimed) as [claimed ->].
  { change result with (result, q').1. rewrite <- Hrun. eexists. vm_compute. reflexivity. }
  assert (queue_records (demo_queue (demo_start_calls ++ [demo_claim_2])) = queue_records q') as Hq'.
  { change q' with (Ok claimed, q').2. rewrite <- Hrun. vm_compute. reflexivity. }
  unfold runnerActive. rewrite Hq'.
  apply (claim_respects_concurrency demo_Transform None demo_now demo_clean (demo_source "token-2" demo_now)
    (demo_action_claim "runner-1") (demo_queue demo_start_calls) claimed q'); [apply demo_queue_reachable|exact Hrun].
Defined.

(** C27. Fencing of the queue. Once [Claim] granted an epoch with a token, every
    later call with a lease of that epoch that succeeds comes from the runner it
    was granted to and presents a token of the same digest; a call with an
    earlier epoch is an error and changes nothing. *)
Theorem action_lease_is_fenced Transform q1 err clock gate source request claimed q2 q3 call lease :
  queue_reachable Transform q1 ->
  ActionQueue_Claim err clock gate source request q1 = (Ok claimed, q2) ->
  rtc (queue_step Transform) q2 q3 ->
  queue_call_lease call = Some lease ->
  lease_ExecutionID lease = ex_ExecutionID (claimed_Execution claimed) ->
  lease_Epoch lease <= ex_LeaseEpoch (claimed_Execution claimed) ->
  match run_queue Transform call q3 with
  | (Ok _, _) => lease_Epoch lease = ex_LeaseEpoch (claimed_Execution claimed) /\
      lease_RunnerID lease = scope_runnerID (aclaim_Scope request) /\
      hashLeaseToken (lease_Token lease) = hashLeaseToken (ex_LeaseToken (claimed_Execution claimed))
  | (Err _, q4) => q4 = q3
  end.
Proof.
  intros Hq1%queue_reachable_wf Hclaim Hsteps Hc Hid Hep.
  destruct (Claim_grants Transform _ _ _ _ _ _ _ _ Hq1 Hclaim) as (r2 & Hr2 & Hex & Hrun2 & Htok2 & Hc0 & Hq2).
  destruct (rtc_queue_step_later Transform q2 q3 Hq2 Hsteps _ _ Hr2) as (r3 & Hr3 & Hl).
  pose proof (rtc_queue_step_wf Transform q2 q3 Hq2 Hsteps) as Hq3.
  pose proof (queue_call_fence Transform call lease q3 Hc) as Hf. unfold wp in Hf.
  destruct (run_queue Transform call q3) as [[e|e] q4]; [|exact Hf]. simpl in Hf.
  destruct Hf as (r & Hr & Hf). rewrite Hid, Hr3 in Hr. injection Hr as <-. rewrite Hex in *.
  eapply (fence_of_granted Transform r2 r3 _ lease _ (qwf_records _ _ Hq3 _ _ Hr3)); done.
Qed.

Definition demo_second_lease_calls : list QueueCall :=
  demo_lease_calls ++ [QSweepExpired None (demo_now + 61 * Second) demo_missing].
Definition demo_later : Time := demo_now + 62 * Second.

(** Runner 1's lease lapsed and runner 2 holds the next epoch: runner 1 is out. *)
Lemma action_lease_is_fenced_witness :
  let q3 := demo_queue (demo_second_lease_calls ++
    [QClaim None demo_later demo_clean (demo_source "token-2" demo_later) (demo_action_claim "runner-2")]) in
  exists e, run_queue demo_Transform (QStart None demo_later (demo_fence "action-1" "runner-1" "token-1" 1)) q3 =
    (Err e, q3).
Proof.
  intros q3.
  destruct (ActionQueue_Claim None demo_later demo_clean (demo_source "token-2" demo_later)
              (demo_action_claim "runner-2") (demo_queue demo_second_lease_calls)) as [result q2] eqn:Hclaim.
  assert (exists c, result = Ok c /\ ex_ExecutionID (claimed_Execution c) = "action-1"%string /\
                    ex_LeaseEpoch (claimed_Execution c) = 2) as (c & -> & Hid & Hep).
  { change result with (result, q2).1. rewrite <- Hclaim. eexists. split_and!; vm_compute; reflexivity. }
  assert (q3 = q2) as Heq.
  { change q2 with (Ok c, q2).2. rewrite <- Hclaim. vm_compute. reflexivity. }
  clearbody q3. subst q3.
  pose proof (action_lease_is_fenced demo_Transform (demo_queue demo_second_lease_calls) None demo_later demo_clean
    (demo_source "token-2" demo_later) (demo_action_claim "runner-2") c q2 q2
    (QStart None demo_later (demo_fence "action-1" "runner-1" "token-1" 1))
    (demo_fence "action-1" "runner-1" "token-1" 1)) as H.
  destruct (run_queue demo_Transform _ q2) as [[e|e] q4].
  - destruct H as [H _]; [apply demo_queue_reachable|exact Hclaim|apply rtc_refl|reflexivity|by rewrite Hid|
      rewrite Hep; done|]. rewrite Hep in H. discriminate.
  - exists e. rewrite H; [reflexivity|apply demo_queue_reachable|exact Hclaim|apply rtc_refl|reflexivity|by rewrite Hid|
      rewrite Hep; done].
Defined.

(** [Submit] is idempotent: after an accepted submission the same submission
    is answered with the current state of the same execution and changes
    nothing, at any later time; a different request under the same action id is
    a conflict and changes nothing. *)
Theorem submit_is_idempotent Transform q1 err clock submission execution q2 q3 clock' :
  queue_reachable Transform q1 ->
  ActionQueue_Submit Transform err clock submission q1 = (Ok execution, q2) ->
  ex_ExecutionID execution = env_ActionID (sub_Envelope submission) ->
  rtc (queue_step Transform) q2 q3 -> clock' <> 0 ->
  exists r, queue_records q3 !! ex_ExecutionID execution = Some r /\
    ActionQueue_Submit Transform None clock' submission q3 = (Ok (redactActionExecution (rec_execution r)), q3) /\
    forall other hash, validateActionSubmission other = Ok tt ->
      env_ActionID (sub_Envelope other) = env_ActionID (sub_Envelope submission) ->
      RequestSemanticHash Transform other = Ok hash -> hash <> rec_requestHash r ->
      ActionQueue_Submit Transform None clock' other q3 = (Err ErrJobConflict, q3).
Proof.
  intros Hq1%queue_reachable_wf Hrun Hid Hsteps Hc.
  pose proof (wp_run _ _ _ (Submit_stored Transform err clock submission q1 Hq1) _ _ Hrun)
    as (hash & r2 & Hv & Hh & Hr2 & Hrh).
  assert (queue_wf Transform q2) as Hq2.
  { pose proof (run_queue_wf Transform (QSubmit err clock submission) q1 Hq1) as Hw. cbn in Hw. by rewrite Hrun in Hw. }
  destruct (rtc_queue_step_later Transform q2 q3 Hq2 Hsteps _ _ Hr2) as (r3 & Hr3 & _ & (_ & Hrq & _) & _).
  exists r3. split; [done|]. rewrite Hid in Hr3. split.
  - rewrite (Submit_known Transform clock' submission hash q3 r3) by done. rewrite Hrq, Hrh. by rewrite eqb_same.
  - intros other hash' Hv' Hid' Hh' Hne. rewrite <- Hid' in Hr3.
    rewrite (Submit_known Transform clock' other hash' q3 r3) by done.
    by rewrite (proj2 (eqb_false _ _)) by congruence.
Qed.

Lemma submit_is_idempotent_witness :
  exists r, queue_records (demo_queue demo_start_calls) !! "action-1"%string = Some r /\
    ActionQueue_Submit demo_Transform None demo_later (demo_submission "action-1" "key-1" "api")
      (demo_queue demo_start_calls) = (Ok (redactActionExecution (rec_execution r)), demo_queue demo_start_calls).
Proof.
  destruct (ActionQueue_Submit demo_Transform None demo_now (demo_submission "action-1" "key-1" "api")
              (demo_queue [])) as [result q2] eqn:Hrun.
  assert (exists e, result = Ok e /\ ex_ExecutionID e = "action-1"%string) as (e & -> & Hid).
  { change result with (result, q2).1. rewrite <- Hrun. eexists. split; vm_compute; reflexivity. }
  assert (demo_run (tail demo_start_calls) q2 = demo_queue demo_start_calls) as Hq.
  { change q2 with (Ok e, q2).2. rewrite <- Hrun. vm_compute. reflexivity. }
  destruct (submit_is_idempotent demo_Transform (demo_queue []) None demo_now
    (demo_submission "action-1" "key-1" "api") e q2 (demo_run (tail demo_start_calls) q2) demo_later)
    as (r & Hr & Hs & _).
  - apply demo_queue_reachable.
  - exact Hrun.
  - exact Hid.
  - apply demo_run_steps.
  - done.
  - exists r. rewrite Hq, Hid in *. split; [exact Hr|exact Hs].
Defined.

(** A completion report is answered the same at any later time: with the
    stored execution and no change, until an operator reconciles the action. *)
Theorem action_completion_is_idempotent Transform q1 err clock request execution q2 q3 clock' :
  queue_reachable Transform q1 ->
  ActionQueue_Complete Transform err clock request q1 = (Ok execution, q2) ->
  rtc (queue_step Transform) q2 q3 -> clock' <> 0 ->
  exists r, queue_records q3 !! lease_ExecutionID (acomplete_Lease request) = Some r /\
    ActionQueue_Complete Transform None clock' request q3 =
      (if ex_ReconciliationID (rec_execution r) == ""%string
       then Ok (redactActionExecution (rec_execution r)) else Err ErrStaleLease, q3) /\
    ex_CompletionStatus (rec_execution r) = ex_CompletionStatus execution /\
    ex_ResultHash (rec_execution r) = ex_ResultHash execution.
Proof.
  intros Hq1%queue_reachable_wf Hrun Hsteps Hc.
  pose proof (wp_run _ _ _ (Complete_stores Transform err clock request q1 Hq1) _ _ Hrun) as (r2 & Hr2 & Ha & ->).
  assert (queue_wf Transform q2) as Hq2.
  { pose proof (run_queue_wf Transform (QComplete err clock request) q1 Hq1) as Hw. cbn in Hw. by rewrite Hrun in Hw. }
  destruct (rtc_queue_step_later Transform q2 q3 Hq2 Hsteps _ _ Hr2) as (r3 & Hr3 & Hl).
  exists r3. split; [done|]. split.
  - apply Complete_answered; eauto using rtc_queue_step_wf, answers_later.
  - destruct Hl as (_ & _ & _ & _ & Hk). specialize (Hk (answers_positive _ _ _ Ha)).
    unfold reported in Hk. by injection Hk.
Qed.

Lemma action_completion_is_idempotent_witness :
  exists r, queue_records (demo_queue (demo_finalize_calls ++ [demo_finalize demo_clean])) !! "action-1"%string = Some r /\
    ActionQueue_Complete demo_Transform None demo_later
      {| acomplete_Lease := demo_fence "action-1" "runner-1" "token-1" 1; acomplete_Summary := demo_summary |}
      (demo_queue (demo_finalize_calls ++ [demo_finalize demo_clean])) =
      (if ex_ReconciliationID (rec_execution r) == ""%string
       then Ok (redactActionExecution (rec_execution r)) else Err ErrStaleLease,
       demo_queue (demo_finalize_calls ++ [demo_finalize demo_clean])).
Proof.
  set (request := {| acomplete_Lease := demo_fence "action-1" "runner-1" "token-1" 1;
                     acomplete_Summary := demo_summary |}).
  destruct (ActionQueue_Complete demo_Transform None demo_now request (demo_queue demo_start_calls))
    as [result q2] eqn:Hrun.
  assert (exists e, result = Ok e) as [e ->].
  { change result with (result, q2).1. rewrite <- Hrun. eexists. vm_compute. reflexivity. }
  assert (demo_run [demo_finalize demo_clean] q2 =
          demo_queue (demo_finalize_calls ++ [demo_finalize demo_clean])) as Hq.
  { change q2 with (Ok e, q2).2. rewrite <- Hrun. vm_compute. reflexivity. }
  destruct (action_completion_is_idempotent demo_Transform (demo_queue demo_start_calls) None demo_now request e q2
    (demo_run [demo_finalize demo_clean] q2) demo_later) as (r & Hr & Hs & _).
  - apply demo_queue_reachable.
  - exact Hrun.
  - apply demo_run_steps.
  - done.
  - exists r. rewrite Hq in *. split; [exact Hr|exact Hs].
Defined.

(** A requested cancellation ends the run: while the same lease is held, the
    request is never withdrawn and no heartbeat moves the lease's expiry, so the
    lease lapses at the time it had when cancellation was requested. *)
Theorem cancellation_stops_renewal Transform q q' id r r' :
  queue_reachable Transform q -> rtc (queue_step Transform) q q' ->
  queue_records q !! id = Some r -> queue_records q' !! id = Some r' ->
  ex_CancelRequestedAt (rec_execution r) <> 0 ->
  ex_LeaseEpoch (rec_execution r') = ex_LeaseEpoch (rec_execution r) ->
  actionHeld (ex_Status (rec_execution r')) = true ->
  ex_CancelRequestedAt (rec_execution r') = ex_CancelRequestedAt (rec_execution r) /\
  ex_LeaseExpiresAt (rec_execution r') = ex_LeaseExpiresAt (rec_execution r).
Proof.
  intros Hq%queue_reachable_wf Hs Hr Hr' Hne He Hh.
  destruct (rtc_queue_step_later Transform q q' Hq Hs id r Hr) as (r1 & Hr1 & _ & _ & _ & Hk & _). simplify_eq.
  by apply (Hk He Hh).
Qed.

Definition demo_cancel_calls : list QueueCall :=
  demo_start_calls ++ [QCancel None demo_now demo_clean demo_clean "action-1"].
Definition demo_beat : QueueCall :=
  QHeartbeat None (demo_now + 30 * Second)
    {| ahb_Lease := demo_fence "action-1" "runner-1" "token-1" 1; ahb_Sequence := 1; ahb_Extension := 60 * Second |}.

Lemma cancellation_stops_renewal_witness :
  let r := demo_record demo_cancel_calls "action-1" in
  let r' := demo_record (demo_cancel_calls ++ [demo_beat]) "action-1" in
  ex_HeartbeatSeq (rec_execution r') = 1 /\
  ex_LeaseExpiresAt (rec_execution r') = ex_LeaseExpiresAt (rec_execution r).
Proof.
  split; [vm_compute; reflexivity|].
  apply (cancellation_stops_renewal demo_Transform (demo_queue demo_cancel_calls)
           (demo_run [demo_beat] (demo_queue demo_cancel_calls)) "action-1").
  - apply demo_queue_reachable.
  - apply demo_run_steps.
  - vm_compute. reflexivity.
  - vm_compute. reflexivity.
  - vm_compute. discriminate.
  - vm_compute. reflexivity.
  - vm_compute. reflexivity.
Defined.

(** Go's map iteration order does not matter to the queue's expiry: visiting
    each record once in any order gives the queue in which every record expires
    on its own. *)
Theorem action_expiry_is_pointwise ids gate now q :
  NoDup ids -> (forall id, is_Some (queue_records q !! id) -> id ∈ ids) ->
  expireLocked_over ids gate now q = expireAllRecords gate now q.
Proof. apply expireLocked_over_all. Qed.

Lemma action_expiry_is_pointwise_witness :
  expireLocked_over ["action-3"; "action-1"; "action-2"]%string demo_missing demo_later (demo_queue demo_lease_calls) =
    expireAllRecords demo_missing demo_later (demo_queue demo_lease_calls) /\
  (fun r => ex_Status (rec_execution r)) <$>
    (queue_records (expireAllRecords demo_missing demo_later (demo_queue demo_lease_calls)) !! "action-1"%string) =
    Some StatusQueued.
Proof.
  split; [|vm_compute; reflexivity].
  apply (action_expiry_is_pointwise ["action-3"; "action-1"; "action-2"]%string).
  - apply (bool_decide_unpack _). vm_compute. done.
  - intros id Hid. apply (qwf_order _ _ (queue_reachable_wf _ _ (demo_queue_reachable demo_lease_calls))) in Hid.
    assert (queue_order (demo_queue demo_lease_calls) = ["action-1"; "action-2"; "action-3"]%string) as Ho
      by (vm_compute; reflexivity).
    rewrite Ho in Hid. clear -Hid. set_solver.
Defined.

(** A sweep leaves no lapsed run behind: afterwards a running action's lease
    is still valid (a lapsed one has become uncertain and keeps its target), and
    a leased action whose lease lapsed is one whose credential gate refused. *)
Theorem sweep_resolves_lapsed_leases Transform clock gate q id r' :
  queue_reachable Transform q -> clock <> 0 ->
  queue_records (ActionQueue_SweepExpired None clock gate q).2 !! id = Some r' ->
  ex_LeaseExpiresAt (rec_execution r') <> 0 -> ex_LeaseExpiresAt (rec_execution r') <= clock ->
  ex_Status (rec_execution r') <> StatusRunning /\
  (ex_Status (rec_execution r') = StatusLeased ->
   requireCredentialTerminal gate r' true = Err ErrCredentialCleanupPending).
Proof.
  intros Hq%queue_reachable_wf Hc%Z.eqb_neq Hr' Hz Hle.
  assert ((ActionQueue_SweepExpired None clock gate q).2 = expireAllRecords gate clock q) as Heq.
  { unfold ActionQueue_SweepExpired, queue_now, IsZero, checkContext, modify, mbind, M_bind, mret, M_ret.
    rewrite Hc. apply expireLocked_all. }
  rewrite Heq in Hr'. simpl in Hr'. rewrite lookup_fmap in Hr'. apply fmap_Some in Hr' as (r & Hr & ->).
  unfold rewritten in *. destruct (expireRecord gate clock r) as [r1|] eqn:Hx; simpl in *.
  - by apply (expireRecord_Some Transform id) in Hx as []; [|by apply (qwf_records _ _ Hq)].
  - by eapply expireRecord_None.
Qed.

Lemma sweep_resolves_lapsed_leases_witness :
  let r' := default record_zero (queue_records (ActionQueue_SweepExpired None demo_later demo_pending
              (demo_queue demo_lease_calls)).2 !! "action-1"%string) in
  ex_Status (rec_execution r') = StatusLeased /\
  requireCredentialTerminal demo_pending r' true = Err ErrCredentialCleanupPending.
Proof.
  intros r'. split; [vm_compute; reflexivity|].
  apply (sweep_resolves_lapsed_leases demo_Transform demo_later demo_pending (demo_queue demo_lease_calls)
           "action-1" r').
  - apply demo_queue_reachable.
  - done.
  - vm_compute. reflexivity.
  - vm_compute. discriminate.
  - vm_compute. discriminate.
  - vm_compute. reflexivity.
Defined.
