(* ===== verification/Credential.v ===== *)
(** * Credential revocations: data and the in-memory repository

    Models internal/credential/revocation.go (data, limits, validators) and
    internal/credential/memory.go (the repository).  A repository value is the
    pair of its two maps; every method is a state-passing handler that runs
    under the repository's mutex.  Its other inputs are arguments of a call:

    - [err], [err']: what [ctx.Err()] answers, at the entry and later on;
    - [clock], [clock']: the successive readings of the clock;
    - the answers of the action source: a [Result ActionMetadata] for
      [ResolveActionFence], a [LockedInspection] for [WithLockedActionInspection];
    - [protector]: the functions of the reference protector;
    - the answers of the token and permit sources.

    A record pointer is the key under which [Prepare] stored the record: the
    code never stores one record under two keys. *)

From S2P Require Import Prelude.
From S2P Require Import Sha256.
From S2P Require Import GoText.
From S2P Require Import GoStrings.
From S2P Require Import GoJson.
From S2P Require Import GoSort.

Open Scope Z_scope.

(** ** Limits *)

Definition MinRevocationClaimLease : Duration := Second.
Definition MaxRevocationClaimLease : Duration := 30 * Second.
Definition MaxRevocationClaimBatch : Z := 100.
Definition MinRevocationRetryDelay : Duration := 5 * Second.
Definition MaxRevocationRetryDelay : Duration := 15 * Minute.
Definition MaxRevocationAttempts : Z := 12.
Definition MaxRevocationElapsed : Duration := 2 * Hour.
Definition ManagedAnchorRecoveryGrace : Duration := 2 * Minute.
Definition FailureDetailExhaustedWithoutAck : string := "credential.revocation.exhausted_without_ack.v1".
Definition FailureDetailProtectedRefInvalid : string := "credential.revocation.protected_reference_invalid.v1".
Definition MaxCredentialTTL : Duration := 15 * Minute.
Definition MinPrepareFenceWindow : Duration := Second.
Definition MinPostChildFenceWindow : Duration := Second.
Definition VaultChildCreateServerMaxDuration : Duration := 10 * Second.
Definition MaxChildCreateDBCommitLatency : Duration := Second.
Definition MaxChildCreateVaultIngressLatency : Duration := 2 * Second.
Definition MaxVaultAheadOfDatabaseClock : Duration := Second.
Definition VaultTTLQuantum : Duration := Second.
Definition ChildCreateExpiryReserve : Duration :=
  MaxChildCreateDBCommitLatency + MaxChildCreateVaultIngressLatency +
  VaultChildCreateServerMaxDuration + MaxVaultAheadOfDatabaseClock + VaultTTLQuantum.
Definition ChildCreateVaultCallBudget : Duration :=
  MaxChildCreateVaultIngressLatency + VaultChildCreateServerMaxDuration.
Definition MinChildCreateTTL : Duration := Second.
Definition PreparedRecoveryGrace : Duration := Minute.

(** The Unix epoch on the scale of [Time], and [int64] wrap-around. *)
Definition unixEpoch : Time := 62135596800 * Second.
Definition wrap64 (n : Z) : Z := (n - MinInt64) mod 2 ^ 64 + MinInt64.
Definition UnixMicro (t : Time) : Z := wrap64 ((t - unixEpoch) / 1000).
Definition time_UnixMicro (us : Z) : Time := us * 1000 + unixEpoch.

Definition CanonicalCredentialExpiry (value : Time) : Time :=
  if IsZero value then Time_zero else time_UnixMicro (UnixMicro value).

(** ** Statuses and errors *)

Inductive RevocationStatus :=
| StatusPrepared
| StatusAnchored
| StatusActive
| StatusRevocationPending
| StatusRevoking
| StatusRevoked
| StatusManualRequired
| StatusNoCredential
| RevocationStatusOther (s : string).

#[export] Instance RevocationStatus_eq_dec : EqDecision RevocationStatus.
Proof. solve_decision. Defined.

Inductive FailureCode :=
| FailureIssuerUnavailable
| FailureRateLimited
| FailureTimeout
| FailureAuthentication
| FailurePermissionDenied
| FailureReferenceMissing
| FailureInvalidReference
| FailureUnknown
| FailureCodeOther (s : string).

#[export] Instance FailureCode_eq_dec : EqDecision FailureCode.
Proof. solve_decision. Defined.

Definition ErrInvalidRevocationRequest := errors_New "credential.ErrInvalidRevocationRequest".
Definition ErrRevocationNotFound := errors_New "credential.ErrRevocationNotFound".
Definition ErrIdempotencyConflict := errors_New "credential.ErrIdempotencyConflict".
Definition ErrInvalidTransition := errors_New "credential.ErrInvalidTransition".
Definition ErrStaleActionFence := errors_New "credential.ErrStaleActionFence".
Definition ErrStaleClaim := errors_New "credential.ErrStaleClaim".
Definition ErrEvidenceConflict := errors_New "credential.ErrEvidenceConflict".
Definition ErrPlatformAdminRequired := errors_New "credential.ErrPlatformAdminRequired".
Definition ErrReferenceProtection := errors_New "credential.ErrReferenceProtection".
Definition ErrRevocationPersistence := errors_New "credential.ErrRevocationPersistence".
Definition ErrAtomicActionSourceRequired := errors_New "credential.ErrAtomicActionSourceRequired".
Definition ErrChildCreateAlreadyAuthorized := errors_New "credential.ErrChildCreateAlreadyAuthorized".
Definition ErrChildCreateWindowExpired := errors_New "credential.ErrChildCreateWindowExpired".
Definition ErrStaleChildCreatePermit := errors_New "credential.ErrStaleChildCreatePermit".

Definition ValidRevocationStatus (status : RevocationStatus) : bool :=
  match status with
  | RevocationStatusOther _ => false
  | _ => true
  end.

Definition ValidFailureCode (code : FailureCode) : bool :=
  match code with
  | FailureCodeOther _ => false
  | _ => true
  end.

(** ** Data *)

Record ActionFence := { af_ActionID : string; af_RunnerID : string; af_Token : string; af_Epoch : Z }.

#[export] Instance ActionFence_eq_dec : EqDecision ActionFence.
Proof. solve_decision. Defined.

Definition ActionFence_zero : ActionFence :=
  {| af_ActionID := ""; af_RunnerID := ""; af_Token := ""; af_Epoch := 0 |}.

Inductive ActionStatus :=
| ActionStatusQueued
| ActionStatusLeased
| ActionStatusRunning
| ActionStatusOther (s : string).

#[export] Instance ActionStatus_eq_dec : EqDecision ActionStatus.
Proof. solve_decision. Defined.

Record ActionMetadata := {
  am_ActionID : string; am_TenantID : string; am_WorkspaceID : string; am_EnvironmentID : string;
  am_TargetKey : string; am_Production : bool; am_RunnerID : string; am_LeaseEpoch : Z;
  am_Status : ActionStatus; am_LeaseExpiresAt : Time; am_AuthorizationExpiresAt : Time;
  am_CancelRequestedAt : Time; am_RunnerEnabled : bool; am_RunnerPool : string;
  am_ScopeRevision : Z; am_RunnerScopeRevision : Z; am_ExactScopeAuthorized : bool;
  am_ActionType : string; am_ConnectorID : string; am_Permission : string; am_Resource : string;
  am_CredentialTTLSeconds : Z
}.

Record ActionInspection := { ai_Metadata : ActionMetadata; ai_LeaseTokenSHA256 : string }.

Record PrepareRequest := {
  prep_RevocationID : string; prep_Fence : ActionFence; prep_Issuer : string;
  prep_IssuerRevision : string; prep_CredentialExpiresAt : Time
}.

Record ChildCreatePermit := { permit_RevocationID : string; permit_Token : string }.

Record AuthorizeChildCreateRequest := { auth_Permit : ChildCreatePermit; auth_Fence : ActionFence }.

(** The bytes a reference holds during a call; [None] is the nil pointer, and a
    destroyed reference holds none. *)
Definition SensitiveReference := option string.

Record RecordAnchorRequest := {
  anchor_RevocationID : string; anchor_Fence : ActionFence; anchor_Accessor : SensitiveReference
}.

Record ActionTransitionRequest := { transition_RevocationID : string; transition_Fence : ActionFence }.

Record ClaimRevocationsRequest := {
  rclaim_WorkerID : string; rclaim_Limit : Z; rclaim_LeaseDuration : Duration
}.

Record ClaimFence := { cf_RevocationID : string; cf_WorkerID : string; cf_Token : string; cf_Epoch : Z }.

Record HeartbeatRequest := { rbeat_Fence : ClaimFence; rbeat_Extension : Duration }.

Record RetryRevocationRequest := {
  retry_Fence : ClaimFence; retry_Delay : Duration; retry_FailureCode : FailureCode;
  retry_FailureDetail : string
}.

Record RequireManualRequest := {
  manual_Fence : ClaimFence; manual_FailureCode : FailureCode; manual_FailureDetail : string
}.

Record RequeueManualRequest := { requeue_RevocationID : string; requeue_ActorSubject : string }.

Record ExternalConfirmationRequest := {
  confirm_RevocationID : string; confirm_Subject : string; confirm_EvidenceHash : string;
  confirm_PlatformAdmin : bool
}.

Record ListFilter := {
  filter_WorkspaceID : string; filter_Status : RevocationStatus; filter_Limit : Z
}.

Record Revocation := {
  rev_ID : string; rev_TenantID : string; rev_WorkspaceID : string; rev_EnvironmentID : string;
  rev_ActionID : string; rev_TargetKey : string; rev_Production : bool; rev_RunnerID : string;
  rev_ActionLeaseEpoch : Z; rev_Issuer : string; rev_IssuerRevision : string; rev_ActionType : string;
  rev_ConnectorID : string; rev_Permission : string; rev_Resource : string;
  rev_CredentialTTLSeconds : Z; rev_CredentialExpiresAt : Time; rev_Status : RevocationStatus;
  rev_AccessorPresent : bool; rev_AccessorHMAC : string; rev_EncryptionKeyID : string;
  rev_ClaimEpoch : Z; rev_ClaimedBy : string; rev_ClaimedAt : Time; rev_ClaimExpiresAt : Time;
  rev_LastHeartbeatAt : Time; rev_Attempt : Z; rev_FailureCount : Z; rev_FailureCode : FailureCode;
  rev_FailureDetailSHA256 : string; rev_AvailableAt : Time; rev_EvidenceHash : string;
  rev_CreatedAt : Time; rev_UpdatedAt : Time; rev_AnchoredAt : Time; rev_ActivatedAt : Time;
  rev_RevocationRequestedAt : Time; rev_ManualRequiredAt : Time; rev_RevokedAt : Time;
  rev_Version : Z
}.

Definition Revocation_Terminal (revocation : Revocation) : bool :=
  (rev_Status revocation == StatusRevoked) || (rev_Status revocation == StatusNoCredential).

Record PrepareResult := {
  pr_Revocation : Revocation; pr_Created : bool; pr_Permit : option ChildCreatePermit
}.

Record ChildCreateAuthorization := {
  cca_Revocation : Revocation; cca_DatabaseAuthorizedAt : Time; cca_CredentialExpiresAt : Time;
  cca_TTL : Duration; cca_VaultCallBudget : Duration
}.

Record ClaimedRevocation := {
  claimed_Revocation : Revocation; claimed_Fence : ClaimFence; claimed_Accessor : SensitiveReference
}.

Record ExternalConfirmation := {
  xc_Subject : string; xc_EvidenceHash : string; xc_PlatformAdmin : bool; xc_CreatedAt : Time
}.

Record ConfirmationResult := {
  conf_Revocation : Revocation; conf_Confirmations : list ExternalConfirmation
}.

(** ** Validators *)

Definition ValidRevocationID (id : string) : bool := uuidPattern id.

Definition ValidIdentifier (value : string) (maximum : Z) : bool :=
  (1 <=? len value) && (len value <=? maximum) && identifierPattern value.

(** [unicode.IsControl]: category Cc. *)
Definition IsControl (r : Z) : bool :=
  ((0 <=? r) && (r <? 0x20)) || ((0x7f <=? r) && (r <? 0xa0)).

Definition ValidOpaqueText (value : string) (maximum : Z) : bool :=
  (value != ""%string) && (len value <=? maximum) && (TrimSpace value == value) &&
  negb (existsb (fun rune => IsControl rune.1) (runes value)).

Definition ValidSHA256 (value : string) : bool := sha256Pattern value.
Definition SHA256Hex (value : string) : string := sha256_hex value.

Definition validActionFence (fence : ActionFence) : bool :=
  ValidIdentifier (af_ActionID fence) 256 && ValidIdentifier (af_RunnerID fence) 256 &&
  ValidOpaqueText (af_Token fence) 4096 && (0 <? af_Epoch fence).

Definition validClaimFence (fence : ClaimFence) : bool :=
  ValidRevocationID (cf_RevocationID fence) && ValidIdentifier (cf_WorkerID fence) 256 &&
  ValidOpaqueText (cf_Token fence) 4096 && (0 <? cf_Epoch fence).

Definition validClaimDuration (duration : Duration) : bool :=
  (MinRevocationClaimLease <=? duration) && (duration <=? MaxRevocationClaimLease).

Definition validFailure (code : FailureCode) (detail : string) : bool :=
  ValidFailureCode code && (0 <? len detail) && (len detail <=? 2 ^ 20).

Definition validSubject (subject : string) : bool :=
  (len "oidc:" <? len subject) && HasPrefix subject "oidc:" && ValidOpaqueText subject 512.

Definition ValidSensitiveReference (reference : SensitiveReference) : bool :=
  match reference with
  | None => false
  | Some value => 0 <? len value
  end.

Definition validCredentialTTLSeconds (value : Z) : bool :=
  (0 <? value) && (value * Second <=? MaxCredentialTTL).

(** ** The reference protector, as the repository sees it *)

Record ReferenceContext := {
  rc_RevocationID : string; rc_ActionID : string; rc_ActionEpoch : Z; rc_Issuer : string;
  rc_IssuerRevision : string
}.

Record ProtectedReference := { ref_Ciphertext : string; ref_AccessorHMAC : string; ref_KeyID : string }.

Definition ProtectedReference_zero : ProtectedReference :=
  {| ref_Ciphertext := ""; ref_AccessorHMAC := ""; ref_KeyID := "" |}.

Record ReferenceProtector := {
  Protect : ReferenceContext -> SensitiveReference -> Result ProtectedReference;
  Matches : ReferenceContext -> ProtectedReference -> SensitiveReference -> Result bool;
  Unprotect : ReferenceContext -> ProtectedReference -> Result SensitiveReference
}.

(** ** The repository *)

Record memoryRevocationRecord := {
  rr_revocation : Revocation; rr_protected : ProtectedReference; rr_actionTokenSHA256 : string;
  rr_childCreatePermitSHA256 : string; rr_childCreateAuthorizedAt : Time; rr_childCreateTTL : Duration;
  rr_retryCycleAttemptBase : Z; rr_retryCycleStartedAt : Time; rr_claimTokenSHA256 : string;
  rr_completedClaimSHA256 : string; rr_completedClaimEpoch : Z; rr_completedClaimWorker : string;
  rr_confirmations : gmap string ExternalConfirmation
}.

Record MemoryRepository := {
  repo_records : gmap string memoryRevocationRecord;
  repo_actionEpochs : gmap string string
}.

(** [actions] and [protector]: whether the collaborators are given; [clock]: the
    first reading of the clock. *)
Definition NewMemoryRepository (actions protector : bool) (clock : Time) : Result MemoryRepository :=
  ensure (actions && protector) ErrInvalidRevocationRequest;;
  ensure (negb (IsZero clock)) ErrInvalidRevocationRequest;;
  Ok {| repo_records := ∅; repo_actionEpochs := ∅ |}.

(** ** Helpers on one record *)

Definition publicMemoryRevocation (record : memoryRevocationRecord) : Revocation := rr_revocation record.

Definition referenceContext (revocation : Revocation) : ReferenceContext :=
  {| rc_RevocationID := rev_ID revocation; rc_ActionID := rev_ActionID revocation;
     rc_ActionEpoch := rev_ActionLeaseEpoch revocation; rc_Issuer := rev_Issuer revocation;
     rc_IssuerRevision := rev_IssuerRevision revocation |}.

Definition NUL : string := String (ascii_of_Z 0) EmptyString.
Definition actionEpochKey (actionID : string) (epoch : Z) : string :=
  actionID +:+ NUL +:+ FormatInt epoch.

(** Assignments to fields of [record.revocation]. *)
Definition on_revocation (f : Revocation -> Revocation) (record : memoryRevocationRecord) : memoryRevocationRecord :=
  let revocation := f (rr_revocation record) in
  {| record with rr_revocation := revocation |}.

Definition bump (now : Time) : memoryRevocationRecord -> memoryRevocationRecord :=
  on_revocation (fun revocation =>
    let version := rev_Version revocation in
    {| revocation with rev_Version := version + 1; rev_UpdatedAt := now |}).

Definition clearActiveClaim (record : memoryRevocationRecord) : memoryRevocationRecord :=
  let record := {| record with rr_claimTokenSHA256 := "" |} in
  on_revocation (fun revocation =>
    {| revocation with rev_ClaimedBy := ""; rev_ClaimedAt := Time_zero; rev_ClaimExpiresAt := Time_zero;
                       rev_LastHeartbeatAt := Time_zero |}) record.

Definition clearProtectedReference (record : memoryRevocationRecord) : memoryRevocationRecord :=
  let protected := rr_protected record in
  let record := {| record with
    rr_protected := {| protected with ref_Ciphertext := ""; ref_KeyID := "" |} |} in
  on_revocation (fun revocation =>
    {| revocation with rev_AccessorPresent := false; rev_EncryptionKeyID := "" |}) record.

Definition set_status (status : RevocationStatus) : memoryRevocationRecord -> memoryRevocationRecord :=
  on_revocation (fun revocation => {| revocation with rev_Status := status |}).

(** A retry cycle begins: attempts and elapsed time count from here. *)
Definition begin_cycle (now : Time) (record : memoryRevocationRecord) : memoryRevocationRecord :=
  let attempt := rev_Attempt (rr_revocation record) in
  {| record with rr_retryCycleAttemptBase := attempt; rr_retryCycleStartedAt := now |}.

Definition applyRequestRevocation (record : memoryRevocationRecord) (now : Time) : Result memoryRevocationRecord :=
  match rev_Status (rr_revocation record) with
  | StatusAnchored | StatusActive =>
      let record := on_revocation (fun revocation =>
        {| revocation with rev_Status := StatusRevocationPending; rev_AvailableAt := now;
                           rev_RevocationRequestedAt := now |}) record in
      Ok (bump now (begin_cycle now record))
  | StatusRevocationPending | StatusRevoking | StatusManualRequired | StatusRevoked => Ok record
  | _ => Err ErrInvalidTransition
  end.

Definition memoryRevocationExhausted (record : memoryRevocationRecord) (now : Time) : bool :=
  (MaxRevocationAttempts <=? rev_Attempt (rr_revocation record) - rr_retryCycleAttemptBase record) ||
  IsZero (rr_retryCycleStartedAt record) ||
  negb (After (Add (rr_retryCycleStartedAt record) MaxRevocationElapsed) now).

Definition matchesMemoryClaim (record : memoryRevocationRecord) (fence : ClaimFence) (digest : string) (now : Time) : bool :=
  let revocation := rr_revocation record in
  (rev_Status revocation == StatusRevoking) && (rev_ClaimedBy revocation == cf_WorkerID fence) &&
  (rev_ClaimEpoch revocation =? cf_Epoch fence) && (rr_claimTokenSHA256 record == digest) &&
  After (rev_ClaimExpiresAt revocation) now.

(** ** Helpers on action metadata *)

Definition signedCredentialExpiry (now : Time) (ttlSeconds : Z) : Time :=
  CanonicalCredentialExpiry (Add now (ttlSeconds * Second)).

Definition sameActionScope (left right : ActionMetadata) : bool :=
  (am_ActionID left == am_ActionID right) && (am_TenantID left == am_TenantID right) &&
  (am_WorkspaceID left == am_WorkspaceID right) && (am_EnvironmentID left == am_EnvironmentID right) &&
  (am_TargetKey left == am_TargetKey right) && (am_Production left == am_Production right) &&
  (am_RunnerID left == am_RunnerID right) && (am_LeaseEpoch left =? am_LeaseEpoch right) &&
  (am_ActionType left == am_ActionType right) && (am_ConnectorID left == am_ConnectorID right) &&
  (am_Permission left == am_Permission right) && (am_Resource left == am_Resource right) &&
  (am_CredentialTTLSeconds left =? am_CredentialTTLSeconds right).

Definition frozenActionFenceMatches (record : memoryRevocationRecord) (fence : ActionFence) : bool :=
  let revocation := rr_revocation record in
  (rev_ActionID revocation == af_ActionID fence) && (rev_RunnerID revocation == af_RunnerID fence) &&
  (rev_ActionLeaseEpoch revocation =? af_Epoch fence) &&
  (rr_actionTokenSHA256 record == SHA256Hex (af_Token fence)).

Definition inspectionScopeMatches (revocation : Revocation) (metadata : ActionMetadata) : bool :=
  (rev_ActionID revocation == am_ActionID metadata) && (rev_TenantID revocation == am_TenantID metadata) &&
  (rev_WorkspaceID revocation == am_WorkspaceID metadata) &&
  (rev_EnvironmentID revocation == am_EnvironmentID metadata) &&
  (rev_TargetKey revocation == am_TargetKey metadata) && (rev_Production revocation == am_Production metadata) &&
  (rev_ActionType revocation == am_ActionType metadata) &&
  (rev_CredentialTTLSeconds revocation =? am_CredentialTTLSeconds metadata) &&
  (rev_ConnectorID revocation == am_ConnectorID metadata) && (rev_Permission revocation == am_Permission metadata) &&
  (rev_Resource revocation == am_Resource metadata).

Definition runnerAuthorizationCurrent (metadata : ActionMetadata) : bool :=
  am_RunnerEnabled metadata && (am_RunnerPool metadata == "WRITE"%string) && (0 <? am_ScopeRevision metadata) &&
  (am_RunnerScopeRevision metadata =? am_ScopeRevision metadata) && am_ExactScopeAuthorized metadata.

Definition inspectionFenceCurrent (record : memoryRevocationRecord) (inspection : ActionInspection) (now : Time)
    (minimumWindow : Duration) : bool :=
  let metadata := ai_Metadata inspection in
  let minimumExpiry := Add now minimumWindow in
  runnerAuthorizationCurrent metadata && (am_Status metadata == ActionStatusRunning) &&
  IsZero (am_CancelRequestedAt metadata) && (am_RunnerID metadata == rev_RunnerID (rr_revocation record)) &&
  (am_LeaseEpoch metadata =? rev_ActionLeaseEpoch (rr_revocation record)) &&
  (ai_LeaseTokenSHA256 inspection == rr_actionTokenSHA256 record) &&
  After (am_LeaseExpiresAt metadata) minimumExpiry && After (am_AuthorizationExpiresAt metadata) minimumExpiry &&
  After (rev_CredentialExpiresAt (rr_revocation record)) minimumExpiry.

Definition samePrepare (existing : Revocation) (request : PrepareRequest) (metadata : ActionMetadata) : bool :=
  (rev_ActionID existing == am_ActionID metadata) && (rev_TenantID existing == am_TenantID metadata) &&
  (rev_WorkspaceID existing == am_WorkspaceID metadata) && (rev_EnvironmentID existing == am_EnvironmentID metadata) &&
  (rev_TargetKey existing == am_TargetKey metadata) && (rev_Production existing == am_Production metadata) &&
  (rev_RunnerID existing == am_RunnerID metadata) && (rev_ActionLeaseEpoch existing =? am_LeaseEpoch metadata) &&
  (rev_Issuer existing == prep_Issuer request) && (rev_IssuerRevision existing == prep_IssuerRevision request) &&
  (rev_ActionType existing == am_ActionType metadata) &&
  (rev_CredentialTTLSeconds existing =? am_CredentialTTLSeconds metadata) &&
  (rev_ConnectorID existing == am_ConnectorID metadata) && (rev_Permission existing == am_Permission metadata) &&
  (rev_Resource existing == am_Resource metadata) &&
  (rev_CredentialExpiresAt existing =? CanonicalCredentialExpiry (prep_CredentialExpiresAt request)).

(** ** The action source *)

(** What one call of [ResolveActionFence] answers, checked against the fence.
    [err'] is the context after a failed call. *)
Definition resolveAction (answer : Result ActionMetadata) (err' : option GoError) (fence : ActionFence) (now : Time)
    : Result ActionMetadata :=
  match answer with
  | Err _ => Err (default ErrStaleActionFence err')
  | Ok metadata =>
      ensure ((am_ActionID metadata == af_ActionID fence) && (am_RunnerID metadata == af_RunnerID fence) &&
              (am_LeaseEpoch metadata =? af_Epoch fence) &&
              ((am_Status metadata == ActionStatusLeased) || (am_Status metadata == ActionStatusRunning)) &&
              After (am_LeaseExpiresAt metadata) now && After (am_AuthorizationExpiresAt metadata) now &&
              ValidIdentifier (am_TenantID metadata) 256 && ValidIdentifier (am_WorkspaceID metadata) 256 &&
              ValidIdentifier (am_EnvironmentID metadata) 256 && ValidIdentifier (am_TargetKey metadata) 512 &&
              ValidIdentifier (am_ActionType metadata) 256 &&
              validCredentialTTLSeconds (am_CredentialTTLSeconds metadata) &&
              ValidOpaqueText (am_ConnectorID metadata) 256 && ValidOpaqueText (am_Permission metadata) 256 &&
              ValidOpaqueText (am_Resource metadata) 2048) ErrStaleActionFence;;
      Ok metadata
  end.

Definition resolvePrepareAction (answer : Result ActionMetadata) (err' : option GoError) (fence : ActionFence)
    (now : Time) : Result ActionMetadata :=
  metadata ← resolveAction answer err' fence now;
  let minimumExpiry := Add now MinPrepareFenceWindow in
  ensure (negb (Before (am_LeaseExpiresAt metadata) minimumExpiry ||
                Before (am_AuthorizationExpiresAt metadata) minimumExpiry)) ErrStaleActionFence;;
  Ok metadata.

(** One call of [WithLockedActionInspection]: whether the source is atomic at
    all, the snapshots it passed to its callback, in order and before it
    returned, and the error it returned. *)
Record LockedInspection := {
  li_atomic : bool; li_inspections : list ActionInspection; li_err : option GoError
}.

Definition withLockedActionInspection {A} (source : LockedInspection) (err' : option GoError)
    (operation : ActionInspection -> M MemoryRepository A) : M MemoryRepository A :=
  if negb (li_atomic source) then throw ErrAtomicActionSourceRequired
  else
    match li_inspections source with
    | [] => throw (match err', li_err source with
                   | Some e, _ => e
                   | None, None => ErrAtomicActionSourceRequired
                   | None, Some _ => ErrStaleActionFence
                   end)
    | inspection :: rest => fun repository =>
        let '(result, repository') := operation inspection repository in
        match rest, result, li_err source with
        | _ :: _, _, _ => (Err ErrAtomicActionSourceRequired, repository')
        | [], Err e, _ => (Err e, repository')
        | [], Ok _, Some e => (Err e, repository')
        | [], Ok a, None => (Ok a, repository')
        end
    end.

(** ** Reading and writing the maps *)

Definition putRevocation (id : string) (record : memoryRevocationRecord) (repository : MemoryRepository)
    : MemoryRepository :=
  let records := repo_records repository in
  {| repository with repo_records := <[id := record]> records |}.

Definition findRecord (id : string) : M MemoryRepository memoryRevocationRecord :=
  repository ← get;
  require_some (repo_records repository !! id) ErrRevocationNotFound.

(** Write a record back and answer with its public form. *)
Definition storeRecord (id : string) (record : memoryRevocationRecord) : M MemoryRepository Revocation :=
  modify (putRevocation id record);;
  mret (publicMemoryRevocation record).

Definition actionRecord (id : string) (fence : ActionFence) (metadata : ActionMetadata)
    : M MemoryRepository memoryRevocationRecord :=
  record ← findRecord id;
  let revocation := rr_revocation record in
  require ((rev_ActionID revocation == af_ActionID fence) && (rev_RunnerID revocation == af_RunnerID fence) &&
           (rev_ActionLeaseEpoch revocation =? af_Epoch fence) &&
           (rr_actionTokenSHA256 record == SHA256Hex (af_Token fence)) &&
           (rev_TenantID revocation == am_TenantID metadata) &&
           (rev_WorkspaceID revocation == am_WorkspaceID metadata) &&
           (rev_EnvironmentID revocation == am_EnvironmentID metadata) &&
           (rev_TargetKey revocation == am_TargetKey metadata) &&
           (rev_Production revocation == am_Production metadata) &&
           (rev_ActionType revocation == am_ActionType metadata) &&
           (rev_CredentialTTLSeconds revocation =? am_CredentialTTLSeconds metadata) &&
           (rev_ConnectorID revocation == am_ConnectorID metadata) &&
           (rev_Permission revocation == am_Permission metadata) &&
           (rev_Resource revocation == am_Resource metadata)) ErrStaleActionFence;;
  mret record.

Definition claimRecord (fence : ClaimFence) (now : Time) : M MemoryRepository memoryRevocationRecord :=
  record ← findRecord (cf_RevocationID fence);
  require (matchesMemoryClaim record fence (SHA256Hex (cf_Token fence)) now) ErrStaleClaim;;
  mret record.

(** ** Prepare *)

Definition preparedRevocation (request : PrepareRequest) (metadata : ActionMetadata) (now : Time) : Revocation :=
  {| rev_ID := prep_RevocationID request; rev_TenantID := am_TenantID metadata;
     rev_WorkspaceID := am_WorkspaceID metadata; rev_EnvironmentID := am_EnvironmentID metadata;
     rev_ActionID := am_ActionID metadata; rev_TargetKey := am_TargetKey metadata;
     rev_Production := am_Production metadata; rev_RunnerID := am_RunnerID metadata;
     rev_ActionLeaseEpoch := am_LeaseEpoch metadata; rev_Issuer := prep_Issuer request;
     rev_IssuerRevision := prep_IssuerRevision request; rev_ActionType := am_ActionType metadata;
     rev_ConnectorID := am_ConnectorID metadata; rev_Permission := am_Permission metadata;
     rev_Resource := am_Resource metadata; rev_CredentialTTLSeconds := am_CredentialTTLSeconds metadata;
     rev_CredentialExpiresAt := prep_CredentialExpiresAt request; rev_Status := StatusPrepared;
     rev_AccessorPresent := false; rev_AccessorHMAC := ""; rev_EncryptionKeyID := ""; rev_ClaimEpoch := 0;
     rev_ClaimedBy := ""; rev_ClaimedAt := Time_zero; rev_ClaimExpiresAt := Time_zero;
     rev_LastHeartbeatAt := Time_zero; rev_Attempt := 0; rev_FailureCount := 0;
     rev_FailureCode := FailureCodeOther ""; rev_FailureDetailSHA256 := ""; rev_AvailableAt := now;
     rev_EvidenceHash := ""; rev_CreatedAt := now; rev_UpdatedAt := now; rev_AnchoredAt := Time_zero;
     rev_ActivatedAt := Time_zero; rev_RevocationRequestedAt := Time_zero; rev_ManualRequiredAt := Time_zero;
     rev_RevokedAt := Time_zero; rev_Version := 1 |}.

Definition preparedRecord (request : PrepareRequest) (metadata : ActionMetadata) (permitToken : string) (now : Time)
    : memoryRevocationRecord :=
  {| rr_revocation := preparedRevocation request metadata now; rr_protected := ProtectedReference_zero;
     rr_actionTokenSHA256 := SHA256Hex (af_Token (prep_Fence request));
     rr_childCreatePermitSHA256 := SHA256Hex permitToken; rr_childCreateAuthorizedAt := Time_zero;
     rr_childCreateTTL := 0; rr_retryCycleAttemptBase := 0; rr_retryCycleStartedAt := Time_zero;
     rr_claimTokenSHA256 := ""; rr_completedClaimSHA256 := ""; rr_completedClaimEpoch := 0;
     rr_completedClaimWorker := ""; rr_confirmations := ∅ |}.

(** The new record with its index entry. *)
Definition addPrepared (request : PrepareRequest) (record : memoryRevocationRecord) (repository : MemoryRepository)
    : MemoryRepository :=
  let id := prep_RevocationID request in
  let key := actionEpochKey (af_ActionID (prep_Fence request)) (af_Epoch (prep_Fence request)) in
  {| repo_records := <[id := record]> (repo_records repository);
     repo_actionEpochs := <[key := id]> (repo_actionEpochs repository) |}.

(** The answer for a record that is already there. *)
Definition preparedBefore (request : PrepareRequest) (metadata : ActionMetadata) (existing : memoryRevocationRecord) : bool :=
  samePrepare (rr_revocation existing) request metadata &&
  (rr_actionTokenSHA256 existing == SHA256Hex (af_Token (prep_Fence request))).

Definition knownPrepared (existing : memoryRevocationRecord) : PrepareResult :=
  {| pr_Revocation := publicMemoryRevocation existing; pr_Created := false; pr_Permit := None |}.

Definition Repository_Prepare (err err' : option GoError) (clock clock' : Time)
    (answer answer' : Result ActionMetadata) (permit : Result string) (request : PrepareRequest)
    : M MemoryRepository PrepareResult :=
  checkContext err;;
  let expiresAt := prep_CredentialExpiresAt request in
  let request := {| request with prep_CredentialExpiresAt := CanonicalCredentialExpiry expiresAt |} in
  let expiresAt := prep_CredentialExpiresAt request in
  require (ValidRevocationID (prep_RevocationID request) && validActionFence (prep_Fence request) &&
           ValidOpaqueText (prep_Issuer request) 256 && ValidIdentifier (prep_IssuerRevision request) 256 &&
           negb (IsZero expiresAt) && After expiresAt clock &&
           negb (After expiresAt (CanonicalCredentialExpiry (Add clock MaxCredentialTTL))))
    ErrInvalidRevocationRequest;;
  metadata ← lift (resolvePrepareAction answer err' (prep_Fence request) clock);
  require (negb (am_Production metadata)) ErrInvalidRevocationRequest;;
  require (negb (After expiresAt (am_AuthorizationExpiresAt metadata) ||
                 After expiresAt (signedCredentialExpiry clock (am_CredentialTTLSeconds metadata))))
    ErrInvalidRevocationRequest;;
  revalidated ← lift (resolvePrepareAction answer' err' (prep_Fence request) clock');
  require (sameActionScope metadata revalidated) ErrStaleActionFence;;
  require (negb (After expiresAt (am_AuthorizationExpiresAt revalidated) ||
                 After expiresAt (signedCredentialExpiry clock' (am_CredentialTTLSeconds revalidated))))
    ErrStaleActionFence;;
  let metadata := revalidated in
  repository ← get;
  let key := actionEpochKey (af_ActionID (prep_Fence request)) (af_Epoch (prep_Fence request)) in
  match repo_actionEpochs repository !! key with
  | Some existingID =>
      existing ← require_some (repo_records repository !! existingID) ErrIdempotencyConflict;
      require (preparedBefore request metadata existing) ErrIdempotencyConflict;;
      require (match repo_records repository !! prep_RevocationID request with
               | Some _ => prep_RevocationID request == existingID
               | None => true
               end) ErrIdempotencyConflict;;
      mret (knownPrepared existing)
  | None =>
      match repo_records repository !! prep_RevocationID request with
      | Some existing =>
          require (preparedBefore request metadata existing) ErrIdempotencyConflict;;
          mret (knownPrepared existing)
      | None =>
          permitToken ← lift (match permit with
                              | Ok token => if ValidOpaqueText token 4096 then Ok token
                                            else Err ErrRevocationPersistence
                              | Err _ => Err ErrRevocationPersistence
                              end);
          let record := preparedRecord request metadata permitToken clock in
          modify (addPrepared request record);;
          mret {| pr_Revocation := publicMemoryRevocation record; pr_Created := true;
                  pr_Permit := Some {| permit_RevocationID := prep_RevocationID request;
                                       permit_Token := permitToken |} |}
      end
  end.

(** ** The child credential: authorisation, anchor, activation *)

(** Whole quanta of the time that is left before the credential's deadline once
    the reserve is taken off. *)
Definition childCreateTTL (credentialExpiresAt now : Time) : Duration :=
  let remaining := wrap64 (Sub credentialExpiresAt now - ChildCreateExpiryReserve) in
  Z.quot remaining VaultTTLQuantum * VaultTTLQuantum.

Definition authorizedRecord (now : Time) (ttl : Duration) (record : memoryRevocationRecord) : memoryRevocationRecord :=
  bump now {| record with rr_childCreateAuthorizedAt := now; rr_childCreateTTL := ttl |}.

Definition Repository_AuthorizeChildCreate (err err' : option GoError) (clock : Time) (source : LockedInspection)
    (request : AuthorizeChildCreateRequest) : M MemoryRepository ChildCreateAuthorization :=
  let permit := auth_Permit request in
  let fence := auth_Fence request in
  checkContext err;;
  require (ValidRevocationID (permit_RevocationID permit) && ValidOpaqueText (permit_Token permit) 4096 &&
           validActionFence fence) ErrInvalidRevocationRequest;;
  withLockedActionInspection source err' (fun inspection =>
    let metadata := ai_Metadata inspection in
    record ← findRecord (permit_RevocationID permit);
    require (frozenActionFenceMatches record fence && inspectionScopeMatches (rr_revocation record) metadata &&
             negb (After (rev_CredentialExpiresAt (rr_revocation record)) (am_AuthorizationExpiresAt metadata)) &&
             inspectionFenceCurrent record inspection clock 0) ErrStaleActionFence;;
    let minimumExpiry := Add clock (ChildCreateExpiryReserve + MinPostChildFenceWindow) in
    require (negb (Before (am_LeaseExpiresAt metadata) minimumExpiry ||
                   Before (am_AuthorizationExpiresAt metadata) minimumExpiry)) ErrStaleActionFence;;
    require (rr_childCreatePermitSHA256 record == SHA256Hex (permit_Token permit)) ErrStaleChildCreatePermit;;
    require ((rev_Status (rr_revocation record) == StatusPrepared) &&
             (len (ref_Ciphertext (rr_protected record)) =? 0)) ErrInvalidTransition;;
    require (IsZero (rr_childCreateAuthorizedAt record)) ErrChildCreateAlreadyAuthorized;;
    let ttl := childCreateTTL (rev_CredentialExpiresAt (rr_revocation record)) clock in
    require (MinChildCreateTTL <=? ttl) ErrChildCreateWindowExpired;;
    let record := authorizedRecord clock ttl record in
    revocation ← storeRecord (permit_RevocationID permit) record;
    mret {| cca_Revocation := revocation; cca_DatabaseAuthorizedAt := clock;
            cca_CredentialExpiresAt := rev_CredentialExpiresAt (rr_revocation record); cca_TTL := ttl;
            cca_VaultCallBudget := ChildCreateVaultCallBudget |}).

Definition anchoredRecord (protected : ProtectedReference) (now : Time) (record : memoryRevocationRecord)
    : memoryRevocationRecord :=
  let record := {| record with rr_protected := protected |} in
  bump now (on_revocation (fun revocation =>
    {| revocation with rev_Status := StatusAnchored; rev_AccessorPresent := true;
                       rev_AccessorHMAC := hex_EncodeToString (ref_AccessorHMAC protected);
                       rev_EncryptionKeyID := ref_KeyID protected; rev_AnchoredAt := now |}) record).

(** Revoke at once when the lease that asked is no longer current. *)
Definition revokeUnlessCurrent (current : bool) (record : memoryRevocationRecord) (now : Time)
    : Result memoryRevocationRecord :=
  if current then Ok record else applyRequestRevocation record now.

Definition Repository_RecordAnchor (err err' : option GoError) (clock clock' : Time) (source : LockedInspection)
    (protector : ReferenceProtector) (request : RecordAnchorRequest) : M MemoryRepository Revocation :=
  let id := anchor_RevocationID request in
  checkContext err;;
  require (ValidRevocationID id && validActionFence (anchor_Fence request) &&
           ValidSensitiveReference (anchor_Accessor request)) ErrInvalidRevocationRequest;;
  withLockedActionInspection source err' (fun inspection =>
    record ← findRecord id;
    require (frozenActionFenceMatches record (anchor_Fence request) &&
             inspectionScopeMatches (rr_revocation record) (ai_Metadata inspection)) ErrStaleActionFence;;
    require (negb (IsZero (rr_childCreateAuthorizedAt record))) ErrInvalidTransition;;
    let status := rev_Status (rr_revocation record) in
    let current := inspectionFenceCurrent record inspection clock 0 &&
                   inspectionFenceCurrent record inspection clock' MinPostChildFenceWindow in
    if status != StatusPrepared then
      require (negb ((status == StatusNoCredential) || (status == StatusRevoked) ||
                     (len (ref_Ciphertext (rr_protected record)) =? 0))) ErrInvalidTransition;;
      matches ← lift (match Matches protector (referenceContext (rr_revocation record)) (rr_protected record)
                              (anchor_Accessor request) with
                      | Ok b => Ok b
                      | Err _ => Err ErrReferenceProtection
                      end);
      require matches ErrIdempotencyConflict;;
      if (status == StatusAnchored) || (status == StatusActive) then
        record ← lift (revokeUnlessCurrent current record clock');
        storeRecord id record
      else mret (publicMemoryRevocation record)
    else
      protected ← lift (match Protect protector (referenceContext (rr_revocation record)) (anchor_Accessor request) with
                        | Ok p => Ok p
                        | Err _ => Err ErrReferenceProtection
                        end);
      record ← lift (revokeUnlessCurrent current (anchoredRecord protected clock' record) clock');
      storeRecord id record).

Definition activatedRecord (now : Time) : memoryRevocationRecord -> memoryRevocationRecord := fun record =>
  bump now (on_revocation (fun revocation =>
    {| revocation with rev_Status := StatusActive; rev_ActivatedAt := now |}) record).

Definition Repository_Activate (err err' : option GoError) (clock clock' : Time) (source : LockedInspection)
    (request : ActionTransitionRequest) : M MemoryRepository Revocation :=
  let id := transition_RevocationID request in
  checkContext err;;
  require (ValidRevocationID id && validActionFence (transition_Fence request)) ErrInvalidRevocationRequest;;
  withLockedActionInspection source err' (fun inspection =>
    record ← findRecord id;
    require (frozenActionFenceMatches record (transition_Fence request) &&
             inspectionScopeMatches (rr_revocation record) (ai_Metadata inspection)) ErrStaleActionFence;;
    let current := inspectionFenceCurrent record inspection clock 0 in
    let current' := inspectionFenceCurrent record inspection clock' MinPostChildFenceWindow in
    match rev_Status (rr_revocation record) with
    | StatusAnchored =>
        if negb current then
          record ← lift (applyRequestRevocation record clock);
          storeRecord id record
        else
          record ← lift (revokeUnlessCurrent current' (activatedRecord clock record) clock');
          storeRecord id record
    | StatusActive =>
        record ← lift (revokeUnlessCurrent current' record clock');
        storeRecord id record
    | StatusRevocationPending | StatusRevoking | StatusManualRequired | StatusRevoked =>
        mret (publicMemoryRevocation record)
    | _ => throw ErrInvalidTransition
    end).

(** ** Transitions under a bearer fence *)

Definition actionTransition (err err' : option GoError) (clock : Time) (answer : Result ActionMetadata)
    (request : ActionTransitionRequest)
    (transition : memoryRevocationRecord -> Time -> Result memoryRevocationRecord) : M MemoryRepository Revocation :=
  checkContext err;;
  require (ValidRevocationID (transition_RevocationID request) && validActionFence (transition_Fence request))
    ErrInvalidRevocationRequest;;
  metadata ← lift (resolveAction answer err' (transition_Fence request) clock);
  record ← actionRecord (transition_RevocationID request) (transition_Fence request) metadata;
  record ← lift (transition record clock);
  storeRecord (transition_RevocationID request) record.

Definition noCredentialTransition (record : memoryRevocationRecord) (now : Time) : Result memoryRevocationRecord :=
  match rev_Status (rr_revocation record) with
  | StatusPrepared =>
      ensure (IsZero (rr_childCreateAuthorizedAt record)) ErrInvalidTransition;;
      Ok (bump now (set_status StatusNoCredential record))
  | StatusNoCredential => Ok record
  | _ => Err ErrInvalidTransition
  end.

Definition Repository_RecordNoCredential (err err' : option GoError) (clock : Time) (answer : Result ActionMetadata)
    (request : ActionTransitionRequest) : M MemoryRepository Revocation :=
  actionTransition err err' clock answer request noCredentialTransition.

Definition Repository_RequestRevocation (err err' : option GoError) (clock : Time) (answer : Result ActionMetadata)
    (request : ActionTransitionRequest) : M MemoryRepository Revocation :=
  if transition_Fence request == ActionFence_zero then
    checkContext err;;
    require (ValidRevocationID (transition_RevocationID request)) ErrInvalidRevocationRequest;;
    record ← findRecord (transition_RevocationID request);
    record ← lift (applyRequestRevocation record clock);
    storeRecord (transition_RevocationID request) record
  else actionTransition err err' clock answer request applyRequestRevocation.

(** ** Batches: candidates of a map, in the order of [sort.Slice] *)

Definition rr_id (record : memoryRevocationRecord) : string := rev_ID (rr_revocation record).

(** [if len(candidates) > limit { candidates = candidates[:limit] }] *)
Definition candidates (eligible : memoryRevocationRecord -> bool) (keys : list (memoryRevocationRecord -> Time))
    (limit : Z) (repository : MemoryRepository) : list memoryRevocationRecord :=
  take (Z.to_nat limit)
    (sort_Slice (lessBy keys rr_id) (List.filter eligible (map_to_list (repo_records repository)).*2)).

Definition validLimit (limit : Z) : bool := (1 <=? limit) && (limit <=? MaxRevocationClaimBatch).

(** The loop that updates each candidate in place and collects the answers. *)
Definition updateAll (change : memoryRevocationRecord -> memoryRevocationRecord)
    (records : list memoryRevocationRecord) (repository : MemoryRepository) : MemoryRepository :=
  foldl (fun repository record => putRevocation (rr_id record) (change record) repository) repository records.

Definition preparedLapsed (now : Time) (record : memoryRevocationRecord) : bool :=
  let eligibleAt := Add (rev_CredentialExpiresAt (rr_revocation record)) PreparedRecoveryGrace in
  (rev_Status (rr_revocation record) == StatusPrepared) &&
  (len (ref_Ciphertext (rr_protected record)) =? 0) && negb (After eligibleAt now).

Definition lapsedRecord (now : Time) (record : memoryRevocationRecord) : memoryRevocationRecord :=
  bump now (set_status StatusNoCredential record).

Definition Repository_RecoverPrepared (err : option GoError) (clock : Time) (limit : Z)
    : M MemoryRepository (list Revocation) :=
  checkContext err;;
  require (validLimit limit) ErrInvalidRevocationRequest;;
  repository ← get;
  let selected := candidates (preparedLapsed clock) [fun r => rev_CredentialExpiresAt (rr_revocation r)]
                    limit repository in
  modify (updateAll (lapsedRecord clock) selected);;
  mret (List.map (fun record => publicMemoryRevocation (lapsedRecord clock record)) selected).

Definition exhaustedUnclaimed (now : Time) (record : memoryRevocationRecord) : bool :=
  let status := rev_Status (rr_revocation record) in
  ((status == StatusRevocationPending) ||
   ((status == StatusRevoking) && negb (After (rev_ClaimExpiresAt (rr_revocation record)) now))) &&
  memoryRevocationExhausted record now.

Definition manualRecord (code : FailureCode) (detail : string) (now : Time) (record : memoryRevocationRecord)
    : memoryRevocationRecord :=
  bump now (clearActiveClaim (on_revocation (fun revocation =>
    let failures := rev_FailureCount revocation in
    {| revocation with rev_Status := StatusManualRequired; rev_FailureCount := failures + 1;
                       rev_FailureCode := code; rev_FailureDetailSHA256 := SHA256Hex detail;
                       rev_ManualRequiredAt := now |}) record)).

Definition exhaustedRecord (now : Time) : memoryRevocationRecord -> memoryRevocationRecord :=
  manualRecord FailureUnknown FailureDetailExhaustedWithoutAck now.

Definition Repository_RecoverExhausted (err : option GoError) (clock : Time) (limit : Z)
    : M MemoryRepository (list Revocation) :=
  checkContext err;;
  require (validLimit limit) ErrInvalidRevocationRequest;;
  repository ← get;
  let selected := candidates (exhaustedUnclaimed clock) [fun r => rev_RevocationRequestedAt (rr_revocation r)]
                    limit repository in
  modify (updateAll (exhaustedRecord clock) selected);;
  mret (List.map (fun record => publicMemoryRevocation (exhaustedRecord clock record)) selected).

(** [RecoverManaged] takes the lock once to list the managed records and again
    for each of them, so other calls may run in between: the steps are atomic,
    the whole call is not.  [recoverManagedItem] is one such step. *)
Definition managed (record : memoryRevocationRecord) : bool :=
  (rev_Status (rr_revocation record) == StatusAnchored) || (rev_Status (rr_revocation record) == StatusActive).

Definition managedAt (record : memoryRevocationRecord) : Time :=
  if rev_Status (rr_revocation record) == StatusActive then rev_ActivatedAt (rr_revocation record)
  else rev_AnchoredAt (rr_revocation record).

Definition managedCandidates (repository : MemoryRepository) : list (string * string) :=
  List.map (fun record => (rr_id record, rev_ActionID (rr_revocation record)))
    (sort_Slice (lessBy [managedAt] rr_id) (List.filter managed (map_to_list (repo_records repository)).*2)).

Definition managedCurrent (record : memoryRevocationRecord) (inspection : ActionInspection) (now : Time) : bool :=
  inspectionScopeMatches (rr_revocation record) (ai_Metadata inspection) &&
  inspectionFenceCurrent record inspection now MinPostChildFenceWindow &&
  negb ((rev_Status (rr_revocation record) == StatusAnchored) &&
        negb (After (Add (rev_AnchoredAt (rr_revocation record)) ManagedAnchorRecoveryGrace) now)).

Definition recoverManagedItem (err' : option GoError) (clock : Time) (source : LockedInspection) (id : string)
    : M MemoryRepository (option Revocation) :=
  withLockedActionInspection source err' (fun inspection =>
    repository ← get;
    match repo_records repository !! id with
    | None => mret None
    | Some record =>
        if negb (managed record) || managedCurrent record inspection clock then mret None
        else
          record ← lift (applyRequestRevocation record clock);
          revocation ← storeRecord id record;
          mret (Some revocation)
    end).

(** The loop over the listed records, [step] being the item step of the n-th.  It
    answers with what was recovered, and with the error that ended it, if any. *)
Fixpoint recoverManagedLoop (step : nat -> string -> M MemoryRepository (option Revocation)) (limit : Z) (n : nat)
    (items : list (string * string)) (recovered : list Revocation)
    : M MemoryRepository (list Revocation * option GoError) :=
  match items with
  | [] => mret (recovered, None)
  | (id, _) :: items =>
      if Z.of_nat (List.length recovered) =? limit then mret (recovered, None)
      else fun repository =>
        match step n id repository with
        | (Err e, repository) => (Ok (recovered, Some e), repository)
        | (Ok transitioned, repository) =>
            recoverManagedLoop step limit (S n) items
              (match transitioned with Some revocation => recovered ++ [revocation] | None => recovered end) repository
        end
  end.

(** The call without other calls in between. *)
Definition Repository_RecoverManaged (err : option GoError) (err' : nat -> option GoError) (clock : nat -> Time)
    (source : nat -> LockedInspection) (limit : Z) : M MemoryRepository (list Revocation * option GoError) :=
  checkContext err;;
  require (validLimit limit) ErrInvalidRevocationRequest;;
  repository ← get;
  recoverManagedLoop (fun n id => recoverManagedItem (err' n) (clock n) (source n) id) limit 0
    (managedCandidates repository) [].

(** ** Revocation claims *)

Definition claimable (now : Time) (record : memoryRevocationRecord) : bool :=
  let revocation := rr_revocation record in
  (((rev_Status revocation == StatusRevocationPending) && negb (After (rev_AvailableAt revocation) now)) ||
   ((rev_Status revocation == StatusRevoking) && negb (After (rev_ClaimExpiresAt revocation) now))) &&
  negb (memoryRevocationExhausted record now).

Record memoryPreparedClaim := {
  pc_record : memoryRevocationRecord; pc_token : string; pc_accessor : SensitiveReference; pc_poison : bool
}.

(** The first pass: a token and the opened reference for every candidate, or an
    error before anything is written. *)
Fixpoint prepareClaims (protector : ReferenceProtector) (tokens : nat -> Result string) (n : nat)
    (records : list memoryRevocationRecord) : Result (list memoryPreparedClaim) :=
  match records with
  | [] => Ok []
  | record :: records =>
      ensure (negb (rev_ClaimEpoch (rr_revocation record) =? MaxInt64)) ErrInvalidTransition;;
      token ← match tokens n with
              | Ok token => if ValidOpaqueText token 4096 then Ok token
                            else Err (Errorf "generate credential revocation claim token" ErrInvalidRevocationRequest)
              | Err _ => Err (Errorf "generate credential revocation claim token" ErrInvalidRevocationRequest)
              end;
      let opened := Unprotect protector (referenceContext (rr_revocation record)) (rr_protected record) in
      let poison := match opened with Ok accessor => negb (ValidSensitiveReference accessor) | Err _ => true end in
      let accessor := match opened with Ok accessor => if poison then None else accessor | Err _ => None end in
      rest ← prepareClaims protector tokens (S n) records;
      Ok ({| pc_record := record; pc_token := token; pc_accessor := accessor; pc_poison := poison |} :: rest)
  end.

Definition claimedRecord (request : ClaimRevocationsRequest) (now : Time) (token : string)
    (record : memoryRevocationRecord) : memoryRevocationRecord :=
  let record := on_revocation (fun revocation =>
    let epoch := rev_ClaimEpoch revocation in
    let attempt := rev_Attempt revocation in
    {| revocation with rev_Status := StatusRevoking; rev_ClaimEpoch := epoch + 1;
                       rev_ClaimedBy := rclaim_WorkerID request; rev_ClaimedAt := now;
                       rev_LastHeartbeatAt := now;
                       rev_ClaimExpiresAt := Add now (rclaim_LeaseDuration request);
                       rev_Attempt := attempt + 1 |}) record in
  bump now {| record with rr_claimTokenSHA256 := SHA256Hex token |}.

(** The second pass on one record: a reference that does not open goes to the
    operators instead of the worker. *)
Definition claimOutcome (request : ClaimRevocationsRequest) (now : Time) (item : memoryPreparedClaim)
    : memoryRevocationRecord :=
  let record := claimedRecord request now (pc_token item) (pc_record item) in
  if pc_poison item then manualRecord FailureInvalidReference FailureDetailProtectedRefInvalid now record
  else record.

Definition claimAnswer (request : ClaimRevocationsRequest) (now : Time) (item : memoryPreparedClaim)
    : ClaimedRevocation :=
  let record := claimOutcome request now item in
  {| claimed_Revocation := publicMemoryRevocation record;
     claimed_Fence := {| cf_RevocationID := rr_id record; cf_WorkerID := rclaim_WorkerID request;
                         cf_Token := pc_token item; cf_Epoch := rev_ClaimEpoch (rr_revocation record) |};
     claimed_Accessor := pc_accessor item |}.

Definition Repository_ClaimRevocations (err : option GoError) (clock : Time) (protector : ReferenceProtector)
    (tokens : nat -> Result string) (request : ClaimRevocationsRequest) : M MemoryRepository (list ClaimedRevocation) :=
  checkContext err;;
  require (ValidIdentifier (rclaim_WorkerID request) 256 && validLimit (rclaim_Limit request) &&
           validClaimDuration (rclaim_LeaseDuration request)) ErrInvalidRevocationRequest;;
  repository ← get;
  let selected := candidates (claimable clock)
                    [fun r => rev_AvailableAt (rr_revocation r); fun r => rev_CreatedAt (rr_revocation r)]
                    (rclaim_Limit request) repository in
  prepared ← lift (prepareClaims protector tokens 0 selected);
  modify (fun repository =>
    foldl (fun repository item => putRevocation (rr_id (pc_record item)) (claimOutcome request clock item) repository)
      repository prepared);;
  mret (List.map (claimAnswer request clock) (List.filter (fun item => negb (pc_poison item)) prepared)).

Definition beatenRecord (extension : Duration) (now : Time) (record : memoryRevocationRecord) : memoryRevocationRecord :=
  bump now (on_revocation (fun revocation =>
    {| revocation with rev_LastHeartbeatAt := now; rev_ClaimExpiresAt := Add now extension |}) record).

Definition Repository_Heartbeat (err : option GoError) (clock : Time) (request : HeartbeatRequest)
    : M MemoryRepository Revocation :=
  checkContext err;;
  require (validClaimFence (rbeat_Fence request) && validClaimDuration (rbeat_Extension request))
    ErrInvalidRevocationRequest;;
  record ← claimRecord (rbeat_Fence request) clock;
  storeRecord (cf_RevocationID (rbeat_Fence request)) (beatenRecord (rbeat_Extension request) clock record).

Definition revokedRecord (fence : ClaimFence) (now : Time) (record : memoryRevocationRecord) : memoryRevocationRecord :=
  let record := {| record with rr_completedClaimSHA256 := SHA256Hex (cf_Token fence);
                               rr_completedClaimEpoch := cf_Epoch fence;
                               rr_completedClaimWorker := cf_WorkerID fence |} in
  let record := on_revocation (fun revocation =>
    {| revocation with rev_Status := StatusRevoked; rev_RevokedAt := now |}) record in
  bump now (clearProtectedReference (clearActiveClaim record)).

Definition Repository_CompleteRevocation (err : option GoError) (clock : Time) (fence : ClaimFence)
    : M MemoryRepository Revocation :=
  checkContext err;;
  require (validClaimFence fence) ErrInvalidRevocationRequest;;
  record ← findRecord (cf_RevocationID fence);
  let digest := SHA256Hex (cf_Token fence) in
  if rev_Status (rr_revocation record) == StatusRevoked then
    require ((rr_completedClaimSHA256 record == digest) && (rr_completedClaimEpoch record =? cf_Epoch fence) &&
             (rr_completedClaimWorker record == cf_WorkerID fence)) ErrStaleClaim;;
    mret (publicMemoryRevocation record)
  else
    require (matchesMemoryClaim record fence digest clock) ErrStaleClaim;;
    storeRecord (cf_RevocationID fence) (revokedRecord fence clock record).

(** A failed attempt: the transition, then the failure is recorded and the
    claim dropped. *)
Definition failedRecord (code : FailureCode) (detail : string) (now : Time)
    (transition : memoryRevocationRecord -> memoryRevocationRecord) (record : memoryRevocationRecord)
    : memoryRevocationRecord :=
  bump now (clearActiveClaim (on_revocation (fun revocation =>
    let failures := rev_FailureCount revocation in
    {| revocation with rev_FailureCount := failures + 1; rev_FailureCode := code;
                       rev_FailureDetailSHA256 := SHA256Hex detail |}) (transition record))).

Definition failClaim (err : option GoError) (clock : Time) (fence : ClaimFence) (code : FailureCode) (detail : string)
    (transition : memoryRevocationRecord -> memoryRevocationRecord) : M MemoryRepository Revocation :=
  checkContext err;;
  require (validClaimFence fence) ErrInvalidRevocationRequest;;
  record ← claimRecord fence clock;
  storeRecord (cf_RevocationID fence) (failedRecord code detail clock transition record).

Definition toManual (now : Time) : memoryRevocationRecord -> memoryRevocationRecord :=
  on_revocation (fun revocation =>
    {| revocation with rev_Status := StatusManualRequired; rev_ManualRequiredAt := now |}).

Definition retryTransition (delay : Duration) (now : Time) (record : memoryRevocationRecord) : memoryRevocationRecord :=
  if memoryRevocationExhausted record now then toManual now record
  else on_revocation (fun revocation =>
    {| revocation with rev_Status := StatusRevocationPending; rev_AvailableAt := Add now delay |}) record.

Definition Repository_RetryRevocation (err : option GoError) (clock : Time) (request : RetryRevocationRequest)
    : M MemoryRepository Revocation :=
  require ((MinRevocationRetryDelay <=? retry_Delay request) && (retry_Delay request <=? MaxRevocationRetryDelay) &&
           validFailure (retry_FailureCode request) (retry_FailureDetail request)) ErrInvalidRevocationRequest;;
  failClaim err clock (retry_Fence request) (retry_FailureCode request) (retry_FailureDetail request)
    (retryTransition (retry_Delay request) clock).

Definition Repository_RequireManual (err : option GoError) (clock : Time) (request : RequireManualRequest)
    : M MemoryRepository Revocation :=
  require (validFailure (manual_FailureCode request) (manual_FailureDetail request)) ErrInvalidRevocationRequest;;
  failClaim err clock (manual_Fence request) (manual_FailureCode request) (manual_FailureDetail request)
    (toManual clock).

(** ** The operators' path *)

Definition requeuedRecord (now : Time) (record : memoryRevocationRecord) : memoryRevocationRecord :=
  bump now (begin_cycle now (on_revocation (fun revocation =>
    {| revocation with rev_Status := StatusRevocationPending; rev_AvailableAt := now |}) record)).

Definition Repository_RequeueManual (err : option GoError) (clock : Time) (request : RequeueManualRequest)
    : M MemoryRepository Revocation :=
  checkContext err;;
  require (ValidRevocationID (requeue_RevocationID request) && validSubject (requeue_ActorSubject request))
    ErrInvalidRevocationRequest;;
  record ← findRecord (requeue_RevocationID request);
  let revocation := rr_revocation record in
  if rev_Status revocation == StatusRevocationPending then mret (publicMemoryRevocation record)
  else
    require ((rev_Status revocation == StatusManualRequired) && (rev_EvidenceHash revocation == ""%string) &&
             (Z.of_nat (size (rr_confirmations record)) =? 0)) ErrInvalidTransition;;
    storeRecord (requeue_RevocationID request) (requeuedRecord clock record).

Definition hasPlatformAdmin (confirmations : gmap string ExternalConfirmation) : bool :=
  existsb (fun entry => xc_PlatformAdmin entry.2) (map_to_list confirmations).

Definition confirmationResult (record : memoryRevocationRecord) : ConfirmationResult :=
  {| conf_Revocation := publicMemoryRevocation record;
     conf_Confirmations := sort_Slice (lessBy [xc_CreatedAt] xc_Subject) (map_to_list (rr_confirmations record)).*2 |}.

Definition confirmedRecord (request : ExternalConfirmationRequest) (now : Time) (record : memoryRevocationRecord)
    : memoryRevocationRecord :=
  let confirmations := rr_confirmations record in
  let record := {| record with
    rr_confirmations := <[confirm_Subject request :=
      {| xc_Subject := confirm_Subject request; xc_EvidenceHash := confirm_EvidenceHash request;
         xc_PlatformAdmin := confirm_PlatformAdmin request; xc_CreatedAt := now |}]> confirmations |} in
  bump now (on_revocation (fun revocation =>
    {| revocation with rev_EvidenceHash := confirm_EvidenceHash request |}) record).

Definition confirmedRevoked (now : Time) (record : memoryRevocationRecord) : memoryRevocationRecord :=
  clearProtectedReference (on_revocation (fun revocation =>
    {| revocation with rev_Status := StatusRevoked; rev_RevokedAt := now |}) record).

Definition withoutConfirmation (subject : string) (record : memoryRevocationRecord) : memoryRevocationRecord :=
  let confirmations := rr_confirmations record in
  {| record with rr_confirmations := delete subject confirmations |}.

Definition Repository_SubmitExternalConfirmation (err : option GoError) (clock : Time)
    (request : ExternalConfirmationRequest) : M MemoryRepository ConfirmationResult :=
  let id := confirm_RevocationID request in
  checkContext err;;
  require (ValidRevocationID id && validSubject (confirm_Subject request) &&
           ValidSHA256 (confirm_EvidenceHash request)) ErrInvalidRevocationRequest;;
  record ← findRecord id;
  let revocation := rr_revocation record in
  require ((rev_Status revocation == StatusManualRequired) || (rev_Status revocation == StatusRevoked))
    ErrInvalidTransition;;
  require (negb ((rev_EvidenceHash revocation != ""%string) &&
                 (rev_EvidenceHash revocation != confirm_EvidenceHash request))) ErrEvidenceConflict;;
  match rr_confirmations record !! confirm_Subject request with
  | Some existing =>
      require ((xc_EvidenceHash existing == confirm_EvidenceHash request) &&
               Bool.eqb (xc_PlatformAdmin existing) (confirm_PlatformAdmin request)) ErrEvidenceConflict;;
      mret (confirmationResult record)
  | None =>
      require (rev_Status revocation != StatusRevoked) ErrInvalidTransition;;
      require (negb ((1 <=? Z.of_nat (size (rr_confirmations record))) && negb (confirm_PlatformAdmin request) &&
                     negb (hasPlatformAdmin (rr_confirmations record)))) ErrPlatformAdminRequired;;
      let record := confirmedRecord request clock record in
      if 2 <=? Z.of_nat (size (rr_confirmations record)) then
        if negb (hasPlatformAdmin (rr_confirmations record)) then
          modify (putRevocation id (withoutConfirmation (confirm_Subject request) record));;
          throw ErrPlatformAdminRequired
        else
          let record := confirmedRevoked clock record in
          modify (putRevocation id record);;
          mret (confirmationResult record)
      else
        modify (putRevocation id record);;
        mret (confirmationResult record)
  end.

(** ** Reads *)

Definition Repository_Get (err : option GoError) (revocationID : string) : M MemoryRepository Revocation :=
  checkContext err;;
  require (ValidRevocationID revocationID) ErrInvalidRevocationRequest;;
  record ← findRecord revocationID;
  mret (publicMemoryRevocation record).

(** [(present, terminal)] for the credential of an action's lease epoch. *)
Definition Repository_InspectCleanup (err err' : option GoError) (actionID : string) (epoch : Z)
    : M MemoryRepository (bool * bool) :=
  checkContext err;;
  require (ValidIdentifier actionID 256 && (0 <? epoch)) ErrInvalidRevocationRequest;;
  checkContext err';;
  repository ← get;
  match repo_actionEpochs repository !! actionEpochKey actionID epoch with
  | None => mret (false, false)
  | Some revocationID =>
      record ← require_some (repo_records repository !! revocationID)
                 (Errorf "inspect credential cleanup" ErrRevocationPersistence);
      mret (true, Revocation_Terminal (rr_revocation record))
  end.

Definition listed (filter : ListFilter) (revocation : Revocation) : bool :=
  ((filter_WorkspaceID filter == ""%string) || (rev_WorkspaceID revocation == filter_WorkspaceID filter)) &&
  ((filter_Status filter == RevocationStatusOther "") || (rev_Status revocation == filter_Status filter)).

Definition Repository_List (err : option GoError) (filter : ListFilter) : M MemoryRepository (list Revocation) :=
  checkContext err;;
  require (((filter_WorkspaceID filter == ""%string) || ValidIdentifier (filter_WorkspaceID filter) 256) &&
           ((filter_Status filter == RevocationStatusOther "") || ValidRevocationStatus (filter_Status filter)) &&
           (1 <=? filter_Limit filter) && (filter_Limit filter <=? 1000)) ErrInvalidRevocationRequest;;
  repository ← get;
  mret (take (Z.to_nat (filter_Limit filter))
    (sort_Slice (lessBy [rev_CreatedAt] rev_ID)
      (List.filter (listed filter)
        (List.map publicMemoryRevocation (map_to_list (repo_records repository)).*2)))).

(** ** The atomic steps of the repository, with every input they depend on *)

Inductive RepositoryCall :=
| CallPrepare (err err' : option GoError) (clock clock' : Time) (answer answer' : Result ActionMetadata)
    (permit : Result string) (request : PrepareRequest)
| CallAuthorizeChildCreate (err err' : option GoError) (clock : Time) (source : LockedInspection)
    (request : AuthorizeChildCreateRequest)
| CallRecordAnchor (err err' : option GoError) (clock clock' : Time) (source : LockedInspection)
    (protector : ReferenceProtector) (request : RecordAnchorRequest)
| CallActivate (err err' : option GoError) (clock clock' : Time) (source : LockedInspection)
    (request : ActionTransitionRequest)
| CallRecordNoCredential (err err' : option GoError) (clock : Time) (answer : Result ActionMetadata)
    (request : ActionTransitionRequest)
| CallRecoverPrepared (err : option GoError) (clock : Time) (limit : Z)
| CallRecoverManagedItem (err' : option GoError) (clock : Time) (source : LockedInspection) (id : string)
| CallRecoverExhausted (err : option GoError) (clock : Time) (limit : Z)
| CallRequestRevocation (err err' : option GoError) (clock : Time) (answer : Result ActionMetadata)
    (request : ActionTransitionRequest)
| CallClaimRevocations (err : option GoError) (clock : Time) (protector : ReferenceProtector)
    (tokens : nat -> Result string) (request : ClaimRevocationsRequest)
| CallRevocationHeartbeat (err : option GoError) (clock : Time) (request : HeartbeatRequest)
| CallCompleteRevocation (err : option GoError) (clock : Time) (fence : ClaimFence)
| CallRetryRevocation (err : option GoError) (clock : Time) (request : RetryRevocationRequest)
| CallRequireManual (err : option GoError) (clock : Time) (request : RequireManualRequest)
| CallRequeueManual (err : option GoError) (clock : Time) (request : RequeueManualRequest)
| CallSubmitExternalConfirmation (err : option GoError) (clock : Time) (request : ExternalConfirmationRequest).

(** The repository after a call, and whether it returned an error. *)
Definition ran {A} (m : M MemoryRepository A) : M MemoryRepository unit := m;; mret tt.

Definition run_repository (call : RepositoryCall) : M MemoryRepository unit :=
  match call with
  | CallPrepare err err' clock clock' answer answer' permit request =>
      ran (Repository_Prepare err err' clock clock' answer answer' permit request)
  | CallAuthorizeChildCreate err err' clock source request =>
      ran (Repository_AuthorizeChildCreate err err' clock source request)
  | CallRecordAnchor err err' clock clock' source protector request =>
      ran (Repository_RecordAnchor err err' clock clock' source protector request)
  | CallActivate err err' clock clock' source request =>
      ran (Repository_Activate err err' clock clock' source request)
  | CallRecordNoCredential err err' clock answer request =>
      ran (Repository_RecordNoCredential err err' clock answer request)
  | CallRecoverPrepared err clock limit => ran (Repository_RecoverPrepared err clock limit)
  | CallRecoverManagedItem err' clock source id => ran (recoverManagedItem err' clock source id)
  | CallRecoverExhausted err clock limit => ran (Repository_RecoverExhausted err clock limit)
  | CallRequestRevocation err err' clock answer request =>
      ran (Repository_RequestRevocation err err' clock answer request)
  | CallClaimRevocations err clock protector tokens request =>
      ran (Repository_ClaimRevocations err clock protector tokens request)
  | CallRevocationHeartbeat err clock request => ran (Repository_Heartbeat err clock request)
  | CallCompleteRevocation err clock fence => ran (Repository_CompleteRevocation err clock fence)
  | CallRetryRevocation err clock request => ran (Repository_RetryRevocation err clock request)
  | CallRequireManual err clock request => ran (Repository_RequireManual err clock request)
  | CallRequeueManual err clock request => ran (Repository_RequeueManual err clock request)
  | CallSubmitExternalConfirmation err clock request =>
      ran (Repository_SubmitExternalConfirmation err clock request)
  end.

(** The readings of a running clock: after the zero time, which stands for an
    unset field, and before the year 285000, up to which [UnixMicro] is exact.
    [NewMemoryRepository] refuses a clock whose first reading is the zero time. *)
Definition running (clock : Time) : Prop := 0 < clock < 9000000000000 * Second.

Definition call_clocks (call : RepositoryCall) : list Time :=
  match call with
  | CallPrepare _ _ clock clock' _ _ _ _ | CallRecordAnchor _ _ clock clock' _ _ _
  | CallActivate _ _ clock clock' _ _ => [clock; clock']
  | CallAuthorizeChildCreate _ _ clock _ _ | CallRecordNoCredential _ _ clock _ _
  | CallRecoverPrepared _ clock _ | CallRecoverManagedItem _ clock _ _ | CallRecoverExhausted _ clock _
  | CallRequestRevocation _ _ clock _ _ | CallClaimRevocations _ clock _ _ _
  | CallRevocationHeartbeat _ clock _ | CallCompleteRevocation _ clock _ | CallRetryRevocation _ clock _
  | CallRequireManual _ clock _ | CallRequeueManual _ clock _ | CallSubmitExternalConfirmation _ clock _ => [clock]
  end.

Definition repository_step (repository repository' : MemoryRepository) : Prop :=
  exists call result,
    Forall running (call_clocks call) /\
    run_repository call repository = (result, repository').

Definition repository_reachable (repository : MemoryRepository) : Prop :=
  exists clock initial, NewMemoryRepository true true clock = Ok initial /\ rtc repository_step initial repository.
