(* ===== verification/CredentialFacts.v ===== *)
(** * Credential revocations: elementary changes

    Every method of the repository is a sequence of elementary changes of one
    record, each with the conditions the code checked before it ([record_change]),
    or the insertion of a prepared record.  The invariant, the lifecycle and the
    guarantees that hold across calls are proved of the elementary changes and
    carried to the methods by [run_repository_changes]. *)

From S2P Require Import Prelude.
From S2P Require Import Sha256.
From S2P Require Import GoText.
From S2P Require Import GoStrings.
From S2P Require Import GoJson.
From S2P Require Import GoSort.
From S2P Require Import Credential.

Open Scope Z_scope.

Abbreviation status r := (rev_Status (rr_revocation r)).
Abbreviation expiry r := (rev_CredentialExpiresAt (rr_revocation r)).

(** ** Elementary changes *)

Inductive record_change (now : Time) (r : memoryRevocationRecord) : memoryRevocationRecord -> Prop :=
| change_authorize :
    status r = StatusPrepared -> rr_childCreateAuthorizedAt r = 0 -> now < expiry r ->
    MinChildCreateTTL <= childCreateTTL (expiry r) now ->
    record_change now r (authorizedRecord now (childCreateTTL (expiry r) now) r)
| change_anchor protected :
    status r = StatusPrepared -> rr_childCreateAuthorizedAt r <> 0 ->
    record_change now r (anchoredRecord protected now r)
| change_activate :
    status r = StatusAnchored -> record_change now r (activatedRecord now r)
| change_request r' :
    status r = StatusAnchored \/ status r = StatusActive ->
    applyRequestRevocation r now = Ok r' -> record_change now r r'
| change_no_credential :
    status r = StatusPrepared -> rr_childCreateAuthorizedAt r = 0 ->
    record_change now r (bump now (set_status StatusNoCredential r))
| change_lapse :
    preparedLapsed now r = true -> record_change now r (lapsedRecord now r)
| change_exhaust :
    exhaustedUnclaimed now r = true -> record_change now r (exhaustedRecord now r)
| change_claim request token :
    claimable now r = true -> rev_ClaimEpoch (rr_revocation r) <> MaxInt64 ->
    ValidIdentifier (rclaim_WorkerID request) 256 = true ->
    record_change now r (claimedRecord request now token r)
| change_poison :
    status r = StatusRevoking ->
    record_change now r (manualRecord FailureInvalidReference FailureDetailProtectedRefInvalid now r)
| change_beat fence extension :
    matchesMemoryClaim r fence (SHA256Hex (cf_Token fence)) now = true ->
    record_change now r (beatenRecord extension now r)
| change_complete fence :
    matchesMemoryClaim r fence (SHA256Hex (cf_Token fence)) now = true ->
    record_change now r (revokedRecord fence now r)
| change_retry fence code detail delay :
    matchesMemoryClaim r fence (SHA256Hex (cf_Token fence)) now = true ->
    record_change now r (failedRecord code detail now (retryTransition delay now) r)
| change_manual fence code detail :
    matchesMemoryClaim r fence (SHA256Hex (cf_Token fence)) now = true ->
    record_change now r (failedRecord code detail now (toManual now) r)
| change_requeue :
    status r = StatusManualRequired -> rev_EvidenceHash (rr_revocation r) = ""%string ->
    rr_confirmations r = ∅ ->
    record_change now r (requeuedRecord now r)
| change_confirm request :
    status r = StatusManualRequired -> rr_confirmations r = ∅ ->
    ValidSHA256 (confirm_EvidenceHash request) = true ->
    record_change now r (confirmedRecord request now r)
| change_confirm_revoke request :
    status r = StatusManualRequired -> rr_confirmations r <> ∅ ->
    rr_confirmations r !! confirm_Subject request = None ->
    rev_EvidenceHash (rr_revocation r) = ""%string \/
      rev_EvidenceHash (rr_revocation r) = confirm_EvidenceHash request ->
    ValidSHA256 (confirm_EvidenceHash request) = true ->
    confirm_PlatformAdmin request = true \/ hasPlatformAdmin (rr_confirmations r) = true ->
    record_change now r (confirmedRevoked now (confirmedRecord request now r)).

(** The conditions under which [Prepare] inserts a record. *)
Record prepare_guard (request : PrepareRequest) (metadata : ActionMetadata) (now : Time) : Prop := {
  pg_action : am_ActionID metadata = af_ActionID (prep_Fence request);
  pg_runner : am_RunnerID metadata = af_RunnerID (prep_Fence request);
  pg_epoch : am_LeaseEpoch metadata = af_Epoch (prep_Fence request);
  pg_id : ValidRevocationID (prep_RevocationID request) = true;
  pg_issuer : ValidOpaqueText (prep_Issuer request) 256 = true;
  pg_revision : ValidIdentifier (prep_IssuerRevision request) 256 = true;
  pg_fence : validActionFence (prep_Fence request) = true;
  pg_production : am_Production metadata = false;
  pg_ttl : validCredentialTTLSeconds (am_CredentialTTLSeconds metadata) = true;
  pg_after : now < prep_CredentialExpiresAt request;
  pg_signed : prep_CredentialExpiresAt request <= now + am_CredentialTTLSeconds metadata * Second
}.

Inductive repo_change (s : MemoryRepository) : MemoryRepository -> Prop :=
| change_add request metadata permitToken now :
    running now -> prepare_guard request metadata now ->
    repo_records s !! prep_RevocationID request = None ->
    repo_actionEpochs s !! actionEpochKey (af_ActionID (prep_Fence request)) (af_Epoch (prep_Fence request)) = None ->
    repo_change s (addPrepared request (preparedRecord request metadata permitToken now) s)
| change_one id r r' now :
    running now -> repo_records s !! id = Some r -> record_change now r r' ->
    repo_change s (putRevocation id r' s).

(** ** From records to the repository *)

Definition record_changes : relation memoryRevocationRecord :=
  rtc (fun r r' => exists now, running now /\ record_change now r r').

#[export] Instance record_changes_preorder : PreOrder record_changes.
Proof. unfold record_changes. apply _. Qed.

Lemma put_same id r s : repo_records s !! id = Some r -> putRevocation id r s = s.
Proof. intros H. destruct s as [records epochs]. unfold putRevocation. simpl in *. by rewrite insert_id. Qed.

Lemma put_put id r r' s : putRevocation id r' (putRevocation id r s) = putRevocation id r' s.
Proof. unfold putRevocation. simpl. by rewrite insert_insert_eq. Qed.

Lemma put_lookup id r s j :
  repo_records (putRevocation id r s) !! j = if decide (j = id) then Some r else repo_records s !! j.
Proof.
  unfold putRevocation. simpl. destruct (decide (j = id)) as [->|];
    [by rewrite lookup_insert_eq|by rewrite lookup_insert_ne].
Qed.

Lemma put_changes id r r' s :
  repo_records s !! id = Some r -> record_changes r r' -> rtc repo_change s (putRevocation id r' s).
Proof.
  intros Hid Hr. revert s Hid. induction Hr as [r|r r1 r' (now & Hnow & Hc) Hr IH]; intros s Hid.
  - by rewrite put_same.
  - eapply rtc_l; [by eapply (change_one s id r r1)|]. rewrite <- (put_put id r1 r'). apply IH.
    rewrite put_lookup. by rewrite decide_True.
Qed.

(** Record keys are the records' identifiers. *)
Definition keyed (s : MemoryRepository) : Prop :=
  forall id r, repo_records s !! id = Some r -> rr_id r = id.

(** A loop that writes every item's record once. *)
Lemma put_all {B} (before after : B -> memoryRevocationRecord) (items : list B) s :
  NoDup ((fun b => rr_id (before b)) <$> items) ->
  (forall b, b ∈ items -> repo_records s !! rr_id (before b) = Some (before b) /\ record_changes (before b) (after b)) ->
  rtc repo_change s (foldl (fun s b => putRevocation (rr_id (before b)) (after b) s) s items).
Proof.
  revert s. induction items as [|b items IH]; intros s Hnd Hall; [done|]. inversion_clear Hnd as [|? ? Hni Hnd'].
  destruct (Hall b) as [Hb Hc]; [by left|]. simpl. etrans; [by eapply put_changes|].
  apply IH; [done|]. intros b' Hin. destruct (Hall b') as [Hb' Hc']; [by right|]. split; [|done].
  rewrite put_lookup, decide_False; [done|]. intros Heq. apply Hni, list_elem_of_fmap. by exists b'.
Qed.

(** ** Candidates *)

Lemma candidates_spec eligible keys limit s r :
  r ∈ candidates eligible keys limit s -> eligible r = true /\ exists id, repo_records s !! id = Some r.
Proof.
  unfold candidates. intros Hin%elem_of_take. destruct Hin as (i & Hin%list_elem_of_lookup_2 & _).
  rewrite sort_Slice_perm in Hin. apply list_elem_of_In, List.filter_In in Hin as [Hin He].
  split; [done|]. apply list_elem_of_In, list_elem_of_fmap in Hin as ([id r'] & -> & Hin).
  apply elem_of_map_to_list in Hin. by exists id.
Qed.

Lemma NoDup_filter_fmap {A B} (f : A -> B) (p : A -> bool) l :
  NoDup (f <$> l) -> NoDup (f <$> List.filter p l).
Proof.
  induction l as [|a l IH]; [done|]. simpl. intros Hnd. inversion_clear Hnd as [|? ? Hni Hnd'].
  destruct (p a); [|by apply IH]. simpl. constructor; [|by apply IH]. intros Hin. apply Hni.
  apply list_elem_of_fmap in Hin as (b & Hb & Hin). apply list_elem_of_In, List.filter_In in Hin as [Hin _].
  apply list_elem_of_fmap. exists b. by rewrite list_elem_of_In.
Qed.

Lemma keyed_ids s : keyed s -> rr_id <$> (map_to_list (repo_records s)).*2 = (map_to_list (repo_records s)).*1.
Proof.
  intros Hk. rewrite <- list_fmap_compose. apply list_fmap_ext. intros i [id r] Hi. simpl.
  apply Hk, elem_of_map_to_list. by eapply list_elem_of_lookup_2.
Qed.

Lemma candidates_NoDup eligible keys limit s : keyed s -> NoDup (rr_id <$> candidates eligible keys limit s).
Proof.
  intros Hk. unfold candidates. set (sorted := sort_Slice _ _).
  assert (NoDup (rr_id <$> sorted)) as Hnd.
  { unfold sorted. rewrite sort_Slice_perm. apply NoDup_filter_fmap. rewrite keyed_ids by done.
    apply NoDup_fst_map_to_list. }
  rewrite fmap_take. rewrite <- (take_drop (Z.to_nat limit)) in Hnd. by apply NoDup_app in Hnd as [? _].
Qed.

Lemma candidates_sorted eligible keys limit s : StronglySorted (le_of (lessBy keys rr_id)) (candidates eligible keys limit s).
Proof. unfold candidates. apply StronglySorted_take, lessBy_sorted. Qed.

(** What a full batch leaves out comes later. *)
Lemma candidates_left_out eligible keys limit s id r :
  0 <= limit -> repo_records s !! id = Some r -> eligible r = true -> r ∉ candidates eligible keys limit s ->
  Z.of_nat (length (candidates eligible keys limit s)) = limit /\
  Forall (fun taken => lessBy keys rr_id r taken = false) (candidates eligible keys limit s).
Proof.
  intros Hl Hr He Hout. unfold candidates in *. set (sorted := sort_Slice _ _) in *.
  assert (r ∈ sorted) as Hin.
  { unfold sorted. rewrite sort_Slice_perm. apply list_elem_of_In, List.filter_In. split; [|done].
    apply list_elem_of_In, list_elem_of_fmap. exists (id, r). split; [done|]. by apply elem_of_map_to_list. }
  rewrite <- (take_drop (Z.to_nat limit) sorted) in Hin. apply elem_of_app in Hin as [|Hin]; [done|]. split.
  - rewrite length_take. apply list_elem_of_lookup_1 in Hin as [i Hi%lookup_lt_Some]. rewrite length_drop in Hi. lia.
  - eapply (StronglySorted_take_drop (le_of (lessBy keys rr_id))); [apply lessBy_sorted|done].
Qed.

(** The order in which the map was ranged over does not matter. *)
Lemma candidates_range eligible keys limit s ranged :
  keyed s -> ranged ≡ₚ (map_to_list (repo_records s)).*2 ->
  candidates eligible keys limit s = take (Z.to_nat limit) (sort_Slice (lessBy keys rr_id) (List.filter eligible ranged)).
Proof.
  intros Hk Hp. unfold candidates. f_equal. apply lessBy_unique; [|by rewrite Hp].
  intros a b Ha Hb Hab. apply list_elem_of_In, List.filter_In in Ha as [Ha _], Hb as [Hb _].
  apply list_elem_of_In, list_elem_of_fmap in Ha as ([i a'] & -> & Ha), Hb as ([j b'] & -> & Hb).
  apply elem_of_map_to_list in Ha, Hb. simpl in *. rewrite (Hk _ _ Ha), (Hk _ _ Hb) in Hab. by simplify_eq.
Qed.

Lemma updateAll_changes (eligible : memoryRevocationRecord -> bool) keys limit s change :
  keyed s -> (forall r, eligible r = true -> record_changes r (change r)) ->
  rtc repo_change s (updateAll change (candidates eligible keys limit s) s).
Proof.
  intros Hk Hc. apply (put_all id change).
  - by apply candidates_NoDup.
  - intros r (He & i & Hi)%candidates_spec. split; [|by apply Hc]. unfold id. by rewrite (Hk i r).
Qed.

(** ** The action source's callback *)

Lemma wp_locked {A} source err' (operation : ActionInspection -> M MemoryRepository A) (P : MemoryRepository -> Prop) s :
  P s -> (forall inspection, wp (operation inspection) (fun _ s' => P s') s) ->
  wp (withLockedActionInspection source err' operation) (fun _ s' => P s') s.
Proof.
  intros Hs Hop. unfold withLockedActionInspection. wp_step; [done|].
  destruct (li_inspections source) as [|inspection rest]; [done|]. specialize (Hop inspection). unfold wp in *.
  destruct (operation inspection s) as [result s']. by destruct rest, result, (li_err source).
Qed.

(** A call that succeeded ran its callback once, and the callback succeeded. *)
Lemma locked_Ok {A} source err' (operation : ActionInspection -> M MemoryRepository A) s a s' :
  withLockedActionInspection source err' operation s = (Ok a, s') ->
  exists inspection, li_inspections source = [inspection] /\ operation inspection s = (Ok a, s').
Proof.
  unfold withLockedActionInspection. destruct (negb (li_atomic source)); [done|].
  destruct (li_inspections source) as [|inspection rest]; [done|].
  destruct (operation inspection s) as [result s''] eqn:Hop.
  destruct rest, result, (li_err source); intros H; simplify_eq; by exists inspection.
Qed.

Lemma wp_locked_Ok {A} source err' (operation : ActionInspection -> M MemoryRepository A)
    (Q : A -> MemoryRepository -> Prop) s :
  (forall inspection, li_inspections source = [inspection] ->
     wp (operation inspection) (fun r s' => forall a, r = Ok a -> Q a s') s) ->
  wp (withLockedActionInspection source err' operation) (fun r s' => forall a, r = Ok a -> Q a s') s.
Proof.
  intros Hop. apply wp_intro. intros r s' Hrun a ->. apply locked_Ok in Hrun as (inspection & Hli & Hrun).
  exact (wp_run _ _ _ (Hop inspection Hli) _ _ Hrun a eq_refl).
Qed.

(** ** Instants *)

Lemma wrap64_id n : MinInt64 <= n <= MaxInt64 -> wrap64 n = n.
Proof.
  unfold wrap64, MinInt64, MaxInt64. intros Hn. rewrite Z.mod_small; lia.
Qed.

Lemma Canonical_le t : 0 < t < 9000000001000 * Second -> CanonicalCredentialExpiry t <= t.
Proof.
  intros Ht. unfold CanonicalCredentialExpiry, IsZero. destruct (Z.eqb_spec t 0); [lia|].
  unfold time_UnixMicro, UnixMicro, unixEpoch, Second in *.
  pose proof (Z.mul_div_le (t - 62135596800 * 1000000000) 1000).
  pose proof (Z.mul_succ_div_gt (t - 62135596800 * 1000000000) 1000).
  rewrite wrap64_id; unfold MinInt64, MaxInt64; lia.
Qed.

Lemma signed_expiry_le now ttl :
  running now -> validCredentialTTLSeconds ttl = true -> signedCredentialExpiry now ttl <= now + ttl * Second.
Proof.
  unfold running, validCredentialTTLSeconds, signedCredentialExpiry, Add, MaxCredentialTTL, Minute, Second.
  intros Hnow Httl. guards. apply Canonical_le. unfold Second. lia.
Qed.

(** ** Handlers as sequences of changes *)

Ltac unchanged := try match goal with |- rtc _ ?s ?s => exact (rtc_refl _ s) end.

(** Run a handler to the end, with the paths that wrote nothing closed. *)
Ltac run_handler :=
  repeat (first [wp_step
                |progress unfold findRecord, storeRecord, actionRecord, claimRecord
                |match goal with |- wp (withLockedActionInspection _ _ _) (fun _ s => rtc repo_change ?s0 s) _ =>
                   apply (wp_locked _ _ _ (rtc repo_change s0)); [exact (rtc_refl _ s0)|intros ?] end];
          unchanged).

Definition changes {A} (m : M MemoryRepository A) : Prop :=
  forall s, keyed s -> wp m (fun _ s' => rtc repo_change s s') s.

Lemma one_change now r r' : running now -> record_change now r r' -> record_changes r r'.
Proof. intros Hnow Hc. apply rtc_once. by exists now. Qed.

Lemma request_changes now r r' :
  running now -> applyRequestRevocation r now = Ok r' -> record_changes r r'.
Proof.
  intros Hnow Hr. pose proof Hr as Hr'. unfold applyRequestRevocation in Hr'.
  destruct (status r) eqn:Hs; simplify_eq; try exact (rtc_refl _ _);
    apply (one_change now); try done; apply change_request; auto.
Qed.

Lemma revokeUnlessCurrent_changes current now r r' :
  running now -> revokeUnlessCurrent current r now = Ok r' -> record_changes r r'.
Proof.
  intros Hnow. unfold revokeUnlessCurrent. destruct current; [intros [= ->]; exact (rtc_refl _ _)|].
  by apply request_changes.
Qed.

Lemma store_changes id r r' s :
  repo_records s !! id = Some r -> record_changes r r' ->
  wp (storeRecord id r') (fun _ s' => rtc repo_change s s') s.
Proof. intros Hr Hc. unfold storeRecord. do 3 wp_step. by eapply put_changes. Qed.

Section handlers.
Context (err err' : option GoError) (clock clock' : Time).
Hypothesis (Hclock : running clock) (Hclock' : running clock').

Lemma authorize_changes source request : changes (Repository_AuthorizeChildCreate err err' clock source request).
Proof.
  intros s Hs. unfold Repository_AuthorizeChildCreate. run_handler. eapply put_changes; [done|].
  apply (one_change clock); [done|]. unfold inspectionFenceCurrent, After in *. guards.
  apply change_authorize; unfold Add, IsZero in *; guards; try done; lia.
Qed.

Lemma anchor_changes source protector request :
  changes (Repository_RecordAnchor err err' clock clock' source protector request).
Proof.
  intros s Hs. unfold Repository_RecordAnchor. run_handler; guards; (eapply put_changes; [done|]).
  - by eapply revokeUnlessCurrent_changes.
  - eapply rtc_l; [|by eapply revokeUnlessCurrent_changes]. exists clock'. split; [done|].
    unfold IsZero in *. guards. by apply change_anchor.
Qed.

Lemma activate_changes source request : changes (Repository_Activate err err' clock clock' source request).
Proof.
  intros s Hs. unfold Repository_Activate. run_handler; (eapply put_changes; [done|]).
  - by apply (request_changes clock).
  - eapply rtc_l; [|by eapply revokeUnlessCurrent_changes]. exists clock. split; [done|].
    by apply change_activate.
  - by eapply revokeUnlessCurrent_changes.
Qed.

Lemma actionTransition_changes answer request transition :
  (forall r r', transition r clock = Ok r' -> record_changes r r') ->
  changes (actionTransition err err' clock answer request transition).
Proof. intros Ht s Hs. unfold actionTransition. run_handler. eapply put_changes; eauto. Qed.

Lemma no_credential_changes answer request : changes (Repository_RecordNoCredential err err' clock answer request).
Proof.
  apply actionTransition_changes. intros r r'. unfold noCredentialTransition.
  destruct (status r) eqn:Hs; try done; [|intros [= ->]; exact (rtc_refl _ _)].
  intros (u & Hu & Hr)%Result_bind_Ok. apply ensure_Ok in Hu. injection Hr as <-.
  unfold IsZero in Hu. guards. apply (one_change clock); [done|]. by apply change_no_credential.
Qed.

Lemma request_revocation_changes answer request : changes (Repository_RequestRevocation err err' clock answer request).
Proof.
  intros s Hs. unfold Repository_RequestRevocation. wp_step.
  - run_handler. eapply put_changes; [done|]. by apply (request_changes clock).
  - apply actionTransition_changes; [|done]. intros r r'. by apply request_changes.
Qed.

Lemma recover_prepared_changes limit : changes (Repository_RecoverPrepared err clock limit).
Proof.
  intros s Hs. unfold Repository_RecoverPrepared. run_handler. apply updateAll_changes; [done|].
  intros r Hr. apply (one_change clock); [done|]. by apply change_lapse.
Qed.

Lemma recover_exhausted_changes limit : changes (Repository_RecoverExhausted err clock limit).
Proof.
  intros s Hs. unfold Repository_RecoverExhausted. run_handler. apply updateAll_changes; [done|].
  intros r Hr. apply (one_change clock); [done|]. by apply change_exhaust.
Qed.

Lemma recover_managed_changes source id : changes (recoverManagedItem err' clock source id).
Proof.
  intros s Hs. unfold recoverManagedItem. run_handler. eapply put_changes; [done|]. by apply (request_changes clock).
Qed.

(** The prepared claims are the candidates, in order. *)
Lemma prepareClaims_records protector tokens n records prepared :
  prepareClaims protector tokens n records = Ok prepared ->
  List.map pc_record prepared = records /\ Forall (fun r => rev_ClaimEpoch (rr_revocation r) <> MaxInt64) records.
Proof.
  revert n prepared. induction records as [|r records IH]; intros n prepared H; simpl in H; [by simplify_eq|].
  apply Result_bind_Ok in H as (? & Hmax%ensure_Ok & H). repeat (apply Result_bind_Ok in H as (? & ? & H)).
  simplify_eq. guards. simpl. edestruct IH as [Hrec Hall]; [done|]. split; [by f_equal|by constructor].
Qed.

Lemma claim_changes protector tokens request : changes (Repository_ClaimRevocations err clock protector tokens request).
Proof.
  intros s Hs. unfold Repository_ClaimRevocations. run_handler. guards.
  match goal with H : prepareClaims _ _ _ _ = Ok _ |- _ => apply prepareClaims_records in H as [Hrec Hmax] end.
  apply (put_all pc_record (claimOutcome request clock)).
  - rewrite (list_fmap_compose pc_record rr_id). change (pc_record <$> ?l) with (List.map pc_record l).
    rewrite Hrec. by apply candidates_NoDup.
  - intros item Hin. assert (pc_record item ∈ List.map pc_record a) as Hin' by (apply list_elem_of_fmap; eauto).
    rewrite Hrec in Hin'. rewrite Forall_forall in Hmax. pose proof (Hmax _ Hin').
    apply candidates_spec in Hin' as (Hc & id & Hid). split; [by rewrite (Hs id)|].
    assert (record_changes (pc_record item) (claimedRecord request clock (pc_token item) (pc_record item))) as Hclaim.
    { apply (one_change clock); [done|]. by apply change_claim. }
    unfold claimOutcome. destruct (pc_poison item); [|done]. etrans; [exact Hclaim|].
    apply (one_change clock); [done|]. by apply change_poison.
Qed.

Lemma beat_changes request : changes (Repository_Heartbeat err clock request).
Proof.
  intros s Hs. unfold Repository_Heartbeat. run_handler. eapply put_changes; [done|].
  apply (one_change clock); [done|]. by eapply change_beat.
Qed.

Lemma complete_changes fence : changes (Repository_CompleteRevocation err clock fence).
Proof.
  intros s Hs. unfold Repository_CompleteRevocation. run_handler. eapply put_changes; [done|].
  apply (one_change clock); [done|]. by apply change_complete.
Qed.

Lemma retry_changes request : changes (Repository_RetryRevocation err clock request).
Proof.
  intros s Hs. unfold Repository_RetryRevocation, failClaim. run_handler. eapply put_changes; [done|].
  apply (one_change clock); [done|]. by eapply change_retry.
Qed.

Lemma manual_changes request : changes (Repository_RequireManual err clock request).
Proof.
  intros s Hs. unfold Repository_RequireManual, failClaim. run_handler. eapply put_changes; [done|].
  apply (one_change clock); [done|]. by eapply change_manual.
Qed.

Lemma requeue_changes request : changes (Repository_RequeueManual err clock request).
Proof.
  intros s Hs. unfold Repository_RequeueManual. run_handler. guards. eapply put_changes; [done|].
  apply (one_change clock); [done|]. apply change_requeue; try done. apply map_size_empty_iff. lia.
Qed.

Lemma hasPlatformAdmin_true m :
  hasPlatformAdmin m = true <-> exists subject c, m !! subject = Some c /\ xc_PlatformAdmin c = true.
Proof. unfold hasPlatformAdmin. by rewrite existsb_map_true. Qed.

(** The confirmation that would be taken back is refused before it is written. *)
Lemma second_confirmation_has_admin request now r :
  (confirm_PlatformAdmin request = false -> hasPlatformAdmin (rr_confirmations r) = true) ->
  rr_confirmations r !! confirm_Subject request = None ->
  hasPlatformAdmin (rr_confirmations (confirmedRecord request now r)) = true.
Proof.
  intros Hadmin Hnone. apply hasPlatformAdmin_true. cbn [confirmedRecord bump on_revocation rr_confirmations].
  destruct (confirm_PlatformAdmin request) eqn:Ha.
  - eexists _, _. by rewrite lookup_insert_eq.
  - destruct (proj1 (hasPlatformAdmin_true _) (Hadmin eq_refl)) as (subject & c & Hc & Hca).
    exists subject, c. rewrite lookup_insert_ne; [done|]. intros Heq. by rewrite <- Heq, Hnone in Hc.
Qed.

Lemma size_confirmed request now r :
  rr_confirmations r !! confirm_Subject request = None ->
  size (rr_confirmations (confirmedRecord request now r)) = S (size (rr_confirmations r)).
Proof. intros Hnone. exact (map_size_insert_None _ _ _ Hnone). Qed.

Lemma admin_guard n admin known : 1 <= n -> (1 <=? n) && negb admin && negb known = false -> admin = true \/ known = true.
Proof. intros Hn. rewrite (proj2 (Z.leb_le _ _) Hn). destruct admin, known; auto. Qed.

Lemma confirm_changes request : changes (Repository_SubmitExternalConfirmation err clock request).
Proof.
  intros s Hs. unfold Repository_SubmitExternalConfirmation. run_handler; guards;
    (match goal with H : ?b || _ = true, H' : status ?r <> StatusRevoked |- _ =>
       assert (status r = StatusManualRequired) as Hm by
         (apply orb_true_iff in H as [H|H]; guards; congruence) end);
    (match goal with H : _ !! confirm_Subject request = None |- _ =>
       pose proof (size_confirmed request clock _ H) as Hsize end);
    try (match goal with H : (1 <=? _) && _ && _ = false |- _ => apply admin_guard in H as Hadmin; [|lia] end).
  - assert (hasPlatformAdmin (rr_confirmations (confirmedRecord request clock a)) = true); [|congruence].
    apply second_confirmation_has_admin; [|done]. intros Hna. by destruct Hadmin; [congruence|].
  - eapply put_changes; [done|]. apply (one_change clock); [done|]. apply change_confirm_revoke; try done.
    + intros He. rewrite He, map_size_empty in Hsize. lia.
    + destruct (rev_EvidenceHash (rr_revocation a) == "")%string eqn:He; guards; [by left|right].
      match goal with H : _ && _ = false |- _ => apply andb_false_iff in H as [H|H]; by guards end.
  - eapply put_changes; [done|]. apply (one_change clock); [done|]. apply change_confirm; try done.
    apply map_size_empty_iff. lia.
Qed.

Lemma resolvePrepareAction_Ok answer fence now metadata :
  resolvePrepareAction answer err' fence now = Ok metadata ->
  answer = Ok metadata /\ am_ActionID metadata = af_ActionID fence /\ am_RunnerID metadata = af_RunnerID fence /\
  am_LeaseEpoch metadata = af_Epoch fence /\ ValidIdentifier (am_TenantID metadata) 256 = true /\
  validCredentialTTLSeconds (am_CredentialTTLSeconds metadata) = true.
Proof.
  unfold resolvePrepareAction, resolveAction. intros (m & Hm & H)%Result_bind_Ok.
  apply Result_bind_Ok in H as (u & _ & H). injection H as <-. destruct answer as [m'|]; [|done].
  apply Result_bind_Ok in Hm as (u' & Hu & Hm). injection Hm as <-. apply ensure_Ok in Hu. guards. done.
Qed.

Lemma prepare_changes answer answer' permit request :
  changes (Repository_Prepare err err' clock clock' answer answer' permit request).
Proof.
  intros s Hs. unfold Repository_Prepare. run_handler. set (req := {| prep_RevocationID := _ |}) in *. clearbody req.
  apply rtc_once, change_add; [done| |done|done].
  repeat match goal with H : resolvePrepareAction _ _ _ _ = Ok _ |- _ => apply resolvePrepareAction_Ok in H end.
  destruct_and!. unfold sameActionScope, After in *. guards.
  pose proof (signed_expiry_le clock (am_CredentialTTLSeconds a)) as Hle.
  split; try done; try congruence; try lia.
  match goal with H : am_CredentialTTLSeconds a = _ |- _ => rewrite <- H end. specialize (Hle Hclock ltac:(done)). lia.
Qed.
End handlers.

(** Every call is a sequence of changes. *)
Lemma ran_changes {A} (m : M MemoryRepository A) : changes m -> changes (ran m).
Proof.
  intros Hm s Hs. unfold ran. apply wp_bind. eapply wp_mono; [|by apply Hm]. by intros [] s' Hs'.
Qed.

Lemma run_repository_changes call s result s' :
  keyed s -> Forall running (call_clocks call) -> run_repository call s = (result, s') -> rtc repo_change s s'.
Proof.
  intros Hs Hclocks Hrun. enough (changes (run_repository call)) as Hc by exact (wp_run _ _ _ (Hc s Hs) _ _ Hrun).
  destruct call; simpl in Hclocks; decompose_Forall_hyps; apply ran_changes;
    eauto using prepare_changes, authorize_changes, anchor_changes, activate_changes, no_credential_changes,
      recover_prepared_changes, recover_managed_changes, recover_exhausted_changes, request_revocation_changes,
      claim_changes, beat_changes, complete_changes, retry_changes, manual_changes, requeue_changes, confirm_changes.
Qed.
