(* ===== verification/CredentialInvariant.v ===== *)
(** * Credential revocations: the invariant of the repository

    [revocation_wf] is the invariant of one record, [repository_wf] the one of
    the repository with its index by action and lease epoch.  Both hold in every
    reachable repository. *)

From S2P Require Import Prelude.
From S2P Require Import Sha256.
From S2P Require Import GoText.
From S2P Require Import GoStrings.
From S2P Require Import GoJson.
From S2P Require Import GoSort.
From S2P Require Import Credential.
From S2P Require Import CredentialFacts.

Open Scope Z_scope.

(** ** The invariant *)

(** An external credential may exist: its parent record is past the anchor. *)
Definition issued (s : RevocationStatus) : bool :=
  match s with
  | StatusPrepared | StatusNoCredential | RevocationStatusOther _ => false
  | _ => true
  end.

(** The protected reference is held. *)
Definition referenced (s : RevocationStatus) : bool := issued s && (s != StatusRevoked).

Definition retrying (s : RevocationStatus) : bool := (s == StatusRevocationPending) || (s == StatusRevoking).

Record revocation_wf (r : memoryRevocationRecord) : Prop := {
  wf_status : ValidRevocationStatus (status r) = true;
  wf_version : 1 <= rev_Version (rr_revocation r);
  wf_context : ValidRevocationID (rr_id r) = true /\ ValidIdentifier (rev_ActionID (rr_revocation r)) 256 = true /\
    0 < rev_ActionLeaseEpoch (rr_revocation r) /\ ValidOpaqueText (rev_Issuer (rr_revocation r)) 256 = true /\
    ValidIdentifier (rev_IssuerRevision (rr_revocation r)) 256 = true;
  wf_production : rev_Production (rr_revocation r) = false;
  wf_ttl : validCredentialTTLSeconds (rev_CredentialTTLSeconds (rr_revocation r)) = true;
  wf_deadline : rev_CreatedAt (rr_revocation r) < expiry r /\
    expiry r <= rev_CreatedAt (rr_revocation r) + rev_CredentialTTLSeconds (rr_revocation r) * Second;
  wf_child : rr_childCreateAuthorizedAt r <> 0 ->
    MinChildCreateTTL <= rr_childCreateTTL r /\
    rr_childCreateAuthorizedAt r + rr_childCreateTTL r + ChildCreateExpiryReserve <= expiry r;
  wf_issued : issued (status r) = true -> rr_childCreateAuthorizedAt r <> 0;
  wf_none : status r = StatusNoCredential ->
    rr_childCreateAuthorizedAt r = 0 \/ expiry r + PreparedRecoveryGrace <= rev_UpdatedAt (rr_revocation r);
  wf_reference : rev_AccessorPresent (rr_revocation r) = referenced (status r);
  wf_ciphertext : referenced (status r) = false -> ref_Ciphertext (rr_protected r) = ""%string;
  wf_claim : if status r == StatusRevoking
    then rev_ClaimedBy (rr_revocation r) <> ""%string /\ rr_claimTokenSHA256 r <> ""%string
    else rev_ClaimedBy (rr_revocation r) = ""%string /\ rr_claimTokenSHA256 r = ""%string /\
         rev_ClaimExpiresAt (rr_revocation r) = 0;
  wf_epoch : 0 <= rev_ClaimEpoch (rr_revocation r) <= MaxInt64;
  wf_attempts : 0 <= rr_retryCycleAttemptBase r <= rev_Attempt (rr_revocation r) /\
    rev_Attempt (rr_revocation r) - rr_retryCycleAttemptBase r <= MaxRevocationAttempts;
  wf_cycle : retrying (status r) = true -> rr_retryCycleStartedAt r <> 0;
  wf_confirmations : forall subject c, rr_confirmations r !! subject = Some c ->
    xc_Subject c = subject /\ xc_EvidenceHash c = rev_EvidenceHash (rr_revocation r);
  wf_evidence : rev_EvidenceHash (rr_revocation r) = ""%string <-> rr_confirmations r = ∅;
  wf_manual : status r = StatusManualRequired -> (size (rr_confirmations r) <= 1)%nat;
  wf_confirmed : status r <> StatusManualRequired -> status r <> StatusRevoked -> rr_confirmations r = ∅;
  wf_revoked : status r = StatusRevoked ->
    (rr_confirmations r = ∅ /\ rr_completedClaimSHA256 r <> ""%string /\
       rr_completedClaimEpoch r = rev_ClaimEpoch (rr_revocation r)) \/
    (size (rr_confirmations r) = 2%nat /\ hasPlatformAdmin (rr_confirmations r) = true /\
       rr_completedClaimSHA256 r = ""%string);
  wf_completed : status r <> StatusRevoked -> rr_completedClaimSHA256 r = ""%string
}.

Lemma SHA256Hex_nonempty value : SHA256Hex value <> ""%string.
Proof. unfold SHA256Hex. intros H. pose proof (length_sha256_hex value) as Hl. by rewrite H in Hl. Qed.

Lemma ValidIdentifier_nonempty value n : ValidIdentifier value n = true -> value <> ""%string.
Proof. intros H ->. unfold ValidIdentifier in H. by guards. Qed.

Lemma ValidSHA256_nonempty value : ValidSHA256 value = true -> value <> ""%string.
Proof. by intros H ->. Qed.

Lemma childCreateTTL_bound credentialExpiresAt now :
  now < credentialExpiresAt -> MinChildCreateTTL <= childCreateTTL credentialExpiresAt now ->
  now + childCreateTTL credentialExpiresAt now + ChildCreateExpiryReserve <= credentialExpiresAt.
Proof.
  unfold childCreateTTL, Sub. intros Hnow Hmin. set (left := Z.max _ _) in *.
  assert (0 < left <= credentialExpiresAt - now /\ left <= MaxInt64) as Hleft
    by (unfold left, MinInt64, MaxInt64; lia).
  clearbody left. unfold ChildCreateExpiryReserve, MaxChildCreateDBCommitLatency, MaxChildCreateVaultIngressLatency,
    VaultChildCreateServerMaxDuration, MaxVaultAheadOfDatabaseClock, MinChildCreateTTL, VaultTTLQuantum, Second in *.
  rewrite wrap64_id in * by (unfold MinInt64, MaxInt64 in *; lia).
  match goal with |- context [Z.quot ?x _] => pose proof (Z.quot_rem' x 1000000000); pose proof (Z.rem_bound_pos x 1000000000) end.
  destruct (Z.le_gt_cases 0 (left - (1000000000 + 2 * 1000000000 + 10 * 1000000000 + 1000000000 + 1000000000))); [lia|].
  match goal with |- context [Z.quot ?x ?y] => pose proof (Z.quot_opp_l x y); pose proof (Z.quot_pos (- x) y) end. lia.
Qed.

(** A record taken apart into its fields, so that updates of it compute. *)
Ltac open_record r := let rev := fresh in destruct r as [rev]; destruct rev; simpl in *.

(** The identity and the deadline of a record never change. *)
Record same_credential (r r' : memoryRevocationRecord) : Prop := {
  sc_scope : (rev_ID (rr_revocation r'), rev_TenantID (rr_revocation r'), rev_WorkspaceID (rr_revocation r'),
      rev_EnvironmentID (rr_revocation r'), rev_ActionID (rr_revocation r'), rev_TargetKey (rr_revocation r'),
      rev_Production (rr_revocation r'), rev_RunnerID (rr_revocation r'), rev_ActionLeaseEpoch (rr_revocation r')) =
    (rev_ID (rr_revocation r), rev_TenantID (rr_revocation r), rev_WorkspaceID (rr_revocation r),
      rev_EnvironmentID (rr_revocation r), rev_ActionID (rr_revocation r), rev_TargetKey (rr_revocation r),
      rev_Production (rr_revocation r), rev_RunnerID (rr_revocation r), rev_ActionLeaseEpoch (rr_revocation r));
  sc_grant : (rev_Issuer (rr_revocation r'), rev_IssuerRevision (rr_revocation r'), rev_ActionType (rr_revocation r'),
      rev_ConnectorID (rr_revocation r'), rev_Permission (rr_revocation r'), rev_Resource (rr_revocation r'),
      rev_CredentialTTLSeconds (rr_revocation r'), expiry r', rev_CreatedAt (rr_revocation r')) =
    (rev_Issuer (rr_revocation r), rev_IssuerRevision (rr_revocation r), rev_ActionType (rr_revocation r),
      rev_ConnectorID (rr_revocation r), rev_Permission (rr_revocation r), rev_Resource (rr_revocation r),
      rev_CredentialTTLSeconds (rr_revocation r), expiry r, rev_CreatedAt (rr_revocation r));
  sc_bearer : rr_actionTokenSHA256 r' = rr_actionTokenSHA256 r;
  sc_permit : rr_childCreatePermitSHA256 r' = rr_childCreatePermitSHA256 r
}.

#[export] Instance same_credential_preorder : PreOrder same_credential.
Proof.
  split; [done|]. intros r1 r2 r3 [] []. split; congruence.
Qed.

Lemma matches_revoking r fence digest now : matchesMemoryClaim r fence digest now = true -> status r = StatusRevoking.
Proof. unfold matchesMemoryClaim. intros. by guards. Qed.

Lemma claimable_retrying now r : claimable now r = true -> retrying (status r) = true.
Proof.
  unfold claimable, retrying. intros [H _]%andb_true_iff.
  apply orb_true_iff in H as [[-> _]%andb_true_iff|[-> _]%andb_true_iff]; [done|by rewrite orb_true_r].
Qed.

Lemma retrying_true s : retrying s = true -> s = StatusRevocationPending \/ s = StatusRevoking.
Proof. unfold retrying. intros [H|H]%orb_true_iff; guards; auto. Qed.

Lemma exhausted_retrying now r : exhaustedUnclaimed now r = true -> retrying (status r) = true.
Proof.
  unfold exhaustedUnclaimed, retrying. intros [H _]%andb_true_iff.
  apply orb_true_iff in H as [->|[-> _]%andb_true_iff]; [done|by rewrite orb_true_r].
Qed.

Lemma record_change_same now r r' : record_change now r r' -> same_credential r r'.
Proof.
  intros Hc. destruct Hc; try (by split).
  - unfold applyRequestRevocation in *. destruct (status r); simplify_eq; by split.
  - unfold failedRecord, retryTransition. destruct (memoryRevocationExhausted r now); by split.
Qed.

(** Evaluate the tests of a known status. *)
Ltac known_status :=
  repeat match goal with
  | H : context [?f ?s] |- _ =>
      match f with issued => idtac | referenced => idtac | retrying => idtac | ValidRevocationStatus => idtac end;
      let v := eval vm_compute in (f s) in
      match v with true => idtac | false => idtac end; change (f s) with v in H
  | H : context [?s == ?t] |- _ =>
      let v := eval vm_compute in (s == t) in
      match v with true => idtac | false => idtac end; change (s == t) with v in H
  | |- context [?f ?s] =>
      match f with issued => idtac | referenced => idtac | retrying => idtac | ValidRevocationStatus => idtac end;
      let v := eval vm_compute in (f s) in
      match v with true => idtac | false => idtac end; change (f s) with v
  | |- context [?s == ?t] =>
      let v := eval vm_compute in (s == t) in
      match v with true => idtac | false => idtac end; change (s == t) with v
  end.

(** Field by field, with the status before the change known. *)
Ltac wf_fields r Hwf :=
  unfold running in *; destruct Hwf; unfold rr_id in *; open_record r; subst; known_status;
  split; simpl; known_status;
  repeat match goal with
  | H : _ <> _ -> _ |- _ => specialize (H ltac:(discriminate))
  | H : ?s = ?s -> _ |- _ => specialize (H eq_refl)
  end;
  try match goal with H : ?c = ∅ |- context [size ?c] => rewrite H, map_size_empty end;
  try done; try lia; try congruence; try tauto.

Lemma record_change_wf now r r' : running now -> revocation_wf r -> record_change now r r' -> revocation_wf r'.
Proof.
  intros Hnow Hwf Hc. destruct Hc.
  - pose proof (childCreateTTL_bound (expiry r) now) as Httl. revert H2 Httl. generalize (childCreateTTL (expiry r) now). intros ttl H2 Httl. wf_fields r Hwf.
  - wf_fields r Hwf.
  - wf_fields r Hwf.
  - unfold applyRequestRevocation in *.
    destruct H as [H|H]; rewrite H in *; simplify_eq; wf_fields r Hwf.
  - wf_fields r Hwf.
  - unfold preparedLapsed, After, Add in *. guards. wf_fields r Hwf.
  - unfold exhaustedRecord. generalize FailureUnknown, FailureDetailExhaustedWithoutAck. intros code detail.
    apply exhausted_retrying, retrying_true in H as [H|H]; wf_fields r Hwf.
  - pose proof (ValidIdentifier_nonempty _ _ H1). pose proof (SHA256Hex_nonempty token).
    pose proof (claimable_retrying _ _ H) as Hr. unfold claimable, memoryRevocationExhausted in H. guards.
    apply retrying_true in Hr as [Hr|Hr]; wf_fields r Hwf.
  - generalize FailureInvalidReference, FailureDetailProtectedRefInvalid. intros code detail. wf_fields r Hwf.
  - apply matches_revoking in H. wf_fields r Hwf.
  - pose proof (SHA256Hex_nonempty (cf_Token fence)). unfold matchesMemoryClaim in H. guards. wf_fields r Hwf.
  - apply matches_revoking in H. unfold failedRecord, retryTransition.
    destruct (memoryRevocationExhausted r now); wf_fields r Hwf.
  - apply matches_revoking in H. wf_fields r Hwf.
  - wf_fields r Hwf.
  - pose proof (ValidSHA256_nonempty _ H1) as Hev. wf_fields r Hwf.
    + intros subject c [[<- <-]|[_ Hc]]%lookup_insert_Some; [done|]. by rewrite lookup_empty in Hc.
    + intros _. rewrite map_size_insert, lookup_empty, map_size_empty. lia.
  - pose proof (ValidSHA256_nonempty _ H3) as Hev. pose proof (second_confirmation_has_admin request now r) as Hadmin.
    assert (rev_EvidenceHash (rr_revocation r) = confirm_EvidenceHash request) as Hsame.
    { destruct H2 as [He|He]; [|done]. by apply (wf_evidence _ Hwf) in He. }
    wf_fields r Hwf.
    + intros subject c [[<- <-]|[_ Hc]]%lookup_insert_Some; [done|]. by apply wf_confirmations0.
    + split; [done|]. by intros ?%insert_non_empty.
    + intros _. right. split_and!; [|apply Hadmin; [naive_solver congruence|done]|done].
      rewrite map_size_insert_None by done.
      assert (size rr_confirmations <> 0%nat) by (by rewrite map_size_empty_iff). lia.
Qed.

(** ** The repository *)

Definition record_key (r : memoryRevocationRecord) : string :=
  actionEpochKey (rev_ActionID (rr_revocation r)) (rev_ActionLeaseEpoch (rr_revocation r)).

Record repository_wf (s : MemoryRepository) : Prop := {
  rw_keyed : keyed s;
  rw_record : forall id r, repo_records s !! id = Some r -> revocation_wf r;
  rw_index : forall id r, repo_records s !! id = Some r -> repo_actionEpochs s !! record_key r = Some id;
  rw_indexed : forall key id, repo_actionEpochs s !! key = Some id ->
    exists r, repo_records s !! id = Some r /\ record_key r = key
}.

Lemma prepared_wf request metadata permitToken now :
  running now -> prepare_guard request metadata now -> revocation_wf (preparedRecord request metadata permitToken now).
Proof.
  intros Hnow [Ha Hr He Hid Hi Hrv Hf Hp Ht Haf Hs]. unfold validActionFence in Hf. guards.
  split; unfold rr_id; cbn -[ValidRevocationID ValidOpaqueText ValidIdentifier]; try done; try lia.
  - rewrite Ha, He. by split_and!.
Qed.

Lemma record_change_key now r r' : record_change now r r' -> rr_id r' = rr_id r /\ record_key r' = record_key r.
Proof. intros [Hs _ _ _]%record_change_same. unfold rr_id, record_key. injection Hs. intros. split; congruence. Qed.

Lemma repo_change_wf s s' : repository_wf s -> repo_change s s' -> repository_wf s'.
Proof.
  intros [Hk Hr Hi Hx] [request metadata token now Hnow Hg Hid Hkey|id r r' now Hnow Hid Hc].
  - set (r := preparedRecord request metadata token now).
    assert (record_key r = actionEpochKey (af_ActionID (prep_Fence request)) (af_Epoch (prep_Fence request))) as Hrk
      by (destruct Hg; unfold record_key; simpl; congruence).
    split; unfold keyed, addPrepared; cbn [repo_records repo_actionEpochs].
    + by intros i q [[<- <-]|[_ Hq]]%lookup_insert_Some; [|by apply Hk].
    + intros i q [[<- <-]|[_ Hq]]%lookup_insert_Some; [by apply prepared_wf|by eapply Hr].
    + intros i q [[<- <-]|[Hne Hq]]%lookup_insert_Some; [by rewrite Hrk, lookup_insert_eq|].
      rewrite lookup_insert_ne; [by apply Hi|]. intros Heq. specialize (Hi i q Hq). congruence.
    + intros key i [[<- <-]|[Hne Hq]]%lookup_insert_Some; [exists r; by rewrite lookup_insert_eq|].
      destruct (Hx key i Hq) as (q & Hqi & Hqk). exists q. split; [|done].
      rewrite lookup_insert_ne; [done|]. intros <-. congruence.
  - destruct (record_change_key _ _ _ Hc) as [Hid' Hrk].
    assert (forall j q, repo_records (putRevocation id r' s) !! j = Some q ->
      (j = id /\ q = r') \/ (j <> id /\ repo_records s !! j = Some q)) as Hput.
    { intros j q. rewrite put_lookup. destruct (decide (j = id)); [|by right]. intros [= <-]. by left. }
    split.
    + intros j q [[-> ->]|[_ Hq]]%Hput; [|by apply Hk]. rewrite Hid'. by apply Hk.
    + intros j q [[-> ->]|[_ Hq]]%Hput; [|by eapply Hr]. eapply record_change_wf; eauto.
    + intros j q [[-> ->]|[_ Hq]]%Hput; [|by apply Hi]. rewrite Hrk. by apply Hi.
    + intros key j Hj. destruct (Hx key j Hj) as (q & Hq & Hqk). rewrite put_lookup.
      destruct (decide (j = id)) as [->|]; [|by eauto]. exists r'. split; [done|]. simplify_eq. congruence.
Qed.

Lemma repo_changes_wf s s' : repository_wf s -> rtc repo_change s s' -> repository_wf s'.
Proof. intros Hwf Hc. induction Hc; [done|]. eauto using repo_change_wf. Qed.

Lemma repository_step_changes s s' : keyed s -> repository_step s s' -> rtc repo_change s s'.
Proof. intros Hk (call & result & Hclock & Hrun). by eapply run_repository_changes. Qed.

Lemma repository_steps_wf s s' : repository_wf s -> rtc repository_step s s' -> repository_wf s' /\ rtc repo_change s s'.
Proof.
  intros Hwf Hs. induction Hs as [s|s s1 s' Hstep Hs IH]; [done|].
  pose proof (repository_step_changes _ _ (rw_keyed _ Hwf) Hstep) as Hc.
  destruct (IH (repo_changes_wf _ _ Hwf Hc)) as [Hwf' Hc']. split; [done|]. by etrans.
Qed.

Lemma NewMemoryRepository_wf actions protector clock s :
  NewMemoryRepository actions protector clock = Ok s -> repository_wf s.
Proof.
  unfold NewMemoryRepository. intros (u & _ & H)%Result_bind_Ok. apply Result_bind_Ok in H as (u' & _ & H).
  injection H as <-.
  split; [intros ? ?|intros ? ?|intros ? ?|intros ? ?]; simpl; by rewrite lookup_empty.
Qed.

Lemma repository_reachable_wf s : repository_reachable s -> repository_wf s.
Proof.
  intros (clock & s0 & Hnew & Hs). by apply (repository_steps_wf s0 s (NewMemoryRepository_wf _ _ _ _ Hnew)).
Qed.

(** ** Records over time *)

Lemma repo_changes_record s s' id r :
  rtc repo_change s s' -> repo_records s !! id = Some r ->
  exists r', repo_records s' !! id = Some r' /\ record_changes r r'.
Proof.
  intros Hc. revert r. induction Hc as [s|s s1 s' Hstep Hc IH]; intros r Hid; [by exists r|].
  assert (exists r1, repo_records s1 !! id = Some r1 /\ record_changes r r1) as (r1 & Hr1 & Hch).
  { destruct Hstep as [request metadata token now Hnow Hg Hfresh Hkey|j q q' now Hnow Hj Hq].
    - exists r. split; [|done]. unfold addPrepared. simpl. rewrite lookup_insert_ne; [done|]. by intros <-; congruence.
    - rewrite put_lookup. destruct (decide (id = j)) as [->|]; [|by exists r].
      exists q'. split; [done|]. simplify_eq. by apply (one_change now). }
  destruct (IH r1 Hr1) as (r' & Hr' & Hch'). exists r'. split; [done|]. by etrans.
Qed.

Lemma record_changes_ind_rel (R : relation memoryRevocationRecord) `{!PreOrder R} r r' :
  (forall now q q', running now -> record_change now q q' -> R q q') -> record_changes r r' -> R r r'.
Proof.
  intros HR Hc. induction Hc as [r|r r1 r' (now & Hnow & Hc1) Hc IH]; [done|]. etrans; [by eapply HR|done].
Qed.

Lemma record_changes_same r r' : record_changes r r' -> same_credential r r'.
Proof. apply record_changes_ind_rel; [apply _|]. intros now q q' _. apply record_change_same. Qed.

Lemma record_changes_action r r' :
  record_changes r r' -> rr_id r' = rr_id r /\ rev_ActionID (rr_revocation r') = rev_ActionID (rr_revocation r) /\
    rev_ActionLeaseEpoch (rr_revocation r') = rev_ActionLeaseEpoch (rr_revocation r).
Proof. intros [H _ _ _]%record_changes_same. injection H. unfold rr_id. intros. split_and!; congruence. Qed.
