(* ===== verification/CredentialHistory.v ===== *)
(** * Credential revocations: what holds from one call to any later one

    Guarantees over whole histories of a record: final statuses, the lifecycle,
    the single authorisation of a child credential, the fence of a claim, and
    what a revocation rests on.  Also the calls read backwards: what a successful
    call found in the repository. *)

From S2P Require Import Prelude.
From S2P Require Import Sha256.
From S2P Require Import GoText.
From S2P Require Import GoStrings.
From S2P Require Import GoJson.
From S2P Require Import GoSort.
From S2P Require Import Credential.
From S2P Require Import CredentialFacts.
From S2P Require Import CredentialInvariant.

Open Scope Z_scope.

(** ** The lifecycle of a credential *)

Inductive lifecycle : RevocationStatus -> RevocationStatus -> Prop :=
| lc_anchor : lifecycle StatusPrepared StatusAnchored
| lc_none : lifecycle StatusPrepared StatusNoCredential
| lc_activate : lifecycle StatusAnchored StatusActive
| lc_request_anchored : lifecycle StatusAnchored StatusRevocationPending
| lc_request_active : lifecycle StatusActive StatusRevocationPending
| lc_claim : lifecycle StatusRevocationPending StatusRevoking
| lc_retry : lifecycle StatusRevoking StatusRevocationPending
| lc_manual : lifecycle StatusRevoking StatusManualRequired
| lc_exhaust : lifecycle StatusRevocationPending StatusManualRequired
| lc_requeue : lifecycle StatusManualRequired StatusRevocationPending
| lc_complete : lifecycle StatusRevoking StatusRevoked
| lc_confirm : lifecycle StatusManualRequired StatusRevoked.

Create HintDb credential.
#[export] Hint Constructors lifecycle : credential.

(** Case analysis on a change, with the status before it and the record after it known. *)
Ltac change_cases Hc :=
  destruct Hc;
  try match goal with H : matchesMemoryClaim _ _ _ _ = true |- _ => pose proof (matches_revoking _ _ _ _ H) end;
  try match goal with H : applyRequestRevocation ?r _ = Ok _, H' : _ \/ _ |- _ =>
    unfold applyRequestRevocation in H; destruct H' as [H'|H']; rewrite H' in H; injection H as <- end;
  try match goal with H : claimable _ _ = true |- _ =>
    pose proof (retrying_true _ (claimable_retrying _ _ H)) as [?|?] end;
  try match goal with H : exhaustedUnclaimed _ _ = true |- _ =>
    pose proof (retrying_true _ (exhausted_retrying _ _ H)) as [?|?] end;
  try match goal with |- context [failedRecord _ _ _ (retryTransition _ ?now) ?r] =>
    unfold failedRecord, retryTransition; destruct (memoryRevocationExhausted r now) end;
  try match goal with H : preparedLapsed _ _ = true |- _ =>
    let H' := fresh in pose proof H as H'; unfold preparedLapsed in H'; guards end.

Lemma record_change_lifecycle now r r' :
  record_change now r r' -> status r' = status r \/ lifecycle (status r) (status r').
Proof.
  intros Hc. change_cases Hc; try (by left); right;
    match goal with H : status r = _ |- _ => rewrite H end; cbn; auto with credential.
Qed.

Lemma record_changes_lifecycle r r' : record_changes r r' -> rtc lifecycle (status r) (status r').
Proof.
  intros Hc. induction Hc as [r|r r1 r' (now & _ & Hc1) Hc IH]; [done|].
  destruct (record_change_lifecycle _ _ _ Hc1) as [<-|Hl]; [done|by eapply rtc_l].
Qed.

(** Terminal records are final: nothing writes them again. *)
Lemma terminal_changes r r' : Revocation_Terminal (rr_revocation r) = true -> record_changes r r' -> r' = r.
Proof.
  intros Ht Hc. destruct Hc as [|r r1 r' (now & _ & Hc1) _]; [done|]. exfalso. unfold Revocation_Terminal in Ht.
  change_cases Hc1; match goal with H : status r = _ |- _ => rewrite H in Ht end; done.
Qed.

(** ** The authorisation of a child credential is kept *)

Definition authorization_kept (r r' : memoryRevocationRecord) : Prop :=
  rr_childCreateAuthorizedAt r <> 0 ->
  rr_childCreateAuthorizedAt r' = rr_childCreateAuthorizedAt r /\ rr_childCreateTTL r' = rr_childCreateTTL r.

#[export] Instance authorization_kept_preorder : PreOrder authorization_kept.
Proof.
  split; [done|]. intros r1 r2 r3 H1 H2 H. destruct (H1 H) as [Ha Ht].
  rewrite <- Ha in H. destruct (H2 H). split; congruence.
Qed.

Lemma record_changes_authorization r r' : record_changes r r' -> authorization_kept r r'.
Proof.
  apply record_changes_ind_rel; [apply _|]. intros now q q' _ Hc Ha. change_cases Hc; done.
Qed.

(** ** The fence of a claim *)

(** From the grant of epoch [e] to worker [w] with token digest [d] on: a later
    epoch, or the same epoch held, or completed, with that fence only. *)
Record claim_fence (e : Z) (d w : string) (r : memoryRevocationRecord) : Prop := {
  fk_epoch : e <= rev_ClaimEpoch (rr_revocation r);
  fk_held : rev_ClaimEpoch (rr_revocation r) = e -> status r = StatusRevoking ->
    rr_claimTokenSHA256 r = d /\ rev_ClaimedBy (rr_revocation r) = w;
  fk_completed : rr_completedClaimSHA256 r <> ""%string -> e <= rr_completedClaimEpoch r /\
    (rr_completedClaimEpoch r = e -> rr_completedClaimSHA256 r = d /\ rr_completedClaimWorker r = w)
}.

Lemma record_change_fence e d w now r r' :
  record_change now r r' -> claim_fence e d w r -> claim_fence e d w r'.
Proof.
  intros Hc Hf.
  change_cases Hc; try (unfold matchesMemoryClaim in *; guards); destruct Hf as [He Hh Hco]; open_record r; subst;
    split; simpl; intros; try done; try lia; try tauto; try congruence.
Qed.

Lemma record_changes_fence e d w r r' : record_changes r r' -> claim_fence e d w r -> claim_fence e d w r'.
Proof.
  intros Hc. induction Hc as [r|r r1 r' (now & _ & Hc1) Hc IH]; [done|]. intros Hf. by eapply IH, record_change_fence.
Qed.

(** ** What a revocation rests on *)

(** The proof that moved [q] into [REVOKED] at [now]: the completion of the
    current, unexpired claim, or a second confirmation. *)
Inductive revocation_proof (now : Time) (q r' : memoryRevocationRecord) : Prop :=
| proof_claim fence :
    matchesMemoryClaim q fence (SHA256Hex (cf_Token fence)) now = true ->
    r' = revokedRecord fence now q -> revocation_proof now q r'
| proof_confirmations first second :
    status q = StatusManualRequired ->
    rr_confirmations q = {[ xc_Subject first := first ]} ->
    rr_confirmations r' = <[ xc_Subject second := second ]> {[ xc_Subject first := first ]} ->
    xc_Subject first <> xc_Subject second ->
    xc_EvidenceHash first = xc_EvidenceHash second -> xc_EvidenceHash second <> ""%string ->
    xc_PlatformAdmin first = true \/ xc_PlatformAdmin second = true -> revocation_proof now q r'.

Lemma single_confirmation r :
  revocation_wf r -> status r = StatusManualRequired -> rr_confirmations r <> ∅ ->
  exists first, rr_confirmations r = {[ xc_Subject first := first ]} /\
    xc_EvidenceHash first = rev_EvidenceHash (rr_revocation r).
Proof.
  intros Hwf Hs Hne. pose proof (wf_manual _ Hwf Hs) as Hsize.
  destruct (map_choose _ Hne) as (subject & c & Hc). destruct (wf_confirmations _ Hwf _ _ Hc) as [Hsub Hev].
  exists c. split; [|done]. rewrite Hsub.
  assert (delete subject (rr_confirmations r) = ∅) as Hdel.
  { apply map_size_empty_iff. rewrite map_size_delete_Some by eauto. lia. }
  rewrite <- (insert_delete_id _ _ _ Hc), Hdel. done.
Qed.

Lemma record_change_revoked now r r' :
  revocation_wf r -> record_change now r r' -> status r <> StatusRevoked -> status r' = StatusRevoked ->
  revocation_proof now r r'.
Proof.
  intros Hwf Hc Hr. change_cases Hc; try (cbn; congruence); intros _.
  - by eapply proof_claim.
  - destruct (single_confirmation r Hwf) as (first & Hfirst & Hev); [done|done|].
    assert (xc_Subject first <> confirm_Subject request) as Hne.
    { intros Heq. rewrite Hfirst, Heq, lookup_singleton_eq in *. done. }
    assert (rev_EvidenceHash (rr_revocation r) = confirm_EvidenceHash request) as Hsame.
    { match goal with H : _ \/ _ = confirm_EvidenceHash _ |- _ => destruct H as [He|He]; [|done] end.
      by apply (wf_evidence _ Hwf) in He. }
    eapply (proof_confirmations now r _ first {| xc_Subject := confirm_Subject request;
      xc_EvidenceHash := confirm_EvidenceHash request; xc_PlatformAdmin := confirm_PlatformAdmin request;
      xc_CreatedAt := now |}); try done; simpl.
    + cbn. by rewrite Hfirst.
    + congruence.
    + by eapply ValidSHA256_nonempty.
    + match goal with H : _ \/ hasPlatformAdmin _ = true |- _ => destruct H as [Ha|Ha]; [by right|left] end.
      rewrite Hfirst, hasPlatformAdmin_true in Ha. destruct Ha as (subject & c & [<- <-]%lookup_singleton_Some & Hadm). done.
Qed.

(** Whenever a record has become [REVOKED], there was a proof. *)
Lemma record_changes_revoked r r' :
  revocation_wf r -> record_changes r r' -> status r <> StatusRevoked -> status r' = StatusRevoked ->
  exists now q, running now /\ record_changes r q /\ revocation_proof now q r'.
Proof.
  intros Hwf Hc. induction Hc as [r|r r1 r' (now & Hnow & Hc1) Hc IH]; intros Hr Hr'; [done|].
  destruct (decide (status r1 = StatusRevoked)) as [H1|H1].
  - rewrite (terminal_changes r1 r') in * by (unfold Revocation_Terminal; by rewrite H1 || done).
    exists now, r. split_and!; [done|done|]. by apply record_change_revoked.
  - destruct IH as (now' & q & Hnow' & Hq & Hp); [by eapply record_change_wf|done|done|].
    exists now', q. split_and!; [done| |done]. eapply rtc_l; [|done]. by exists now.
Qed.

(** ** Calls read backwards *)

Lemma run_Ok {S A} (m : M S A) (Q : A -> S -> Prop) s a s' :
  wp m (fun r s' => forall a, r = Ok a -> Q a s') s -> m s = (Ok a, s') -> Q a s'.
Proof. unfold wp. intros H E. rewrite E in H. by apply H. Qed.

Ltac backwards Hrun :=
  match type of Hrun with _ = (Ok ?a, ?s') => pattern a, s'; revert Hrun; apply run_Ok; cbv beta end.

(** Run a call towards a fact about its success. *)
Ltac run_call :=
  repeat (first [wp_step
                |progress unfold findRecord, storeRecord, actionRecord, claimRecord
                |apply wp_locked_Ok; intros ? ?];
          try (match goal with |- forall _, Err _ = Ok _ -> _ => intros ? ?; discriminate end)).

(** What an authorisation found and wrote. *)
Record authorization_found (clock : Time) (source : LockedInspection) (request : AuthorizeChildCreateRequest)
    (s : MemoryRepository) (a : ChildCreateAuthorization) (s' : MemoryRepository)
    (inspection : ActionInspection) (r : memoryRevocationRecord) : Prop := {
  au_source : li_inspections source = [inspection];
  au_record : repo_records s !! permit_RevocationID (auth_Permit request) = Some r;
  au_fence : frozenActionFenceMatches r (auth_Fence request) = true;
  au_scope : inspectionScopeMatches (rr_revocation r) (ai_Metadata inspection) = true;
  au_current : inspectionFenceCurrent r inspection clock 0 = true;
  au_authorized : expiry r <= am_AuthorizationExpiresAt (ai_Metadata inspection);
  au_window : clock + ChildCreateExpiryReserve + MinPostChildFenceWindow <= am_LeaseExpiresAt (ai_Metadata inspection);
  au_permit : rr_childCreatePermitSHA256 r = SHA256Hex (permit_Token (auth_Permit request));
  au_prepared : status r = StatusPrepared;
  au_first : rr_childCreateAuthorizedAt r = 0;
  au_ttl : cca_TTL a = childCreateTTL (expiry r) clock;
  au_min : MinChildCreateTTL <= cca_TTL a;
  au_at : cca_DatabaseAuthorizedAt a = clock;
  au_expiry : cca_CredentialExpiresAt a = expiry r;
  au_state : s' = putRevocation (permit_RevocationID (auth_Permit request)) (authorizedRecord clock (cca_TTL a) r) s
}.

Lemma authorize_Ok err err' clock source request s a s' :
  Repository_AuthorizeChildCreate err err' clock source request s = (Ok a, s') ->
  exists inspection r, authorization_found clock source request s a s' inspection r.
Proof.
  intros Hrun. backwards Hrun. unfold Repository_AuthorizeChildCreate. run_call.
  intros a' [= <-]. do 2 eexists. guards. split; try done; unfold After, Before, Add, IsZero in *; guards; lia.
Qed.

(** Every item of a writing loop is in the repository afterwards. *)
Lemma put_all_lookup {B} (before after : B -> memoryRevocationRecord) (items : list B) s b :
  NoDup ((fun b => rr_id (before b)) <$> items) -> b ∈ items ->
  repo_records (foldl (fun s b => putRevocation (rr_id (before b)) (after b) s) s items) !! rr_id (before b) =
    Some (after b).
Proof.
  assert (forall items s id, id ∉ (fun b => rr_id (before b)) <$> items ->
    repo_records (foldl (fun s b => putRevocation (rr_id (before b)) (after b) s) s items) !! id =
    repo_records s !! id) as Hskip.
  { clear. induction items as [|b items IH]; intros s id Hni; [done|]. simpl in *.
    rewrite not_elem_of_cons in Hni. destruct Hni as [Hne Hni]. rewrite IH, put_lookup by done.
    by rewrite decide_False. }
  revert s. induction items as [|b' items IH]; intros s Hnd Hin; [by apply elem_of_nil in Hin|].
  inversion_clear Hnd as [|? ? Hni Hnd']. simpl. apply elem_of_cons in Hin as [->|Hin]; [|by apply IH].
  by rewrite Hskip, put_lookup, decide_True.
Qed.

(** A granted claim: the record holds its fence. *)
Lemma claim_Ok err clock protector tokens request s claims s' claim :
  repository_wf s -> Repository_ClaimRevocations err clock protector tokens request s = (Ok claims, s') ->
  claim ∈ claims ->
  let fence := claimed_Fence claim in
  cf_WorkerID fence = rclaim_WorkerID request /\
  exists r, repo_records s' !! cf_RevocationID fence = Some r /\
    claim_fence (cf_Epoch fence) (SHA256Hex (cf_Token fence)) (cf_WorkerID fence) r.
Proof.
  intros Hwf Hrun. backwards Hrun. unfold Repository_ClaimRevocations. run_call.
  intros claims' [= <-] Hin. apply list_elem_of_In, List.in_map_iff in Hin as (item & <- & Hin).
  apply List.filter_In in Hin as [Hin Hpoison]. apply list_elem_of_In in Hin. apply negb_true_iff in Hpoison.
  match goal with H : prepareClaims _ _ _ _ = Ok _ |- _ => apply prepareClaims_records in H as [Hrec _] end.
  assert (pc_record item ∈ List.map pc_record a) as Hin' by (apply list_elem_of_fmap; eauto).
  rewrite Hrec in Hin'. apply candidates_spec in Hin' as (Hc & id & Hid).
  assert (claimOutcome request clock item = claimedRecord request clock (pc_token item) (pc_record item)) as Ho
    by (unfold claimOutcome; by rewrite Hpoison).
  split; [done|]. exists (claimedRecord request clock (pc_token item) (pc_record item)).
  unfold claimAnswer. rewrite Ho. cbn [claimed_Fence cf_RevocationID cf_Epoch cf_Token cf_WorkerID]. split.
  - rewrite <- Ho at 2. change (rr_id (claimedRecord _ _ _ ?r)) with (rr_id r).
    apply (put_all_lookup pc_record (claimOutcome request clock)); [|done].
    rewrite (list_fmap_compose pc_record rr_id). change (pc_record <$> ?l) with (List.map pc_record l).
    rewrite Hrec. by apply candidates_NoDup, rw_keyed.
  - pose proof (rw_record _ Hwf _ _ Hid) as Hr. split; simpl; [lia|done|]. intros Hne.
    destruct Hne. apply (wf_completed _ Hr). apply claimable_retrying, retrying_true in Hc as [->| ->]; done.
Qed.

(** The calls of a worker, with the fence they present. *)
Definition claim_call (call : RepositoryCall) : option (ClaimFence * Time) :=
  match call with
  | CallRevocationHeartbeat _ clock request => Some (rbeat_Fence request, clock)
  | CallCompleteRevocation _ clock fence => Some (fence, clock)
  | CallRetryRevocation _ clock request => Some (retry_Fence request, clock)
  | CallRequireManual _ clock request => Some (manual_Fence request, clock)
  | _ => None
  end.

(** The record answers to the fence: it is held with it, or was completed with it. *)
Definition answers_to (r : memoryRevocationRecord) (fence : ClaimFence) (now : Time) : Prop :=
  matchesMemoryClaim r fence (SHA256Hex (cf_Token fence)) now = true \/
  (status r = StatusRevoked /\ rr_completedClaimSHA256 r = SHA256Hex (cf_Token fence) /\
   rr_completedClaimEpoch r = cf_Epoch fence /\ rr_completedClaimWorker r = cf_WorkerID fence).

Lemma claim_call_Ok call fence now s u s' :
  claim_call call = Some (fence, now) -> run_repository call s = (Ok u, s') ->
  exists r, repo_records s !! cf_RevocationID fence = Some r /\ answers_to r fence now.
Proof.
  intros Hcall Hrun. backwards Hrun. destruct call; simplify_eq/=; unfold ran, Repository_Heartbeat,
    Repository_CompleteRevocation, Repository_RetryRevocation, Repository_RequireManual, failClaim;
    run_call; intros _ _; eexists; (split; [done|]); unfold answers_to; guards; naive_solver.
Qed.

Lemma fence_answers e d w r fence now :
  claim_fence e d w r -> answers_to r fence now ->
  e <= cf_Epoch fence /\ (cf_Epoch fence = e -> SHA256Hex (cf_Token fence) = d /\ cf_WorkerID fence = w).
Proof.
  intros [He Hh Hc] [Hm|(Hs & Hd & Hep & Hw)].
  - unfold matchesMemoryClaim in Hm. guards. split; [lia|]. intros ?. destruct Hh; [lia|done|]. split; congruence.
  - destruct Hc as [Hle Hsame]; [rewrite Hd; apply SHA256Hex_nonempty|]. split; [lia|]. intros ?.
    destruct Hsame; [lia|]. split; congruence.
Qed.

(** ** Refused calls *)

(** A source that keeps its contract: at most one callback, and no error of its own. *)
Definition honest (source : LockedInspection) : Prop :=
  (List.length (li_inspections source) <= 1)%nat /\ (li_inspections source <> [] -> li_err source = None).

Definition call_honest (call : RepositoryCall) : Prop :=
  match call with
  | CallAuthorizeChildCreate _ _ _ source _ | CallRecordAnchor _ _ _ _ source _ _ | CallActivate _ _ _ _ source _
  | CallRecoverManagedItem _ _ source _ => honest source
  | _ => True
  end.

(** On an error the state is the one before the call. *)
Definition atomic {A} (m : M MemoryRepository A) : Prop :=
  forall s, wp m (fun r s' => forall e, r = Err e -> s' = s) s.

Lemma wp_locked_atomic {A} source err' (operation : ActionInspection -> M MemoryRepository A) s :
  honest source -> (forall inspection, wp (operation inspection) (fun r s' => forall e, r = Err e -> s' = s) s) ->
  wp (withLockedActionInspection source err' operation) (fun r s' => forall e, r = Err e -> s' = s) s.
Proof.
  intros [Hlen Herr] Hop. unfold withLockedActionInspection. wp_step; [done|].
  destruct (li_inspections source) as [|inspection [|]]; [done| |simpl in Hlen; lia].
  rewrite (Herr ltac:(done)). specialize (Hop inspection). unfold wp in *.
  by destruct (operation inspection s) as [[] s'].
Qed.

Ltac run_atomic :=
  repeat (first [wp_step
                |progress unfold findRecord, storeRecord, actionRecord, claimRecord
                |apply wp_locked_atomic; [done|intros ?]];
          try (match goal with
               | |- forall _, Ok _ = Err _ -> _ => intros ? ?; discriminate
               | |- forall _, _ -> ?s = ?s => done
               end)).

Lemma confirm_atomic err clock request : atomic (Repository_SubmitExternalConfirmation err clock request).
Proof.
  intros s. unfold Repository_SubmitExternalConfirmation. run_atomic. exfalso. guards.
  match goal with H : _ !! confirm_Subject request = None |- _ => rename H into Hnone end.
  rewrite size_confirmed in * by done.
  match goal with H : (1 <=? _) && _ && _ = false |- _ => apply admin_guard in H as Hadmin; [|lia] end.
  match goal with H : hasPlatformAdmin _ = false |- _ => rewrite second_confirmation_has_admin in H; [done| |done] end.
  intros Hna. destruct Hadmin; congruence.
Qed.

Lemma ran_atomic {A} (m : M MemoryRepository A) : atomic m -> atomic (ran m).
Proof.
  intros Hm s. unfold ran. apply wp_bind. eapply wp_mono; [|apply Hm]. intros [a|e] s' H; [done|].
  intros e' _. by eapply H.
Qed.

Lemma run_repository_atomic call : call_honest call -> atomic (run_repository call).
Proof.
  intros Hh. destruct call; simpl in *; apply ran_atomic; try apply confirm_atomic; intros s;
    unfold Repository_Prepare, Repository_AuthorizeChildCreate, Repository_RecordAnchor, Repository_Activate,
      Repository_RecordNoCredential, Repository_RecoverPrepared, recoverManagedItem, Repository_RecoverExhausted,
      Repository_RequestRevocation, Repository_ClaimRevocations, Repository_Heartbeat, Repository_CompleteRevocation,
      Repository_RetryRevocation, Repository_RequireManual, Repository_RequeueManual, actionTransition, failClaim;
    run_atomic.
Qed.

(** ** The index by action and lease epoch *)

Lemma actionEpochKey_inj a e a' e' :
  0 < e -> 0 < e' -> actionEpochKey a e = actionEpochKey a' e' -> a = a' /\ e = e'.
Proof.
  intros He He' H. unfold actionEpochKey in H.
  apply (last_separator (ascii_of_Z 0)) in H as [-> Hf].
  - split; [done|]. by apply FormatInt_inj.
  - apply (all_chars_impl is_digit); [|by apply FormatInt_digits]. intros c. by destruct c as [[] [] [] [] [] [] [] []].
  - apply (all_chars_impl is_digit); [|by apply FormatInt_digits]. intros c. by destruct c as [[] [] [] [] [] [] [] []].
Qed.

(** One record per action and lease epoch. *)
Lemma record_unique s id r id' r' :
  repository_wf s -> repo_records s !! id = Some r -> repo_records s !! id' = Some r' ->
  rev_ActionID (rr_revocation r) = rev_ActionID (rr_revocation r') ->
  rev_ActionLeaseEpoch (rr_revocation r) = rev_ActionLeaseEpoch (rr_revocation r') -> id = id'.
Proof.
  intros Hwf Hr Hr' Ha He. pose proof (rw_index _ Hwf _ _ Hr) as Hi. pose proof (rw_index _ Hwf _ _ Hr') as Hi'.
  unfold record_key in *. rewrite Ha, He, Hi' in Hi. by simplify_eq.
Qed.

(** [InspectCleanup] sees the record of the action and epoch, and nothing else. *)
Lemma InspectCleanup_spec s a e :
  repository_wf s -> ValidIdentifier a 256 = true -> 0 < e ->
  (exists id r, repo_records s !! id = Some r /\ rev_ActionID (rr_revocation r) = a /\
     rev_ActionLeaseEpoch (rr_revocation r) = e /\
     Repository_InspectCleanup None None a e s = (Ok (true, Revocation_Terminal (rr_revocation r)), s)) \/
  ((forall id r, repo_records s !! id = Some r -> rev_ActionID (rr_revocation r) = a ->
      rev_ActionLeaseEpoch (rr_revocation r) = e -> False) /\
   Repository_InspectCleanup None None a e s = (Ok (false, false), s)).
Proof.
  intros Hwf Ha He. unfold Repository_InspectCleanup.
  unfold mbind, M_bind, checkContext, require, Prelude.get, require_some.
  rewrite Ha, (proj2 (Z.ltb_lt _ _) He). cbn [andb].
  destruct (repo_actionEpochs s !! actionEpochKey a e) as [id|] eqn:Hid.
  - left. destruct (rw_indexed _ Hwf _ _ Hid) as (r & Hr & Hk).
    apply actionEpochKey_inj in Hk as [Hka Hke]; [|by apply (wf_context r (rw_record _ Hwf _ _ Hr))|done].
    exists id, r. by rewrite Hr.
  - right. split; [|done]. intros id r Hr <- <-. pose proof (rw_index _ Hwf _ _ Hr) as Hi. unfold record_key in Hi.
    congruence.
Qed.

(** What a successful inspection requires of its arguments, and the record it reads. *)
Lemma InspectCleanup_inputs err err' a e s b s' :
  Repository_InspectCleanup err err' a e s = (Ok b, s') ->
  ValidIdentifier a 256 = true /\ 0 < e /\ Repository_InspectCleanup None None a e s = (Ok b, s').
Proof.
  unfold Repository_InspectCleanup, mbind, M_bind, checkContext, require. destruct err; [done|].
  destruct (ValidIdentifier a 256 && (0 <? e)) eqn:Hv; [|done]. destruct err'; [done|]. intros H. by guards.
Qed.

Lemma InspectCleanup_at s id r :
  repository_wf s -> repo_records s !! id = Some r ->
  Repository_InspectCleanup None None (rev_ActionID (rr_revocation r)) (rev_ActionLeaseEpoch (rr_revocation r)) s =
    (Ok (true, Revocation_Terminal (rr_revocation r)), s).
Proof.
  intros Hwf Hr. destruct (wf_context _ (rw_record _ Hwf _ _ Hr)) as (_ & Ha & He & _).
  destruct (InspectCleanup_spec s _ _ Hwf Ha He) as [(id' & r' & Hr' & Ha' & He' & ->)|[Hnone _]].
  - assert (id' = id) as -> by (eapply record_unique; eauto). by simplify_eq.
  - by destruct (Hnone _ _ Hr).
Qed.

(** ** Preparation *)

(** A successful [Prepare] found no record of the action and epoch and added one,
    with a permit, or found one, and wrote nothing and gave no permit. *)
Inductive prepared (request : PrepareRequest) (s : MemoryRepository) (p : PrepareResult) (s' : MemoryRepository) : Prop :=
| prepared_new r :
    repo_actionEpochs s !! actionEpochKey (af_ActionID (prep_Fence request)) (af_Epoch (prep_Fence request)) = None ->
    repo_records s' !! prep_RevocationID request = Some r ->
    pr_Revocation p = rr_revocation r -> pr_Created p = true ->
    rev_ActionID (rr_revocation r) = af_ActionID (prep_Fence request) ->
    rev_ActionLeaseEpoch (rr_revocation r) = af_Epoch (prep_Fence request) -> prepared request s p s'
| prepared_known id r :
    s' = s -> repo_records s !! id = Some r ->
    pr_Revocation p = rr_revocation r -> pr_Created p = false -> pr_Permit p = None ->
    rev_ActionID (rr_revocation r) = af_ActionID (prep_Fence request) ->
    rev_ActionLeaseEpoch (rr_revocation r) = af_Epoch (prep_Fence request) -> prepared request s p s'.

Lemma preparedBefore_action request request' metadata answer err' now r :
  prep_Fence request' = prep_Fence request ->
  resolvePrepareAction answer err' (prep_Fence request) now = Ok metadata -> preparedBefore request' metadata r = true ->
  rev_ActionID (rr_revocation r) = af_ActionID (prep_Fence request) /\
  rev_ActionLeaseEpoch (rr_revocation r) = af_Epoch (prep_Fence request).
Proof.
  intros Hf (_ & Ha & _ & He & _)%resolvePrepareAction_Ok Hb. unfold preparedBefore, samePrepare in Hb. guards.
  split; congruence.
Qed.

Lemma prepare_Ok err err' clock clock' answer answer' permit request s p s' :
  Repository_Prepare err err' clock clock' answer answer' permit request s = (Ok p, s') -> prepared request s p s'.
Proof.
  intros Hrun. backwards Hrun. unfold Repository_Prepare. run_call; intros p' [= <-].
  - edestruct preparedBefore_action as [Ha He]; [|done|done|]; [done|]. by eapply prepared_known.
  - edestruct preparedBefore_action as [Ha He]; [|done|done|]; [done|]. by eapply prepared_known.
  - repeat match goal with H : resolvePrepareAction _ _ _ _ = Ok _ |- _ => apply resolvePrepareAction_Ok in H end.
    destruct_and!. cbn [prep_Fence] in *. eapply prepared_new;
      [done|cbn [addPrepared repo_records prep_RevocationID]; by rewrite lookup_insert_eq|done|done|
       simpl; congruence|simpl; congruence].
Qed.

(** ** Exhausted cycles *)

Lemma exhausted_due clock r :
  revocation_wf r -> retrying (status r) = true -> rr_retryCycleStartedAt r + MaxRevocationElapsed <= clock ->
  rev_ClaimExpiresAt (rr_revocation r) <= clock -> exhaustedUnclaimed clock r = true.
Proof.
  intros Hwf Hr Hstart Hclaim. pose proof (wf_cycle _ Hwf Hr) as Hc.
  unfold exhaustedUnclaimed, memoryRevocationExhausted, After, Add.
  rewrite (proj2 (Z.ltb_ge _ _) Hstart), (proj2 (Z.ltb_ge _ _) Hclaim). cbn [negb].
  rewrite andb_true_r, orb_true_r, andb_true_r. done.
Qed.

Lemma updateAll_lookup eligible keys limit s change r :
  keyed s -> r ∈ candidates eligible keys limit s ->
  repo_records (updateAll change (candidates eligible keys limit s) s) !! rr_id r = Some (change r).
Proof. intros Hk Hin. apply (put_all_lookup id change); [by apply candidates_NoDup|done]. Qed.

(** ** Following a record *)

Lemma step_call call s result s' :
  Forall running (call_clocks call) -> run_repository call s = (result, s') -> repository_step s s'.
Proof. intros. by exists call, result. Qed.

(** A typed call as a step of the repository. *)
Lemma ran_run {A} (m : M MemoryRepository A) s a s' : m s = (Ok a, s') -> ran m s = (Ok tt, s').
Proof. intros H. unfold ran, mbind, M_bind. by rewrite H. Qed.

Lemma reachable_steps s s' : repository_reachable s -> rtc repository_step s s' -> repository_reachable s'.
Proof. intros (clock & s0 & Hnew & Hs) Hs'. exists clock, s0. split; [done|by etrans]. Qed.

(** A record is followed through a later history. *)
Lemma record_later s s' id r :
  repository_reachable s -> rtc repository_step s s' -> repo_records s !! id = Some r ->
  repository_wf s' /\ exists r', repo_records s' !! id = Some r' /\ record_changes r r'.
Proof.
  intros Hs%repository_reachable_wf Hsteps Hr. destruct (repository_steps_wf _ _ Hs Hsteps) as [Hwf Hc].
  split; [done|]. by eapply repo_changes_record.
Qed.

Lemma authorize_step err err' clock source request s a s' :
  running clock -> Repository_AuthorizeChildCreate err err' clock source request s = (Ok a, s') -> repository_step s s'.
Proof.
  intros Hclock Hrun. apply (step_call (CallAuthorizeChildCreate err err' clock source request) s (Ok tt));
    [by constructor|]. by eapply ran_run.
Qed.

(** An authorised record refuses every further authorisation for its action and epoch. *)
Lemma authorization_refused err err' clock source request s id r :
  repository_wf s -> repo_records s !! id = Some r ->
  rev_ActionID (rr_revocation r) = af_ActionID (auth_Fence request) ->
  rev_ActionLeaseEpoch (rr_revocation r) = af_Epoch (auth_Fence request) ->
  rr_childCreateAuthorizedAt r <> 0 \/ status r <> StatusPrepared ->
  exists e, (Repository_AuthorizeChildCreate err err' clock source request s).1 = Err e.
Proof.
  intros Hwf Hr Ha He Hn. destruct (Repository_AuthorizeChildCreate _ _ _ _ _ s) as [[a|e] s'] eqn:Hrun; [|by exists e].
  exfalso. apply authorize_Ok in Hrun as (i & r' & []). unfold frozenActionFenceMatches in *. guards.
  assert (id = permit_RevocationID (auth_Permit request)) as -> by (eapply record_unique; eauto; congruence).
  simplify_eq. tauto.
Qed.
