(* ===== verification/CredentialExamples.v ===== *)
(** * Credential revocations: concrete values

    An action that runs, a protector, and the calls of a credential's whole life:
    prepared, authorised, anchored, activated, its revocation requested, claimed
    and completed, or handed to the operators and confirmed by two of them. *)

From S2P Require Import Prelude.
From S2P Require Import Sha256.
From S2P Require Import GoText.
From S2P Require Import GoStrings.
From S2P Require Import GoJson.
From S2P Require Import GoSort.
From S2P Require Import Credential.
From S2P Require Import CredentialFacts.

Open Scope Z_scope.

Module CredentialDemo.

Definition start : Time := 63902822400 * Second.
Definition at_second (n : Z) : Time := start + n * Second.

Lemma running_at n : 0 <= n <= 1000000 -> running (at_second n).
Proof. unfold running, at_second, start, Second. lia. Qed.

Definition id : string := "11111111-1111-4111-8111-111111111111".
Definition id2 : string := "22222222-2222-4222-8222-222222222222".

Definition fence : ActionFence :=
  {| af_ActionID := "action-1"; af_RunnerID := "runner-1"; af_Token := "lease-token"; af_Epoch := 1 |}.

Definition metadata : ActionMetadata := {|
  am_ActionID := "action-1"; am_TenantID := "tenant-1"; am_WorkspaceID := "workspace-1";
  am_EnvironmentID := "staging"; am_TargetKey := "k8s:api"; am_Production := false; am_RunnerID := "runner-1";
  am_LeaseEpoch := 1; am_Status := ActionStatusRunning; am_LeaseExpiresAt := at_second 900;
  am_AuthorizationExpiresAt := at_second 1200; am_CancelRequestedAt := 0; am_RunnerEnabled := true;
  am_RunnerPool := "WRITE"; am_ScopeRevision := 1; am_RunnerScopeRevision := 1; am_ExactScopeAuthorized := true;
  am_ActionType := "KUBERNETES_ROLLOUT_RESTART"; am_ConnectorID := "kubernetes-1";
  am_Permission := "PATCH_DEPLOYMENT_RESTART"; am_Resource := "cluster-1/payments/api";
  am_CredentialTTLSeconds := 600 |}.

Definition inspection : ActionInspection :=
  {| ai_Metadata := metadata; ai_LeaseTokenSHA256 := SHA256Hex "lease-token" |}.
Definition source : LockedInspection :=
  {| li_atomic := true; li_inspections := [inspection]; li_err := None |}.

(** Stands in for the AES-GCM protector. *)
Definition protector : ReferenceProtector := {|
  Protect := fun _ reference =>
    match reference with
    | Some value => Ok {| ref_Ciphertext := "sealed:" +:+ value; ref_AccessorHMAC := "mac"; ref_KeyID := "key-1" |}
    | None => Err ErrReferenceProtection
    end;
  Matches := fun _ protected reference =>
    match reference with
    | Some value => Ok (ref_Ciphertext protected == "sealed:" +:+ value)
    | None => Err ErrReferenceProtection
    end;
  Unprotect := fun _ protected => Ok (Some (String.substring 7 64 (ref_Ciphertext protected)))
|}.

Definition prepare (id : string) : RepositoryCall :=
  CallPrepare None None (at_second 0) (at_second 0) (Ok metadata) (Ok metadata) (Ok "permit-token"%string)
    {| prep_RevocationID := id; prep_Fence := fence; prep_Issuer := "vault"; prep_IssuerRevision := "rev-1";
       prep_CredentialExpiresAt := at_second 600 |}.

Definition permit : AuthorizeChildCreateRequest :=
  {| auth_Permit := {| permit_RevocationID := id; permit_Token := "permit-token" |}; auth_Fence := fence |}.
Definition authorize : RepositoryCall := CallAuthorizeChildCreate None None (at_second 1) source permit.

Definition anchor : RepositoryCall :=
  CallRecordAnchor None None (at_second 2) (at_second 3) source protector
    {| anchor_RevocationID := id; anchor_Fence := fence; anchor_Accessor := Some "accessor"%string |}.

Definition transition : ActionTransitionRequest := {| transition_RevocationID := id; transition_Fence := fence |}.
Definition activate : RepositoryCall := CallActivate None None (at_second 4) (at_second 4) source transition.
Definition request_revocation : RepositoryCall := CallRequestRevocation None None (at_second 5) (Ok metadata) transition.
Definition no_credential : RepositoryCall := CallRecordNoCredential None None (at_second 1) (Ok metadata) transition.

Definition claim_request : ClaimRevocationsRequest :=
  {| rclaim_WorkerID := "worker-1"; rclaim_Limit := 10; rclaim_LeaseDuration := 30 * Second |}.
Definition tokens : nat -> Result string := fun _ => Ok "claim-token"%string.
Definition claim : RepositoryCall := CallClaimRevocations None (at_second 6) protector tokens claim_request.
Definition claim_fence : ClaimFence :=
  {| cf_RevocationID := id; cf_WorkerID := "worker-1"; cf_Token := "claim-token"; cf_Epoch := 1 |}.
Definition complete : RepositoryCall := CallCompleteRevocation None (at_second 7) claim_fence.
Definition hand_over : RepositoryCall :=
  CallRequireManual None (at_second 7)
    {| manual_Fence := claim_fence; manual_FailureCode := FailurePermissionDenied; manual_FailureDetail := "denied" |}.
Definition confirm (subject : string) (admin : bool) : RepositoryCall :=
  CallSubmitExternalConfirmation None (at_second 8)
    {| confirm_RevocationID := id; confirm_Subject := "oidc:" +:+ subject;
       confirm_EvidenceHash := "0123456789abcdef0123456789abcdef0123456789abcdef0123456789abcdef";
       confirm_PlatformAdmin := admin |}.

(** ** Runs *)

Definition empty : MemoryRepository := {| repo_records := ∅; repo_actionEpochs := ∅ |}.

Fixpoint run (calls : list RepositoryCall) (s : MemoryRepository) : MemoryRepository :=
  match calls with
  | [] => s
  | call :: calls => run calls (run_repository call s).2
  end.

Definition runningb (clock : Time) : bool := (0 <? clock) && (clock <? 9000000000000 * Second).

Lemma run_steps calls s :
  forallb (fun call => forallb runningb (call_clocks call)) calls = true -> rtc repository_step s (run calls s).
Proof.
  revert s. induction calls as [|call calls IH]; intros s H; simpl; [exact (rtc_refl _ _)|].
  simpl in H. apply andb_true_iff in H as [Hc H]. eapply rtc_l; [|by apply IH].
  exists call, (run_repository call s).1. split; [|by rewrite <- surjective_pairing].
  rewrite forallb_forall in Hc. apply Forall_forall. intros clock Hin%list_elem_of_In. specialize (Hc _ Hin).
  unfold runningb, running in *. by guards.
Qed.

Lemma run_reachable calls :
  forallb (fun call => forallb runningb (call_clocks call)) calls = true -> repository_reachable (run calls empty).
Proof. intros H. exists start, empty. split; [done|by apply run_steps]. Qed.

Lemma empty_reachable : repository_reachable empty.
Proof. exact (run_reachable [] eq_refl). Qed.

Lemma run_more calls more :
  forallb (fun call => forallb runningb (call_clocks call)) more = true ->
  rtc repository_step (run calls empty) (run (calls ++ more) empty).
Proof.
  intros H. replace (run (calls ++ more) empty) with (run more (run calls empty)); [by apply run_steps|].
  generalize empty. induction calls as [|call calls IH]; intros s; [done|apply IH].
Qed.

#[global] Opaque run.

Definition to_prepared := [prepare id].
Definition to_authorized := to_prepared ++ [authorize].
Definition to_active := to_authorized ++ [anchor; activate].
Definition to_pending := to_active ++ [request_revocation].
Definition to_revoking := to_pending ++ [claim].
Definition to_revoked := to_revoking ++ [complete].
Definition to_manual := to_revoking ++ [hand_over].
Definition to_confirmed := to_manual ++ [confirm "operator-1" false; confirm "admin-1" true].

Definition status_after (calls : list RepositoryCall) : option RevocationStatus :=
  (fun r => status r) <$> (repo_records (run calls empty) !! id).

Example statuses :
  List.map status_after
    [to_prepared; to_prepared ++ [no_credential]; to_authorized; to_active; to_pending; to_revoking; to_revoked;
     to_manual; to_confirmed] =
  [Some StatusPrepared; Some StatusNoCredential; Some StatusPrepared; Some StatusActive; Some StatusRevocationPending;
   Some StatusRevoking; Some StatusRevoked; Some StatusManualRequired; Some StatusRevoked].
Proof. vm_compute. reflexivity. Qed.

Lemma record_after calls st :
  status_after calls = Some st -> exists r, repo_records (run calls empty) !! id = Some r /\ status r = st.
Proof. unfold status_after. rewrite fmap_Some. naive_solver. Qed.

Definition succeeds {S A} (outcome : Result A * S) : bool :=
  match outcome.1 with Ok _ => true | Err _ => false end.

Lemma succeeds_answer {S A} (outcome : Result A * S) :
  succeeds outcome = true -> exists a, outcome = (Ok a, outcome.2).
Proof. destruct outcome as [[a|e] s]; [by exists a|done]. Qed.

End CredentialDemo.
