(* ===== verification/CredentialTheorems.v ===== *)
(** * Credential revocations: the guarantees of the repository

    Each property speaks of the repositories that calls can reach, or of any
    later history of such a repository, and has a run of concrete calls as its
    witness. *)

From S2P Require Import Prelude.
From S2P Require Import Sha256.
From S2P Require Import GoText.
From S2P Require Import GoStrings.
From S2P Require Import GoJson.
From S2P Require Import GoSort.
From S2P Require Import Credential.
From S2P Require Import CredentialFacts.
From S2P Require Import CredentialInvariant.
From S2P Require Import CredentialHistory.
From S2P Require Import CredentialExamples.

Open Scope Z_scope.

Module Demo := CredentialDemo.

(** Reach a state of the demonstration. *)
Ltac demo_reach := apply Demo.run_reachable; vm_compute; reflexivity.

(** The success of a demonstration call. *)
Ltac demo_Ok m s a H :=
  destruct (Demo.succeeds_answer (m s)) as [a H]; [vm_compute; reflexivity|].

(** An authorisation that succeeded stays recorded. *)
Lemma authorized_later err err' clock source request s a s1 s2 :
  repository_reachable s -> running clock ->
  Repository_AuthorizeChildCreate err err' clock source request s = (Ok a, s1) -> rtc repository_step s1 s2 ->
  repository_wf s2 /\ exists r, repo_records s2 !! permit_RevocationID (auth_Permit request) = Some r /\
    rev_ActionID (rr_revocation r) = af_ActionID (auth_Fence request) /\
    rev_ActionLeaseEpoch (rr_revocation r) = af_Epoch (auth_Fence request) /\
    rr_childCreateAuthorizedAt r = clock.
Proof.
  intros Hs Hclock Hrun Hsteps. pose proof (authorize_step _ _ _ _ _ _ _ _ Hclock Hrun) as Hstep.
  assert (repository_reachable s1) as Hs1 by (eapply reachable_steps; [done|by apply rtc_once]).
  apply authorize_Ok in Hrun as (i & r & [Hsrc Hr Hf]). unfold frozenActionFenceMatches in Hf. guards.
  set (r1 := authorizedRecord clock (cca_TTL a) r) in *.
  assert (repo_records s1 !! permit_RevocationID (auth_Permit request) = Some r1) as Hr1
    by (subst s1; by rewrite put_lookup, decide_True).
  destruct (record_later _ _ _ _ Hs1 Hsteps Hr1) as (Hwf & r2 & Hr2 & Hc). split; [done|]. exists r2. split; [done|].
  destruct (record_changes_authorization _ _ Hc) as [Hat _]; [unfold running in Hclock; simpl; lia|].
  destruct (record_changes_action _ _ Hc) as (_ & Ha & He). simpl in *. split_and!; congruence.
Qed.

(** ** Child credentials *)

(** C8. For each action and lease epoch at most one child credential is ever
    authorised: after a successful [AuthorizeChildCreate], and whatever calls
    follow, every other one under that action's lease epoch is refused, with any
    permit and for any revocation id. *)
Theorem child_creation_authorized_once err err' clock source request s a s1 s2 err2 err2' clock2 source2 request2 :
  repository_reachable s -> running clock ->
  Repository_AuthorizeChildCreate err err' clock source request s = (Ok a, s1) ->
  rtc repository_step s1 s2 ->
  af_ActionID (auth_Fence request2) = af_ActionID (auth_Fence request) ->
  af_Epoch (auth_Fence request2) = af_Epoch (auth_Fence request) ->
  exists e, (Repository_AuthorizeChildCreate err2 err2' clock2 source2 request2 s2).1 = Err e.
Proof.
  intros Hs Hclock Hrun Hsteps Ha He.
  destruct (authorized_later _ _ _ _ _ _ _ _ _ Hs Hclock Hrun Hsteps) as (Hwf & r & Hr & Hra & Hre & Hat).
  eapply authorization_refused; [done|done|congruence|congruence|]. left. unfold running in Hclock. lia.
Qed.

Lemma child_creation_authorized_once_witness :
  exists e, (Repository_AuthorizeChildCreate None None (Demo.at_second 2) Demo.source Demo.permit
    (Repository_AuthorizeChildCreate None None (Demo.at_second 1) Demo.source Demo.permit
       (Demo.run Demo.to_prepared Demo.empty)).2).1 = Err e.
Proof.
  demo_Ok (Repository_AuthorizeChildCreate None None (Demo.at_second 1) Demo.source Demo.permit)
    (Demo.run Demo.to_prepared Demo.empty) a Ha.
  refine (child_creation_authorized_once _ _ _ _ _ _ _ _ _ None None (Demo.at_second 2) Demo.source Demo.permit
    _ (Demo.running_at 1 ltac:(lia)) Ha (rtc_refl _ _) eq_refl eq_refl). demo_reach.
Defined.

(** An authorised child credential is bounded: its time to live is a whole
    number of seconds, at least one, and even with the full reserve for commit,
    transport, server and clock skew it ends by the credential's deadline, which
    is no later than the action's authorisation and than the signed time to live
    counted from preparation; the lease outlives the call. *)
Theorem child_credential_within_deadline err err' clock source request s a s' :
  repository_reachable s ->
  Repository_AuthorizeChildCreate err err' clock source request s = (Ok a, s') ->
  exists inspection r,
    li_inspections source = [inspection] /\
    repo_records s !! permit_RevocationID (auth_Permit request) = Some r /\
    cca_DatabaseAuthorizedAt a = clock /\
    Second <= cca_TTL a /\ cca_TTL a mod Second = 0 /\
    clock + cca_TTL a + ChildCreateExpiryReserve <= cca_CredentialExpiresAt a /\
    cca_CredentialExpiresAt a <= am_AuthorizationExpiresAt (ai_Metadata inspection) /\
    cca_CredentialExpiresAt a <= rev_CreatedAt (rr_revocation r) + rev_CredentialTTLSeconds (rr_revocation r) * Second /\
    rev_CredentialTTLSeconds (rr_revocation r) * Second <= MaxCredentialTTL /\
    clock + ChildCreateExpiryReserve + MinPostChildFenceWindow <= am_LeaseExpiresAt (ai_Metadata inspection).
Proof.
  intros Hs%repository_reachable_wf (i & r & [])%authorize_Ok. exists i, r.
  pose proof (rw_record _ Hs _ _ au_record) as Hwf.
  pose proof (wf_deadline _ Hwf) as [_ Hdeadline]. pose proof (wf_ttl _ Hwf) as Httl.
  unfold validCredentialTTLSeconds in Httl. unfold inspectionFenceCurrent, After, Add in au_current. guards.
  pose proof (childCreateTTL_bound (expiry r) clock ltac:(lia)) as Hbound.
  rewrite au_expiry, <- au_ttl in *. specialize (Hbound au_min).
  split_and!; try done; try lia. rewrite au_ttl. apply Z.mod_mul. done.
Qed.

Lemma child_credential_within_deadline_witness :
  exists a, Demo.at_second 1 + cca_TTL a + ChildCreateExpiryReserve <= cca_CredentialExpiresAt a /\ Second <= cca_TTL a.
Proof.
  demo_Ok (Repository_AuthorizeChildCreate None None (Demo.at_second 1) Demo.source Demo.permit)
    (Demo.run Demo.to_prepared Demo.empty) a Ha.
  exists a. eapply child_credential_within_deadline in Ha as (i & r & _ & _ & _ & Hmin & _ & Hfits & _); [|demo_reach].
  exact (conj Hfits Hmin).
Defined.

(** A record closed as [NO_CREDENTIAL] hides no live credential: either no
    child was ever authorised for it, or whatever was authorised had expired at
    least the recovery grace before; and no child is authorised for its action
    and epoch afterwards. *)
Theorem no_credential_is_safe s id r :
  repository_reachable s -> repo_records s !! id = Some r -> status r = StatusNoCredential ->
  (rr_childCreateAuthorizedAt r = 0 \/
   rr_childCreateAuthorizedAt r + rr_childCreateTTL r + ChildCreateExpiryReserve + PreparedRecoveryGrace <=
     rev_UpdatedAt (rr_revocation r)) /\
  forall s' err err' clock source request,
    rtc repository_step s s' ->
    af_ActionID (auth_Fence request) = rev_ActionID (rr_revocation r) ->
    af_Epoch (auth_Fence request) = rev_ActionLeaseEpoch (rr_revocation r) ->
    exists e, (Repository_AuthorizeChildCreate err err' clock source request s').1 = Err e.
Proof.
  intros Hs Hr Hst. pose proof (rw_record _ (repository_reachable_wf _ Hs) _ _ Hr) as Hwf. split.
  - destruct (wf_none _ Hwf Hst) as [H|H]; [by left|].
    destruct (decide (rr_childCreateAuthorizedAt r = 0)) as [|Hne]; [by left|right].
    pose proof (wf_child _ Hwf Hne). lia.
  - intros s' err err' clock source request Hsteps Ha He.
    destruct (record_later _ _ _ _ Hs Hsteps Hr) as (Hwf' & r' & Hr' & Hc).
    apply terminal_changes in Hc as ->; [|unfold Revocation_Terminal; by rewrite Hst].
    eapply authorization_refused; [done|done|done|done|]. right. congruence.
Qed.

Lemma no_credential_is_safe_witness :
  exists r, repo_records (Demo.run (Demo.to_prepared ++ [Demo.no_credential]) Demo.empty) !! Demo.id = Some r /\
    (rr_childCreateAuthorizedAt r = 0 \/
     rr_childCreateAuthorizedAt r + rr_childCreateTTL r + ChildCreateExpiryReserve + PreparedRecoveryGrace <=
       rev_UpdatedAt (rr_revocation r)).
Proof.
  destruct (Demo.record_after (Demo.to_prepared ++ [Demo.no_credential]) StatusNoCredential) as (r & Hr & Hst);
    [vm_compute; reflexivity|].
  exists r. split; [exact Hr|]. refine (proj1 (no_credential_is_safe _ _ _ _ Hr Hst)). demo_reach.
Defined.

(** ** Revocation *)

(** C30. A credential becomes [REVOKED] on proof only: from the moment it was not,
    some change completed its current, unexpired claim with the claim's token, or
    added the confirmation of a second operator to that of a first, with the same
    evidence and at least one platform administrator among the two. *)
Theorem revoked_needs_proof s s' id r r' :
  repository_reachable s -> rtc repository_step s s' ->
  repo_records s !! id = Some r -> status r <> StatusRevoked ->
  repo_records s' !! id = Some r' -> status r' = StatusRevoked ->
  exists now q, running now /\ record_changes r q /\ revocation_proof now q r'.
Proof.
  intros Hs Hsteps Hr Hst Hr' Hst'. destruct (record_later _ _ _ _ Hs Hsteps Hr) as (Hwf & q & Hq & Hc). simplify_eq.
  eapply record_changes_revoked; eauto. by eapply rw_record; [apply repository_reachable_wf|].
Qed.

Lemma revoked_needs_proof_witness :
  exists r r' now q, status r' = StatusRevoked /\ running now /\ record_changes r q /\ revocation_proof now q r'.
Proof.
  destruct (Demo.record_after Demo.to_manual StatusManualRequired) as (r & Hr & Hst); [vm_compute; reflexivity|].
  destruct (Demo.record_after Demo.to_confirmed StatusRevoked) as (r' & Hr' & Hst'); [vm_compute; reflexivity|].
  destruct (revoked_needs_proof (Demo.run Demo.to_manual Demo.empty) (Demo.run Demo.to_confirmed Demo.empty) Demo.id r r')
    as (now & q & H); [demo_reach| |exact Hr|rewrite Hst; discriminate|exact Hr'|exact Hst'|
      exists r, r', now, q; exact (conj Hst' H)].
  apply (Demo.run_more Demo.to_manual [Demo.confirm "operator-1" false; Demo.confirm "admin-1" true]).
  vm_compute. reflexivity.
Defined.

(** A revocation claim is a fence: once a worker was given an epoch, every
    worker call on that credential that succeeds later carries that epoch with the
    same token (up to a collision of SHA-256) and worker, or a later epoch. *)
Theorem revocation_claim_is_fenced err clock protector tokens request s claims s1 claim s2 call fence now u s3 :
  repository_reachable s -> running clock ->
  Repository_ClaimRevocations err clock protector tokens request s = (Ok claims, s1) -> claim ∈ claims ->
  rtc repository_step s1 s2 ->
  claim_call call = Some (fence, now) -> cf_RevocationID fence = cf_RevocationID (claimed_Fence claim) ->
  run_repository call s2 = (Ok u, s3) ->
  cf_Epoch (claimed_Fence claim) <= cf_Epoch fence /\
  (cf_Epoch fence = cf_Epoch (claimed_Fence claim) ->
   SHA256Hex (cf_Token fence) = SHA256Hex (cf_Token (claimed_Fence claim)) /\
   cf_WorkerID fence = cf_WorkerID (claimed_Fence claim)).
Proof.
  intros Hs Hclock Hrun Hin Hsteps Hcall Hid Hok.
  pose proof (claim_Ok _ _ _ _ _ _ _ _ _ (repository_reachable_wf _ Hs) Hrun Hin) as (_ & r1 & Hr1 & Hf).
  assert (repository_step s s1) as Hstep.
  { apply (step_call (CallClaimRevocations err clock protector tokens request) s (Ok tt)); [by constructor|].
    by eapply ran_run. }
  destruct (record_later s1 s2 _ _ ltac:(eapply reachable_steps; [done|by apply rtc_once]) Hsteps Hr1)
    as (_ & r2 & Hr2 & Hc).
  destruct (claim_call_Ok _ _ _ _ _ _ Hcall Hok) as (q & Hq & Hans). rewrite Hid, Hr2 in Hq. simplify_eq.
  eapply fence_answers; [|done]. by eapply record_changes_fence.
Qed.

Lemma revocation_claim_is_fenced_witness :
  exists claim, cf_Epoch (claimed_Fence claim) <= cf_Epoch Demo.claim_fence.
Proof.
  demo_Ok (Repository_ClaimRevocations None (Demo.at_second 6) Demo.protector Demo.tokens Demo.claim_request)
    (Demo.run Demo.to_pending Demo.empty) claims Hclaims.
  set (outcome := Repository_ClaimRevocations _ _ _ _ _ _) in Hclaims.
  assert (List.map (fun claim => cf_RevocationID (claimed_Fence claim)) claims = [Demo.id]) as Hid.
  { assert (match outcome.1 with
            | Ok claims => List.map (fun claim => cf_RevocationID (claimed_Fence claim)) claims
            | Err _ => []
            end = [Demo.id]) as H by (vm_compute; reflexivity). rewrite Hclaims in H. exact H. }
  destruct claims as [|claim rest]; [discriminate Hid|]. injection Hid as Hid _. exists claim.
  demo_Ok (run_repository Demo.complete) outcome.2 u Hu.
  refine (proj1 (revocation_claim_is_fenced None (Demo.at_second 6) Demo.protector Demo.tokens Demo.claim_request
    (Demo.run Demo.to_pending Demo.empty) (claim :: rest) outcome.2 claim outcome.2 Demo.complete Demo.claim_fence
    (Demo.at_second 7) u _ _ (Demo.running_at 6 ltac:(lia)) Hclaims _ (rtc_refl _ _) eq_refl (eq_sym Hid) Hu));
    [demo_reach|apply elem_of_cons; left; reflexivity].
Defined.

(** C13. Records follow the documented lifecycle: over any history a record is
    never dropped, keeps its identity, scope, deadline and fences, moves along the
    lifecycle's edges only, and is never written again once terminal. *)
Theorem revocations_follow_lifecycle s s' id r :
  repository_reachable s -> rtc repository_step s s' -> repo_records s !! id = Some r ->
  exists r', repo_records s' !! id = Some r' /\ same_credential r r' /\
    rtc lifecycle (status r) (status r') /\
    (Revocation_Terminal (rr_revocation r) = true -> r' = r).
Proof.
  intros Hs Hsteps Hr. destruct (record_later _ _ _ _ Hs Hsteps Hr) as (_ & r' & Hr' & Hc). exists r'.
  split_and!; [done|by apply record_changes_same|by apply record_changes_lifecycle|].
  intros Ht. by apply terminal_changes.
Qed.

Lemma revocations_follow_lifecycle_witness :
  exists r r', status r = StatusPrepared /\ repo_records (Demo.run Demo.to_active Demo.empty) !! Demo.id = Some r' /\
    same_credential r r' /\ rtc lifecycle (status r) (status r').
Proof.
  destruct (Demo.record_after Demo.to_prepared StatusPrepared) as (r & Hr & Hst); [vm_compute; reflexivity|].
  destruct (revocations_follow_lifecycle (Demo.run Demo.to_prepared Demo.empty) (Demo.run Demo.to_active Demo.empty)
    Demo.id r) as (r' & H); [demo_reach| |exact Hr|].
  - apply (Demo.run_more Demo.to_prepared [Demo.authorize; Demo.anchor; Demo.activate]). vm_compute. reflexivity.
  - destruct H as (Hr' & Hsame & Hl & _). exists r, r'. exact (conj Hst (conj Hr' (conj Hsame Hl))).
Defined.

(** The repository keeps its invariant under every call: records are stored
    under their identifiers, the index by action and epoch is exact, and every
    record satisfies [revocation_wf]. *)
Theorem revocation_repository_invariant s : repository_reachable s -> repository_wf s.
Proof. apply repository_reachable_wf. Qed.

Lemma revocation_repository_invariant_witness : repository_wf (Demo.run Demo.to_confirmed Demo.empty).
Proof. apply revocation_repository_invariant. demo_reach. Defined.

(** The answer to [InspectCleanup] is the truth, and lasting: present means
    that the action's epoch has a record, terminal that this record is; a terminal
    answer stays the answer in every later state, and no child credential is
    authorised for that action and epoch any more. *)
Theorem cleanup_inspection_is_sound err err' a e s present terminal s1 :
  repository_reachable s -> Repository_InspectCleanup err err' a e s = (Ok (present, terminal), s1) ->
  s1 = s /\
  (present = true <-> exists id r, repo_records s !! id = Some r /\ rev_ActionID (rr_revocation r) = a /\
     rev_ActionLeaseEpoch (rr_revocation r) = e) /\
  (forall id r, repo_records s !! id = Some r -> rev_ActionID (rr_revocation r) = a ->
     rev_ActionLeaseEpoch (rr_revocation r) = e -> terminal = Revocation_Terminal (rr_revocation r)) /\
  (terminal = true -> forall s', rtc repository_step s s' ->
     Repository_InspectCleanup None None a e s' = (Ok (true, true), s') /\
     forall err2 err2' clock source request, af_ActionID (auth_Fence request) = a -> af_Epoch (auth_Fence request) = e ->
       exists x, (Repository_AuthorizeChildCreate err2 err2' clock source request s').1 = Err x).
Proof.
  intros Hs Hrun. apply InspectCleanup_inputs in Hrun as (Ha & He & Hrun).
  pose proof (repository_reachable_wf _ Hs) as Hwf.
  destruct (InspectCleanup_spec s a e Hwf Ha He) as [(id & r & Hr & Hra & Hre & H)|[Hnone H]];
    rewrite H in Hrun; simplify_eq; (split; [done|]).
  - split_and!; [naive_solver| |].
    + intros id' r' Hr' ? ?. assert (id = id') as <- by (eapply record_unique; eauto). by simplify_eq.
    + intros Ht s' Hsteps. destruct (record_later _ _ _ _ Hs Hsteps Hr) as (Hwf' & r' & Hr' & Hc).
      apply terminal_changes in Hc as ->; [|done]. split; [by rewrite (InspectCleanup_at _ _ _ Hwf' Hr'), Ht|].
      intros. eapply authorization_refused; eauto. right. intros Hp. unfold Revocation_Terminal in Ht. by rewrite Hp in Ht.
  - split_and!; [naive_solver|naive_solver|done].
Qed.

Lemma cleanup_inspection_is_sound_witness :
  Repository_InspectCleanup None None "action-1" 1 (Demo.run Demo.to_revoked Demo.empty) =
    (Ok (true, true), Demo.run Demo.to_revoked Demo.empty).
Proof.
  demo_Ok (Repository_InspectCleanup None None "action-1" 1) (Demo.run Demo.to_revoked Demo.empty) answer Ha.
  set (outcome := Repository_InspectCleanup _ _ _ _ _) in Ha. destruct answer as [present terminal].
  assert (match outcome.1 with Ok (_, terminal) => terminal | Err _ => false end = true) as Ht
    by (vm_compute; reflexivity).
  rewrite Ha in Ht. simpl in Ht.
  apply cleanup_inspection_is_sound in Ha as (_ & _ & _ & Hlater); [|demo_reach].
  apply (Hlater Ht). exact (rtc_refl _ _).
Defined.

(** A refused call writes nothing: with an action source that keeps its
    contract (one callback, no error of its own after it), every call that returns
    an error leaves the repository as it was. *)
Theorem refused_calls_change_nothing call s e s' :
  call_honest call -> run_repository call s = (Err e, s') -> s' = s.
Proof. intros Hh Hrun. exact (wp_run _ _ _ (run_repository_atomic call Hh s) _ _ Hrun e eq_refl). Qed.

Lemma refused_calls_change_nothing_witness :
  (run_repository Demo.no_credential (Demo.run Demo.to_active Demo.empty)).2 = Demo.run Demo.to_active Demo.empty.
Proof.
  destruct (run_repository Demo.no_credential (Demo.run Demo.to_active Demo.empty)) as [result s'] eqn:Hrun.
  assert ((run_repository Demo.no_credential (Demo.run Demo.to_active Demo.empty)).1 = Err ErrInvalidTransition) as He
    by (vm_compute; reflexivity).
  rewrite Hrun in He. simpl in He. subst result. exact (refused_calls_change_nothing Demo.no_credential _ _ _ I Hrun).
Defined.

(** ** Batches *)

(** A batch is the oldest eligible records: it holds stored, eligible records
    without repetition, at most [limit], in the order of the keys and identifiers;
    a record that is eligible but left out is not before any record taken, and is
    left out only when the batch is full; and the order in which Go's [range]
    delivers the map does not matter. *)
Theorem batches_take_the_oldest eligible keys limit s :
  repository_reachable s -> 0 <= limit ->
  let batch := candidates eligible keys limit s in
  (forall r, r ∈ batch -> eligible r = true /\ repo_records s !! rr_id r = Some r) /\
  NoDup (rr_id <$> batch) /\ Z.of_nat (length batch) <= limit /\
  StronglySorted (le_of (lessBy keys rr_id)) batch /\
  (forall id r, repo_records s !! id = Some r -> eligible r = true -> r ∉ batch ->
     Z.of_nat (length batch) = limit /\ Forall (fun taken => lessBy keys rr_id r taken = false) batch) /\
  (forall ranged, ranged ≡ₚ (map_to_list (repo_records s)).*2 ->
     batch = take (Z.to_nat limit) (sort_Slice (lessBy keys rr_id) (List.filter eligible ranged))).
Proof.
  intros Hs%repository_reachable_wf Hl batch. pose proof (rw_keyed _ Hs) as Hk. split_and!.
  - intros r (He & id & Hid)%candidates_spec. split; [done|]. by rewrite (Hk id r).
  - by apply candidates_NoDup.
  - unfold batch, candidates. rewrite length_take. lia.
  - apply candidates_sorted.
  - intros id r Hr He Hout. by eapply candidates_left_out.
  - intros ranged Hp. by apply candidates_range.
Qed.

Lemma batches_take_the_oldest_witness :
  NoDup (rr_id <$> candidates (claimable (Demo.at_second 6)) [fun r => rev_AvailableAt (rr_revocation r)] 10
    (Demo.run Demo.to_pending Demo.empty)).
Proof. eapply batches_take_the_oldest; [demo_reach|lia]. Defined.

(** Retries end: once a retry cycle is two hours old and no claim is running,
    a sweep with [RecoverExhausted] succeeds and hands the record to the operators,
    unless it filled its batch with other records. *)
Theorem retry_cycles_end clock limit s id r :
  repository_reachable s -> repo_records s !! id = Some r -> retrying (status r) = true ->
  rr_retryCycleStartedAt r + MaxRevocationElapsed <= clock -> rev_ClaimExpiresAt (rr_revocation r) <= clock ->
  validLimit limit = true ->
  exists recovered s', Repository_RecoverExhausted None clock limit s = (Ok recovered, s') /\
    (Z.of_nat (length recovered) = limit \/
     exists r', repo_records s' !! id = Some r' /\ status r' = StatusManualRequired).
Proof.
  intros Hs%repository_reachable_wf Hr Hret Hstart Hclaim Hl.
  assert (exhaustedUnclaimed clock r = true) as He by (by apply exhausted_due; [by eapply rw_record|..]).
  unfold Repository_RecoverExhausted, mbind, M_bind, checkContext, require, Prelude.get, modify. rewrite Hl.
  do 2 eexists. split; [done|]. rewrite length_map. pose proof (rw_keyed _ Hs) as Hk.
  match goal with |- context [candidates _ ?k _ _] => set (keys := k) end.
  destruct (decide (rr_id r ∈ rr_id <$> candidates (exhaustedUnclaimed clock) keys limit s)) as [Hin|Hout].
  - right. apply list_elem_of_fmap in Hin as (q & Hq & Hin). exists (exhaustedRecord clock q). split; [|done].
    rewrite <- (Hk id r Hr), Hq. by apply updateAll_lookup.
  - left. unfold validLimit in Hl. guards. eapply candidates_left_out; [lia|done|done|].
    intros Hin. apply Hout, list_elem_of_fmap. by exists r.
Qed.

Lemma retry_cycles_end_witness :
  exists recovered s', Repository_RecoverExhausted None (Demo.at_second 8000) 10 (Demo.run Demo.to_pending Demo.empty) =
    (Ok recovered, s') /\
    (Z.of_nat (length recovered) = 10 \/
     exists r', repo_records s' !! Demo.id = Some r' /\ status r' = StatusManualRequired).
Proof.
  destruct (Demo.record_after Demo.to_pending StatusRevocationPending) as (r & Hr & Hst); [vm_compute; reflexivity|].
  assert ((fun r => (rr_retryCycleStartedAt r, rev_ClaimExpiresAt (rr_revocation r))) <$>
    (repo_records (Demo.run Demo.to_pending Demo.empty) !! Demo.id) = Some (Demo.at_second 5, 0)) as Htimes
    by (vm_compute; reflexivity).
  rewrite Hr in Htimes. injection Htimes as Hstart Hclaim.
  eapply retry_cycles_end; [demo_reach|exact Hr|rewrite Hst; reflexivity|rewrite Hstart; discriminate|rewrite Hclaim; discriminate|reflexivity].
Defined.

(** One preparation per action and lease epoch: after a successful [Prepare],
    and whatever calls follow, another one for the same action and epoch that
    succeeds answers with the same record, writes nothing and hands out no permit. *)
Theorem preparation_is_idempotent err err' clock clock' answer answer' permit request s p s1
    s2 err2 err2' clock2 clock2' answer2 answer2' permit2 request2 p2 s3 :
  repository_reachable s -> running clock -> running clock' ->
  Repository_Prepare err err' clock clock' answer answer' permit request s = (Ok p, s1) ->
  rtc repository_step s1 s2 ->
  af_ActionID (prep_Fence request2) = af_ActionID (prep_Fence request) ->
  af_Epoch (prep_Fence request2) = af_Epoch (prep_Fence request) ->
  Repository_Prepare err2 err2' clock2 clock2' answer2 answer2' permit2 request2 s2 = (Ok p2, s3) ->
  s3 = s2 /\ pr_Created p2 = false /\ pr_Permit p2 = None /\ rev_ID (pr_Revocation p2) = rev_ID (pr_Revocation p).
Proof.
  intros Hs Hclock Hclock' Hrun Hsteps Ha He Hrun2.
  assert (repository_reachable s1) as Hs1.
  { eapply reachable_steps; [done|apply rtc_once].
    apply (step_call (CallPrepare err err' clock clock' answer answer' permit request) s (Ok tt));
      [constructor; [done|by constructor]|]. by eapply ran_run. }
  assert (exists id r, repo_records s1 !! id = Some r /\ pr_Revocation p = rr_revocation r /\
    rev_ActionID (rr_revocation r) = af_ActionID (prep_Fence request) /\
    rev_ActionLeaseEpoch (rr_revocation r) = af_Epoch (prep_Fence request)) as (id & r & Hr & Hp & Hra & Hre).
  { apply prepare_Ok in Hrun as [r|id r]; [by exists (prep_RevocationID request), r|exists id, r; by subst s1]. }
  destruct (record_later _ _ _ _ Hs1 Hsteps Hr) as (Hwf & q & Hq & Hc).
  destruct (record_changes_action _ _ Hc) as (Hqid & Hqa & Hqe). unfold rr_id in Hqid.
  apply prepare_Ok in Hrun2 as [r2 Hnone|id2 r2 Hsame Hr2].
  - pose proof (rw_index _ Hwf _ _ Hq) as Hi. unfold record_key in Hi.
    rewrite Hqa, Hqe, Hra, Hre, <- Ha, <- He in Hi. congruence.
  - assert (id = id2) as <- by (eapply record_unique; eauto; congruence). simplify_eq. split_and!; congruence.
Qed.

Definition demo_prepare_request (id : string) : PrepareRequest :=
  {| prep_RevocationID := id; prep_Fence := Demo.fence; prep_Issuer := "vault"; prep_IssuerRevision := "rev-1";
     prep_CredentialExpiresAt := Demo.at_second 600 |}.

Definition demo_prepare (id : string) : M MemoryRepository PrepareResult :=
  Repository_Prepare None None (Demo.at_second 0) (Demo.at_second 0) (Ok Demo.metadata) (Ok Demo.metadata)
    (Ok "permit-token"%string) (demo_prepare_request id).

Lemma preparation_is_idempotent_witness :
  exists p, (demo_prepare Demo.id2 (demo_prepare Demo.id Demo.empty).2).1 = Ok p /\ pr_Created p = false /\
    pr_Permit p = None.
Proof.
  demo_Ok (demo_prepare Demo.id) Demo.empty p Hp.
  demo_Ok (demo_prepare Demo.id2) (demo_prepare Demo.id Demo.empty).2 p2 Hp2. exists p2.
  split; [rewrite Hp2; reflexivity|].
  unfold demo_prepare in Hp, Hp2.
  pose proof (preparation_is_idempotent _ _ _ _ _ _ _ (demo_prepare_request Demo.id) _ _ _ _ _ _ _ _ _ _ _
    (demo_prepare_request Demo.id2) _ _ Demo.empty_reachable
    (Demo.running_at 0 ltac:(lia)) (Demo.running_at 0 ltac:(lia)) Hp (rtc_refl _ _) eq_refl eq_refl Hp2) as H.
  exact (conj (proj1 (proj2 H)) (proj1 (proj2 (proj2 H)))).
Defined.
