(* ===== verification/System.v ===== *)
(** * The action queue and the credential repository together

    The queue gives a WRITE target up only after asking a cleanup inspector about
    the action's credential.  What the inspector promises is the class
    [CleanupInspector]; the queue's guarantee is proved against it, and the
    credential repository is an instance.  A history interleaves queue calls with
    changes of the inspector's state, also while a queue call runs: a gate answers
    from any state the inspector went through during the call. *)

From S2P Require Import Prelude.
From S2P Require Import Sha256.
From S2P Require Import GoText.
From S2P Require Import GoStrings.
From S2P Require Import GoJson.
From S2P Require Import GoSort.
From S2P Require Import ExecutionLease.
From S2P Require Import Envelope.
From S2P Require Import ActionQueue.
From S2P Require Import ActionQueueFacts.
From S2P Require Import Examples.
From S2P Require Import Credential.
From S2P Require Import CredentialFacts.
From S2P Require Import CredentialInvariant.
From S2P Require Import CredentialHistory.
From S2P Require Import CredentialExamples.

Open Scope Z_scope.

(** ** The interface *)

Class CleanupInspector (State : Type) := {
  inspector_step : relation State;
  inspector_reachable : State -> Prop;
  InspectCleanup : option GoError -> option GoError -> string -> Z -> State -> Result (bool * bool);
  (** The credential of an action's epoch is closed for good. *)
  clean : State -> string -> Z -> Prop;
  inspector_reachable_step s s' : inspector_reachable s -> inspector_step s s' -> inspector_reachable s';
  InspectCleanup_clean err err' a e s :
    inspector_reachable s -> InspectCleanup err err' a e s = Ok (true, true) -> clean s a e;
  clean_step s s' a e : inspector_reachable s -> clean s a e -> inspector_step s s' -> clean s' a e
}.

Section client.
Context {State : Type} `{!CleanupInspector State} (Transform : string -> Result string).
Implicit Types (s : State) (q : MemoryActionQueue).

Lemma reachable_rtc s s' : inspector_reachable s -> rtc inspector_step s s' -> inspector_reachable s'.
Proof. intros Hs Hc. induction Hc; eauto using inspector_reachable_step. Qed.

Lemma clean_rtc s s' a e : inspector_reachable s -> clean s a e -> rtc inspector_step s s' -> clean s' a e.
Proof. intros Hs Hcl Hc. induction Hc; eauto using inspector_reachable_step, clean_step. Qed.

(** Every answer of the gate is the inspector's at some moment between [s] and [s']. *)
Definition backed s s' (gate : option CleanupGate) : Prop :=
  match gate with
  | None => True
  | Some answer => forall a e, exists s1 err err',
      rtc inspector_step s s1 /\ rtc inspector_step s1 s' /\ answer a e = InspectCleanup err err' a e s1
  end.

Inductive system_step : MemoryActionQueue * State -> MemoryActionQueue * State -> Prop :=
| system_queue call result q q' s s' :
    rtc inspector_step s s' -> Forall (backed s s') (call_gates call) ->
    run_queue Transform call q = (result, q') -> system_step (q, s) (q', s')
| system_inspector q s s' : inspector_step s s' -> system_step (q, s) (q, s').

(** The runner of the current epoch may have acted. *)
Definition begun (status : Status) : bool :=
  (status == StatusRunning) || (status == StatusFinalizing) || (status == StatusUncertain).

Lemma begun_kept (ev : Z -> bool -> Prop) p p' :
  rtc (action_step ev) p p' -> begun p.1 = true -> (begun p'.1 = true /\ p'.2 = p.2) \/ ev p.2 false.
Proof.
  induction 1 as [|p1 p2 p3 Hs _ IH]; intros Hb; [auto|].
  destruct Hs; simpl in *; try discriminate; auto.
Qed.

Lemma clears_clean s s' gate id n :
  inspector_reachable s -> backed s s' gate -> gateClears gate id n false -> clean s' id n.
Proof.
  intros Hs Hb (answer & present & terminal & -> & Ha & Hc). destruct Hc as [[-> ->]|[_ ?]]; [|done].
  destruct (Hb id n) as (s1 & err & err' & H1 & H2 & Heq). rewrite Ha in Heq. symmetry in Heq.
  apply InspectCleanup_clean in Heq; [|by eapply reachable_rtc].
  by apply (clean_rtc s1 s'); [apply (reachable_rtc s s1)|..].
Qed.

(** One queue call: the record is still begun in its epoch, or its credential is clean. *)
Lemma call_keeps_or_cleans call result q q' s s' id r :
  queue_reachable Transform q -> inspector_reachable s -> Forall (backed s s') (call_gates call) ->
  run_queue Transform call q = (result, q') -> queue_records q !! id = Some r ->
  sub_Pool (rec_submission r) = PoolWrite -> begun (ex_Status (rec_execution r)) = true ->
  clean s' id (ex_LeaseEpoch (rec_execution r)) \/
  exists r', queue_records q' !! id = Some r' /\ sub_Pool (rec_submission r') = PoolWrite /\
    begun (ex_Status (rec_execution r')) = true /\ ex_LeaseEpoch (rec_execution r') = ex_LeaseEpoch (rec_execution r).
Proof.
  intros Hq%queue_reachable_wf Hs Hgates Hrun Hr Hp Hb.
  pose proof (qwf_records _ _ Hq id r Hr) as Hwf.
  pose proof (run_queue_moves Transform call q Hq id r Hr) as Hm. rewrite Hrun in Hm.
  destruct Hm as (r' & Hr' & [Hc [Hsub _] _ _ _]).
  destruct (begun_kept _ _ _ Hc Hb) as [[Hb' He]|Hev].
  - right. exists r'. split_and!; [done|congruence|done|done].
  - left. specialize (Hev ltac:(by rewrite (rwf_pool _ _ _ Hwf))).
    rewrite (rwf_id _ _ _ Hwf) in Hev. rewrite Forall_forall in Hgates.
    apply Exists_exists in Hev as (gate & Hin & Hclears). by eapply clears_clean; eauto.
Qed.

Lemma system_inspector_steps p p' : rtc (system_step) p p' -> rtc inspector_step p.2 p'.2.
Proof.
  intros Hs. induction Hs as [p|p p1 p' Hstep Hs IH]; [exact (rtc_refl _ _)|]. etrans; [|exact IH].
  destruct Hstep; [done|by apply rtc_once].
Qed.

Lemma history_keeps_or_cleans p p' id r :
  rtc system_step p p' -> queue_reachable Transform p.1 -> inspector_reachable p.2 ->
  queue_records p.1 !! id = Some r ->
  sub_Pool (rec_submission r) = PoolWrite -> begun (ex_Status (rec_execution r)) = true ->
  clean p'.2 id (ex_LeaseEpoch (rec_execution r)) \/
  exists r', queue_records p'.1 !! id = Some r' /\
    begun (ex_Status (rec_execution r')) = true /\ ex_LeaseEpoch (rec_execution r') = ex_LeaseEpoch (rec_execution r).
Proof.
  intros Hs. revert r. induction Hs as [p|p p1 p' Hstep Hs IH]; intros r Hq Hreach Hr Hp Hb; [right; by exists r|].
  destruct Hstep as [call result q q1 s s1 Hsteps Hgates Hrun|q s s1 Hstep]; simpl in *.
  - assert (inspector_reachable s1) as Hs1 by (by apply (reachable_rtc s s1)).
    assert (queue_reachable Transform q1) as Hq1.
    { destruct Hq as (clock & q0 & Hnew & Hc). exists clock, q0. split; [done|]. eapply rtc_r; [done|].
      exists call. by rewrite Hrun. }
    destruct (call_keeps_or_cleans call result q q1 s s1 id r) as [Hc|(r1 & Hr1 & Hp1 & Hb1 & <-)]; try done.
    + left. eapply (clean_rtc s1); [done|done|]. exact (system_inspector_steps _ _ Hs).
    + by apply IH.
  - apply IH; try done. by eapply inspector_reachable_step.
Qed.
End client.

(** ** The credential repository as inspector *)

(** The credential of the epoch has a record, and that record is terminal. *)
Definition credential_closed (s : Credential.MemoryRepository) (a : string) (e : Z) : Prop :=
  exists id r, repo_records s !! id = Some r /\ rev_ActionID (rr_revocation r) = a /\
    rev_ActionLeaseEpoch (rr_revocation r) = e /\ Revocation_Terminal (rr_revocation r) = true.

#[export, refine] Instance repository_inspector : CleanupInspector Credential.MemoryRepository := {
  inspector_step := repository_step;
  inspector_reachable := repository_reachable;
  InspectCleanup err err' a e s := (Repository_InspectCleanup err err' a e s).1;
  clean := credential_closed
}.
Proof.
  - intros s s' Hs Hstep. eapply reachable_steps; [done|by apply rtc_once].
  - intros err err' a e s Hs%repository_reachable_wf Hi.
    destruct (Repository_InspectCleanup err err' a e s) as [result s1] eqn:Hrun. simpl in Hi. subst result.
    apply InspectCleanup_inputs in Hrun as (Ha & He & Hrun).
    destruct (InspectCleanup_spec s a e Hs Ha He) as [(id & r & Hr & Hra & Hre & H)|[_ H]]; rewrite H in Hrun; [|done].
    injection Hrun as Ht _. by exists id, r.
  - intros s s' a e Hs (id & r & Hr & Ha & He & Ht) Hstep.
    destruct (record_later s s' id r Hs (rtc_once _ _ Hstep) Hr) as (_ & r' & Hr' & Hc).
    apply terminal_changes in Hc as ->; [|done]. by exists id, r.
Defined.

(** ** The guarantee of the composition *)

(** C1. A target that a begun WRITE action held is given up only on a closed
    credential.  Take any reachable queue and credential repository and any later
    history of both, interleaved, with the repository as the queue's gate.  If a
    WRITE action had begun in some epoch and is no longer active in that epoch, then
    the repository holds the record of that action and epoch, it is [REVOKED] or
    [NO_CREDENTIAL] without a live child, and in no later state is a child
    credential authorised for that action and epoch. *)
Theorem begun_write_released_on_closed_credential Transform q s q' s' id r r' :
  queue_reachable Transform q -> repository_reachable s ->
  rtc (system_step Transform) (q, s) (q', s') ->
  queue_records q !! id = Some r -> sub_Pool (rec_submission r) = PoolWrite ->
  begun (ex_Status (rec_execution r)) = true ->
  queue_records q' !! id = Some r' ->
  ~ (actionLeaseActive (ex_Status (rec_execution r')) = true /\
     ex_LeaseEpoch (rec_execution r') = ex_LeaseEpoch (rec_execution r)) ->
  exists rid c, repo_records s' !! rid = Some c /\ rev_ActionID (rr_revocation c) = id /\
    rev_ActionLeaseEpoch (rr_revocation c) = ex_LeaseEpoch (rec_execution r) /\
    (status c = StatusRevoked \/
     status c = StatusNoCredential /\
       (rr_childCreateAuthorizedAt c = 0 \/ expiry c + PreparedRecoveryGrace <= rev_UpdatedAt (rr_revocation c))) /\
    forall s'' err err' clock source request, rtc repository_step s' s'' ->
      af_ActionID (auth_Fence request) = id -> af_Epoch (auth_Fence request) = ex_LeaseEpoch (rec_execution r) ->
      exists x, (Repository_AuthorizeChildCreate err err' clock source request s'').1 = Err x.
Proof.
  intros Hq Hs Hsteps Hr Hp Hb Hr' Hrel.
  destruct (history_keeps_or_cleans Transform (q, s) (q', s') id r Hsteps Hq Hs Hr Hp Hb)
    as [(rid & c & Hc & Ha & He & Ht)|(r1 & Hr1 & Hb1 & He1)]; simpl in *.
  2: { simplify_eq. destruct Hrel. split; [|done]. unfold begun in Hb1. unfold actionLeaseActive.
       destruct (ex_Status (rec_execution r')); done. }
  assert (repository_reachable s') as Hs'.
  { eapply reachable_steps; [exact Hs|]. exact (system_inspector_steps _ _ _ Hsteps). }
  pose proof (rw_record _ (repository_reachable_wf _ Hs') _ _ Hc) as Hwf.
  exists rid, c. split_and!; [done|done|done| |].
  - unfold Revocation_Terminal in Ht. apply orb_true_iff in Ht as [Ht|Ht]; guards; [by left|right].
    split; [done|by apply (wf_none _ Hwf)].
  - intros s'' err err' clock source request Hlater Hra Hre.
    destruct (record_later s' s'' rid c Hs' Hlater Hc) as (Hwf'' & c' & Hc' & Hch).
    apply terminal_changes in Hch as ->; [|done]. eapply authorization_refused; [done|done|congruence|congruence|].
    right. intros Hst. unfold Revocation_Terminal in Ht. by rewrite Hst in Ht.
Qed.

(** The result of a runner is finalized with the repository as gate, after the
    credential was revoked. *)
Definition demo_repository : Credential.MemoryRepository := CredentialDemo.run CredentialDemo.to_revoked CredentialDemo.empty.
Definition demo_gate : option CleanupGate :=
  Some (fun a e => (Repository_InspectCleanup None None a e demo_repository).1).

Lemma demo_system_step :
  system_step demo_Transform (demo_queue demo_finalize_calls, demo_repository)
    ((run_queue demo_Transform (demo_finalize demo_gate) (demo_queue demo_finalize_calls)).2, demo_repository).
Proof.
  eapply (system_queue demo_Transform (demo_finalize demo_gate));
    [exact (rtc_refl _ _)|constructor; [|constructor]|apply surjective_pairing].
  intros a e. exists demo_repository, None, None. split_and!; [exact (rtc_refl _ _)|exact (rtc_refl _ _)|reflexivity].
Qed.

Lemma begun_write_released_on_closed_credential_witness :
  exists rid c, repo_records demo_repository !! rid = Some c /\ rev_ActionID (rr_revocation c) = "action-1"%string /\
    rev_ActionLeaseEpoch (rr_revocation c) = 1.
Proof.
  destruct (begun_write_released_on_closed_credential demo_Transform (demo_queue demo_finalize_calls) demo_repository
    (run_queue demo_Transform (demo_finalize demo_gate) (demo_queue demo_finalize_calls)).2 demo_repository
    "action-1" (demo_record demo_finalize_calls "action-1")
    (default record_zero (queue_records
      (run_queue demo_Transform (demo_finalize demo_gate) (demo_queue demo_finalize_calls)).2 !! "action-1"%string)))
    as (rid & c & Hc & Ha & He & _).
  - apply demo_queue_reachable.
  - apply CredentialDemo.run_reachable. vm_compute. reflexivity.
  - apply rtc_once, demo_system_step.
  - vm_compute. reflexivity.
  - vm_compute. reflexivity.
  - vm_compute. reflexivity.
  - vm_compute. reflexivity.
  - vm_compute. intros [? _]. discriminate.
  - exists rid, c. split; [exact Hc|split; [exact Ha|]]. rewrite He. vm_compute. reflexivity.
Defined.
