(* ===== verification/DurableHandles.v ===== *)
(** * Requests and handles of the credential broker

    The types of internal/credential/durable_broker.go that its clients see: what selects an
    issuer, what asks for a credential, and the two handles.  A handle carries its public data
    and the address of the state its copies share; an address outside the broker's heap is
    the nil pointer. *)

From S2P Require Import Prelude.
From S2P Require Import Credential.

Record DurableIssuerResolveRequest := {
  dir_TenantID : string; dir_WorkspaceID : string; dir_EnvironmentID : string; dir_Production : bool;
  dir_ActionType : string; dir_ConnectorID : string; dir_Permission : string; dir_Resource : string
}.

#[export] Instance DurableIssuerResolveRequest_eq_dec : EqDecision DurableIssuerResolveRequest.
Proof. solve_decision. Defined.

#[export] Instance DurableIssuerResolveRequest_countable : Countable DurableIssuerResolveRequest.
Proof.
  refine (inj_countable'
    (fun r => (dir_TenantID r, dir_WorkspaceID r, dir_EnvironmentID r, dir_Production r,
               dir_ActionType r, dir_ConnectorID r, dir_Permission r, dir_Resource r))
    (fun '(t, w, e, p, a, c, m, r) => Build_DurableIssuerResolveRequest t w e p a c m r) _).
  by intros [].
Defined.

Record PrepareDurableCredentialRequest := {
  pdr_Fence : ActionFence; pdr_Selection : DurableIssuerResolveRequest;
  pdr_RequestedTTL : Duration; pdr_PolicyExpiresAt : Time
}.

Record PreparedDurableCredential := { pdc_revocationID : string; pdc_state : Z }.

Record DurableCredential := { dc_revocationID : string; dc_expiresAt : Time; dc_state : Z }.
