(* ===== verification/DurableBroker.v ===== *)
(** * The durable credential broker and its issuer registry

    Models internal/credential/durable_broker.go and issuer_registry.go.  The broker
    prepares a revocation record before a credential exists, has a child token created
    once the repository authorised it, anchors the child's accessor, issues the dynamic
    secret and activates the record; every failure after the child was dispatched persists
    the intent to revoke it.

    The handles it gives out share state by pointer: [Heap] holds the pointees, and a
    handle carries an address.  The repository, the resolver and the issuer are interfaces,
    answered by an [Environment]; each call is an [Event] of the trace.  Other callers of the
    same broker run between the atomic sections of a method ([others]). *)

From S2P Require Import Prelude.
From S2P Require Import Interaction.
From S2P Require Import Sha256.
From S2P Require Import GoText.
From S2P Require Import GoStrings.
From S2P Require Import Credential.
From S2P Require Import DurableHandles.

Open Scope Z_scope.

(** ** Requests, profiles and errors *)

Definition ErrInvalidDurableBrokerConfiguration := errors_New "credential.ErrInvalidDurableBrokerConfiguration".
Definition ErrInvalidDurableCredentialRequest := errors_New "credential.ErrInvalidDurableCredentialRequest".
Definition ErrDurableCredentialIssuance := errors_New "credential.ErrDurableCredentialIssuance".
Definition ErrDurableCredentialState := errors_New "credential.ErrDurableCredentialState".
Definition ErrInvalidIssuerRegistry := errors_New "credential.ErrInvalidIssuerRegistry".
Definition ErrDurableIssuerNotRegistered := errors_New "credential.ErrDurableIssuerNotRegistered".

Definition PostDispatchPersistenceTimeout : Duration := 20 * Second.

Record DurableIssuerProfile := { dip_IssuerID : string; dip_Revision : string; dip_CredentialTTL : Duration }.

#[export] Instance DurableIssuerProfile_eq_dec : EqDecision DurableIssuerProfile.
Proof. solve_decision. Defined.

(** An issuer as the registry and the broker see it: which object it is, whether its type is
    comparable, and what its getters answer.  A nil interface is [None]. *)
Record DurableIssuer := {
  issuer_object : Z; issuer_comparable : bool; issuer_IssuerID : string; issuer_IssuerRevision : string
}.

#[export] Instance DurableIssuer_eq_dec : EqDecision DurableIssuer.
Proof. solve_decision. Defined.

Record ResolvedDurableIssuer := { rdi_Profile : DurableIssuerProfile; rdi_Issuer : option DurableIssuer }.

#[export] Instance ResolvedDurableIssuer_eq_dec : EqDecision ResolvedDurableIssuer.
Proof. solve_decision. Defined.

Record DurableChildCreateRequest := {
  ccr_RevocationID : string; ccr_ProfileRevision : string; ccr_DatabaseAuthorizedAt : Time; ccr_TTL : Duration;
  ccr_CredentialExpiresAt : Time
}.

(** A sensitive value is the bytes it holds; destroying it is an event of the trace. *)
Record DurableChild := { child_Token : string; child_Accessor : SensitiveReference; child_ExpiresAt : Time }.

Record DurableChildInspectionRequest := {
  cir_RevocationID : string; cir_ProfileRevision : string; cir_ExpectedTTL : Duration; cir_CredentialExpiresAt : Time
}.

Record DurableDynamicIssueRequest := {
  dyr_RevocationID : string; dyr_ProfileRevision : string; dyr_CredentialExpiresAt : Time
}.

Record DurableDynamicSecret := { dyn_Secret : string; dyn_ExpiresAt : Time }.

(** ** Handles and the heap they point into *)

Inductive preparedDurableCredentialPhase :=
| preparedDurableCredentialReady
| preparedDurableCredentialIssuing
| preparedDurableCredentialNoCredential.

#[export] Instance preparedDurableCredentialPhase_eq_dec : EqDecision preparedDurableCredentialPhase.
Proof. solve_decision. Defined.

Record consumedPreparedCredential := {
  cpc_request : PrepareDurableCredentialRequest; cpc_resolved : ResolvedDurableIssuer; cpc_prepared : Revocation;
  cpc_permit : ChildCreatePermit; cpc_revocationID : string; cpc_expiresAt : Time
}.

(** The state behind a prepared handle: its phase, and its content until that is consumed.
    [ps_broker] is the broker that made it. *)
Record preparedDurableCredentialState := {
  ps_broker : Z; ps_phase : preparedDurableCredentialPhase; ps_content : consumedPreparedCredential
}.

(** What consuming leaves of the content: the identifiers. *)
Definition DurableIssuerResolveRequest_zero : DurableIssuerResolveRequest :=
  {| dir_TenantID := ""; dir_WorkspaceID := ""; dir_EnvironmentID := ""; dir_Production := false;
     dir_ActionType := ""; dir_ConnectorID := ""; dir_Permission := ""; dir_Resource := "" |}.

Definition PrepareDurableCredentialRequest_zero : PrepareDurableCredentialRequest :=
  {| pdr_Fence := ActionFence_zero; pdr_Selection := DurableIssuerResolveRequest_zero; pdr_RequestedTTL := 0;
     pdr_PolicyExpiresAt := Time_zero |}.

Definition ResolvedDurableIssuer_zero : ResolvedDurableIssuer :=
  {| rdi_Profile := {| dip_IssuerID := ""; dip_Revision := ""; dip_CredentialTTL := 0 |}; rdi_Issuer := None |}.

Definition Revocation_zero : Revocation :=
  {| rev_ID := ""; rev_TenantID := ""; rev_WorkspaceID := ""; rev_EnvironmentID := ""; rev_ActionID := "";
     rev_TargetKey := ""; rev_Production := false; rev_RunnerID := ""; rev_ActionLeaseEpoch := 0; rev_Issuer := "";
     rev_IssuerRevision := ""; rev_ActionType := ""; rev_ConnectorID := ""; rev_Permission := ""; rev_Resource := "";
     rev_CredentialTTLSeconds := 0; rev_CredentialExpiresAt := Time_zero; rev_Status := RevocationStatusOther "";
     rev_AccessorPresent := false; rev_AccessorHMAC := ""; rev_EncryptionKeyID := ""; rev_ClaimEpoch := 0;
     rev_ClaimedBy := ""; rev_ClaimedAt := Time_zero; rev_ClaimExpiresAt := Time_zero;
     rev_LastHeartbeatAt := Time_zero; rev_Attempt := 0; rev_FailureCount := 0; rev_FailureCode := FailureCodeOther "";
     rev_FailureDetailSHA256 := ""; rev_AvailableAt := Time_zero; rev_EvidenceHash := ""; rev_CreatedAt := Time_zero;
     rev_UpdatedAt := Time_zero; rev_AnchoredAt := Time_zero; rev_ActivatedAt := Time_zero;
     rev_RevocationRequestedAt := Time_zero; rev_ManualRequiredAt := Time_zero; rev_RevokedAt := Time_zero;
     rev_Version := 0 |}.

(** The state behind a credential handle.  [dcs_flight] names the caller whose request is on
    its way. *)
Record durableCredentialState := {
  dcs_broker : Z; dcs_revocationID : string; dcs_expiresAt : Time; dcs_secret : string;
  dcs_activeSnapshot : Revocation; dcs_flight : option nat; dcs_result : option Revocation
}.

(** A pointer that is not in the heap is nil. *)
Record Heap := {
  hp_next : Z; hp_prepared : gmap Z preparedDurableCredentialState; hp_credentials : gmap Z durableCredentialState
}.

Definition Heap_empty : Heap := {| hp_next := 1; hp_prepared := ∅; hp_credentials := ∅ |}.

(** The handle [Prepare] returns. *)
Definition newPrepared (broker : Z) (content : consumedPreparedCredential) (heap : Heap)
    : PreparedDurableCredential * Heap :=
  ({| pdc_revocationID := cpc_revocationID content; pdc_state := hp_next heap |},
   {| hp_next := hp_next heap + 1;
      hp_prepared := <[hp_next heap :=
        {| ps_broker := broker; ps_phase := preparedDurableCredentialReady; ps_content := content |}]> (hp_prepared heap);
      hp_credentials := hp_credentials heap |}).

Definition newDurableCredential (broker : Z) (revocation : Revocation) (dynamic : DurableDynamicSecret) (heap : Heap)
    : DurableCredential * Heap :=
  ({| dc_revocationID := rev_ID revocation; dc_expiresAt := dyn_ExpiresAt dynamic; dc_state := hp_next heap |},
   {| hp_next := hp_next heap + 1; hp_prepared := hp_prepared heap;
      hp_credentials := <[hp_next heap :=
        {| dcs_broker := broker; dcs_revocationID := rev_ID revocation; dcs_expiresAt := dyn_ExpiresAt dynamic;
           dcs_secret := dyn_Secret dynamic; dcs_activeSnapshot := revocation; dcs_flight := None;
           dcs_result := None |}]> (hp_credentials heap) |}).

(** ** Validators *)

Definition validDurableSelection (request : DurableIssuerResolveRequest) : bool :=
  negb (dir_Production request) && ValidIdentifier (dir_TenantID request) 256 &&
  ValidIdentifier (dir_WorkspaceID request) 256 && ValidIdentifier (dir_EnvironmentID request) 256 &&
  ValidIdentifier (dir_ActionType request) 256 && ValidIdentifier (dir_ConnectorID request) 256 &&
  ValidIdentifier (dir_Permission request) 256 && ValidIdentifier (dir_Resource request) 256.

Definition validDurableCredentialWindow (request : PrepareDurableCredentialRequest) : bool :=
  (ChildCreateExpiryReserve + MinChildCreateTTL <=? pdr_RequestedTTL request) &&
  (pdr_RequestedTTL request <=? MaxCredentialTTL) && (Z.rem (pdr_RequestedTTL request) VaultTTLQuantum =? 0) &&
  negb (IsZero (pdr_PolicyExpiresAt request)).

Definition durableCredentialExpiry (now : Time) (request : PrepareDurableCredentialRequest)
    (profile : DurableIssuerProfile) : option Time :=
  if IsZero now || negb (validDurableCredentialWindow request) then None
  else
    let expiresAt := Add now (dip_CredentialTTL profile) in
    let requested := Add now (pdr_RequestedTTL request) in
    let expiresAt := if Before requested expiresAt then requested else expiresAt in
    let policy := pdr_PolicyExpiresAt request in
    let expiresAt := if Before policy expiresAt then policy else expiresAt in
    let expiresAt := CanonicalCredentialExpiry expiresAt in
    let minimum := Add now (ChildCreateExpiryReserve + MinChildCreateTTL) in
    if Before expiresAt minimum then None else Some expiresAt.

Definition validDurableResolution (resolved : ResolvedDurableIssuer) : bool :=
  let profile := rdi_Profile resolved in
  match rdi_Issuer resolved with
  | None => false
  | Some issuer =>
      ValidIdentifier (dip_IssuerID profile) 256 && ValidIdentifier (dip_Revision profile) 256 &&
      (ChildCreateExpiryReserve + MinChildCreateTTL <=? dip_CredentialTTL profile) &&
      (dip_CredentialTTL profile <=? MaxCredentialTTL) && (Z.rem (dip_CredentialTTL profile) VaultTTLQuantum =? 0) &&
      (issuer_IssuerID issuer == dip_IssuerID profile) && (issuer_IssuerRevision issuer == dip_Revision profile)
  end.

(** [int32(request.RequestedTTL/time.Second)] *)
Definition wrap32 (n : Z) : Z := (n + 2 ^ 31) mod 2 ^ 32 - 2 ^ 31.

Definition validFrozenRevocation (revocation : Revocation) (revocationID : string)
    (request : PrepareDurableCredentialRequest) (profile : DurableIssuerProfile) (expiresAt : Time)
    (status : RevocationStatus) (accessorPresent : bool) : bool :=
  let selection := pdr_Selection request in
  if (rev_ID revocation != revocationID) || (rev_TenantID revocation != dir_TenantID selection) ||
     (rev_WorkspaceID revocation != dir_WorkspaceID selection) ||
     (rev_EnvironmentID revocation != dir_EnvironmentID selection) ||
     (rev_ActionID revocation != af_ActionID (pdr_Fence request)) ||
     (rev_Production revocation != dir_Production selection) ||
     (rev_RunnerID revocation != af_RunnerID (pdr_Fence request)) ||
     (rev_ActionLeaseEpoch revocation != af_Epoch (pdr_Fence request)) ||
     (rev_Issuer revocation != dip_IssuerID profile) || (rev_IssuerRevision revocation != dip_Revision profile) ||
     (rev_ActionType revocation != dir_ActionType selection) ||
     (rev_ConnectorID revocation != dir_ConnectorID selection) ||
     (rev_Permission revocation != dir_Permission selection) || (rev_Resource revocation != dir_Resource selection) ||
     (rev_CredentialTTLSeconds revocation != wrap32 (Z.quot (pdr_RequestedTTL request) Second)) ||
     (rev_CredentialExpiresAt revocation != expiresAt) || (rev_Status revocation != status) ||
     (rev_AccessorPresent revocation != accessorPresent) || negb (ValidIdentifier (rev_TenantID revocation) 256) ||
     negb (ValidOpaqueText (rev_TargetKey revocation) 1024) || (rev_Version revocation <? 1) ||
     IsZero (rev_CreatedAt revocation) || Before (rev_UpdatedAt revocation) (rev_CreatedAt revocation) ||
     IsZero (rev_AvailableAt revocation) ||
     (rev_CredentialExpiresAt revocation != CanonicalCredentialExpiry (rev_CredentialExpiresAt revocation))
  then false
  else
    match status with
    | StatusPrepared | StatusNoCredential => IsZero (rev_AnchoredAt revocation) && IsZero (rev_ActivatedAt revocation)
    | StatusAnchored =>
        negb (IsZero (rev_AnchoredAt revocation)) && IsZero (rev_ActivatedAt revocation) &&
        negb (Before (rev_UpdatedAt revocation) (rev_AnchoredAt revocation))
    | StatusActive =>
        negb (IsZero (rev_AnchoredAt revocation)) && negb (IsZero (rev_ActivatedAt revocation)) &&
        negb (Before (rev_ActivatedAt revocation) (rev_AnchoredAt revocation)) &&
        negb (Before (rev_UpdatedAt revocation) (rev_ActivatedAt revocation))
    | _ => false
    end.

Definition sameDurableFrozenRevocation (left right : Revocation) : bool :=
  (rev_ID left == rev_ID right) && (rev_TenantID left == rev_TenantID right) &&
  (rev_WorkspaceID left == rev_WorkspaceID right) && (rev_EnvironmentID left == rev_EnvironmentID right) &&
  (rev_ActionID left == rev_ActionID right) && (rev_TargetKey left == rev_TargetKey right) &&
  (rev_Production left == rev_Production right) && (rev_RunnerID left == rev_RunnerID right) &&
  (rev_ActionLeaseEpoch left == rev_ActionLeaseEpoch right) && (rev_Issuer left == rev_Issuer right) &&
  (rev_IssuerRevision left == rev_IssuerRevision right) && (rev_ActionType left == rev_ActionType right) &&
  (rev_ConnectorID left == rev_ConnectorID right) && (rev_Permission left == rev_Permission right) &&
  (rev_Resource left == rev_Resource right) && (rev_CredentialTTLSeconds left == rev_CredentialTTLSeconds right) &&
  (rev_CredentialExpiresAt left == rev_CredentialExpiresAt right) && (rev_CreatedAt left == rev_CreatedAt right).

Definition validPreparedResult (result : PrepareResult) (revocationID : string)
    (request : PrepareDurableCredentialRequest) (profile : DurableIssuerProfile) (expiresAt : Time) : bool :=
  (rev_Version (pr_Revocation result) =? 1) &&
  match pr_Permit result with
  | None => false
  | Some permit => (permit_RevocationID permit == revocationID) && ValidOpaqueText (permit_Token permit) 4096
  end &&
  validFrozenRevocation (pr_Revocation result) revocationID request profile expiresAt StatusPrepared false.

Definition validChildCreateAuthorization (authorization : ChildCreateAuthorization) (prepared : Revocation)
    (revocationID : string) (request : PrepareDurableCredentialRequest) (profile : DurableIssuerProfile)
    (expiresAt : Time) : bool :=
  let revocation := cca_Revocation authorization in
  validFrozenRevocation revocation revocationID request profile expiresAt StatusPrepared false &&
  sameDurableFrozenRevocation revocation prepared && (rev_Version revocation =? rev_Version prepared + 1) &&
  negb (IsZero (cca_DatabaseAuthorizedAt authorization)) && (cca_CredentialExpiresAt authorization == expiresAt) &&
  negb (Before (rev_UpdatedAt revocation) (cca_DatabaseAuthorizedAt authorization)) &&
  (MinChildCreateTTL <=? cca_TTL authorization) && (cca_TTL authorization <=? MaxCredentialTTL) &&
  (Z.rem (cca_TTL authorization) VaultTTLQuantum =? 0) &&
  (cca_VaultCallBudget authorization =? ChildCreateVaultCallBudget) &&
  negb (After (Add (cca_DatabaseAuthorizedAt authorization) (cca_TTL authorization + ChildCreateExpiryReserve)) expiresAt).

Definition validDurableChild (child : DurableChild) (authorization : ChildCreateAuthorization) : bool :=
  (0 <? len (child_Token child)) && negb (IsZero (child_ExpiresAt child)) &&
  (child_ExpiresAt child == CanonicalCredentialExpiry (child_ExpiresAt child)) &&
  After (child_ExpiresAt child) (cca_DatabaseAuthorizedAt authorization) &&
  negb (After (child_ExpiresAt child) (cca_CredentialExpiresAt authorization)).

Definition validAnchoredResult (revocation authorized : Revocation) (revocationID : string)
    (request : PrepareDurableCredentialRequest) (profile : DurableIssuerProfile) (expiresAt : Time) : bool :=
  validFrozenRevocation revocation revocationID request profile expiresAt StatusAnchored true &&
  sameDurableFrozenRevocation revocation authorized && (rev_Version revocation =? rev_Version authorized + 1).

Definition validActiveResult (revocation anchored : Revocation) (revocationID : string)
    (request : PrepareDurableCredentialRequest) (profile : DurableIssuerProfile) (expiresAt : Time) : bool :=
  validFrozenRevocation revocation revocationID request profile expiresAt StatusActive true &&
  sameDurableFrozenRevocation revocation anchored && (rev_Version revocation =? rev_Version anchored + 1).

Definition validNoCredentialResult (revocation : Revocation) (prepared : consumedPreparedCredential) : bool :=
  validFrozenRevocation revocation (cpc_revocationID prepared) (cpc_request prepared)
    (rdi_Profile (cpc_resolved prepared)) (cpc_expiresAt prepared) StatusNoCredential false &&
  sameDurableFrozenRevocation revocation (cpc_prepared prepared) &&
  (rev_Version revocation =? rev_Version (cpc_prepared prepared) + 1).

Definition validRequestedRevocation (revocation : Revocation) (state : durableCredentialState) : bool :=
  if (rev_ID revocation != dcs_revocationID state) ||
     negb (sameDurableFrozenRevocation revocation (dcs_activeSnapshot state)) ||
     (rev_Version revocation <=? rev_Version (dcs_activeSnapshot state))
  then false
  else
    match rev_Status revocation with
    | StatusRevocationPending | StatusRevoking =>
        rev_AccessorPresent revocation && negb (IsZero (rev_RevocationRequestedAt revocation)) &&
        negb (Before (rev_UpdatedAt revocation) (rev_RevocationRequestedAt revocation))
    | StatusManualRequired =>
        rev_AccessorPresent revocation && negb (IsZero (rev_RevocationRequestedAt revocation)) &&
        negb (IsZero (rev_ManualRequiredAt revocation)) &&
        negb (Before (rev_UpdatedAt revocation) (rev_ManualRequiredAt revocation))
    | StatusRevoked =>
        negb (rev_AccessorPresent revocation) && negb (IsZero (rev_RevocationRequestedAt revocation)) &&
        negb (IsZero (rev_RevokedAt revocation)) &&
        negb (Before (rev_UpdatedAt revocation) (rev_RevokedAt revocation))
    | _ => false
    end.

(** For the material [Bytes] returns and a reading [now] of the broker's clock. *)
Definition validDynamicSecret (now : Time) (secret : DurableDynamicSecret) (authorization : ChildCreateAuthorization)
    (childExpiresAt : Time) : bool :=
  (0 <? len (dyn_Secret secret)) && negb (IsZero now) && negb (IsZero (dyn_ExpiresAt secret)) &&
  (dyn_ExpiresAt secret == CanonicalCredentialExpiry (dyn_ExpiresAt secret)) && After (dyn_ExpiresAt secret) now &&
  negb (After (dyn_ExpiresAt secret) childExpiresAt) &&
  negb (After (dyn_ExpiresAt secret) (cca_CredentialExpiresAt authorization)).

Definition durableIssuanceError (operation : string) : GoError := Errorf operation ErrDurableCredentialIssuance.

(** ** Consuming a prepared handle *)

Definition clearedContent (content : consumedPreparedCredential) : consumedPreparedCredential :=
  {| cpc_request := PrepareDurableCredentialRequest_zero; cpc_resolved := ResolvedDurableIssuer_zero;
     cpc_prepared := Revocation_zero;
     cpc_permit := {| permit_RevocationID := permit_RevocationID (cpc_permit content); permit_Token := "" |};
     cpc_revocationID := cpc_revocationID content; cpc_expiresAt := Time_zero |}.

(** The check under the handle's mutex; [broker] is nil or the broker that is asked. *)
Definition consumable (broker : Z) (prepared : PreparedDurableCredential) (state : preparedDurableCredentialState) : bool :=
  let content := ps_content state in
  negb ((ps_broker state != broker) || (ps_phase state != preparedDurableCredentialReady) ||
        (pdc_revocationID prepared != cpc_revocationID content) ||
        (rev_ID (cpc_prepared content) != cpc_revocationID content) ||
        (permit_RevocationID (cpc_permit content) != cpc_revocationID content) ||
        negb (ValidOpaqueText (permit_Token (cpc_permit content)) 4096) ||
        IsZero (cpc_expiresAt content) || negb (validDurableResolution (cpc_resolved content))).

Definition consumePrepared (broker : option Z) (prepared : PreparedDurableCredential)
    (phase : preparedDurableCredentialPhase) (heap : Heap) : Result consumedPreparedCredential * Heap :=
  match broker, hp_prepared heap !! pdc_state prepared with
  | Some broker, Some state =>
      if consumable broker prepared state then
        (Ok (ps_content state),
         {| hp_next := hp_next heap;
            hp_prepared := <[pdc_state prepared :=
              {| ps_broker := ps_broker state; ps_phase := phase; ps_content := clearedContent (ps_content state) |}]>
              (hp_prepared heap);
            hp_credentials := hp_credentials heap |})
      else (Err ErrDurableCredentialState, heap)
  | _, _ => (Err ErrDurableCredentialState, heap)
  end.

(** What other callers do to the heap: they prepare, consume, receive and destroy handles. *)
Inductive HeapStep :=
| StepPrepare (broker : Z) (content : consumedPreparedCredential)
| StepConsume (broker : option Z) (prepared : PreparedDurableCredential) (issuing : bool)
| StepIssue (broker : Z) (revocation : Revocation) (dynamic : DurableDynamicSecret)
| StepDestroy (credential : DurableCredential).

Definition destroySecret (credential : DurableCredential) (heap : Heap) : Heap :=
  match hp_credentials heap !! dc_state credential with
  | None => heap
  | Some state =>
      {| hp_next := hp_next heap; hp_prepared := hp_prepared heap;
         hp_credentials := <[dc_state credential := {| state with dcs_secret := "" |}]> (hp_credentials heap) |}
  end.

Definition heapStep (step : HeapStep) (heap : Heap) : Heap :=
  match step with
  | StepPrepare broker content => (newPrepared broker content heap).2
  | StepConsume broker prepared issuing =>
      let phase := if issuing then preparedDurableCredentialIssuing else preparedDurableCredentialNoCredential in
      (consumePrepared broker prepared phase heap).2
  | StepIssue broker revocation dynamic => (newDurableCredential broker revocation dynamic heap).2
  | StepDestroy credential => destroySecret credential heap
  end.

(** ** Calls *)

(** The secrets the broker destroys. *)
Inductive Material := ChildToken | ChildAccessor | DynamicSecret.

Inductive Event :=
| EvResolve (selection : DurableIssuerResolveRequest) (answer : Result ResolvedDurableIssuer)
| EvPrepare (request : PrepareRequest) (answer : Result PrepareResult)
| EvAuthorize (request : AuthorizeChildCreateRequest) (answer : Result ChildCreateAuthorization)
| EvRecordAnchor (request : RecordAnchorRequest) (answer : Result Revocation)
| EvActivate (request : ActionTransitionRequest) (answer : Result Revocation)
| EvRecordNoCredential (request : ActionTransitionRequest) (answer : Result Revocation)
| EvRequestRevocation (request : ActionTransitionRequest) (answer : Result Revocation)
| EvValidateManager (issuer : option DurableIssuer) (answer : Result unit)
| EvCreateChild (issuer : option DurableIssuer) (request : DurableChildCreateRequest)
    (child : DurableChild) (err : option GoError)
| EvInspectChild (issuer : option DurableIssuer) (accessor : SensitiveReference)
    (request : DurableChildInspectionRequest) (answer : Result unit)
| EvIssueDynamic (issuer : option DurableIssuer) (token : string) (request : DurableDynamicIssueRequest)
    (secret : DurableDynamicSecret) (err : option GoError)
| EvFinalizeContext (granted : bool)
| EvDestroy (material : Material).

(** What a context answers: its deadline and whether that has a monotonic reading, whether
    it has a done channel, and its error. *)
Record ContextView := {
  cv_Deadline : option Time; cv_monotonic : bool; cv_Done : bool; cv_Err : option GoError
}.

(** What a source of bounded contexts returns: a context or nil, and whether there is a
    function to cancel it. *)
Record Candidate := { cand_context : option ContextView; cand_cancel : bool }.

Record Environment (W : Type) := {
  on_Clock : W -> Time * W;
  on_TimeNow : W -> Time * W;
  on_CtxErr : W -> option GoError * W;
  on_UUID : W -> Result string * W;
  on_TimeoutSource : Duration -> W -> Candidate * W;
  on_FinalizeSource : Duration -> W -> Candidate * W;
  on_WithTimeout : Duration -> W -> Candidate * W;
  on_BoundedErr : W -> option GoError * W;
  on_Others : W -> list HeapStep * W;
  on_Resolve : DurableIssuerResolveRequest -> W -> Result ResolvedDurableIssuer * W;
  on_Prepare : PrepareRequest -> W -> Result PrepareResult * W;
  on_Authorize : AuthorizeChildCreateRequest -> W -> Result ChildCreateAuthorization * W;
  on_RecordAnchor : RecordAnchorRequest -> W -> Result Revocation * W;
  on_Activate : ActionTransitionRequest -> W -> Result Revocation * W;
  on_RecordNoCredential : ActionTransitionRequest -> W -> Result Revocation * W;
  on_RequestRevocation : ActionTransitionRequest -> W -> Result Revocation * W;
  on_ValidateManager : option DurableIssuer -> W -> Result unit * W;
  on_CreateChild : option DurableIssuer -> DurableChildCreateRequest -> W -> (DurableChild * option GoError) * W;
  on_InspectChild : option DurableIssuer -> SensitiveReference -> DurableChildInspectionRequest -> W -> Result unit * W;
  on_IssueDynamic : option DurableIssuer -> string -> DurableDynamicIssueRequest -> W ->
    (DurableDynamicSecret * option GoError) * W
}.
Arguments on_Clock {W}.
Arguments on_TimeNow {W}.
Arguments on_CtxErr {W}.
Arguments on_UUID {W}.
Arguments on_TimeoutSource {W}.
Arguments on_FinalizeSource {W}.
Arguments on_WithTimeout {W}.
Arguments on_BoundedErr {W}.
Arguments on_Others {W}.
Arguments on_Resolve {W}.
Arguments on_Prepare {W}.
Arguments on_Authorize {W}.
Arguments on_RecordAnchor {W}.
Arguments on_Activate {W}.
Arguments on_RecordNoCredential {W}.
Arguments on_RequestRevocation {W}.
Arguments on_ValidateManager {W}.
Arguments on_CreateChild {W}.
Arguments on_InspectChild {W}.
Arguments on_IssueDynamic {W}.

(** ** Bounded contexts *)

(** [newBoundedContext] for three readings of [time.Now] and the error of the context it
    derives: the deadline of that context.  [context.WithDeadline] keeps an earlier deadline
    of its parent. *)
Definition newBoundedContext (candidate : Candidate) (maximum : Duration) (startedAt observedAt : Time)
    (boundedErr : option GoError) (now : Time) : option Time :=
  if maximum <=? 0 then None
  else
    match cand_context candidate, cand_cancel candidate with
    | Some view, true =>
        match cv_Deadline view with
        | None => None
        | Some deadline =>
            if negb (cv_Done view) || (if cv_Err view is Some _ then true else false) || negb (cv_monotonic view) ||
               negb (After deadline observedAt) || (maximum <? Sub deadline observedAt)
            then None
            else
              let hardDeadline := Add startedAt maximum in
              let boundedDeadline := if Before deadline hardDeadline then deadline else hardDeadline in
              if (if boundedErr is Some _ then true else false) || negb (After boundedDeadline now) ||
                 After boundedDeadline hardDeadline
              then None else Some boundedDeadline
        end
    | _, _ => None
    end.

(** A context argument. *)
Inductive Context := NilContext | SomeContext.

Section broker.
Context {W : Type} (env : Environment W).
Let Prog := Talk Heap Event W.

Definition others : Prog unit :=
  steps ← consult (on_Others env); atomically (fun heap => (tt, foldl (fun heap step => heapStep step heap) heap steps)).

Definition boundedContext (source : Duration -> W -> Candidate * W) (maximum : Duration) : Prog (option Time) :=
  startedAt ← consult (on_TimeNow env);
  candidate ← consult (source maximum);
  observedAt ← consult (on_TimeNow env);
  boundedErr ← consult (on_BoundedErr env);
  now ← consult (on_TimeNow env);
  mret (newBoundedContext candidate maximum startedAt observedAt boundedErr now).

Definition preflightFinalizeContext : Prog bool :=
  bounded ← boundedContext (on_FinalizeSource env) PostDispatchPersistenceTimeout;
  mret (if bounded is Some _ then true else false).

(** The injected source, and [context.WithTimeout] when that fails. *)
Definition newFinalizeContext : Prog bool :=
  bounded ← boundedContext (on_FinalizeSource env) PostDispatchPersistenceTimeout;
  bounded ← match bounded with
            | Some deadline => mret (Some deadline)
            | None => boundedContext (on_WithTimeout env) PostDispatchPersistenceTimeout
            end;
  let granted := if bounded is Some _ then true else false in
  note (EvFinalizeContext granted);;
  mret granted.

(** ** Prepare *)

Definition prepareRequest (revocationID : string) (request : PrepareDurableCredentialRequest)
    (profile : DurableIssuerProfile) (expiresAt : Time) : PrepareRequest :=
  {| prep_RevocationID := revocationID; prep_Fence := pdr_Fence request; prep_Issuer := dip_IssuerID profile;
     prep_IssuerRevision := dip_Revision profile; prep_CredentialExpiresAt := expiresAt |}.

(** The call of the repository, and the election of one creator. *)
Definition Prepare_record (broker : Z) (request : PrepareDurableCredentialRequest) (resolved : ResolvedDurableIssuer)
    (revocationID : string) (credentialExpiresAt : Time) : Prog (Result PreparedDurableCredential) :=
  let profile := rdi_Profile resolved in
  let prepare := prepareRequest revocationID request profile credentialExpiresAt in
  answer ← exchange (on_Prepare env prepare) (EvPrepare prepare);
  match answer with
  | Err _ => mret (Err (durableIssuanceError "prepare revocation"))
  | Ok prepared =>
  match pr_Created prepared, pr_Permit prepared with
  | true, Some permit =>
      unless (validPreparedResult prepared revocationID request profile credentialExpiresAt)
        (durableIssuanceError "validate prepared revocation") (
      others;;
      handle ← atomically (newPrepared broker
        {| cpc_request := request; cpc_resolved := resolved; cpc_prepared := pr_Revocation prepared; cpc_permit := permit;
           cpc_revocationID := revocationID; cpc_expiresAt := credentialExpiresAt |});
      mret (Ok handle))
  | _, _ => mret (Err (durableIssuanceError "prepare creator election"))
  end
  end.

Definition Prepare (broker : option Z) (ctx : Context) (request : PrepareDurableCredentialRequest)
    : Prog (Result PreparedDurableCredential) :=
  match broker, ctx with
  | Some broker, SomeContext =>
      err ← consult (on_CtxErr env);
      unless (negb ((if err is Some _ then true else false) || negb (validActionFence (pdr_Fence request)) ||
                    negb (validDurableSelection (pdr_Selection request)) || negb (validDurableCredentialWindow request)))
        ErrInvalidDurableCredentialRequest (
      answer ← exchange (on_Resolve env (pdr_Selection request)) (EvResolve (pdr_Selection request));
      match answer with
      | Err _ => mret (Err (durableIssuanceError "resolve issuer"))
      | Ok resolved =>
      unless (validDurableResolution resolved) (durableIssuanceError "resolve issuer") (
      preflight ← preflightFinalizeContext;
      unless preflight (durableIssuanceError "validate post-dispatch persistence context") (
      uuid ← consult (on_UUID env);
      match uuid with
      | Err _ => mret (Err (durableIssuanceError "allocate revocation identifier"))
      | Ok revocationID =>
      unless (ValidRevocationID revocationID) (durableIssuanceError "allocate revocation identifier") (
      now ← consult (on_Clock env);
      unless (negb (IsZero now)) (durableIssuanceError "observe credential deadline") (
      match durableCredentialExpiry now request (rdi_Profile resolved) with
      | None => mret (Err ErrInvalidDurableCredentialRequest)
      | Some credentialExpiresAt => Prepare_record broker request resolved revocationID credentialExpiresAt
      end))
      end))
      end)
  | _, _ => mret (Err ErrInvalidDurableCredentialRequest)
  end.

(** ** Issue *)

Definition persistRevocationIntent (revocationID : string) : Prog bool :=
  granted ← newFinalizeContext;
  if granted : bool then
    let request := {| transition_RevocationID := revocationID; transition_Fence := ActionFence_zero |} in
    answer ← exchange (on_RequestRevocation env request) (EvRequestRevocation request);
    mret (if answer is Ok _ then true else false)
  else mret false.

(** The end of every failure after the child was dispatched: destroy what is still held,
    persist the intent to revoke. *)
Definition abandon {A} (materials : list Material) (revocationID operation : string) : Prog (Result A) :=
  foldr (fun material p => note (EvDestroy material);; p) (mret tt) materials;;
  persistRevocationIntent revocationID;;
  mret (Err (durableIssuanceError operation)).

(** What a stage of [Issue] knows. *)
Record Issuing := {
  iss_broker : Z; iss_prepared : consumedPreparedCredential; iss_authorized : ChildCreateAuthorization;
  iss_child : DurableChild
}.

Definition iss_id (issuing : Issuing) : string := cpc_revocationID (iss_prepared issuing).
Definition iss_profile (issuing : Issuing) : DurableIssuerProfile := rdi_Profile (cpc_resolved (iss_prepared issuing)).
Definition iss_issuer (issuing : Issuing) : option DurableIssuer := rdi_Issuer (cpc_resolved (iss_prepared issuing)).

(** From the dynamic secret to the handle. *)
Definition Issue_activate (issuing : Issuing) (anchored : Revocation) (dynamic : DurableDynamicSecret)
    : Prog (Result DurableCredential) :=
  let id := iss_id issuing in
  let request := cpc_request (iss_prepared issuing) in
  granted ← newFinalizeContext;
  if negb granted then abandon [DynamicSecret] id "create bounded activation context" else
  let transition := {| transition_RevocationID := id; transition_Fence := pdr_Fence request |} in
  answer ← exchange (on_Activate env transition) (EvActivate transition);
  match answer with
  | Err _ => abandon [DynamicSecret] id "activate credential"
  | Ok activated =>
  if negb (validActiveResult activated anchored id request (iss_profile issuing) (cpc_expiresAt (iss_prepared issuing)))
  then abandon [DynamicSecret] id "activate credential" else
  err ← consult (on_CtxErr env);
  match err with
  | Some _ => abandon [DynamicSecret] id "caller canceled before credential handoff"
  | None =>
      others;;
      handle ← atomically (newDurableCredential (iss_broker issuing) activated dynamic);
      mret (Ok handle)
  end end.

(** From the anchored child to the dynamic secret. *)
Definition Issue_dynamic (issuing : Issuing) (anchored : Revocation) : Prog (Result DurableCredential) :=
  let id := iss_id issuing in
  let child := iss_child issuing in
  let expiresAt := cpc_expiresAt (iss_prepared issuing) in
  let request := {| dyr_RevocationID := id; dyr_ProfileRevision := dip_Revision (iss_profile issuing);
                    dyr_CredentialExpiresAt := expiresAt |} in
  issued ← exchange (on_IssueDynamic env (iss_issuer issuing) (child_Token child) request)
             (fun answer => EvIssueDynamic (iss_issuer issuing) (child_Token child) request answer.1 answer.2);
  let '(dynamic, issueErr) := issued in
  note (EvDestroy ChildToken);;
  now ← consult (on_Clock env);
  if (if issueErr is Some _ then true else false) ||
     negb (validDynamicSecret now dynamic (iss_authorized issuing) (child_ExpiresAt child))
  then abandon [DynamicSecret] id "issue dynamic credential" else
  err ← consult (on_CtxErr env);
  match err with
  | Some _ => abandon [DynamicSecret] id "caller canceled after dynamic credential"
  | None => Issue_activate issuing anchored dynamic
  end.

(** From the anchor to the inspected child. *)
Definition Issue_inspect (issuing : Issuing) (createErr : option GoError) (anchored : Revocation)
    : Prog (Result DurableCredential) :=
  let id := iss_id issuing in
  let prepared := iss_prepared issuing in
  let child := iss_child issuing in
  if negb (validAnchoredResult anchored (cca_Revocation (iss_authorized issuing)) id (cpc_request prepared)
             (iss_profile issuing) (cpc_expiresAt prepared))
  then abandon [ChildToken; ChildAccessor] id "validate anchored revocation" else
  err ← consult (on_CtxErr env);
  match err with
  | Some _ => abandon [ChildToken; ChildAccessor] id "caller canceled after child dispatch"
  | None =>
  if (if createErr is Some _ then true else false) || negb (validDurableChild child (iss_authorized issuing))
  then abandon [ChildToken; ChildAccessor] id "validate child credential" else
  let request := {| cir_RevocationID := id; cir_ProfileRevision := dip_Revision (iss_profile issuing);
                    cir_ExpectedTTL := cca_TTL (iss_authorized issuing); cir_CredentialExpiresAt := cpc_expiresAt prepared |} in
  answer ← exchange (on_InspectChild env (iss_issuer issuing) (child_Accessor child) request)
             (EvInspectChild (iss_issuer issuing) (child_Accessor child) request);
  match answer with
  | Err _ => abandon [ChildToken; ChildAccessor] id "inspect child accessor"
  | Ok _ =>
      note (EvDestroy ChildAccessor);;
      err ← consult (on_CtxErr env);
      match err with
      | Some _ => abandon [ChildToken] id "caller canceled after child inspection"
      | None => Issue_dynamic issuing anchored
      end
  end end.

(** From the child to its anchor, with the deferred destruction of the accessor. *)
Definition Issue_anchor (issuing : Issuing) (createErr : option GoError) : Prog (Result DurableCredential) :=
  let id := iss_id issuing in
  let child := iss_child issuing in
  granted ← newFinalizeContext;
  result ← (if negb granted then
              note (EvDestroy ChildToken);; note (EvDestroy ChildAccessor);;
              mret (Err (durableIssuanceError "create bounded anchor context"))
            else
              let request := {| anchor_RevocationID := id; anchor_Fence := pdr_Fence (cpc_request (iss_prepared issuing));
                                anchor_Accessor := child_Accessor child |} in
              answer ← exchange (on_RecordAnchor env request) (EvRecordAnchor request);
              match answer with
              | Err _ => abandon [ChildToken; ChildAccessor] id "anchor child accessor"
              | Ok anchored => Issue_inspect issuing createErr anchored
              end);
  note (EvDestroy ChildAccessor);;
  mret result.

(** The creation of the child, with the deferred destruction of its token. *)
Definition Issue_child (broker : Z) (prepared : consumedPreparedCredential) (authorized : ChildCreateAuthorization)
    : Prog (Result DurableCredential) :=
  let resolved := cpc_resolved prepared in
  let request := {| ccr_RevocationID := cpc_revocationID prepared;
                    ccr_ProfileRevision := dip_Revision (rdi_Profile resolved);
                    ccr_DatabaseAuthorizedAt := cca_DatabaseAuthorizedAt authorized; ccr_TTL := cca_TTL authorized;
                    ccr_CredentialExpiresAt := cpc_expiresAt prepared |} in
  created ← exchange (on_CreateChild env (rdi_Issuer resolved) request)
              (fun answer => EvCreateChild (rdi_Issuer resolved) request answer.1 answer.2);
  let '(child, createErr) := created in
  result ← match child_Accessor child with
           | None => mret (Err (durableIssuanceError "create child without durable accessor"))
           | Some _ =>
               Issue_anchor {| iss_broker := broker; iss_prepared := prepared; iss_authorized := authorized;
                               iss_child := child |} createErr
           end;
  note (EvDestroy ChildToken);;
  mret result.

(** The authorisation of the child. *)
Definition Issue_authorize (broker : Z) (prepared : consumedPreparedCredential) : Prog (Result DurableCredential) :=
  let resolved := cpc_resolved prepared in
  manager ← exchange (on_ValidateManager env (rdi_Issuer resolved)) (EvValidateManager (rdi_Issuer resolved));
  match manager with
  | Err _ => mret (Err (durableIssuanceError "validate manager"))
  | Ok _ =>
  createCtx ← boundedContext (on_TimeoutSource env) ChildCreateVaultCallBudget;
  match createCtx with
  | None => mret (Err (durableIssuanceError "create bounded issuer context"))
  | Some _ =>
  let request := {| auth_Permit := cpc_permit prepared; auth_Fence := pdr_Fence (cpc_request prepared) |} in
  answer ← exchange (on_Authorize env request) (EvAuthorize request);
  match answer with
  | Err _ => mret (Err (durableIssuanceError "authorize child creation"))
  | Ok authorized =>
      unless (validChildCreateAuthorization authorized (cpc_prepared prepared) (cpc_revocationID prepared)
                (cpc_request prepared) (rdi_Profile resolved) (cpc_expiresAt prepared))
        (durableIssuanceError "validate child creation authorization") (
      Issue_child broker prepared authorized)
  end end end.

(** Consume a handle, unless the context is nil or has ended. *)
Definition consumeHandle (broker : option Z) (ctx : Context) (handle : PreparedDurableCredential)
    (phase : preparedDurableCredentialPhase) : Prog (Result consumedPreparedCredential) :=
  match ctx with
  | NilContext => mret (Err ErrInvalidDurableCredentialRequest)
  | SomeContext =>
      err ← consult (on_CtxErr env);
      match err with
      | Some e => mret (Err e)
      | None => others;; atomically (consumePrepared broker handle phase)
      end
  end.

Definition Issue (broker : option Z) (ctx : Context) (handle : PreparedDurableCredential)
    : Prog (Result DurableCredential) :=
  prepared ⇐ consumeHandle broker ctx handle preparedDurableCredentialIssuing;
  Issue_authorize (default 0 broker) prepared.

Definition RecordNoCredential_record (prepared : consumedPreparedCredential) : Prog (Result Revocation) :=
  let request := {| transition_RevocationID := cpc_revocationID prepared;
                    transition_Fence := pdr_Fence (cpc_request prepared) |} in
  answer ← exchange (on_RecordNoCredential env request) (EvRecordNoCredential request);
  match answer with
  | Err _ => mret (Err (durableIssuanceError "record no credential"))
  | Ok revocation =>
      unless (validNoCredentialResult revocation prepared) (durableIssuanceError "record no credential") (
      mret (Ok revocation))
  end.

Definition RecordNoCredential (broker : option Z) (ctx : Context) (handle : PreparedDurableCredential)
    : Prog (Result Revocation) :=
  prepared ⇐ consumeHandle broker ctx handle preparedDurableCredentialNoCredential;
  RecordNoCredential_record prepared.
End broker.

(** ** The credential handle *)

Definition validMetadata (credential : DurableCredential) (state : durableCredentialState) : bool :=
  (dc_revocationID credential == dcs_revocationID state) && (dc_expiresAt credential == dcs_expiresAt state) &&
  ValidRevocationID (dc_revocationID credential) && negb (IsZero (dc_expiresAt credential)).

(** [Secret], for a reading of the broker's clock; no bytes are the empty string. *)
Definition Secret (clock : Time) (credential : DurableCredential) (heap : Heap) : string * Heap :=
  match hp_credentials heap !! dc_state credential with
  | None => (""%string, heap)
  | Some state =>
      if negb (validMetadata credential state) then (""%string, heap)
      else if IsZero clock || negb (After (dc_expiresAt credential) clock)
      then (""%string, destroySecret credential heap)
      else (dcs_secret state, heap)
  end.

(** ** RequestRevocation

    Callers that hold copies of one credential share its state.  [Requests] is that state with
    the place every caller is at: at the top of the loop, waiting for another caller's
    request, with its own request on its way, or back.  A flight is named by the caller
    that opened it; a caller opens at most one. *)

Inductive Requester :=
| RequesterLoops
| RequesterWaits (flight : nat)
| RequesterCalls
| RequesterReturned (result : Result Revocation).

Record Requests := { rq_state : durableCredentialState; rq_requesters : gmap nat Requester }.

Inductive RequestStep :=
| RequestBegins (who : nat) (broker : option Z) (ctx : Context) (credential : DurableCredential)
| RequestTurns (who : nat) (err : option GoError)
| RequestWakes (who : nat) (err : option GoError)
| RequestAnswered (who : nat) (answer : Result Revocation).

Definition moves (who : nat) (place : Requester) (state : durableCredentialState) (requests : Requests) : Requests :=
  {| rq_state := state; rq_requesters := <[who := place]> (rq_requesters requests) |}.

Definition withFlight (flight : option nat) (state : durableCredentialState) : durableCredentialState :=
  {| state with dcs_flight := flight |}.

(** The entry: the secret is destroyed before anything is checked. *)
Definition requestBegins (who : nat) (broker : option Z) (ctx : Context) (credential : DurableCredential)
    (requests : Requests) : Requests :=
  let state := rq_state requests in
  let destroyed := {| state with dcs_secret := "" |} in
  let refused := match broker, ctx with
                 | Some broker, SomeContext => negb (validMetadata credential state) || (dcs_broker state != broker)
                 | _, _ => true
                 end in
  moves who (if refused then RequesterReturned (Err ErrDurableCredentialState) else RequesterLoops) destroyed requests.

(** The section under the mutex; [err] is the reading of [ctx.Err()]. *)
Definition requestTurns (who : nat) (err : option GoError) (requests : Requests) : Requests :=
  let state := rq_state requests in
  match dcs_result state, dcs_flight state, err with
  | Some result, _, _ => moves who (RequesterReturned (Ok result)) state requests
  | None, Some flight, _ => moves who (RequesterWaits flight) state requests
  | None, None, Some e => moves who (RequesterReturned (Err e)) state requests
  | None, None, None => moves who RequesterCalls (withFlight (Some who) state) requests
  end.

(** The end of the repository's call: a valid answer is kept, the flight is closed. *)
Definition requestAnswered (who : nat) (answer : Result Revocation) (requests : Requests) : Requests :=
  let state := rq_state requests in
  match answer with
  | Ok revocation =>
      if validRequestedRevocation revocation state then
        let kept := {| state with dcs_result := Some revocation |} in
        moves who (RequesterReturned (Ok revocation)) (withFlight None kept) requests
      else moves who (RequesterReturned (Err (durableIssuanceError "persist revocation request")))
             (withFlight None state) requests
  | Err _ => moves who (RequesterReturned (Err (durableIssuanceError "persist revocation request")))
               (withFlight None state) requests
  end.

(** One step of a caller; [None] when it cannot be taken.  The [select] of a waiting caller
    takes the branch of its context, with an error, or that of a flight that is closed. *)
Definition requestStep (step : RequestStep) (requests : Requests) : option Requests :=
  let at_place who := rq_requesters requests !! who in
  match step with
  | RequestBegins who broker ctx credential =>
      match at_place who with
      | None => Some (requestBegins who broker ctx credential requests)
      | Some _ => None
      end
  | RequestTurns who err =>
      match at_place who with
      | Some RequesterLoops => Some (requestTurns who err requests)
      | _ => None
      end
  | RequestWakes who err =>
      match at_place who, err with
      | Some (RequesterWaits _), Some e => Some (moves who (RequesterReturned (Err e)) (rq_state requests) requests)
      | Some (RequesterWaits flight), None =>
          if dcs_flight (rq_state requests) == Some flight then None
          else Some (moves who RequesterLoops (rq_state requests) requests)
      | _, _ => None
      end
  | RequestAnswered who answer =>
      match at_place who with
      | Some RequesterCalls => Some (requestAnswered who answer requests)
      | _ => None
      end
  end.
