(* ===== verification/IssuerRegistry.v ===== *)
(** * The issuer registry

    Models internal/credential/issuer_registry.go: an immutable map from exact selections to
    issuers, and the agreement of all entries on what an issuer identity of a scope is. *)

From S2P Require Import Prelude.
From S2P Require Import Credential.
From S2P Require Import DurableHandles.
From S2P Require Import DurableBroker.

Record IssuerRegistration := {
  ir_Selection : DurableIssuerResolveRequest; ir_Profile : DurableIssuerProfile; ir_Issuer : option DurableIssuer
}.

Definition IssuerRegistry : Type := gmap DurableIssuerResolveRequest ResolvedDurableIssuer.

Record scopedDurableIssuerIdentity := {
  si_tenantID : string; si_workspaceID : string; si_environmentID : string; si_issuerID : string;
  si_issuerRevision : string
}.

#[export] Instance scopedDurableIssuerIdentity_eq_dec : EqDecision scopedDurableIssuerIdentity.
Proof. solve_decision. Defined.

#[export] Instance scopedDurableIssuerIdentity_countable : Countable scopedDurableIssuerIdentity.
Proof.
  refine (inj_countable'
    (fun i => (si_tenantID i, si_workspaceID i, si_environmentID i, si_issuerID i, si_issuerRevision i))
    (fun '(t, w, e, i, r) => Build_scopedDurableIssuerIdentity t w e i r) _).
  by intros [].
Defined.

Definition stableDurableIssuerIdentity (issuer : option DurableIssuer) : bool :=
  match issuer with
  | None => false
  | Some issuer => issuer_comparable issuer
  end.

Definition registrationIdentity (registration : IssuerRegistration) : scopedDurableIssuerIdentity :=
  {| si_tenantID := dir_TenantID (ir_Selection registration); si_workspaceID := dir_WorkspaceID (ir_Selection registration);
     si_environmentID := dir_EnvironmentID (ir_Selection registration);
     si_issuerID := dip_IssuerID (ir_Profile registration); si_issuerRevision := dip_Revision (ir_Profile registration) |}.

(** One round of the loop over the registrations, on the two maps it fills. *)
Definition registerIssuer (registration : IssuerRegistration)
    (maps : IssuerRegistry * gmap scopedDurableIssuerIdentity ResolvedDurableIssuer)
    : Result (IssuerRegistry * gmap scopedDurableIssuerIdentity ResolvedDurableIssuer) :=
  let '(issuers, identities) := maps in
  let selection := ir_Selection registration in
  let resolved := {| rdi_Profile := ir_Profile registration; rdi_Issuer := ir_Issuer registration |} in
  ensure (negb (negb (validDurableSelection selection) || negb (validDurableResolution resolved) ||
                negb (stableDurableIssuerIdentity (rdi_Issuer resolved)))) ErrInvalidIssuerRegistry;;
  ensure (if issuers !! selection is Some _ then false else true) ErrInvalidIssuerRegistry;;
  let identity := registrationIdentity registration in
  identities ← match identities !! identity with
               | Some existing =>
                   ensure (negb ((rdi_Profile existing != rdi_Profile resolved) ||
                                 (rdi_Issuer existing != rdi_Issuer resolved))) ErrInvalidIssuerRegistry;;
                   Ok identities
               | None => Ok (<[identity := resolved]> identities)
               end;
  Ok (<[selection := resolved]> issuers, identities).

Fixpoint registerIssuers (registrations : list IssuerRegistration)
    (maps : IssuerRegistry * gmap scopedDurableIssuerIdentity ResolvedDurableIssuer)
    : Result (IssuerRegistry * gmap scopedDurableIssuerIdentity ResolvedDurableIssuer) :=
  match registrations with
  | [] => Ok maps
  | registration :: registrations => maps ← registerIssuer registration maps; registerIssuers registrations maps
  end.

Definition NewIssuerRegistry (registrations : list IssuerRegistration) : Result IssuerRegistry :=
  ensure (negb (Nat.eqb (length registrations) 0)) ErrInvalidIssuerRegistry;;
  maps ← registerIssuers registrations (∅, ∅);
  Ok maps.1.

(** [err] is the reading of [ctx.Err()]. *)
Definition ResolveDurableIssuer (registry : option IssuerRegistry) (ctx : Context) (err : option GoError)
    (selection : DurableIssuerResolveRequest) : Result ResolvedDurableIssuer :=
  match registry, ctx, err with
  | Some registry, SomeContext, None =>
      ensure (validDurableSelection selection) ErrDurableIssuerNotRegistered;;
      match registry !! selection with
      | Some resolved => ensure (validDurableResolution resolved) ErrDurableIssuerNotRegistered;; Ok resolved
      | None => Err ErrDurableIssuerNotRegistered
      end
  | _, _, _ => Err ErrDurableIssuerNotRegistered
  end.
