(* ===== verification/DurableBrokerFacts.v ===== *)
(** * The durable broker: the protocol of an issue, and the life of a handle

    [Issued] specifies what [Issue] may do once its handle is consumed: which calls, in which
    order, and with which outcome.  The stages of the method are shown to follow it
    one by one. *)

From S2P Require Import Prelude.
From S2P Require Import Interaction.
From S2P Require Import Credential.
From S2P Require Import DurableHandles.
From S2P Require Import DurableBroker.

Open Scope Z_scope.

(** ** The protocol *)

(** The trace without the destruction of local secrets. *)
Definition exchanged (event : Event) : bool := if event is EvDestroy _ then false else true.
Definition exchanges (trace : list Event) : list Event := List.filter exchanged trace.

Definition revocationOf (id : string) : ActionTransitionRequest :=
  {| transition_RevocationID := id; transition_Fence := ActionFence_zero |}.

(** The end of a failure: the revocation of the child is requested, unless no context for
    it could be had. *)
Inductive Abandoned (id : string) : list Event -> Prop :=
| abandoned_context : Abandoned id [EvFinalizeContext false]
| abandoned_requested answer : Abandoned id [EvFinalizeContext true; EvRequestRevocation (revocationOf id) answer].

Section protocol.
Context (prepared : consumedPreparedCredential).
Let id := cpc_revocationID prepared.
Let request := cpc_request prepared.
Let profile := rdi_Profile (cpc_resolved prepared).
Let issuer := rdi_Issuer (cpc_resolved prepared).
Let expiresAt := cpc_expiresAt prepared.

Definition childRequest (authorized : ChildCreateAuthorization) : DurableChildCreateRequest :=
  {| ccr_RevocationID := id; ccr_ProfileRevision := dip_Revision profile;
     ccr_DatabaseAuthorizedAt := cca_DatabaseAuthorizedAt authorized; ccr_TTL := cca_TTL authorized;
     ccr_CredentialExpiresAt := expiresAt |}.
Definition anchorRequest (child : DurableChild) : RecordAnchorRequest :=
  {| anchor_RevocationID := id; anchor_Fence := pdr_Fence request; anchor_Accessor := child_Accessor child |}.
Definition inspectionRequest (authorized : ChildCreateAuthorization) : DurableChildInspectionRequest :=
  {| cir_RevocationID := id; cir_ProfileRevision := dip_Revision profile; cir_ExpectedTTL := cca_TTL authorized;
     cir_CredentialExpiresAt := expiresAt |}.
Definition dynamicRequest : DurableDynamicIssueRequest :=
  {| dyr_RevocationID := id; dyr_ProfileRevision := dip_Revision profile; dyr_CredentialExpiresAt := expiresAt |}.
Definition authorizeRequest : AuthorizeChildCreateRequest :=
  {| auth_Permit := cpc_permit prepared; auth_Fence := pdr_Fence request |}.
Definition activateRequest : ActionTransitionRequest :=
  {| transition_RevocationID := id; transition_Fence := pdr_Fence request |}.

(** With the dynamic secret in hand: activate the record, and hand the secret over. *)
Inductive Activated (anchored : Revocation) (dynamic : DurableDynamicSecret)
    : list Event -> Result DurableCredential -> Prop :=
| activated_abandoned e t : Abandoned id t -> Activated anchored dynamic (EvFinalizeContext false :: t) (Err e)
| activated_refused answer e t : Abandoned id t ->
    Activated anchored dynamic (EvFinalizeContext true :: EvActivate activateRequest answer :: t) (Err e)
| activated_handed active credential :
    validActiveResult active anchored id request profile expiresAt = true ->
    dc_revocationID credential = id -> dc_expiresAt credential = dyn_ExpiresAt dynamic ->
    Activated anchored dynamic [EvFinalizeContext true; EvActivate activateRequest (Ok active)] (Ok credential).

(** With the anchored child: have it inspected by the manager and the secret issued. *)
Inductive Anchored (authorized : ChildCreateAuthorization) (child : DurableChild) (anchored : Revocation)
    : list Event -> Result DurableCredential -> Prop :=
| anchored_abandoned e t : Abandoned id t -> Anchored authorized child anchored t (Err e)
| anchored_inspected answer e t : Abandoned id t ->
    validAnchoredResult anchored (cca_Revocation authorized) id request profile expiresAt = true ->
    validDurableChild child authorized = true ->
    Anchored authorized child anchored
      (EvInspectChild issuer (child_Accessor child) (inspectionRequest authorized) answer :: t) (Err e)
| anchored_refused dynamic err e t : Abandoned id t ->
    validAnchoredResult anchored (cca_Revocation authorized) id request profile expiresAt = true ->
    validDurableChild child authorized = true ->
    Anchored authorized child anchored
      (EvInspectChild issuer (child_Accessor child) (inspectionRequest authorized) (Ok tt) ::
       EvIssueDynamic issuer (child_Token child) dynamicRequest dynamic err :: t) (Err e)
| anchored_issued dynamic now t r :
    validAnchoredResult anchored (cca_Revocation authorized) id request profile expiresAt = true ->
    validDurableChild child authorized = true ->
    validDynamicSecret now dynamic authorized (child_ExpiresAt child) = true ->
    Activated anchored dynamic t r ->
    Anchored authorized child anchored
      (EvInspectChild issuer (child_Accessor child) (inspectionRequest authorized) (Ok tt) ::
       EvIssueDynamic issuer (child_Token child) dynamicRequest dynamic None :: t) r.

(** With the authorisation: create the child, once, and anchor its accessor. *)
Inductive Created (authorized : ChildCreateAuthorization) : list Event -> Result DurableCredential -> Prop :=
| created_without_accessor child err e : child_Accessor child = None ->
    Created authorized [EvCreateChild issuer (childRequest authorized) child err] (Err e)
| created_without_context child err e : is_Some (child_Accessor child) ->
    Created authorized [EvCreateChild issuer (childRequest authorized) child err; EvFinalizeContext false] (Err e)
| created_unanchored child err e' e t : is_Some (child_Accessor child) -> Abandoned id t ->
    Created authorized
      (EvCreateChild issuer (childRequest authorized) child err :: EvFinalizeContext true ::
       EvRecordAnchor (anchorRequest child) (Err e') :: t) (Err e)
| created_anchored child err anchored t r : is_Some (child_Accessor child) ->
    Anchored authorized child anchored t r -> (forall credential, r = Ok credential -> err = None) ->
    Created authorized
      (EvCreateChild issuer (childRequest authorized) child err :: EvFinalizeContext true ::
       EvRecordAnchor (anchorRequest child) (Ok anchored) :: t) r.

(** The whole of it. *)
Inductive Issued : list Event -> Result DurableCredential -> Prop :=
| issued_unmanaged answer e : Issued [EvValidateManager issuer answer] (Err e)
| issued_unauthorized answer e :
    Issued [EvValidateManager issuer (Ok tt); EvAuthorize authorizeRequest answer] (Err e)
| issued_authorized authorized t r :
    validChildCreateAuthorization authorized (cpc_prepared prepared) id request profile expiresAt = true ->
    Created authorized t r ->
    Issued (EvValidateManager issuer (Ok tt) :: EvAuthorize authorizeRequest (Ok authorized) :: t) r.
End protocol.

(** ** What the validators check *)

(** The parts of a frozen record that later steps rely on. *)
Lemma validFrozenRevocation_true revocation id request profile expiresAt status present :
  validFrozenRevocation revocation id request profile expiresAt status present = true ->
  rev_ID revocation = id /\ rev_CredentialExpiresAt revocation = expiresAt /\ rev_Status revocation = status /\
  rev_AccessorPresent revocation = present /\ rev_ActionID revocation = af_ActionID (pdr_Fence request) /\
  rev_ActionLeaseEpoch revocation = af_Epoch (pdr_Fence request).
Proof.
  unfold validFrozenRevocation. cbv zeta. destruct (_ || _) eqn:Hb; [done|]. intros _. guards. tauto.
Qed.

(** ** The stages follow it *)

Section adds.
Context {W : Type} (env : Environment W) {view : Event -> bool}.
Implicit Types (w : Scene Heap Event W).

(** What [p] adds to the trace, as far as it is in view, and its result satisfy [Q]. *)
Definition adds {A} (p : Talk Heap Event W A) (Q : list Event -> A -> Prop) : Prop :=
  forall w, ends p (fun r w' => exists t, sc_trace w' = sc_trace w ++ t /\ Q (List.filter view t) r) w.

Lemma adds_ret {A} (a : A) (Q : list Event -> A -> Prop) : Q [] a -> adds (mret a) Q.
Proof. intros HQ w. apply ends_ret. exists []. split; [|done]. by rewrite app_nil_r. Qed.

Lemma adds_bind {A B} (p : Talk Heap Event W B) (k : B -> Talk Heap Event W A) (R : list Event -> B -> Prop) Q :
  adds p R -> (forall t b, R t b -> adds (k b) (fun t' a => Q (t ++ t') a)) -> adds (p ≫= k) Q.
Proof.
  intros Hp Hk w. apply ends_bind. eapply ends_mono; [apply Hp|]. intros b w1 (t & Ht & HR).
  eapply ends_mono; [by apply (Hk _ _ HR)|]. intros a w2 (t' & Ht' & HQ). exists (t ++ t').
  rewrite List.filter_app. split; [|done]. by rewrite Ht', Ht, <- app_assoc.
Qed.

Lemma adds_mono {A} (p : Talk Heap Event W A) (Q Q' : list Event -> A -> Prop) :
  adds p Q -> (forall t a, Q t a -> Q' t a) -> adds p Q'.
Proof. intros Hp HQ w. eapply ends_mono; [apply Hp|]. naive_solver. Qed.

Lemma adds_consult {A} (question : W -> A * W) Q : (forall a, Q [] a) -> adds (consult question) Q.
Proof. intros HQ w. apply ends_consult. intros a o. exists []. split; [|done]. by rewrite app_nil_r. Qed.

Lemma adds_exchange {A} (question : W -> A * W) event Q :
  (forall a, Q (List.filter view [event a]) a) -> adds (exchange question event) Q.
Proof. intros HQ w. apply ends_exchange. intros a o. by exists [event a]. Qed.

Lemma adds_note event Q : Q (List.filter view [event]) tt -> adds (note event) Q.
Proof. intros HQ w. apply ends_note. by exists [event]. Qed.

Lemma adds_atomically {A} (section : Heap -> A * Heap) Q :
  (forall a heap heap', section heap = (a, heap') -> Q [] a) -> adds (atomically section) Q.
Proof.
  intros HQ w. apply ends_atomically. intros a s Hs. exists []. split; [|by eapply HQ]. by rewrite app_nil_r.
Qed.

Lemma adds_others Q : Q [] tt -> adds (others env) Q.
Proof.
  intros HQ. eapply adds_bind; [apply (adds_consult _ (fun t _ => t = [])); done|]. intros t steps ->.
  apply adds_atomically. by intros [] heap heap' _.
Qed.

Lemma adds_boundedContext source maximum : adds (boundedContext env source maximum) (fun t _ => t = []).
Proof.
  unfold boundedContext. repeat (eapply adds_bind; [apply (adds_consult _ (fun t _ => t = [])); done|]; intros ? ? ->).
  by apply adds_ret.
Qed.

(** [Issue] is refused without a call, or runs on the content of its handle. *)
Lemma adds_consumeHandle broker ctx handle phase :
  adds (consumeHandle env broker ctx handle phase)
    (fun t r => t = [] /\ forall prepared, r = Ok prepared ->
       exists heap heap', consumePrepared broker handle phase heap = (Ok prepared, heap')).
Proof.
  unfold consumeHandle. destruct ctx; [by apply adds_ret|].
  eapply adds_bind; [by apply (adds_consult _ (fun t _ => t = []))|]. intros t err ->.
  destruct err; [by apply adds_ret|].
  eapply (adds_bind _ _ (fun t _ => t = [])); [by apply adds_others|]. intros t [] ->.
  apply adds_atomically. intros r heap heap' Hr. split; [done|]. intros prepared ->. eauto.
Qed.
End adds.
Arguments adds {W} view {A} p Q.

Section stages.
Context {W : Type} (env : Environment W).
Abbreviation adds := (adds exchanged).

Lemma adds_newFinalizeContext : adds (newFinalizeContext env) (fun t granted => t = [EvFinalizeContext granted]).
Proof.
  unfold newFinalizeContext. eapply adds_bind; [apply adds_boundedContext|]. intros t bounded ->.
  eapply (adds_bind _ _ (fun t _ => t = [])); [destruct bounded; [by apply adds_ret|apply adds_boundedContext]|].
  intros t bounded' ->. eapply (adds_bind _ _ (fun t _ => _ = t)); [by apply adds_note|].
  intros t [] <-. by apply adds_ret.
Qed.

Lemma adds_abandon {A} materials id operation :
  adds (abandon (A := A) env materials id operation) (fun t r => Abandoned id t /\ exists e, r = Err e).
Proof.
  unfold abandon. eapply (adds_bind _ _ (fun t _ => t = [])).
  { induction materials as [|material materials IH]; [by apply adds_ret|]. simpl.
    eapply (adds_bind _ _ (fun t _ => t = [])); [by apply adds_note|]. by intros t [] ->. }
  intros t [] ->. eapply (adds_bind _ _ (fun t _ => Abandoned id t)).
  - unfold persistRevocationIntent. eapply adds_bind; [apply adds_newFinalizeContext|]. intros t granted ->.
    destruct granted; [|apply adds_ret; constructor].
    eapply (adds_bind _ _ (fun t answer => t = [EvRequestRevocation (revocationOf id) answer])); [by apply adds_exchange|].
    intros t answer ->. apply adds_ret. constructor.
  - intros t granted Ht. apply adds_ret. rewrite app_nil_r. eauto.
Qed.

(** One step of the method, with its exchange written out. *)
Ltac adds_step :=
  lazymatch goal with
  | |- adds (mbind _ (consult _)) _ =>
      eapply adds_bind; [by apply (adds_consult _ (fun t _ => t = []))|]; intros ? ? ->
  | |- adds (mbind _ (exchange _ ?event)) _ =>
      eapply (adds_bind _ _ (fun t a => t = exchanges [event a])); [by apply adds_exchange|]; intros ? ? ->
  | |- adds (mbind _ (note ?event)) _ =>
      eapply (adds_bind _ _ (fun t _ => t = exchanges [event])); [by apply adds_note|]; intros ? [] ->
  | |- adds (mbind _ (others _)) _ => eapply (adds_bind _ _ (fun t _ => t = [])); [by apply adds_others|]; intros ? [] ->
  | |- adds (mbind _ (newFinalizeContext _)) _ => eapply adds_bind; [apply adds_newFinalizeContext|]; intros ? ? ->
  | |- adds (mbind _ (boundedContext _ _ _)) _ => eapply adds_bind; [apply adds_boundedContext|]; intros ? ? ->
  | |- adds (unless ?b _ _) _ => unfold unless; destruct b eqn:?
  | |- adds (if ?b then _ else _) _ => destruct b eqn:?
  | |- adds (match ?x with _ => _ end) _ => destruct x eqn:?
  | |- adds (let _ := _ in _) _ => cbv zeta
  end; cbv beta iota; simpl app.

Ltac unit_answer := repeat match goal with u : unit |- _ => destruct u end.

(** A stage ends in [abandon]. *)
Ltac adds_abandoned := eapply adds_mono; [apply adds_abandon|]; intros ? ? [? [? ->]].

Lemma adds_Issue_activate issuing anchored dynamic :
  adds (Issue_activate env issuing anchored dynamic)
    (Activated (iss_prepared issuing) anchored dynamic).
Proof.
  unfold Issue_activate. cbv zeta. adds_step. adds_step.
  { adds_abandoned. destruct b; [done|]. by constructor. }
  destruct b; [|done]. adds_step. adds_step; [|adds_abandoned; by constructor].
  adds_step; [adds_abandoned; by constructor|]. adds_step. adds_step; [adds_abandoned; by constructor|].
  adds_step. eapply (adds_bind _ _ (fun t credential => t = [] /\ dc_revocationID credential = rev_ID a /\
    dc_expiresAt credential = dyn_ExpiresAt dynamic)).
  { apply adds_atomically. intros credential heap heap' [= <- _]. done. }
  intros t credential (-> & Hid & Hexp). apply adds_ret. guards. constructor; [done| |done].
  rewrite Hid. unfold validActiveResult in *. guards. by edestruct validFrozenRevocation_true.
Qed.

Lemma adds_Issue_dynamic issuing anchored :
  adds (Issue_dynamic env issuing anchored)
    (fun t r => exists dynamic err t', t = EvIssueDynamic (iss_issuer issuing) (child_Token (iss_child issuing))
       (dynamicRequest (iss_prepared issuing)) dynamic err :: t' /\
       ((Abandoned (iss_id issuing) t' /\ exists e, r = Err e) \/
        (err = None /\ (exists now, validDynamicSecret now dynamic (iss_authorized issuing)
                          (child_ExpiresAt (iss_child issuing)) = true) /\
         Activated (iss_prepared issuing) anchored dynamic t' r))).
Proof.
  unfold Issue_dynamic. cbv zeta. adds_step. adds_step. adds_step. adds_step. adds_step.
  { adds_abandoned. repeat eexists; eauto. }
  guards. adds_step. adds_step; [adds_abandoned; repeat eexists; eauto|].
  eapply adds_mono; [apply adds_Issue_activate|]. intros t r Ht. do 3 eexists. split; [done|]. right.
  destruct o; [done|]. eauto.
Qed.

Lemma adds_Issue_inspect issuing createErr anchored :
  adds (Issue_inspect env issuing createErr anchored)
    (fun t r => Anchored (iss_prepared issuing) (iss_authorized issuing) (iss_child issuing) anchored t r /\
                forall credential, r = Ok credential -> createErr = None).
Proof.
  unfold Issue_inspect. cbv zeta. adds_step; [adds_abandoned; split; [by constructor|done]|]. guards.
  adds_step. adds_step; [adds_abandoned; split; [by constructor|done]|].
  adds_step; [adds_abandoned; split; [by constructor|done]|]. guards. destruct createErr; [done|].
  adds_step. adds_step; [|adds_abandoned; split; [by constructor|done]].
  adds_step. adds_step. unit_answer. adds_step; [adds_abandoned; split; [by constructor|done]|].
  eapply adds_mono; [apply adds_Issue_dynamic|].
  intros t r (dynamic & err & t' & -> & [[Ht [e ->]]|(-> & [now Hv] & Ht)]); (split; [|done]).
  - by apply anchored_refused.
  - by eapply anchored_issued.
Qed.

Lemma adds_Issue_anchor issuing createErr : is_Some (child_Accessor (iss_child issuing)) ->
  adds (Issue_anchor env issuing createErr)
    (fun t r => Created (iss_prepared issuing) (iss_authorized issuing)
       (EvCreateChild (iss_issuer issuing) (childRequest (iss_prepared issuing) (iss_authorized issuing))
          (iss_child issuing) createErr :: t) r).
Proof.
  intros Hacc. unfold Issue_anchor. cbv zeta. adds_step.
  eapply (adds_bind _ _ (fun t r => Created (iss_prepared issuing) (iss_authorized issuing)
       (EvCreateChild (iss_issuer issuing) (childRequest (iss_prepared issuing) (iss_authorized issuing))
          (iss_child issuing) createErr :: EvFinalizeContext b :: t) r)).
  2: { intros t r Ht. adds_step. apply adds_ret. by rewrite app_nil_r. }
  destruct b; simpl negb; cbv iota.
  - adds_step. adds_step; [|adds_abandoned; by constructor].
    eapply adds_mono; [apply adds_Issue_inspect|]. intros t r [Ht Hr]. by constructor.
  - adds_step. adds_step. apply adds_ret. by constructor.
Qed.

Lemma adds_Issue_child broker prepared authorized :
  adds (Issue_child env broker prepared authorized) (Created prepared authorized).
Proof.
  unfold Issue_child. cbv zeta. adds_step. destruct b as [child createErr].
  eapply (adds_bind _ _ (fun t r => Created prepared authorized
     (EvCreateChild (rdi_Issuer (cpc_resolved prepared)) (childRequest prepared authorized) child createErr :: t) r)).
  2: { intros t r Ht. adds_step. apply adds_ret. by rewrite app_nil_r. }
  adds_step.
  - apply (adds_Issue_anchor {| iss_broker := broker; iss_prepared := prepared; iss_authorized := authorized;
                                iss_child := child |}). simpl. rewrite Heqs. eauto.
  - apply adds_ret. by constructor.
Qed.

Lemma adds_Issue_authorize broker prepared : adds (Issue_authorize env broker prepared) (Issued prepared).
Proof.
  unfold Issue_authorize. cbv zeta. adds_step. adds_step; [|apply adds_ret; constructor]. unit_answer.
  adds_step. adds_step; [|apply adds_ret; constructor].
  adds_step. adds_step; [|apply adds_ret; constructor].
  adds_step; [|apply adds_ret; constructor].
  eapply adds_mono; [apply adds_Issue_child|]. intros t r Ht. by constructor.
Qed.

End stages.

(** ** The secrets of an issue *)

(** No child is created and no dynamic secret issued by the event. *)
Definition plain (event : Event) : Prop :=
  match event with
  | EvCreateChild _ _ _ _ | EvIssueDynamic _ _ _ _ _ => False
  | _ => True
  end.

(** No child is created by the event. *)
Definition childless (event : Event) : Prop := if event is EvCreateChild _ _ _ _ then False else True.

Lemma plain_childless t : Forall plain t -> Forall childless t.
Proof. intros Hp. eapply Forall_impl; [exact Hp|]. by intros []. Qed.

(** A dynamic secret that may have been issued was handed over or destroyed. *)
Definition settled (t : list Event) (r : Result DurableCredential) : Prop :=
  Forall plain t \/ (exists credential, r = Ok credential) \/ EvDestroy DynamicSecret ∈ t.

Section secrets.
Context {W : Type} (env : Environment W).
Abbreviation adds := (adds (fun _ => true)).

Lemma all_boundedContext source maximum : adds (boundedContext env source maximum) (fun t _ => t = []).
Proof. apply adds_boundedContext. Qed.

Lemma plain_newFinalizeContext : adds (newFinalizeContext env) (fun t _ => Forall plain t).
Proof.
  unfold newFinalizeContext. eapply adds_bind; [apply adds_boundedContext|]. intros t bounded ->.
  eapply (adds_bind _ _ (fun t _ => t = [])); [destruct bounded; [by apply adds_ret|apply adds_boundedContext]|].
  intros t bounded' ->. eapply (adds_bind _ _ (fun t _ => Forall plain t)); [apply adds_note; by repeat constructor|].
  intros t [] Ht. apply adds_ret. by rewrite app_nil_r.
Qed.

Lemma destroyed_abandon {A} materials id operation :
  adds (abandon (A := A) env materials id operation)
    (fun t r => Forall plain t /\ (forall m, m ∈ materials -> EvDestroy m ∈ t) /\ exists e, r = Err e).
Proof.
  unfold abandon. eapply (adds_bind _ _ (fun t _ => Forall plain t /\ forall m, m ∈ materials -> EvDestroy m ∈ t)).
  { induction materials as [|material materials IH]; [apply adds_ret; split; [done|by intros ? ?%elem_of_nil]|]. simpl.
    eapply (adds_bind _ _ (fun t _ => t = [EvDestroy material])); [by apply adds_note|]. intros t [] ->.
    eapply adds_mono; [exact IH|]. intros t [] [Hp Ht]. split; [by constructor|]. set_solver. }
  intros t [] [Hp Ht]. eapply (adds_bind _ _ (fun t _ => Forall plain t)).
  - unfold persistRevocationIntent. eapply adds_bind; [apply plain_newFinalizeContext|]. intros t' granted Hp'.
    destruct granted; [|apply adds_ret; by rewrite app_nil_r].
    eapply (adds_bind _ _ (fun t _ => Forall plain t)); [apply adds_exchange; by repeat constructor|].
    intros t'' answer Hp''. apply adds_ret. rewrite app_nil_r. by apply Forall_app.
  - intros t' granted Hp'. apply adds_ret. rewrite app_nil_r.
    split_and!; [by apply Forall_app|set_solver|eauto].
Qed.

(** One step, with the events it adds. *)
Ltac secret_step :=
  lazymatch goal with
  | |- DurableBrokerFacts.adds _ (mbind _ (consult _)) _ =>
      eapply adds_bind; [by apply (adds_consult _ (fun t _ => t = []))|]; intros ? ? ->
  | |- DurableBrokerFacts.adds _ (mbind _ (exchange _ ?event)) _ =>
      eapply (adds_bind _ _ (fun t a => t = [event a])); [by apply adds_exchange|]; intros ? ? ->
  | |- DurableBrokerFacts.adds _ (mbind _ (note ?event)) _ =>
      eapply (adds_bind _ _ (fun t _ => t = [event])); [by apply adds_note|]; intros ? [] ->
  | |- DurableBrokerFacts.adds _ (mbind _ (others _)) _ =>
      eapply (adds_bind _ _ (fun t _ => t = [])); [by apply adds_others|]; intros ? [] ->
  | |- DurableBrokerFacts.adds _ (mbind _ (newFinalizeContext _)) _ =>
      eapply adds_bind; [apply plain_newFinalizeContext|]; intros ? ? ?
  | |- DurableBrokerFacts.adds _ (mbind _ (boundedContext _ _ _)) _ =>
      eapply adds_bind; [apply all_boundedContext|]; intros ? ? ->
  | |- DurableBrokerFacts.adds _ (unless ?b _ _) _ => unfold unless; destruct b eqn:?
  | |- DurableBrokerFacts.adds _ (if ?b then _ else _) _ => destruct b eqn:?
  | |- DurableBrokerFacts.adds _ (match ?x with _ => _ end) _ => destruct x eqn:?
  | |- DurableBrokerFacts.adds _ (let _ := _ in _) _ => cbv zeta
  | |- DurableBrokerFacts.adds _ (abandon _ _ _ _) _ =>
      eapply adds_mono; [apply destroyed_abandon|]; intros ? ? (? & Hdestroyed & ? & ->)
  | |- DurableBrokerFacts.adds _ (mret _) _ => apply adds_ret
  end; cbv beta iota in *.

(** A secret that [abandon] destroyed. *)
Ltac destroyed m :=
  match goal with
  | Hdestroyed : forall m, m ∈ _ -> EvDestroy m ∈ _ |- _ =>
      let Hd := fresh in pose proof (Hdestroyed m ltac:(clear; set_solver)) as Hd; clear -Hd; set_solver
  end.

Ltac plain_trace := repeat first [apply Forall_app; split | apply Forall_cons; split]; try done.

Lemma settled_Issue_activate issuing anchored dynamic :
  adds (Issue_activate env issuing anchored dynamic)
    (fun t r => Forall plain t /\ ((exists credential, r = Ok credential) \/ EvDestroy DynamicSecret ∈ t)).
Proof.
  unfold Issue_activate. cbv zeta.
  repeat secret_step; try (split; [by plain_trace|]; right; destroyed DynamicSecret).
  eapply (adds_bind _ _ (fun t _ => t = [])); [by apply adds_atomically|]. intros t' credential ->. secret_step.
  split; [by plain_trace|]. eauto.
Qed.

Lemma settled_Issue_dynamic issuing anchored :
  adds (Issue_dynamic env issuing anchored)
    (fun t r => Forall childless t /\ ((exists credential, r = Ok credential) \/ EvDestroy DynamicSecret ∈ t)).
Proof.
  unfold Issue_dynamic. cbv zeta.
  repeat secret_step; try (split; [plain_trace; by apply plain_childless|]; right; destroyed DynamicSecret).
  eapply adds_mono; [apply settled_Issue_activate|]. intros t r [Hp Hr]. simpl.
  split; [plain_trace; by apply plain_childless|]. destruct Hr as [Hr|Hr]; [by left|right; clear -Hr; set_solver].
Qed.

Lemma settled_Issue_inspect issuing createErr anchored :
  adds (Issue_inspect env issuing createErr anchored) (fun t r => Forall childless t /\ settled t r).
Proof.
  unfold Issue_inspect. cbv zeta.
  repeat secret_step; try (split; [plain_trace; by apply plain_childless|left; by plain_trace]).
  eapply adds_mono; [apply settled_Issue_dynamic|]. intros t r [Hp Hr]. simpl. split; [by plain_trace|]. right.
  destruct Hr as [Hr|Hr]; [by left|right; clear -Hr; set_solver].
Qed.

Lemma settled_app t t' r : settled t r -> Forall plain t' -> settled (t ++ t') r.
Proof.
  intros [Hp|[Hr|Hd]] Hp'; [left; by apply Forall_app|right; by left|right; right; clear -Hd; set_solver].
Qed.

Lemma settled_cons event t r : settled t r -> plain event -> settled (event :: t) r.
Proof. intros [Hp|[Hr|Hd]] Hp'; [left; by constructor|right; by left|right; right; clear -Hd; set_solver]. Qed.

Lemma settled_Issue_anchor issuing createErr :
  adds (Issue_anchor env issuing createErr)
    (fun t r => Forall childless t /\ settled t r /\ EvDestroy ChildAccessor ∈ t).
Proof.
  unfold Issue_anchor. cbv zeta. secret_step.
  eapply (adds_bind _ _ (fun t r => Forall childless t /\ settled t r)).
  - repeat secret_step; try (split; [plain_trace; by apply plain_childless|left; by plain_trace]).
    eapply adds_mono; [apply settled_Issue_inspect|]. intros t' r [Hp Hr]. simpl.
    split; [by plain_trace|]. by apply settled_cons.
  - intros t' r [Hp Hr]. repeat secret_step. rewrite app_nil_r. split_and!.
    + plain_trace. by apply plain_childless.
    + destruct (settled_app t' [EvDestroy ChildAccessor] r Hr) as [Hs|[Hs|Hs]]; [by repeat constructor|..].
      * left. by apply Forall_app.
      * right. by left.
      * right. right. clear -Hs. set_solver.
    + clear. set_solver.
Qed.

(** The first event creates the only child; its token and accessor are destroyed. *)
Lemma settled_Issue_child broker prepared authorized :
  adds (Issue_child env broker prepared authorized)
    (fun t r => exists issuer request child err t', t = EvCreateChild issuer request child err :: t' /\
       Forall childless t' /\ settled t' r /\ EvDestroy ChildToken ∈ t' /\
       (is_Some (child_Accessor child) -> EvDestroy ChildAccessor ∈ t')).
Proof.
  unfold Issue_child. cbv zeta. secret_step. destruct b as [child createErr].
  eapply (adds_bind _ _ (fun t r => Forall childless t /\ settled t r /\
    (is_Some (child_Accessor child) -> EvDestroy ChildAccessor ∈ t))).
  - destruct (child_Accessor child) eqn:Hacc.
    + eapply adds_mono; [apply settled_Issue_anchor|]. naive_solver.
    + apply adds_ret. split_and!; [done|by left|by intros []].
  - intros t r (Hp & Hr & Ha). secret_step. secret_step. do 5 eexists. split; [done|]. split_and!.
    + by plain_trace.
    + apply settled_app; [done|by repeat constructor].
    + clear. set_solver.
    + intros Hs. apply Ha in Hs. clear -Hs. set_solver.
Qed.

(** What an issue leaves behind. *)
Lemma discarded_Issue broker ctx handle :
  adds (Issue env broker ctx handle)
    (fun t r => Forall plain t \/
       exists before issuer request child err after,
         t = before ++ EvCreateChild issuer request child err :: after /\ Forall plain before /\
         Forall childless after /\ settled after r /\ EvDestroy ChildToken ∈ after /\
         (is_Some (child_Accessor child) -> EvDestroy ChildAccessor ∈ after)).
Proof.
  unfold Issue, attempt. eapply adds_bind; [apply adds_consumeHandle|]. intros t r [-> _].
  destruct r as [prepared|e]; [|apply adds_ret; by left]. unfold Issue_authorize. cbv zeta.
  repeat secret_step; try (left; by plain_trace).
  eapply adds_mono; [apply settled_Issue_child|].
  intros t r (issuer & request & child & err & t' & -> & Hp & Hr & Ht & Ha). right.
  eexists [_; _], issuer, request, child, err, t'. split_and!; [done|by plain_trace|done..].
Qed.
End secrets.
