(* ===== verification/DurableHeap.v ===== *)
(** * The state behind the broker's handles

    A prepared handle is consumed at most once and a destroyed secret never comes back,
    whatever other callers do to the heap.  Concurrent requests to revoke one credential
    share one flight.  The registry resolves exactly what was registered. *)

From S2P Require Import Prelude.
From S2P Require Import Interaction.
From S2P Require Import Credential.
From S2P Require Import DurableHandles.
From S2P Require Import DurableBroker.
From S2P Require Import IssuerRegistry.

Open Scope Z_scope.

(** ** The heap *)

(** Addresses in use are below the next one. *)
Record heap_wf (heap : Heap) : Prop := {
  hw_prepared p state : hp_prepared heap !! p = Some state -> p < hp_next heap;
  hw_credentials p state : hp_credentials heap !! p = Some state -> p < hp_next heap
}.

(** The handle at [p] was consumed, and its permit with it. *)
Definition spent (p : Z) (heap : Heap) : Prop :=
  exists state, hp_prepared heap !! p = Some state /\ ps_phase state <> preparedDurableCredentialReady /\
    permit_Token (cpc_permit (ps_content state)) = ""%string.

(** The secret at [p] was destroyed. *)
Definition gone (p : Z) (heap : Heap) : Prop :=
  exists state, hp_credentials heap !! p = Some state /\ dcs_secret state = ""%string.

(** The heap after what other callers did. *)
Definition heapSteps (steps : list HeapStep) (heap : Heap) : Heap := foldl (fun heap step => heapStep step heap) heap steps.

Lemma Heap_empty_wf : heap_wf Heap_empty.
Proof. split; intros p state; simpl; by rewrite lookup_empty. Qed.

Lemma consumePrepared_cases broker handle phase heap r heap' :
  consumePrepared broker handle phase heap = (r, heap') ->
  (r = Err ErrDurableCredentialState /\ heap' = heap) \/
  exists b state, broker = Some b /\ hp_prepared heap !! pdc_state handle = Some state /\
    consumable b handle state = true /\ r = Ok (ps_content state) /\
    hp_next heap' = hp_next heap /\ hp_credentials heap' = hp_credentials heap /\
    hp_prepared heap' = <[pdc_state handle := {| ps_broker := ps_broker state; ps_phase := phase;
                                                ps_content := clearedContent (ps_content state) |}]> (hp_prepared heap).
Proof.
  unfold consumePrepared. destruct broker as [b|]; [|intros [= <- <-]; by left].
  destruct (hp_prepared heap !! pdc_state handle) as [state|]; [|intros [= <- <-]; by left].
  destruct (consumable b handle state) eqn:Hc; intros [= <- <-]; [right; eauto 10|by left].
Qed.

Lemma consumePrepared_wf broker handle phase heap :
  heap_wf heap -> heap_wf (consumePrepared broker handle phase heap).2.
Proof.
  intros [Hp Hc]. destruct (consumePrepared _ _ _ _) as [r heap'] eqn:Hr.
  apply consumePrepared_cases in Hr as [[_ ->]|(b & state & _ & Hl & _ & _ & Hn & Hcr & Hpr)]; [done|].
  split; simpl; rewrite Hn, ?Hcr, ?Hpr; [|exact Hc]. intros p state' Hl'.
  apply lookup_insert_Some in Hl' as [[<- _]|[_ Hl']]; by eapply Hp.
Qed.

Lemma heapStep_wf step heap : heap_wf heap -> heap_wf (heapStep step heap).
Proof.
  intros [Hp Hc]. destruct step as [broker content|broker handle issuing|broker revocation dynamic|credential]; simpl.
  - split; simpl; intros p state Hl; [|apply Hc in Hl; lia]. apply lookup_insert_Some in Hl as [[<- _]|[_ Hl]]; [lia|].
    apply Hp in Hl. lia.
  - by apply consumePrepared_wf.
  - split; simpl; intros p state Hl; [apply Hp in Hl; lia|]. apply lookup_insert_Some in Hl as [[<- _]|[_ Hl]]; [lia|].
    apply Hc in Hl. lia.
  - unfold destroySecret. destruct (hp_credentials heap !! dc_state credential) eqn:Hd; [|done].
    split; simpl; [exact Hp|]. intros p state Hl. apply lookup_insert_Some in Hl as [[<- _]|[_ Hl]]; by eapply Hc.
Qed.

Lemma heapStep_spent step heap p : heap_wf heap -> spent p heap -> spent p (heapStep step heap).
Proof.
  intros Hwf (state & Hl & Hph & Htoken). pose proof (hw_prepared _ Hwf _ _ Hl).
  destruct step as [broker content|broker handle issuing|broker revocation dynamic|credential]; simpl.
  - exists state. simpl. by rewrite lookup_insert_ne by lia.
  - destruct (consumePrepared _ _ _ _) as [r heap'] eqn:Hr.
    apply consumePrepared_cases in Hr as [[_ ->]|(b & state' & _ & Hl' & Hc & _ & _ & _ & Hpr)]; [by exists state|].
    unfold spent. simpl. rewrite Hpr. destruct (decide (pdc_state handle = p)) as [<-|].
    + unfold consumable in Hc. simplify_eq. guards. done.
    + exists state. by rewrite lookup_insert_ne.
  - by exists state.
  - unfold destroySecret. case_match; by exists state.
Qed.

Lemma heapStep_gone step heap p : heap_wf heap -> gone p heap -> gone p (heapStep step heap).
Proof.
  intros Hwf (state & Hl & Hs). pose proof (hw_credentials _ Hwf _ _ Hl).
  destruct step as [broker content|broker handle issuing|broker revocation dynamic|credential]; simpl.
  - by exists state.
  - destruct (consumePrepared _ _ _ _) as [r heap'] eqn:Hr. unfold gone. simpl.
    apply consumePrepared_cases in Hr as [[_ ->]|(b & state' & _ & _ & _ & _ & _ & Hcr & _)]; [by exists state|].
    rewrite Hcr. by exists state.
  - exists state. simpl. by rewrite lookup_insert_ne by lia.
  - unfold destroySecret, gone. destruct (hp_credentials heap !! dc_state credential) as [state'|] eqn:Hd; [|by exists state].
    simpl. destruct (decide (dc_state credential = p)) as [<-|].
    + eexists. by rewrite lookup_insert_eq.
    + exists state. by rewrite lookup_insert_ne.
Qed.

Lemma heapSteps_stable (P : Heap -> Prop) :
  (forall step heap, heap_wf heap -> P heap -> P (heapStep step heap)) ->
  forall steps heap, heap_wf heap -> P heap -> heap_wf (heapSteps steps heap) /\ P (heapSteps steps heap).
Proof.
  intros HP steps. induction steps as [|step steps IH]; intros heap Hwf Hh; [done|]. simpl.
  apply IH; [by apply heapStep_wf|by apply HP].
Qed.

(** A consumed handle is refused, and nothing changes. *)
Lemma spent_refused broker handle phase heap :
  spent (pdc_state handle) heap -> consumePrepared broker handle phase heap = (Err ErrDurableCredentialState, heap).
Proof.
  intros (state & Hl & Hph & _). unfold consumePrepared. rewrite Hl. destruct broker as [b|]; [|done].
  destruct (consumable b handle state) eqn:Hc; [|done]. unfold consumable in Hc. guards. done.
Qed.

Lemma consumed_spent broker handle phase heap prepared heap' :
  phase <> preparedDurableCredentialReady -> consumePrepared broker handle phase heap = (Ok prepared, heap') ->
  spent (pdc_state handle) heap'.
Proof.
  intros Hph Hr. apply consumePrepared_cases in Hr as [[? _]|(b & state & _ & _ & _ & _ & _ & _ & Hpr)]; [done|].
  unfold spent. rewrite Hpr. eexists. by rewrite lookup_insert_eq.
Qed.

(** A fact about the heap that other callers cannot change. *)
Definition stable (P : Heap -> Prop) : Prop := forall step heap, heap_wf heap -> P heap -> P (heapStep step heap).

Lemma spent_stable p : stable (spent p).
Proof. intros step heap. apply heapStep_spent. Qed.

Lemma gone_stable p : stable (gone p).
Proof. intros step heap. apply heapStep_gone. Qed.

(** Such facts hold through every method of the broker. *)
Section keeps.
Context {W : Type} (env : Environment W) (P : Heap -> Prop) (P_stable : stable P).

Definition keeps {A} (prog : Talk Heap Event W A) : Prop :=
  forall w, heap_wf (sc_state w) /\ P (sc_state w) ->
    ends prog (fun _ w' => heap_wf (sc_state w') /\ P (sc_state w')) w.

Lemma keeps_ret {A} (a : A) : keeps (mret a).
Proof. intros w Hw. by apply ends_ret. Qed.

Lemma keeps_bind {A B} (m : Talk Heap Event W B) (k : B -> Talk Heap Event W A) :
  keeps m -> (forall b, keeps (k b)) -> keeps (m ≫= k).
Proof. intros Hm Hk w Hw. apply ends_bind. eapply ends_mono; [by apply Hm|]. intros b w' Hw'. by apply Hk. Qed.

Lemma keeps_consult {A} (question : W -> A * W) : keeps (consult question).
Proof. intros w Hw. apply ends_consult. by intros. Qed.

Lemma keeps_note event : keeps (note event).
Proof. intros w Hw. by apply ends_note. Qed.

Lemma keeps_exchange {A} (question : W -> A * W) event : keeps (exchange question event).
Proof. intros w Hw. apply ends_exchange. by intros. Qed.

Lemma keeps_others : keeps (others env).
Proof.
  apply keeps_bind; [apply keeps_consult|]. intros steps w [Hwf Hs]. apply ends_atomically.
  intros [] heap [= <-]. simpl. by apply (heapSteps_stable P).
Qed.

Lemma keeps_atomically {A} (section : Heap -> A * Heap) step :
  (forall heap, (section heap).2 = heapStep step heap) -> keeps (atomically section).
Proof.
  intros Hstep w [Hwf Hs]. apply ends_atomically. intros a heap Ha. specialize (Hstep (sc_state w)). rewrite Ha in Hstep.
  simpl in *. subst. split; [by apply heapStep_wf|by apply P_stable].
Qed.

Ltac keeps_step :=
  lazymatch goal with
  | |- keeps (mbind _ _) => apply keeps_bind; [|intros ?]
  | |- keeps (mret _) => apply keeps_ret
  | |- keeps (consult _) => apply keeps_consult
  | |- keeps (note _) => apply keeps_note
  | |- keeps (exchange _ _) => apply keeps_exchange
  | |- keeps (others _) => apply keeps_others
  | |- keeps (atomically (newPrepared ?b ?c)) => by apply (keeps_atomically _ (StepPrepare b c))
  | |- keeps (atomically (newDurableCredential ?b ?r ?d)) => by apply (keeps_atomically _ (StepIssue b r d))
  | |- keeps (atomically (consumePrepared ?b ?h preparedDurableCredentialIssuing)) =>
      by apply (keeps_atomically _ (StepConsume b h true))
  | |- keeps (atomically (consumePrepared ?b ?h preparedDurableCredentialNoCredential)) =>
      by apply (keeps_atomically _ (StepConsume b h false))
  | |- keeps (attempt _ _) => unfold attempt
  | |- keeps (consumeHandle _ _ _ _ _) => unfold consumeHandle
  | |- keeps (unless ?b _ _) => unfold unless; destruct b
  | |- keeps (if ?b then _ else _) => destruct b
  | |- keeps (match ?x with _ => _ end) => destruct x
  | |- keeps (let _ := _ in _) => cbv zeta
  | |- keeps (boundedContext _ _ _) => unfold boundedContext
  | |- keeps (newFinalizeContext _) => unfold newFinalizeContext
  | |- keeps (persistRevocationIntent _ _) => unfold persistRevocationIntent
  end.

Lemma keeps_abandon {A} materials id operation : keeps (abandon (A := A) env materials id operation).
Proof.
  unfold abandon. keeps_step; [|repeat keeps_step].
  induction materials as [|material materials IH]; simpl; [apply keeps_ret|]. keeps_step; [apply keeps_note|done].
Qed.

Lemma keeps_Issue_authorize broker prepared : keeps (Issue_authorize env broker prepared).
Proof.
  unfold Issue_authorize, Issue_child, Issue_anchor, Issue_inspect, Issue_dynamic, Issue_activate. cbv zeta.
  repeat first [apply keeps_abandon | keeps_step].
Qed.

Lemma keeps_Issue broker ctx handle : keeps (Issue env broker ctx handle).
Proof. unfold Issue. repeat first [apply keeps_Issue_authorize | keeps_step]. Qed.

Lemma keeps_RecordNoCredential_record prepared : keeps (RecordNoCredential_record env prepared).
Proof. unfold RecordNoCredential_record. repeat keeps_step. Qed.

Lemma keeps_RecordNoCredential broker ctx handle : keeps (RecordNoCredential env broker ctx handle).
Proof. unfold RecordNoCredential. repeat first [apply keeps_RecordNoCredential_record | keeps_step]. Qed.

Lemma keeps_Prepare broker ctx request : keeps (Prepare env broker ctx request).
Proof. unfold Prepare, Prepare_record, preflightFinalizeContext. cbv zeta. repeat keeps_step. Qed.
End keeps.

Section handles.
Context {W : Type} (env : Environment W).

(** Consuming a handle makes no call, and finds the heap as other callers left it. *)
Lemma consumeHandle_ends broker ctx handle phase w :
  ends (consumeHandle env broker ctx handle phase) (fun r w' => sc_trace w' = sc_trace w /\
    if r is Ok prepared then exists steps,
      consumePrepared broker handle phase (heapSteps steps (sc_state w)) = (Ok prepared, sc_state w') else True) w.
Proof.
  unfold consumeHandle. destruct ctx; [by apply ends_ret|]. apply ends_bind, ends_consult. intros err o.
  destruct err as [e|]; [by apply ends_ret|]. unfold others. apply ends_bind, ends_bind, ends_consult. intros steps o'.
  apply ends_atomically. intros [] heap [= <-]. apply ends_atomically. intros [prepared|e] heap' Hr; [|done]. split; [done|].
  by exists steps.
Qed.

(** A call that consumed the handle leaves it spent. *)
Lemma consumed_keeps {A} p broker ctx handle phase (k : consumedPreparedCredential -> Talk Heap Event W (Result A)) w :
  phase <> preparedDurableCredentialReady -> pdc_state handle = p -> (forall prepared, keeps (spent p) (k prepared)) ->
  heap_wf (sc_state w) ->
  ends (attempt (consumeHandle env broker ctx handle phase) k) (fun r w' =>
    (sc_trace w' = sc_trace w /\ exists e, r = Err e) \/ (heap_wf (sc_state w') /\ spent p (sc_state w'))) w.
Proof.
  intros Hph Hp Hk Hwf. apply ends_attempt. eapply ends_mono; [apply consumeHandle_ends|].
  intros [prepared|e] w1 [Htr Hc]; [|left; eauto]. destruct Hc as [steps Hc].
  eapply ends_mono; [apply Hk|by right]. assert (heap_wf (heapSteps steps (sc_state w))) as Hwf'.
  { by apply (heapSteps_stable (fun _ => True)). }
  split; [|rewrite <- Hp; by eapply consumed_spent].
  apply (consumePrepared_wf broker handle phase) in Hwf'. by rewrite Hc in Hwf'.
Qed.
End handles.

(** A call that uses a prepared handle, and the error it returns. *)
Definition failure {A} (r : Result A) : option GoError := if r is Err e then Some e else None.

Inductive handle_call {W} (env : Environment W) (broker : option Z) (ctx : Context) (handle : PreparedDurableCredential)
    (w w' : Scene Heap Event W) : option GoError -> Prop :=
| call_Issue r : Issue env broker ctx handle w = (r, w') -> handle_call env broker ctx handle w w' (failure r)
| call_RecordNoCredential r :
    RecordNoCredential env broker ctx handle w = (r, w') -> handle_call env broker ctx handle w w' (failure r).

(** A call uses the handle up, unless it makes no call of its own and fails. *)
Lemma handle_call_spent {W} (env : Environment W) broker ctx handle w w' e :
  heap_wf (sc_state w) -> handle_call env broker ctx handle w w' e ->
  (sc_trace w' = sc_trace w /\ is_Some e) \/ (heap_wf (sc_state w') /\ spent (pdc_state handle) (sc_state w')).
Proof.
  intros Hwf [r Hrun|r Hrun]; eapply ends_run in Hrun;
    [|apply (consumed_keeps env); [done|reflexivity|apply (keeps_Issue_authorize env), spent_stable|done]
     |idtac|apply (consumed_keeps env); [done|reflexivity|apply keeps_RecordNoCredential_record|done]];
    destruct Hrun as [[Htr [e' ->]]|Hs]; eauto.
Qed.

(** A spent handle stops a call before it does anything. *)
Lemma handle_call_refused {W} (env : Environment W) broker ctx handle w w' e :
  heap_wf (sc_state w) -> spent (pdc_state handle) (sc_state w) -> handle_call env broker ctx handle w w' e ->
  sc_trace w' = sc_trace w /\ is_Some e.
Proof.
  intros Hwf Hs. assert (forall A phase (k : consumedPreparedCredential -> Talk Heap Event W (Result A)),
    ends (attempt (consumeHandle env broker ctx handle phase) k) (fun r w' => sc_trace w' = sc_trace w /\ is_Some (failure r)) w)
    as Hstop.
  { intros A phase k. apply ends_attempt. eapply ends_mono; [apply consumeHandle_ends|].
    intros [prepared|e'] w1 [Htr Hc]; [|simpl; eauto]. destruct Hc as [steps Hc].
    rewrite spent_refused in Hc; [done|].
    by apply (heapSteps_stable _ (spent_stable (pdc_state handle))). }
  intros [r Hrun|r Hrun]; by eapply ends_run in Hrun; [|apply Hstop].
Qed.

Lemma gone_secret clock credential heap : gone (dc_state credential) heap -> (Secret clock credential heap).1 = ""%string.
Proof.
  intros (state & Hl & Hs). unfold Secret. rewrite Hl. by repeat case_match.
Qed.

(** A call of a broker's method. *)
Inductive method_call {W} (env : Environment W) (w : Scene Heap Event W) : Scene Heap Event W -> Prop :=
| method_Prepare broker ctx request : method_call env w (Prepare env broker ctx request w).2
| method_Issue broker ctx handle : method_call env w (Issue env broker ctx handle w).2
| method_RecordNoCredential broker ctx handle : method_call env w (RecordNoCredential env broker ctx handle w).2.

Lemma method_calls_keep {W} (env : Environment W) P w w' :
  stable P -> rtc (method_call env) w w' -> heap_wf (sc_state w) -> P (sc_state w) ->
  heap_wf (sc_state w') /\ P (sc_state w').
Proof.
  intros HP. induction 1 as [|w1 w2 w3 Hc _ IH]; [done|]. intros Hwf Hs.
  assert (heap_wf (sc_state w2) /\ P (sc_state w2)) as []; [|by apply IH]. destruct Hc.
  - by apply (keeps_Prepare env P HP).
  - by apply (keeps_Issue env P HP).
  - by apply (keeps_RecordNoCredential env P HP).
Qed.

(** Reading a secret at or after its deadline destroys it. *)
Lemma Secret_expired clock credential heap state :
  heap_wf heap -> hp_credentials heap !! dc_state credential = Some state -> validMetadata credential state = true ->
  dc_expiresAt credential <= clock ->
  (Secret clock credential heap).1 = ""%string /\ heap_wf (Secret clock credential heap).2 /\
  gone (dc_state credential) (Secret clock credential heap).2.
Proof.
  intros Hwf Hl Hm Hexp. unfold Secret. rewrite Hl, Hm. simpl.
  replace (IsZero clock || negb (After (dc_expiresAt credential) clock)) with true; [simpl|].
  - split_and!; [done|exact (heapStep_wf (StepDestroy credential) _ Hwf)|]. unfold destroySecret, gone. rewrite Hl. simpl.
    eexists. by rewrite lookup_insert_eq.
  - unfold After. destruct (Z.ltb_spec clock (dc_expiresAt credential)); [lia|]. by rewrite orb_true_r.
Qed.

(** ** Requests to revoke one credential *)

Definition requests_start (state : durableCredentialState) : Requests :=
  {| rq_state := withFlight None {| state with dcs_result := None |}; rq_requesters := ∅ |}.

Definition request_step (requests requests' : Requests) : Prop := exists step, requestStep step requests = Some requests'.

(** The flight is the caller whose request is on its way; there is none once an answer was
    kept; success is the kept answer; a caller waits for one that has begun. *)
Record requests_wf (requests : Requests) : Prop := {
  rw_flight who : rq_requesters requests !! who = Some RequesterCalls <-> dcs_flight (rq_state requests) = Some who;
  rw_landed : dcs_result (rq_state requests) <> None -> dcs_flight (rq_state requests) = None;
  rw_success who r : rq_requesters requests !! who = Some (RequesterReturned (Ok r)) ->
    dcs_result (rq_state requests) = Some r;
  rw_valid r : dcs_result (rq_state requests) = Some r -> validRequestedRevocation r (rq_state requests) = true;
  rw_destroyed : rq_requesters requests <> ∅ -> dcs_secret (rq_state requests) = ""%string
}.

(** The check of an answer does not depend on what requests change. *)
Lemma validRequestedRevocation_ext r state state' :
  dcs_revocationID state = dcs_revocationID state' -> dcs_activeSnapshot state = dcs_activeSnapshot state' ->
  validRequestedRevocation r state = validRequestedRevocation r state'.
Proof. unfold validRequestedRevocation. by intros -> ->. Qed.

Lemma requests_start_wf state : requests_wf (requests_start state).
Proof. by split. Qed.

(** A caller that neither had nor gets the flight moves, and the state keeps its flight and answer. *)
Lemma moves_wf requests who place state :
  requests_wf requests -> rq_requesters requests !! who <> Some RequesterCalls -> place <> RequesterCalls ->
  dcs_flight state = dcs_flight (rq_state requests) -> dcs_result state = dcs_result (rq_state requests) ->
  dcs_revocationID state = dcs_revocationID (rq_state requests) ->
  dcs_activeSnapshot state = dcs_activeSnapshot (rq_state requests) -> dcs_secret state = ""%string ->
  (forall r, place = RequesterReturned (Ok r) -> dcs_result (rq_state requests) = Some r) ->
  requests_wf (moves who place state requests).
Proof.
  intros [Hf Hl Hs Hv Hd] Hwho Hplace Hfl Hres Hid Hsnap Hsec Hok. split; simpl; rewrite ?Hfl, ?Hres; try done.
  - intros who'. destruct (decide (who' = who)) as [->|]; [|by rewrite lookup_insert_ne].
    rewrite lookup_insert_eq, <- Hf. split; [by intros [= ?]|done].
  - intros who' r. destruct (decide (who' = who)) as [->|]; [|rewrite lookup_insert_ne by done; apply Hs].
    rewrite lookup_insert_eq. intros [= ?]. by apply Hok.
  - intros r Hr. rewrite (validRequestedRevocation_ext r state (rq_state requests)) by done. by apply Hv.
Qed.

Lemma requestTurns_wf requests who err :
  requests_wf requests -> rq_requesters requests !! who = Some RequesterLoops ->
  requests_wf (requestTurns who err requests).
Proof.
  intros Hwf Hwho. assert (dcs_secret (rq_state requests) = ""%string) as Hsec.
  { apply (rw_destroyed _ Hwf). intros He. by rewrite He, lookup_empty in Hwho. }
  unfold requestTurns. destruct (dcs_result (rq_state requests)) as [result|] eqn:Hr.
  { apply moves_wf; try done; [by rewrite Hwho|]. by intros r [= <-]. }
  destruct (dcs_flight (rq_state requests)) as [flight|] eqn:Hf; [apply moves_wf; by rewrite ?Hwho|].
  destruct err as [e|]; [apply moves_wf; by rewrite ?Hwho|].
  destruct Hwf as [Hfl Hl Hs Hv Hd]. split; simpl; rewrite ?Hr; try done.
  - intros who'. destruct (decide (who' = who)) as [->|]; [by rewrite lookup_insert_eq|].
    rewrite lookup_insert_ne, Hfl by done. split; [congruence|intros [= ?]; congruence].
  - intros who' r. destruct (decide (who' = who)) as [->|]; [by rewrite lookup_insert_eq|].
    rewrite lookup_insert_ne by done. intros ?%Hs. congruence.
Qed.

Lemma requestAnswered_wf requests who answer :
  requests_wf requests -> rq_requesters requests !! who = Some RequesterCalls ->
  requests_wf (requestAnswered who answer requests).
Proof.
  intros Hwf Hwho. assert (dcs_secret (rq_state requests) = ""%string) as Hsec.
  { apply (rw_destroyed _ Hwf). intros He. by rewrite He, lookup_empty in Hwho. }
  destruct Hwf as [Hfl Hl Hs Hv Hd]. pose proof (proj1 (Hfl who) Hwho) as Hflight.
  assert (dcs_result (rq_state requests) = None) as Hnone.
  { destruct (dcs_result (rq_state requests)) eqn:Hr; [|done]. rewrite Hl in Hflight by done. done. }
  assert (forall result, requests_wf (moves who (RequesterReturned (Err result)) (withFlight None (rq_state requests)) requests))
    as Hfailed.
  { intros result. split; simpl; rewrite ?Hnone; try done.
    - intros who'. destruct (decide (who' = who)) as [->|]; [by rewrite lookup_insert_eq|].
      rewrite lookup_insert_ne, Hfl by done. split; congruence.
    - intros who' r. destruct (decide (who' = who)) as [->|]; [by rewrite lookup_insert_eq|].
      rewrite lookup_insert_ne by done. intros ?%Hs. congruence. }
  unfold requestAnswered. destruct answer as [revocation|e]; [|apply Hfailed].
  destruct (validRequestedRevocation revocation (rq_state requests)) eqn:Hvalid; [|apply Hfailed].
  split; simpl; try done.
  - intros who'. destruct (decide (who' = who)) as [->|]; [by rewrite lookup_insert_eq|].
    rewrite lookup_insert_ne, Hfl by done. split; congruence.
  - intros who' r. destruct (decide (who' = who)) as [->|]; [rewrite lookup_insert_eq; congruence|].
    rewrite lookup_insert_ne by done. intros ?%Hs. congruence.
  - intros r [= <-]. done.
Qed.

Lemma request_step_wf requests requests' : request_step requests requests' -> requests_wf requests -> requests_wf requests'.
Proof.
  intros [step Hstep] Hwf. destruct step as [who broker ctx credential|who err|who err|who answer]; simpl in Hstep.
  - destruct (rq_requesters requests !! who) eqn:Hwho; simplify_eq/=. unfold requestBegins. cbv zeta.
    apply moves_wf; try done; [by rewrite Hwho| |]; destruct (match broker with Some _ => _ | None => _ end); done.
  - destruct (rq_requesters requests !! who) as [[]|] eqn:Hwho; simplify_eq/=. by apply requestTurns_wf.
  - destruct (rq_requesters requests !! who) as [[]|] eqn:Hwho; simplify_eq/=; try (by destruct err).
    assert (dcs_secret (rq_state requests) = ""%string) as Hsec.
    { apply (rw_destroyed _ Hwf). intros He. by rewrite He, lookup_empty in Hwho. }
    destruct err as [e|]; [|destruct (_ == _); [done|]]; simplify_eq/=; apply moves_wf; by rewrite ?Hwho.
  - destruct (rq_requesters requests !! who) as [[]|] eqn:Hwho; simplify_eq/=. by apply requestAnswered_wf.
Qed.

Lemma requests_wf_steps requests requests' : rtc request_step requests requests' -> requests_wf requests -> requests_wf requests'.
Proof. intros Hs. induction Hs; eauto using request_step_wf. Qed.

(** The kept answer stays. *)
Lemma request_step_result requests requests' r :
  requests_wf requests -> request_step requests requests' ->
  dcs_result (rq_state requests) = Some r -> dcs_result (rq_state requests') = Some r.
Proof.
  intros Hwf [step Hstep] Hr. destruct step as [who broker ctx credential|who err|who err|who answer]; simpl in Hstep.
  - destruct (rq_requesters requests !! who); by simplify_eq/=.
  - destruct (rq_requesters requests !! who) as [[]|]; simplify_eq/=. unfold requestTurns. by rewrite Hr.
  - destruct (rq_requesters requests !! who) as [[]|], err; repeat case_match; by simplify_eq/=.
  - destruct (rq_requesters requests !! who) as [[]|] eqn:Hwho; simplify_eq/=.
    apply (rw_flight _ Hwf) in Hwho. rewrite (rw_landed _ Hwf) in Hwho by congruence. done.
Qed.

Lemma request_steps_result requests requests' r :
  rtc request_step requests requests' -> requests_wf requests ->
  dcs_result (rq_state requests) = Some r -> dcs_result (rq_state requests') = Some r.
Proof. intros Hs. induction Hs; eauto using request_step_result, request_step_wf. Qed.

(** Which credential it is never changes. *)
Lemma request_steps_same requests requests' :
  rtc request_step requests requests' ->
  dcs_revocationID (rq_state requests') = dcs_revocationID (rq_state requests) /\
  dcs_activeSnapshot (rq_state requests') = dcs_activeSnapshot (rq_state requests).
Proof.
  induction 1 as [|x y z [step Hstep] _ [-> ->]]; [done|]. destruct step; simpl in Hstep;
    repeat case_match; simplify_eq/=; try done; unfold requestTurns, requestAnswered; repeat case_match; done.
Qed.

(** A caller that waits can be woken, or the caller it waits for has its request on its way. *)
Lemma waiting_progress requests who flight :
  requests_wf requests -> rq_requesters requests !! who = Some (RequesterWaits flight) ->
  is_Some (requestStep (RequestWakes who None) requests) \/ rq_requesters requests !! flight = Some RequesterCalls.
Proof.
  intros Hwf Hwho. rewrite (rw_flight _ Hwf). simpl. rewrite Hwho.
  destruct (dcs_flight (rq_state requests) == Some flight) eqn:Hf; [right; by guards|left; eauto].
Qed.

(** ** The registry *)

Lemma registerIssuer_Ok registration issuers identities issuers' identities' :
  registerIssuer registration (issuers, identities) = Ok (issuers', identities') ->
  let resolved := {| rdi_Profile := ir_Profile registration; rdi_Issuer := ir_Issuer registration |} in
  issuers !! ir_Selection registration = None /\
  issuers' = <[ir_Selection registration := resolved]> issuers /\
  validDurableSelection (ir_Selection registration) = true /\ validDurableResolution resolved = true /\
  identities' !! registrationIdentity registration = Some resolved /\
  (forall identity other, identities !! identity = Some other -> identities' !! identity = Some other).
Proof.
  unfold registerIssuer. cbv zeta. intros H.
  apply Result_bind_Ok in H as (u & H1%ensure_Ok & H). apply Result_bind_Ok in H as (u' & H2%ensure_Ok & H).
  apply Result_bind_Ok in H as (ids & H3 & [= <- <-]). guards.
  destruct (issuers !! ir_Selection registration); [done|]. split_and!; try done.
  - destruct (identities !! registrationIdentity registration) as [existing|] eqn:He.
    + apply Result_bind_Ok in H3 as (u'' & H4%ensure_Ok & [= <-]). guards. rewrite He. destruct existing. simpl in *. congruence.
    + injection H3 as <-. by rewrite lookup_insert_eq.
  - intros identity other Ho. destruct (identities !! registrationIdentity registration) as [existing|] eqn:He.
    + by apply Result_bind_Ok in H3 as (u'' & _ & [= <-]).
    + injection H3 as <-. rewrite lookup_insert_ne; [done|congruence].
Qed.

Definition registered (registration : IssuerRegistration) : ResolvedDurableIssuer :=
  {| rdi_Profile := ir_Profile registration; rdi_Issuer := ir_Issuer registration |}.

(** The maps after the registrations [registrations]. *)
Record registry_of (registrations : list IssuerRegistration) (issuers : IssuerRegistry)
    (identities : gmap scopedDurableIssuerIdentity ResolvedDurableIssuer) : Prop := {
  ro_lookup selection resolved : issuers !! selection = Some resolved <->
    exists registration, registration ∈ registrations /\ ir_Selection registration = selection /\
      resolved = registered registration;
  ro_valid registration : registration ∈ registrations ->
    validDurableSelection (ir_Selection registration) = true /\ validDurableResolution (registered registration) = true;
  ro_identity registration : registration ∈ registrations ->
    identities !! registrationIdentity registration = Some (registered registration)
}.

Lemma registerIssuer_registry registrations registration issuers identities issuers' identities' :
  registry_of registrations issuers identities ->
  registerIssuer registration (issuers, identities) = Ok (issuers', identities') ->
  registry_of (registrations ++ [registration]) issuers' identities'.
Proof.
  intros [Hl Hv Hi] (Hnew & -> & Hsel & Hres & Hid & Hkeep)%registerIssuer_Ok. split.
  - intros selection resolved. unfold IssuerRegistry in *. rewrite lookup_insert_Some, Hl. split.
    + intros [[<- <-]|(Hne & reg & Hin & Hs & ->)].
      * exists registration. split_and!; [apply elem_of_app; right; by apply list_elem_of_singleton|done|done].
      * exists reg. split_and!; [apply elem_of_app; by left|done|done].
    + intros (reg & [Hin|Hin%list_elem_of_singleton]%elem_of_app & Hs & ->); [|subst; by left].
      right. split; [|eauto]. intros Heq. rewrite Heq in Hnew.
      assert (issuers !! selection = Some (registered reg)) as Hsome by (apply Hl; eauto). congruence.
  - intros reg [Hin|Hin%list_elem_of_singleton]%elem_of_app; [by apply Hv|by subst].
  - intros reg [Hin|Hin%list_elem_of_singleton]%elem_of_app; [by apply Hkeep, Hi|by subst].
Qed.

Lemma registerIssuers_registry more registrations issuers identities issuers' identities' :
  registry_of registrations issuers identities ->
  registerIssuers more (issuers, identities) = Ok (issuers', identities') ->
  registry_of (registrations ++ more) issuers' identities'.
Proof.
  revert registrations issuers identities. induction more as [|registration more IH]; intros registrations issuers identities Hr Hm.
  - injection Hm as <- <-. by rewrite app_nil_r.
  - simpl in Hm. apply Result_bind_Ok in Hm as ([issuers1 identities1] & H1 & Hm).
    rewrite cons_middle, app_assoc. eapply IH; [by eapply registerIssuer_registry|done].
Qed.

Lemma NewIssuerRegistry_Ok registrations registry :
  NewIssuerRegistry registrations = Ok registry -> exists identities, registry_of registrations registry identities.
Proof.
  unfold NewIssuerRegistry. intros H. apply Result_bind_Ok in H as (u & _ & H).
  apply Result_bind_Ok in H as ([issuers identities] & H & [= <-]). exists identities.
  apply (registerIssuers_registry _ [] ∅ ∅); [|done]. split; [|set_solver..].
  intros selection resolved. unfold IssuerRegistry. rewrite lookup_empty. set_solver.
Qed.
