(* ===== verification/RepositoryTrace.v ===== *)
(** * Traces that a revocation repository backs

    A client of the repository leaves a trace of events.  The repository backs the trace when
    every answer in it is one the repository gave, with other callers' changes in
    between.  An answer may also be lost: the client sees an error although the call was
    carried out.  A program stands when every trace it leaves is backed. *)

From S2P Require Import Prelude.
From S2P Require Import Interaction.
From S2P Require Import Credential.
From S2P Require Import CredentialFacts.
From S2P Require Import CredentialInvariant.
From S2P Require Import CredentialHistory.

(** What a caller sees of a result. *)
Definition seen {A} (result answer : Result A) : Prop := answer = result \/ exists e, answer = Err e.

(** A call is a step of the repository. *)
Lemma ran_result {A} (m : M MemoryRepository A) s result s' : m s = (result, s') -> exists u, ran m s = (u, s').
Proof. intros Hm. unfold ran, mbind, M_bind. rewrite Hm. destruct result; eauto. Qed.

Section backed.
Context {E : Type} (call : MemoryRepository -> E -> MemoryRepository -> Prop).

Inductive backed_by : MemoryRepository -> list E -> MemoryRepository -> Prop :=
| backed_nil s s' : rtc repository_step s s' -> backed_by s [] s'
| backed_cons event t s s1 s2 s' :
    rtc repository_step s s1 -> call s1 event s2 -> backed_by s2 t s' -> backed_by s (event :: t) s'.

Lemma backed_rtc s s1 t s' : rtc repository_step s s1 -> backed_by s1 t s' -> backed_by s t s'.
Proof. intros Hs Hb. destruct Hb; [apply backed_nil; by eapply rtc_trans|]. eapply backed_cons; [by eapply rtc_trans|done..]. Qed.

Lemma backed_app s t s1 t' s' : backed_by s t s1 -> backed_by s1 t' s' -> backed_by s (t ++ t') s'.
Proof. induction 1; intros Hb; simpl; [by eapply backed_rtc|econstructor; eauto]. Qed.

Context (call_steps : forall s event s', call s event s' -> rtc repository_step s s').

Lemma backed_by_steps s t s' : backed_by s t s' -> rtc repository_step s s'.
Proof.
  induction 1 as [|event t s s1 s2 s' Hs He Ht IH]; [done|]. etrans; [exact Hs|]. etrans; [by eapply call_steps|done].
Qed.

(** Reading a backed trace at one of its events. *)
Lemma backed_by_split s t event t' s' :
  backed_by s (t ++ event :: t') s' ->
  exists s1 s2, rtc repository_step s s1 /\ call s1 event s2 /\ backed_by s2 t' s'.
Proof.
  revert s. induction t as [|event' t IH]; intros s Hb; inversion Hb as [|? ? ? sa sb ? Hs He Ht]; subst; [by exists sa, sb|].
  destruct (IH _ Ht) as (s1 & s2 & Hs1 & He1 & Ht1). exists s1, s2. split_and!; [|done|done].
  etrans; [exact Hs|]. etrans; [by eapply call_steps|done].
Qed.
End backed.

(** ** Programs whose traces are backed *)

Section stands.
Context {S E W : Type} (call : MemoryRepository -> E -> MemoryRepository -> Prop) (repo : W -> MemoryRepository).
Abbreviation backed := (backed_by call).

(** While the question is answered, other callers may use the repository. *)
Definition quiet {A} (question : W -> A * W) : Prop := forall w, rtc repository_step (repo w) (repo (question w).2).

(** The question is a call of the repository, among those of other callers. *)
Definition backs {A} (question : W -> A * W) (event : A -> E) : Prop :=
  forall w, backed (repo w) [event (question w).1] (repo (question w).2).

Definition stands {A} (p : Talk S E W A) : Prop :=
  forall w, ends p (fun _ w' => exists t, sc_trace w' = sc_trace w ++ t /\
    backed (repo (sc_oracle w)) t (repo (sc_oracle w'))) w.

Lemma quiet_backs {A} (question : W -> A * W) event :
  quiet question -> (forall a s, call s (event a) s) -> backs question event.
Proof. intros Hq Ho w. econstructor; [apply Hq|apply Ho|]. apply backed_nil, rtc_refl. Qed.

Lemma stands_ret {A} (a : A) : stands (mret a).
Proof. intros w. apply ends_ret. exists []. rewrite app_nil_r. split; [done|]. apply backed_nil, rtc_refl. Qed.

Lemma stands_bind {A B} (p : Talk S E W B) (k : B -> Talk S E W A) :
  stands p -> (forall b, stands (k b)) -> stands (p ≫= k).
Proof.
  intros Hp Hk w. apply ends_bind. eapply ends_mono; [apply Hp|]. intros b w1 (t1 & Ht1 & Hb1).
  eapply ends_mono; [apply Hk|]. intros a w2 (t2 & Ht2 & Hb2). exists (t1 ++ t2).
  rewrite Ht2, Ht1, app_assoc. split; [done|by eapply backed_app].
Qed.

Lemma stands_consult {A} (question : W -> A * W) : quiet question -> stands (consult question).
Proof.
  intros Hq w. apply ends_consult_eq. intros a o Ho. specialize (Hq (sc_oracle w)). rewrite Ho in Hq.
  exists []. simpl. rewrite app_nil_r. split; [done|by apply backed_nil].
Qed.

Lemma stands_note event : (forall s, call s event s) -> stands (note event).
Proof.
  intros Ho w. apply ends_note. exists [event]. simpl. split; [done|].
  econstructor; [apply rtc_refl|apply Ho|apply backed_nil, rtc_refl].
Qed.

Lemma stands_exchange {A} (question : W -> A * W) event : backs question event -> stands (exchange question event).
Proof.
  intros Hb w. unfold exchange. apply ends_bind, ends_consult_eq. intros a o Ho. apply ends_bind, ends_note, ends_ret.
  specialize (Hb (sc_oracle w)). rewrite Ho in Hb. by exists [event a].
Qed.

Lemma stands_atomically {A} (section : S -> A * S) : stands (atomically section).
Proof.
  intros w. apply ends_atomically. intros a s _. exists []. simpl. rewrite app_nil_r. split; [done|].
  apply backed_nil, rtc_refl.
Qed.

Lemma stands_run {A} (p : Talk S E W A) w r w' t :
  stands p -> p w = (r, w') -> sc_trace w' = sc_trace w ++ t -> backed (repo (sc_oracle w)) t (repo (sc_oracle w')).
Proof.
  intros Hp Hrun Ht. destruct (ends_run _ _ _ _ _ (Hp w) Hrun) as (t' & Ht' & Hb).
  rewrite Ht in Ht'. by apply app_inv_head in Ht' as ->.
Qed.

(** The repository behind a run stays reachable. *)
Lemma stands_reachable {A} (p : Talk S E W A) w r w' :
  (forall s event s', call s event s' -> rtc repository_step s s') -> stands p -> p w = (r, w') ->
  repository_reachable (repo (sc_oracle w)) -> repository_reachable (repo (sc_oracle w')).
Proof.
  intros Hcall Hp Hrun Hs. destruct (ends_run _ _ _ _ _ (Hp w) Hrun) as (t' & _ & Hb).
  eapply reachable_steps; [exact Hs|by eapply backed_by_steps].
Qed.
End stands.
