(* ===== verification/BrokerSystem.v ===== *)
(** * The broker and the revocation repository together

    A run of the broker is backed by a repository when every answer of the repository in its
    trace is one that repository gave.  What the protocol then means for the records. *)

From S2P Require Import Prelude.
From S2P Require Import Interaction.
From S2P Require Import Sha256.
From S2P Require Import GoText.
From S2P Require Import GoStrings.
From S2P Require Import GoJson.
From S2P Require Import GoSort.
From S2P Require Import Credential.
From S2P Require Import CredentialFacts.
From S2P Require Import CredentialInvariant.
From S2P Require Import CredentialHistory.
From S2P Require Import RepositoryTrace.
From S2P Require Import DurableHandles.
From S2P Require Import DurableBroker.
From S2P Require Import DurableBrokerFacts.
From S2P Require Import DurableHeap.

Open Scope Z_scope.

(** ** Traces that a repository backs *)

(** Events that are not calls of the repository. *)
Definition outside (event : Event) : bool :=
  match event with
  | EvPrepare _ _ | EvAuthorize _ _ | EvRecordAnchor _ _ | EvActivate _ _ | EvRecordNoCredential _ _
  | EvRequestRevocation _ _ => false
  | _ => true
  end.

Inductive backed_event : MemoryRepository -> Event -> MemoryRepository -> Prop :=
| backed_prepare err err' clock clock' answer1 answer2 permit request result answer s s' :
    running clock -> running clock' ->
    Repository_Prepare err err' clock clock' answer1 answer2 permit request s = (result, s') -> seen result answer ->
    backed_event s (EvPrepare request answer) s'
| backed_authorize err err' clock source request result answer s s' :
    running clock -> Repository_AuthorizeChildCreate err err' clock source request s = (result, s') ->
    seen result answer -> backed_event s (EvAuthorize request answer) s'
| backed_anchor err err' clock clock' source protector request result answer s s' :
    running clock -> running clock' ->
    Repository_RecordAnchor err err' clock clock' source protector request s = (result, s') -> seen result answer ->
    backed_event s (EvRecordAnchor request answer) s'
| backed_activate err err' clock clock' source request result answer s s' :
    running clock -> running clock' -> Repository_Activate err err' clock clock' source request s = (result, s') ->
    seen result answer -> backed_event s (EvActivate request answer) s'
| backed_none err err' clock inspected request result answer s s' :
    running clock -> Repository_RecordNoCredential err err' clock inspected request s = (result, s') ->
    seen result answer -> backed_event s (EvRecordNoCredential request answer) s'
| backed_request err err' clock inspected request result answer s s' :
    running clock -> Repository_RequestRevocation err err' clock inspected request s = (result, s') ->
    seen result answer -> backed_event s (EvRequestRevocation request answer) s'
| backed_outside event s : outside event = true -> backed_event s event s.

Abbreviation backed := (backed_by backed_event).

(** The call of an event is a step of the repository. *)
Ltac backed_call := split; [simpl; rewrite ?Forall_cons, Forall_nil; tauto|done].

Lemma backed_event_steps s event s' : backed_event s event s' -> rtc repository_step s s'.
Proof.
  intros Hb. destruct Hb;
    try (apply rtc_once; match goal with H : _ _ = (_, _) |- _ => destruct (ran_result _ _ _ _ H) as [u Hu] end).
  - exists (CallPrepare err err' clock clock' answer1 answer2 permit request), u. backed_call.
  - exists (CallAuthorizeChildCreate err err' clock source request), u. backed_call.
  - exists (CallRecordAnchor err err' clock clock' source protector request), u. backed_call.
  - exists (CallActivate err err' clock clock' source request), u. backed_call.
  - exists (CallRecordNoCredential err err' clock inspected request), u. backed_call.
  - exists (CallRequestRevocation err err' clock inspected request), u. backed_call.
  - exact (rtc_refl _ _).
Qed.

Lemma backed_steps s t s' : backed s t s' -> rtc repository_step s s'.
Proof. apply backed_by_steps, backed_event_steps. Qed.

Lemma backed_split s t event t' s' :
  backed s (t ++ event :: t') s' ->
  exists s1 s2, rtc repository_step s s1 /\ backed_event s1 event s2 /\ backed s2 t' s'.
Proof. apply backed_by_split, backed_event_steps. Qed.

(** ** The protocol, read at its events *)

Lemma issued_child prepared t r issuer request child err :
  Issued prepared t r -> EvCreateChild issuer request child err ∈ t ->
  exists authorized t',
    t = EvValidateManager (rdi_Issuer (cpc_resolved prepared)) (Ok tt) ::
        EvAuthorize (authorizeRequest prepared) (Ok authorized) :: t' /\
    validChildCreateAuthorization authorized (cpc_prepared prepared) (cpc_revocationID prepared) (cpc_request prepared)
      (rdi_Profile (cpc_resolved prepared)) (cpc_expiresAt prepared) = true /\
    request = childRequest prepared authorized.
Proof.
  intros Hi Hin.
  assert (forall id t, Abandoned id t -> EvCreateChild issuer request child err ∉ t) as Hab.
  { intros id t' Ht Hin'. destruct Ht; set_solver. }
  destruct Hi as [| |authorized t' r Hv Hc]; [set_solver..|]. exists authorized, t'. split_and!; [done|done|].
  assert (EvCreateChild issuer request child err ∈ t') as Hin' by set_solver. clear Hin.
  destruct Hc as [| |child' err' e' e t2 _ Ht|child' err' anchored t2 r Hacc Ha Hr]; [set_solver..| |].
  - specialize (Hab _ _ Ht). set_solver.
  - destruct Ha as [e t3 Ht|answer e t3 Ht _ _|dynamic err2 e t3 Ht _ _|dynamic now t3 r _ _ _ Hact];
      [specialize (Hab _ _ Ht); set_solver..|].
    destruct Hact as [e t4 Ht|answer e t4 Ht|active credential _ _ _]; [specialize (Hab _ _ Ht); set_solver..|set_solver].
Qed.

(** A child is created at most once. *)
Definition creates (event : Event) : bool := if event is EvCreateChild _ _ _ _ then true else false.

Lemma issued_once prepared t r : Issued prepared t r -> (length (List.filter creates t) <= 1)%nat.
Proof.
  intros Hi. destruct Hi as [| |authorized t r Hv Hc]; simpl; [lia|lia|].
  destruct Hc as [| |child err e' e t _ Ht|child err anchored t r Hacc Ha _]; simpl; [lia|lia| |].
  - destruct Ht; simpl; lia.
  - destruct Ha as [e t Ht|answer e t Ht _ _|dynamic err2 e t Ht _ _|dynamic now t r _ _ _ Hact]; simpl;
      [destruct Ht; simpl; lia..|].
    destruct Hact as [e t Ht|answer e t Ht|active credential _ _ _]; simpl; [destruct Ht; simpl; lia..|lia].
Qed.

(** A credential that was handed over: its record was activated, and outlives it. *)
Lemma issued_credential prepared t credential :
  Issued prepared t (Ok credential) ->
  exists active, EvActivate (activateRequest prepared) (Ok active) ∈ t /\ rev_Status active = StatusActive /\
    dc_revocationID credential = cpc_revocationID prepared /\ dc_expiresAt credential <= rev_CredentialExpiresAt active.
Proof.
  intros Hi. inversion Hi as [| |authorized t' r Hv Hc]; subst. inversion Hc as [| | |child err anchored t2 r _ Ha _]; subst.
  inversion Ha as [| | |dynamic now t3 r _ _ Hdyn Hact]; subst.
  inversion Hact as [| |active credential' Hactive Hid Hexp]; subst. exists active.
  unfold validActiveResult in Hactive. guards.
  match goal with H : validFrozenRevocation _ _ _ _ _ _ _ = true |- _ =>
    apply validFrozenRevocation_true in H as (_ & He & Hst & _) end.
  unfold validDynamicSecret, After in Hdyn. unfold validChildCreateAuthorization in Hv. guards.
  split_and!; [set_solver|done|done|]. rewrite He, Hexp. simpl in *. lia.
Qed.

(** The revocation was requested, unless no context for that could be had. *)
Definition unwound (id : string) (t : list Event) : Prop :=
  EvFinalizeContext false ∈ t \/ exists answer, EvRequestRevocation (revocationOf id) answer ∈ t.

Lemma unwound_cons id event t : unwound id t -> unwound id (event :: t).
Proof. intros [H|[answer H]]; [left|right; exists answer]; apply elem_of_cons; by right. Qed.

Lemma unwound_Abandoned id t : Abandoned id t -> unwound id t.
Proof. intros [|answer]; [left|right; exists answer]; set_solver. Qed.
#[local] Hint Resolve unwound_cons unwound_Abandoned : core.

(** A run that failed with an accessor in hand was unwound. *)
Lemma issued_failure prepared t e issuer request child err :
  Issued prepared t (Err e) -> EvCreateChild issuer request child err ∈ t -> is_Some (child_Accessor child) ->
  unwound (ccr_RevocationID request) t.
Proof.
  intros Hi Hin Hacc. destruct (issued_child _ _ _ _ _ _ _ Hi Hin) as (authorized & t' & -> & _ & ->).
  inversion Hi as [| |authorized' t0 r _ Hc]; subst; [set_solver|]. do 2 apply unwound_cons. simpl.
  inversion Hc as [child' err' e' Hnone| |child' err' e1 e' t2 _ Ht|child' err' anchored t2 r _ Ha _]; subst; auto.
  - exfalso. rewrite !elem_of_cons, elem_of_nil in Hin. destruct Hin as [?|[?|[?|[]]]]; simplify_eq. rewrite Hnone in Hacc. by destruct Hacc.
  - left. set_solver.
  - do 3 apply unwound_cons. inversion Ha as [| | |dynamic now t3 r _ _ _ Hact]; subst; [by auto..|].
    do 2 apply unwound_cons. inversion Hact; subst; auto.
Qed.

(** ** What the repository holds after such a trace *)

(** An authorisation the broker saw is on record for good. *)
Lemma backed_authorized s t s' request a :
  repository_reachable s -> backed s t s' -> EvAuthorize request (Ok a) ∈ t ->
  exists c, repo_records s' !! permit_RevocationID (auth_Permit request) = Some c /\
    rr_childCreateAuthorizedAt c = cca_DatabaseAuthorizedAt a /\ 0 < cca_DatabaseAuthorizedAt a /\
    expiry c = cca_CredentialExpiresAt a.
Proof.
  intros Hs Hb (t1 & t2 & ->)%list_elem_of_split. apply backed_split in Hb as (s1 & s2 & Hs1 & He & Ht).
  inversion He as [|err err' clock source ? result ? ? ? Hclock Hrun [Heq|[e He']]| | | | |]; subst; [|done|done].
  pose proof (authorize_Ok _ _ _ _ _ _ _ _ Hrun) as (inspection & r & []). subst.
  assert (repository_reachable s1) as Hreach by (by eapply reachable_steps).
  assert (repository_reachable (putRevocation (permit_RevocationID (auth_Permit request))
    (authorizedRecord (cca_DatabaseAuthorizedAt a) (cca_TTL a) r) s1)) as Hreach2.
  { eapply reachable_steps; [exact Hreach|]. eapply rtc_once, authorize_step; done. }
  destruct (record_later _ s' _ _ Hreach2 (backed_steps _ _ _ Ht) ltac:(by rewrite put_lookup, decide_True))
    as (Hwf & c & Hc & Hch). unfold running in Hclock.
  exists c. split_and!; [done| |lia|].
  - apply record_changes_authorization in Hch. destruct Hch as [Ha _]; simpl in *; [lia|done].
  - destruct (record_changes_same _ _ Hch) as [_ Hg _ _]. simpl in Hg. injection Hg. congruence.
Qed.

(** The answer to an activation is the record as it is then. *)
Lemma activate_answer err err' clock clock' source request s a s' :
  Repository_Activate err err' clock clock' source request s = (Ok a, s') ->
  exists q, repo_records s' !! transition_RevocationID request = Some q /\ rr_revocation q = a.
Proof.
  intros Hrun. backwards Hrun. unfold Repository_Activate. run_call; intros a' [= <-];
    eexists; (split; [|reflexivity]); by rewrite ?put_lookup, ?decide_True.
Qed.

(** A credential the broker saw activated is on record, and closes by revocation only. *)
Lemma backed_activated s t s' request active :
  repository_reachable s -> backed s t s' -> EvActivate request (Ok active) ∈ t -> rev_Status active = StatusActive ->
  exists c, repo_records s' !! transition_RevocationID request = Some c /\
    expiry c = rev_CredentialExpiresAt active /\ rtc lifecycle StatusActive (status c).
Proof.
  intros Hs Hb (t1 & t2 & ->)%list_elem_of_split Hact. apply backed_split in Hb as (s1 & s2 & Hs1 & He & Ht).
  assert (repository_reachable s2) as Hreach.
  { eapply reachable_steps; [exact Hs|]. etrans; [exact Hs1|]. by eapply backed_event_steps. }
  inversion He as [| | |err err' clock clock' source ? result ? ? ? _ _ Hrun [Heq|[e He']]| | |]; subst; [|done|done].
  destruct (activate_answer _ _ _ _ _ _ _ _ _ Hrun) as (q & Hq & <-).
  destruct (record_later _ _ _ _ Hreach (backed_steps _ _ _ Ht) Hq) as (_ & c & Hc & Hch). exists c. split_and!; [done| |].
  - destruct (record_changes_same _ _ Hch) as [_ Hg _ _]. injection Hg. congruence.
  - rewrite <- Hact. by apply record_changes_lifecycle.
Qed.

(** The revocation of the credential is under way or done. *)
Definition beingRevoked (status : RevocationStatus) : bool :=
  match status with
  | StatusRevocationPending | StatusRevoking | StatusManualRequired | StatusRevoked => true
  | _ => false
  end.

Lemma beingRevoked_later status status' :
  rtc lifecycle status status' -> beingRevoked status = true -> beingRevoked status' = true.
Proof. induction 1 as [|x y z Hl _ IH]; [done|]. intros Hx. apply IH. by destruct Hl. Qed.

Lemma active_later status : rtc lifecycle StatusActive status -> status = StatusActive \/ beingRevoked status = true.
Proof. intros Hl. inversion Hl as [|? y ? Hs Hr]; subst; [by left|right]. eapply beingRevoked_later; [exact Hr|]. by inversion Hs. Qed.

Lemma applyRequestRevocation_revoked r now r' : applyRequestRevocation r now = Ok r' -> beingRevoked (status r') = true.
Proof.
  unfold applyRequestRevocation. destruct (rev_Status (rr_revocation r)) eqn:Hst; intros [= <-]; try done;
    by rewrite Hst.
Qed.

Lemma request_answer err err' clock answer id s a s' :
  Repository_RequestRevocation err err' clock answer (revocationOf id) s = (Ok a, s') ->
  exists q, repo_records s' !! id = Some q /\ beingRevoked (status q) = true.
Proof.
  intros Hrun. backwards Hrun. unfold Repository_RequestRevocation. simpl transition_Fence. rewrite eqb_same. run_call.
  intros a' [= <-]. eexists. rewrite put_lookup, decide_True by done. split; [done|].
  by eapply applyRequestRevocation_revoked.
Qed.

(** A request the broker saw accepted: the credential is being revoked from then on. *)
Lemma backed_requested s t s' id a :
  repository_reachable s -> backed s t s' -> EvRequestRevocation (revocationOf id) (Ok a) ∈ t ->
  exists c, repo_records s' !! id = Some c /\ beingRevoked (status c) = true.
Proof.
  intros Hs Hb (t1 & t2 & ->)%list_elem_of_split. apply backed_split in Hb as (s1 & s2 & Hs1 & He & Ht).
  assert (repository_reachable s2) as Hreach.
  { eapply reachable_steps; [exact Hs|]. etrans; [exact Hs1|]. by eapply backed_event_steps. }
  inversion He as [| | | | |err err' clock answer ? result ? ? ? _ Hrun [Heq|[e He']]|]; subst; [|done|done].
  destruct (request_answer _ _ _ _ _ _ _ _ Hrun) as (q & Hq & Hbr).
  destruct (record_later _ _ _ _ Hreach (backed_steps _ _ _ Ht) Hq) as (_ & c & Hc & Hch). exists c. split; [done|].
  eapply beingRevoked_later; [by apply record_changes_lifecycle|done].
Qed.

(** From the events in view to the whole trace. *)
Lemma exchanges_subset t event : event ∈ exchanges t -> event ∈ t.
Proof. unfold exchanges. rewrite !list_elem_of_In, List.filter_In. by intros []. Qed.

Lemma exchanges_exchanged t event : exchanged event = true -> event ∈ t -> event ∈ exchanges t.
Proof. unfold exchanges. rewrite !list_elem_of_In, List.filter_In. done. Qed.

Section runs.
Context {W : Type} (env : Environment W).

(** A run of [Issue], with what it added to the trace. *)
Lemma Issue_run broker ctx handle w r w' t :
  Issue env broker ctx handle w = (r, w') -> sc_trace w' = sc_trace w ++ t ->
  (exchanges t = [] /\ exists e, r = Err e) \/
  exists prepared steps heap',
    consumePrepared broker handle preparedDurableCredentialIssuing (heapSteps steps (sc_state w)) = (Ok prepared, heap') /\
    Issued prepared (exchanges t) r.
Proof.
  intros Hrun Ht. unfold Issue, attempt, mbind, Talk_bind in Hrun.
  pose proof (consumeHandle_ends env broker ctx handle preparedDurableCredentialIssuing w) as Hc. unfold ends in Hc.
  destruct (consumeHandle _ _ _ _ _ _) as [[prepared|e] w1]; simpl in Hc.
  - destruct Hc as (Htr & steps & Hc).
    destruct (ends_run _ _ _ _ _ (adds_Issue_authorize env (default 0 broker) prepared w1) Hrun) as (t' & Ht' & Hi).
    rewrite Ht, Htr in Ht'. apply app_inv_head in Ht' as ->. eauto 10.
  - destruct Hc as [Htr _]. injection Hrun as <- <-. rewrite Htr, <- (app_nil_r (sc_trace w)) in Ht at 1.
    apply app_inv_head in Ht as <-. eauto.
Qed.

(** The child of a run is the one its handle was prepared and authorised for. *)
Lemma issue_child_authorized broker ctx handle w r w' t issuer request child err :
  Issue env broker ctx handle w = (r, w') -> sc_trace w' = sc_trace w ++ t ->
  EvCreateChild issuer request child err ∈ t ->
  exists authorized permit fence,
    EvAuthorize {| auth_Permit := permit; auth_Fence := fence |} (Ok authorized) ∈ t /\
    permit_RevocationID permit = ccr_RevocationID request /\
    ccr_DatabaseAuthorizedAt request = cca_DatabaseAuthorizedAt authorized /\ ccr_TTL request = cca_TTL authorized /\
    ccr_CredentialExpiresAt request = cca_CredentialExpiresAt authorized /\
    cca_DatabaseAuthorizedAt authorized + cca_TTL authorized + ChildCreateExpiryReserve <= cca_CredentialExpiresAt authorized.
Proof.
  intros Hrun Ht Hin. assert (EvCreateChild issuer request child err ∈ exchanges t) as Hin' by (by apply exchanges_exchanged).
  destruct (Issue_run _ _ _ _ _ _ _ Hrun Ht) as [[He _]|(prepared & steps & heap' & Hc & Hi)].
  { rewrite He in Hin'. by apply elem_of_nil in Hin'. }
  destruct (issued_child _ _ _ _ _ _ _ Hi Hin') as (authorized & t' & Het & Hv & ->).
  apply consumePrepared_cases in Hc as [[? _]|(b & state & _ & _ & Hcons & [= ->] & _)]; [done|].
  unfold consumable in Hcons. unfold validChildCreateAuthorization, Add, After in Hv. guards.
  exists authorized, (cpc_permit (ps_content state)), (pdr_Fence (cpc_request (ps_content state))). split_and!.
  - apply exchanges_subset. rewrite Het. unfold authorizeRequest. set_solver.
  - simpl. congruence.
  - done.
  - done.
  - simpl. congruence.
  - lia.
Qed.

(** A run cannot create a child whose record shows one. *)
Lemma authorized_child_refused s t s' broker ctx handle w r w' id c issuer request child err :
  repository_reachable s -> repo_records s !! id = Some c -> rr_childCreateAuthorizedAt c <> 0 ->
  Issue env broker ctx handle w = (r, w') -> sc_trace w' = sc_trace w ++ t -> backed s t s' ->
  EvCreateChild issuer request child err ∈ t -> ccr_RevocationID request <> id.
Proof.
  intros Hs Hc Ha Hrun Ht Hb Hin Hid.
  destruct (issue_child_authorized _ _ _ _ _ _ _ _ _ _ _ Hrun Ht Hin) as (authorized & permit & fence & Hau & Hp & _).
  apply list_elem_of_split in Hau as (t1 & t2 & ->). apply backed_split in Hb as (s1 & s2 & Hs1 & He & _).
  inversion He as [|err1 err2 clock source ? result ? ? ? _ Hauth [Heq|[e He']]| | | | |]; subst; [|done|done].
  apply authorize_Ok in Hauth as (inspection & q & []). simpl in *.
  destruct (record_later s s1 _ _ Hs Hs1 Hc) as (_ & c' & Hc' & Hch).
  apply record_changes_authorization in Hch. destruct (Hch Ha) as [Heq' _].
  rewrite Hp, Hc' in au_record. simplify_eq. congruence.
Qed.
End runs.

(** ** The broker accepts what the repository answers *)

(** The action behind a request is the one that was selected. *)
Record selected (request : PrepareDurableCredentialRequest) (metadata : ActionMetadata) : Prop := {
  sel_scope : am_TenantID metadata = dir_TenantID (pdr_Selection request) /\
    am_WorkspaceID metadata = dir_WorkspaceID (pdr_Selection request) /\
    am_EnvironmentID metadata = dir_EnvironmentID (pdr_Selection request) /\
    am_Production metadata = dir_Production (pdr_Selection request);
  sel_grant : am_ActionType metadata = dir_ActionType (pdr_Selection request) /\
    am_ConnectorID metadata = dir_ConnectorID (pdr_Selection request) /\
    am_Permission metadata = dir_Permission (pdr_Selection request) /\
    am_Resource metadata = dir_Resource (pdr_Selection request);
  sel_ttl : am_CredentialTTLSeconds metadata * Second = pdr_RequestedTTL request;
  sel_target : ValidOpaqueText (am_TargetKey metadata) 1024 = true
}.

(** A first preparation: the record it made. *)
Lemma prepare_created err err' clock clock' answer1 answer2 permit request s result s' :
  Repository_Prepare err err' clock clock' answer1 answer2 permit request s = (Ok result, s') -> pr_Created result = true ->
  exists metadata token,
    resolvePrepareAction answer2 err' (prep_Fence request) clock' = Ok metadata /\ ValidOpaqueText token 4096 = true /\
    After (CanonicalCredentialExpiry (prep_CredentialExpiresAt request)) clock = true /\
    pr_Permit result = Some {| permit_RevocationID := prep_RevocationID request; permit_Token := token |} /\
    exists r, repo_records s' !! prep_RevocationID request = Some r /\ rr_revocation r = pr_Revocation result /\
      pr_Revocation result =
        preparedRevocation {| request with prep_CredentialExpiresAt := CanonicalCredentialExpiry (prep_CredentialExpiresAt request) |}
          metadata clock.
Proof.
  intros Hrun. backwards Hrun. unfold Repository_Prepare. run_call; intros result' [= <-] Hcreated; try done.
  simpl in *. guards. destruct permit as [token'|]; [|done].
  destruct (ValidOpaqueText token' 4096) eqn:Htoken; [|done]. simplify_eq.
  do 2 eexists. split_and!; try done. eexists. split; [by rewrite lookup_insert_eq|done].
Qed.

Lemma Canonical_idempotent t :
  0 < t < 9000000001000 * Second -> CanonicalCredentialExpiry (CanonicalCredentialExpiry t) = CanonicalCredentialExpiry t.
Proof.
  unfold CanonicalCredentialExpiry, IsZero. intros Ht. destruct (Z.eqb_spec t 0); [lia|].
  destruct (Z.eqb_spec (time_UnixMicro (UnixMicro t)) 0) as [->|]; [done|]. f_equal.
  unfold time_UnixMicro, UnixMicro, unixEpoch, Second in *.
  pose proof (Z.mul_div_le (t - 62135596800 * 1000000000) 1000).
  pose proof (Z.mul_succ_div_gt (t - 62135596800 * 1000000000) 1000).
  rewrite (wrap64_id ((t - _) / 1000)) by (unfold MinInt64, MaxInt64; lia).
  rewrite Z.add_simpl_r, Z.div_mul by done. apply wrap64_id. unfold MinInt64, MaxInt64. lia.
Qed.

(** What the broker checks of a record it froze, whatever stage it is in. *)
Record frozen (id : string) (request : PrepareDurableCredentialRequest) (profile : DurableIssuerProfile)
    (expiresAt : Time) (revocation : Revocation) : Prop := {
  fz_id : rev_ID revocation = id;
  fz_tenant : rev_TenantID revocation = dir_TenantID (pdr_Selection request);
  fz_workspace : rev_WorkspaceID revocation = dir_WorkspaceID (pdr_Selection request);
  fz_environment : rev_EnvironmentID revocation = dir_EnvironmentID (pdr_Selection request);
  fz_action : rev_ActionID revocation = af_ActionID (pdr_Fence request);
  fz_production : rev_Production revocation = dir_Production (pdr_Selection request);
  fz_runner : rev_RunnerID revocation = af_RunnerID (pdr_Fence request);
  fz_epoch : rev_ActionLeaseEpoch revocation = af_Epoch (pdr_Fence request);
  fz_issuer : rev_Issuer revocation = dip_IssuerID profile;
  fz_revision : rev_IssuerRevision revocation = dip_Revision profile;
  fz_type : rev_ActionType revocation = dir_ActionType (pdr_Selection request);
  fz_connector : rev_ConnectorID revocation = dir_ConnectorID (pdr_Selection request);
  fz_permission : rev_Permission revocation = dir_Permission (pdr_Selection request);
  fz_resource : rev_Resource revocation = dir_Resource (pdr_Selection request);
  fz_ttl : rev_CredentialTTLSeconds revocation = wrap32 (Z.quot (pdr_RequestedTTL request) Second);
  fz_expiry : rev_CredentialExpiresAt revocation = expiresAt;
  fz_canonical : CanonicalCredentialExpiry expiresAt = expiresAt;
  fz_valid : ValidIdentifier (rev_TenantID revocation) 256 = true;
  fz_target : ValidOpaqueText (rev_TargetKey revocation) 1024 = true;
  fz_version : 1 <= rev_Version revocation;
  fz_created : rev_CreatedAt revocation <> 0 /\ rev_CreatedAt revocation <= rev_UpdatedAt revocation;
  fz_available : rev_AvailableAt revocation <> 0
}.

(** What it checks of the stage. *)
Definition staged (status : RevocationStatus) (revocation : Revocation) : bool :=
  match status with
  | StatusPrepared | StatusNoCredential => IsZero (rev_AnchoredAt revocation) && IsZero (rev_ActivatedAt revocation)
  | StatusAnchored =>
      negb (IsZero (rev_AnchoredAt revocation)) && IsZero (rev_ActivatedAt revocation) &&
      negb (Before (rev_UpdatedAt revocation) (rev_AnchoredAt revocation))
  | StatusActive =>
      negb (IsZero (rev_AnchoredAt revocation)) && negb (IsZero (rev_ActivatedAt revocation)) &&
      negb (Before (rev_ActivatedAt revocation) (rev_AnchoredAt revocation)) &&
      negb (Before (rev_UpdatedAt revocation) (rev_ActivatedAt revocation))
  | _ => false
  end.

Lemma validFrozenRevocation_iff revocation id request profile expiresAt status present :
  validFrozenRevocation revocation id request profile expiresAt status present = true <->
  frozen id request profile expiresAt revocation /\ rev_Status revocation = status /\
  rev_AccessorPresent revocation = present /\ staged status revocation = true.
Proof.
  unfold validFrozenRevocation. cbv zeta. destruct (_ || _) eqn:Hb.
  - split; [done|]. intros ([] & Hs & Hp & _). exfalso. apply not_false_iff_true in Hb. apply Hb. unfold Before, IsZero.
    repeat (apply orb_false_iff; split);
      try (apply negb_false_iff; first [by apply eqb_true | done | apply eqb_true; congruence]);
      first [apply Z.ltb_ge; lia | apply Z.eqb_neq; tauto].
  - unfold Before, IsZero in Hb. guards. split; [|by intros (_ & _ & _ & Hz)]. intros Hz.
    split_and!; [split; try done; congruence|done|done|exact Hz].
Qed.

Lemma ttl_seconds metadata request : selected request metadata ->
  validCredentialTTLSeconds (am_CredentialTTLSeconds metadata) = true ->
  am_CredentialTTLSeconds metadata = wrap32 (Z.quot (pdr_RequestedTTL request) Second).
Proof.
  intros [_ _ Httl _] Hv. unfold validCredentialTTLSeconds, MaxCredentialTTL, Minute in Hv. guards.
  rewrite <- Httl, Z.quot_mul by done. unfold wrap32, Second in *. rewrite Z.mod_small; lia.
Qed.

Lemma preparation_accepted err err' clock clock' answer1 answer2 permit request profile id expiresAt s result s' metadata :
  running clock -> answer2 = Ok metadata -> selected request metadata -> CanonicalCredentialExpiry expiresAt = expiresAt ->
  Repository_Prepare err err' clock clock' answer1 answer2 permit (prepareRequest id request profile expiresAt) s
    = (Ok result, s') -> pr_Created result = true ->
  validPreparedResult result id request profile expiresAt = true.
Proof.
  intros Hclock -> Hsel Hcan Hrun Hcreated. destruct (prepare_created _ _ _ _ _ _ _ _ _ _ _ Hrun Hcreated)
    as (m & token & Hm & Htoken & _ & Hpermit & r & _ & _ & Hrev).
  apply resolvePrepareAction_Ok in Hm as ([= <-] & Ha & Hr & He & Ht & Httl). simpl in *. rewrite Hcan in Hrev.
  destruct (Hsel) as [(Hs1 & Hs2 & Hs3 & Hs4) (Hg1 & Hg2 & Hg3 & Hg4) _ Htarget]. unfold running in Hclock.
  unfold validPreparedResult. rewrite Hpermit, Hrev. simpl. rewrite eqb_same, Htoken. simpl.
  apply validFrozenRevocation_iff. split_and!; try done. split; simpl; try done; try congruence; [by apply ttl_seconds|lia|lia].
Qed.

Lemma authorize_answer err err' clock source request s a s' r :
  Repository_AuthorizeChildCreate err err' clock source request s = (Ok a, s') ->
  repo_records s !! permit_RevocationID (auth_Permit request) = Some r ->
  cca_Revocation a = rr_revocation (authorizedRecord clock (cca_TTL a) r) /\ cca_VaultCallBudget a = ChildCreateVaultCallBudget.
Proof.
  intros Hrun. backwards Hrun. unfold Repository_AuthorizeChildCreate. run_call. intros a' [= <-] Hr. by simplify_eq.
Qed.

Lemma frozen_bump id request profile expiresAt now r :
  frozen id request profile expiresAt (rr_revocation r) -> rev_CreatedAt (rr_revocation r) <= now ->
  frozen id request profile expiresAt (rr_revocation (bump now r)).
Proof. intros [] Hnow. split; simpl; try done; [lia|tauto]. Qed.

Lemma same_frozen_bump now r : sameDurableFrozenRevocation (rr_revocation (bump now r)) (rr_revocation r) = true.
Proof. unfold sameDurableFrozenRevocation. repeat (apply andb_true_iff; split); by apply eqb_true. Qed.

(** The time a child gets: whole quanta, within the longest lifetime. *)
Lemma childCreateTTL_shape expiresAt now :
  Z.rem (childCreateTTL expiresAt now) VaultTTLQuantum = 0.
Proof. unfold childCreateTTL. by rewrite Z.rem_mul. Qed.

Lemma authorization_accepted err err' clock source permit request profile id expiresAt s a s' r :
  repository_reachable s -> repo_records s !! id = Some r -> permit_RevocationID permit = id ->
  running clock -> rev_CreatedAt (rr_revocation r) <= clock ->
  validFrozenRevocation (rr_revocation r) id request profile expiresAt StatusPrepared false = true ->
  Repository_AuthorizeChildCreate err err' clock source {| auth_Permit := permit; auth_Fence := pdr_Fence request |} s
    = (Ok a, s') ->
  validChildCreateAuthorization a (rr_revocation r) id request profile expiresAt = true.
Proof.
  intros Hs Hr Hp Hclock Hcreated (Hfz & Hst & Hpr & Hstage)%validFrozenRevocation_iff Hrun.
  destruct (authorize_answer _ _ _ _ _ _ _ _ r Hrun) as [Hrev Hbudget]; [simpl; by rewrite Hp|].
  change (cca_Revocation a = rr_revocation (bump clock r)) in Hrev.
  assert (validFrozenRevocation (cca_Revocation a) id request profile expiresAt StatusPrepared false = true) as Hvalid.
  { apply validFrozenRevocation_iff. rewrite Hrev. by split_and!; [apply frozen_bump|..]. }
  assert (sameDurableFrozenRevocation (cca_Revocation a) (rr_revocation r) = true /\
          rev_Version (cca_Revocation a) = rev_Version (rr_revocation r) + 1 /\
          rev_UpdatedAt (cca_Revocation a) = clock) as (Hsame & Hversion & Hupdated).
  { rewrite Hrev. split; [apply same_frozen_bump|done]. }
  clear Hrev.
  apply authorize_Ok in Hrun as (inspection & r' & []). simpl in *. rewrite Hp, Hr in au_record. injection au_record as <-.
  pose proof (rw_record _ (repository_reachable_wf _ Hs) _ _ Hr) as Hwf.
  destruct (wf_deadline _ Hwf) as [_ Hdeadline]. pose proof (wf_ttl _ Hwf) as Httl.
  assert (clock < expiry r) as Hlt.
  { unfold inspectionFenceCurrent, After, Add in au_current. guards. lia. }
  pose proof (childCreateTTL_bound (expiry r) clock Hlt ltac:(by rewrite <- au_ttl)) as Hbound. rewrite <- au_ttl in Hbound.
  unfold validCredentialTTLSeconds in Httl. guards. unfold running in Hclock.
  unfold validChildCreateAuthorization. cbv zeta. rewrite Hvalid.
  rewrite Hsame, Hversion, Hupdated, Hbudget, au_at, au_expiry, (fz_expiry _ _ _ _ _ Hfz), eqb_same, au_ttl, childCreateTTL_shape, <- au_ttl. simpl.
  unfold After, Before, Add, IsZero. pose proof (fz_expiry _ _ _ _ _ Hfz).
  assert (ChildCreateExpiryReserve = 15 * Second) as Hres by done. unfold MinChildCreateTTL in *.
  repeat (apply andb_true_iff; split); rewrite ?negb_true_iff, ?Z.eqb_eq, ?Z.eqb_neq, ?Z.ltb_ge, ?Z.leb_le; try lia.
Qed.

(** ** A prepared handle *)

(** The deadline of a credential: late enough for its child, within the profile, the request
    and the policy. *)
Lemma durableCredentialExpiry_bounds now request profile expiresAt :
  running now -> 0 < pdr_PolicyExpiresAt request -> MinChildCreateTTL <= dip_CredentialTTL profile ->
  durableCredentialExpiry now request profile = Some expiresAt ->
  now + ChildCreateExpiryReserve + MinChildCreateTTL <= expiresAt /\ expiresAt <= now + dip_CredentialTTL profile /\
  expiresAt <= now + pdr_RequestedTTL request /\ expiresAt <= pdr_PolicyExpiresAt request /\
  CanonicalCredentialExpiry expiresAt = expiresAt.
Proof.
  intros Hnow Hpolicy Hprofile. unfold durableCredentialExpiry. destruct (_ || _) eqn:Hb; [done|]. cbv zeta.
  unfold validDurableCredentialWindow in Hb. unfold Before, Add in *. guards.
  set (e := if pdr_PolicyExpiresAt request <? _ then _ else _).
  assert (0 < e /\ e <= now + dip_CredentialTTL profile /\ e <= now + pdr_RequestedTTL request /\
          e <= pdr_PolicyExpiresAt request) as (He0 & He1 & He2 & He3).
  { unfold e. assert (ChildCreateExpiryReserve = 15 * Second) by done. unfold running, MinChildCreateTTL, Second in *.
    destruct (Z.ltb_spec (now + pdr_RequestedTTL request) (now + dip_CredentialTTL profile));
      match goal with |- context [?a <? ?b] => destruct (Z.ltb_spec a b) end; lia. }
  destruct (CanonicalCredentialExpiry e <? _) eqn:Hlt; [done|]. intros [= <-]. guards.
  assert (0 < e < 9000000001000 * Second) as Hrange.
  { unfold running, MaxCredentialTTL, Minute, Second in *. lia. }
  pose proof (Canonical_le _ Hrange). split_and!; [lia..|by apply Canonical_idempotent].
Qed.

(** What [Prepare] leaves behind the handle it returns. *)
Record prepared_handle {W} (env : Environment W) (broker : Z) (request : PrepareDurableCredentialRequest)
    (handle : PreparedDurableCredential) (heap : Heap) (content : consumedPreparedCredential) : Prop := {
  ph_state : hp_prepared heap !! pdc_state handle =
    Some {| ps_broker := broker; ps_phase := preparedDurableCredentialReady; ps_content := content |};
  ph_request : cpc_request content = request;
  ph_selection : validDurableSelection (pdr_Selection request) = true;
  ph_id : pdc_revocationID handle = cpc_revocationID content /\ permit_RevocationID (cpc_permit content) = cpc_revocationID content;
  ph_token : ValidOpaqueText (permit_Token (cpc_permit content)) 4096 = true;
  ph_resolved : validDurableResolution (cpc_resolved content) = true;
  ph_frozen : validFrozenRevocation (cpc_prepared content) (cpc_revocationID content) request
    (rdi_Profile (cpc_resolved content)) (cpc_expiresAt content) StatusPrepared false = true;
  ph_expiry : exists o, durableCredentialExpiry (on_Clock env o).1 request (rdi_Profile (cpc_resolved content)) =
    Some (cpc_expiresAt content)
}.

Lemma Prepare_record_handle {W} (env : Environment W) b request resolved id expiresAt w :
  validDurableSelection (pdr_Selection request) = true -> validDurableResolution resolved = true ->
  (exists o, durableCredentialExpiry (on_Clock env o).1 request (rdi_Profile resolved) = Some expiresAt) ->
  ends (Prepare_record env b request resolved id expiresAt) (fun r w' => forall handle, r = Ok handle ->
    exists content, prepared_handle env b request handle (sc_state w') content) w.
Proof.
  intros Hsel Hres Hexp. unfold Prepare_record. cbv zeta. apply ends_bind, ends_exchange. intros answer o.
  destruct answer as [prepared|]; [|by apply ends_ret]. destruct (pr_Created prepared); [|by apply ends_ret].
  destruct (pr_Permit prepared) as [permit|] eqn:Hp; [|by apply ends_ret]. apply ends_unless; [|done].
  unfold validPreparedResult. rewrite Hp. intros Hv. guards. apply ends_bind. unfold others. apply ends_bind, ends_consult.
  intros steps o'. apply ends_atomically. intros [] heap _. apply ends_bind, ends_atomically. simpl. intros handle heap' Hn.
  apply ends_ret. intros handle' [= <-]. injection Hn as <- <-. eexists. split; [simpl; by rewrite lookup_insert_eq|done..].
Qed.

Lemma Prepare_handle {W} (env : Environment W) broker ctx request w :
  ends (Prepare env broker ctx request) (fun r w' => forall handle, r = Ok handle ->
    exists b content, broker = Some b /\ prepared_handle env b request handle (sc_state w') content) w.
Proof.
  unfold Prepare. destruct broker as [b|]; [|by apply ends_ret]. destruct ctx; [by apply ends_ret|].
  unfold preflightFinalizeContext, boundedContext.
  repeat first [lazymatch goal with
                | |- ends (consult (on_Clock env)) _ _ => apply ends_consult_eq; intros ? ? Hclock
                | |- ends (Prepare_record _ _ _ _ _ _) _ _ => fail
                end
               | talk_step]; try done.
  eapply ends_mono; [apply Prepare_record_handle; [by guards|done|]|naive_solver].
  eexists. rewrite Hclock. eassumption.
Qed.

(** Such a handle is accepted. *)
Lemma prepared_handle_consumable {W} (env : Environment W) b request handle heap content phase :
  prepared_handle env b request handle heap content -> cpc_expiresAt content <> 0 ->
  (consumePrepared (Some b) handle phase heap).1 = Ok content.
Proof.
  intros [Hs Hr _ [Hid Hpid] Ht Hres Hf _] He. apply validFrozenRevocation_true in Hf as (Hrid & _).
  unfold consumePrepared. rewrite Hs. replace (consumable _ _ _) with true; [done|]. symmetry. unfold consumable, IsZero. simpl.
  rewrite Ht, Hres, Hid, Hrid, Hpid, !eqb_same. simpl. apply negb_true_iff, orb_false_iff. split; [|done].
  by apply Z.eqb_neq.
Qed.
