(* ===== verification/BrokerBacking.v ===== *)
(** * An environment that the repository stands behind

    [Backed] is what the broker relies on when its environment includes the revocation
    repository: every answer attributed to the repository is one it gave.  Every run of the
    broker in such an environment leaves a trace that the repository backs. *)

From S2P Require Import Prelude.
From S2P Require Import Interaction.
From S2P Require Import Credential.
From S2P Require Import CredentialFacts.
From S2P Require Import CredentialInvariant.
From S2P Require Import CredentialHistory.
From S2P Require Import RepositoryTrace.
From S2P Require Import DurableHandles.
From S2P Require Import DurableBroker.
From S2P Require Import DurableBrokerFacts.
From S2P Require Import BrokerSystem.

Open Scope Z_scope.

Class Backed {W} (env : Environment W) (repo : W -> MemoryRepository) : Prop := {
  bk_Clock : quiet repo (on_Clock env);
  bk_TimeNow : quiet repo (on_TimeNow env);
  bk_CtxErr : quiet repo (on_CtxErr env);
  bk_UUID : quiet repo (on_UUID env);
  bk_TimeoutSource maximum : quiet repo (on_TimeoutSource env maximum);
  bk_FinalizeSource maximum : quiet repo (on_FinalizeSource env maximum);
  bk_WithTimeout maximum : quiet repo (on_WithTimeout env maximum);
  bk_BoundedErr : quiet repo (on_BoundedErr env);
  bk_Others : quiet repo (on_Others env);
  bk_Resolve selection : quiet repo (on_Resolve env selection);
  bk_ValidateManager issuer : quiet repo (on_ValidateManager env issuer);
  bk_CreateChild issuer request : quiet repo (on_CreateChild env issuer request);
  bk_InspectChild issuer accessor request : quiet repo (on_InspectChild env issuer accessor request);
  bk_IssueDynamic issuer token request : quiet repo (on_IssueDynamic env issuer token request);
  bk_Prepare request : backs backed_event repo (on_Prepare env request) (EvPrepare request);
  bk_Authorize request : backs backed_event repo (on_Authorize env request) (EvAuthorize request);
  bk_RecordAnchor request : backs backed_event repo (on_RecordAnchor env request) (EvRecordAnchor request);
  bk_Activate request : backs backed_event repo (on_Activate env request) (EvActivate request);
  bk_RecordNoCredential request : backs backed_event repo (on_RecordNoCredential env request) (EvRecordNoCredential request);
  bk_RequestRevocation request : backs backed_event repo (on_RequestRevocation env request) (EvRequestRevocation request)
}.

Create HintDb backing.
#[export] Hint Resolve bk_Clock bk_TimeNow bk_CtxErr bk_UUID bk_TimeoutSource bk_FinalizeSource bk_WithTimeout
  bk_BoundedErr bk_Others bk_Resolve bk_ValidateManager bk_CreateChild bk_InspectChild bk_IssueDynamic bk_Prepare
  bk_Authorize bk_RecordAnchor bk_Activate bk_RecordNoCredential bk_RequestRevocation : backing.

Section runs.
Context {W : Type} (env : Environment W) (repo : W -> MemoryRepository) `{!Backed env repo}.

Abbreviation stands := (stands backed_event repo).

Ltac stands_step :=
  lazymatch goal with
  | |- stands (mbind _ _) => apply stands_bind; [|intros ?]
  | |- stands (attempt _ _) => unfold attempt
  | |- stands (mret _) => apply stands_ret
  | |- stands (consult _) => apply stands_consult; solve [eauto with backing]
  | |- stands (note _) => apply stands_note; by constructor
  | |- stands (exchange _ _) => apply stands_exchange; solve [eauto with backing | apply quiet_backs; [eauto with backing|by constructor]]
  | |- stands (atomically _) => apply stands_atomically
  | |- stands (unless ?b _ _) => unfold unless; destruct b
  | |- stands (if ?b then _ else _) => destruct b
  | |- stands (match ?x with _ => _ end) => destruct x
  | |- stands (let _ := _ in _) => cbv zeta
  end.

Lemma stands_others : stands (others env).
Proof. unfold others. repeat stands_step. Qed.

Lemma stands_boundedContext source maximum : quiet repo (source maximum) -> stands (boundedContext env source maximum).
Proof. intros Hq. unfold boundedContext. repeat first [apply stands_consult, Hq | stands_step]. Qed.

Lemma stands_newFinalizeContext : stands (newFinalizeContext env).
Proof. unfold newFinalizeContext. repeat first [apply stands_boundedContext; eauto with backing | stands_step]. Qed.

Lemma stands_persistRevocationIntent id : stands (persistRevocationIntent env id).
Proof. unfold persistRevocationIntent. repeat first [apply stands_newFinalizeContext | stands_step]. Qed.

Lemma stands_abandon {A} materials id operation : stands (abandon (A := A) env materials id operation).
Proof.
  unfold abandon. stands_step; [|repeat first [apply stands_persistRevocationIntent | stands_step]].
  induction materials as [|material materials IH]; simpl; [apply stands_ret|]. stands_step; [apply stands_note; by constructor|done].
Qed.

Lemma stands_consumeHandle broker ctx handle phase : stands (consumeHandle env broker ctx handle phase).
Proof. unfold consumeHandle. repeat first [apply stands_others | stands_step]. Qed.

Lemma stands_Issue broker ctx handle : stands (Issue env broker ctx handle).
Proof.
  unfold Issue, Issue_authorize, Issue_child, Issue_anchor, Issue_inspect, Issue_dynamic, Issue_activate. cbv zeta.
  repeat first [apply stands_abandon | apply stands_newFinalizeContext | apply stands_consumeHandle | apply stands_others
               | apply stands_boundedContext; eauto with backing | stands_step].
Qed.

Lemma stands_Prepare broker ctx request : stands (Prepare env broker ctx request).
Proof.
  unfold Prepare, Prepare_record, preflightFinalizeContext. cbv zeta.
  repeat first [apply stands_others | apply stands_boundedContext; eauto with backing | stands_step].
Qed.

Lemma stands_RecordNoCredential broker ctx handle : stands (RecordNoCredential env broker ctx handle).
Proof. unfold RecordNoCredential, RecordNoCredential_record. cbv zeta. repeat first [apply stands_consumeHandle | stands_step]. Qed.

(** The repository behind a run of [Issue] stays reachable. *)
Lemma Issue_reachable broker ctx handle w r w' :
  Issue env broker ctx handle w = (r, w') -> repository_reachable (repo (sc_oracle w)) ->
  repository_reachable (repo (sc_oracle w')).
Proof. eapply stands_reachable; [apply backed_event_steps|apply stands_Issue]. Qed.
End runs.
