(* ===== verification/BrokerExamples.v ===== *)
(** * The durable broker: a live environment

    The broker with the revocation repository behind it, an issuer that works and one
    whose inspection fails, and runs of both. *)

From S2P Require Import Prelude.
From S2P Require Import Interaction.
From S2P Require Import Credential.
From S2P Require Import CredentialFacts.
From S2P Require Import CredentialInvariant.
From S2P Require Import CredentialHistory.
From S2P Require Import CredentialExamples.
From S2P Require Import RepositoryTrace.
From S2P Require Import DurableHandles.
From S2P Require Import DurableBroker.
From S2P Require Import IssuerRegistry.
From S2P Require Import DurableBrokerFacts.
From S2P Require Import DurableHeap.
From S2P Require Import BrokerSystem.
From S2P Require Import BrokerBacking.

Open Scope Z_scope.

Module BrokerDemo.
Import CredentialDemo.

(** ** The issuer and its registry *)

Definition issuer : DurableIssuer :=
  {| issuer_object := 7; issuer_comparable := true; issuer_IssuerID := "vault"; issuer_IssuerRevision := "rev-1" |}.
Definition profile : DurableIssuerProfile :=
  {| dip_IssuerID := "vault"; dip_Revision := "rev-1"; dip_CredentialTTL := 600 * Second |}.
Definition resolved : ResolvedDurableIssuer := {| rdi_Profile := profile; rdi_Issuer := Some issuer |}.

Definition selection : DurableIssuerResolveRequest := {|
  dir_TenantID := "tenant-1"; dir_WorkspaceID := "workspace-1"; dir_EnvironmentID := "staging"; dir_Production := false;
  dir_ActionType := "KUBERNETES_ROLLOUT_RESTART"; dir_ConnectorID := "kubernetes-1";
  dir_Permission := "PATCH_DEPLOYMENT_RESTART"; dir_Resource := "cluster-1/payments/api" |}.

Definition request : PrepareDurableCredentialRequest :=
  {| pdr_Fence := fence; pdr_Selection := selection; pdr_RequestedTTL := 600 * Second;
     pdr_PolicyExpiresAt := at_second 1200 |}.

Definition registration : IssuerRegistration :=
  {| ir_Selection := selection; ir_Profile := profile; ir_Issuer := Some issuer |}.
Definition registry : IssuerRegistry := {[ selection := resolved ]}.

Lemma registry_made : NewIssuerRegistry [registration] = Ok registry.
Proof.
  unfold NewIssuerRegistry, registerIssuers, registerIssuer.
  assert (validDurableSelection (ir_Selection registration) = true /\
    validDurableResolution {| rdi_Profile := ir_Profile registration; rdi_Issuer := ir_Issuer registration |} = true) as [Hs Hr].
  { vm_compute. split; reflexivity. }
  rewrite Hs, Hr. unfold IssuerRegistry. simpl. rewrite !lookup_empty. reflexivity.
Qed.

(** ** The environment *)

Definition World : Type := MemoryRepository.
Definition now : Time := at_second 1.

Definition ask {A} (a : A) : World -> A * World := fun w => (a, w).

Definition grant (maximum : Duration) : Candidate :=
  {| cand_context := Some {| cv_Deadline := Some (now + maximum); cv_monotonic := true; cv_Done := true; cv_Err := None |};
     cand_cancel := true |}.

Definition live (inspected : Result unit) : Environment World := {|
  on_Clock := ask now;
  on_TimeNow := ask now;
  on_CtxErr := ask None;
  on_UUID := ask (Ok id);
  on_TimeoutSource := fun maximum => ask (grant maximum);
  on_FinalizeSource := fun maximum => ask (grant maximum);
  on_WithTimeout := fun maximum => ask (grant maximum);
  on_BoundedErr := ask None;
  on_Others := ask [];
  on_Resolve := fun selection => ask (ResolveDurableIssuer (Some registry) SomeContext None selection);
  on_Prepare := Repository_Prepare None None now now (Ok metadata) (Ok metadata) (Ok "permit-token"%string);
  on_Authorize := Repository_AuthorizeChildCreate None None now source;
  on_RecordAnchor := Repository_RecordAnchor None None now now source protector;
  on_Activate := Repository_Activate None None now now source;
  on_RecordNoCredential := Repository_RecordNoCredential None None now (Ok metadata);
  on_RequestRevocation := Repository_RequestRevocation None None now (Ok metadata);
  on_ValidateManager := fun _ => ask (Ok tt);
  on_CreateChild := fun _ request => ask
    ({| child_Accessor := Some "accessor"%string; child_Token := "child-token";
        child_ExpiresAt := CanonicalCredentialExpiry (ccr_DatabaseAuthorizedAt request + ccr_TTL request) |}, None);
  on_InspectChild := fun _ _ _ => ask inspected;
  on_IssueDynamic := fun _ _ request => ask
    ({| dyn_Secret := "database-password"; dyn_ExpiresAt := now + 300 * Second |}, None)
|}.

Lemma quiet_ask {A} (a : A) : quiet (fun w : World => w) (ask a).
Proof. intros w. apply rtc_refl. Qed.

Lemma running_now : running now.
Proof. apply running_at. lia. Qed.

Lemma backs_call {A} (call : World -> Result A * World) (event : Result A -> Event) :
  (forall w, backed_event w (event (call w).1) (call w).2) -> backs backed_event (fun w : World => w) call event.
Proof. intros Hb w. eapply backed_cons; [apply rtc_refl|apply Hb|]. apply backed_nil, rtc_refl. Qed.

#[export] Instance live_backed inspected : Backed (live inspected) (fun w => w).
Proof.
  pose proof running_now as Hnow.
  split; intros; try apply quiet_ask; apply backs_call; intros w; simpl;
    (eapply backed_prepare || eapply backed_authorize || eapply backed_anchor || eapply backed_activate ||
     eapply backed_none || eapply backed_request);
    first [exact Hnow | apply surjective_pairing | by left].
Qed.

(** ** Runs *)

Definition scene (s : MemoryRepository) : Scene Heap Event World :=
  {| sc_oracle := s; sc_trace := []; sc_state := Heap_empty |}.

Definition broker : Z := 42.
Definition prepared_run := Prepare (live (Ok tt)) (Some broker) SomeContext request (scene empty).
Definition handle : PreparedDurableCredential := {| pdc_revocationID := id; pdc_state := 1 |}.
Definition restart (w : Scene Heap Event World) : Scene Heap Event World :=
  {| sc_oracle := sc_oracle w; sc_trace := []; sc_state := sc_state w |}.

Lemma restart_oracle w : sc_oracle (restart w) = sc_oracle w.
Proof. reflexivity. Qed.

Lemma restart_state w : sc_state (restart w) = sc_state w.
Proof. reflexivity. Qed.

Definition ready : Scene Heap Event World := restart prepared_run.2.

Definition issue_run := Issue (live (Ok tt)) (Some broker) SomeContext handle ready.
Definition failed_run := Issue (live (Err ErrRevocationNotFound)) (Some broker) SomeContext handle ready.

Definition credential : DurableCredential :=
  {| dc_revocationID := id; dc_expiresAt := now + 300 * Second; dc_state := 2 |}.

Definition status_of (w : Scene Heap Event World) : option RevocationStatus :=
  (fun r => status r) <$> (repo_records (sc_oracle w) !! id).

Example runs :
  prepared_run.1 = Ok handle /\ status_of ready = Some StatusPrepared /\
  issue_run.1 = Ok credential /\ status_of issue_run.2 = Some StatusActive /\
  failed_run.1 = Err (durableIssuanceError "inspect child accessor") /\ status_of failed_run.2 = Some StatusRevocationPending.
Proof. vm_compute. split_and!; reflexivity. Qed.

Lemma ready_reachable : repository_reachable (sc_oracle ready).
Proof.
  unfold ready, prepared_run. rewrite restart_oracle.
  refine (stands_reachable backed_event (fun w => w) (Prepare (live (Ok tt)) (Some broker) SomeContext request) (scene empty)
    _ _ backed_event_steps (stands_Prepare _ _ _ _ _) (surjective_pairing _) empty_reachable).
Qed.

Definition child_request : DurableChildCreateRequest :=
  {| ccr_RevocationID := id; ccr_ProfileRevision := "rev-1"; ccr_DatabaseAuthorizedAt := now; ccr_TTL := 585 * Second;
     ccr_CredentialExpiresAt := now + 600 * Second |}.
Definition child : DurableChild :=
  {| child_Token := "child-token"; child_Accessor := Some "accessor"%string; child_ExpiresAt := now + 585 * Second |}.
Definition created_child : Event := EvCreateChild (Some issuer) child_request child None.

Lemma issue_child : created_child ∈ sc_trace issue_run.2.
Proof. apply (list_elem_of_lookup_2 _ 2). vm_compute. reflexivity. Qed.

Lemma failed_child : created_child ∈ sc_trace failed_run.2.
Proof. apply (list_elem_of_lookup_2 _ 2). vm_compute. reflexivity. Qed.

(** Two callers ask to revoke the credential: the second waits and gets the first's answer. *)
Definition active : durableCredentialState :=
  default {| dcs_broker := 0; dcs_revocationID := ""; dcs_expiresAt := 0; dcs_secret := ""; dcs_activeSnapshot := Revocation_zero;
             dcs_flight := None; dcs_result := None |} (hp_credentials (sc_state issue_run.2) !! 2).
Definition requested : Result Revocation :=
  (Repository_RequestRevocation None None now (Ok metadata) (revocationOf id) (sc_oracle issue_run.2)).1.

Fixpoint play (script : list RequestStep) (requests : Requests) : option Requests :=
  match script with
  | [] => Some requests
  | step :: script => match requestStep step requests with Some requests' => play script requests' | None => None end
  end.

Lemma play_steps script requests requests' : play script requests = Some requests' -> rtc request_step requests requests'.
Proof.
  revert requests. induction script as [|step script IH]; simpl; intros requests H; [injection H as <-; apply rtc_refl|].
  destruct (requestStep step requests) as [requests1|] eqn:Hs; [|done]. eapply rtc_l; [by exists step|by apply IH].
Qed.

Definition request_script : list RequestStep := [
  RequestBegins 0 (Some broker) SomeContext credential; RequestTurns 0 None;
  RequestBegins 1 (Some broker) SomeContext credential; RequestTurns 1 None;
  RequestAnswered 0 requested; RequestWakes 1 None; RequestTurns 1 None ].

Definition requests_end : Requests := default (requests_start active) (play request_script (requests_start active)).

Example both_answered :
  rq_requesters requests_end !! 0%nat = Some (RequesterReturned requested) /\
  rq_requesters requests_end !! 1%nat = Some (RequesterReturned requested).
Proof. vm_compute. split; reflexivity. Qed.

Lemma requests_end_returned : exists r, rq_requesters requests_end !! 0%nat = Some (RequesterReturned (Ok r)) /\
  rq_requesters requests_end !! 1%nat = Some (RequesterReturned (Ok r)).
Proof.
  assert (exists r, requested = Ok r) as [r Hr] by (eexists; vm_compute; reflexivity).
  exists r. rewrite <- Hr. exact both_answered.
Qed.

Lemma requests_end_steps : rtc request_step (requests_start active) requests_end.
Proof.
  apply (play_steps request_script). unfold requests_end.
  assert (is_Some (play request_script (requests_start active))) as [requests ->]; [|reflexivity].
  eapply mk_is_Some. vm_compute. reflexivity.
Qed.

(** The answers of the repository that the run starts with. *)
Definition prepared_result : PrepareResult :=
  match (Repository_Prepare None None now now (Ok metadata) (Ok metadata) (Ok "permit-token"%string)
           (prepareRequest id request profile (now + 600 * Second)) empty).1 with
  | Ok result => result
  | Err _ => {| pr_Revocation := Revocation_zero; pr_Permit := None; pr_Created := false |}
  end.
Definition prepared_record : memoryRevocationRecord :=
  default (preparedRecord (prepareRequest id request profile 0) metadata "" 0) (repo_records (sc_oracle ready) !! id).
Definition authorized_run :=
  Repository_AuthorizeChildCreate None None now source
    {| auth_Permit := {| permit_RevocationID := id; permit_Token := "permit-token" |}; auth_Fence := fence |} (sc_oracle ready).

Definition authorized : ChildCreateAuthorization :=
  if authorized_run.1 is Ok a then a
  else {| cca_Revocation := Revocation_zero; cca_DatabaseAuthorizedAt := 0; cca_CredentialExpiresAt := 0; cca_TTL := 0;
          cca_VaultCallBudget := 0 |}.

Lemma ready_wf : heap_wf (sc_state ready).
Proof.
  unfold ready, prepared_run. rewrite restart_state.
  apply (keeps_Prepare (live (Ok tt)) (fun _ => True) (fun _ _ _ H => H) (Some broker) SomeContext request (scene empty)).
  split; [exact Heap_empty_wf|done].
Qed.

Lemma issue_wf : heap_wf (sc_state issue_run.2).
Proof.
  unfold issue_run. apply (keeps_Issue (live (Ok tt)) (fun _ => True) (fun _ _ _ H => H) (Some broker) SomeContext handle ready).
  split; [exact ready_wf|done].
Qed.

(** The secret is read at its deadline. *)
Definition expired (w : Scene Heap Event World) : Scene Heap Event World :=
  {| sc_oracle := sc_oracle w; sc_trace := sc_trace w;
     sc_state := (Secret (dc_expiresAt credential) credential (sc_state w)).2 |}.
End BrokerDemo.
