(* ===== verification/DurableBrokerTheorems.v ===== *)
(** * The durable broker: theorems

    What an issue may do and what it leaves behind, alone and with the revocation repository
    behind it; the use of handles; concurrent requests to revoke; the issuer registry. *)

From S2P Require Import Prelude.
From S2P Require Import Interaction.
From S2P Require Import Credential.
From S2P Require Import CredentialFacts.
From S2P Require Import CredentialInvariant.
From S2P Require Import CredentialHistory.
From S2P Require Import CredentialExamples.
From S2P Require Import RepositoryTrace.
From S2P Require Import DurableHandles.
From S2P Require Import DurableBroker.
From S2P Require Import IssuerRegistry.
From S2P Require Import DurableBrokerFacts.
From S2P Require Import DurableHeap.
From S2P Require Import BrokerSystem.
From S2P Require Import BrokerBacking.
From S2P Require Import BrokerExamples.

Open Scope Z_scope.

Section broker.
Context {W : Type} (env : Environment W).

(** C5. Whatever its environment answers, a call of [Issue] is refused without a call of an
    interface, or consumes the content of its handle and follows the protocol: the manager is
    validated and the creation authorised before the child is created, once; the accessor is
    anchored before the child is inspected and used; the secret is handed over only after
    the record was activated; a failure once a child with an accessor was created ends in a
    request to revoke it, unless a bounded context could not be had, for the anchor or for that
    request.  A creation that answers no accessor ends the issue without such a request: there
    is nothing to name the child by. *)
Theorem issue_follows_protocol broker ctx handle w r w' t :
  Issue env broker ctx handle w = (r, w') -> sc_trace w' = sc_trace w ++ t ->
  (exchanges t = [] /\ exists e, r = Err e) \/
  exists prepared steps heap',
    consumePrepared broker handle preparedDurableCredentialIssuing (heapSteps steps (sc_state w)) = (Ok prepared, heap') /\
    Issued prepared (exchanges t) r /\ (length (List.filter creates (exchanges t)) <= 1)%nat.
Proof.
  intros Hrun Ht. destruct (Issue_run env _ _ _ _ _ _ _ Hrun Ht) as [He|(prepared & steps & heap' & Hc & Hi)]; [by left|].
  right. exists prepared, steps, heap'. split_and!; [done|done|by eapply issued_once].
Qed.

(** The secrets of an issue do not outlive it: after the child was created, its token is
    destroyed, its accessor is destroyed, and a dynamic secret is destroyed unless a
    credential was handed over to the caller. *)
Theorem issue_leaves_no_secret broker ctx handle w r w' t issuer request child err :
  Issue env broker ctx handle w = (r, w') -> sc_trace w' = sc_trace w ++ t ->
  EvCreateChild issuer request child err ∈ t ->
  exists before after, t = before ++ EvCreateChild issuer request child err :: after /\
    EvDestroy ChildToken ∈ after /\ (is_Some (child_Accessor child) -> EvDestroy ChildAccessor ∈ after) /\
    (forall issuer' token dynamic secret err', EvIssueDynamic issuer' token dynamic secret err' ∈ t ->
       (exists credential, r = Ok credential) \/ EvDestroy DynamicSecret ∈ after).
Proof.
  intros Hrun Ht Hin. destruct (ends_run _ _ _ _ _ (discarded_Issue env broker ctx handle w) Hrun) as (t' & Ht' & H).
  rewrite Ht in Ht'. apply app_inv_head in Ht' as <-. rewrite filter_true in H.
  destruct H as [Hp|(before & issuer' & request' & child' & err' & after & -> & Hb & Ha & Hs & Htok & Hacc)].
  { rewrite Forall_forall in Hp. by apply Hp in Hin. }
  exists before, after. assert (EvCreateChild issuer request child err = EvCreateChild issuer' request' child' err') as [= -> -> -> ->].
  { rewrite Forall_forall in Hb, Ha. apply elem_of_app in Hin as [Hin|[->|Hin]%elem_of_cons]; [by apply Hb in Hin|done|by apply Ha in Hin]. }
  split_and!; [done..|]. intros issuer2 token dynamic secret err2 Hin2. destruct Hs as [Hp|[Hc|Hd]]; [|by left|by right].
  exfalso. rewrite Forall_forall in Hb, Hp.
  apply elem_of_app in Hin2 as [Hin2|[?|Hin2]%elem_of_cons]; [by apply Hb in Hin2|done|by apply Hp in Hin2].
Qed.

(** C33. A prepared handle is used once: a call that got past the handle, whatever it returned,
    cleared its permit, and every later call on any copy of the handle, by any broker and
    among any other callers, fails without a call of an interface. *)
Theorem prepared_handle_is_single_use broker ctx handle w w1 e :
  heap_wf (sc_state w) -> handle_call env broker ctx handle w w1 e -> sc_trace w1 <> sc_trace w ->
  spent (pdc_state handle) (sc_state w1) /\
  forall W' (env' : Environment W') steps broker' ctx' handle' w2 w3 e',
    pdc_state handle' = pdc_state handle -> sc_state w2 = heapSteps steps (sc_state w1) ->
    handle_call env' broker' ctx' handle' w2 w3 e' -> sc_trace w3 = sc_trace w2 /\ is_Some e'.
Proof.
  intros Hwf Hcall Htr. destruct (handle_call_spent _ _ _ _ _ _ _ Hwf Hcall) as [[? _]|[Hwf1 Hs]]; [done|]. split; [done|].
  intros W' env' steps broker' ctx' handle' w2 w3 e' Heq Hw2 Hcall'.
  destruct (heapSteps_stable _ (spent_stable (pdc_state handle)) steps _ Hwf1 Hs).
  eapply handle_call_refused; [by rewrite Hw2|by rewrite Heq, Hw2|done].
Qed.

(** The handle [Prepare] returns can be consumed by the broker that made it, and only
    gives access to what was asked for: its record is frozen to the request, and its
    deadline leaves room for the child and keeps within the profile, the request and the
    policy, counted from a reading of the broker's clock. *)
Theorem prepared_handle_is_usable broker ctx request w handle w' :
  (forall o, running (on_Clock env o).1) -> 0 < pdr_PolicyExpiresAt request ->
  Prepare env broker ctx request w = (Ok handle, w') ->
  exists b content o, let now := (on_Clock env o).1 in let profile := rdi_Profile (cpc_resolved content) in
    broker = Some b /\ (forall phase, (consumePrepared (Some b) handle phase (sc_state w')).1 = Ok content) /\
    cpc_request content = request /\
    frozen (pdc_revocationID handle) request profile (cpc_expiresAt content) (cpc_prepared content) /\
    now + ChildCreateExpiryReserve + MinChildCreateTTL <= cpc_expiresAt content /\
    cpc_expiresAt content <= now + dip_CredentialTTL profile /\
    cpc_expiresAt content <= now + pdr_RequestedTTL request /\ cpc_expiresAt content <= pdr_PolicyExpiresAt request.
Proof.
  intros Hclock Hpolicy Hrun. destruct (ends_run _ _ _ _ _ (Prepare_handle env broker ctx request w) Hrun _ eq_refl)
    as (b & content & -> & Hh). destruct (Hh) as [_ Hr _ [Hid _] _ Hres Hf [o Ho]]. exists b, content, o. cbv zeta.
  assert (MinChildCreateTTL <= dip_CredentialTTL (rdi_Profile (cpc_resolved content))) as Hmin.
  { unfold validDurableResolution in Hres. destruct (rdi_Issuer _); [|done]. guards.
    assert (ChildCreateExpiryReserve = 15 * Second) by done. unfold Second in *. lia. }
  pose proof (durableCredentialExpiry_bounds _ _ _ _ (Hclock o) Hpolicy Hmin Ho) as (H1 & H2 & H3 & H4 & _).
  split_and!; try done.
  - intros phase. eapply prepared_handle_consumable; [done|]. specialize (Hclock o). unfold running in Hclock.
    assert (ChildCreateExpiryReserve + MinChildCreateTTL = 16 * Second) by done. unfold Second in *. lia.
  - rewrite Hid. by apply validFrozenRevocation_iff in Hf as [? _].
Qed.

(** A secret does not outlive its deadline: reading it then returns nothing and destroys it,
    and it stays destroyed through every later use of the broker, by any callers and
    whatever the clock is set back to. *)
Theorem secret_is_gone_at_its_deadline clock credential state w1 w2 heap :
  heap_wf heap -> hp_credentials heap !! dc_state credential = Some state -> validMetadata credential state = true ->
  dc_expiresAt credential <= clock -> sc_state w1 = (Secret clock credential heap).2 -> rtc (method_call env) w1 w2 ->
  (Secret clock credential heap).1 = ""%string /\ heap_wf (sc_state w2) /\
  forall steps clock', (Secret clock' credential (heapSteps steps (sc_state w2))).1 = ""%string.
Proof.
  intros Hwf Hl Hm Hexp Hw1 Hcalls. destruct (Secret_expired _ _ _ _ Hwf Hl Hm Hexp) as (Hs & Hwf1 & Hg). split; [done|].
  destruct (method_calls_keep env _ _ _ (gone_stable (dc_state credential)) Hcalls) as [Hwf2 Hg2]; [by rewrite Hw1..|].
  split; [done|]. intros steps clock'. apply gone_secret. by apply (heapSteps_stable _ (gone_stable _)).
Qed.
End broker.

Import CredentialDemo BrokerDemo.

Lemma issue_follows_protocol_witness :
  exists prepared steps heap',
    consumePrepared (Some broker) handle preparedDurableCredentialIssuing (heapSteps steps (sc_state ready))
      = (Ok prepared, heap') /\ Issued prepared (exchanges (sc_trace issue_run.2)) issue_run.1.
Proof.
  destruct (issue_follows_protocol (live (Ok tt)) (Some broker) SomeContext handle ready issue_run.1 issue_run.2
    (sc_trace issue_run.2)) as [[_ [e He]]|(prepared & steps & heap' & H1 & H2 & _)].
  - apply surjective_pairing.
  - reflexivity.
  - exfalso. vm_compute in He. discriminate.
  - exists prepared, steps, heap'. exact (conj H1 H2).
Defined.

Lemma issue_leaves_no_secret_witness :
  exists before after, sc_trace failed_run.2 = before ++ created_child :: after /\ EvDestroy ChildToken ∈ after.
Proof.
  destruct (issue_leaves_no_secret (live (Err ErrRevocationNotFound)) (Some broker) SomeContext handle ready failed_run.1
    failed_run.2 (sc_trace failed_run.2) (Some issuer) child_request child None) as (before & after & Ht & Hd & _).
  - apply surjective_pairing.
  - reflexivity.
  - exact failed_child.
  - exists before, after. exact (conj Ht Hd).
Defined.

Lemma prepared_handle_is_single_use_witness :
  let again := Issue (live (Ok tt)) (Some broker) SomeContext handle issue_run.2 in
  sc_trace again.2 = sc_trace issue_run.2 /\ is_Some (failure again.1).
Proof.
  refine (proj2 (prepared_handle_is_single_use (live (Ok tt)) (Some broker) SomeContext handle ready issue_run.2
    (failure issue_run.1) _ _ _) World (live (Ok tt)) [] (Some broker) SomeContext handle issue_run.2 _ _ eq_refl eq_refl _).
  - exact ready_wf.
  - constructor. apply surjective_pairing.
  - intros Heq. vm_compute in Heq. discriminate.
  - constructor. apply surjective_pairing.
Defined.

Lemma prepared_handle_is_usable_witness :
  exists content, (consumePrepared (Some broker) handle preparedDurableCredentialIssuing (sc_state prepared_run.2)).1 = Ok content /\
    cpc_request content = request.
Proof.
  destruct (prepared_handle_is_usable (live (Ok tt)) (Some broker) SomeContext request (scene empty) handle prepared_run.2)
    as (b & content & o & [= <-] & H1 & H2 & _).
  - intros o. exact running_now.
  - vm_compute. reflexivity.
  - vm_compute. reflexivity.
  - exists content. exact (conj (H1 preparedDurableCredentialIssuing) H2).
Defined.

Lemma secret_is_gone_at_its_deadline_witness :
  (Secret (dc_expiresAt credential) credential (sc_state issue_run.2)).1 = ""%string.
Proof.
  refine (proj1 (secret_is_gone_at_its_deadline (live (Ok tt)) (dc_expiresAt credential) credential active
    (expired issue_run.2) (expired issue_run.2) (sc_state issue_run.2) _ _ _ _ _ _)).
  - exact issue_wf.
  - vm_compute. reflexivity.
  - vm_compute. reflexivity.
  - reflexivity.
  - reflexivity.
  - apply rtc_refl.
Defined.

(** ** With the repository behind it *)

Section backed.
Context {W : Type} (env : Environment W) (repo : W -> MemoryRepository) `{!Backed env repo}.

(** C3. Every child the broker had created is accounted for: when [Issue] ends, the
    repository holds the record of that child, with the instant of its authorisation and its
    deadline, which the child cannot outlive.  The record stays; it is closed without a
    revocation only after that deadline and a grace; and no other run of [Issue] creates
    another child for it. *)
Theorem child_is_accounted_for broker ctx handle w r w' t issuer request child err :
  repository_reachable (repo (sc_oracle w)) -> Issue env broker ctx handle w = (r, w') ->
  sc_trace w' = sc_trace w ++ t -> EvCreateChild issuer request child err ∈ t ->
  ccr_DatabaseAuthorizedAt request + ccr_TTL request + ChildCreateExpiryReserve <= ccr_CredentialExpiresAt request /\
  forall s, rtc repository_step (repo (sc_oracle w')) s ->
    (exists c, repo_records s !! ccr_RevocationID request = Some c /\
       rr_childCreateAuthorizedAt c = ccr_DatabaseAuthorizedAt request /\ expiry c = ccr_CredentialExpiresAt request /\
       (status c = StatusNoCredential ->
          ccr_CredentialExpiresAt request + PreparedRecoveryGrace <= rev_UpdatedAt (rr_revocation c))) /\
    forall broker2 ctx2 handle2 w2 r2 w3 t2 issuer2 request2 child2 err2,
      repo (sc_oracle w2) = s -> Issue env broker2 ctx2 handle2 w2 = (r2, w3) -> sc_trace w3 = sc_trace w2 ++ t2 ->
      EvCreateChild issuer2 request2 child2 err2 ∈ t2 -> ccr_RevocationID request2 <> ccr_RevocationID request.
Proof.
  intros Hs Hrun Ht Hin.
  pose proof (stands_run backed_event repo _ _ _ _ _ (stands_Issue env repo broker ctx handle) Hrun Ht) as Hb.
  destruct (issue_child_authorized _ _ _ _ _ _ _ _ _ _ _ _ Hrun Ht Hin)
    as (a & permit & fence & Hau & Hp & Hat & Httl & Hexp & Hbound).
  split; [lia|]. intros s Hsteps.
  assert (repository_reachable (repo (sc_oracle w'))) as Hs' by (by eapply (Issue_reachable env repo)).
  destruct (backed_authorized _ _ _ _ _ Hs Hb Hau) as (c & Hc & Hca & Hpos & Hce). simpl in Hc. rewrite Hp in Hc.
  destruct (record_later _ _ _ _ Hs' Hsteps Hc) as (Hwf & c' & Hc' & Hch).
  destruct (record_changes_authorization _ _ Hch ltac:(lia)) as [Hca' _].
  assert (expiry c' = expiry c) as Hce' by (destruct (record_changes_same _ _ Hch) as [_ Hg _ _]; injection Hg; congruence).
  split.
  - exists c'. split_and!; [done|congruence|congruence|]. intros Hnone.
    destruct (wf_none _ (rw_record _ Hwf _ _ Hc') Hnone) as [?|?]; [lia|]. lia.
  - intros broker2 ctx2 handle2 w2 r2 w3 t2 issuer2 request2 child2 err2 <- Hrun2 Ht2 Hin2.
    pose proof (stands_run backed_event repo _ _ _ _ _ (stands_Issue env repo broker2 ctx2 handle2) Hrun2 Ht2) as Hb2.
    eapply authorized_child_refused; [by eapply reachable_steps|exact Hc'|lia|exact Hrun2|exact Ht2|exact Hb2|exact Hin2].
Qed.

(** A credential that was handed over is on record from then on: its record was ACTIVE, so
    only a revocation can close it, and its deadline is not before that of the
    credential. *)
Theorem issued_credential_is_recorded broker ctx handle w credential w' :
  repository_reachable (repo (sc_oracle w)) -> Issue env broker ctx handle w = (Ok credential, w') ->
  forall s, rtc repository_step (repo (sc_oracle w')) s ->
    exists c, repo_records s !! dc_revocationID credential = Some c /\ dc_expiresAt credential <= expiry c /\
      rtc lifecycle StatusActive (status c) /\ (Revocation_Terminal (rr_revocation c) = true -> status c = StatusRevoked).
Proof.
  intros Hs Hrun s Hsteps.
  destruct (ends_run _ _ _ _ _ (stands_Issue env repo broker ctx handle w) Hrun) as (t & Ht & Hb).
  destruct (Issue_run env _ _ _ _ _ _ _ Hrun Ht) as [[_ [e ?]]|(prepared & steps & heap' & _ & Hi)]; [done|].
  destruct (issued_credential _ _ _ Hi) as (active & Ha & Hst & Hid & Hexp). apply exchanges_subset in Ha.
  assert (repository_reachable (repo (sc_oracle w'))) as Hs' by (by eapply (Issue_reachable env repo)).
  destruct (backed_activated _ _ _ _ _ Hs Hb Ha Hst) as (c & Hc & Hce & Hl). simpl in Hc. rewrite <- Hid in Hc.
  destruct (record_later _ _ _ _ Hs' Hsteps Hc) as (_ & c' & Hc' & Hch). exists c'.
  assert (expiry c' = expiry c) as Hce' by (destruct (record_changes_same _ _ Hch) as [_ Hg _ _]; injection Hg; congruence).
  assert (rtc lifecycle StatusActive (status c')) as Hl' by (etrans; [exact Hl|by apply record_changes_lifecycle]).
  split_and!; [done|lia|done|]. unfold Revocation_Terminal.
  destruct (active_later _ Hl') as [->|Hbr]; [done|]. by destruct (status c').
Qed.

(** C28. A failure does not leave a usable child unattended: when [Issue] fails with the
    accessor of a child in hand, the revocation of its record was requested, unless no
    bounded context could be had even from the standard library; and once the repository
    accepted the request, the credential is being revoked or is revoked. *)
Theorem failed_issue_is_revoked broker ctx handle w e w' t issuer request child err :
  repository_reachable (repo (sc_oracle w)) -> Issue env broker ctx handle w = (Err e, w') ->
  sc_trace w' = sc_trace w ++ t -> EvCreateChild issuer request child err ∈ t -> is_Some (child_Accessor child) ->
  EvFinalizeContext false ∈ t \/
  exists answer, EvRequestRevocation (revocationOf (ccr_RevocationID request)) answer ∈ t /\
    forall a, answer = Ok a ->
      exists c, repo_records (repo (sc_oracle w')) !! ccr_RevocationID request = Some c /\ beingRevoked (status c) = true.
Proof.
  intros Hs Hrun Ht Hin Hacc.
  pose proof (stands_run backed_event repo _ _ _ _ _ (stands_Issue env repo broker ctx handle) Hrun Ht) as Hb.
  assert (EvCreateChild issuer request child err ∈ exchanges t) as Hin' by (by apply exchanges_exchanged).
  destruct (Issue_run env _ _ _ _ _ _ _ Hrun Ht) as [[He _]|(prepared & steps & heap' & _ & Hi)].
  { rewrite He in Hin'. by apply elem_of_nil in Hin'. }
  destruct (issued_failure _ _ _ _ _ _ _ Hi Hin' Hacc) as [Hf|[answer Ha]]; [left; by apply exchanges_subset|right].
  apply exchanges_subset in Ha. exists answer. split; [done|]. intros a ->. by eapply backed_requested.
Qed.
End backed.

Lemma child_is_accounted_for_witness :
  exists c, repo_records (sc_oracle issue_run.2) !! id = Some c /\ rr_childCreateAuthorizedAt c = now.
Proof.
  destruct (child_is_accounted_for (live (Ok tt)) (fun w => w) (Some broker) SomeContext handle ready issue_run.1 issue_run.2
    (sc_trace issue_run.2) (Some issuer) child_request child None) as [_ H].
  - exact ready_reachable.
  - apply surjective_pairing.
  - reflexivity.
  - exact issue_child.
  - destruct (H (sc_oracle issue_run.2) (rtc_refl _ _)) as [(c & Hc & Ha & _) _]. exists c. exact (conj Hc Ha).
Defined.

Lemma issued_credential_is_recorded_witness :
  exists c, repo_records (sc_oracle issue_run.2) !! id = Some c /\ rtc lifecycle StatusActive (status c).
Proof.
  destruct (issued_credential_is_recorded (live (Ok tt)) (fun w => w) (Some broker) SomeContext handle ready credential
    issue_run.2) with (s := sc_oracle issue_run.2) as (c & Hc & _ & Hl & _).
  - exact ready_reachable.
  - vm_compute. reflexivity.
  - apply rtc_refl.
  - exists c. exact (conj Hc Hl).
Defined.

Lemma failed_issue_is_revoked_witness :
  EvFinalizeContext false ∈ sc_trace failed_run.2 \/
  exists answer, EvRequestRevocation (revocationOf id) answer ∈ sc_trace failed_run.2.
Proof.
  destruct (failed_issue_is_revoked (live (Err ErrRevocationNotFound)) (fun w => w) (Some broker) SomeContext handle ready
    (durableIssuanceError "inspect child accessor") failed_run.2 (sc_trace failed_run.2) (Some issuer) child_request child None)
    as [Hf|(answer & Ha & _)].
  - exact ready_reachable.
  - vm_compute. reflexivity.
  - reflexivity.
  - exact failed_child.
  - exists "accessor"%string. reflexivity.
  - left. exact Hf.
  - right. exists answer. exact Ha.
Defined.

(** The broker accepts what the repository answers, so its checks never turn a valid
    preparation or authorisation into a failure that would strand a record: a first
    preparation of the selected action passes [validPreparedResult], and an authorisation
    on the record it made passes [validChildCreateAuthorization]. *)
Theorem repository_answers_are_accepted err err' clock clock' answer permit request profile id expiresAt s result s' metadata
    s1 r err1 err1' clock1 source token a s2 :
  running clock -> selected request metadata -> CanonicalCredentialExpiry expiresAt = expiresAt ->
  Repository_Prepare err err' clock clock' answer (Ok metadata) permit (prepareRequest id request profile expiresAt) s
    = (Ok result, s') -> pr_Created result = true ->
  repository_reachable s1 -> repo_records s1 !! id = Some r -> rr_revocation r = pr_Revocation result ->
  running clock1 -> clock <= clock1 -> permit_RevocationID token = id ->
  Repository_AuthorizeChildCreate err1 err1' clock1 source {| auth_Permit := token; auth_Fence := pdr_Fence request |} s1
    = (Ok a, s2) ->
  validPreparedResult result id request profile expiresAt = true /\
  validChildCreateAuthorization a (pr_Revocation result) id request profile expiresAt = true.
Proof.
  intros Hclock Hsel Hcan Hrun Hcreated Hs1 Hr Hrev Hclock1 Hle Htok Hauth.
  pose proof (preparation_accepted _ _ _ _ _ _ _ _ _ _ _ _ _ _ _ Hclock eq_refl Hsel Hcan Hrun Hcreated) as Hv.
  split; [done|]. rewrite <- Hrev. eapply authorization_accepted; try done.
  - destruct (prepare_created _ _ _ _ _ _ _ _ _ _ _ Hrun Hcreated) as (m & tok & _ & _ & _ & _ & q & _ & _ & Hpr).
    rewrite Hrev, Hpr. done.
  - rewrite Hrev. unfold validPreparedResult in Hv. by guards.
Qed.

Lemma repository_answers_are_accepted_witness :
  validPreparedResult prepared_result id request profile (now + 600 * Second) = true /\
  validChildCreateAuthorization authorized (pr_Revocation prepared_result) id request profile (now + 600 * Second) = true.
Proof.
  apply (repository_answers_are_accepted None None now now (Ok metadata) (Ok "permit-token"%string) request profile id
    (now + 600 * Second) empty prepared_result (sc_oracle ready) metadata (sc_oracle ready) prepared_record None None now source
    {| permit_RevocationID := id; permit_Token := "permit-token" |} authorized authorized_run.2).
  - exact running_now.
  - split; repeat split.
  - vm_compute. reflexivity.
  - vm_compute. reflexivity.
  - reflexivity.
  - exact ready_reachable.
  - vm_compute. reflexivity.
  - vm_compute. reflexivity.
  - exact running_now.
  - reflexivity.
  - reflexivity.
  - vm_compute. reflexivity.
Defined.

(** ** Requests to revoke *)

(** C26. Callers that ask at once to revoke one credential share one request: its secret is
    destroyed before the first of them does anything else, at most one of them has a request
    on its way, all that succeed get one and the same answer, which is a valid one, no
    request is made after that, and no caller waits for a request that is not on its
    way. *)
Theorem revocation_requests_share_one_flight state requests :
  rtc request_step (requests_start state) requests ->
  (rq_requesters requests <> ∅ -> dcs_secret (rq_state requests) = ""%string) /\
  (forall who who', rq_requesters requests !! who = Some RequesterCalls ->
     rq_requesters requests !! who' = Some RequesterCalls -> who = who') /\
  (forall who r, rq_requesters requests !! who = Some (RequesterReturned (Ok r)) ->
     validRequestedRevocation r state = true /\
     forall requests' who', rtc request_step requests requests' ->
       rq_requesters requests' !! who' <> Some RequesterCalls /\
       (forall r', rq_requesters requests' !! who' = Some (RequesterReturned (Ok r')) -> r' = r)) /\
  (forall who flight, rq_requesters requests !! who = Some (RequesterWaits flight) ->
     is_Some (requestStep (RequestWakes who None) requests) \/ rq_requesters requests !! flight = Some RequesterCalls).
Proof.
  intros Hs. pose proof (requests_wf_steps _ _ Hs (requests_start_wf state)) as Hwf.
  split_and!; [exact (rw_destroyed _ Hwf)| | |intros who flight; by apply waiting_progress].
  - intros who who' H1%(rw_flight _ Hwf) H2%(rw_flight _ Hwf). congruence.
  - intros who r Hr%(rw_success _ Hwf). split.
    + destruct (request_steps_same _ _ Hs) as [Hid Hsn]. rewrite (validRequestedRevocation_ext _ _ (rq_state requests)) by done.
      by apply (rw_valid _ Hwf).
    + intros requests' who' Hs'. pose proof (request_steps_result _ _ _ Hs' Hwf Hr) as Hr'.
      pose proof (requests_wf_steps _ _ Hs' Hwf) as Hwf'. split.
      * intros Hc%(rw_flight _ Hwf'). rewrite (rw_landed _ Hwf') in Hc by congruence. done.
      * intros r' Hr2%(rw_success _ Hwf'). congruence.
Qed.

Lemma revocation_requests_share_one_flight_witness :
  exists r, rq_requesters requests_end !! 0%nat = Some (RequesterReturned (Ok r)) /\ validRequestedRevocation r active = true /\
    rq_requesters requests_end !! 1%nat = Some (RequesterReturned (Ok r)).
Proof.
  destruct (revocation_requests_share_one_flight active requests_end) as (_ & _ & H & _).
  - exact requests_end_steps.
  - destruct requests_end_returned as (r & H0 & H1). exists r. exact (conj H0 (conj (proj1 (H _ _ H0)) H1)).
Defined.

(** ** The registry *)

(** The registry resolves a selection exactly when it was registered, to the profile and
    issuer of that registration, each of which passed its checks; registrations that name
    the same issuer revision in one scope name the same profile and issuer. *)
Theorem registry_resolves_exactly registrations registry :
  NewIssuerRegistry registrations = Ok registry ->
  (forall selection resolved,
     ResolveDurableIssuer (Some registry) SomeContext None selection = Ok resolved <->
     exists registration, registration ∈ registrations /\ ir_Selection registration = selection /\
       resolved = registered registration) /\
  (forall registration, registration ∈ registrations ->
     validDurableSelection (ir_Selection registration) = true /\ validDurableResolution (registered registration) = true) /\
  (forall left right, left ∈ registrations -> right ∈ registrations ->
     registrationIdentity left = registrationIdentity right -> registered left = registered right).
Proof.
  intros (identities & [Hl Hv Hi])%NewIssuerRegistry_Ok. split_and!; [|exact Hv|].
  - intros selection resolved. rewrite <- Hl. unfold ResolveDurableIssuer. split.
    + intros H. apply Result_bind_Ok in H as (u & _ & H). destruct (registry !! selection) as [resolved'|]; [|done].
      by apply Result_bind_Ok in H as (u' & _ & [= <-]).
    + intros H. pose proof (proj1 (Hl _ _) H) as (registration & Hin & <- & ->).
      destruct (Hv _ Hin) as [Hsel Hres]. rewrite Hsel, H, Hres. done.
  - intros left right Hleft%Hi Hright%Hi Heq. rewrite Heq in Hleft. congruence.
Qed.

Lemma registry_resolves_exactly_witness :
  ResolveDurableIssuer (Some registry) SomeContext None selection = Ok resolved.
Proof.
  apply (registry_resolves_exactly [registration] registry).
  - exact registry_made.
  - exists registration. split; [apply list_elem_of_here|split; reflexivity].
Defined.
