(* ===== verification/RevocationWorker.v ===== *)
(** * The revocation worker

    [internal/credential/revocationworker/worker.go]: the registry of revokers, the delay
    before a retry, the classes of failures, the processing of one claim with its heartbeat
    and its remote call, and one round of the worker.

    [processClaim] runs three goroutines.  [ClaimRun] is what they share and where each of
    them is, [claimStep] one step of one of them; what comes from outside (an answer, the
    choice of a [select], the end of the caller's context) is part of the step.  A timer may
    fire at any time.  A nil interface or pointer is [None]. *)

From S2P Require Import Prelude.
From S2P Require Import Interaction.
From S2P Require Import GoText.
From S2P Require Import GoStrings.
From S2P Require Import Credential.

Open Scope Z_scope.

Definition ErrInvalidRegistry := errors_New "revocationworker.ErrInvalidRegistry".
Definition ErrRevokerNotRegistered := errors_New "revocationworker.ErrRevokerNotRegistered".
Definition ErrInvalidWorker := errors_New "revocationworker.ErrInvalidWorker".
Definition ErrRecoveryFailed := errors_New "revocationworker.ErrRecoveryFailed".
Definition ErrClaimFailed := errors_New "revocationworker.ErrClaimFailed".
Definition ErrClaimDeferred := errors_New "revocationworker.ErrClaimDeferred".

Definition defaultRecoveryLimit : Z := 100.
Definition defaultClaimLimit : Z := 1.
Definition RevocationClaimLease : Duration := 30 * Second.
Definition RevocationHeartbeatInterval : Duration := 10 * Second.
Definition RevocationRemoteTimeout : Duration := 20 * Second.

(** [^[A-Za-z0-9][A-Za-z0-9_.-]{0,255}$] *)
Definition exactIdentifierPattern (s : string) : bool :=
  head_tail is_alnum (fun c => is_alnum c || one_of_chars "_.-" c) s && (len s <=? 256).

(** ** The registry of revokers *)

(** A revoker is known by which object it is. *)
Definition Revoker : Type := Z.

Record RevokerIdentity := {
  rid_TenantID : string; rid_WorkspaceID : string; rid_EnvironmentID : string; rid_IssuerID : string;
  rid_IssuerRevision : string
}.

#[export] Instance RevokerIdentity_eq_dec : EqDecision RevokerIdentity.
Proof. solve_decision. Defined.

#[export] Instance RevokerIdentity_countable : Countable RevokerIdentity.
Proof.
  refine (inj_countable'
    (fun i => (rid_TenantID i, rid_WorkspaceID i, rid_EnvironmentID i, rid_IssuerID i, rid_IssuerRevision i))
    (fun '(t, w, e, i, r) => Build_RevokerIdentity t w e i r) _).
  by intros [].
Defined.

Record Registration := { rreg_Identity : RevokerIdentity; rreg_Revoker : option Revoker }.

Definition Registry : Type := gmap RevokerIdentity Revoker.

Definition validIdentity (identity : RevokerIdentity) : bool :=
  exactIdentifierPattern (rid_TenantID identity) && exactIdentifierPattern (rid_WorkspaceID identity) &&
  exactIdentifierPattern (rid_EnvironmentID identity) && exactIdentifierPattern (rid_IssuerID identity) &&
  exactIdentifierPattern (rid_IssuerRevision identity).

Fixpoint registerRevokers (registrations : list Registration) (revokers : Registry) : Result Registry :=
  match registrations with
  | [] => Ok revokers
  | registration :: registrations =>
      let identity := rreg_Identity registration in
      match validIdentity identity, rreg_Revoker registration, revokers !! identity with
      | true, Some revoker, None => registerRevokers registrations (<[identity := revoker]> revokers)
      | _, _, _ => Err ErrInvalidRegistry
      end
  end.

Definition NewRegistry (registrations : list Registration) : Result Registry :=
  match registrations with
  | [] => Err ErrInvalidRegistry
  | _ => registerRevokers registrations ∅
  end.

(** [err] is the reading of [ctx.Err()]. *)
Definition ResolveRevoker (registry : option Registry) (err : option GoError) (identity : RevokerIdentity)
    : Result Revoker :=
  match err, registry with
  | None, Some registry =>
      if validIdentity identity then
        match registry !! identity with
        | Some revoker => Ok revoker
        | None => Err ErrRevokerNotRegistered
        end
      else Err ErrRevokerNotRegistered
  | _, _ => Err ErrRevokerNotRegistered
  end.

Definition identityFrom (revocation : Revocation) : RevokerIdentity :=
  {| rid_TenantID := rev_TenantID revocation; rid_WorkspaceID := rev_WorkspaceID revocation;
     rid_EnvironmentID := rev_EnvironmentID revocation; rid_IssuerID := rev_Issuer revocation;
     rid_IssuerRevision := rev_IssuerRevision revocation |}.

(** ** The worker *)

Record Options := { opt_WorkerID : string; opt_RecoveryLimit : Z; opt_ClaimLimit : Z }.

Record Worker := {
  wk_registry : Registry; wk_workerID : string; wk_recoveryLimit : Z; wk_claimLimit : Z; wk_claimLease : Duration;
  wk_heartbeatInterval : Duration; wk_remoteTimeout : Duration
}.

Definition New (repository : bool) (registry : option Registry) (options : Options) : Result Worker :=
  match repository, registry, ValidIdentifier (opt_WorkerID options) 128 with
  | true, Some registry, true =>
      let recoveryLimit := if opt_RecoveryLimit options =? 0 then defaultRecoveryLimit else opt_RecoveryLimit options in
      let claimLimit := if opt_ClaimLimit options =? 0 then defaultClaimLimit else opt_ClaimLimit options in
      if (recoveryLimit <? 1) || (MaxRevocationClaimBatch <? recoveryLimit) || negb (claimLimit =? defaultClaimLimit)
      then Err ErrInvalidWorker
      else Ok {| wk_registry := registry; wk_workerID := opt_WorkerID options; wk_recoveryLimit := recoveryLimit;
                 wk_claimLimit := claimLimit; wk_claimLease := RevocationClaimLease;
                 wk_heartbeatInterval := RevocationHeartbeatInterval; wk_remoteTimeout := RevocationRemoteTimeout |}
  | _, _, _ => Err ErrInvalidWorker
  end.

(** ** Failures *)

Inductive ErrorClass :=
| ErrorProtocol | ErrorAuthentication | ErrorPermission | ErrorRateLimited | ErrorUnavailable | ErrorTimeout
| ErrorInvalidReference | ErrorUnexpectedResponse | ErrorClassOther (s : string).

(** What [errors.Is] and [errors.As] find in the error of a revoker. *)
Record RevokeError := { re_DeadlineExceeded : bool; re_NotRegistered : bool; re_ClientError : option ErrorClass }.

Definition classifyFailure (err : RevokeError) : FailureCode * bool :=
  if re_DeadlineExceeded err then (FailureTimeout, false)
  else if re_NotRegistered err then (FailureIssuerUnavailable, false)
  else
    match re_ClientError err with
    | Some ErrorAuthentication => (FailureAuthentication, false)
    | Some ErrorPermission => (FailurePermissionDenied, false)
    | Some ErrorRateLimited => (FailureRateLimited, false)
    | Some ErrorUnavailable => (FailureIssuerUnavailable, false)
    | Some ErrorTimeout => (FailureTimeout, false)
    | Some ErrorInvalidReference => (FailureInvalidReference, true)
    | Some _ => (FailureUnknown, false)
    | None => (FailureUnknown, false)
    end.

Definition failureDetail (code : FailureCode) : string :=
  match code with
  | FailureIssuerUnavailable => "credential.revocation.worker.issuer_unavailable.v1"
  | FailureRateLimited => "credential.revocation.worker.rate_limited.v1"
  | FailureTimeout => "credential.revocation.worker.timeout.v1"
  | FailureAuthentication => "credential.revocation.worker.authentication_failed.v1"
  | FailurePermissionDenied => "credential.revocation.worker.permission_denied.v1"
  | FailureReferenceMissing => "credential.revocation.worker.reference_not_found.v1"
  | FailureInvalidReference => "credential.revocation.worker.invalid_reference.v1"
  | _ => "credential.revocation.worker.unknown.v1"
  end.

(** The loop that doubles the bound: [rounds] is at least as many as it can make. *)
Fixpoint retryUpper (rounds : nat) (current attempt upper : Z) : Z :=
  match rounds with
  | O => upper
  | S rounds =>
      if (current <? attempt) && (upper <? MaxRevocationRetryDelay) then
        if Z.quot MaxRevocationRetryDelay 2 <? upper then MaxRevocationRetryDelay
        else retryUpper rounds (current + 1) attempt (upper * 2)
      else upper
  end.

Definition retryRounds : nat := 64.

(** [random] is [cryptorand.Int]: a number below the span, or an error. *)
Definition retryDelay (random : Z -> Result Z) (attempt : Z) : Duration :=
  let attempt := if attempt <? 1 then 1 else attempt in
  let upper := retryUpper retryRounds 1 attempt MinRevocationRetryDelay in
  if upper <=? MinRevocationRetryDelay then MinRevocationRetryDelay
  else
    let span := upper - MinRevocationRetryDelay + 1 in
    match random span with
    | Err _ => MinRevocationRetryDelay
    | Ok offset => MinRevocationRetryDelay + offset
    end.

(** ** Processing one claim *)

Inductive ClaimOutcome := claimRevoked | claimRetried | claimManual.

#[export] Instance ClaimOutcome_eq_dec : EqDecision ClaimOutcome.
Proof. solve_decision. Defined.

Inductive WorkerEvent :=
| WkRecoverPrepared (limit : Z) (answer : Result (list Revocation))
| WkRecoverManaged (limit : Z) (answer : Result (list Revocation))
| WkRecoverExhausted (limit : Z) (answer : Result (list Revocation))
| WkClaim (request : ClaimRevocationsRequest) (answer : Result (list ClaimedRevocation))
| WkHeartbeat (request : HeartbeatRequest) (answer : Result Revocation)
| WkRevoke (revoker : Revoker) (accessor : SensitiveReference) (destroyed : bool)
| WkRevokeAnswer (revoker : Revoker) (err : option RevokeError)
| WkComplete (fence : ClaimFence) (answer : Result Revocation)
| WkRetry (request : RetryRevocationRequest) (answer : Result Revocation)
| WkManual (request : RequireManualRequest) (answer : Result Revocation)
| WkDestroy (accessor : string)
| WkRoundErr (err : option GoError).               (** the reading of [ctx.Err()] after a deferral *)

(** Where the method is.  [AtLeave] is a [return]: the deferred functions are still to run. *)
Inductive MainPlace :=
| AtResolve
| AtUnresolved
| AtSlot (revoker : Revoker)
| AtRemote
| AtRemoteError (err : RevokeError)
| AtRemoteErrorHeld (err : RevokeError)
| AtRemoteDone
| AtComplete
| AtAck (code : FailureCode) (manual : bool)
| AtLeave (result : Result ClaimOutcome)
| AtJoin (result : Result ClaimOutcome)
| Returned (result : Result ClaimOutcome).

Inductive HeartbeatPlace := HeartbeatSelects | HeartbeatCalls | HeartbeatCancels | HeartbeatStopped.

Inductive RemotePlace :=
| RemoteIdle
| RemoteSpawned (revoker : Revoker)
| RemoteCalls (revoker : Revoker)
| RemoteReleases
| RemoteStopped.

(** Who holds the worker's remote slot: nobody, the remote call of an earlier claim that was
    given up, or this one. *)
Inductive SlotHolder := SlotFree | SlotEarlier | SlotHere.

#[export] Instance SlotHolder_eq_dec : EqDecision SlotHolder.
Proof. solve_decision. Defined.

Record ClaimRun := {
  cl_main : MainPlace; cl_heartbeat : HeartbeatPlace; cl_remote : RemotePlace; cl_slot : SlotHolder;
  cl_remoteResult : option (option RevokeError);   (** the buffer of [remoteResult] *)
  cl_heartbeatLost : bool;                         (** the buffer of [heartbeatLost] *)
  cl_ctxDone : bool; cl_operationCancelled : bool; cl_remoteCancelled : bool;
  cl_destroyed : bool;                             (** the accessor was destroyed *)
  cl_trace : list WorkerEvent
}.

Definition claimStart (slot : SlotHolder) (ctxDone : bool) : ClaimRun :=
  {| cl_main := AtResolve; cl_heartbeat := HeartbeatSelects; cl_remote := RemoteIdle; cl_slot := slot;
     cl_remoteResult := None; cl_heartbeatLost := false; cl_ctxDone := ctxDone; cl_operationCancelled := false;
     cl_remoteCancelled := false; cl_destroyed := false; cl_trace := [] |}.

(** [operationCtx.Err() != nil] *)
Definition operationDone (run : ClaimRun) : bool := cl_ctxDone run || cl_operationCancelled run.

Definition goes (place : MainPlace) (run : ClaimRun) : ClaimRun := {| run with cl_main := place |}.
Definition says (event : WorkerEvent) (run : ClaimRun) : ClaimRun := {| run with cl_trace := cl_trace run ++ [event] |}.
Definition defers : MainPlace := AtLeave (Err ErrClaimDeferred).

(** The branches of the [select] that waits for the revoker. *)
Inductive SelectBranch := SelectResult | SelectTimeout | SelectLost | SelectContext.

Inductive ClaimStep :=
| ContextEnds
| EarlierReleases
| MainRuns
| MainSelects (branch : SelectBranch)
| MainAnswered (random : Z -> Result Z) (answer : Result Revocation)
| HeartbeatTicks
| HeartbeatAnswered (answer : Result Revocation)
| HeartbeatLoses
| HeartbeatEnds
| RemoteStarts
| RemoteAnswered (err : option RevokeError)
| RemoteEnds.

Section processClaim.
Context (worker : Worker) (claim : ClaimedRevocation).

(** The steps of the method that take no input. *)
Definition mainRuns (run : ClaimRun) : option ClaimRun :=
  match cl_main run with
  | AtResolve =>
      let err := if operationDone run then Some ErrClaimDeferred else None in
      match ResolveRevoker (Some (wk_registry worker)) err (identityFrom (claimed_Revocation claim)), claimed_Accessor claim with
      | Err _, _ => Some (goes AtUnresolved run)
      | Ok _, None => Some (goes (AtAck FailureInvalidReference true) run)
      | Ok revoker, Some _ => Some (goes (AtSlot revoker) run)
      end
  | AtUnresolved =>
      Some (goes (if operationDone run then defers else AtAck FailureIssuerUnavailable false) run)
  | AtSlot revoker =>
      match cl_slot run with
      | SlotFree => Some {| run with cl_main := AtRemote; cl_slot := SlotHere; cl_remote := RemoteSpawned revoker |}
      | _ => Some (goes defers run)
      end
  | AtRemoteError err =>
      if cl_heartbeatLost run then Some {| run with cl_main := defers; cl_heartbeatLost := false |}
      else Some (goes (AtRemoteErrorHeld err) run)
  | AtRemoteErrorHeld err =>
      let '(code, manual) := classifyFailure err in
      Some (goes (if cl_ctxDone run then defers else AtAck code manual) run)
  | AtRemoteDone =>
      if cl_heartbeatLost run then Some {| run with cl_main := defers; cl_heartbeatLost := false |}
      else Some (goes AtComplete run)
  | AtLeave result =>
      let remoteCancelled := match cl_remote run with RemoteIdle => cl_remoteCancelled run | _ => true end in
      Some {| run with cl_main := AtJoin result; cl_remoteCancelled := remoteCancelled; cl_operationCancelled := true |}
  | AtJoin result =>
      match cl_heartbeat run with
      | HeartbeatStopped =>
          match claimed_Accessor claim with
          | Some accessor => Some (says (WkDestroy accessor) {| run with cl_main := Returned result; cl_destroyed := true |})
          | None => Some (goes (Returned result) run)
          end
      | _ => None
      end
  | AtRemote | AtComplete | AtAck _ _ | Returned _ => None
  end.

Definition mainSelects (branch : SelectBranch) (run : ClaimRun) : option ClaimRun :=
  match cl_main run, branch with
  | AtRemote, SelectResult =>
      match cl_remoteResult run with
      | Some err =>
          let place := match err with Some err => AtRemoteError err | None => AtRemoteDone end in
          Some {| run with cl_main := place; cl_remoteResult := None |}
      | None => None
      end
  | AtRemote, SelectTimeout => Some {| run with cl_main := AtAck FailureTimeout false; cl_remoteCancelled := true |}
  | AtRemote, SelectLost =>
      if cl_heartbeatLost run
      then Some {| run with cl_main := defers; cl_heartbeatLost := false; cl_remoteCancelled := true |} else None
  | AtRemote, SelectContext =>
      if cl_ctxDone run then Some {| run with cl_main := defers; cl_remoteCancelled := true |} else None
  | _, _ => None
  end.

(** The outcome of an acknowledged failure. *)
Definition ackOutcome (manual : bool) (answer : Result Revocation) : Result ClaimOutcome :=
  match answer with
  | Err _ => Err ErrClaimDeferred
  | Ok revocation => Ok (if manual || (rev_Status revocation == StatusManualRequired) then claimManual else claimRetried)
  end.

Definition retryRequest (random : Z -> Result Z) (code : FailureCode) : RetryRevocationRequest :=
  {| retry_Fence := claimed_Fence claim; retry_Delay := retryDelay random (rev_Attempt (claimed_Revocation claim));
     retry_FailureCode := code; retry_FailureDetail := failureDetail code |}.

Definition manualRequest (code : FailureCode) : RequireManualRequest :=
  {| manual_Fence := claimed_Fence claim; manual_FailureCode := code; manual_FailureDetail := failureDetail code |}.

Definition mainAnswered (random : Z -> Result Z) (answer : Result Revocation) (run : ClaimRun) : option ClaimRun :=
  match cl_main run with
  | AtComplete =>
      let result := match answer with Ok _ => Ok claimRevoked | Err _ => Err ErrClaimDeferred end in
      Some (says (WkComplete (claimed_Fence claim) answer) (goes (AtLeave result) run))
  | AtAck code true =>
      Some (says (WkManual (manualRequest code) answer) (goes (AtLeave (ackOutcome true answer)) run))
  | AtAck code false =>
      Some (says (WkRetry (retryRequest random code) answer) (goes (AtLeave (ackOutcome false answer)) run))
  | _ => None
  end.

Definition heartbeatRequest : HeartbeatRequest :=
  {| rbeat_Fence := claimed_Fence claim; rbeat_Extension := wk_claimLease worker |}.

Definition claimStep (step : ClaimStep) (run : ClaimRun) : option ClaimRun :=
  match step with
  | ContextEnds => Some {| run with cl_ctxDone := true |}
  | EarlierReleases => if cl_slot run == SlotEarlier then Some {| run with cl_slot := SlotFree |} else None
  | MainRuns => mainRuns run
  | MainSelects branch => mainSelects branch run
  | MainAnswered random answer => mainAnswered random answer run
  | HeartbeatTicks =>
      match cl_heartbeat run with
      | HeartbeatSelects => Some {| run with cl_heartbeat := HeartbeatCalls |}
      | _ => None
      end
  | HeartbeatAnswered answer =>
      match cl_heartbeat run with
      | HeartbeatCalls =>
          let run := says (WkHeartbeat heartbeatRequest answer) run in
          match answer with
          | Ok _ => Some {| run with cl_heartbeat := HeartbeatSelects |}
          | Err _ => Some {| run with cl_heartbeat := HeartbeatCancels; cl_heartbeatLost := true |}
          end
      | _ => None
      end
  | HeartbeatLoses =>
      match cl_heartbeat run with
      | HeartbeatCancels => Some {| run with cl_heartbeat := HeartbeatStopped; cl_operationCancelled := true |}
      | _ => None
      end
  | HeartbeatEnds =>
      match cl_heartbeat run, operationDone run with
      | HeartbeatSelects, true => Some {| run with cl_heartbeat := HeartbeatStopped |}
      | _, _ => None
      end
  | RemoteStarts =>
      match cl_remote run with
      | RemoteSpawned revoker =>
          Some (says (WkRevoke revoker (claimed_Accessor claim) (cl_destroyed run)) {| run with cl_remote := RemoteCalls revoker |})
      | _ => None
      end
  | RemoteAnswered err =>
      match cl_remote run with
      | RemoteCalls revoker =>
          Some (says (WkRevokeAnswer revoker err) {| run with cl_remote := RemoteReleases; cl_remoteResult := Some err |})
      | _ => None
      end
  | RemoteEnds =>
      match cl_remote run with
      | RemoteReleases => Some {| run with cl_remote := RemoteStopped; cl_slot := SlotFree |}
      | _ => None
      end
  end.

Definition claim_step (run run' : ClaimRun) : Prop := exists step, claimStep step run = Some run'.
End processClaim.

(** ** One round of the worker *)

Record RunResult := {
  run_PreparedRecovered : Z; run_ManagedRecovered : Z; run_ExhaustedRecovered : Z; run_Claimed : Z; run_Revoked : Z;
  run_Retried : Z; run_ManualRequired : Z; run_Deferred : Z
}.

Definition RunResult_zero : RunResult :=
  {| run_PreparedRecovered := 0; run_ManagedRecovered := 0; run_ExhaustedRecovered := 0; run_Claimed := 0;
     run_Revoked := 0; run_Retried := 0; run_ManualRequired := 0; run_Deferred := 0 |}.

(** What a round calls.  [on_processClaim] is the method above: its result, with what it left
    in the trace. *)
Record WorkerEnvironment (W : Type) := {
  on_RecoverPrepared : Z -> W -> Result (list Revocation) * W;
  on_RecoverManaged : Z -> W -> Result (list Revocation) * W;
  on_RecoverExhausted : Z -> W -> Result (list Revocation) * W;
  on_ClaimRevocations : ClaimRevocationsRequest -> W -> (list ClaimedRevocation * option GoError) * W;
  on_processClaim : ClaimedRevocation -> W -> (Result ClaimOutcome * list WorkerEvent) * W;
  on_roundErr : W -> option GoError * W
}.
Arguments on_RecoverPrepared {W}.
Arguments on_RecoverManaged {W}.
Arguments on_RecoverExhausted {W}.
Arguments on_ClaimRevocations {W}.
Arguments on_processClaim {W}.
Arguments on_roundErr {W}.

Section RunOnce.
Context {W : Type} (env : WorkerEnvironment W).
Let Prog := Talk unit WorkerEvent W.

Definition destroyClaims (claims : list ClaimedRevocation) : Prog unit :=
  foldr (fun claim p => match claimed_Accessor claim with
                        | Some accessor => note (WkDestroy accessor);; p
                        | None => p
                        end) (mret tt) claims.

Definition countOutcome (outcome : ClaimOutcome) (result : RunResult) : RunResult :=
  match outcome with
  | claimRevoked => {| result with run_Revoked := run_Revoked result + 1 |}
  | claimRetried => {| result with run_Retried := run_Retried result + 1 |}
  | claimManual => {| result with run_ManualRequired := run_ManualRequired result + 1 |}
  end.

Definition countDeferred (result : RunResult) : RunResult := {| result with run_Deferred := run_Deferred result + 1 |}.

(** The loop over the claims, with the flag [hadDeferred]. *)
Fixpoint processClaims (claims : list ClaimedRevocation) (result : RunResult) (hadDeferred : bool) : Prog (RunResult * bool) :=
  match claims with
  | [] => mret (result, hadDeferred)
  | claim :: claims =>
      processed ← consult (on_processClaim env claim);
      foldr (fun event p => note event;; p) (mret tt) processed.2;;
      match processed.1 with
      | Ok outcome => processClaims claims (countOutcome outcome result) hadDeferred
      | Err e =>
          if decide (errors_Is e ErrClaimDeferred) then
            err ← exchange (on_roundErr env) WkRoundErr;
            match err with
            | Some _ => mret (countDeferred result, true)
            | None => processClaims claims (countDeferred result) true
            end
          else processClaims claims (countDeferred result) true
      end
  end.

Definition claimRequest (worker : Worker) : ClaimRevocationsRequest :=
  {| rclaim_WorkerID := wk_workerID worker; rclaim_Limit := wk_claimLimit worker;
     rclaim_LeaseDuration := wk_claimLease worker |}.

Definition claimAnswered (answer : list ClaimedRevocation * option GoError) : Result (list ClaimedRevocation) :=
  match answer.2 with Some e => Err e | None => Ok answer.1 end.

(** From the claim to the end of the round. *)
Definition RunOnce_claims (worker : Worker) (result : RunResult) : Prog (RunResult * option GoError) :=
  let request := claimRequest worker in
  claimed ← exchange (on_ClaimRevocations env request)
              (fun answer => WkClaim request (claimAnswered answer));
  match claimed.2 with
  | Some _ => destroyClaims claimed.1;; mret (result, Some ErrClaimFailed)
  | None =>
      let result := {| result with run_Claimed := Z.of_nat (length claimed.1) |} in
      processed ← processClaims claimed.1 result false;
      destroyClaims claimed.1;;
      mret (processed.1, if processed.2 : bool then Some ErrClaimDeferred else None)
  end.

(** The whole round; [ctx] tells whether there is a context. *)
Definition RunOnce (worker : option Worker) (ctx : bool) : Prog (RunResult * option GoError) :=
  match worker, ctx with
  | Some worker, true =>
      let limit := wk_recoveryLimit worker in
      let result := RunResult_zero in
      prepared ← exchange (on_RecoverPrepared env limit) (WkRecoverPrepared limit);
      match prepared with
      | Err _ => mret (result, Some ErrRecoveryFailed)
      | Ok prepared =>
      let result := {| result with run_PreparedRecovered := Z.of_nat (length prepared) |} in
      managed ← exchange (on_RecoverManaged env limit) (WkRecoverManaged limit);
      match managed with
      | Err _ => mret (result, Some ErrRecoveryFailed)
      | Ok managed =>
      let result := {| result with run_ManagedRecovered := Z.of_nat (length managed) |} in
      exhausted ← exchange (on_RecoverExhausted env limit) (WkRecoverExhausted limit);
      match exhausted with
      | Err _ => mret (result, Some ErrRecoveryFailed)
      | Ok exhausted =>
      RunOnce_claims worker {| result with run_ExhaustedRecovered := Z.of_nat (length exhausted) |}
      end end end
  | _, _ => mret (RunResult_zero, Some ErrInvalidWorker)
  end.
End RunOnce.
