(* ===== verification/RevocationWorkerFacts.v ===== *)
(** * The revocation worker: facts

    The invariant of [processClaim] over every interleaving of its goroutines, the bound of
    the retry delay in closed form, and the registry. *)

From S2P Require Import Prelude.
From S2P Require Import Interaction.
From S2P Require Import GoText.
From S2P Require Import Credential.
From S2P Require Import RevocationWorker.

Open Scope Z_scope.

(** ** The retry delay *)

Definition retryBound (attempt : Z) : Duration :=
  Z.min MaxRevocationRetryDelay (MinRevocationRetryDelay * 2 ^ (Z.max attempt 1 - 1)).

Lemma retryUpper_closed rounds current attempt upper :
  0 < upper <= MaxRevocationRetryDelay -> current <= attempt -> MaxRevocationRetryDelay <= upper * 2 ^ Z.of_nat rounds ->
  retryUpper rounds current attempt upper = Z.min MaxRevocationRetryDelay (upper * 2 ^ (attempt - current)).
Proof.
  revert current upper. induction rounds as [|rounds IH]; intros current upper Hu Hc Hr.
  - pose proof (Z.pow_pos_nonneg 2 (attempt - current) ltac:(lia) ltac:(lia)). simpl in *. nia.
  - simpl. destruct (Z.ltb_spec current attempt); simpl; [|replace (attempt - current) with 0 by lia; lia].
    assert (2 ^ (attempt - current) = 2 * 2 ^ (attempt - (current + 1))) as Hp.
    { rewrite <- Z.pow_succ_r by lia. f_equal. lia. }
    pose proof (Z.pow_pos_nonneg 2 (attempt - (current + 1)) ltac:(lia) ltac:(lia)). rewrite Hp.
    destruct (Z.ltb_spec upper MaxRevocationRetryDelay); [|nia].
    change (Z.quot MaxRevocationRetryDelay 2) with 450000000000. change MaxRevocationRetryDelay with 900000000000 in *.
    destruct (Z.ltb_spec 450000000000 upper); [nia|]. rewrite IH; [f_equal; lia|lia|lia|].
    rewrite Nat2Z.inj_succ, Z.pow_succ_r in Hr by lia. lia.
Qed.

Lemma retryUpper_bound attempt : 1 <= attempt -> retryUpper retryRounds 1 attempt MinRevocationRetryDelay = retryBound attempt.
Proof.
  intros Ha. rewrite retryUpper_closed; [|done|lia|done]. unfold retryBound. by rewrite Z.max_l by lia.
Qed.

Lemma retryBound_range attempt : MinRevocationRetryDelay <= retryBound attempt <= MaxRevocationRetryDelay.
Proof.
  unfold retryBound. pose proof (Z.pow_pos_nonneg 2 (Z.max attempt 1 - 1) ltac:(lia) ltac:(lia)).
  assert (MinRevocationRetryDelay = 5000000000) by done. assert (MaxRevocationRetryDelay = 900000000000) by done. nia.
Qed.

(** The delay for an answer of [cryptorand.Int]. *)
Lemma retryDelay_spec random attempt :
  retryDelay random attempt =
    if retryBound attempt =? MinRevocationRetryDelay then MinRevocationRetryDelay
    else match random (retryBound attempt - MinRevocationRetryDelay + 1) with
         | Err _ => MinRevocationRetryDelay
         | Ok offset => MinRevocationRetryDelay + offset
         end.
Proof.
  unfold retryDelay. cbv zeta. rewrite retryUpper_bound by (destruct (Z.ltb_spec attempt 1); lia).
  replace (retryBound (if attempt <? 1 then 1 else attempt)) with (retryBound attempt)
    by (unfold retryBound; do 4 f_equal; destruct (Z.ltb_spec attempt 1); lia).
  pose proof (retryBound_range attempt). destruct (Z.leb_spec (retryBound attempt) MinRevocationRetryDelay);
    destruct (Z.eqb_spec (retryBound attempt) MinRevocationRetryDelay); lia || done.
Qed.

(** What [cryptorand.Int] promises. *)
Definition below_span (random : Z -> Result Z) : Prop :=
  forall span offset, 0 < span -> random span = Ok offset -> 0 <= offset < span.

Lemma retryDelay_range random attempt :
  below_span random -> MinRevocationRetryDelay <= retryDelay random attempt <= retryBound attempt.
Proof.
  intros Hr. rewrite retryDelay_spec. pose proof (retryBound_range attempt).
  destruct (Z.eqb_spec (retryBound attempt) MinRevocationRetryDelay); [lia|].
  destruct (random _) as [offset|] eqn:Ho; [|lia]. apply Hr in Ho; lia.
Qed.

(** ** The invariant of [processClaim] *)

Definition acknowledges (event : WorkerEvent) : bool :=
  match event with WkComplete _ _ | WkRetry _ _ | WkManual _ _ => true | _ => false end.
Definition acks (t : list WorkerEvent) : list WorkerEvent := List.filter acknowledges t.

Definition revokes (event : WorkerEvent) : bool := if event is WkRevoke _ _ _ then true else false.

(** The remote goroutine is not at its end. *)
Definition remoteActive (remote : RemotePlace) : bool :=
  match remote with RemoteSpawned _ | RemoteCalls _ | RemoteReleases => true | _ => false end.

Section invariant.
Context (worker : Worker) (claim : ClaimedRevocation).

(** The revoker is the registered one, and there is an accessor for it. *)
Definition resolves (revoker : Revoker) : Prop :=
  wk_registry worker !! identityFrom (claimed_Revocation claim) = Some revoker /\ is_Some (claimed_Accessor claim).

(** The revoker was given the accessor, intact, and accepted. *)
Definition accepted (t : list WorkerEvent) : Prop :=
  exists revoker, resolves revoker /\ WkRevoke revoker (claimed_Accessor claim) false ∈ t /\ WkRevokeAnswer revoker None ∈ t.

(** Every completion follows an acceptance. *)
Definition justified (t : list WorkerEvent) : Prop :=
  forall t1 fence answer t2, t = t1 ++ WkComplete fence answer :: t2 -> accepted t1.

(** What a result says about the acknowledgement. *)
Inductive acknowledged : Result ClaimOutcome -> list WorkerEvent -> Prop :=
| acked_none : acknowledged (Err ErrClaimDeferred) []
| acked_complete_lost e : acknowledged (Err ErrClaimDeferred) [WkComplete (claimed_Fence claim) (Err e)]
| acked_manual_lost code e : acknowledged (Err ErrClaimDeferred) [WkManual (manualRequest claim code) (Err e)]
| acked_retry_lost random code e : acknowledged (Err ErrClaimDeferred) [WkRetry (retryRequest claim random code) (Err e)]
| acked_complete revocation : acknowledged (Ok claimRevoked) [WkComplete (claimed_Fence claim) (Ok revocation)]
| acked_manual code revocation : acknowledged (Ok claimManual) [WkManual (manualRequest claim code) (Ok revocation)]
| acked_exhausted random code revocation : rev_Status revocation = StatusManualRequired ->
    acknowledged (Ok claimManual) [WkRetry (retryRequest claim random code) (Ok revocation)]
| acked_retry random code revocation : rev_Status revocation <> StatusManualRequired ->
    acknowledged (Ok claimRetried) [WkRetry (retryRequest claim random code) (Ok revocation)].

Definition acknowledgement (main : MainPlace) (t : list WorkerEvent) : Prop :=
  match main with
  | AtLeave result | AtJoin result | Returned result => acknowledged result (acks t)
  | _ => acks t = []
  end.

(** The accessor was given to the revoker, and intact if it still is. *)
Definition given (run : ClaimRun) (revoker : Revoker) : Prop :=
  resolves revoker /\ exists destroyed, WkRevoke revoker (claimed_Accessor claim) destroyed ∈ cl_trace run /\
    (cl_destroyed run = false -> destroyed = false).

Record run_wf (run : ClaimRun) : Prop := {
  rn_acks : acknowledgement (cl_main run) (cl_trace run);
  rn_justified : justified (cl_trace run);
  rn_accepted : cl_main run = AtRemoteDone \/ cl_main run = AtComplete -> accepted (cl_trace run);
  rn_slot : remoteActive (cl_remote run) = true <-> cl_slot run = SlotHere;
  rn_resolved revoker : cl_main run = AtSlot revoker \/ cl_remote run = RemoteSpawned revoker -> resolves revoker;
  rn_calls revoker : cl_remote run = RemoteCalls revoker -> given run revoker;
  rn_result err : cl_remoteResult run = Some err ->
    exists revoker, given run revoker /\ WkRevokeAnswer revoker err ∈ cl_trace run;
  rn_once : length (List.filter revokes (cl_trace run)) =
    match cl_remote run with RemoteIdle | RemoteSpawned _ => 0%nat | _ => 1%nat end;
  rn_idle : match cl_main run with AtResolve | AtUnresolved | AtSlot _ => cl_remote run = RemoteIdle | _ => True end;
  rn_destroyed : cl_destroyed run = true -> exists result, cl_main run = Returned result;
  rn_join result : cl_main run = AtJoin result -> cl_operationCancelled run = true;
  rn_returned result : cl_main run = Returned result ->
    cl_heartbeat run = HeartbeatStopped /\ cl_operationCancelled run = true /\
    (is_Some (claimed_Accessor claim) -> cl_destroyed run = true)
}.

Lemma snoc_split {A} (t t1 t2 : list A) event x :
  t ++ [event] = t1 ++ x :: t2 -> (t = t1 /\ event = x /\ t2 = []) \/ exists t2', t = t1 ++ x :: t2' /\ t2 = t2' ++ [event].
Proof.
  destruct t2 as [|y t2 _] using rev_ind; intros H.
  - left. by apply app_inj_tail in H as [-> ->].
  - right. exists t2. rewrite app_comm_cons, app_assoc in H. by apply app_inj_tail in H as [-> ->].
Qed.

Lemma acks_snoc t event : acks (t ++ [event]) = acks t ++ (if acknowledges event then [event] else []).
Proof. unfold acks. rewrite List.filter_app. simpl. by destruct (acknowledges event). Qed.

Lemma revokes_snoc t event :
  length (List.filter revokes (t ++ [event])) = (length (List.filter revokes t) + if revokes event then 1 else 0)%nat.
Proof. rewrite List.filter_app, length_app. simpl. by destruct (revokes event). Qed.

Lemma elem_of_snoc {A} (t : list A) event x : x ∈ t -> x ∈ t ++ [event].
Proof. intros Hx. apply elem_of_app. by left. Qed.

Lemma accepted_snoc t event : accepted t -> accepted (t ++ [event]).
Proof. intros (revoker & Hr & Hg & Ha). exists revoker. eauto using elem_of_snoc. Qed.

Lemma justified_snoc t event :
  justified t -> (forall fence answer, event = WkComplete fence answer -> accepted t) -> justified (t ++ [event]).
Proof.
  intros Hj He t1 fence answer t2 [(-> & -> & ->)|(t2' & -> & ->)]%snoc_split; [by eapply He|by eapply Hj].
Qed.

Lemma claimStart_wf slot ctxDone : slot <> SlotHere -> run_wf (claimStart slot ctxDone).
Proof.
  intros Hs. split; simpl; try done; try (by intros ? []); try (by intros []).
Qed.

Lemma given_mono run run' revoker :
  given run revoker -> (forall event, event ∈ cl_trace run -> event ∈ cl_trace run') ->
  (cl_destroyed run' = false -> cl_destroyed run = false) -> given run' revoker.
Proof. intros (Hr & destroyed & Hg & Hd) Ht Hd'. split; [done|]. exists destroyed. auto. Qed.

(** An event that is neither an acknowledgement nor a call of a revoker. *)
Lemma run_wf_says run event : run_wf run -> acknowledges event = false -> revokes event = false -> run_wf (says event run).
Proof.
  intros [Ha Hj Hac Hsl Hr Hca Hre Ho Hi Hd Hjn Hrt] Hack Hrev. split; simpl; try done.
  - assert (acks (cl_trace run ++ [event]) = acks (cl_trace run)) as Heq by (by rewrite acks_snoc, Hack, app_nil_r).
    unfold acknowledgement in *. by destruct (cl_main run); rewrite Heq.
  - apply justified_snoc; [done|]. by intros fence answer ->.
  - intros Hm. by apply accepted_snoc, Hac.
  - intros revoker Hc. eapply given_mono; [by apply Hca|simpl; eauto using elem_of_snoc|done].
  - intros err He. destruct (Hre _ He) as (revoker & Hg & Hin). exists revoker. split; [|by apply elem_of_snoc].
    eapply given_mono; [done|simpl; eauto using elem_of_snoc|done].
  - by rewrite revokes_snoc, Hrev, Nat.add_0_r.
Qed.

(** Contexts, the heartbeat and its channel. *)
Lemma run_wf_contexts run heartbeat lost ctxDone operation :
  run_wf run -> (cl_heartbeat run = HeartbeatStopped -> heartbeat = HeartbeatStopped) ->
  (cl_operationCancelled run = true -> operation = true) ->
  run_wf {| run with cl_heartbeat := heartbeat; cl_heartbeatLost := lost; cl_ctxDone := ctxDone;
                     cl_operationCancelled := operation |}.
Proof.
  intros [Ha Hj Hac Hsl Hr Hca Hre Ho Hi Hd Hjn Hrt] Hh Hop. split; simpl; try done.
  - intros result Hm. apply Hop. by eapply Hjn.
  - intros result Hm. destruct (Hrt _ Hm) as (? & ? & ?). auto.
Qed.

(** The method moves, without an event. *)
Lemma run_wf_moves run main lost remoteCancelled operation result :
  run_wf run -> (forall r, cl_main run <> Returned r) -> (forall r, main <> Returned r) ->
  acknowledgement main (cl_trace run) -> (main = AtRemoteDone \/ main = AtComplete -> accepted (cl_trace run)) ->
  (forall revoker, main = AtSlot revoker -> resolves revoker) ->
  match main with AtResolve | AtUnresolved | AtSlot _ => cl_remote run = RemoteIdle | _ => True end ->
  result = None \/ result = cl_remoteResult run -> (forall r, main = AtJoin r -> operation = true) ->
  run_wf {| run with cl_main := main; cl_heartbeatLost := lost; cl_remoteCancelled := remoteCancelled;
                     cl_operationCancelled := operation; cl_remoteResult := result |}.
Proof.
  intros [Ha Hj Hac Hsl Hr Hca Hre Ho Hi Hd Hjn Hrt] Hnr Hnr' Hack Hacc Hres Hidle Hresult Hjoin. split; simpl; try done.
  - intros revoker [Hm|Hm]; [by apply Hres|apply Hr; by right].
  - intros err He. apply Hre. by destruct Hresult; simplify_eq.
  - intros Hdt. destruct (Hd Hdt) as [r ?]. by destruct (Hnr r).
  - intros r Hm. by destruct (Hnr' r).
Qed.

(** The method acknowledges the claim. *)
Lemma run_wf_acks run event result :
  run_wf run -> (forall r, cl_main run <> Returned r) -> acks (cl_trace run) = [] -> acknowledges event = true ->
  acknowledged result [event] -> (forall fence answer, event = WkComplete fence answer -> accepted (cl_trace run)) ->
  run_wf (says event (goes (AtLeave result) run)).
Proof.
  intros [Ha Hj Hac Hsl Hr Hca Hre Ho Hi Hd Hjn Hrt] Hnr Hnone Hack Hspec Hcomplete. split; simpl; try done.
  - by rewrite acks_snoc, Hnone, Hack.
  - by apply justified_snoc.
  - by intros [].
  - intros revoker [?|Hm]; [done|]. apply Hr. by right.
  - intros revoker Hc. eapply given_mono; [by apply Hca|simpl; eauto using elem_of_snoc|done].
  - intros err He. destruct (Hre _ He) as (revoker & Hg & Hin). exists revoker. split; [|by apply elem_of_snoc].
    eapply given_mono; [done|simpl; eauto using elem_of_snoc|done].
  - rewrite revokes_snoc. by destruct event; try done; rewrite Nat.add_0_r.
  - intros Hdt. destruct (Hd Hdt) as [r ?]. by destruct (Hnr r).
Qed.

(** The remote goroutine is spawned, calls, answers and ends. *)
Lemma run_wf_spawn run revoker :
  run_wf run -> cl_main run = AtSlot revoker ->
  run_wf {| run with cl_main := AtRemote; cl_slot := SlotHere; cl_remote := RemoteSpawned revoker |}.
Proof.
  intros [Ha Hj Hac Hsl Hr Hca Hre Ho Hi Hd Hjn Hrt] Hm. rewrite Hm in *. split; simpl; try done.
  - by intros [].
  - intros revoker' [?|[= <-]]; [done|]. apply Hr. by left.
  - by rewrite Ho, Hi.
  - intros Hdt. by destruct (Hd Hdt).
Qed.

Lemma run_wf_starts run revoker :
  run_wf run -> cl_remote run = RemoteSpawned revoker ->
  run_wf (says (WkRevoke revoker (claimed_Accessor claim) (cl_destroyed run)) {| run with cl_remote := RemoteCalls revoker |}).
Proof.
  intros [Ha Hj Hac Hsl Hr Hca Hre Ho Hi Hd Hjn Hrt] Hm. rewrite Hm in *. split; simpl; try done.
  - assert (forall event, acknowledges event = false -> acks (cl_trace run ++ [event]) = acks (cl_trace run)) as Heq
      by (intros event He; by rewrite acks_snoc, He, app_nil_r).
    unfold acknowledgement in *. by destruct (cl_main run); rewrite Heq.
  - by apply justified_snoc.
  - intros ?. by apply accepted_snoc, Hac.
  - intros revoker' [?|?]; [|done]. apply Hr. by left.
  - intros revoker' [= <-]. split; [apply Hr; by right|]. exists (cl_destroyed run). simpl. split; [|done].
    apply elem_of_app. right. by apply list_elem_of_singleton.
  - intros err He. destruct (Hre _ He) as (revoker' & Hg & Hin). exists revoker'. split; [|by apply elem_of_snoc].
    eapply given_mono; [done|simpl; eauto using elem_of_snoc|done].
  - by rewrite revokes_snoc, Ho.
  - by destruct (cl_main run).
Qed.

Lemma run_wf_answers run revoker err :
  run_wf run -> cl_remote run = RemoteCalls revoker ->
  run_wf (says (WkRevokeAnswer revoker err) {| run with cl_remote := RemoteReleases; cl_remoteResult := Some err |}).
Proof.
  intros Hwf Hm. assert (run_wf (says (WkRevokeAnswer revoker err) run)) as Hwf' by (by apply run_wf_says).
  pose proof (rn_calls _ Hwf _ Hm) as Hg. destruct Hwf' as [Ha Hj Hac Hsl Hr Hca Hre Ho Hi Hd Hjn Hrt]. simpl in *.
  rewrite Hm in *. split; simpl; try done.
  - intros revoker' [?|?]; [|done]. apply Hr. by left.
  - intros err' [= <-]. exists revoker. split; [eapply given_mono; [done|simpl; eauto using elem_of_snoc|done]|].
    apply elem_of_app. right. by apply list_elem_of_singleton.
  - by destruct (cl_main run).
Qed.

Lemma run_wf_ends run :
  run_wf run -> cl_remote run = RemoteReleases -> run_wf {| run with cl_remote := RemoteStopped; cl_slot := SlotFree |}.
Proof.
  intros [Ha Hj Hac Hsl Hr Hca Hre Ho Hi Hd Hjn Hrt] Hm. rewrite Hm in *. split; simpl; try done.
  - intros revoker' [?|?]; [|done]. apply Hr. by left.
  - by destruct (cl_main run).
Qed.

(** The method returns. *)
Lemma run_wf_returns run result destroyed :
  run_wf run -> cl_main run = AtJoin result -> cl_heartbeat run = HeartbeatStopped ->
  (is_Some (claimed_Accessor claim) -> destroyed = true) ->
  run_wf {| run with cl_main := Returned result; cl_destroyed := destroyed |}.
Proof.
  intros [Ha Hj Hac Hsl Hr Hca Hre Ho Hi Hd Hjn Hrt] Hm Hh Hdes. rewrite Hm in *.
  assert (cl_destroyed run = false) as Hnd by (destruct (cl_destroyed run); [by destruct (Hd eq_refl)|done]).
  split; simpl; try done.
  - by intros [].
  - intros revoker [?|?]; [done|]. apply Hr. by right.
  - intros revoker Hc. by eapply given_mono; [apply Hca|..].
  - intros err He. destruct (Hre _ He) as (revoker & Hg & Hin). exists revoker. split; [|done]. by eapply given_mono.
  - eauto.
  - intros result' [= <-]. split_and!; [done|by eapply Hjn|done].
Qed.

(** The side conditions of a move that is plain: to a place with no duty of its own. *)
Definition plainPlace (main : MainPlace) : bool :=
  match main with
  | AtRemote | AtRemoteError _ | AtRemoteErrorHeld _ | AtAck _ _ => true
  | AtLeave (Err e) => e == ErrClaimDeferred
  | _ => false
  end.

Lemma run_wf_plain run main lost remoteCancelled result :
  run_wf run -> (forall r, cl_main run <> Returned r) -> acks (cl_trace run) = [] -> plainPlace main = true ->
  result = None \/ result = cl_remoteResult run ->
  run_wf {| run with cl_main := main; cl_heartbeatLost := lost; cl_remoteCancelled := remoteCancelled;
                     cl_remoteResult := result |}.
Proof.
  intros Hwf Hnr Hacks Hp Hresult. eapply run_wf_moves; try done; destruct main as [| | | | | | | | |[|e]| |]; try done; try naive_solver.
  simpl in *. guards. subst. rewrite Hacks. constructor.
Qed.

Ltac plain_move Hm Hacks := eapply run_wf_plain; [done|by rewrite Hm|exact Hacks|done|by right].

Lemma mainRuns_wf run run' : run_wf run -> mainRuns worker claim run = Some run' -> run_wf run'.
Proof.
  intros Hwf Hs. pose proof (rn_acks _ Hwf) as Hacks. unfold mainRuns in Hs. destruct (cl_main run) eqn:Hm; try done.
  - destruct (ResolveRevoker _ _ _) as [revoker|e] eqn:Hr; [destruct (claimed_Accessor claim) eqn:Ha|]; injection Hs as <-.
    + eapply run_wf_moves; rewrite ?Hm; try done; [naive_solver| |pose proof (rn_idle _ Hwf) as Hi; by rewrite Hm in Hi|by right].
      intros revoker' [= <-]. split; [|by eexists]. unfold ResolveRevoker in Hr. repeat case_match; naive_solver.
    + plain_move Hm Hacks.
    + eapply run_wf_moves; rewrite ?Hm; try done; [naive_solver|pose proof (rn_idle _ Hwf) as Hi; by rewrite Hm in Hi|by right].
  - injection Hs as <-. destruct (operationDone run); plain_move Hm Hacks.
  - destruct (cl_slot run); injection Hs as <-; [by apply run_wf_spawn|plain_move Hm Hacks..].
  - destruct (cl_heartbeatLost run) eqn:Hl; injection Hs as <-; plain_move Hm Hacks.
  - destruct (classifyFailure err). injection Hs as <-. destruct (cl_ctxDone run); plain_move Hm Hacks.
  - destruct (cl_heartbeatLost run) eqn:Hl; injection Hs as <-; [plain_move Hm Hacks|].
    eapply run_wf_moves; rewrite ?Hm; try done; [|by right]. intros _. apply (rn_accepted _ Hwf). by left.
  - injection Hs as <-. eapply run_wf_moves; rewrite ?Hm; try done; [naive_solver|by right].
  - destruct (cl_heartbeat run) eqn:Hh; try done.
    destruct (claimed_Accessor claim) as [accessor|] eqn:Ha; injection Hs as <-.
    + apply run_wf_says; [|done|done]. rewrite <- Hh. by apply run_wf_returns.
    + apply (run_wf_returns run result (cl_destroyed run)); try done. rewrite Ha. by intros [].
Qed.

Lemma mainSelects_wf branch run run' : run_wf run -> mainSelects branch run = Some run' -> run_wf run'.
Proof.
  intros Hwf Hs. pose proof (rn_acks _ Hwf) as Hacks. unfold mainSelects in Hs.
  destruct (cl_main run) eqn:Hm; try done. destruct branch.
  - destruct (cl_remoteResult run) as [err|] eqn:Hr; [|done]. injection Hs as <-. destruct err as [err|].
    + eapply run_wf_plain; [done|by rewrite Hm|exact Hacks|done|by left].
    + eapply run_wf_moves; rewrite ?Hm; try done; [|by left]. intros _.
      destruct (rn_result _ Hwf _ Hr) as (revoker & (Hres & destroyed & Hg & Hd) & Hin). exists revoker. split_and!; [done| |done].
      rewrite Hd in Hg; [done|]. destruct (cl_destroyed run) eqn:Hdes; [|done].
      destruct (rn_destroyed _ Hwf Hdes) as [r ?]. congruence.
  - injection Hs as <-. plain_move Hm Hacks.
  - destruct (cl_heartbeatLost run); [|done]. injection Hs as <-. plain_move Hm Hacks.
  - destruct (cl_ctxDone run) eqn:Hc; [|done]. injection Hs as <-. rewrite <- Hc. plain_move Hm Hacks.
Qed.

Lemma mainAnswered_wf random answer run run' : run_wf run -> mainAnswered claim random answer run = Some run' -> run_wf run'.
Proof.
  intros Hwf Hs. pose proof (rn_acks _ Hwf) as Hacks. unfold mainAnswered in Hs. destruct (cl_main run) eqn:Hm; try done.
  - injection Hs as <-. apply run_wf_acks; try done; [by rewrite Hm|destruct answer; constructor|].
    intros _ _ _. apply (rn_accepted _ Hwf). by right.
  - destruct manual; injection Hs as <-; apply run_wf_acks; try done; try (by rewrite Hm); destruct answer as [r|e]; simpl;
      try constructor. destruct (rev_Status r == StatusManualRequired) eqn:He; guards; by constructor.
Qed.

Lemma run_wf_step run run' : run_wf run -> claim_step worker claim run run' -> run_wf run'.
Proof.
  intros Hwf [step Hs]. destruct step; simpl in Hs.
  - injection Hs as <-. by apply (run_wf_contexts run (cl_heartbeat run) (cl_heartbeatLost run) true (cl_operationCancelled run)).
  - destruct (cl_slot run == SlotEarlier) eqn:He; [|done]. guards. injection Hs as <-.
    destruct Hwf as [Ha Hj Hac Hsl Hr Hca Hre Ho Hi Hd Hjn Hrt]. split; simpl; try done. rewrite He in Hsl. naive_solver.
  - by eapply mainRuns_wf.
  - by eapply mainSelects_wf.
  - by eapply mainAnswered_wf.
  - destruct (cl_heartbeat run) eqn:Hh; try done. injection Hs as <-. eapply run_wf_contexts; rewrite ?Hh; done.
  - destruct (cl_heartbeat run) eqn:Hh; try done.
    assert (run_wf (says (WkHeartbeat (heartbeatRequest worker claim) answer) run)) as Hwf' by (by apply run_wf_says).
    destruct answer; injection Hs as <-; (eapply (run_wf_contexts (says _ run)); [exact Hwf'|simpl; by rewrite Hh|done]).
  - destruct (cl_heartbeat run) eqn:Hh; try done. injection Hs as <-. eapply run_wf_contexts; rewrite ?Hh; done.
  - destruct (cl_heartbeat run) eqn:Hh; try done. destruct (operationDone run); [|done]. injection Hs as <-.
    eapply run_wf_contexts; rewrite ?Hh; done.
  - destruct (cl_remote run) eqn:Hr; try done. injection Hs as <-. by apply run_wf_starts.
  - destruct (cl_remote run) eqn:Hr; try done. injection Hs as <-. by apply run_wf_answers.
  - destruct (cl_remote run) eqn:Hr; try done. injection Hs as <-. by apply run_wf_ends.
Qed.

Lemma run_wf_steps run run' : rtc (claim_step worker claim) run run' -> run_wf run -> run_wf run'.
Proof. induction 1; eauto using run_wf_step. Qed.
End invariant.

(** ** After the return *)

Definition remoteOnly (event : WorkerEvent) : Prop :=
  match event with WkRevoke _ _ _ | WkRevokeAnswer _ _ => True | _ => False end.

Lemma returned_step worker claim run run' result :
  run_wf worker claim run -> cl_main run = Returned result -> claim_step worker claim run run' ->
  cl_main run' = Returned result /\ exists t, cl_trace run' = cl_trace run ++ t /\ Forall remoteOnly t.
Proof.
  intros Hwf Hm [step Hs]. destruct (rn_returned _ _ _ Hwf _ Hm) as (Hh & _ & _).
  destruct step; simpl in Hs; unfold mainRuns, mainSelects, mainAnswered in Hs; rewrite ?Hm, ?Hh in Hs; try done.
  - injection Hs as <-. split; [done|]. exists []. by rewrite app_nil_r.
  - destruct (_ == _); [|done]. injection Hs as <-. split; [done|]. exists []. by rewrite app_nil_r.
  - destruct (cl_remote run); try done. injection Hs as <-. split; [done|]. eexists. split; [done|]. by repeat constructor.
  - destruct (cl_remote run); try done. injection Hs as <-. split; [done|]. eexists. split; [done|]. by repeat constructor.
  - destruct (cl_remote run); try done. injection Hs as <-. split; [done|]. exists []. by rewrite app_nil_r.
Qed.

Lemma returned_steps worker claim run run' result :
  rtc (claim_step worker claim) run run' -> run_wf worker claim run -> cl_main run = Returned result ->
  cl_main run' = Returned result /\ exists t, cl_trace run' = cl_trace run ++ t /\ Forall remoteOnly t.
Proof.
  induction 1 as [run|run run1 run' Hs _ IH]; intros Hwf Hm; [split; [done|exists []; by rewrite app_nil_r]|].
  destruct (returned_step _ _ _ _ _ Hwf Hm Hs) as (Hm1 & t1 & Ht1 & Hf1).
  destruct (IH (run_wf_step _ _ _ _ Hwf Hs) Hm1) as (Hm2 & t2 & Ht2 & Hf2). split; [done|]. exists (t1 ++ t2).
  rewrite Ht2, Ht1, app_assoc. split; [done|]. by apply Forall_app.
Qed.

(** ** The way to the return *)

(** How many steps the method has left at most. *)
Definition rank (main : MainPlace) : nat :=
  match main with
  | AtResolve => 8 | AtSlot _ => 7 | AtRemote => 6 | AtRemoteError _ => 5
  | AtUnresolved | AtRemoteErrorHeld _ | AtRemoteDone => 4
  | AtComplete | AtAck _ _ => 3 | AtLeave _ => 2 | AtJoin _ => 1 | Returned _ => 0
  end.

Definition mainStep (step : ClaimStep) : bool :=
  match step with MainRuns | MainSelects _ | MainAnswered _ _ => true | _ => false end.

Section returns.
Context (worker : Worker) (claim : ClaimedRevocation).

(** The steps one after the other. *)
Fixpoint claimSteps (steps : list ClaimStep) (run : ClaimRun) : option ClaimRun :=
  match steps with
  | [] => Some run
  | step :: steps => match claimStep worker claim step run with Some run' => claimSteps steps run' | None => None end
  end.

(** Every step of the method brings it closer to its return, the others leave it where it is. *)
Lemma rank_step step run run' : claimStep worker claim step run = Some run' ->
  ((if mainStep step then 1 else 0) + rank (cl_main run') <= rank (cl_main run))%nat.
Proof.
  intros Hs. destruct step as [| | |branch|random answer| |answer| | | |err|]; simpl in Hs.
  - by injection Hs as <-.
  - destruct (_ == _); [|done]. by injection Hs as <-.
  - unfold mainRuns in Hs. destruct (cl_main run) eqn:Hm; simplify_eq/=; repeat case_match; simplify_eq/=; rewrite ?Hm; simpl; lia.
  - unfold mainSelects in Hs. destruct (cl_main run) eqn:Hm; try done. destruct branch; repeat case_match; simplify_eq/=; lia.
  - unfold mainAnswered in Hs. destruct (cl_main run) as [| | | | | | | |code []| | |] eqn:Hm; simplify_eq/=; lia.
  - destruct (cl_heartbeat run); simplify_eq/=; lia.
  - destruct (cl_heartbeat run); try done. destruct answer; simplify_eq/=; lia.
  - destruct (cl_heartbeat run); simplify_eq/=; lia.
  - destruct (cl_heartbeat run), (operationDone run); simplify_eq/=; lia.
  - destruct (cl_remote run); simplify_eq/=; lia.
  - destruct (cl_remote run); simplify_eq/=; lia.
  - destruct (cl_remote run); simplify_eq/=; lia.
Qed.

Lemma rank_steps steps run run' : claimSteps steps run = Some run' ->
  (length (List.filter mainStep steps) + rank (cl_main run') <= rank (cl_main run))%nat.
Proof.
  revert run. induction steps as [|step steps IH]; simpl; intros run Hs; [injection Hs as <-; lia|].
  destruct (claimStep worker claim step run) as [run1|] eqn:Hstep; [|done]. apply IH in Hs. apply rank_step in Hstep.
  destruct (mainStep step); simpl in *; lia.
Qed.

(** The steps the worker takes by itself when the repository answers the calls of the method
    with [answer] and a heartbeat with [beat]: nothing happens to the caller's context, to the
    revoker, or to the call of an earlier claim. *)
Section own.
Context (random : Z -> Result Z) (answer beat : Result Revocation).

Inductive own_step : ClaimRun -> ClaimRun -> Prop :=
| own_runs run run' : claimStep worker claim MainRuns run = Some run' -> own_step run run'
| own_timeout run run' : claimStep worker claim (MainSelects SelectTimeout) run = Some run' -> own_step run run'
| own_answered run run' : claimStep worker claim (MainAnswered random answer) run = Some run' -> own_step run run'
| own_beat run run' : claimStep worker claim (HeartbeatAnswered beat) run = Some run' -> own_step run run'
| own_loses run run' : claimStep worker claim HeartbeatLoses run = Some run' -> own_step run run'
| own_ends run run' : claimStep worker claim HeartbeatEnds run = Some run' -> own_step run run'.

Definition returns (run : ClaimRun) : Prop := exists run' result, rtc own_step run run' /\ cl_main run' = Returned result.

Lemma returns_step run run' : own_step run run' -> returns run' -> returns run.
Proof. intros Hs (run2 & result & Hr & Hm). exists run2, result. split; [|done]. by eapply rtc_l. Qed.

Lemma returns_AtJoin run result : cl_main run = AtJoin result -> cl_operationCancelled run = true -> returns run.
Proof.
  assert (forall run, cl_main run = AtJoin result -> cl_heartbeat run = HeartbeatStopped -> returns run) as Hstopped.
  { intros run0 Hm Hh. destruct (claimed_Accessor claim) eqn:Ha; eexists _, result;
      (split; [apply rtc_once, own_runs; simpl; unfold mainRuns; by rewrite Hm, Hh, Ha|done]). }
  assert (forall run, cl_main run = AtJoin result -> cl_heartbeat run = HeartbeatCancels -> returns run) as Hcancels.
  { intros run0 Hm Hh. eapply returns_step; [apply own_loses; simpl; by rewrite Hh|]. by apply Hstopped. }
  assert (forall run, cl_main run = AtJoin result -> cl_operationCancelled run = true -> cl_heartbeat run = HeartbeatSelects ->
    returns run) as Hselects.
  { intros run0 Hm Hop Hh.
    eapply returns_step; [apply own_ends; simpl; unfold operationDone; by rewrite Hh, Hop, orb_true_r|]. by apply Hstopped. }
  intros Hm Hop. destruct (cl_heartbeat run) eqn:Hh; [by apply Hselects| |by apply Hcancels|by apply Hstopped].
  destruct beat as [revocation|e] eqn:Hb.
  - eapply returns_step; [apply own_beat; simpl; rewrite Hh, Hb; reflexivity|]. by apply Hselects.
  - eapply returns_step; [apply own_beat; simpl; rewrite Hh, Hb; reflexivity|]. by apply Hcancels.
Qed.

Lemma returns_AtLeave run result : cl_main run = AtLeave result -> returns run.
Proof.
  intros Hm. eapply returns_step; [apply own_runs; simpl; unfold mainRuns; by rewrite Hm|]. by eapply returns_AtJoin.
Qed.

Lemma returns_answered run : cl_main run = AtComplete \/ (exists code manual, cl_main run = AtAck code manual) -> returns run.
Proof.
  intros Hm. assert (exists run' result, claimStep worker claim (MainAnswered random answer) run = Some run' /\
    cl_main run' = AtLeave result) as (run' & result & Hs & Hm').
  { simpl. unfold mainAnswered. destruct Hm as [->|(code & [] & ->)]; eauto. }
  eapply returns_step; [by apply own_answered|]. by eapply returns_AtLeave.
Qed.

Lemma returns_AtRemote run : cl_main run = AtRemote -> returns run.
Proof.
  intros Hm. eapply returns_step; [apply own_timeout; simpl; unfold mainSelects; by rewrite Hm|].
  apply returns_answered. right. simpl. eauto.
Qed.

(** One step of the method, to a place from which it returns. *)
Lemma returns_run run : (forall result, cl_main run <> AtJoin result) -> returns run.
Proof.
  intros Hj.
  assert (forall run place, cl_main run = place -> match place with AtLeave _ | AtComplete | AtAck _ _ | AtRemote => True | _ => False end ->
    returns run) as Hend.
  { intros run0 place Hm Hp. destruct place; try done;
      [by apply returns_AtRemote|apply returns_answered; by left|apply returns_answered; right; by eauto|by eapply returns_AtLeave]. }
  assert (forall run revoker, cl_main run = AtSlot revoker -> returns run) as Hslot.
  { intros run0 revoker Hm. destruct (cl_slot run0) eqn:Hs;
      (eapply returns_step; [apply own_runs; simpl; unfold mainRuns; by rewrite Hm, Hs|by eapply Hend]). }
  assert (forall run, cl_main run = AtUnresolved -> returns run) as Hunresolved.
  { intros run0 Hm. eapply returns_step; [apply own_runs; simpl; unfold mainRuns; by rewrite Hm|]. destruct (operationDone run0); by eapply Hend. }
  assert (forall run err, cl_main run = AtRemoteErrorHeld err -> returns run) as Hheld.
  { intros run0 err Hm. destruct (classifyFailure err) as [code manual] eqn:Hc.
    eapply returns_step; [apply own_runs; simpl; unfold mainRuns; by rewrite Hm, Hc|]. destruct (cl_ctxDone run0); by eapply Hend. }
  destruct (cl_main run) eqn:Hm; try (by eapply Hend); try (by eauto); try (by destruct (Hj result)).
  - destruct (ResolveRevoker (Some (wk_registry worker)) (if operationDone run then Some ErrClaimDeferred else None)
      (identityFrom (claimed_Revocation claim))) as [revoker|e] eqn:Hr; [destruct (claimed_Accessor claim) eqn:Ha|];
      (eapply returns_step; [apply own_runs; simpl; unfold mainRuns; rewrite Hm; cbv zeta; rewrite Hr, ?Ha; done|]);
      [by eapply Hslot|by eapply Hend|by apply Hunresolved].
  - destruct (cl_heartbeatLost run) eqn:Hl; (eapply returns_step; [apply own_runs; simpl; unfold mainRuns; by rewrite Hm, Hl|]);
      [by eapply Hend|by eapply Hheld].
  - destruct (cl_heartbeatLost run) eqn:Hl; (eapply returns_step; [apply own_runs; simpl; unfold mainRuns; by rewrite Hm, Hl|]);
      by eapply Hend.
  - exists run, result. split; [apply rtc_refl|done].
Qed.

Lemma run_wf_returns_always run : run_wf worker claim run -> returns run.
Proof.
  intros Hwf. destruct (cl_main run) eqn:Hm; try (apply returns_run; by rewrite Hm).
  eapply returns_AtJoin; [done|]. by eapply (rn_join _ _ _ Hwf).
Qed.
End own.
End returns.

(** ** The registry *)

Lemma registerRevokers_Ok registrations revokers revokers' :
  registerRevokers registrations revokers = Ok revokers' ->
  (forall identity revoker, revokers' !! identity = Some revoker <->
     revokers !! identity = Some revoker \/
     {| rreg_Identity := identity; rreg_Revoker := Some revoker |} ∈ registrations) /\
  Forall (fun registration => validIdentity (rreg_Identity registration) = true /\
                              is_Some (rreg_Revoker registration)) registrations.
Proof.
  unfold Registry. revert revokers. induction registrations as [|[identity revoker] registrations IH]; intros revokers H; simpl in H.
  - injection H as <-. split; [|constructor]. set_solver.
  - destruct (validIdentity identity) eqn:Hv; [|done]. destruct revoker as [revoker|]; [|done].
    destruct (revokers !! identity) eqn:Hl; [done|]. destruct (IH _ H) as [Hlook Hall]. split; [|by constructor].
    intros identity' revoker'. rewrite Hlook, lookup_insert_Some, elem_of_cons. split.
    + intros [[[<- <-]|[_ ?]]|?]; auto.
    + intros [?|[[= -> ->]|?]]; auto. left. right. split; [intros ->; unfold Registry in *; by simplify_eq|done].
Qed.

(** ** Reading the acknowledgement *)

Lemma acks_app t1 t2 : acks (t1 ++ t2) = acks t1 ++ acks t2.
Proof. apply List.filter_app. Qed.

Lemma acknowledged_complete claim main t1 fence answer t2 :
  acknowledgement claim main (t1 ++ WkComplete fence answer :: t2) ->
  fence = claimed_Fence claim /\ acks t1 = [] /\ acks t2 = [].
Proof.
  assert (acks (t1 ++ WkComplete fence answer :: t2) = acks t1 ++ WkComplete fence answer :: acks t2) as Heq
    by (by rewrite acks_app).
  assert (forall result, acknowledged claim result (acks (t1 ++ WkComplete fence answer :: t2)) ->
    fence = claimed_Fence claim /\ acks t1 = [] /\ acks t2 = []) as Hone.
  { intros result. rewrite Heq. generalize (acks t1) (acks t2). intros l1 l2 Ha.
    inversion Ha; destruct l1 as [|? [|]]; by simplify_eq/=. }
  unfold acknowledgement. rewrite Heq in *. destruct main; intros Ha; try (by eapply Hone); by destruct (acks t1).
Qed.

(** ** Drawing a delay *)

Lemma retryDelay_drawn attempt delay :
  MinRevocationRetryDelay <= delay <= retryBound attempt ->
  exists random, below_span random /\ retryDelay random attempt = delay.
Proof.
  intros Hd. exists (fun span => if delay - MinRevocationRetryDelay <? span then Ok (delay - MinRevocationRetryDelay) else Ok 0). split.
  - intros span offset Hspan. destruct (Z.ltb_spec (delay - MinRevocationRetryDelay) span); intros [= <-]; lia.
  - rewrite retryDelay_spec. destruct (Z.eqb_spec (retryBound attempt) MinRevocationRetryDelay); [lia|].
    destruct (Z.ltb_spec (delay - MinRevocationRetryDelay) (retryBound attempt - MinRevocationRetryDelay + 1)); lia.
Qed.

Lemma classified_valid err : validFailure (classifyFailure err).1 (failureDetail (classifyFailure err).1) = true.
Proof. unfold classifyFailure. by destruct err as [[] [] [[]|]]. Qed.
