(* ===== verification/WorkerSystem.v ===== *)
(** * The revocation worker and the repository together

    What the acknowledgements of a worker mean for the records, what a claim holds, and a
    whole round in an environment that the repository stands behind. *)

From S2P Require Import Prelude.
From S2P Require Import Interaction.
From S2P Require Import Sha256.
From S2P Require Import GoText.
From S2P Require Import GoStrings.
From S2P Require Import GoJson.
From S2P Require Import GoSort.
From S2P Require Import Credential.
From S2P Require Import CredentialFacts.
From S2P Require Import CredentialInvariant.
From S2P Require Import CredentialHistory.
From S2P Require Import RepositoryTrace.
From S2P Require Import RevocationWorker.
From S2P Require Import RevocationWorkerFacts.

Open Scope Z_scope.

(** ** The calls *)

(** Events that are not calls of the repository. *)
Definition remoteEvent (event : WorkerEvent) : bool :=
  match event with WkRevoke _ _ _ | WkRevokeAnswer _ _ | WkDestroy _ | WkRoundErr _ => true | _ => false end.

Section calls.
Context (protector : ReferenceProtector).

(** [RecoverManaged] takes the repository's lock once per record: it is any number of
    steps. *)
Inductive worker_call : MemoryRepository -> WorkerEvent -> MemoryRepository -> Prop :=
| call_prepared err clock limit result answer s s' :
    running clock -> Repository_RecoverPrepared err clock limit s = (result, s') -> seen result answer ->
    worker_call s (WkRecoverPrepared limit answer) s'
| call_managed limit answer s s' : rtc repository_step s s' -> worker_call s (WkRecoverManaged limit answer) s'
| call_exhausted err clock limit result answer s s' :
    running clock -> Repository_RecoverExhausted err clock limit s = (result, s') -> seen result answer ->
    worker_call s (WkRecoverExhausted limit answer) s'
| call_claim err clock tokens request result answer s s' :
    running clock -> Repository_ClaimRevocations err clock protector tokens request s = (result, s') ->
    seen result answer -> worker_call s (WkClaim request answer) s'
| call_heartbeat err clock request result answer s s' :
    running clock -> Repository_Heartbeat err clock request s = (result, s') -> seen result answer ->
    worker_call s (WkHeartbeat request answer) s'
| call_complete err clock fence result answer s s' :
    running clock -> Repository_CompleteRevocation err clock fence s = (result, s') -> seen result answer ->
    worker_call s (WkComplete fence answer) s'
| call_retry err clock request result answer s s' :
    running clock -> Repository_RetryRevocation err clock request s = (result, s') -> seen result answer ->
    worker_call s (WkRetry request answer) s'
| call_manual err clock request result answer s s' :
    running clock -> Repository_RequireManual err clock request s = (result, s') -> seen result answer ->
    worker_call s (WkManual request answer) s'
| call_remote event s : remoteEvent event = true -> worker_call s event s.

Abbreviation backed := (backed_by worker_call).

Ltac one_call := split; [simpl; rewrite ?Forall_cons, Forall_nil; tauto|done].

Lemma worker_call_steps s event s' : worker_call s event s' -> rtc repository_step s s'.
Proof.
  intros Hc. destruct Hc; try done;
    try (apply rtc_once; match goal with H : _ _ = (_, _) |- _ => destruct (ran_result _ _ _ _ H) as [u Hu] end).
  - exists (CallRecoverPrepared err clock limit), u. one_call.
  - exists (CallRecoverExhausted err clock limit), u. one_call.
  - exists (CallClaimRevocations err clock protector tokens request), u. one_call.
  - exists (CallRevocationHeartbeat err clock request), u. one_call.
  - exists (CallCompleteRevocation err clock fence), u. one_call.
  - exists (CallRetryRevocation err clock request), u. one_call.
  - exists (CallRequireManual err clock request), u. one_call.
Qed.

(** ** Completed claims *)

(** The record was closed with this claim. *)
Definition closed_by (fence : ClaimFence) (r : memoryRevocationRecord) : Prop :=
  status r = StatusRevoked /\ rr_completedClaimSHA256 r = SHA256Hex (cf_Token fence) /\
  rr_completedClaimEpoch r = cf_Epoch fence /\ rr_completedClaimWorker r = cf_WorkerID fence.

Lemma complete_answer err clock fence s a s' :
  Repository_CompleteRevocation err clock fence s = (Ok a, s') ->
  exists q, repo_records s' !! cf_RevocationID fence = Some q /\ closed_by fence q.
Proof.
  intros Hrun. backwards Hrun. unfold Repository_CompleteRevocation, closed_by. run_call; intros a' [= <-]; guards; [by eauto 10|].
  eexists. rewrite put_lookup, decide_True by done. split; [done|]. by repeat split.
Qed.

Lemma backed_completed s t s' fence a :
  repository_reachable s -> backed s t s' -> WkComplete fence (Ok a) ∈ t ->
  exists c, repo_records s' !! cf_RevocationID fence = Some c /\ closed_by fence c.
Proof.
  intros Hs Hb (t1 & t2 & ->)%list_elem_of_split.
  apply backed_by_split in Hb as (s1 & s2 & Hs1 & He & Ht); [|apply worker_call_steps].
  assert (repository_reachable s2) as Hreach.
  { eapply reachable_steps; [exact Hs|]. etrans; [exact Hs1|]. by eapply worker_call_steps. }
  apply backed_by_steps in Ht; [|apply worker_call_steps].
  inversion He as [| | | | |err clock ? result ? ? ? _ Hrun [Heq|[e He']]| | |]; subst; [|done|done].
  destruct (complete_answer _ _ _ _ _ _ Hrun) as (q & Hq & Hclosed).
  destruct (record_later _ _ _ _ Hreach Ht Hq) as (_ & c & Hc & Hch).
  apply terminal_changes in Hch as ->; [eauto|]. unfold Revocation_Terminal. destruct Hclosed as [Hst _]. by rewrite Hst.
Qed.

(** ** What a claim holds *)

Lemma prepareClaims_opened tokens n records prepared item :
  prepareClaims protector tokens n records = Ok prepared -> item ∈ prepared -> pc_poison item = false ->
  Unprotect protector (referenceContext (rr_revocation (pc_record item))) (rr_protected (pc_record item)) = Ok (pc_accessor item) /\
  is_Some (pc_accessor item).
Proof.
  revert n prepared. induction records as [|r records IH]; intros n prepared H Hin Hp; simpl in H.
  - injection H as <-. by apply elem_of_nil in Hin.
  - apply Result_bind_Ok in H as (? & _ & H). apply Result_bind_Ok in H as (token & _ & H).
    apply Result_bind_Ok in H as (rest & Hrest & [= <-]). apply elem_of_cons in Hin as [->|Hin]; [|by eapply IH].
    simpl in *. destruct (Unprotect _ _ _) as [accessor|]; [|done]. rewrite Hp. split; [done|].
    unfold ValidSensitiveReference in Hp. by destruct accessor.
Qed.

(** A claim holds the opened reference of its record, and the record's scope and issuer. *)
Lemma claim_opened err clock tokens request s claims s' claim :
  Repository_ClaimRevocations err clock protector tokens request s = (Ok claims, s') -> claim ∈ claims ->
  exists id r, repo_records s !! id = Some r /\ cf_RevocationID (claimed_Fence claim) = rr_id r /\
    Unprotect protector (referenceContext (rr_revocation r)) (rr_protected r) = Ok (claimed_Accessor claim) /\
    is_Some (claimed_Accessor claim) /\ identityFrom (claimed_Revocation claim) = identityFrom (rr_revocation r).
Proof.
  intros Hrun. backwards Hrun. unfold Repository_ClaimRevocations. run_call.
  intros claims' [= <-] Hin. apply list_elem_of_In, List.in_map_iff in Hin as (item & <- & Hin).
  apply List.filter_In in Hin as [Hin Hpoison]. apply list_elem_of_In in Hin. apply negb_true_iff in Hpoison.
  match goal with H : prepareClaims _ _ _ _ = Ok _ |- _ =>
    destruct (prepareClaims_opened _ _ _ _ _ H Hin Hpoison) as [Hopen Hsome]; apply prepareClaims_records in H as [Hrec _] end.
  assert (pc_record item ∈ List.map pc_record a) as Hin' by (apply list_elem_of_fmap; eauto).
  rewrite Hrec in Hin'. apply candidates_spec in Hin' as (_ & id & Hid). exists id, (pc_record item).
  unfold claimAnswer, claimOutcome. rewrite Hpoison. by split_and!.
Qed.
End calls.

(** ** A round *)

(** A run of [processClaim] that ended, whoever held the slot before it. *)
Definition claim_run (worker : Worker) (claim : ClaimedRevocation) (result : Result ClaimOutcome) (t : list WorkerEvent) : Prop :=
  exists slot ctxDone run, slot <> SlotHere /\ rtc (claim_step worker claim) (claimStart slot ctxDone) run /\
    cl_main run = Returned result /\ cl_trace run = t.

Lemma claim_run_acknowledged worker claim r t : claim_run worker claim r t -> acknowledged claim r (acks t).
Proof.
  intros (slot & ctxDone & run & Hslot & Hsteps & Hm & <-).
  pose proof (rn_acks _ _ _ (run_wf_steps _ _ _ _ Hsteps (claimStart_wf worker claim slot ctxDone Hslot))) as Ha. by rewrite Hm in Ha.
Qed.

Lemma acknowledged_revoked claim r t : acknowledged claim r (acks t) ->
  r = Ok claimRevoked <-> exists a, WkComplete (claimed_Fence claim) (Ok a) ∈ t.
Proof.
  intros Ha. assert (forall event, acknowledges event = true -> event ∈ t <-> event ∈ acks t) as Hin.
  { intros event He. unfold acks. rewrite !list_elem_of_In, List.filter_In. naive_solver. }
  setoid_rewrite (fun a => Hin (WkComplete (claimed_Fence claim) (Ok a)) eq_refl). split.
  - intros ->. inversion Ha. exists revocation. set_solver.
  - intros (a & Hc). inversion Ha as [Hr Hl|? Hr Hl|? ? Hr Hl|? ? ? Hr Hl|? Hr Hl|? ? Hr Hl|? ? ? ? Hr Hl|? ? ? ? Hr Hl];
      try done; rewrite <- Hl in Hc; set_solver.
Qed.

(** An environment of a round: the repository stands behind it, and claims are processed by
    the method. *)
Class WorkerBacked {W} (env : WorkerEnvironment W) (worker : Worker) (protector : ReferenceProtector)
    (repo : W -> MemoryRepository) : Prop := {
  wb_RecoverPrepared limit : backs (worker_call protector) repo (on_RecoverPrepared env limit) (WkRecoverPrepared limit);
  wb_RecoverManaged limit : backs (worker_call protector) repo (on_RecoverManaged env limit) (WkRecoverManaged limit);
  wb_RecoverExhausted limit : backs (worker_call protector) repo (on_RecoverExhausted env limit) (WkRecoverExhausted limit);
  wb_ClaimRevocations request :
    backs (worker_call protector) repo (on_ClaimRevocations env request) (fun answer => WkClaim request (claimAnswered answer));
  wb_roundErr : backs (worker_call protector) repo (on_roundErr env) WkRoundErr;
  wb_processClaim claim w :
    claim_run worker claim (on_processClaim env claim w).1.1 (on_processClaim env claim w).1.2 /\
    backed_by (worker_call protector) (repo w) (on_processClaim env claim w).1.2 (repo (on_processClaim env claim w).2)
}.

Definition count (result : RunResult) (outcome : ClaimedRevocation * Result ClaimOutcome) : RunResult :=
  match outcome.2 with Ok o => countOutcome o result | Err _ => countDeferred result end.
Definition deferred (outcome : ClaimedRevocation * Result ClaimOutcome) : bool :=
  match outcome.2 with Ok _ => false | Err _ => true end.

Section round.
Context {W : Type} (env : WorkerEnvironment W) (worker : Worker) (protector : ReferenceProtector)
  (repo : W -> MemoryRepository) `{!WorkerBacked env worker protector repo}.
Abbreviation backed := (backed_by (worker_call protector)).
Abbreviation stands := (stands (worker_call protector) repo).

(** It stopped before the last claim: a claim was deferred, and [ctx.Err()] was not nil then. *)
Definition stopped (outcomes : list (ClaimedRevocation * Result ClaimOutcome)) (t : list WorkerEvent) : Prop :=
  (exists e, WkRoundErr (Some e) ∈ t) /\ exists claim e, last outcomes = Some (claim, Err e).

(** A run of the method with its events in one piece in the trace. *)
Definition ran (outcome : ClaimedRevocation * Result ClaimOutcome) (t : list WorkerEvent) : Prop :=
  exists before t' after, t = before ++ t' ++ after /\ claim_run worker outcome.1 outcome.2 t'.

(** What the loop leaves: the claims it processed, in order, each by a run of the method whose
    events are in the trace; it stops early only when the context has ended. *)
Record processed (claims : list ClaimedRevocation) (result : RunResult) (had : bool) (out : RunResult * bool)
    (t : list WorkerEvent) (outcomes : list (ClaimedRevocation * Result ClaimOutcome)) : Prop := {
  pr_claims : exists rest, claims = outcomes.*1 ++ rest /\ (rest = [] \/ stopped outcomes t);
  pr_result : out.1 = foldl count result outcomes;
  pr_deferred : out.2 = had || existsb deferred outcomes;
  pr_runs : Forall (fun outcome => ran outcome t) outcomes
}.

Lemma ran_app outcome t1 t t2 : ran outcome t -> ran outcome (t1 ++ t ++ t2).
Proof.
  intros (before & t' & after & -> & Hrun). exists (t1 ++ before), t', (after ++ t2). split; [|done]. by rewrite <- !app_assoc.
Qed.

Lemma ran_events outcome t : ran outcome t -> exists t', claim_run worker outcome.1 outcome.2 t' /\ t' ⊆ t.
Proof. intros (before & t' & after & -> & Hrun). exists t'. split; [done|]. set_solver. Qed.

Lemma note_all_ends (events : list WorkerEvent) (w : Scene unit WorkerEvent W) (Q : unit -> Scene unit WorkerEvent W -> Prop) :
  Q tt {| sc_oracle := sc_oracle w; sc_trace := sc_trace w ++ events; sc_state := sc_state w |} ->
  ends (foldr (fun event p => note event;; p) (mret tt) events) Q w.
Proof.
  revert w. induction events as [|event events IH]; intros w HQ; simpl.
  - apply ends_ret. rewrite app_nil_r in HQ. by destruct w.
  - apply ends_bind, ends_note. apply IH. simpl. by rewrite <- app_assoc.
Qed.

Lemma processed_cons claim r claims result had out t1 t2 t3 outcomes :
  claim_run worker claim r t1 -> processed claims (count result (claim, r)) (had || deferred (claim, r)) out t3 outcomes ->
  processed (claim :: claims) result had out (t1 ++ t2 ++ t3) ((claim, r) :: outcomes).
Proof.
  intros Hrun [(rest & -> & Hrest) Hres Hdef Hruns]. split; [|done|by rewrite Hdef; simpl; rewrite orb_assoc|].
  - exists rest. split; [done|]. destruct Hrest as [->|[(e & He) (claim' & e' & Hl)]]; [by left|right]. split.
    + exists e. set_solver.
    + exists claim', e'. by destruct outcomes.
  - constructor; [by exists [], t1, (t2 ++ t3)|]. eapply Forall_impl; [exact Hruns|]. intros outcome Ho.
    apply (ran_app _ (t1 ++ t2) _ []) in Ho. by rewrite app_nil_r, <- app_assoc in Ho.
Qed.

Lemma processed_stops claim e claims result had t1 e' :
  claim_run worker claim (Err e) t1 ->
  processed (claim :: claims) result had (countDeferred result, true) (t1 ++ [WkRoundErr (Some e')]) [(claim, Err e)].
Proof.
  intros Hrun. split; [|done|by rewrite orb_true_r|].
  - exists claims. split; [done|]. right. split; [exists e'; set_solver|by exists claim, e].
  - constructor; [|constructor]. by exists [], t1, [WkRoundErr (Some e')].
Qed.

(** The rest of the loop, after a claim was processed. *)
Lemma processClaims_next claim r claims result had (w w1 : Scene unit WorkerEvent W) t1 t2 :
  (forall result had w, ends (processClaims env claims result had) (fun out w' => exists outcomes t,
    sc_trace w' = sc_trace w ++ t /\ backed (repo (sc_oracle w)) t (repo (sc_oracle w')) /\
    processed claims result had out t outcomes) w) ->
  claim_run worker claim r t1 -> sc_trace w1 = sc_trace w ++ t1 ++ t2 ->
  backed (repo (sc_oracle w)) (t1 ++ t2) (repo (sc_oracle w1)) ->
  ends (processClaims env claims (count result (claim, r)) (had || deferred (claim, r))) (fun out w' => exists outcomes t,
    sc_trace w' = sc_trace w ++ t /\ backed (repo (sc_oracle w)) t (repo (sc_oracle w')) /\
    processed (claim :: claims) result had out t outcomes) w1.
Proof.
  intros IH Hrun Ht1 Hb1. eapply ends_mono; [apply IH|]. intros out w2 (outcomes & t3 & Ht3 & Hb3 & Hp).
  exists ((claim, r) :: outcomes), (t1 ++ t2 ++ t3). rewrite Ht3, Ht1, <- !app_assoc.
  split_and!; [done| |by apply processed_cons]. rewrite app_assoc. by eapply backed_app.
Qed.

Lemma processClaims_ends claims result had w :
  ends (processClaims env claims result had) (fun out w' => exists outcomes t,
    sc_trace w' = sc_trace w ++ t /\ backed (repo (sc_oracle w)) t (repo (sc_oracle w')) /\
    processed claims result had out t outcomes) w.
Proof.
  revert result had w. induction claims as [|claim claims IH]; intros result had w; simpl.
  - apply ends_ret. exists [], []. rewrite app_nil_r. split_and!; [done|apply backed_nil, rtc_refl|].
    split; [exists []; by auto|done|by rewrite orb_false_r|constructor].
  - apply ends_bind, ends_consult_eq. intros [r t1] o Ho. apply ends_bind, note_all_ends. simpl.
    destruct (wb_processClaim claim (sc_oracle w)) as [Hrun Hb]. rewrite Ho in Hrun, Hb. simpl in *.
    set (w1 := {| sc_oracle := o; sc_trace := sc_trace w ++ t1; sc_state := sc_state w |}).
    pose proof (fun t2 w2 => processClaims_next claim r claims result had w w2 t1 t2 IH Hrun) as Hnext.
    destruct r as [outcome|e].
    { specialize (Hnext [] w1). simpl in Hnext. rewrite orb_false_r, !app_nil_r in Hnext. by apply Hnext. }
    simpl in Hnext. rewrite orb_true_r in Hnext. destruct (decide (errors_Is e ErrClaimDeferred)).
    2: { specialize (Hnext [] w1). rewrite !app_nil_r in Hnext. by apply Hnext. }
    apply ends_bind, ends_bind, ends_consult_eq. intros err o' Ho'. simpl in Ho'. apply ends_bind, ends_note, ends_ret. simpl.
    pose proof (wb_roundErr o) as Hq. rewrite Ho' in Hq. assert (backed (repo (sc_oracle w)) (t1 ++ [WkRoundErr err]) (repo o')) as Hb' by by eapply backed_app.
    destruct err as [e'|]; [|apply (Hnext [WkRoundErr None]); [by rewrite app_assoc|done]].
    apply ends_ret. exists [(claim, Err e)], (t1 ++ [WkRoundErr (Some e')]).
    split_and!; [by rewrite app_assoc|done|by apply processed_stops].
Qed.

(** ** The counters *)

Definition tally (o : ClaimOutcome) (outcomes : list (ClaimedRevocation * Result ClaimOutcome)) : Z :=
  Z.of_nat (length (List.filter (fun outcome => if outcome.2 is Ok o' then o' == o else false) outcomes)).
Definition deferrals (outcomes : list (ClaimedRevocation * Result ClaimOutcome)) : Z :=
  Z.of_nat (length (List.filter deferred outcomes)).

Record counted (result result' : RunResult) (outcomes : list (ClaimedRevocation * Result ClaimOutcome)) : Prop := {
  ct_Claimed : run_Claimed result' = run_Claimed result;
  ct_Revoked : run_Revoked result' = run_Revoked result + tally claimRevoked outcomes;
  ct_Retried : run_Retried result' = run_Retried result + tally claimRetried outcomes;
  ct_Manual : run_ManualRequired result' = run_ManualRequired result + tally claimManual outcomes;
  ct_Deferred : run_Deferred result' = run_Deferred result + deferrals outcomes
}.

Lemma count_counted outcomes result : counted result (foldl count result outcomes) outcomes.
Proof.
  revert result. induction outcomes as [|[claim [[| |]|e]] outcomes IH]; intros result; simpl;
    [by split; rewrite ?Z.add_0_r|..];
    (match goal with |- counted _ (foldl count ?r _) _ => destruct (IH r) as [] end;
     split; unfold tally, deferrals, count in *; simpl in *; lia).
Qed.

Lemma tally_total outcomes :
  tally claimRevoked outcomes + tally claimRetried outcomes + tally claimManual outcomes + deferrals outcomes
    = Z.of_nat (length outcomes).
Proof. induction outcomes as [|[claim [[| |]|e]] outcomes IH]; unfold tally, deferrals in *; simpl in *; lia. Qed.

(** ** The whole round *)

(** What a round reports and leaves in its trace. *)
Record round_of (result : RunResult) (err : option GoError) (claims : list ClaimedRevocation)
    (outcomes : list (ClaimedRevocation * Result ClaimOutcome)) (t : list WorkerEvent) : Prop := {
  ro_claims : claims = [] \/ WkClaim (claimRequest worker) (Ok claims) ∈ t;
  ro_processed : exists rest, claims = outcomes.*1 ++ rest /\ (rest = [] \/ stopped outcomes t);
  ro_claimed : run_Claimed result = Z.of_nat (length claims);
  ro_counts : run_Revoked result = tally claimRevoked outcomes /\ run_Retried result = tally claimRetried outcomes /\
    run_ManualRequired result = tally claimManual outcomes /\ run_Deferred result = deferrals outcomes;
  ro_err : (err = None -> deferrals outcomes = 0) /\ (err = Some ErrClaimDeferred -> 0 < deferrals outcomes);
  ro_runs : Forall (fun outcome => ran outcome t) outcomes;
  ro_destroyed claim accessor : claim ∈ claims -> claimed_Accessor claim = Some accessor -> WkDestroy accessor ∈ t
}.

Lemma destroyClaims_ends claims (w : Scene unit WorkerEvent W) :
  ends (destroyClaims claims) (fun _ w' => exists t, sc_trace w' = sc_trace w ++ t /\ sc_oracle w' = sc_oracle w /\
    backed (repo (sc_oracle w)) t (repo (sc_oracle w)) /\
    forall claim accessor, claim ∈ claims -> claimed_Accessor claim = Some accessor -> WkDestroy accessor ∈ t) w.
Proof.
  revert w. induction claims as [|claim claims IH]; intros w; simpl.
  - apply ends_ret. exists []. rewrite app_nil_r. split_and!; [done|done|apply backed_nil, rtc_refl|set_solver].
  - destruct (claimed_Accessor claim) as [accessor|] eqn:Ha.
    + apply ends_bind, ends_note. eapply ends_mono; [apply IH|]. simpl. intros _ w' (t & Ht & Ho & Hb & Hd).
      exists (WkDestroy accessor :: t). rewrite Ht, <- app_assoc. split_and!; [done|done| |].
      * eapply backed_cons; [apply rtc_refl|by apply call_remote|done].
      * intros claim' accessor' [->|Hin]%elem_of_cons Ha'; [rewrite Ha in Ha'; injection Ha' as <-; by left|right; by eapply Hd].
    + eapply ends_mono; [apply IH|]. intros _ w' (t & Ht & Ho & Hb & Hd). exists t. split_and!; [done..|].
      intros claim' accessor' [->|Hin]%elem_of_cons Ha'; [congruence|by eapply Hd].
Qed.

Lemma deferrals_existsb outcomes : existsb deferred outcomes = (0 <? deferrals outcomes).
Proof.
  unfold deferrals. induction outcomes as [|outcome outcomes IH]; [done|]. simpl. rewrite IH.
  destruct (deferred outcome); simpl; [|done]. symmetry. apply Z.ltb_lt. lia.
Qed.

Lemma RunOnce_claims_ends result w :
  run_Revoked result = 0 /\ run_Retried result = 0 /\ run_ManualRequired result = 0 /\ run_Deferred result = 0 /\
  run_Claimed result = 0 ->
  ends (RunOnce_claims env worker result) (fun out w' => exists claims outcomes t,
    sc_trace w' = sc_trace w ++ t /\ backed (repo (sc_oracle w)) t (repo (sc_oracle w')) /\
    round_of out.1 out.2 claims outcomes t) w.
Proof.
  intros (H1 & H2 & H3 & H4 & H5). unfold RunOnce_claims. cbv zeta. apply ends_bind. unfold exchange.
  apply ends_bind, ends_consult_eq. intros [claims err] o Ho. apply ends_bind, ends_note, ends_ret. simpl.
  pose proof (wb_ClaimRevocations (claimRequest worker) (sc_oracle w)) as Hb. rewrite Ho in Hb. simpl in Hb.
  destruct err as [e|]; simpl in *.
  - apply ends_bind. eapply ends_mono; [apply destroyClaims_ends|]. simpl. intros _ w1 (t & Ht & Ho1 & Hbt & _).
    apply ends_ret. exists [], [], (WkClaim (claimRequest worker) (Err e) :: t). rewrite Ht, <- app_assoc, Ho1.
    split_and!; [done|by eapply (backed_app _ _ [_])|]. split; simpl; try done; [by left|exists []; by auto|set_solver].
  - apply ends_bind. eapply ends_mono; [apply processClaims_ends|]. simpl.
    intros out w1 (outcomes & t1 & Ht1 & Hb1 & [Hpc Hpr Hpd Hpruns]). apply ends_bind.
    eapply ends_mono; [apply destroyClaims_ends|]. simpl. intros _ w2 (t2 & Ht2 & Ho2 & Hb2 & Hd2). apply ends_ret.
    exists claims, outcomes, (WkClaim (claimRequest worker) (Ok claims) :: t1 ++ t2).
    rewrite Ht2, Ht1, <- !app_assoc, Ho2. split_and!; [done| |].
    + eapply (backed_app _ _ [_]); [exact Hb|]. by eapply backed_app.
    + simpl in Hpd. destruct (count_counted outcomes {| result with run_Claimed := Z.of_nat (length claims) |}).
      rewrite <- Hpr in *. simpl in *. rewrite deferrals_existsb in Hpd.
      assert (0 <= deferrals outcomes) by (unfold deferrals; lia). split; simpl.
      * right. by left.
      * destruct Hpc as (rest & -> & Hrest). exists rest. split; [done|]. destruct Hrest as [|[(e & He) Hl]]; [by left|right].
        split; [exists e; set_solver|done].
      * done.
      * by rewrite H1, H2, H3, H4 in *.
      * destruct out.2; [|destruct (Z.ltb_spec 0 (deferrals outcomes))]; split; try done; try lia.
      * eapply Forall_impl; [exact Hpruns|]. intros outcome Hr. by apply (ran_app _ [_]).
      * intros claim accessor Hin Ha. right. apply elem_of_app. right. by eapply Hd2.
Qed.

Lemma round_of_failed result e t : run_Claimed result = 0 -> run_Revoked result = 0 -> run_Retried result = 0 ->
  run_ManualRequired result = 0 -> run_Deferred result = 0 -> e <> ErrClaimDeferred -> round_of result (Some e) [] [] t.
Proof. intros. split; simpl; try done; [by left|exists []; by auto|naive_solver|set_solver]. Qed.

Lemma round_of_app result err claims outcomes t t' : round_of result err claims outcomes t' -> round_of result err claims outcomes (t ++ t').
Proof.
  intros [Hc Hp Hcl Hct He Hr Hd]. split; try done.
  - destruct Hc as [|Hc]; [by left|right; apply elem_of_app; by right].
  - destruct Hp as (rest & -> & Hrest). exists rest. split; [done|]. destruct Hrest as [|[(e & Hin) Hl]]; [by left|right].
    split; [exists e; set_solver|done].
  - eapply Forall_impl; [exact Hr|]. intros outcome Ho. apply (ran_app _ t _ []) in Ho. by rewrite app_nil_r in Ho.
  - intros claim accessor Hin Ha. apply elem_of_app. right. by eapply Hd.
Qed.

Lemma RunOnce_ends w :
  ends (RunOnce env (Some worker) true) (fun out w' => exists claims outcomes t,
    sc_trace w' = sc_trace w ++ t /\ backed (repo (sc_oracle w)) t (repo (sc_oracle w')) /\
    round_of out.1 out.2 claims outcomes t) w.
Proof.
  assert (forall A (question : W -> Result A * W) event (k : A -> Talk unit WorkerEvent W (RunResult * option GoError)) result w,
    backs (worker_call protector) repo question event ->
    (forall t, round_of result (Some ErrRecoveryFailed) [] [] t) ->
    (forall a w, ends (k a) (fun out w' => exists claims outcomes t,
       sc_trace w' = sc_trace w ++ t /\ backed (repo (sc_oracle w)) t (repo (sc_oracle w')) /\
       round_of out.1 out.2 claims outcomes t) w) ->
    ends (answer ← exchange question event;
          match answer with Err _ => mret (result, Some ErrRecoveryFailed) | Ok a => k a end)
      (fun out w' => exists claims outcomes t,
         sc_trace w' = sc_trace w ++ t /\ backed (repo (sc_oracle w)) t (repo (sc_oracle w')) /\
         round_of out.1 out.2 claims outcomes t) w) as Hstage.
  { intros A question event k result w0 Hb Hfail Hk. apply ends_bind.
    eapply ends_mono; [by apply (stands_exchange (worker_call protector) repo)|]. intros answer w1 (t1 & Ht1 & Hb1).
    destruct answer as [a|e]; [|apply ends_ret; by exists [], [], t1]. eapply ends_mono; [apply Hk|].
    intros out w2 (claims & outcomes & t2 & Ht2 & Hb2 & Hr). exists claims, outcomes, (t1 ++ t2).
    rewrite Ht2, Ht1, app_assoc. split_and!; [done|by eapply backed_app|by apply round_of_app]. }
  unfold RunOnce. cbv zeta. apply Hstage; [apply wb_RecoverPrepared|intros t; by apply round_of_failed|]. intros prepared w1.
  apply Hstage; [apply wb_RecoverManaged|intros t; by apply round_of_failed|]. intros managed w2.
  apply Hstage; [apply wb_RecoverExhausted|intros t; by apply round_of_failed|]. intros exhausted w3.
  by apply RunOnce_claims_ends.
Qed.

(** A claim that counts as revoked. *)
Lemma revoked_outcome result err claims outcomes t s s' claim :
  repository_reachable s -> backed s t s' -> round_of result err claims outcomes t -> (claim, Ok claimRevoked) ∈ outcomes ->
  (exists c, repo_records s' !! cf_RevocationID (claimed_Fence claim) = Some c /\ closed_by (claimed_Fence claim) c) /\
  exists id s1 r revoker, repo_records s1 !! id = Some r /\ rtc repository_step s s1 /\
    wk_registry worker !! identityFrom (rr_revocation r) = Some revoker /\
    Unprotect protector (referenceContext (rr_revocation r)) (rr_protected r) = Ok (claimed_Accessor claim) /\
    WkRevoke revoker (claimed_Accessor claim) false ∈ t /\ WkRevokeAnswer revoker None ∈ t.
Proof.
  intros Hs Hb [Hc (rest & Hrest & _) _ _ _ Hr _] Hin. rewrite Forall_forall in Hr.
  destruct (ran_events _ _ (Hr _ Hin)) as (t0 & (slot & ctxDone & run & Hslot & Hsteps & Hm & <-) & Hsub). simpl in *.
  pose proof (run_wf_steps _ _ _ _ Hsteps (claimStart_wf worker claim slot ctxDone Hslot)) as Hwf.
  pose proof (rn_acks _ _ _ Hwf) as Hacks. rewrite Hm in Hacks. inversion Hacks as [| | | |revocation Hok Heq| | |].
  assert (WkComplete (claimed_Fence claim) (Ok revocation) ∈ cl_trace run) as Hcomp.
  { assert (WkComplete (claimed_Fence claim) (Ok revocation) ∈ acks (cl_trace run)) as Hin'
      by (rewrite <- Heq; by apply list_elem_of_singleton).
    unfold acks in Hin'. by apply list_elem_of_In, List.filter_In in Hin' as [?%list_elem_of_In _]. }
  split; [eapply backed_completed; [exact Hs|exact Hb|by apply Hsub]|].
  apply list_elem_of_split in Hcomp as (t1 & t2 & Ht).
  destruct (rn_justified _ _ _ Hwf _ _ _ _ Ht) as (revoker & [Hreg _] & Hg & Hans).
  assert (claim ∈ claims) as Hclaim.
  { rewrite Hrest. apply elem_of_app. left. apply list_elem_of_fmap. by exists (claim, Ok claimRevoked). }
  destruct Hc as [Hnil|Hc]; [rewrite Hnil in Hclaim; by apply elem_of_nil in Hclaim|]. apply list_elem_of_split in Hc as (u1 & u2 & Hu).
  rewrite Hu in Hb. apply backed_by_split in Hb as (s1 & s2 & Hs1 & He & _); [|apply worker_call_steps].
  inversion He as [| | |err0 clock tokens request0 result0 answer0 sa sb _ Hrun [Heq2|[e He']]| | | | |]; subst; [|done|done].
  destruct (claim_opened _ _ _ _ _ _ _ _ _ Hrun Hclaim) as (id & r & Hid & _ & Hopen & _ & Hident).
  exists id, s1, r, revoker. rewrite <- Hident. split_and!; try done; apply Hsub; rewrite Ht; apply elem_of_app; by left.
Qed.
End round.
