(* ===== verification/RevocationWorkerExamples.v ===== *)
(** * The revocation worker: a live environment

    A worker with one registered revoker and the revocation repository behind it.  Its
    environment runs [processClaim] on a script: the revoker accepts, or there is none for
    the claim and the context ends. *)

From S2P Require Import Prelude.
From S2P Require Import Interaction.
From S2P Require Import Sha256.
From S2P Require Import GoText.
From S2P Require Import Credential.
From S2P Require Import CredentialFacts.
From S2P Require Import CredentialInvariant.
From S2P Require Import CredentialHistory.
From S2P Require Import CredentialExamples.
From S2P Require Import RepositoryTrace.
From S2P Require Import RevocationWorker.
From S2P Require Import RevocationWorkerFacts.
From S2P Require Import WorkerSystem.

Open Scope Z_scope.

Module WorkerDemo.
Import CredentialDemo.

Definition identity : RevokerIdentity :=
  {| rid_TenantID := "tenant-1"; rid_WorkspaceID := "workspace-1"; rid_EnvironmentID := "staging"; rid_IssuerID := "vault";
     rid_IssuerRevision := "rev-1" |}.
Definition revoker : Revoker := 9.
Definition registry : Registry := {[ identity := revoker ]}.

Definition worker : Worker :=
  {| wk_registry := registry; wk_workerID := "worker-1"; wk_recoveryLimit := 100; wk_claimLimit := 1;
     wk_claimLease := RevocationClaimLease; wk_heartbeatInterval := RevocationHeartbeatInterval;
     wk_remoteTimeout := RevocationRemoteTimeout |}.

Lemma worker_made : New true (Some registry) {| opt_WorkerID := "worker-1"; opt_RecoveryLimit := 0; opt_ClaimLimit := 0 |} = Ok worker.
Proof. reflexivity. Qed.

(** ** Scripts *)

Fixpoint play (claim : ClaimedRevocation) (script : list ClaimStep) (run : ClaimRun) : option ClaimRun :=
  match script with
  | [] => Some run
  | step :: script =>
      match claimStep worker claim step run with Some run' => play claim script run' | None => None end
  end.

Lemma claim_play_steps claim script run run' : play claim script run = Some run' -> rtc (claim_step worker claim) run run'.
Proof.
  revert run. induction script as [|step script IH]; simpl; intros run H; [injection H as <-; apply rtc_refl|].
  destruct (claimStep worker claim step run) as [run1|] eqn:Hs; [|done]. eapply rtc_l; [by exists step|by apply IH].
Qed.

(** The revoker accepts and the claim is completed with [answer]. *)
Definition accepting (answer : Result Revocation) : list ClaimStep := [
  MainRuns; MainRuns; RemoteStarts; RemoteAnswered None; MainSelects SelectResult; MainRuns;
  MainAnswered (fun _ => Ok 0) answer; MainRuns; HeartbeatEnds; MainRuns ].

(** The context has ended before the claim is looked at. *)
Definition ending : list ClaimStep := [MainRuns; MainRuns; MainRuns; HeartbeatEnds; MainRuns].

Definition completed (answer : Result Revocation) : Result ClaimOutcome :=
  match answer with Ok _ => Ok claimRevoked | Err _ => Err ErrClaimDeferred end.

Definition process (claim : ClaimedRevocation) (s : MemoryRepository)
    : (Result ClaimOutcome * list WorkerEvent) * MemoryRepository :=
  match ResolveRevoker (Some registry) None (identityFrom (claimed_Revocation claim)), claimed_Accessor claim with
  | Ok revoker, Some accessor =>
      let '(answer, s') := Repository_CompleteRevocation None (at_second 7) (claimed_Fence claim) s in
      ((completed answer, [WkRevoke revoker (Some accessor) false; WkRevokeAnswer revoker None;
                           WkComplete (claimed_Fence claim) answer; WkDestroy accessor]), s')
  | _, Some accessor => ((Err ErrClaimDeferred, [WkDestroy accessor]), s)
  | _, None => ((Err ErrClaimDeferred, []), s)
  end.

Lemma ending_runs claim : claim_run worker claim (Err ErrClaimDeferred)
  (match claimed_Accessor claim with Some accessor => [WkDestroy accessor] | None => [] end).
Proof.
  exists SlotFree, true. destruct (claimed_Accessor claim) as [acc|] eqn:Ha; eexists; (split; [done|]);
    (split; [apply (claim_play_steps claim ending); simpl; unfold mainRuns; simpl; rewrite Ha; reflexivity|by split]).
Qed.

#[local] Opaque ResolveRevoker.

Lemma process_runs claim s : claim_run worker claim (process claim s).1.1 (process claim s).1.2.
Proof.
  pose proof (ending_runs claim) as Hend. unfold process.
  destruct (ResolveRevoker (Some registry) None _) as [rv|e] eqn:Hr; destruct (claimed_Accessor claim) as [acc|] eqn:Ha; try done.
  destruct (Repository_CompleteRevocation _ _ _ s) as [answer s']. simpl. exists SlotFree, false.
  eexists. split; [done|]. split; [apply (claim_play_steps claim (accepting answer))|].
  - simpl. unfold mainRuns, operationDone. simpl. rewrite Hr, Ha. simpl. reflexivity.
  - by destruct answer.
Qed.

#[local] Transparent ResolveRevoker.

Lemma process_backed claim s : backed_by (worker_call protector) s (process claim s).1.2 (process claim s).2.
Proof.
  assert (forall event t s s', remoteEvent event = true -> backed_by (worker_call protector) s t s' ->
    backed_by (worker_call protector) s (event :: t) s') as Hremote.
  { intros event t s0 s' He Hb. eapply backed_cons; [apply rtc_refl|by apply call_remote|done]. }
  unfold process. destruct (ResolveRevoker _ _ _) as [rv|e]; destruct (claimed_Accessor claim) as [acc|];
    try (by apply backed_nil, rtc_refl); try (apply Hremote; [done|]; apply backed_nil, rtc_refl).
  destruct (Repository_CompleteRevocation _ _ _ s) as [answer s'] eqn:Hc. simpl. do 2 (apply Hremote; [done|]).
  eapply backed_cons; [apply rtc_refl| |apply Hremote; [done|]; apply backed_nil, rtc_refl].
  eapply call_complete; [|exact Hc|by left]. apply running_at. lia.
Qed.

(** ** The environment *)

Definition live : WorkerEnvironment MemoryRepository := {|
  on_RecoverPrepared := Repository_RecoverPrepared None (at_second 6);
  on_RecoverManaged := fun _ s => (Ok [], s);
  on_RecoverExhausted := Repository_RecoverExhausted None (at_second 6);
  on_ClaimRevocations := fun request s =>
    match Repository_ClaimRevocations None (at_second 6) protector tokens request s with
    | (Ok claims, s') => ((claims, None), s')
    | (Err e, s') => (([], Some e), s')
    end;
  on_processClaim := process;
  on_roundErr := fun s => (None, s)
|}.

#[export] Instance worker_backed : WorkerBacked live worker protector (fun s => s).
Proof.
  assert (running (at_second 6)) as Hclock by (apply running_at; lia).
  assert (forall s event s', worker_call protector s event s' -> backed_by (worker_call protector) s [event] s') as Hone.
  { intros s event s' Hc. eapply backed_cons; [apply rtc_refl|exact Hc|apply backed_nil, rtc_refl]. }
  split.
  - intros limit s. apply Hone. eapply call_prepared; [exact Hclock|apply surjective_pairing|by left].
  - intros limit s. apply Hone. by apply call_managed.
  - intros limit s. apply Hone. eapply call_exhausted; [exact Hclock|apply surjective_pairing|by left].
  - intros request s. apply Hone. simpl. destruct (Repository_ClaimRevocations _ _ _ _ _ s) as [[claims|e] s'] eqn:Hc;
      (eapply call_claim; [exact Hclock|exact Hc|by left]).
  - intros s. by apply Hone, call_remote.
  - intros claim s. split; [apply process_runs|apply process_backed].
Qed.

(** ** A round on a pending revocation *)

Definition pending : MemoryRepository := CredentialDemo.run to_pending empty.

Lemma pending_reachable : repository_reachable pending.
Proof. apply run_reachable. vm_compute. reflexivity. Qed.

Definition scene : Scene unit WorkerEvent MemoryRepository := {| sc_oracle := pending; sc_trace := []; sc_state := tt |}.
Definition round := RunOnce live (Some worker) true scene.

Example round_result :
  round.1 = ({| run_PreparedRecovered := 0; run_ManagedRecovered := 0; run_ExhaustedRecovered := 0; run_Claimed := 1;
                run_Revoked := 1; run_Retried := 0; run_ManualRequired := 0; run_Deferred := 0 |}, None).
Proof. vm_compute. reflexivity. Qed.

(** A run of one claim. *)
Definition claimed : ClaimedRevocation :=
  default {| claimed_Revocation := preparedRevocation {| prep_RevocationID := id; prep_Fence := fence; prep_Issuer := "vault";
               prep_IssuerRevision := "rev-1"; prep_CredentialExpiresAt := 0 |} metadata 0;
             claimed_Fence := claim_fence; claimed_Accessor := None |}
    (head ((on_ClaimRevocations live (claimRequest worker) pending).1.1)).
Definition accepted_answer : Result Revocation :=
  (Repository_CompleteRevocation None (at_second 7) (claimed_Fence claimed)
    (on_ClaimRevocations live (claimRequest worker) pending).2).1.
Definition accepted_run : ClaimRun :=
  default (claimStart SlotFree false) (play claimed (accepting accepted_answer) (claimStart SlotFree false)).

Lemma accepted_steps : rtc (claim_step worker claimed) (claimStart SlotFree false) accepted_run.
Proof.
  apply (claim_play_steps claimed (accepting accepted_answer)). unfold accepted_run.
  assert (is_Some (play claimed (accepting accepted_answer) (claimStart SlotFree false))) as [run ->]; [|reflexivity].
  eapply mk_is_Some. vm_compute. reflexivity.
Qed.
End WorkerDemo.
