(* ===== verification/RevocationWorkerTheorems.v ===== *)
(** * The revocation worker: theorems

    The processing of one claim under every interleaving of its goroutines, a whole round
    with the repository behind it, and the delay before a retry. *)

From S2P Require Import Prelude.
From S2P Require Import Interaction.
From S2P Require Import Sha256.
From S2P Require Import GoText.
From S2P Require Import Credential.
From S2P Require Import CredentialFacts.
From S2P Require Import CredentialInvariant.
From S2P Require Import CredentialHistory.
From S2P Require Import CredentialExamples.
From S2P Require Import RepositoryTrace.
From S2P Require Import RevocationWorker.
From S2P Require Import RevocationWorkerFacts.
From S2P Require Import WorkerSystem.
From S2P Require Import RevocationWorkerExamples.

Open Scope Z_scope.

Section claim.
Context (worker : Worker) (claim : ClaimedRevocation).

(** C4. A claim is completed only after its revocation: in every interleaving, a call of
    [CompleteRevocation] presents the fence of the claim, comes after the revoker registered
    for the record's scope and issuer was given the accessor of the claim, not yet
    destroyed, and answered without an error, and is the only acknowledgement of the
    claim. *)
Theorem completion_follows_revocation slot ctxDone run t1 fence answer t2 :
  slot <> SlotHere -> rtc (claim_step worker claim) (claimStart slot ctxDone) run ->
  cl_trace run = t1 ++ WkComplete fence answer :: t2 ->
  fence = claimed_Fence claim /\ acks t1 = [] /\ acks t2 = [] /\
  exists revoker, wk_registry worker !! identityFrom (claimed_Revocation claim) = Some revoker /\
    is_Some (claimed_Accessor claim) /\ WkRevoke revoker (claimed_Accessor claim) false ∈ t1 /\
    WkRevokeAnswer revoker None ∈ t1.
Proof.
  intros Hslot Hsteps Ht. pose proof (run_wf_steps _ _ _ _ Hsteps (claimStart_wf worker claim slot ctxDone Hslot)) as Hwf.
  destruct (rn_justified _ _ _ Hwf _ _ _ _ Ht) as (revoker & [Hr Ha] & Hg & Hans).
  pose proof (rn_acks _ _ _ Hwf) as Hacks. rewrite Ht in Hacks.
  destruct (acknowledged_complete claim (cl_main run) t1 fence answer t2 Hacks) as (-> & H1 & H2).
  split_and!; [done..|]. exists revoker. by split_and!.
Qed.

(** When the method returns, its result says how the claim was acknowledged: revoked,
    retried or handed to the operators with the repository's agreement, or deferred, with no
    acknowledgement or one whose answer was an error.  By then the heartbeat has stopped
    and the accessor is destroyed; whatever happens afterwards, no further call of the
    repository is made for the claim, and the revoker was called at most once. *)
Theorem claim_result_is_acknowledged slot ctxDone run result :
  slot <> SlotHere -> rtc (claim_step worker claim) (claimStart slot ctxDone) run -> cl_main run = Returned result ->
  acknowledged claim result (acks (cl_trace run)) /\ cl_heartbeat run = HeartbeatStopped /\
  (is_Some (claimed_Accessor claim) -> cl_destroyed run = true) /\
  forall run', rtc (claim_step worker claim) run run' ->
    cl_main run' = Returned result /\ (length (List.filter revokes (cl_trace run')) <= 1)%nat /\
    (remoteActive (cl_remote run') = true -> cl_slot run' = SlotHere) /\
    exists t, cl_trace run' = cl_trace run ++ t /\ Forall remoteOnly t.
Proof.
  intros Hslot Hsteps Hm. pose proof (run_wf_steps _ _ _ _ Hsteps (claimStart_wf worker claim slot ctxDone Hslot)) as Hwf.
  pose proof (rn_acks _ _ _ Hwf) as Hacks. rewrite Hm in Hacks. destruct (rn_returned _ _ _ Hwf _ Hm) as (Hh & _ & Hd).
  split_and!; [done..|]. intros run' Hsteps'. destruct (returned_steps _ _ _ _ _ Hsteps' Hwf Hm) as (Hm' & t & Ht & Hf).
  pose proof (run_wf_steps _ _ _ _ Hsteps' Hwf) as Hwf'. split_and!; [done| | |by exists t].
  - rewrite (rn_once _ _ _ Hwf'). destruct (cl_remote run'); lia.
  - apply (rn_slot _ _ _ Hwf').
Qed.

(** C37. Processing a claim comes to its return: from every state that can be reached, and
    whatever the repository answers to the calls of the method and of the heartbeat, the
    worker returns by steps of its own, none of them an event of the caller's context, of the
    revoker or of an earlier claim's call.  And in every execution, whatever the others do in
    between, the method takes at most eight steps, each of which brings it closer to its
    return. *)
Theorem claim_processing_returns slot ctxDone run :
  slot <> SlotHere -> rtc (claim_step worker claim) (claimStart slot ctxDone) run ->
  (forall random answer beat, exists run' result,
     rtc (own_step worker claim random answer beat) run run' /\ cl_main run' = Returned result) /\
  (rank (cl_main run) <= 8)%nat /\
  forall steps run', claimSteps worker claim steps run = Some run' ->
    (length (List.filter mainStep steps) + rank (cl_main run') <= rank (cl_main run))%nat.
Proof.
  intros Hslot Hsteps. split_and!.
  - intros random answer beat. apply run_wf_returns_always.
    exact (run_wf_steps _ _ _ _ Hsteps (claimStart_wf worker claim slot ctxDone Hslot)).
  - destruct (cl_main run); simpl; lia.
  - intros steps run'. apply rank_steps.
Qed.
End claim.


(** C40. The delay before the [n]-th retry is at least the least one and at most the least one
    doubled [n - 1] times, capped at the greatest; every delay in that range can be drawn;
    and the repository accepts the request the worker makes with it. *)
Theorem retry_delay_is_bounded claim random attempt err :
  below_span random ->
  MinRevocationRetryDelay <= retryDelay random attempt <= retryBound attempt /\
  retryBound attempt = Z.min MaxRevocationRetryDelay (MinRevocationRetryDelay * 2 ^ (Z.max attempt 1 - 1)) /\
  (forall delay, MinRevocationRetryDelay <= delay <= retryBound attempt ->
     exists random', below_span random' /\ retryDelay random' attempt = delay) /\
  let request := retryRequest claim random (classifyFailure err).1 in
  MinRevocationRetryDelay <= retry_Delay request <= MaxRevocationRetryDelay /\
  validFailure (retry_FailureCode request) (retry_FailureDetail request) = true.
Proof.
  intros Hr. split; [by apply retryDelay_range|]. split; [done|]. split; [intros delay; apply retryDelay_drawn|].
  pose proof (retryDelay_range random (rev_Attempt (claimed_Revocation claim)) Hr).
  pose proof (retryBound_range (rev_Attempt (claimed_Revocation claim))). simpl. split; [lia|apply classified_valid].
Qed.

Import CredentialDemo WorkerDemo.

Lemma completion_follows_revocation_witness :
  exists revoker, WkRevoke revoker (claimed_Accessor claimed) false ∈ take 2 (cl_trace accepted_run) /\
    WkRevokeAnswer revoker None ∈ take 2 (cl_trace accepted_run).
Proof.
  destruct (completion_follows_revocation worker claimed SlotFree false accepted_run (take 2 (cl_trace accepted_run))
    (claimed_Fence claimed) accepted_answer (drop 3 (cl_trace accepted_run))) as (_ & _ & _ & rv & _ & _ & H1 & H2).
  - discriminate.
  - exact accepted_steps.
  - vm_compute. reflexivity.
  - exists rv. exact (conj H1 H2).
Defined.

Lemma claim_result_is_acknowledged_witness :
  acknowledged claimed (Ok claimRevoked) (acks (cl_trace accepted_run)).
Proof.
  refine (proj1 (claim_result_is_acknowledged worker claimed SlotFree false accepted_run (Ok claimRevoked) _ _ _)).
  - discriminate.
  - exact accepted_steps.
  - vm_compute. reflexivity.
Defined.

Lemma claim_processing_returns_witness :
  exists run' result, rtc (own_step worker claimed (fun _ => Ok 0) (Err ErrClaimDeferred) (Err ErrClaimDeferred))
    (claimStart SlotFree false) run' /\ cl_main run' = Returned result.
Proof.
  refine (proj1 (claim_processing_returns worker claimed SlotFree false (claimStart SlotFree false) _ _) _ _ _).
  - discriminate.
  - apply rtc_refl.
Defined.


Lemma retry_delay_is_bounded_witness :
  MinRevocationRetryDelay <= retryDelay (fun span => if 3 <? span then Ok 3 else Ok 0) 4 <= retryBound 4.
Proof.
  refine (proj1 (retry_delay_is_bounded claimed (fun span => if 3 <? span then Ok 3 else Ok 0) 4
    {| re_DeadlineExceeded := true; re_NotRegistered := false; re_ClientError := None |} _)).
  intros span offset Hspan. destruct (Z.ltb_spec 3 span); intros [= <-]; lia.
Defined.
