(* ===== verification/Policy.v ===== *)
(** * The policy engine

    Models internal/policy/engine.go: policy definitions, the evaluation of an
    action envelope at one of three stages, and the evaluation of approvals.

    The trusted readers an engine depends on are interfaces; what they answer
    during one evaluation is a [Dependencies] record.  [Principals] is asked several
    times in one evaluation, so its answer also depends on the number of the call.
    CEL is a third-party library: compiling an expression is the parameter
    [compileProgram], and a program maps the variables to a value or an error. *)

From S2P Require Import Prelude.
From S2P Require Import Sha256.
From S2P Require Import GoText.
From S2P Require Import GoStrings.
From S2P Require Import GoJson.
From S2P Require Import GoSort.
From S2P Require Import Envelope.

Open Scope Z_scope.

(** ** Data *)

Inductive Stage := StagePlanSubmission | StageCredentialIssue | StagePreExecution | StageOther (s : string).

#[export] Instance Stage_eq_dec : EqDecision Stage.
Proof. solve_decision. Defined.

Definition Stage_string (stage : Stage) : string :=
  match stage with
  | StagePlanSubmission => "PLAN_SUBMISSION"
  | StageCredentialIssue => "CREDENTIAL_ISSUE"
  | StagePreExecution => "PRE_EXECUTION"
  | StageOther s => s
  end.

Inductive Outcome := OutcomeAllow | OutcomeDeny | OutcomeRequireApproval | OutcomeOther (s : string).

#[export] Instance Outcome_eq_dec : EqDecision Outcome.
Proof. solve_decision. Defined.

Definition ReasonApprovalRequired : string := "APPROVAL_REQUIRED".
Definition ReasonApprovalExpired : string := "APPROVAL_EXPIRED".
Definition ReasonApprovalBindingMismatch : string := "APPROVAL_BINDING_MISMATCH".
Definition ReasonApprovalRejected : string := "APPROVAL_REJECTED".
Definition ReasonApprovalRoleInvalid : string := "APPROVAL_ROLE_INVALID".
Definition ReasonSeparationOfDuties : string := "SEPARATION_OF_DUTIES".
Definition ReasonTargetStateDrift : string := "TARGET_STATE_DRIFT".
Definition ReasonTargetStateStale : string := "TARGET_STATE_STALE".
Definition ReasonTargetNotWhitelisted : string := "TARGET_NOT_WHITELISTED".
Definition ReasonMappingNotExact : string := "MAPPING_NOT_EXACT".
Definition ReasonKillSwitchDisabled : string := "KILL_SWITCH_DISABLED".
Definition ReasonSafetyStateStale : string := "SAFETY_STATE_STALE".
Definition ReasonSafetyStateUnavailable : string := "SAFETY_STATE_UNAVAILABLE".
Definition ReasonCELPolicyDenied : string := "CEL_POLICY_DENIED".
Definition ReasonInvalidEnvelope : string := "INVALID_ACTION_ENVELOPE".
Definition ReasonIdentityUnavailable : string := "IDENTITY_UNAVAILABLE".
Definition ReasonRiskAssessmentDrift : string := "RISK_ASSESSMENT_DRIFT".
Definition ReasonActionLimitsDrift : string := "ACTION_LIMITS_DRIFT".

Definition MaxSafetySnapshotAge : Duration := 5 * Second.
Definition MaxTargetSnapshotAge : Duration := 15 * Second.
Definition maxClockSkew : Duration := Second.

Inductive Role := RoleSRE | RoleServiceOwner | RoleApprover | RoleOther (s : string).

#[export] Instance Role_eq_dec : EqDecision Role.
Proof. solve_decision. Defined.

Inductive ApprovalDecision := ApprovalApproved | ApprovalRejected | ApprovalDecisionOther (s : string).

#[export] Instance ApprovalDecision_eq_dec : EqDecision ApprovalDecision.
Proof. solve_decision. Defined.

Record PolicyDefinition := { def_Label : string; def_Version : string; def_Expression : string }.

Record Approval := {
  ap_SubjectID : string; ap_Decision : ApprovalDecision; ap_WorkspaceID : string; ap_ActionID : string;
  ap_PlanHash : string; ap_PolicyVersion : string; ap_TargetDigest : string; ap_DecidedAt : Time;
  ap_ExpiresAt : Time
}.

Record Principal := { pn_CanonicalID : string; pn_Active : bool; pn_Roles : list Role }.

Record GlobalSwitchSnapshot := { gl_Enabled : bool; gl_Revision : string; gl_ObservedAt : Time }.

Record ScopedSwitchSnapshot := {
  sw_WorkspaceID : string; sw_EnvironmentID : string; sw_ConnectorID : string; sw_ActionType : ActionType;
  sw_EnvironmentEnabled : bool; sw_ConnectorEnabled : bool; sw_ActionEnabled : bool; sw_Revision : string;
  sw_ObservedAt : Time
}.

Record GitOpsFacts := {
  gf_Provider : string; gf_RepositoryID : string; gf_Application : string; gf_Path : string;
  gf_BaseCommit : string; gf_HeadCommit : string; gf_RevertCommit : string; gf_DiffSHA256 : string;
  gf_ResultTreeSHA256 : string; gf_HeadTreeSHA256 : string; gf_LiveRevision : string;
  gf_DesiredRevision : string; gf_SyncStatus : string; gf_HealthStatus : string
}.

#[export] Instance GitOpsFacts_eq_dec : EqDecision GitOpsFacts.
Proof. solve_decision. Defined.

Record KubernetesFacts := {
  kf_ClusterID : string; kf_Namespace : string; kf_Name : string; kf_UID : string;
  kf_ResourceVersion : string; kf_Generation : Z; kf_Replicas : Z; kf_AvailableReplicas : Z;
  kf_UpdatedReplicas : Z; kf_HPAAbsent : bool; kf_PDBChecked : bool; kf_QuotaChecked : bool
}.

#[export] Instance KubernetesFacts_eq_dec : EqDecision KubernetesFacts.
Proof. solve_decision. Defined.

Record AWXFacts := {
  xf_InventoryID : Z; xf_HostIDs : list Z; xf_InventorySnapshotSHA256 : string; xf_JobTemplateID : Z;
  xf_JobTemplateSnapshotSHA256 : string; xf_ServiceName : string; xf_OSFamily : string;
  xf_ServiceState : string; xf_ServiceStateSnapshotSHA256 : string
}.

Record TargetSnapshot := {
  tg_WorkspaceID : string; tg_ServiceID : string; tg_EnvironmentID : string; tg_ConnectorID : string;
  tg_ActionType : ActionType; tg_MappingResult : string; tg_Whitelisted : bool; tg_TargetVersion : string;
  tg_Kubernetes : option KubernetesFacts; tg_GitOps : option GitOpsFacts; tg_AWX : option AWXFacts;
  tg_Revision : string; tg_ObservedAt : Time
}.

Record RiskSnapshot := {
  rk_WorkspaceID : string; rk_ActionID : string; rk_PlanHash : string; rk_TargetDigest : string;
  rk_PolicyVersion : string; rk_Level : string; rk_ReasonCodes : list string; rk_Revision : string;
  rk_ObservedAt : Time
}.

Record ActionLimitsSnapshot := {
  lm_WorkspaceID : string; lm_ServiceID : string; lm_EnvironmentID : string; lm_ActionType : ActionType;
  lm_MinimumReplicas : Z; lm_MaximumReplicas : Z; lm_MaxAWXHosts : Z; lm_Revision : string;
  lm_ObservedAt : Time
}.

Record Dependencies := {
  dep_Keys : KeyResolver;
  dep_Approvals : string -> string -> string -> Result (list Approval);
  dep_Principals : nat -> string -> string -> string -> string -> Result Principal;
  dep_Global : Result GlobalSwitchSnapshot;
  dep_Scoped : Envelope -> Result ScopedSwitchSnapshot;
  dep_Targets : Envelope -> Result TargetSnapshot;
  dep_Risk : Envelope -> Result RiskSnapshot;
  dep_Limits : Envelope -> Result ActionLimitsSnapshot
}.

Record Decision := {
  dec_Outcome : Outcome; dec_PolicyVersion : string; dec_Stage : Stage; dec_PlanHash : string;
  dec_ReasonCodes : list string; dec_SafetyRevision : string; dec_TargetRevision : string;
  dec_RiskRevision : string; dec_LimitsRevision : string; dec_EvaluatedAt : Time;
  dec_CredentialExpiresAt : Time
}.

(** ** Helpers *)

Definition fresh (now observedAt : Time) (maximumAge : Duration) : bool :=
  negb (IsZero observedAt || After observedAt (Add now maxClockSkew)) && (Sub now observedAt <=? maximumAge).

Fixpoint validRoles_from (seen roles : list Role) : bool :=
  match roles with
  | [] => true
  | role :: roles =>
      negb ((role != RoleSRE) && (role != RoleServiceOwner) && (role != RoleApprover)) &&
      negb (bool_decide (role ∈ seen)) && validRoles_from (role :: seen) roles
  end.

Definition validRoles (roles : list Role) : bool :=
  let n := Z.of_nat (List.length roles) in
  negb ((n =? 0) || (3 <? n)) && validRoles_from [] roles.

Definition hasAnyRole (roles expected : list Role) : bool :=
  existsb (fun role => bool_decide (role ∈ expected)) roles.

(** [slices.Sort] and [slices.Compact] on strings. *)
Definition slices_Sort (values : list string) : list string := sort_Slice String.ltb values.

Fixpoint slices_Compact (values : list string) : list string :=
  match values with
  | a :: ((b :: _) as rest) => if a == b then slices_Compact rest else a :: slices_Compact rest
  | _ => values
  end.

Definition withReasons (decision : Decision) (outcome : Outcome) (reasons : list string) : Decision :=
  {| decision with dec_Outcome := outcome; dec_ReasonCodes := slices_Compact (slices_Sort reasons) |}.

(** Marshalling a struct of strings, integers and booleans does not fail. *)
Definition TargetDigest (envelope : Envelope) : Result string :=
  Envelope_Validate envelope;;
  let binding := JObject
    [("action_type", JString (ActionType_string (env_ActionType envelope)));
     ("target", json_target (env_Target envelope)); ("parameters", json_parameters (env_Parameters envelope));
     ("observed_state", json_observed (env_ObservedState envelope))]%string in
  Ok (sha256_hex (Marshal binding)).

Definition approvalBindingValid (approval : Approval) (envelope : Envelope) (targetDigest : string) (now : Time) : bool :=
  ((ap_Decision approval == ApprovalApproved) || (ap_Decision approval == ApprovalRejected)) &&
  (ap_WorkspaceID approval == env_WorkspaceID envelope) && (ap_ActionID approval == env_ActionID envelope) &&
  (ap_PlanHash approval == env_PlanHash envelope) && (ap_PolicyVersion approval == env_PolicyVersion envelope) &&
  (ap_TargetDigest approval == targetDigest) &&
  negb (Before (ap_DecidedAt approval) (zt_instant (env_NotBefore envelope))) &&
  negb (After (ap_DecidedAt approval) now) && Before now (ap_ExpiresAt approval) &&
  negb (After (ap_ExpiresAt approval) (zt_instant (env_ExpiresAt envelope))).

Definition expectedKubernetes (target : KubernetesDeploymentTarget) (state : KubernetesDeploymentObservedState)
    (hpaAbsent pdbChecked quotaChecked : bool) : KubernetesFacts :=
  {| kf_ClusterID := kt_ClusterID target; kf_Namespace := kt_Namespace target; kf_Name := kt_Name target;
     kf_UID := kt_UID target; kf_ResourceVersion := kt_ResourceVersion target; kf_Generation := ks_Generation state;
     kf_Replicas := ks_Replicas state; kf_AvailableReplicas := ks_AvailableReplicas state;
     kf_UpdatedReplicas := ks_UpdatedReplicas state; kf_HPAAbsent := hpaAbsent; kf_PDBChecked := pdbChecked;
     kf_QuotaChecked := quotaChecked |}.

Definition expectedGitOps (target : GitOpsTarget) (parameters : GitOpsRevertParameters) (state : GitOpsObservedState)
    : GitOpsFacts :=
  {| gf_Provider := revert_Provider parameters; gf_RepositoryID := gt_RepositoryID target;
     gf_Application := gt_Application target; gf_Path := gt_Path target;
     gf_BaseCommit := revert_BaseCommit parameters; gf_HeadCommit := revert_HeadCommit parameters;
     gf_RevertCommit := revert_RevertCommit parameters; gf_DiffSHA256 := revert_DiffSHA256 parameters;
     gf_ResultTreeSHA256 := revert_TreeSHA256 parameters; gf_HeadTreeSHA256 := gs_HeadTreeSHA256 state;
     gf_LiveRevision := gs_LiveRevision state; gf_DesiredRevision := gs_DesiredRevision state;
     gf_SyncStatus := gs_SyncStatus state; gf_HealthStatus := gs_HealthStatus state |}.

Definition awxMatches (facts : AWXFacts) (version : string) (target : AWXTarget) (parameters : AWXServiceRestartParameters)
    (state : AWXServiceObservedState) : bool :=
  (version == at_InventorySnapshotSHA256 target) && (xf_InventoryID facts =? at_InventoryID target) &&
  (xf_HostIDs facts == at_HostIDs target) &&
  (xf_InventorySnapshotSHA256 facts == at_InventorySnapshotSHA256 target) &&
  (xf_JobTemplateID facts =? awx_JobTemplateID parameters) &&
  (xf_JobTemplateSnapshotSHA256 facts == at_JobTemplateSnapshotSHA256 target) &&
  (xf_ServiceName facts == awx_ServiceName parameters) && (xf_OSFamily facts == awx_OSFamily parameters) &&
  (xf_ServiceState facts == as_ServiceState state) &&
  (xf_ServiceStateSnapshotSHA256 facts == as_ServiceStateSnapshotSHA256 state).

Definition targetMatchesEnvelope (snapshot : TargetSnapshot) (envelope : Envelope) : bool :=
  match env_ActionType envelope with
  | ActionKubernetesRolloutRestart =>
      match tg_Kubernetes snapshot, tg_GitOps snapshot, tg_AWX snapshot,
            target_KubernetesDeployment (env_Target envelope),
            obs_KubernetesDeployment (env_ObservedState envelope) with
      | Some facts, None, None, Some target, Some state =>
          (tg_TargetVersion snapshot == kt_ResourceVersion target) &&
          (facts == expectedKubernetes target state false false false)
      | _, _, _, _, _ => false
      end
  | ActionKubernetesScale =>
      match tg_Kubernetes snapshot, tg_GitOps snapshot, tg_AWX snapshot,
            target_KubernetesDeployment (env_Target envelope),
            obs_KubernetesDeployment (env_ObservedState envelope), param_KubernetesScale (env_Parameters envelope) with
      | Some facts, None, None, Some target, Some state, Some scale =>
          (tg_TargetVersion snapshot == kt_ResourceVersion target) &&
          (facts == expectedKubernetes target state (scale_HPAAbsent scale) (scale_PDBChecked scale)
                      (scale_QuotaChecked scale))
      | _, _, _, _, _, _ => false
      end
  | ActionAWXServiceRestart =>
      match tg_AWX snapshot, tg_GitOps snapshot, tg_Kubernetes snapshot, target_AWXHosts (env_Target envelope),
            param_AWXServiceRestart (env_Parameters envelope), obs_AWXService (env_ObservedState envelope) with
      | Some facts, None, None, Some target, Some parameters, Some state =>
          awxMatches facts (tg_TargetVersion snapshot) target parameters state
      | _, _, _, _, _, _ => false
      end
  | ActionGitOpsRevert =>
      match tg_GitOps snapshot, tg_Kubernetes snapshot, tg_AWX snapshot,
            target_GitOpsApplication (env_Target envelope), param_GitOpsRevert (env_Parameters envelope),
            obs_GitOpsApplication (env_ObservedState envelope) with
      | Some facts, None, None, Some target, Some parameters, Some state =>
          facts == expectedGitOps target parameters state
      | _, _, _, _, _, _ => false
      end
  | _ => false
  end.

Definition limitsMatchEnvelope (limits : ActionLimitsSnapshot) (envelope : Envelope) : bool :=
  match env_ActionType envelope with
  | ActionKubernetesScale =>
      match param_KubernetesScale (env_Parameters envelope) with
      | None => false
      | Some parameters =>
          (0 <=? lm_MinimumReplicas limits) && (lm_MinimumReplicas limits <=? lm_MaximumReplicas limits) &&
          (scale_Minimum parameters =? lm_MinimumReplicas limits) &&
          (scale_Maximum parameters =? lm_MaximumReplicas limits)
      end
  | ActionAWXServiceRestart =>
      match target_AWXHosts (env_Target envelope) with
      | None => false
      | Some target =>
          (0 <? lm_MaxAWXHosts limits) && (lm_MaxAWXHosts limits <=? MaxAWXHosts) &&
          (Z.of_nat (List.length (at_HostIDs target)) <=? lm_MaxAWXHosts limits)
      end
  | _ =>
      (lm_MinimumReplicas limits =? 0) && (lm_MaximumReplicas limits =? 0) && (lm_MaxAWXHosts limits =? 0)
  end.

(** ** Approvals *)

Record approvalEvaluation := { ae_satisfied : bool; ae_rejected : bool; ae_reasons : list string }.

Definition unsatisfied (reasons : list string) : approvalEvaluation :=
  {| ae_satisfied := false; ae_rejected := false; ae_reasons := reasons |}.

(** The variables of the loop over the approval records. *)
Record ApprovalLoop := { al_valid : gmap string Principal; al_reasons : list string; al_rejected : bool }.

Definition addReason (reason : string) (loop : ApprovalLoop) : ApprovalLoop :=
  let reasons := al_reasons loop in
  {| loop with al_reasons := reasons ++ [reason] |}.

Definition approvalRoles : list Role := [RoleSRE; RoleServiceOwner; RoleApprover].

Definition approvalStep (requester : Principal) (envelope : Envelope) (digest : string) (now : Time)
    (resolve : string -> Result Principal) (approval : Approval) (loop : ApprovalLoop) : ApprovalLoop :=
  if negb (approvalBindingValid approval envelope digest now) then
    if negb (Before now (ap_ExpiresAt approval)) then addReason ReasonApprovalExpired loop
    else addReason ReasonApprovalBindingMismatch loop
  else
    match resolve (ap_SubjectID approval) with
    | Err _ => addReason ReasonIdentityUnavailable loop
    | Ok principal =>
        if negb (pn_Active principal) || (pn_CanonicalID principal == ""%string) then
          addReason ReasonIdentityUnavailable loop
        else if pn_CanonicalID principal == pn_CanonicalID requester then addReason ReasonSeparationOfDuties loop
        else if negb (validRoles (pn_Roles principal)) || negb (hasAnyRole (pn_Roles principal) approvalRoles) then
          addReason ReasonApprovalRoleInvalid loop
        else if ap_Decision approval == ApprovalRejected then {| loop with al_rejected := true |}
        else if ap_Decision approval != ApprovalApproved then addReason ReasonApprovalBindingMismatch loop
        else
          match al_valid loop !! pn_CanonicalID principal with
          | Some _ => addReason ReasonApprovalBindingMismatch loop
          | None =>
              let valid := al_valid loop in
              {| loop with al_valid := <[pn_CanonicalID principal := principal]> valid |}
          end
    end.

Definition initialLoop : ApprovalLoop := {| al_valid := ∅; al_reasons := []; al_rejected := false |}.

(** [n] numbers the records, and so the calls of [Principals] they may need; the
    call for the requester comes first. *)
Fixpoint approvalLoop (requester : Principal) (envelope : Envelope) (digest : string) (now : Time)
    (resolve : nat -> string -> Result Principal) (n : nat) (records : list Approval) (loop : ApprovalLoop) : ApprovalLoop :=
  match records with
  | [] => loop
  | approval :: records =>
      approvalLoop requester envelope digest now resolve (S n) records
        (approvalStep requester envelope digest now (resolve n) approval loop)
  end.

(** Two different people, one with each role. *)
Definition twoPersonRule (valid : gmap string Principal) : bool :=
  existsb (fun '(sreID, principal) =>
      hasAnyRole (pn_Roles principal) [RoleSRE] &&
      existsb (fun '(ownerID, candidate) => (sreID != ownerID) && hasAnyRole (pn_Roles candidate) [RoleServiceOwner])
        (map_to_list valid))
    (map_to_list valid).

Definition approvalsConclusion (actionType : ActionType) (loop : ApprovalLoop) : approvalEvaluation :=
  if al_rejected loop then {| ae_satisfied := false; ae_rejected := true; ae_reasons := al_reasons loop |}
  else {| ae_satisfied := if actionType != ActionGitOpsRevert then 1 <=? Z.of_nat (size (al_valid loop))
                          else twoPersonRule (al_valid loop);
          ae_rejected := false; ae_reasons := al_reasons loop |}.

Definition resolvePrincipal (deps : Dependencies) (envelope : Envelope) (n : nat) (subject : string) : Result Principal :=
  dep_Principals deps n subject (env_WorkspaceID envelope) (target_EnvironmentID (env_Target envelope))
    (target_ServiceID (env_Target envelope)).

Definition evaluateApprovals (deps : Dependencies) (envelope : Envelope) (now : Time) : approvalEvaluation :=
  match TargetDigest envelope with
  | Err _ => unsatisfied [ReasonApprovalBindingMismatch]
  | Ok digest =>
      match dep_Approvals deps (env_WorkspaceID envelope) (env_ActionID envelope) (env_PlanHash envelope) with
      | Err _ => unsatisfied [ReasonApprovalBindingMismatch]
      | Ok records =>
          match resolvePrincipal deps envelope 0 (env_RequestedBy envelope) with
          | Err _ => unsatisfied [ReasonIdentityUnavailable]
          | Ok requester =>
              if negb (pn_Active requester) || (pn_CanonicalID requester == ""%string) then
                unsatisfied [ReasonIdentityUnavailable]
              else
                approvalsConclusion (env_ActionType envelope)
                  (approvalLoop requester envelope digest now (resolvePrincipal deps envelope) 1 records initialLoop)
          end
      end
  end.

(** ** Definitions and engines *)

(** Values of CEL, as far as the engine tells them apart. *)
Inductive CelValue := CelString (s : string) | CelBool (b : bool) | CelOther.

Definition CelProgram := list (string * CelValue) -> Result CelValue.

(** [^[A-Za-z0-9][A-Za-z0-9._/-]{0,119}$] *)
Definition definitionLabelPattern (s : string) : bool :=
  head_tail is_alnum (fun c => is_alnum c || one_of_chars "._/-" c) s && (len s <=? 120).

Definition CR : Ascii.ascii := ascii_of_Z 13.
Definition LF : Ascii.ascii := ascii_of_Z 10.

(** [strings.ReplaceAll(s, "\r\n", "\n")] *)
Fixpoint replaceCRLF (s : string) : string :=
  match s with
  | EmptyString => EmptyString
  | String c rest =>
      match rest with
      | String d rest' =>
          if bool_decide (c = CR) && bool_decide (d = LF) then String LF (replaceCRLF rest') else String c (replaceCRLF rest)
      | EmptyString => String c EmptyString
      end
  end.

Definition normalizeExpression (expression : string) : Result string :=
  let normalized := TrimSpace (replaceCRLF expression) in
  ensure (negb ((normalized == ""%string) || (4096 <? len normalized) ||
                negb (all_chars (fun c => negb (bool_decide (c = CR)) && negb (bool_decide (c = ascii_of_Z 0))) normalized)))
    (errors_New "policy expression must be between 1 and 4096 normalized bytes");;
  Ok normalized.

Definition policyVersion (label expression : string) : string :=
  label +:+ "@sha256:" +:+
    sha256_hex ("aiops-cel-policy.v1" +:+ String (ascii_of_Z 0) EmptyString +:+ expression).

Record Engine := { engine_definition : PolicyDefinition; engine_program : CelProgram; engine_deps : Dependencies }.

Section compile.
Context (compileProgram : string -> Result CelProgram).

Definition NewDefinition (label expression : string) : Result PolicyDefinition :=
  ensure (definitionLabelPattern label) (errors_New "valid policy label is required");;
  normalized ← normalizeExpression expression;
  compileProgram normalized;;
  Ok {| def_Label := label; def_Version := policyVersion label normalized; def_Expression := normalized |}.

(** [dependencies] is [None] when one of the trusted readers is nil. *)
Definition NewEngine (definition : PolicyDefinition) (dependencies : option Dependencies) : Result Engine :=
  expected ← NewDefinition (def_Label definition) (def_Expression definition);
  ensure (def_Version definition == def_Version expected)
    (errors_New "policy version does not match its immutable CEL source");;
  match dependencies with
  | None => Err (errors_New "all trusted policy dependencies are required")
  | Some deps =>
      program ← compileProgram (def_Expression expected);
      Ok {| engine_definition := expected; engine_program := program; engine_deps := deps |}
  end.
End compile.

(** ** Evaluation *)

Section evaluate.
Context (Transform : string -> Result string) (ed25519_Verify : string -> string -> string -> bool).
Context (engine : Engine).

Definition celVariables (stage : Stage) (envelope : Envelope) (target : TargetSnapshot) (risk : RiskSnapshot)
    : list (string * CelValue) :=
  [("action_type", CelString (ActionType_string (env_ActionType envelope)));
   ("stage", CelString (Stage_string stage));
   ("environment", CelString (tg_EnvironmentID target));
   ("service_id", CelString (tg_ServiceID target));
   ("workspace_id", CelString (tg_WorkspaceID target));
   ("risk_level", CelString (rk_Level risk));
   ("connector_id", CelString (tg_ConnectorID target));
   ("credential_permission", CelString (cred_Permission (env_CredentialScope envelope)));
   ("mapping_exact", CelBool (tg_MappingResult target == "EXACT"%string));
   ("whitelisted", CelBool (tg_Whitelisted target))]%string.

Definition deny (decision : Decision) (reason : string) : Decision * option GoError :=
  (withReasons decision OutcomeDeny [reason], None).

(** The last part: the expression, the approvals and the credential's deadline. *)
Definition decide_policy (stage : Stage) (envelope : Envelope) (now : Time) (target : TargetSnapshot)
    (risk : RiskSnapshot) (decision : Decision) : Decision * option GoError :=
  match engine_program engine (celVariables stage envelope target risk) with
  | Err e => (withReasons decision OutcomeDeny [ReasonCELPolicyDenied], Some (Errorf "evaluate CEL policy" e))
  | Ok (CelBool true) =>
      let approvals := evaluateApprovals (engine_deps engine) envelope now in
      if ae_rejected approvals then
        (withReasons decision OutcomeDeny (ae_reasons approvals ++ [ReasonApprovalRejected]), None)
      else if negb (ae_satisfied approvals) then
        (withReasons decision (if stage == StagePlanSubmission then OutcomeRequireApproval else OutcomeDeny)
           (ae_reasons approvals ++ [ReasonApprovalRequired]), None)
      else
        let decision := {| decision with dec_Outcome := OutcomeAllow |} in
        if stage == StageCredentialIssue then
          let credentialExpiry := Add now (cred_TTLSeconds (env_CredentialScope envelope) * Second) in
          let expiresAt := zt_instant (env_ExpiresAt envelope) in
          ({| decision with dec_CredentialExpiresAt :=
                if After credentialExpiry expiresAt then expiresAt else credentialExpiry |}, None)
        else (decision, None)
  | Ok _ => deny decision ReasonCELPolicyDenied
  end.

Definition scopedMatches (scoped : ScopedSwitchSnapshot) (envelope : Envelope) : bool :=
  (sw_WorkspaceID scoped == env_WorkspaceID envelope) &&
  (sw_EnvironmentID scoped == target_EnvironmentID (env_Target envelope)) &&
  (sw_ConnectorID scoped == cred_ConnectorID (env_CredentialScope envelope)) &&
  (sw_ActionType scoped == env_ActionType envelope).

Definition targetMatches (target : TargetSnapshot) (envelope : Envelope) : bool :=
  (tg_WorkspaceID target == env_WorkspaceID envelope) && (tg_ServiceID target == target_ServiceID (env_Target envelope)) &&
  (tg_EnvironmentID target == target_EnvironmentID (env_Target envelope)) &&
  (tg_ConnectorID target == cred_ConnectorID (env_CredentialScope envelope)) &&
  (tg_ActionType target == env_ActionType envelope).

Definition riskMatches (risk : RiskSnapshot) (digest : Result string) (envelope : Envelope) (now : Time) : bool :=
  (rk_Revision risk != ""%string) && fresh now (rk_ObservedAt risk) MaxTargetSnapshotAge &&
  (match digest with Ok targetDigest => rk_TargetDigest risk == targetDigest | Err _ => false end) &&
  (rk_WorkspaceID risk == env_WorkspaceID envelope) && (rk_ActionID risk == env_ActionID envelope) &&
  (rk_PlanHash risk == env_PlanHash envelope) && (rk_PolicyVersion risk == env_PolicyVersion envelope) &&
  (rk_Level risk == risk_Level (env_Risk envelope)) && (rk_ReasonCodes risk == risk_ReasonCodes (env_Risk envelope)).

Definition limitsMatch (limits : ActionLimitsSnapshot) (envelope : Envelope) (now : Time) : bool :=
  (lm_Revision limits != ""%string) && fresh now (lm_ObservedAt limits) MaxTargetSnapshotAge &&
  (lm_WorkspaceID limits == env_WorkspaceID envelope) && (lm_ServiceID limits == target_ServiceID (env_Target envelope)) &&
  (lm_EnvironmentID limits == target_EnvironmentID (env_Target envelope)) &&
  (lm_ActionType limits == env_ActionType envelope) && limitsMatchEnvelope limits envelope.

Definition initialDecision (stage : Stage) (envelope : Envelope) (now : Time) : Decision :=
  {| dec_Outcome := OutcomeDeny; dec_PolicyVersion := def_Version (engine_definition engine); dec_Stage := stage;
     dec_PlanHash := env_PlanHash envelope; dec_ReasonCodes := []; dec_SafetyRevision := ""; dec_TargetRevision := "";
     dec_RiskRevision := ""; dec_LimitsRevision := ""; dec_EvaluatedAt := now; dec_CredentialExpiresAt := 0 |}.

(** Assignments to the decision's fields. *)
Definition withSafetyRevision (revision : string) (decision : Decision) : Decision :=
  {| decision with dec_SafetyRevision := revision |}.
Definition withTargetRevision (revision : string) (decision : Decision) : Decision :=
  {| decision with dec_TargetRevision := revision |}.
Definition withRiskRevision (revision : string) (decision : Decision) : Decision :=
  {| decision with dec_RiskRevision := revision |}.
Definition withLimitsRevision (revision : string) (decision : Decision) : Decision :=
  {| decision with dec_LimitsRevision := revision |}.

(** [err] is what [ctx.Err()] answers. *)
Definition evaluate (err : option GoError) (now : Time) (stage : Stage) (envelope : Envelope)
    : Decision * option GoError :=
  let decision := initialDecision stage envelope now in
  match err with Some e => (decision, Some e) | None =>
  match dep_Global (engine_deps engine) with Err _ => deny decision ReasonSafetyStateUnavailable | Ok global =>
  if gl_Revision global == ""%string then deny decision ReasonSafetyStateUnavailable else
  let decision := withSafetyRevision (gl_Revision global) decision in
  if negb (fresh now (gl_ObservedAt global) MaxSafetySnapshotAge) then deny decision ReasonSafetyStateStale else
  if negb (gl_Enabled global) then deny decision ReasonKillSwitchDisabled else
  if env_PolicyVersion envelope != def_Version (engine_definition engine) then deny decision ReasonInvalidEnvelope else
  match Verify Transform ed25519_Verify envelope (Some (dep_Keys (engine_deps engine))) now with
  | Err _ => deny decision ReasonInvalidEnvelope
  | Ok _ =>
  match dep_Scoped (engine_deps engine) envelope with Err _ => deny decision ReasonSafetyStateUnavailable | Ok scoped =>
  if sw_Revision scoped == ""%string then deny decision ReasonSafetyStateUnavailable else
  let decision := withSafetyRevision (gl_Revision global +:+ "/" +:+ sw_Revision scoped) decision in
  if negb (fresh now (sw_ObservedAt scoped) MaxSafetySnapshotAge) then deny decision ReasonSafetyStateStale else
  if negb (scopedMatches scoped envelope) then deny decision ReasonKillSwitchDisabled else
  if negb (sw_EnvironmentEnabled scoped) || negb (sw_ConnectorEnabled scoped) || negb (sw_ActionEnabled scoped) then
    deny decision ReasonKillSwitchDisabled else
  match dep_Targets (engine_deps engine) envelope with Err _ => deny decision ReasonTargetStateDrift | Ok target =>
  if tg_Revision target == ""%string then deny decision ReasonTargetStateDrift else
  let decision := withTargetRevision (tg_Revision target) decision in
  if negb (fresh now (tg_ObservedAt target) MaxTargetSnapshotAge) then deny decision ReasonTargetStateStale else
  if negb (targetMatches target envelope) then deny decision ReasonTargetStateDrift else
  if tg_MappingResult target != "EXACT"%string then deny decision ReasonMappingNotExact else
  if negb (tg_Whitelisted target) then deny decision ReasonTargetNotWhitelisted else
  if negb (targetMatchesEnvelope target envelope) then deny decision ReasonTargetStateDrift else
  let targetDigest := TargetDigest envelope in
  match dep_Risk (engine_deps engine) envelope with Err _ => deny decision ReasonRiskAssessmentDrift | Ok risk =>
  if negb (riskMatches risk targetDigest envelope now) then deny decision ReasonRiskAssessmentDrift else
  let decision := withRiskRevision (rk_Revision risk) decision in
  match dep_Limits (engine_deps engine) envelope with Err _ => deny decision ReasonActionLimitsDrift | Ok limits =>
  if negb (limitsMatch limits envelope now) then deny decision ReasonActionLimitsDrift else
  let decision := withLimitsRevision (lm_Revision limits) decision in
  decide_policy stage envelope now target risk decision
  end end end end end end end.

Definition EvaluatePlanSubmission (err : option GoError) (now : Time) (envelope : Envelope) :=
  evaluate err now StagePlanSubmission envelope.
Definition EvaluateCredentialIssue (err : option GoError) (now : Time) (envelope : Envelope) :=
  evaluate err now StageCredentialIssue envelope.
Definition EvaluatePreExecution (err : option GoError) (now : Time) (envelope : Envelope) :=
  evaluate err now StagePreExecution envelope.
End evaluate.
