(* ===== verification/PolicyTheorems.v ===== *)
(** * The policy engine: what an allowed action went through

    An [ALLOW] is the conjunction of every guard of the evaluation, and the approvals
    it rests on come from other people than the requester. *)

From S2P Require Import Prelude.
From S2P Require Import Sha256.
From S2P Require Import GoText.
From S2P Require Import GoStrings.
From S2P Require Import GoJson.
From S2P Require Import GoSort.
From S2P Require Import Envelope.
From S2P Require Import ExecutionLease.
From S2P Require Import ActionQueue.
From S2P Require Import Examples.
From S2P Require Import Policy.

Open Scope Z_scope.

(** ** A policy, its readers and a sealed envelope *)

Module PolicyDemo.

Definition compile : string -> Result CelProgram := fun _ => Ok (fun _ => Ok (CelBool true)).
Definition definition : PolicyDefinition :=
  {| def_Label := "restarts"; def_Version := policyVersion "restarts" "true"; def_Expression := "true" |}.

Definition plan : Envelope :=
  let envelope := demo_envelope "action-1" "key-1" "api" in
  {| envelope with env_PolicyVersion := def_Version definition |}.

(** The plan as its requester sealed it. *)
Definition envelope : Envelope :=
  Result_default plan (Seal demo_Transform plan "operator-1" (Some demo_signer)).

Definition now : Time := demo_now.
Definition digest : string := Result_default ""%string (TargetDigest envelope).

Definition requester : Principal := {| pn_CanonicalID := "person-1"; pn_Active := true; pn_Roles := [RoleSRE] |}.
Definition approver : Principal := {| pn_CanonicalID := "person-2"; pn_Active := true; pn_Roles := [RoleServiceOwner] |}.

Definition approval : Approval :=
  {| ap_SubjectID := "oidc:approver"; ap_Decision := ApprovalApproved; ap_WorkspaceID := "workspace-1";
     ap_ActionID := "action-1"; ap_PlanHash := env_PlanHash envelope; ap_PolicyVersion := def_Version definition;
     ap_TargetDigest := digest; ap_DecidedAt := now; ap_ExpiresAt := now + Minute |}.

Definition deps : Dependencies := {|
  dep_Keys := demo_resolver;
  dep_Approvals := fun _ _ _ => Ok [approval];
  dep_Principals := fun _ subject _ _ _ =>
    if subject == "operator-1"%string then Ok requester
    else if subject == "oidc:approver"%string then Ok approver else Err (ForeignError "unknown subject");
  dep_Global := Ok {| gl_Enabled := true; gl_Revision := "g1"; gl_ObservedAt := now |};
  dep_Scoped := fun _ => Ok
    {| sw_WorkspaceID := "workspace-1"; sw_EnvironmentID := "staging"; sw_ConnectorID := "kubernetes-1";
       sw_ActionType := ActionKubernetesRolloutRestart; sw_EnvironmentEnabled := true; sw_ConnectorEnabled := true;
       sw_ActionEnabled := true; sw_Revision := "s1"; sw_ObservedAt := now |};
  dep_Targets := fun _ => Ok
    {| tg_WorkspaceID := "workspace-1"; tg_ServiceID := "service-1"; tg_EnvironmentID := "staging";
       tg_ConnectorID := "kubernetes-1"; tg_ActionType := ActionKubernetesRolloutRestart; tg_MappingResult := "EXACT";
       tg_Whitelisted := true; tg_TargetVersion := "42";
       tg_Kubernetes := Some {| kf_ClusterID := "cluster-1"; kf_Namespace := "payments"; kf_Name := "api";
         kf_UID := "uid-1"; kf_ResourceVersion := "42"; kf_Generation := 7; kf_Replicas := 3;
         kf_AvailableReplicas := 2; kf_UpdatedReplicas := 3; kf_HPAAbsent := false; kf_PDBChecked := false;
         kf_QuotaChecked := false |};
       tg_GitOps := None; tg_AWX := None; tg_Revision := "t1"; tg_ObservedAt := now |};
  dep_Risk := fun _ => Ok
    {| rk_WorkspaceID := "workspace-1"; rk_ActionID := "action-1"; rk_PlanHash := env_PlanHash envelope;
       rk_TargetDigest := digest; rk_PolicyVersion := def_Version definition; rk_Level := "LOW";
       rk_ReasonCodes := ["single-deployment"; "staging"]%string; rk_Revision := "r1"; rk_ObservedAt := now |};
  dep_Limits := fun _ => Ok
    {| lm_WorkspaceID := "workspace-1"; lm_ServiceID := "service-1"; lm_EnvironmentID := "staging";
       lm_ActionType := ActionKubernetesRolloutRestart; lm_MinimumReplicas := 0; lm_MaximumReplicas := 0;
       lm_MaxAWXHosts := 0; lm_Revision := "l1"; lm_ObservedAt := now |}
|}.

Definition engine : Engine :=
  {| engine_definition := definition; engine_program := fun _ => Ok (CelBool true); engine_deps := deps |}.

Example engine_made : match NewEngine compile definition (Some deps) with Ok _ => true | Err _ => false end = true.
Proof. vm_compute. reflexivity. Qed.

#[global] Opaque envelope digest.

End PolicyDemo.

(** ** Approvals, declaratively *)

(** An approval is about this envelope: it names its workspace, action, plan,
    policy and target, was decided in the envelope's window and not in the future,
    and has not lapsed. *)
Record binds (approval : Approval) (envelope : Envelope) (digest : string) (now : Time) : Prop := {
  bd_decision : ap_Decision approval = ApprovalApproved \/ ap_Decision approval = ApprovalRejected;
  bd_workspace : ap_WorkspaceID approval = env_WorkspaceID envelope;
  bd_action : ap_ActionID approval = env_ActionID envelope;
  bd_plan : ap_PlanHash approval = env_PlanHash envelope;
  bd_policy : ap_PolicyVersion approval = env_PolicyVersion envelope;
  bd_target : ap_TargetDigest approval = digest;
  bd_decided : zt_instant (env_NotBefore envelope) <= ap_DecidedAt approval <= now;
  bd_expires : now < ap_ExpiresAt approval <= zt_instant (env_ExpiresAt envelope)
}.

Lemma binds_iff approval envelope digest now :
  approvalBindingValid approval envelope digest now = true <-> binds approval envelope digest now.
Proof.
  unfold approvalBindingValid, Before, After. rewrite !andb_true_iff, orb_true_iff, !eqb_true, !negb_true_iff, Z.ltb_lt, !Z.ltb_ge.
  split; [intros; destruct_and!; constructor; (done || lia)|intros []; split_and!; (done || lia)].
Qed.

(** Roles that entitle to decide: known ones, each once, and at least one. *)
Definition entitled (roles : list Role) : Prop := roles <> [] /\ NoDup roles /\ Forall (fun role => role ∈ approvalRoles) roles.

Lemma validRoles_from_iff seen roles :
  validRoles_from seen roles = true <->
  Forall (fun role => role ∈ approvalRoles) roles /\ NoDup roles /\ Forall (fun role => role ∉ seen) roles.
Proof.
  revert seen. induction roles as [|role roles IH]; intros seen; simpl; [by repeat constructor|].
  rewrite !andb_true_iff, IH, !Forall_cons, NoDup_cons, !negb_true_iff, bool_decide_eq_false.
  assert (((role != RoleSRE) && (role != RoleServiceOwner) && (role != RoleApprover)) = false <-> role ∈ approvalRoles) as ->.
  { unfold approvalRoles. by destruct role; split; try done; intros; set_solver. }
  assert (Forall (fun r => r ∉ role :: seen) roles <-> (role ∉ roles) /\ Forall (fun r => r ∉ seen) roles) as ->; [|naive_solver].
  rewrite !Forall_forall. set_solver.
Qed.

Lemma entitled_iff roles : validRoles roles && hasAnyRole roles approvalRoles = true <-> entitled roles.
Proof.
  unfold validRoles, entitled. rewrite !andb_true_iff, validRoles_from_iff, negb_true_iff, orb_false_iff, Z.eqb_neq, Z.ltb_ge. split.
  - intros ([[Hn _] (Hk & Hnd & _)] & _). split_and!; [by intros ->|done..].
  - intros (Hne & Hnd & Hk). rewrite Forall_forall in Hk. assert (length roles <= 3)%nat as Hlen.
    { change 3%nat with (length approvalRoles). apply submseteq_length, NoDup_submseteq; [done|]. exact Hk. }
    split_and!; try done; try lia.
    + destruct roles; [done|simpl; lia].
    + by apply Forall_forall.
    + apply Forall_forall. set_solver.
    + unfold hasAnyRole. apply existsb_exists. destruct roles as [|role roles]; [done|]. exists role. split; [by left|].
      apply bool_decide_eq_true, Hk. by left.
Qed.

(** The principal behind an approval may decide about the envelope. *)
Definition may_decide (requester : Principal) (envelope : Envelope) (digest : string) (now : Time)
    (resolve : string -> Result Principal) (approval : Approval) (principal : Principal) : Prop :=
  binds approval envelope digest now /\ resolve (ap_SubjectID approval) = Ok principal /\
  pn_Active principal = true /\ pn_CanonicalID principal <> ""%string /\
  pn_CanonicalID principal <> pn_CanonicalID requester /\ entitled (pn_Roles principal).

Section loop.
Context (requester : Principal) (envelope : Envelope) (digest : string) (now : Time).
Context (resolve : nat -> string -> Result Principal).

(** Record [n + i] of the list decided as [decision]. *)
Definition decided (n : nat) (records : list Approval) (decision : ApprovalDecision) (principal : Principal) : Prop :=
  exists i approval, records !! i = Some approval /\ ap_Decision approval = decision /\
    may_decide requester envelope digest now (resolve (n + i)) approval principal.

Lemma decided_cons n approval records decision principal :
  decided n (approval :: records) decision principal <->
  (ap_Decision approval = decision /\ may_decide requester envelope digest now (resolve n) approval principal) \/
  decided (S n) records decision principal.
Proof.
  unfold decided. split.
  - intros ([|i] & a & Hi & Hd & Hm); simpl in Hi; simplify_eq; [left; by rewrite Nat.add_0_r in Hm|right].
    exists i, a. by rewrite Nat.add_succ_r in Hm.
  - intros [[Hd Hm]|(i & a & Hi & Hd & Hm)]; [exists 0%nat, approval; by rewrite Nat.add_0_r|].
    exists (S i), a. by rewrite Nat.add_succ_r.
Qed.

(** The record is refused: its principal may not decide. *)
Ltac refused := guards; right; split; [intros p' (_ & [= <-] & Hrest); destruct_and!; guards; congruence|done].

(** One step of the loop. *)
Lemma approvalStep_spec res approval loop :
  let loop' := approvalStep requester envelope digest now res approval loop in
  (exists principal, may_decide requester envelope digest now res approval principal /\
    ((ap_Decision approval = ApprovalRejected /\ al_rejected loop' = true /\ al_valid loop' = al_valid loop) \/
     (ap_Decision approval = ApprovalApproved /\ al_rejected loop' = al_rejected loop /\
      al_valid loop' = (if al_valid loop !! pn_CanonicalID principal is Some _ then al_valid loop
                        else <[pn_CanonicalID principal := principal]> (al_valid loop))))) \/
  ((forall principal, ~ may_decide requester envelope digest now res approval principal) /\
   al_rejected loop' = al_rejected loop /\ al_valid loop' = al_valid loop).
Proof.
  cbv zeta. unfold approvalStep, may_decide. setoid_rewrite <- binds_iff. setoid_rewrite <- entitled_iff.
  destruct (approvalBindingValid approval envelope digest now) eqn:Hb; cbn [negb].
  2: { right. split; [naive_solver|]. by destruct (Before _ _). }
  destruct (res (ap_SubjectID approval)) as [p|e] eqn:Hr; [|right; naive_solver].
  destruct (pn_Active p) eqn:Ha; cbn [negb orb]; [|refused].
  destruct (pn_CanonicalID p == ""%string) eqn:Hc; [refused|].
  destruct (pn_CanonicalID p == pn_CanonicalID requester) eqn:Hq; [refused|].
  destruct (validRoles (pn_Roles p)) eqn:Hv; cbn [negb orb]; [|refused].
  destruct (hasAnyRole (pn_Roles p) approvalRoles) eqn:Hh; cbn [negb orb]; [|refused].
  guards. left. exists p. split; [by rewrite Hv, Hh|].
  unfold approvalBindingValid in Hb. guards.
  match goal with H : _ || _ = true |- _ => apply orb_true_iff in H as [Hd|Hd] end; guards; rewrite Hd; cbn.
  - right. destruct (al_valid loop !! pn_CanonicalID p); done.
  - by left.
Qed.

Record loop_result (n : nat) (records : list Approval) (loop loop' : ApprovalLoop) : Prop := {
  lr_rejected : al_rejected loop' = true <->
    al_rejected loop = true \/ exists p, decided n records ApprovalRejected p;
  lr_sound : forall id p, al_valid loop' !! id = Some p ->
    al_valid loop !! id = Some p \/ (pn_CanonicalID p = id /\ decided n records ApprovalApproved p);
  lr_kept : forall id p, al_valid loop !! id = Some p -> al_valid loop' !! id = Some p;
  lr_complete : forall p, decided n records ApprovalApproved p -> is_Some (al_valid loop' !! pn_CanonicalID p)
}.

Lemma may_decide_unique res approval p p' :
  may_decide requester envelope digest now res approval p ->
  may_decide requester envelope digest now res approval p' -> p' = p.
Proof. intros (_ & H & _) (_ & H' & _). congruence. Qed.

Lemma approvalStep_result n approval loop :
  loop_result n [approval] loop (approvalStep requester envelope digest now (resolve n) approval loop).
Proof.
  assert (forall d p, decided n [approval] d p <->
    ap_Decision approval = d /\ may_decide requester envelope digest now (resolve n) approval p) as Hd.
  { intros d p. rewrite decided_cons. split; [intros [?|(i & a & Hi & _)]; done|by left]. }
  destruct (approvalStep_spec (resolve n) approval loop) as
    [(p & Hm & [(Hdec & Hr & Hv)|(Hdec & Hr & Hv)])|(Hno & Hr & Hv)].
  - split; rewrite ?Hr, ?Hv; try setoid_rewrite Hd; [|by left|done|intros q [Hq _]; congruence].
    split; [|done]. intros _. right. by exists p.
  - split; rewrite ?Hr, ?Hv; try setoid_rewrite Hd.
    + split; [by left|]. intros [?|(q & Hq & _)]; [done|congruence].
    + intros id q. destruct (al_valid loop !! pn_CanonicalID p) eqn:Hp; [by left|].
      intros [[<- <-]|[_ Hq]]%lookup_insert_Some; [by right|by left].
    + intros id q Hq. destruct (al_valid loop !! pn_CanonicalID p) eqn:Hp; [done|].
      rewrite lookup_insert_ne; [done|]. intros Heq. rewrite Heq in Hp. congruence.
    + intros q [_ Hq]. rewrite (may_decide_unique _ _ _ _ Hm Hq).
      destruct (al_valid loop !! pn_CanonicalID p) eqn:Hp; [by rewrite Hp|by rewrite lookup_insert_eq].
  - split; rewrite ?Hr, ?Hv; try setoid_rewrite Hd; [|by left|done|intros q [_ Hq]; by apply Hno in Hq].
    split; [by left|]. intros [?|(q & _ & Hq)]; [done|by apply Hno in Hq].
Qed.

Lemma approvalLoop_result n records loop :
  loop_result n records loop (approvalLoop requester envelope digest now resolve n records loop).
Proof.
  revert n loop. induction records as [|approval records IH]; intros n loop.
  { simpl. split; [|by left|done|]; [split; [by left|intros [?|(p & i & a & Hi & _)]; done]|].
    by intros p (i & a & Hi & _). }
  simpl. destruct (approvalStep_result n approval loop) as [Hr1 Hs1 Hk1 Hc1].
  destruct (IH (S n) (approvalStep requester envelope digest now (resolve n) approval loop)) as [Hr2 Hs2 Hk2 Hc2].
  assert (forall d p, decided n (approval :: records) d p <-> decided n [approval] d p \/ decided (S n) records d p) as Hd.
  { intros d p. rewrite (decided_cons n approval records), (decided_cons n approval []).
    split; [tauto|]. intros [[?|(i & a & Hi & _)]|?]; [by left|done|by right]. }
  split; try setoid_rewrite Hd.
  - rewrite Hr2, Hr1. split.
    + intros [[?|(p & Hp)]|(p & Hp)]; [by left|right; exists p; by left|right; exists p; by right].
    + intros [?|(p & [Hp|Hp])]; [by left; left|left; right; by exists p|right; by exists p].
  - intros id p Hp%Hs2. destruct Hp as [Hp%Hs1|[? ?]]; [|by right; split; [|right]].
    destruct Hp as [?|[? ?]]; [by left|by right; split; [|left]].
  - auto.
  - intros p [Hp%Hc1|Hp%Hc2]; [|done]. destruct Hp as [q Hq%Hk2]. by exists q.
Qed.
End loop.

(** ** The four-eyes rule *)

(** Nobody who may decide rejected; another person approved, and for a GitOps
    revert two other people did, an SRE and a service owner. *)
Record four_eyes (deps : Dependencies) (envelope : Envelope) (now : Time) (digest : string) (records : list Approval)
    (requester : Principal) : Prop := {
  fe_unopposed : forall p,
    ~ decided requester envelope digest now (resolvePrincipal deps envelope) 1 records ApprovalRejected p;
  fe_approved : env_ActionType envelope <> ActionGitOpsRevert -> exists p,
    decided requester envelope digest now (resolvePrincipal deps envelope) 1 records ApprovalApproved p;
  fe_two : env_ActionType envelope = ActionGitOpsRevert -> exists sre owner,
    decided requester envelope digest now (resolvePrincipal deps envelope) 1 records ApprovalApproved sre /\
    decided requester envelope digest now (resolvePrincipal deps envelope) 1 records ApprovalApproved owner /\
    pn_CanonicalID sre <> pn_CanonicalID owner /\ RoleSRE ∈ pn_Roles sre /\ RoleServiceOwner ∈ pn_Roles owner
}.

(** A canonical identity has one principal during the evaluation. *)
Definition canonical (resolve : nat -> string -> Result Principal) : Prop :=
  forall n m subject subject' p p', resolve n subject = Ok p -> resolve m subject' = Ok p' ->
    pn_CanonicalID p = pn_CanonicalID p' -> p = p'.

Lemma hasAnyRole_one roles role : hasAnyRole roles [role] = true <-> role ∈ roles.
Proof.
  unfold hasAnyRole. rewrite existsb_exists. split.
  - intros (r & Hin & Hr). apply bool_decide_eq_true, list_elem_of_singleton in Hr as ->. by apply list_elem_of_In.
  - intros Hin. exists role. split; [by apply list_elem_of_In|]. apply bool_decide_eq_true. by apply list_elem_of_singleton.
Qed.

Lemma twoPersonRule_true valid :
  twoPersonRule valid = true <-> exists sreID sre ownerID owner,
    valid !! sreID = Some sre /\ valid !! ownerID = Some owner /\ sreID <> ownerID /\
    RoleSRE ∈ pn_Roles sre /\ RoleServiceOwner ∈ pn_Roles owner.
Proof.
  unfold twoPersonRule. rewrite existsb_map_true. split.
  - intros (i & sre & Hi & [Hsre Hex]%andb_true_iff). apply existsb_map_true in Hex as (j & owner & Hj & H).
    apply andb_true_iff in H as [Hne Howner]. rewrite hasAnyRole_one in Hsre, Howner. guards. by exists i, sre, j, owner.
  - intros (i & sre & j & owner & Hi & Hj & Hne & Hsre & Howner). exists i, sre. split; [done|].
    apply andb_true_iff. split; [by apply hasAnyRole_one|]. apply existsb_map_true. exists j, owner. split; [done|].
    apply andb_true_iff. split; [by apply negb_true_iff, eqb_false|by apply hasAnyRole_one].
Qed.

(** The evaluation of approvals, once the inputs are there. *)
Lemma evaluateApprovals_known deps envelope now digest records requester :
  TargetDigest envelope = Ok digest ->
  dep_Approvals deps (env_WorkspaceID envelope) (env_ActionID envelope) (env_PlanHash envelope) = Ok records ->
  resolvePrincipal deps envelope 0 (env_RequestedBy envelope) = Ok requester ->
  pn_Active requester = true -> pn_CanonicalID requester <> ""%string ->
  evaluateApprovals deps envelope now = approvalsConclusion (env_ActionType envelope)
    (approvalLoop requester envelope digest now (resolvePrincipal deps envelope) 1 records initialLoop).
Proof.
  intros Hd Hr Hq Ha Hc. unfold evaluateApprovals. rewrite Hd, Hr, Hq, Ha.
  destruct (pn_CanonicalID requester == ""%string) eqn:He; guards; done.
Qed.

(** And what they were, if the approvals satisfied. *)
Lemma satisfied_known deps envelope now :
  ae_satisfied (evaluateApprovals deps envelope now) = true ->
  exists digest records requester,
    TargetDigest envelope = Ok digest /\
    dep_Approvals deps (env_WorkspaceID envelope) (env_ActionID envelope) (env_PlanHash envelope) = Ok records /\
    resolvePrincipal deps envelope 0 (env_RequestedBy envelope) = Ok requester /\
    pn_Active requester = true /\ pn_CanonicalID requester <> ""%string.
Proof.
  unfold evaluateApprovals. destruct (TargetDigest envelope) as [digest|] eqn:Hd; [|done].
  destruct (dep_Approvals _ _ _ _) as [records|] eqn:Hr; [|done].
  destruct (resolvePrincipal deps envelope 0 _) as [requester|] eqn:Hq; [|done].
  destruct (pn_Active requester) eqn:Ha; [|done]. destruct (pn_CanonicalID requester == ""%string) eqn:Hc; [done|].
  guards. intros _. by exists digest, records, requester.
Qed.

Section conclusion.
Context (deps : Dependencies) (envelope : Envelope) (now : Time) (digest : string) (records : list Approval).
Context (requester : Principal).
Abbreviation loop :=
  (approvalLoop requester envelope digest now (resolvePrincipal deps envelope) 1 records initialLoop).
Abbreviation approved :=
  (decided requester envelope digest now (resolvePrincipal deps envelope) 1 records ApprovalApproved).

Lemma loop_facts :
  (al_rejected loop = true <->
    exists p, decided requester envelope digest now (resolvePrincipal deps envelope) 1 records ApprovalRejected p) /\
  (forall id p, al_valid loop !! id = Some p -> pn_CanonicalID p = id /\ approved p) /\
  (forall p, approved p -> is_Some (al_valid loop !! pn_CanonicalID p)).
Proof.
  destruct (approvalLoop_result requester envelope digest now (resolvePrincipal deps envelope) 1 records initialLoop)
    as [Hr Hs _ Hc]. split_and!; [|intros id p Hp|done].
  - rewrite Hr. split; [intros [?|?]; done|by right].
  - destruct (Hs id p Hp) as [H|H]; [simpl in H; by rewrite lookup_empty in H|done].
Qed.

Lemma conclusion_sound :
  ae_satisfied (approvalsConclusion (env_ActionType envelope) loop) = true ->
  four_eyes deps envelope now digest records requester.
Proof.
  destruct loop_facts as (Hr & Hs & _). unfold approvalsConclusion.
  destruct (al_rejected loop) eqn:Hrej; [done|]. intros Hsat. cbn [ae_satisfied] in Hsat. split.
  - intros p Hp. assert (false = true) by (apply Hr; by exists p). done.
  - intros Ht. destruct (env_ActionType envelope == ActionGitOpsRevert) eqn:He; guards; [done|].
    cbn [negb] in Hsat. guards. assert (al_valid loop <> ∅) as Hne by (intros Hem; rewrite Hem, map_size_empty in Hsat; lia).
    apply map_choose in Hne as (id & p & Hp). exists p. by apply (Hs id p).
  - intros Ht. rewrite Ht, eqb_same in Hsat. cbn [negb] in Hsat.
    apply twoPersonRule_true in Hsat as (i & sre & j & owner & Hi & Hj & Hne & Hsre & Howner).
    destruct (Hs i sre Hi) as [<- ?], (Hs j owner Hj) as [<- ?]. by exists sre, owner.
Qed.

Lemma approved_stored p :
  canonical (resolvePrincipal deps envelope) -> approved p -> al_valid loop !! pn_CanonicalID p = Some p.
Proof.
  intros Hcan Hp. destruct loop_facts as (_ & Hs & Hc). destruct (Hc p Hp) as [q Hq]. rewrite Hq. f_equal.
  destruct (Hs _ _ Hq) as [Hid (i & a & _ & _ & _ & Hres & _)]. destruct Hp as (i' & a' & _ & _ & _ & Hres' & _).
  by eapply Hcan.
Qed.

Lemma conclusion_complete :
  canonical (resolvePrincipal deps envelope) -> four_eyes deps envelope now digest records requester ->
  ae_satisfied (approvalsConclusion (env_ActionType envelope) loop) = true.
Proof.
  intros Hcan [Hun Hone Htwo]. destruct loop_facts as (Hr & _ & _). unfold approvalsConclusion.
  destruct (al_rejected loop) eqn:Hrej; [destruct (proj1 Hr eq_refl) as [p Hp]; by destruct (Hun p)|].
  cbn [ae_satisfied]. destruct (env_ActionType envelope == ActionGitOpsRevert) eqn:Ht; guards; cbn [negb].
  - apply twoPersonRule_true. destruct (Htwo Ht) as (sre & owner & Hsre & Howner & Hne & ? & ?).
    exists (pn_CanonicalID sre), sre, (pn_CanonicalID owner), owner. split_and!; try done; by apply approved_stored.
  - destruct (Hone Ht) as [p Hp]. apply approved_stored in Hp; [|done]. apply Z.leb_le.
    assert (size (al_valid loop) <> 0%nat) as Hsz; [|lia]. rewrite map_size_empty_iff. intros Hem.
    by rewrite Hem, lookup_empty in Hp.
Qed.
End conclusion.

(** Approval is a four-eyes rule, and exactly that: approvals satisfy only if
    nobody entitled rejected and somebody other than the requester approved, for a
    GitOps revert two different others, an SRE and a service owner; and when each
    canonical identity resolves to one principal, that is also enough, whatever the
    order and duplicates of the records. *)
Theorem approval_is_four_eyes deps envelope now digest records requester :
  TargetDigest envelope = Ok digest ->
  dep_Approvals deps (env_WorkspaceID envelope) (env_ActionID envelope) (env_PlanHash envelope) = Ok records ->
  resolvePrincipal deps envelope 0 (env_RequestedBy envelope) = Ok requester ->
  pn_Active requester = true -> pn_CanonicalID requester <> ""%string ->
  (ae_satisfied (evaluateApprovals deps envelope now) = true -> four_eyes deps envelope now digest records requester) /\
  (canonical (resolvePrincipal deps envelope) -> four_eyes deps envelope now digest records requester ->
   ae_satisfied (evaluateApprovals deps envelope now) = true) /\
  (ae_rejected (evaluateApprovals deps envelope now) = true <->
   exists p, decided requester envelope digest now (resolvePrincipal deps envelope) 1 records ApprovalRejected p).
Proof.
  intros Hd Hr Hq Ha Hc. rewrite (evaluateApprovals_known _ _ _ _ _ _ Hd Hr Hq Ha Hc).
  split_and!; [apply conclusion_sound|apply conclusion_complete|].
  destruct (loop_facts deps envelope now digest records requester) as (Hrej & _). rewrite <- Hrej.
  unfold approvalsConclusion. by destruct (al_rejected _).
Qed.

Lemma approval_is_four_eyes_witness :
  four_eyes PolicyDemo.deps PolicyDemo.envelope PolicyDemo.now PolicyDemo.digest [PolicyDemo.approval]
    PolicyDemo.requester.
Proof.
  refine (proj1 (approval_is_four_eyes PolicyDemo.deps PolicyDemo.envelope PolicyDemo.now PolicyDemo.digest
    [PolicyDemo.approval] PolicyDemo.requester _ _ _ _ _) _).
  - vm_compute. reflexivity.
  - reflexivity.
  - vm_compute. reflexivity.
  - reflexivity.
  - discriminate.
  - vm_compute. reflexivity.
Defined.

(** ** Allowed actions *)

(** Everything the engine looked at, and found in order. *)
Record checks (Transform : string -> Result string) (ed25519_Verify : string -> string -> string -> bool)
    (engine : Engine) (now : Time) (stage : Stage) (envelope : Envelope) (global : GlobalSwitchSnapshot)
    (scoped : ScopedSwitchSnapshot) (target : TargetSnapshot) (risk : RiskSnapshot) (limits : ActionLimitsSnapshot) : Prop := {
  ck_global : dep_Global (engine_deps engine) = Ok global /\ gl_Enabled global = true /\
    fresh now (gl_ObservedAt global) MaxSafetySnapshotAge = true;
  ck_version : env_PolicyVersion envelope = def_Version (engine_definition engine);
  ck_verified : Verify Transform ed25519_Verify envelope (Some (dep_Keys (engine_deps engine))) now = Ok tt;
  ck_scoped : dep_Scoped (engine_deps engine) envelope = Ok scoped /\ scopedMatches scoped envelope = true /\
    sw_EnvironmentEnabled scoped = true /\ sw_ConnectorEnabled scoped = true /\ sw_ActionEnabled scoped = true /\
    fresh now (sw_ObservedAt scoped) MaxSafetySnapshotAge = true;
  ck_target : dep_Targets (engine_deps engine) envelope = Ok target /\ targetMatches target envelope = true /\
    tg_MappingResult target = "EXACT"%string /\ tg_Whitelisted target = true /\
    targetMatchesEnvelope target envelope = true /\ fresh now (tg_ObservedAt target) MaxTargetSnapshotAge = true;
  ck_risk : dep_Risk (engine_deps engine) envelope = Ok risk /\
    riskMatches risk (TargetDigest envelope) envelope now = true;
  ck_limits : dep_Limits (engine_deps engine) envelope = Ok limits /\ limitsMatch limits envelope now = true;
  ck_program : engine_program engine (celVariables stage envelope target risk) = Ok (CelBool true);
  ck_revisions : gl_Revision global <> ""%string /\ sw_Revision scoped <> ""%string /\ tg_Revision target <> ""%string;
  ck_approvals : ae_rejected (evaluateApprovals (engine_deps engine) envelope now) = false /\
    ae_satisfied (evaluateApprovals (engine_deps engine) envelope now) = true
}.

(** The decision that records it. *)
Definition allowed_decision (engine : Engine) (now : Time) (stage : Stage) (envelope : Envelope)
    (global : GlobalSwitchSnapshot) (scoped : ScopedSwitchSnapshot) (target : TargetSnapshot) (risk : RiskSnapshot)
    (limits : ActionLimitsSnapshot) : Decision :=
  {| dec_Outcome := OutcomeAllow; dec_PolicyVersion := env_PolicyVersion envelope; dec_Stage := stage;
     dec_PlanHash := env_PlanHash envelope; dec_ReasonCodes := [];
     dec_SafetyRevision := gl_Revision global +:+ "/" +:+ sw_Revision scoped; dec_TargetRevision := tg_Revision target;
     dec_RiskRevision := rk_Revision risk; dec_LimitsRevision := lm_Revision limits; dec_EvaluatedAt := now;
     dec_CredentialExpiresAt :=
       if stage == StageCredentialIssue then
         Z.min (now + cred_TTLSeconds (env_CredentialScope envelope) * Second) (zt_instant (env_ExpiresAt envelope))
       else 0 |}.

Section allowed.
Context (Transform : string -> Result string) (ed25519_Verify : string -> string -> string -> bool) (engine : Engine).

Lemma decide_policy_allow stage envelope now target risk decision d e :
  decide_policy engine stage envelope now target risk decision = (d, e) -> dec_Outcome d = OutcomeAllow ->
  e = None /\ engine_program engine (celVariables stage envelope target risk) = Ok (CelBool true) /\
  ae_rejected (evaluateApprovals (engine_deps engine) envelope now) = false /\
  ae_satisfied (evaluateApprovals (engine_deps engine) envelope now) = true /\
  d = {| decision with dec_Outcome := OutcomeAllow;
         dec_CredentialExpiresAt :=
           if stage == StageCredentialIssue then
             Z.min (now + cred_TTLSeconds (env_CredentialScope envelope) * Second) (zt_instant (env_ExpiresAt envelope))
           else dec_CredentialExpiresAt decision |}.
Proof.
  unfold decide_policy, deny. destruct (engine_program _ _) as [[s|[]|]|err] eqn:Hp; try (intros [= <- <-]; done).
  destruct (ae_rejected _) eqn:Hr; [intros [= <- <-]; done|].
  destruct (ae_satisfied _) eqn:Hs; cbn [negb]; [|destruct (stage == StagePlanSubmission); intros [= <- <-]; done].
  destruct (stage == StageCredentialIssue); intros [= <- <-] _; split_and!; try done.
  unfold After, Add. f_equal. case_match; guards; lia.
Qed.
End allowed.

(** An early return of the evaluation. *)
Ltac denied H := unfold deny in H; injection H as <- <-; discriminate.

(** What an ALLOW says about the evaluation. *)
Lemma evaluate_allowed Transform ed25519_Verify engine err now stage envelope d e :
  evaluate Transform ed25519_Verify engine err now stage envelope = (d, e) -> dec_Outcome d = OutcomeAllow ->
  err = None /\ e = None /\ exists global scoped target risk limits,
    checks Transform ed25519_Verify engine now stage envelope global scoped target risk limits /\
    d = allowed_decision engine now stage envelope global scoped target risk limits.
Proof.
  unfold evaluate. intros Heval Hallow. destruct err; [by injection Heval as <- <-|].
  destruct (dep_Global _) as [global|] eqn:Hglobal; [|denied Heval].
  destruct (gl_Revision global == ""%string) eqn:Hgr; [denied Heval|].
  destruct (fresh now (gl_ObservedAt global) _) eqn:Hgf; cbn [negb] in Heval; [|denied Heval].
  destruct (gl_Enabled global) eqn:Hge; cbn [negb] in Heval; [|denied Heval].
  destruct (env_PolicyVersion envelope == _) eqn:Hversion; cbn [negb] in Heval; [|denied Heval].
  destruct (Verify _ _ _ _ _) as [[]|] eqn:Hverify; [|denied Heval].
  destruct (dep_Scoped _ _) as [scoped|] eqn:Hscoped; [|denied Heval].
  destruct (sw_Revision scoped == ""%string) eqn:Hsr; [denied Heval|].
  destruct (fresh now (sw_ObservedAt scoped) _) eqn:Hsf; cbn [negb] in Heval; [|denied Heval].
  destruct (scopedMatches scoped envelope) eqn:Hsm; cbn [negb] in Heval; [|denied Heval].
  destruct (sw_EnvironmentEnabled scoped) eqn:Hs1; cbn [negb orb] in Heval; [|denied Heval].
  destruct (sw_ConnectorEnabled scoped) eqn:Hs2; cbn [negb orb] in Heval; [|denied Heval].
  destruct (sw_ActionEnabled scoped) eqn:Hs3; cbn [negb orb] in Heval; [|denied Heval].
  destruct (dep_Targets _ _) as [target|] eqn:Htarget; [|denied Heval].
  destruct (tg_Revision target == ""%string) eqn:Htr; [denied Heval|].
  destruct (fresh now (tg_ObservedAt target) _) eqn:Htf; cbn [negb] in Heval; [|denied Heval].
  destruct (targetMatches target envelope) eqn:Htm; cbn [negb] in Heval; [|denied Heval].
  destruct (tg_MappingResult target == _) eqn:Hmap; cbn [negb] in Heval; [|denied Heval].
  destruct (tg_Whitelisted target) eqn:Hwl; cbn [negb] in Heval; [|denied Heval].
  destruct (targetMatchesEnvelope target envelope) eqn:Hte; cbn [negb] in Heval; [|denied Heval].
  destruct (dep_Risk _ _) as [risk|] eqn:Hrisk; [|denied Heval].
  destruct (riskMatches _ _ _ _) eqn:Hrm; cbn [negb] in Heval; [|denied Heval].
  destruct (dep_Limits _ _) as [limits|] eqn:Hlimits; [|denied Heval].
  destruct (limitsMatch _ _ _) eqn:Hlm; cbn [negb] in Heval; [|denied Heval].
  apply decide_policy_allow in Heval as (-> & Hprogram & Hrej & Hsat & ->); [|done].
  guards. split_and!; [done|done|]. exists global, scoped, target, risk, limits. split; [by split|].
  unfold allowed_decision. rewrite Hversion. reflexivity.
Qed.
