(* ===== verification/PolicyVetting.v ===== *)
(** * What the policy engine lets through

    A specification of the actions that may be allowed that does not mention the
    checks of the engine: what the switches, the target, the risk assessment, the
    limits and the people involved must say about an envelope ([vetted]).  The
    engine allows exactly the vetted ones. *)

From S2P Require Import Prelude.
From S2P Require Import GoText.
From S2P Require Import GoJson.
From S2P Require Import Envelope.
From S2P Require Import ExecutionLease.
From S2P Require Import ActionQueue.
From S2P Require Import Examples.
From S2P Require Import Policy.
From S2P Require Import PolicyTheorems.

Open Scope Z_scope.

(** ** The specification *)

(** A snapshot is there, not from the future beyond the clock skew, and not older than [age]. *)
Definition recent (now observedAt : Time) (age : Duration) : Prop :=
  observedAt <> 0 /\ observedAt <= now + maxClockSkew /\ now - observedAt <= age.

(** Nothing about the target has changed since the plan was made. *)
Inductive as_planned (snapshot : TargetSnapshot) (envelope : Envelope) : Prop :=
| planned_restart target state :
    env_ActionType envelope = ActionKubernetesRolloutRestart ->
    target_KubernetesDeployment (env_Target envelope) = Some target ->
    obs_KubernetesDeployment (env_ObservedState envelope) = Some state ->
    tg_TargetVersion snapshot = kt_ResourceVersion target ->
    tg_Kubernetes snapshot = Some {|
      kf_ClusterID := kt_ClusterID target; kf_Namespace := kt_Namespace target; kf_Name := kt_Name target;
      kf_UID := kt_UID target; kf_ResourceVersion := kt_ResourceVersion target; kf_Generation := ks_Generation state;
      kf_Replicas := ks_Replicas state; kf_AvailableReplicas := ks_AvailableReplicas state;
      kf_UpdatedReplicas := ks_UpdatedReplicas state; kf_HPAAbsent := false; kf_PDBChecked := false; kf_QuotaChecked := false |} ->
    tg_GitOps snapshot = None -> tg_AWX snapshot = None -> as_planned snapshot envelope
| planned_scale target state scale :
    env_ActionType envelope = ActionKubernetesScale ->
    target_KubernetesDeployment (env_Target envelope) = Some target ->
    obs_KubernetesDeployment (env_ObservedState envelope) = Some state ->
    param_KubernetesScale (env_Parameters envelope) = Some scale ->
    tg_TargetVersion snapshot = kt_ResourceVersion target ->
    tg_Kubernetes snapshot = Some {|
      kf_ClusterID := kt_ClusterID target; kf_Namespace := kt_Namespace target; kf_Name := kt_Name target;
      kf_UID := kt_UID target; kf_ResourceVersion := kt_ResourceVersion target; kf_Generation := ks_Generation state;
      kf_Replicas := ks_Replicas state; kf_AvailableReplicas := ks_AvailableReplicas state;
      kf_UpdatedReplicas := ks_UpdatedReplicas state; kf_HPAAbsent := scale_HPAAbsent scale;
      kf_PDBChecked := scale_PDBChecked scale; kf_QuotaChecked := scale_QuotaChecked scale |} ->
    tg_GitOps snapshot = None -> tg_AWX snapshot = None -> as_planned snapshot envelope
| planned_service_restart target parameters state :
    env_ActionType envelope = ActionAWXServiceRestart ->
    target_AWXHosts (env_Target envelope) = Some target ->
    param_AWXServiceRestart (env_Parameters envelope) = Some parameters ->
    obs_AWXService (env_ObservedState envelope) = Some state ->
    tg_TargetVersion snapshot = at_InventorySnapshotSHA256 target ->
    tg_AWX snapshot = Some {|
      xf_InventoryID := at_InventoryID target; xf_HostIDs := at_HostIDs target;
      xf_InventorySnapshotSHA256 := at_InventorySnapshotSHA256 target; xf_JobTemplateID := awx_JobTemplateID parameters;
      xf_JobTemplateSnapshotSHA256 := at_JobTemplateSnapshotSHA256 target; xf_ServiceName := awx_ServiceName parameters;
      xf_OSFamily := awx_OSFamily parameters; xf_ServiceState := as_ServiceState state;
      xf_ServiceStateSnapshotSHA256 := as_ServiceStateSnapshotSHA256 state |} ->
    tg_Kubernetes snapshot = None -> tg_GitOps snapshot = None -> as_planned snapshot envelope
| planned_revert target parameters state :
    env_ActionType envelope = ActionGitOpsRevert ->
    target_GitOpsApplication (env_Target envelope) = Some target ->
    param_GitOpsRevert (env_Parameters envelope) = Some parameters ->
    obs_GitOpsApplication (env_ObservedState envelope) = Some state ->
    tg_GitOps snapshot = Some {|
      gf_Provider := revert_Provider parameters; gf_RepositoryID := gt_RepositoryID target;
      gf_Application := gt_Application target; gf_Path := gt_Path target;
      gf_BaseCommit := revert_BaseCommit parameters; gf_HeadCommit := revert_HeadCommit parameters;
      gf_RevertCommit := revert_RevertCommit parameters; gf_DiffSHA256 := revert_DiffSHA256 parameters;
      gf_ResultTreeSHA256 := revert_TreeSHA256 parameters; gf_HeadTreeSHA256 := gs_HeadTreeSHA256 state;
      gf_LiveRevision := gs_LiveRevision state; gf_DesiredRevision := gs_DesiredRevision state;
      gf_SyncStatus := gs_SyncStatus state; gf_HealthStatus := gs_HealthStatus state |} ->
    tg_Kubernetes snapshot = None -> tg_AWX snapshot = None -> as_planned snapshot envelope.

(** The limits allow as much as the envelope asks for. *)
Inductive within_limits (limits : ActionLimitsSnapshot) (envelope : Envelope) : Prop :=
| limits_scale parameters :
    env_ActionType envelope = ActionKubernetesScale -> param_KubernetesScale (env_Parameters envelope) = Some parameters ->
    0 <= lm_MinimumReplicas limits <= lm_MaximumReplicas limits ->
    scale_Minimum parameters = lm_MinimumReplicas limits -> scale_Maximum parameters = lm_MaximumReplicas limits ->
    within_limits limits envelope
| limits_hosts target :
    env_ActionType envelope = ActionAWXServiceRestart -> target_AWXHosts (env_Target envelope) = Some target ->
    Z.of_nat (length (at_HostIDs target)) <= lm_MaxAWXHosts limits -> 0 < lm_MaxAWXHosts limits <= MaxAWXHosts ->
    within_limits limits envelope
| limits_none :
    env_ActionType envelope <> ActionKubernetesScale -> env_ActionType envelope <> ActionAWXServiceRestart ->
    lm_MinimumReplicas limits = 0 -> lm_MaximumReplicas limits = 0 -> lm_MaxAWXHosts limits = 0 ->
    within_limits limits envelope.

(** Everything that must hold of an action that is let through. *)
Record vetted (Transform : string -> Result string) (ed25519_Verify : string -> string -> string -> bool)
    (engine : Engine) (now : Time) (stage : Stage) (envelope : Envelope) (global : GlobalSwitchSnapshot)
    (scoped : ScopedSwitchSnapshot) (target : TargetSnapshot) (risk : RiskSnapshot) (limits : ActionLimitsSnapshot) : Prop := {
  vt_answers : dep_Global (engine_deps engine) = Ok global /\ dep_Scoped (engine_deps engine) envelope = Ok scoped /\
    dep_Targets (engine_deps engine) envelope = Ok target /\ dep_Risk (engine_deps engine) envelope = Ok risk /\
    dep_Limits (engine_deps engine) envelope = Ok limits;
  vt_revisions : gl_Revision global <> ""%string /\ sw_Revision scoped <> ""%string /\ tg_Revision target <> ""%string /\
    rk_Revision risk <> ""%string /\ lm_Revision limits <> ""%string;
  vt_recent : recent now (gl_ObservedAt global) (5 * Second) /\ recent now (sw_ObservedAt scoped) (5 * Second) /\
    recent now (tg_ObservedAt target) (15 * Second) /\ recent now (rk_ObservedAt risk) (15 * Second) /\
    recent now (lm_ObservedAt limits) (15 * Second);
  vt_envelope : env_PolicyVersion envelope = def_Version (engine_definition engine) /\
    Verify Transform ed25519_Verify envelope (Some (dep_Keys (engine_deps engine))) now = Ok tt;
  vt_switches : gl_Enabled global = true /\ sw_EnvironmentEnabled scoped = true /\ sw_ConnectorEnabled scoped = true /\
    sw_ActionEnabled scoped = true;
  vt_scope : sw_WorkspaceID scoped = env_WorkspaceID envelope /\
    sw_EnvironmentID scoped = target_EnvironmentID (env_Target envelope) /\
    sw_ConnectorID scoped = cred_ConnectorID (env_CredentialScope envelope) /\ sw_ActionType scoped = env_ActionType envelope;
  vt_target : tg_WorkspaceID target = env_WorkspaceID envelope /\ tg_ServiceID target = target_ServiceID (env_Target envelope) /\
    tg_EnvironmentID target = target_EnvironmentID (env_Target envelope) /\
    tg_ConnectorID target = cred_ConnectorID (env_CredentialScope envelope) /\ tg_ActionType target = env_ActionType envelope /\
    tg_MappingResult target = "EXACT"%string /\ tg_Whitelisted target = true;
  vt_planned : as_planned target envelope;
  vt_risk : TargetDigest envelope = Ok (rk_TargetDigest risk) /\ rk_WorkspaceID risk = env_WorkspaceID envelope /\
    rk_ActionID risk = env_ActionID envelope /\ rk_PlanHash risk = env_PlanHash envelope /\
    rk_PolicyVersion risk = env_PolicyVersion envelope /\ rk_Level risk = risk_Level (env_Risk envelope) /\
    rk_ReasonCodes risk = risk_ReasonCodes (env_Risk envelope);
  vt_limits : lm_WorkspaceID limits = env_WorkspaceID envelope /\ lm_ServiceID limits = target_ServiceID (env_Target envelope) /\
    lm_EnvironmentID limits = target_EnvironmentID (env_Target envelope) /\ lm_ActionType limits = env_ActionType envelope /\
    within_limits limits envelope;
  vt_program : engine_program engine (celVariables stage envelope target risk) = Ok (CelBool true);
  vt_people : exists records requester,
    dep_Approvals (engine_deps engine) (env_WorkspaceID envelope) (env_ActionID envelope) (env_PlanHash envelope) = Ok records /\
    resolvePrincipal (engine_deps engine) envelope 0 (env_RequestedBy envelope) = Ok requester /\
    pn_Active requester = true /\ pn_CanonicalID requester <> ""%string /\
    four_eyes (engine_deps engine) envelope now (rk_TargetDigest risk) records requester
}.

(** ** The checks of the engine *)

Lemma fresh_iff now observedAt age : age < MaxInt64 -> MinInt64 <= age ->
  fresh now observedAt age = true <-> recent now observedAt age.
Proof.
  intros Ha Hb. unfold fresh, recent, IsZero, After, Add, Sub. rewrite andb_true_iff, negb_true_iff, orb_false_iff, Z.leb_le, Z.eqb_neq, Z.ltb_ge.
  assert (Z.max MinInt64 (Z.min MaxInt64 (now - observedAt)) <= age <-> now - observedAt <= age) as -> by lia. tauto.
Qed.

Lemma fresh_safety now observedAt : fresh now observedAt MaxSafetySnapshotAge = true <-> recent now observedAt (5 * Second).
Proof. apply fresh_iff; vm_compute; done. Qed.

Lemma fresh_target now observedAt : fresh now observedAt MaxTargetSnapshotAge = true <-> recent now observedAt (15 * Second).
Proof. apply fresh_iff; vm_compute; done. Qed.

Lemma planned_iff snapshot envelope : targetMatchesEnvelope snapshot envelope = true <-> as_planned snapshot envelope.
Proof.
  unfold targetMatchesEnvelope. split.
  - intros Hm. destruct (env_ActionType envelope) eqn:Ht; try done; repeat (case_match; try done); guards; subst.
    + by eapply planned_restart.
    + by eapply planned_scale.
    + by eapply planned_revert.
    + unfold awxMatches in Hm. guards. eapply planned_service_restart; try done.
      match goal with H : tg_AWX _ = Some ?facts |- _ => rewrite H; destruct facts end. simpl in *. by subst.
  - intros [target state Ht -> -> -> -> -> ->|target state scale Ht -> -> -> -> -> -> ->
           |target parameters state Ht -> -> -> Hv -> -> ->|target parameters state Ht -> -> -> -> -> ->]; rewrite Ht.
    + by rewrite !eqb_same.
    + by rewrite !eqb_same.
    + unfold awxMatches. simpl. by rewrite Hv, !eqb_same, !Z.eqb_refl.
    + by rewrite eqb_same.
Qed.

Lemma limits_iff limits envelope : limitsMatchEnvelope limits envelope = true <-> within_limits limits envelope.
Proof.
  unfold limitsMatchEnvelope. split.
  - intros Hm. destruct (env_ActionType envelope) eqn:Ht; try (guards; apply limits_none; by rewrite ?Ht);
      (case_match; [|done]); guards; [eapply limits_scale|eapply limits_hosts]; eauto; lia.
  - intros [parameters Ht -> Hr Hmin Hmax|target Ht -> Hl Hm|Hs Ha H1 H2 H3].
    + rewrite Ht, !andb_true_iff, !Z.leb_le, !Z.eqb_eq. lia.
    + rewrite Ht, !andb_true_iff, Z.ltb_lt, !Z.leb_le. lia.
    + rewrite H1, H2, H3. by destruct (env_ActionType envelope).
Qed.

Section vetting.
Context (Transform : string -> Result string) (ed25519_Verify : string -> string -> string -> bool) (engine : Engine)
  (now : Time) (stage : Stage) (envelope : Envelope) (global : GlobalSwitchSnapshot) (scoped : ScopedSwitchSnapshot)
  (target : TargetSnapshot) (risk : RiskSnapshot) (limits : ActionLimitsSnapshot).
Abbreviation Checks := (checks Transform ed25519_Verify engine now stage envelope global scoped target risk limits).
Abbreviation Vetted := (vetted Transform ed25519_Verify engine now stage envelope global scoped target risk limits).

Lemma checks_vetted : Checks -> Vetted.
Proof.
  intros [(Hg & Hge & Hgf) Hv Hver (Hs & Hsm & ? & ? & ? & Hsf) (Ht & Htm & ? & ? & Hte & Htf) [Hr Hrm] [Hl Hlm] Hp (? & ? & ?) [_ Hsat]].
  unfold scopedMatches in Hsm. unfold targetMatches in Htm. unfold riskMatches in Hrm. unfold limitsMatch in Hlm.
  destruct (TargetDigest envelope) as [digest|e] eqn:Hd; [|guards; done]. guards.
  rewrite fresh_safety in Hgf, Hsf. rewrite fresh_target in *. rewrite limits_iff in *. rewrite planned_iff in Hte.
  constructor; try done; try by split_and!.
  - rewrite Hd. split_and!; try done. congruence.
  - destruct (satisfied_known _ _ _ Hsat) as (digest' & records & requester & Hd' & Hrec & Hreq & Hact & Hid).
    exists records, requester. split_and!; try done. rewrite (evaluateApprovals_known _ _ _ _ _ _ Hd' Hrec Hreq Hact Hid) in Hsat.
    apply conclusion_sound in Hsat. congruence.
Qed.

Lemma vetted_checks : canonical (resolvePrincipal (engine_deps engine) envelope) -> Vetted -> Checks.
Proof.
  intros Hcan [(Hg & Hs & Ht & Hr & Hl) (? & ? & ? & ? & ?) (F1 & F2 & F3 & F4 & F5) [Hv Hver] (? & ? & ? & ?) (S1 & S2 & S3 & S4)
    (T1 & T2 & T3 & T4 & T5 & ? & ?) Hpl (R1 & R2 & R3 & R4 & R5 & R6 & R7) (L1 & L2 & L3 & L4 & L5) Hp
    (records & requester & Hrec & Hreq & Hact & Hid & Hfour)].
  rewrite <- fresh_safety in F1, F2. rewrite <- fresh_target in F3, F4, F5. rewrite <- planned_iff in Hpl. rewrite <- limits_iff in L5.
  pose proof (evaluateApprovals_known _ _ now _ _ _ R1 Hrec Hreq Hact Hid) as Hev.
  pose proof (conclusion_complete _ _ _ _ _ _ Hcan Hfour) as Hsat. rewrite <- Hev in Hsat.
  constructor; try done; try by split_and!.
  - unfold scopedMatches. rewrite S1, S2, S3, S4, !eqb_same. by split_and!.
  - unfold targetMatches. rewrite T1, T2, T3, T4, T5, !eqb_same. by split_and!.
  - unfold riskMatches. rewrite R1, R2, R3, R4, R5, R6, R7, F4, !eqb_same, (proj2 (eqb_false _ _)) by done. by split.
  - unfold limitsMatch. rewrite L1, L2, L3, L4, L5, F5, !eqb_same, (proj2 (eqb_false _ _)) by done. by split.
  - split; [|done]. rewrite Hev in Hsat |- *. revert Hsat. unfold approvalsConclusion. by destruct (al_rejected _).
Qed.

(** The guards of the evaluation, all passed. *)
Lemma checks_allow : Checks ->
  evaluate Transform ed25519_Verify engine None now stage envelope =
    (allowed_decision engine now stage envelope global scoped target risk limits, None).
Proof.
  intros [(Hg & Hge & Hgf) Hv Hver (Hs & Hsm & Hs1 & Hs2 & Hs3 & Hsf) (Ht & Htm & Hmap & Hwl & Hte & Htf) [Hr Hrm] [Hl Hlm] Hp
    (Hr1 & Hr2 & Hr3) [Hrej Hsat]].
  unfold evaluate. rewrite Hg, (proj2 (eqb_false _ _) Hr1), Hgf, Hge, Hv, eqb_same, Hver, Hs, (proj2 (eqb_false _ _) Hr2), Hsf, Hsm,
    Hs1, Hs2, Hs3, Ht, (proj2 (eqb_false _ _) Hr3), Htf, Htm, Hmap, eqb_same, Hwl, Hte, Hr, Hrm, Hl, Hlm.
  cbn [negb orb]. unfold decide_policy. rewrite Hp, Hrej, Hsat. cbn [negb]. unfold allowed_decision.
  destruct (stage == StageCredentialIssue); cbn; rewrite Hv; [|done].
  do 2 f_equal. unfold After, Add. case_match; guards; lia.
Qed.
End vetting.

(** C31. The engine lets through exactly the vetted actions.  An [ALLOW] comes without
    an error and only when the switches, the target, the risk assessment, the limits, the
    policy expression and the people involved say what [vetted] asks for, all recent; and
    when each canonical identity resolves to one principal, every vetted action is
    allowed.  The decision records the revisions of the snapshots that were looked at, the
    plan they are bound to, and for a credential the end of its life. *)
Theorem policy_allows_exactly_the_vetted Transform ed25519_Verify engine now stage envelope :
  (forall err d e,
     evaluate Transform ed25519_Verify engine err now stage envelope = (d, e) -> dec_Outcome d = OutcomeAllow ->
     err = None /\ e = None /\ exists global scoped target risk limits,
       vetted Transform ed25519_Verify engine now stage envelope global scoped target risk limits /\
       d = allowed_decision engine now stage envelope global scoped target risk limits) /\
  (canonical (resolvePrincipal (engine_deps engine) envelope) ->
   forall global scoped target risk limits,
     vetted Transform ed25519_Verify engine now stage envelope global scoped target risk limits ->
     evaluate Transform ed25519_Verify engine None now stage envelope =
       (allowed_decision engine now stage envelope global scoped target risk limits, None)).
Proof.
  split.
  - intros err d e Heval Hallow.
    destruct (evaluate_allowed _ _ _ _ _ _ _ _ _ Heval Hallow) as (-> & -> & global & scoped & target & risk & limits & Hc & Hd).
    split_and!; [done..|]. exists global, scoped, target, risk, limits. split; [by apply checks_vetted|done].
  - intros Hcan global scoped target risk limits Hv. by apply checks_allow, vetted_checks.
Qed.

Lemma policy_allows_exactly_the_vetted_witness :
  exists d, dec_Outcome d = OutcomeAllow /\ exists global scoped target risk limits,
    vetted demo_Transform demo_Verify PolicyDemo.engine PolicyDemo.now StageCredentialIssue PolicyDemo.envelope
      global scoped target risk limits.
Proof.
  destruct (evaluate demo_Transform demo_Verify PolicyDemo.engine None PolicyDemo.now StageCredentialIssue
    PolicyDemo.envelope) as [d e] eqn:Heval.
  assert (dec_Outcome (evaluate demo_Transform demo_Verify PolicyDemo.engine None PolicyDemo.now StageCredentialIssue
    PolicyDemo.envelope).1 = OutcomeAllow) as Hallow by (vm_compute; reflexivity).
  rewrite Heval in Hallow. cbn [fst] in Hallow. exists d. split; [exact Hallow|].
  destruct (proj1 (policy_allows_exactly_the_vetted demo_Transform demo_Verify PolicyDemo.engine PolicyDemo.now
    StageCredentialIssue PolicyDemo.envelope) None d e Heval Hallow)
    as (_ & _ & global & scoped & target & risk & limits & Hv & _).
  exists global, scoped, target, risk, limits. exact Hv.
Defined.
