(* ===== verification/Service.v ===== *)
(** * The write execution service

    Models internal/execution/service.go: submitting an action, and running the next
    one from claim to finalization, with the heartbeat session that supervises it.

    Everything the service calls is an interface, and what goes on outside it is an
    [Environment]: a state of its own [W] and, per interface method, the answer and the
    next state.  Every call is recorded as an [Event] with its request and its answer.

    [RunNext] runs beside a heartbeat goroutine and, once it was entered, the goroutine of the
    executor, and under contexts that may be cancelled at any time.  The executor is called by
    its goroutine at some time after the entry signal, and may still run when the main thread has
    gone on.  Each main-thread operation first yields: the environment chooses a list of
    steps of the other parties ([EnvStep]), so a theorem over all environments is a
    theorem over all interleavings.  The steps of the goroutine follow
    [checkpoint]; [beatMu] keeps it out of the sections that hold the lock. *)

From S2P Require Import Prelude.
From S2P Require Import Sha256.
From S2P Require Import GoText.
From S2P Require Import GoStrings.
From S2P Require Import GoJson.
From S2P Require Import Credential.
From S2P Require Import DurableHandles.
From S2P Require Import ExecutionLease.
From S2P Require Import Envelope.
From S2P Require Import ActionQueue.
From S2P Require Import Policy.

Open Scope Z_scope.

(** ** Constants and errors *)

Definition MaxEnvironmentSnapshotAge : Duration := 15 * Second.
Definition MaxSafetySnapshotAge : Duration := 5 * Second.
Definition MaxPreExecutionDecisionAge : Duration := 5 * Second.
Definition maximumClockSkew : Duration := Second.
Definition maximumLease : Duration := 30 * Minute.
Definition maximumFinalize : Duration := 30 * Second.
(** internal/credential/sensitive_value.go *)
Definition MaxSensitiveValueSize : Z := Z.shiftl 64 10.

Definition ErrEnvironmentUnavailable := errors_New "execution.ErrEnvironmentUnavailable".
Definition ErrEnvironmentDrift := errors_New "execution.ErrEnvironmentDrift".
Definition ErrEnvironmentNotAllowed := errors_New "execution.ErrEnvironmentNotAllowed".
Definition ErrClaimsDisabled := errors_New "execution.ErrClaimsDisabled".
Definition ErrCredentialDenied := errors_New "execution.ErrCredentialDenied".
Definition ErrPreExecutionDenied := errors_New "execution.ErrPreExecutionDenied".
Definition ErrExecutionFailed := errors_New "execution.ErrExecutionFailed".
Definition ErrExecutionUncertain := errors_New "execution.ErrExecutionUncertain".
Definition ErrServiceClock := errors_New "execution clock returned zero time".
Definition context_Canceled := errors_New "context.Canceled".
Definition context_DeadlineExceeded := errors_New "context.DeadlineExceeded".

(** ** Data *)

Record EnvironmentSnapshot := {
  es_WorkspaceID : string; es_EnvironmentID : string; es_Production : bool; es_Revision : string;
  es_ObservedAt : Time
}.

Inductive SafetyPhase := SafetyPhaseClaim | SafetyPhaseStart | SafetyPhaseOther (s : string).

#[export] Instance SafetyPhase_eq_dec : EqDecision SafetyPhase.
Proof. solve_decision. Defined.

(** The [ActionType] of a safety request or snapshot is left empty in the claim phase. *)
Definition ActionType_zero : ActionType := ActionTypeOther "".

Record SafetyRequest := {
  sr_Phase : SafetyPhase; sr_Pool : Pool; sr_RunnerID : string; sr_WorkspaceID : string;
  sr_EnvironmentID : string; sr_ConnectorID : string; sr_ActionType : ActionType
}.

Record ClaimSafetySnapshot := {
  cs_Enabled : bool; cs_Pool : Pool; cs_RunnerID : string; cs_WorkspaceID : string;
  cs_EnvironmentID : string; cs_ConnectorID : string; cs_ActionType : ActionType; cs_Revision : string;
  cs_ObservedAt : Time
}.

Record CommandIdentity := {
  ci_ActionID : string; ci_WorkspaceID : string; ci_IncidentID : string; ci_ServiceID : string;
  ci_EnvironmentID : string; ci_TraceID : string
}.

(** The four command types, each for its own executor interface. *)
Inductive Command :=
| KubernetesRolloutRestartCommand (identity : CommandIdentity) (target : KubernetesDeploymentTarget)
    (parameters : KubernetesRolloutRestartParameters) (observed : KubernetesDeploymentObservedState)
    (preconditions : Preconditions) (verification : VerificationPlan)
| KubernetesScaleCommand (identity : CommandIdentity) (target : KubernetesDeploymentTarget)
    (parameters : KubernetesScaleParameters) (observed : KubernetesDeploymentObservedState)
    (preconditions : Preconditions) (verification : VerificationPlan)
| GitOpsRevertCommand (identity : CommandIdentity) (target : GitOpsTarget)
    (parameters : GitOpsRevertParameters) (observed : GitOpsObservedState)
    (preconditions : Preconditions) (verification : VerificationPlan)
| AWXServiceRestartCommand (identity : CommandIdentity) (target : AWXTarget)
    (parameters : AWXServiceRestartParameters) (observed : AWXServiceObservedState)
    (preconditions : Preconditions) (verification : VerificationPlan).

Record Options := {
  opt_RunnerID : string; opt_LeaseDuration : Duration; opt_HeartbeatInterval : Duration;
  opt_FinalizeTimeout : Duration
}.

Record Service := {
  svc_runnerID : string; svc_leaseDuration : Duration; svc_heartbeatInterval : Duration;
  svc_finalizeTimeout : Duration
}.

(** [NewService] for a reading of the clock; [complete] says that no dependency is nil. *)
Definition NewService (complete : bool) (options : Options) (clock : Time) : Result Service :=
  ensure complete (errors_New "all execution trust and typed executor dependencies are required");;
  ensure (negb (negb (validIdentifier (opt_RunnerID options) 256) ||
                (opt_LeaseDuration options <? minimumActionLease) || (maximumLease <? opt_LeaseDuration options)))
    (errors_New "enabled write runner registration with exact scope bindings and bounded lease duration is required");;
  let finalizeTimeout := if opt_FinalizeTimeout options =? 0 then 5 * Second else opt_FinalizeTimeout options in
  ensure (negb ((finalizeTimeout <? 0) || (maximumFinalize <? finalizeTimeout)))
    (errors_New "finalize timeout must be at most 30 seconds");;
  let third := Z.quot (opt_LeaseDuration options) 3 in
  let heartbeatInterval := if opt_HeartbeatInterval options =? 0 then third else opt_HeartbeatInterval options in
  ensure (negb ((heartbeatInterval <=? 0) || (third <? heartbeatInterval)))
    (errors_New "heartbeat interval must be positive and at most one third of the lease duration");;
  ensure (negb (IsZero clock)) ErrServiceClock;;
  mret {| svc_runnerID := opt_RunnerID options; svc_leaseDuration := opt_LeaseDuration options;
          svc_heartbeatInterval := heartbeatInterval; svc_finalizeTimeout := finalizeTimeout |}.

(** ** Pure helpers *)

Definition fresh (now observedAt : Time) (maximumAge : Duration) : bool :=
  negb (IsZero observedAt) && negb (After observedAt (Add now maximumClockSkew)) && (Sub now observedAt <=? maximumAge).

Definition queueReason (code : string) : ActionQueueReason :=
  {| reason_Code := code;
     reason_DetailHash := sha256_hex ("aiops-action-queue-reason-detail.v1" +:+ NUL +:+ code) |}.

(** The identity a target is locked by: its kind and its JSON encoding. *)
Definition targetIdentity (envelope : Envelope) : option (string * Json) :=
  let scope := [("WorkspaceID", JString (env_WorkspaceID envelope));
                ("EnvironmentID", JString (target_EnvironmentID (env_Target envelope)))] in
  match env_ActionType envelope with
  | ActionKubernetesRolloutRestart | ActionKubernetesScale =>
      target ← target_KubernetesDeployment (env_Target envelope);
      Some ("k8s-deployment"%string,
            JObject (scope ++ [("ClusterID", JString (kt_ClusterID target)); ("Namespace", JString (kt_Namespace target));
                               ("Name", JString (kt_Name target)); ("UID", JString (kt_UID target))]))
  | ActionGitOpsRevert =>
      target ← target_GitOpsApplication (env_Target envelope);
      Some ("gitops-application-path"%string,
            JObject (scope ++ [("RepositoryID", JString (gt_RepositoryID target));
                               ("Application", JString (gt_Application target)); ("Path", JString (gt_Path target))]))
  | ActionAWXServiceRestart =>
      target ← target_AWXHosts (env_Target envelope);
      Some ("awx-inventory"%string, JObject (scope ++ [("InventoryID", JInt (at_InventoryID target))]))
  | ActionTypeOther _ => None
  end.

Definition deriveTargetKey (envelope : Envelope) : Result string :=
  Envelope_Validate envelope;;
  match targetIdentity envelope with
  | Some (kind, identity) =>
      mret (kind +:+ ":sha256:" +:+
            sha256_hex ("aiops-target-lock.v1" +:+ NUL +:+ kind +:+ NUL +:+ Marshal identity))
  | None => Err (errors_New "unsupported action type %q")
  end.

Definition classifyResult (result : ExecutorResult) (executorErr : option GoError) : Status * ExecutorResult :=
  let uncertain code :=
    {| result_Outcome := ExecutorUncertain; result_Code := code; result_Verification := VerificationUnknown;
       result_Changed := false; result_ExternalOperationRefHash := "" |} in
  match executorErr with
  | Some _ => (StatusUncertain, uncertain "EXECUTOR_OUTCOME_UNKNOWN"%string)
  | None =>
      if negb (validExecutorResult result) then (StatusUncertain, uncertain "INVALID_EXECUTOR_RESULT"%string)
      else
        match result_Outcome result with
        | ExecutorSucceeded => (StatusSucceeded, result)
        | ExecutorFailed => (StatusFailed, result)
        | _ => (StatusUncertain, result)
        end
  end.

(** The deadline of [ctx] is [contextDeadline]. *)
Definition boundedExecutionDeadline (contextDeadline : option Time) (envelope : Envelope)
    (credentialExpiresAt now : Time) : Result Time :=
  let earlier deadline candidate := if Before candidate deadline then candidate else deadline in
  let deadline := Add now (verify_TimeoutSeconds (env_Verification envelope) * Second) in
  let deadline := earlier deadline (zt_instant (env_ExpiresAt envelope)) in
  let deadline := earlier deadline credentialExpiresAt in
  let deadline := match contextDeadline with Some candidate => earlier deadline candidate | None => deadline end in
  ensure (After deadline now) ErrPreExecutionDenied;;
  mret deadline.

Definition mappedExecutionDeadline (deadline logicalObservedAt localObservedAt : Time) : option Time :=
  if IsZero deadline || IsZero logicalObservedAt || IsZero localObservedAt then None
  else
    let remaining := Sub deadline logicalObservedAt in
    if remaining <=? 0 then None else Some (Add localObservedAt remaining).

(** For the bytes [Secret] returns. *)
Definition validDurableCredential (value : DurableCredential) (secret : string) (envelope : Envelope)
    (policyExpiresAt now : Time) : bool :=
  let expiresAt := dc_expiresAt value in
  Credential.ValidRevocationID (dc_revocationID value) && (0 <? len secret) &&
  (len secret <=? MaxSensitiveValueSize) && After expiresAt now &&
  negb (After expiresAt policyExpiresAt) && negb (After expiresAt (zt_instant (env_ExpiresAt envelope))).

Definition validCredentialIssueDecision (decision : Decision) (envelope : Envelope) (now : Time) : bool :=
  let requestedTTL := cred_TTLSeconds (env_CredentialScope envelope) * Second in
  let deadline := Add (dec_EvaluatedAt decision) requestedTTL in
  let deadline :=
    if Before (zt_instant (env_ExpiresAt envelope)) deadline then zt_instant (env_ExpiresAt envelope) else deadline in
  (dec_Outcome decision == OutcomeAllow) && (dec_Stage decision == StageCredentialIssue) &&
  (dec_PolicyVersion decision == env_PolicyVersion envelope) && (dec_PlanHash decision == env_PlanHash envelope) &&
  (dec_SafetyRevision decision != ""%string) && (dec_TargetRevision decision != ""%string) &&
  (dec_RiskRevision decision != ""%string) && (dec_LimitsRevision decision != ""%string) &&
  negb (IsZero (dec_EvaluatedAt decision)) && negb (After (dec_EvaluatedAt decision) (Add now maximumClockSkew)) &&
  (Sub now (dec_EvaluatedAt decision) <=? MaxPreExecutionDecisionAge) &&
  After (dec_CredentialExpiresAt decision) now && negb (After (dec_CredentialExpiresAt decision) deadline).

Definition samePolicySnapshot (credentialDecision preExecutionDecision : Decision) : bool :=
  (dec_PolicyVersion credentialDecision == dec_PolicyVersion preExecutionDecision) &&
  (dec_PlanHash credentialDecision == dec_PlanHash preExecutionDecision) &&
  (dec_SafetyRevision credentialDecision == dec_SafetyRevision preExecutionDecision) &&
  (dec_TargetRevision credentialDecision == dec_TargetRevision preExecutionDecision) &&
  (dec_RiskRevision credentialDecision == dec_RiskRevision preExecutionDecision) &&
  (dec_LimitsRevision credentialDecision == dec_LimitsRevision preExecutionDecision).

Definition validPreExecutionDecision (decision : Decision) (envelope : Envelope) (now : Time) : bool :=
  (dec_Outcome decision == OutcomeAllow) && (dec_Stage decision == StagePreExecution) &&
  (dec_PolicyVersion decision == env_PolicyVersion envelope) && (dec_PlanHash decision == env_PlanHash envelope) &&
  (dec_SafetyRevision decision != ""%string) && (dec_TargetRevision decision != ""%string) &&
  (dec_RiskRevision decision != ""%string) && (dec_LimitsRevision decision != ""%string) &&
  negb (IsZero (dec_EvaluatedAt decision)) && negb (After (dec_EvaluatedAt decision) (Add now maximumClockSkew)) &&
  (Sub now (dec_EvaluatedAt decision) <=? MaxPreExecutionDecisionAge) &&
  (if Envelope_ValidateAt envelope now is Ok _ then true else false).

(** What [dispatchSafely] reaches for an envelope: a typed executor, a nil pointer
    (recovered), or the default case. *)
Inductive Dispatch := DispatchCommand (command : Command) | DispatchPanics | DispatchUnsupported.

Definition commandIdentity (envelope : Envelope) : CommandIdentity :=
  {| ci_ActionID := env_ActionID envelope; ci_WorkspaceID := env_WorkspaceID envelope;
     ci_IncidentID := env_IncidentID envelope; ci_ServiceID := target_ServiceID (env_Target envelope);
     ci_EnvironmentID := target_EnvironmentID (env_Target envelope); ci_TraceID := env_TraceID envelope |}.

Definition executorCommand (envelope : Envelope) : Dispatch :=
  let dereferenced (command : option Command) := if command is Some c then DispatchCommand c else DispatchPanics in
  let identity := commandIdentity envelope in
  match env_ActionType envelope with
  | ActionKubernetesRolloutRestart => dereferenced (
      target ← target_KubernetesDeployment (env_Target envelope);
      parameters ← param_KubernetesRolloutRestart (env_Parameters envelope);
      observed ← obs_KubernetesDeployment (env_ObservedState envelope);
      Some (KubernetesRolloutRestartCommand identity target parameters observed
              (env_Preconditions envelope) (env_Verification envelope)))
  | ActionKubernetesScale => dereferenced (
      target ← target_KubernetesDeployment (env_Target envelope);
      parameters ← param_KubernetesScale (env_Parameters envelope);
      observed ← obs_KubernetesDeployment (env_ObservedState envelope);
      Some (KubernetesScaleCommand identity target parameters observed
              (env_Preconditions envelope) (env_Verification envelope)))
  | ActionGitOpsRevert => dereferenced (
      target ← target_GitOpsApplication (env_Target envelope);
      parameters ← param_GitOpsRevert (env_Parameters envelope);
      observed ← obs_GitOpsApplication (env_ObservedState envelope);
      Some (GitOpsRevertCommand identity target parameters observed
              (env_Preconditions envelope) (env_Verification envelope)))
  | ActionAWXServiceRestart => dereferenced (
      target ← target_AWXHosts (env_Target envelope);
      parameters ← param_AWXServiceRestart (env_Parameters envelope);
      observed ← obs_AWXService (env_ObservedState envelope);
      Some (AWXServiceRestartCommand identity target parameters observed
              (env_Preconditions envelope) (env_Verification envelope)))
  | ActionTypeOther _ => DispatchUnsupported
  end.

(** ** Calls, and the world they go to *)

(** [EvEnter] is the closing of [dispatchEntered]: the goroutine of the executor is past the
    gate.  [EvExecute] is its call of the executor, and [EvReturned] the return of that call. *)
Inductive Event :=
| EvResolveRunner (runnerID : string) (answer : Result RunnerRegistration)
| EvResolveEnvironment (workspaceID environmentID : string) (answer : Result EnvironmentSnapshot)
| EvSafety (request : SafetyRequest) (answer : Result ClaimSafetySnapshot)
| EvEvaluateCredentialIssue (envelope : Envelope) (answer : Result Decision)
| EvEvaluatePreExecution (envelope : Envelope) (answer : Result Decision)
| EvSubmit (submission : ActionSubmission) (answer : Result Execution)
| EvClaim (request : ActionClaimRequest) (answer : Result ClaimedAction)
| EvReject (request : ActionRejectRequest) (answer : Result Execution)
| EvNack (request : ActionNackRequest) (answer : Result Execution)
| EvStart (fence : LeaseIdentity) (answer : Result Execution)
| EvHeartbeat (request : ActionHeartbeatRequest) (answer : Result ActionHeartbeatResult)
| EvComplete (request : ActionCompleteRequest) (answer : Result Execution)
| EvFinalize (fence : LeaseIdentity) (answer : Result Execution)
| EvPrepare (request : PrepareDurableCredentialRequest) (answer : Result PreparedDurableCredential)
| EvIssue (prepared : PreparedDurableCredential) (answer : Result DurableCredential)
| EvNoCredential (prepared : PreparedDurableCredential) (answer : Result Credential.Revocation)
| EvRequestRevocation (value : DurableCredential) (answer : Result Credential.Revocation)
| EvEnter (dispatch : Dispatch) (value : DurableCredential)
| EvExecute (command : Command) (value : DurableCredential)
| EvReturned (result : Result ExecutorResult).

(** The contexts of [RunNext]: the caller's, the executor's below it, and below that the
    one bounded by the credential and the one of the heartbeat goroutine. *)
Inductive Ctx := CtxCaller | CtxExecutor | CtxCredential | CtxHeartbeat.

(** What a context does without the service: it is cancelled or its deadline passes, or
    the function registered with [context.AfterFunc] runs. *)
Inductive CtxStep :=
| CancelCaller (e : GoError)
| ExecutorDeadline
| CredentialDeadline
| AfterFunc.

(** Where the heartbeat goroutine is: not started, waiting for the ticker, past the
    failure check of [checkpoint], past the check of the runner scope, holding the result of
    [heartbeatOnce], or gone. *)
Inductive LoopState :=
| LoopAbsent
| LoopWaiting
| LoopChecked
| LoopScoped
| LoopAnswered (result : option GoError)
| LoopDone.

(** Where the goroutine of [dispatchSafely] is: not started, past the entry signal, in the call
    of the executor, or gone with its completion in [executorDone]. *)
Inductive ExecutorState :=
| ExecutorAbsent
| ExecutorEntered (dispatch : Dispatch) (value : DurableCredential)
| ExecutorCalled (command : Command) (value : DurableCredential)
| ExecutorReturned (result : Result ExecutorResult).

Inductive EnvStep :=
| StepCtx (step : CtxStep)
| StepTick
| StepScope
| StepHeartbeat
| StepReturn
| StepLoopExit
| StepExecute
| StepExecuted.

(** What a [select] finds first. *)
Inductive Ready := ReadyExecutor | ReadyHeartbeatsDone | ReadyContextDone.

(** The environment: the answer of each interface method, the clocks, the scheduler. *)
Record Environment (W : Type) := {
  on_Clock : W -> Time * W;
  on_TimeNow : W -> Time * W;
  on_Deadline : option Time;
  on_Timeout : W -> option GoError * W;
  on_Keys : W -> option KeyResolver * W;
  on_Secret : DurableCredential -> W -> string * W;
  on_ResolveRunner : string -> W -> Result RunnerRegistration * W;
  on_ResolveEnvironment : string -> string -> W -> Result EnvironmentSnapshot * W;
  on_Safety : SafetyRequest -> W -> Result ClaimSafetySnapshot * W;
  on_EvaluateCredentialIssue : Envelope -> W -> Result Decision * W;
  on_EvaluatePreExecution : Envelope -> W -> Result Decision * W;
  on_Submit : ActionSubmission -> W -> Result Execution * W;
  on_Claim : ActionClaimRequest -> W -> Result ClaimedAction * W;
  on_Reject : ActionRejectRequest -> W -> Result Execution * W;
  on_Nack : ActionNackRequest -> W -> Result Execution * W;
  on_Start : LeaseIdentity -> W -> Result Execution * W;
  on_Heartbeat : ActionHeartbeatRequest -> W -> Result ActionHeartbeatResult * W;
  on_Complete : ActionCompleteRequest -> W -> Result Execution * W;
  on_Finalize : LeaseIdentity -> W -> Result Execution * W;
  on_Prepare : PrepareDurableCredentialRequest -> W -> Result PreparedDurableCredential * W;
  on_Issue : PreparedDurableCredential -> W -> Result DurableCredential * W;
  on_NoCredential : PreparedDurableCredential -> W -> Result Credential.Revocation * W;
  on_RequestRevocation : DurableCredential -> W -> Result Credential.Revocation * W;
  on_Execute : Command -> DurableCredential -> W -> Result ExecutorResult * W;
  on_Select : W -> Ready * W;
  on_Schedule : W -> list EnvStep * W
}.
Arguments on_Clock {W}.
Arguments on_TimeNow {W}.
Arguments on_Deadline {W}.
Arguments on_Timeout {W}.
Arguments on_Keys {W}.
Arguments on_Secret {W}.
Arguments on_ResolveRunner {W}.
Arguments on_ResolveEnvironment {W}.
Arguments on_Safety {W}.
Arguments on_EvaluateCredentialIssue {W}.
Arguments on_EvaluatePreExecution {W}.
Arguments on_Submit {W}.
Arguments on_Claim {W}.
Arguments on_Reject {W}.
Arguments on_Nack {W}.
Arguments on_Start {W}.
Arguments on_Heartbeat {W}.
Arguments on_Complete {W}.
Arguments on_Finalize {W}.
Arguments on_Prepare {W}.
Arguments on_Issue {W}.
Arguments on_NoCredential {W}.
Arguments on_RequestRevocation {W}.
Arguments on_Execute {W}.
Arguments on_Select {W}.
Arguments on_Schedule {W}.

(** [actionHeartbeatSession]; [beatMu] says that the main thread holds the lock. *)
Record Session := {
  hs_failure : option GoError; hs_completeAcked : bool; hs_claimedScope : RunnerScope; hs_lease : LeaseIdentity;
  hs_nextSequence : Z; hs_loop : LoopState; hs_beatMu : bool
}.

Definition RunnerScope_zero : RunnerScope :=
  {| scope_runnerID := ""; scope_tenantID := ""; scope_pool := PoolOther ""; scope_scopeRevision := 0;
     scope_maxConcurrency := 0; scope_bindings := [] |}.

Definition Session_none : Session :=
  {| hs_failure := None; hs_completeAcked := false; hs_claimedScope := RunnerScope_zero;
     hs_lease := {| lease_ExecutionID := ""; lease_RunnerID := ""; lease_Token := ""; lease_Epoch := 0 |};
     hs_nextSequence := 0; hs_loop := LoopAbsent; hs_beatMu := false |}.

(** The errors of the contexts themselves, where the caller's is the only one that exists
    from the start; [cx_stopped] is the error the heartbeat context had once its [stop] was
    called. *)
Record Contexts := {
  cx_caller : option GoError;
  cx_executorMade : bool; cx_executor : option GoError;
  cx_credentialMade : bool; cx_credential : option GoError;
  cx_stopped : option GoError
}.

Record World (W : Type) := {
  w_oracle : W; w_events : list Event; w_contexts : Contexts; w_session : Session; w_executor : ExecutorState
}.
Arguments w_oracle {W}.
Arguments w_events {W}.
Arguments w_contexts {W}.
Arguments w_session {W}.
Arguments w_executor {W}.

Definition Contexts_none : Contexts :=
  {| cx_caller := None; cx_executorMade := false; cx_executor := None; cx_credentialMade := false;
     cx_credential := None; cx_stopped := None |}.

(** A service call starts with no session and no context of its own. *)
Definition World_start {W} (oracle : W) (caller : option GoError) : World W :=
  {| w_oracle := oracle; w_events := []; w_contexts := {| Contexts_none with cx_caller := caller |};
     w_session := Session_none; w_executor := ExecutorAbsent |}.

(** [ctx.Err()]: a context ends with the first of its own end and its parent's. *)
Definition or_else (own parent : option GoError) : option GoError := if own is Some e then Some e else parent.

Definition ctxErr (ctx : Ctx) (contexts : Contexts) : option GoError :=
  let executor := or_else (cx_executor contexts) (cx_caller contexts) in
  match ctx with
  | CtxCaller => cx_caller contexts
  | CtxExecutor => executor
  | CtxCredential => or_else (cx_credential contexts) executor
  | CtxHeartbeat => or_else (cx_stopped contexts) executor
  end.

Definition cancelExecutor (contexts : Contexts) (e : GoError) : Contexts :=
  if negb (cx_executorMade contexts) || (if ctxErr CtxExecutor contexts is Some _ then true else false) then contexts
  else {| contexts with cx_executor := Some e |}.

(** [stop()] of a heartbeat session: it ends the context unless it has ended already. *)
Definition stopHeartbeats (contexts : Contexts) : Contexts :=
  {| contexts with cx_stopped := Some (default context_Canceled (ctxErr CtxHeartbeat contexts)) |}.

Definition ctxStep (step : CtxStep) (contexts : Contexts) : Contexts :=
  match step with
  | CancelCaller e => if cx_caller contexts is Some _ then contexts else {| contexts with cx_caller := Some e |}
  | ExecutorDeadline => cancelExecutor contexts context_DeadlineExceeded
  | CredentialDeadline =>
      if negb (cx_credentialMade contexts) || (if ctxErr CtxCredential contexts is Some _ then true else false)
      then contexts else {| contexts with cx_credential := Some context_DeadlineExceeded |}
  | AfterFunc =>
      if cx_credentialMade contexts && (if ctxErr CtxCredential contexts is Some _ then true else false)
      then cancelExecutor contexts context_Canceled else contexts
  end.

(** ** Programs over a world *)

Definition Prog (W A : Type) : Type := World W -> A * World W.

#[export] Instance Prog_ret W : MRet (Prog W) := fun _ a w => (a, w).
#[export] Instance Prog_bind W : MBind (Prog W) := fun _ _ k p w => let '(a, w') := p w in k a w'.

Section service.
Context {W : Type} (env : Environment W).
Context (Transform : string -> Result string) (ed25519_Verify : string -> string -> string -> bool).
Context (service : Service).

Definition setSession (f : Session -> Session) (w : World W) : World W :=
  {| w with w_session := f (w_session w) |}.
Definition setContexts (f : Contexts -> Contexts) (w : World W) : World W :=
  {| w with w_contexts := f (w_contexts w) |}.

Definition update (f : World W -> World W) : Prog W unit := fun w => (tt, f w).
Definition reads {A} (f : World W -> A) : Prog W A := fun w => (f w, w).

(** Ask the environment, silently or as a recorded call. *)
Definition ask {A} (question : W -> A * W) : Prog W A := fun w =>
  let '(a, o) := question (w_oracle w) in (a, {| w with w_oracle := o |}).
Definition record (event : Event) : Prog W unit := update (fun w => {| w with w_events := w_events w ++ [event] |}).
Definition perform {A} (question : W -> A * W) (event : A -> Event) : Prog W A :=
  a ← ask question; record (event a);; mret a.

Definition now : Prog W (Result Time) :=
  clock ← ask (on_Clock env);
  mret (if IsZero clock then Err ErrServiceClock else Ok clock).

Definition resolveRunnerScope : Prog W (Result RunnerScope) :=
  registration ← perform (on_ResolveRunner env (svc_runnerID service)) (EvResolveRunner (svc_runnerID service));
  mret (match registration with
        | Err _ => Err ErrClaimsDisabled
        | Ok registration =>
            match RunnerRegistration_Scope registration with
            | Ok scope =>
                if (scope_pool scope != PoolWrite) || (scope_runnerID scope != svc_runnerID service)
                then Err ErrClaimsDisabled else Ok scope
            | Err _ => Err ErrClaimsDisabled
            end
        end).

(** ** Heartbeats *)

(** [heartbeatOnce] up to the comparison of the runner scopes, and the rest of it.  The
    timeout of [heartbeatContext] adds an error of its own to that of [ctx]. *)
Definition sameRunnerScope (currentScope claimedScope : RunnerScope) : bool :=
  negb ((scope_runnerID currentScope != scope_runnerID claimedScope) ||
        (scope_tenantID currentScope != scope_tenantID claimedScope) ||
        (scope_pool currentScope != scope_pool claimedScope) ||
        (scope_scopeRevision currentScope != scope_scopeRevision claimedScope)).

Definition heartbeatScope (ctx : Ctx) (claimedScope : RunnerScope) : Prog W (option GoError) :=
  currentScope ← resolveRunnerScope;
  match currentScope with
  | Err _ =>
      timeout ← ask (on_Timeout env);
      contexts ← reads w_contexts;
      mret (Some (default ErrExecutionUncertain (or_else (ctxErr ctx contexts) timeout)))
  | Ok currentScope =>
      mret (if sameRunnerScope currentScope claimedScope then None else Some ErrExecutionUncertain)
  end.

Definition beatAccepted (claimedScope : RunnerScope) (lease : LeaseIdentity) (response : ActionHeartbeatResult) : bool :=
  let execution := ahb_Execution response in
  match ahb_Directive response with
  | HeartbeatContinue =>
      (ex_ExecutionID execution == lease_ExecutionID lease) && (ex_RunnerID execution == lease_RunnerID lease) &&
      (ex_LeaseEpoch execution =? lease_Epoch lease) && (ex_ScopeRevision execution =? scope_scopeRevision claimedScope) &&
      (ex_Status execution == StatusRunning)
  | HeartbeatTerminate => false
  end.

Definition heartbeatSend (claimedScope : RunnerScope) (lease : LeaseIdentity) (sequence : Z) : Prog W (option GoError) :=
  let request := {| ahb_Lease := lease; ahb_Sequence := sequence; ahb_Extension := svc_leaseDuration service |} in
  answer ← perform (on_Heartbeat env request) (EvHeartbeat request);
  mret (match answer with
        | Err e => Some e
        | Ok response => if beatAccepted claimedScope lease response then None else Some ErrExecutionUncertain
        end).

(** [fail], [DispatchError], [Failure], [AcknowledgeComplete]: the sections under [mu]. *)
Definition failSession (e : GoError) (w : World W) : World W :=
  let session := w_session w in
  if (if hs_failure session is Some _ then true else false) || hs_completeAcked session then w
  else setContexts (fun contexts => cancelExecutor contexts context_Canceled)
         (setSession (fun session => {| session with hs_failure := Some e |}) w).

Definition DispatchError (ctx : Ctx) (w : World W) : option GoError :=
  or_else (hs_failure (w_session w)) (ctxErr ctx (w_contexts w)).

Definition Failure (w : World W) : option GoError := hs_failure (w_session w).

Definition AcknowledgeComplete : Prog W unit :=
  update (setSession (fun session => {| {| session with hs_completeAcked := true |} with hs_failure := None |})).

(** What [checkpoint] does with the result of [heartbeatOnce]. *)
Definition checkpointResult (ctx : Ctx) (result : option GoError) : Prog W unit :=
  match result with
  | Some e => update (fun w => if ctxErr ctx (w_contexts w) is Some _ then w else failSession e w)
  | None => update (setSession (fun session => {| session with hs_nextSequence := hs_nextSequence session + 1 |}))
  end.

Definition setLoop (state : LoopState) : Prog W unit :=
  update (setSession (fun session => {| session with hs_loop := state |})).

(** ** The other parties *)

(** One step of [heartbeatLoop], which runs [checkpoint] at each tick. *)
Definition loopStep (step : EnvStep) : Prog W unit :=
  session ← reads w_session;
  match step, hs_loop session with
  | StepTick, LoopWaiting =>
      if hs_beatMu session then mret tt
      else
        err ← reads (DispatchError CtxHeartbeat);
        setLoop (if err is Some _ then LoopDone else LoopChecked)
  | StepScope, LoopChecked =>
      err ← heartbeatScope CtxHeartbeat (hs_claimedScope session);
      setLoop (if err is Some _ then LoopAnswered err else LoopScoped)
  | StepHeartbeat, LoopScoped =>
      err ← heartbeatSend (hs_claimedScope session) (hs_lease session) (hs_nextSequence session);
      setLoop (LoopAnswered err)
  | StepReturn, LoopAnswered err =>
      checkpointResult CtxHeartbeat err;;
      setLoop (if err is Some _ then LoopDone else LoopWaiting)
  | StepLoopExit, LoopWaiting =>
      contexts ← reads w_contexts;
      if ctxErr CtxHeartbeat contexts is Some _ then setLoop LoopDone else mret tt
  | _, _ => mret tt
  end.

Definition setExecutor (state : ExecutorState) : Prog W unit := update (fun w => {| w with w_executor := state |}).

(** One step of the goroutine of [dispatchSafely], behind its entry signal: it calls the typed
    executor, or has panicked on a nil pointer, or found no executor for the type; and the call
    returns.  Both may happen long after the main thread has gone on. *)
Definition executorStep (step : EnvStep) : Prog W unit :=
  state ← reads w_executor;
  match step, state with
  | StepExecute, ExecutorEntered (DispatchCommand command) value =>
      record (EvExecute command value);; setExecutor (ExecutorCalled command value)
  | StepExecute, ExecutorEntered DispatchPanics _ => setExecutor (ExecutorReturned (Err (errors_New "typed executor panicked")))
  | StepExecute, ExecutorEntered DispatchUnsupported _ => setExecutor (ExecutorReturned (Err (errors_New "unsupported typed action")))
  | StepExecuted, ExecutorCalled command value =>
      result ← perform (on_Execute env command value) EvReturned;
      setExecutor (ExecutorReturned result)
  | _, _ => mret tt
  end.

Definition envStep (step : EnvStep) : Prog W unit :=
  match step with
  | StepCtx step => update (setContexts (ctxStep step))
  | StepExecute | StepExecuted => executorStep step
  | step => loopStep step
  end.

Fixpoint envSteps (steps : list EnvStep) : Prog W unit :=
  match steps with
  | [] => mret tt
  | step :: steps => envStep step;; envSteps steps
  end.

Definition yield : Prog W unit := steps ← ask (on_Schedule env); envSteps steps.

(** A call of the main thread, and a look at a context or at the session. *)
Definition call {A} (question : W -> A * W) (event : A -> Event) : Prog W A := yield;; perform question event.
Definition Err_now (ctx : Ctx) : Prog W (option GoError) := yield;; contexts ← reads w_contexts; mret (ctxErr ctx contexts).

(** [beatMu.Lock()] waits for a checkpoint of the goroutine to return. *)
Definition settleSteps : list EnvStep := [StepScope; StepHeartbeat; StepReturn].
Definition lockBeat : Prog W unit :=
  yield;; envSteps settleSteps;; update (setSession (fun session => {| session with hs_beatMu := true |})).
Definition unlockBeat : Prog W unit :=
  update (setSession (fun session => {| session with hs_beatMu := false |})).

(** [heartbeatOnce] and [checkpoint] on the main thread. *)
Definition heartbeatOnce (ctx : Ctx) (claimedScope : RunnerScope) (lease : LeaseIdentity) (sequence : Z)
    : Prog W (option GoError) :=
  yield;;
  err ← heartbeatScope ctx claimedScope;
  match err with
  | Some e => mret (Some e)
  | None => yield;; heartbeatSend claimedScope lease sequence
  end.

Definition Checkpoint (ctx : Ctx) : Prog W (option GoError) :=
  lockBeat;;
  err ← reads (DispatchError ctx);
  match err with
  | Some e => unlockBeat;; mret (Some e)
  | None =>
      session ← reads w_session;
      result ← heartbeatOnce ctx (hs_claimedScope session) (hs_lease session) (hs_nextSequence session);
      yield;;
      checkpointResult ctx result;;
      unlockBeat;; mret result
  end.

Definition startHeartbeatSession (claimedScope : RunnerScope) (lease : LeaseIdentity) (firstSequence : Z) : Prog W unit :=
  update (setSession (fun _ =>
    {| hs_failure := None; hs_completeAcked := false; hs_claimedScope := claimedScope; hs_lease := lease;
       hs_nextSequence := firstSequence; hs_loop := LoopWaiting; hs_beatMu := false |})).

(** [stop()] and the wait for [done]. *)
Definition Stop : Prog W (option GoError) :=
  yield;;
  update (setContexts stopHeartbeats);;
  yield;; envSteps (settleSteps ++ [StepLoopExit]);;
  reads Failure.

(** ** Snapshots of the trusted readers *)

Definition checkSafety (request : SafetyRequest) : Prog W (Result ClaimSafetySnapshot) :=
  answer ← call (on_Safety env request) (EvSafety request);
  match answer with
  | Err _ => mret (Err ErrClaimsDisabled)
  | Ok snapshot =>
      clock ← now;
      mret (match clock with
            | Err _ => Err ErrClaimsDisabled
            | Ok now =>
                if negb (cs_Enabled snapshot) || negb (validIdentifier (cs_Revision snapshot) 256) ||
                   negb (fresh now (cs_ObservedAt snapshot) MaxSafetySnapshotAge) ||
                   (cs_Pool snapshot != sr_Pool request) || (cs_RunnerID snapshot != sr_RunnerID request)
                then Err ErrClaimsDisabled
                else if sr_Phase request == SafetyPhaseClaim then
                  if (cs_WorkspaceID snapshot != ""%string) || (cs_EnvironmentID snapshot != ""%string) ||
                     (cs_ConnectorID snapshot != ""%string) || (cs_ActionType snapshot != ActionType_zero)
                  then Err ErrClaimsDisabled else Ok snapshot
                else if (sr_Phase request != SafetyPhaseStart) || (cs_WorkspaceID snapshot != sr_WorkspaceID request) ||
                        (cs_EnvironmentID snapshot != sr_EnvironmentID request) ||
                        (cs_ConnectorID snapshot != sr_ConnectorID request) ||
                        (cs_ActionType snapshot != sr_ActionType request)
                then Err ErrClaimsDisabled else Ok snapshot
            end)
  end.

Definition resolveEnvironment (envelope : Envelope) : Prog W (Result EnvironmentSnapshot) :=
  let workspaceID := env_WorkspaceID envelope in
  let environmentID := target_EnvironmentID (env_Target envelope) in
  answer ← call (on_ResolveEnvironment env workspaceID environmentID) (EvResolveEnvironment workspaceID environmentID);
  match answer with
  | Err _ => mret (Err ErrEnvironmentUnavailable)
  | Ok snapshot =>
      clock ← now;
      mret (match clock with
            | Err _ => Err ErrEnvironmentUnavailable
            | Ok now =>
                if (es_WorkspaceID snapshot != workspaceID) || (es_EnvironmentID snapshot != environmentID) ||
                   negb (validIdentifier (es_Revision snapshot) 256) ||
                   negb (fresh now (es_ObservedAt snapshot) MaxEnvironmentSnapshotAge)
                then Err ErrEnvironmentUnavailable else Ok snapshot
            end)
  end.

(** ** Submitting an action *)

(** What a service call returns: the Go pair of a value and an error. *)
Definition RunOutcome : Type := Execution * option GoError.
Definition outcome (r : Result Execution) : RunOutcome :=
  match r with Ok execution => (execution, None) | Err e => (Execution_zero, Some e) end.

Definition Submit (envelope : Envelope) : Prog W RunOutcome :=
  err ← Err_now CtxCaller;
  match err with
  | Some e => mret (Execution_zero, Some e)
  | None =>
  clock ← now;
  match clock with
  | Err e => mret (Execution_zero, Some e)
  | Ok now =>
  keys ← ask (on_Keys env);
  match Verify Transform ed25519_Verify envelope keys now with
  | Err e => mret (Execution_zero, Some (Errorf "%w: %v" ErrInvalidAction))
  | Ok _ =>
  runnerScope ← (yield;; resolveRunnerScope);
  match runnerScope with
  | Err e => mret (Execution_zero, Some e)
  | Ok runnerScope =>
  if negb (RunnerScope_allows runnerScope (env_WorkspaceID envelope) (target_EnvironmentID (env_Target envelope)))
  then mret (Execution_zero, Some ErrEnvironmentNotAllowed) else
  environment ← resolveEnvironment envelope;
  match environment with
  | Err e => mret (Execution_zero, Some e)
  | Ok environment =>
  match deriveTargetKey envelope with
  | Err e => mret (Execution_zero, Some (Errorf "%w: %v" ErrInvalidAction))
  | Ok targetKey =>
      let submission :=
        {| sub_Envelope := envelope; sub_PlanHash := env_PlanHash envelope; sub_TargetKey := targetKey;
           sub_EnvironmentRevision := es_Revision environment; sub_Production := es_Production environment;
           sub_Pool := PoolWrite |} in
      answer ← call (on_Submit env submission) (EvSubmit submission);
      mret (outcome answer)
  end end end end end end.

(** ** Running an action: admission *)

Definition released (claimed : ClaimedAction) (cause : GoError) (answer : Result Execution) : RunOutcome :=
  match answer with
  | Err e => (redactActionExecution (claimed_Execution claimed), Some e)
  | Ok execution => (execution, Some cause)
  end.

Definition rejectClaim (claimed : ClaimedAction) (code : string) (cause : GoError) : Prog W RunOutcome :=
  let request := {| reject_Lease := Execution_Fence (claimed_Execution claimed); reject_Reason := queueReason code |} in
  answer ← call (on_Reject env request) (EvReject request);
  mret (released claimed cause answer).

Definition nackClaim (claimed : ClaimedAction) (code : string) (cause : GoError) : Prog W RunOutcome :=
  let request :=
    {| nack_Lease := Execution_Fence (claimed_Execution claimed); nack_Reason := queueReason code;
       nack_RetryAfter := 15 * Second |} in
  answer ← call (on_Nack env request) (EvNack request);
  mret (released claimed cause answer).

(** The comparison of a claim response with its envelope and the runner's scope. *)
Definition claimBound (runnerScope : RunnerScope) (claimed : ClaimedAction) : bool :=
  let leased := claimed_Execution claimed in
  let envelope := claimed_Envelope claimed in
  negb ((ex_ExecutionID leased != env_ActionID envelope) || (ex_TargetKey leased != claimed_TargetKey claimed) ||
        (ex_Pool leased != PoolWrite) || (ex_Production leased != claimed_Production claimed) ||
        (claimed_PlanHash claimed != env_PlanHash envelope) || ex_Production leased ||
        (ex_RunnerID leased != scope_runnerID runnerScope) || (ex_RunnerTenantID leased != scope_tenantID runnerScope) ||
        (ex_RunnerWorkspaceID leased != env_WorkspaceID envelope) ||
        (ex_RunnerEnvironmentID leased != target_EnvironmentID (env_Target envelope)) ||
        (ex_ScopeRevision leased != scope_scopeRevision runnerScope) ||
        negb (RunnerScope_allows runnerScope (env_WorkspaceID envelope) (target_EnvironmentID (env_Target envelope)))).

(** The second comparison, after the signature was verified. *)
Definition claimMetadataBound (claimed : ClaimedAction) : bool :=
  let leased := claimed_Execution claimed in
  let envelope := claimed_Envelope claimed in
  negb ((ex_ExecutionID leased != env_ActionID envelope) || (ex_TargetKey leased != claimed_TargetKey claimed) ||
        (ex_Pool leased != PoolWrite) || (ex_Production leased != claimed_Production claimed) ||
        (claimed_PlanHash claimed != env_PlanHash envelope)).

Definition startSafetyRequest (runnerScope : RunnerScope) (envelope : Envelope) : SafetyRequest :=
  {| sr_Phase := SafetyPhaseStart; sr_Pool := PoolWrite; sr_RunnerID := scope_runnerID runnerScope;
     sr_WorkspaceID := env_WorkspaceID envelope; sr_EnvironmentID := target_EnvironmentID (env_Target envelope);
     sr_ConnectorID := cred_ConnectorID (env_CredentialScope envelope); sr_ActionType := env_ActionType envelope |}.

Definition claimSafetyRequest (runnerScope : RunnerScope) : SafetyRequest :=
  {| sr_Phase := SafetyPhaseClaim; sr_Pool := PoolWrite; sr_RunnerID := scope_runnerID runnerScope;
     sr_WorkspaceID := ""; sr_EnvironmentID := ""; sr_ConnectorID := ""; sr_ActionType := ActionType_zero |}.

(** What [RunNext] knows when it prepares a credential. *)
Record Admission := {
  adm_scope : RunnerScope; adm_claimed : ClaimedAction; adm_credentialDecision : Decision; adm_decision : Decision;
  adm_safety : ClaimSafetySnapshot; adm_executorDeadline : Time
}.

(** The early returns of [RunNext] are the [inr]s. *)
Definition stop {A} (p : Prog W RunOutcome) : Prog W (A + RunOutcome) := o ← p; mret (inr o).

Definition environmentHolds (environment : EnvironmentSnapshot) (claimed : ClaimedAction) : bool :=
  negb ((es_Revision environment != claimed_EnvironmentRevision claimed) ||
        negb (eqb (es_Production environment) (claimed_Production claimed))).

(** From the verified envelope to the decisions of the policy. *)
Definition RunNext_policy (claimed : ClaimedAction) : Prog W ((Decision * Decision) + RunOutcome) :=
  let envelope := claimed_Envelope claimed in
  answer ← call (on_EvaluateCredentialIssue env envelope) (EvEvaluateCredentialIssue envelope);
  match answer with
  | Err _ =>
      err ← Err_now CtxCaller;
      stop (if err is Some e then nackClaim claimed "CREDENTIAL_POLICY_CANCELLED" e
            else nackClaim claimed "CREDENTIAL_POLICY_TEMPORARILY_UNAVAILABLE" ErrCredentialDenied)
  | Ok credentialDecision =>
  clock ← now;
  match clock with
  | Err e => stop (nackClaim claimed "CLOCK_TEMPORARILY_UNAVAILABLE" e)
  | Ok now1 =>
  if negb (validCredentialIssueDecision credentialDecision envelope now1)
  then stop (rejectClaim claimed "CREDENTIAL_POLICY_DENIED" ErrCredentialDenied) else
  answer ← call (on_EvaluatePreExecution env envelope) (EvEvaluatePreExecution envelope);
  match answer with
  | Err _ =>
      err ← Err_now CtxCaller;
      stop (if err is Some e then nackClaim claimed "PRE_EXECUTION_CANCELLED" e
            else nackClaim claimed "POLICY_TEMPORARILY_UNAVAILABLE" ErrPreExecutionDenied)
  | Ok decision =>
  clock ← now;
  match clock with
  | Err e => stop (nackClaim claimed "CLOCK_TEMPORARILY_UNAVAILABLE" e)
  | Ok now2 =>
  if negb (validPreExecutionDecision decision envelope now2) || negb (samePolicySnapshot credentialDecision decision)
  then stop (rejectClaim claimed "PRE_EXECUTION_POLICY_DENIED" ErrPreExecutionDenied)
  else mret (inl (credentialDecision, decision))
  end end end end.

(** From the claim to the verified envelope in its environment. *)
Definition RunNext_claim : Prog W ((RunnerScope * ClaimedAction) + RunOutcome) :=
  runnerScope ← (yield;; resolveRunnerScope);
  match runnerScope with
  | Err e => mret (inr (Execution_zero, Some e))
  | Ok runnerScope =>
  safety ← checkSafety (claimSafetyRequest runnerScope);
  match safety with
  | Err e => mret (inr (Execution_zero, Some e))
  | Ok _ =>
  let request := {| aclaim_Scope := runnerScope; aclaim_LeaseDuration := svc_leaseDuration service |} in
  answer ← call (on_Claim env request) (EvClaim request);
  match answer with
  | Err e => mret (inr (Execution_zero, Some e))
  | Ok claimed =>
  let envelope := claimed_Envelope claimed in
  if negb (claimBound runnerScope claimed)
  then mret (inr (redactActionExecution (claimed_Execution claimed), Some ErrJobConflict)) else
  clock ← now;
  match clock with
  | Err e => stop (nackClaim claimed "CLOCK_TEMPORARILY_UNAVAILABLE" e)
  | Ok now1 =>
  keys ← ask (on_Keys env);
  match Verify Transform ed25519_Verify envelope keys now1 with
  | Err e => stop (rejectClaim claimed "INVALID_VERIFIED_ACTION" (Errorf "%w: %v" ErrInvalidAction))
  | Ok _ =>
  if negb (claimMetadataBound claimed) then stop (rejectClaim claimed "QUEUE_METADATA_CONFLICT" ErrJobConflict) else
  environment ← resolveEnvironment envelope;
  match environment with
  | Err e => stop (nackClaim claimed "ENVIRONMENT_TEMPORARILY_UNAVAILABLE" e)
  | Ok environment =>
  if negb (environmentHolds environment claimed)
  then stop (rejectClaim claimed "ENVIRONMENT_DRIFT" ErrEnvironmentDrift)
  else mret (inl (runnerScope, claimed))
  end end end end end end.

(** The last checks before the credential is prepared. *)
Definition RunNext_admit (runnerScope : RunnerScope) (claimed : ClaimedAction) (credentialDecision decision : Decision)
    : Prog W (Admission + RunOutcome) :=
  let envelope := claimed_Envelope claimed in
  safety ← checkSafety (startSafetyRequest runnerScope envelope);
  match safety with
  | Err e => stop (nackClaim claimed "SAFETY_TEMPORARILY_DISABLED" e)
  | Ok startSafety =>
  if (cs_Revision startSafety != dec_SafetyRevision decision) ||
     (cs_Revision startSafety != dec_SafetyRevision credentialDecision)
  then stop (nackClaim claimed "SAFETY_TEMPORARILY_DISABLED" ErrClaimsDisabled) else
  finalEnvironment ← resolveEnvironment envelope;
  match finalEnvironment with
  | Err e => stop (nackClaim claimed "ENVIRONMENT_TEMPORARILY_UNAVAILABLE" e)
  | Ok finalEnvironment =>
  if negb (environmentHolds finalEnvironment claimed)
  then stop (rejectClaim claimed "ENVIRONMENT_DRIFT" ErrEnvironmentDrift) else
  clock ← now;
  match clock with
  | Err e => stop (nackClaim claimed "CLOCK_TEMPORARILY_UNAVAILABLE" e)
  | Ok now3 =>
  if negb (fresh now3 (cs_ObservedAt startSafety) MaxSafetySnapshotAge) ||
     negb (validPreExecutionDecision decision envelope now3) ||
     negb (validCredentialIssueDecision credentialDecision envelope now3) ||
     negb (samePolicySnapshot credentialDecision decision)
  then stop (nackClaim claimed "PRE_START_STATE_EXPIRED" ErrClaimsDisabled) else
  match boundedExecutionDeadline (on_Deadline env) envelope (dec_CredentialExpiresAt credentialDecision) now3 with
  | Err _ => stop (rejectClaim claimed "EXECUTION_DEADLINE_EXPIRED" ErrPreExecutionDenied)
  | Ok executorDeadline =>
      mret (inl {| adm_scope := runnerScope; adm_claimed := claimed; adm_credentialDecision := credentialDecision;
                   adm_decision := decision; adm_safety := startSafety; adm_executorDeadline := executorDeadline |})
  end end end end.

(** ** Running an action: the credential, the lease and the executor *)

Definition recordNoCredential (prepared : PreparedDurableCredential) : Prog W (option GoError) :=
  answer ← call (on_NoCredential env prepared) (EvNoCredential prepared);
  mret (match answer with
        | Err e => Some e
        | Ok revocation =>
            if (Credential.rev_Status revocation != Credential.StatusNoCredential) ||
               negb (Credential.Revocation_Terminal revocation)
            then Some ErrCredentialCleanupPending else None
        end).

Definition prepareRequest (admission : Admission) : PrepareDurableCredentialRequest :=
  let claimed := adm_claimed admission in
  let envelope := claimed_Envelope claimed in
  let leaseFence := Execution_Fence (claimed_Execution claimed) in
  let scope := env_CredentialScope envelope in
  {| pdr_Fence := {| Credential.af_ActionID := lease_ExecutionID leaseFence;
                     Credential.af_RunnerID := lease_RunnerID leaseFence;
                     Credential.af_Token := lease_Token leaseFence; Credential.af_Epoch := lease_Epoch leaseFence |};
     pdr_Selection :=
       {| dir_TenantID := scope_tenantID (adm_scope admission); dir_WorkspaceID := env_WorkspaceID envelope;
          dir_EnvironmentID := target_EnvironmentID (env_Target envelope); dir_Production := claimed_Production claimed;
          dir_ActionType := ActionType_string (env_ActionType envelope); dir_ConnectorID := cred_ConnectorID scope;
          dir_Permission := cred_Permission scope; dir_Resource := cred_Resource scope |};
     pdr_RequestedTTL := cred_TTLSeconds scope * Second;
     pdr_PolicyExpiresAt := dec_CredentialExpiresAt (adm_credentialDecision admission) |}.

(** The returns between [Start] and [Issue]. *)
Definition uncertain (prepared : PreparedDurableCredential) (started : Execution) (err : GoError) : Prog W RunOutcome :=
  noCredentialErr ← recordNoCredential prepared;
  mret (redactActionExecution started, errors_Join [Some ErrExecutionUncertain; Some err; noCredentialErr]).

(** From [Prepare] to the creation of the executor's context. *)
Definition RunNext_start (admission : Admission) : Prog W ((PreparedDurableCredential * Execution) + RunOutcome) :=
  let leased := claimed_Execution (adm_claimed admission) in
  let leaseFence := Execution_Fence leased in
  let request := prepareRequest admission in
  answer ← call (on_Prepare env request) (EvPrepare request);
  match answer with
  | Err e => mret (inr (redactActionExecution leased, errors_Join [Some ErrCredentialDenied; Some e]))
  | Ok prepared =>
  answer ← call (on_Start env leaseFence) (EvStart leaseFence);
  match answer with
  | Err e =>
      noCredentialErr ← recordNoCredential prepared;
      mret (inr (redactActionExecution leased, errors_Join [Some e; noCredentialErr]))
  | Ok started =>
  heartbeatErr ← heartbeatOnce CtxCaller (adm_scope admission) leaseFence 1;
  match heartbeatErr with
  | Some e => stop (uncertain prepared started e)
  | None =>
  localExecutorObservedAt ← ask (on_TimeNow env);
  clock ← now;
  match clock with
  | Err e => stop (uncertain prepared started e)
  | Ok now4 =>
  if negb (After (adm_executorDeadline admission) now4) then stop (uncertain prepared started ErrPreExecutionDenied) else
  match mappedExecutionDeadline (adm_executorDeadline admission) now4 localExecutorObservedAt with
  | None => stop (uncertain prepared started ErrPreExecutionDenied)
  | Some _ => mret (inl (prepared, started))
  end end end end end.

(** The [go] statement and the wait for [dispatchEntered]. *)
Definition dispatchEntered (envelope : Envelope) (value : DurableCredential) : Prog W unit :=
  let dispatch := executorCommand envelope in
  record (EvEnter dispatch value);; setExecutor (ExecutorEntered dispatch value).

(** [<-executorDone]: the wait for the goroutine's completion.  There is one, since the
    goroutine was started. *)
Definition executorDone : Prog W (Result ExecutorResult) :=
  envSteps [StepExecute; StepExecuted];;
  state ← reads w_executor;
  mret (if state is ExecutorReturned result then result else Err ErrExecutionUncertain).

(** The [select]: a case is taken only when it is ready; the executor's result can always
    be waited for.  In the other two cases the goroutine of the executor is left behind, wherever
    it is. *)
Definition awaitDispatch (ctx : Ctx) : Prog W (Result ExecutorResult) :=
  yield;;
  ready ← ask (on_Select env);
  contexts ← reads w_contexts;
  session ← reads w_session;
  match ready, hs_loop session, ctxErr ctx contexts with
  | ReadyHeartbeatsDone, LoopDone, _ =>
      yield;; contexts ← reads w_contexts;
      mret (Err (default ErrExecutionUncertain (or_else (hs_failure session) (ctxErr ctx contexts))))
  | ReadyContextDone, _, Some e =>
      yield;; failure ← reads Failure;
      mret (Err (default e (errors_Join [Some e; failure])))
  | _, _, _ =>
      result ← executorDone;
      yield;;
      contexts ← reads w_contexts;
      match ctxErr ctx contexts with
      | Some e => mret (Err e)
      | None =>
          yield;; failure ← reads Failure;
          mret (if failure is Some e then Err e else result)
      end
  end.

Definition dispatchWithHeartbeat (ctx : Ctx) (envelope : Envelope) (value : DurableCredential)
    : Prog W (Result ExecutorResult) :=
  lockBeat;;
  dispatchErr ← reads (DispatchError ctx);
  match dispatchErr with
  | Some e => unlockBeat;; mret (Err e)
  | None =>
      dispatchEntered envelope value;;
      unlockBeat;;
      awaitDispatch ctx
  end.

(** From an issued credential to the executor's result, with the context it ran under. *)
Definition runCredential (admission : Admission) (value : DurableCredential) : Prog W (Result ExecutorResult * Ctx) :=
  let envelope := claimed_Envelope (adm_claimed admission) in
  localIssueObservedAt ← ask (on_TimeNow env);
  clock ← now;
  match clock with
  | Err _ => mret (Err ErrCredentialDenied, CtxExecutor)
  | Ok issueNow =>
  secret ← ask (on_Secret env value);
  if negb (validDurableCredential value secret envelope (dec_CredentialExpiresAt (adm_credentialDecision admission)) issueNow)
  then mret (Err ErrCredentialDenied, CtxExecutor) else
  match mappedExecutionDeadline (dc_expiresAt value) issueNow localIssueObservedAt with
  | None => mret (Err ErrCredentialDenied, CtxExecutor)
  | Some _ =>
      update (setContexts (fun contexts => {| contexts with cx_credentialMade := true |}));;
      heartbeatErr ← Checkpoint CtxCredential;
      match heartbeatErr with
      | Some e => mret (Err e, CtxCredential)
      | None =>
          result ← dispatchWithHeartbeat CtxCredential envelope value;
          mret (result, CtxCredential)
      end
  end end.

(** [requestRevocation]: nothing to do when no credential was issued. *)
Definition requestRevocation (issued : option DurableCredential) : Prog W (Result (option Credential.Revocation)) :=
  match issued with
  | None => mret (Ok None)
  | Some value =>
      answer ← call (on_RequestRevocation env value) (EvRequestRevocation value);
      mret (match answer with Ok revocation => Ok (Some revocation) | Err e => Err e end)
  end.

Definition ExecutorResult_zero : ExecutorResult :=
  {| result_Outcome := ExecutorOutcomeOther ""; result_Code := ""; result_Verification := VerificationOther "";
     result_Changed := false; result_ExternalOperationRefHash := "" |}.

Definition errOf {A} (r : Result A) : option GoError := if r is Err e then Some e else None.

(** [Issue] and what follows it up to the summary of the result. *)
Definition RunNext_execute (admission : Admission) (prepared : PreparedDurableCredential)
    : Prog W (option DurableCredential * ExecutorResult) :=
  issue ← call (on_Issue env prepared) (EvIssue prepared);
  outcome ← match issue with
            | Err _ => mret (Err ErrCredentialDenied, CtxExecutor)
            | Ok value => runCredential admission value
            end;
  let '(result, executionContext) := outcome in
  heartbeatErr ← Checkpoint executionContext;
  let issued := if issue is Ok value then Some value else None in
  let summary :=
    match heartbeatErr with
    | Some e => (classifyResult ExecutorResult_zero (Some e)).2
    | None => (classifyResult (Result_default ExecutorResult_zero result) (errOf result)).2
    end in
  mret (issued, summary).

(** [Complete], the revocation and [Finalize]. *)
Definition RunNext_finish (admission : Admission) (started : Execution) (issued : option DurableCredential)
    (summary : ExecutorResult) : Prog W RunOutcome :=
  let leaseFence := Execution_Fence (claimed_Execution (adm_claimed admission)) in
  let request := {| acomplete_Lease := leaseFence; acomplete_Summary := summary |} in
  complete ← call (on_Complete env request) (EvComplete request);
  match complete with
  | Err completeErr =>
      heartbeatErr ← Stop;
      revocation ← requestRevocation issued;
      mret (redactActionExecution started,
            errors_Join [Some ErrExecutionUncertain; Some completeErr; heartbeatErr; errOf revocation])
  | Ok finalizing =>
  AcknowledgeComplete;;
  Stop;;
  revocation ← requestRevocation issued;
  match revocation with
  | Err e => mret (finalizing, errors_Join [Some ErrCredentialCleanupPending; Some e])
  | Ok revocation =>
  let completionStatus := Result_default (StatusOther "") (ResultSummaryStatus summary) in
  if (completionStatus != StatusUncertain) &&
     (if revocation is Some revocation then negb (Credential.Revocation_Terminal revocation) else false)
  then mret (finalizing, Some ErrCredentialCleanupPending) else
  finalize ← call (on_Finalize env leaseFence) (EvFinalize leaseFence);
  mret (match finalize with
        | Err e =>
            if bool_decide (errors_Is e ErrCredentialCleanupPending) then (finalizing, Some ErrCredentialCleanupPending)
            else (finalizing, errors_Join [Some ErrExecutionUncertain; Some e])
        | Ok completed =>
            match ex_Status completed with
            | StatusFailed => (completed, Some ErrExecutionFailed)
            | StatusUncertain => (completed, Some ErrExecutionUncertain)
            | _ => (completed, None)
            end
        end)
  end end.

Definition RunNext_run (admission : Admission) : Prog W RunOutcome :=
  started ← RunNext_start admission;
  match started with
  | inr o => mret o
  | inl (prepared, started) =>
      update (setContexts (fun contexts => {| contexts with cx_executorMade := true |}));;
      startHeartbeatSession (adm_scope admission) (Execution_Fence (claimed_Execution (adm_claimed admission))) 2;;
      executed ← RunNext_execute admission prepared;
      let '(issued, summary) := executed in
      RunNext_finish admission started issued summary
  end.

Definition RunNext_admission : Prog W (Admission + RunOutcome) :=
  claim ← RunNext_claim;
  match claim with
  | inr o => mret (inr o)
  | inl (runnerScope, claimed) =>
  decisions ← RunNext_policy claimed;
  match decisions with
  | inr o => mret (inr o)
  | inl (credentialDecision, decision) => RunNext_admit runnerScope claimed credentialDecision decision
  end end.

Definition RunNext : Prog W RunOutcome :=
  admission ← RunNext_admission;
  match admission with
  | inr o => mret o
  | inl admission => RunNext_run admission
  end.
End service.
