(* ===== verification/ServiceFacts.v ===== *)
(** * Facts about the execution service

    Rules for programs over a world, what the other parties may do while the main
    thread is not looking, and the two invariants of a heartbeat session: its numbering
    ([Watched]) and that no failed heartbeat goes unnoticed ([Sound]). *)

From S2P Require Import Prelude.
From S2P Require Import Credential.
From S2P Require Import DurableHandles.
From S2P Require Import ExecutionLease.
From S2P Require Import Envelope.
From S2P Require Import ActionQueue.
From S2P Require Import Policy.
From S2P Require Import Service.

Open Scope Z_scope.

(** ** Programs *)

Definition post {W A} (p : Prog W A) (Q : A -> World W -> Prop) (w : World W) : Prop := Q (p w).1 (p w).2.

Section rules.
Context {W A B : Type}.
Implicit Types (w : World W) (Q : A -> World W -> Prop).

Lemma post_ret (a : A) Q w : Q a w -> post (mret a) Q w.
Proof. done. Qed.

Lemma post_bind (p : Prog W B) (k : B -> Prog W A) Q w :
  post p (fun b w' => post (k b) Q w') w -> post (p ≫= k) Q w.
Proof. unfold post, mbind, Prog_bind. by destruct (p w). Qed.

Lemma post_update (f : World W -> World W) (Q : unit -> World W -> Prop) w : Q tt (f w) -> post (update f) Q w.
Proof. done. Qed.

Lemma post_reads (f : World W -> A) Q w : Q (f w) w -> post (reads f) Q w.
Proof. done. Qed.

Lemma post_ask (question : W -> A * W) Q w :
  (forall a o, Q a {| w with w_oracle := o |}) -> post (ask question) Q w.
Proof. unfold post, ask. intros H. destruct (question (w_oracle w)). apply H. Qed.

Lemma post_perform (question : W -> A * W) event Q w :
  (forall a o, Q a {| w_oracle := o; w_events := w_events w ++ [event a]; w_contexts := w_contexts w;
                      w_session := w_session w; w_executor := w_executor w |}) ->
  post (perform question event) Q w.
Proof. unfold post, perform, ask, mbind, Prog_bind. intros H. destruct (question (w_oracle w)). apply H. Qed.

Lemma post_mono (p : Prog W A) (Q Q' : A -> World W -> Prop) w :
  post p Q w -> (forall a w', Q a w' -> Q' a w') -> post p Q' w.
Proof. unfold post. auto. Qed.

Lemma post_run (p : Prog W A) Q w a w' : post p Q w -> p w = (a, w') -> Q a w'.
Proof. unfold post. intros H E. by rewrite E in H. Qed.
End rules.

(** One step of the main thread's own computation. *)
Ltac post_step :=
  lazymatch goal with
  | |- post (mbind _ _) _ _ => apply post_bind
  | |- post (mret _) _ _ => apply post_ret
  | |- post (update _) _ _ => apply post_update
  | |- post (reads _) _ _ => apply post_reads
  | |- post (ask _) _ _ => apply post_ask; intros ? ?
  | |- post (perform _ _) _ _ => apply post_perform; intros ? ?
  | |- post (if ?b then _ else _) _ _ => destruct b eqn:?
  | |- post (let _ := _ in _) _ _ => cbv zeta
  | |- post (match ?x with _ => _ end) _ _ => destruct x eqn:?
  end; cbv beta iota.

(** ** Contexts *)

Lemma or_else_None a b : or_else a b = None <-> a = None /\ b = None.
Proof. destruct a; simpl; naive_solver. Qed.

(** A context that ended stays ended. *)
Lemma cancelExecutor_ended contexts e ctx :
  is_Some (ctxErr ctx contexts) -> is_Some (ctxErr ctx (cancelExecutor contexts e)).
Proof.
  unfold cancelExecutor. intros [e' He]. case_match; [by exists e'|]. destruct contexts as [c m x m' r s].
  destruct ctx; simpl in *; destruct s, r, x, c; simpl in *; eauto.
Qed.

Lemma ctxStep_ended step contexts ctx :
  is_Some (ctxErr ctx contexts) -> is_Some (ctxErr ctx (ctxStep step contexts)).
Proof.
  intros He. destruct step; simpl; try (repeat case_match; auto using cancelExecutor_ended; fail).
  - case_match; [done|]. destruct contexts as [c m x m' r s], ctx; simpl in *; destruct s, r, x; simpl in *; eauto.
  - case_match; [done|]. destruct contexts as [c m x m' r s], ctx; simpl in *; destruct s, r, x; simpl in *; eauto.
Qed.

(** What [ctxStep] and [cancelExecutor] leave alone. *)
Definition frame (contexts : Contexts) : bool * bool * option GoError :=
  (cx_executorMade contexts, cx_credentialMade contexts, cx_stopped contexts).

Lemma cancelExecutor_frame contexts e : frame (cancelExecutor contexts e) = frame contexts.
Proof. unfold cancelExecutor. by case_match. Qed.
Lemma ctxStep_frame step contexts : frame (ctxStep step contexts) = frame contexts.
Proof. destruct step; simpl; repeat case_match; auto using cancelExecutor_frame. Qed.

Lemma cancelExecutor_cancels contexts e : cx_executorMade contexts = true ->
  is_Some (ctxErr CtxExecutor (cancelExecutor contexts e)).
Proof.
  unfold cancelExecutor. intros ->. simpl negb. rewrite orb_false_l. destruct (ctxErr CtxExecutor contexts) eqn:E; [eauto|].
  simpl. eauto.
Qed.

(** The contexts below the executor's end with it. *)
Lemma ctxErr_executor contexts ctx : ctx <> CtxCaller ->
  is_Some (ctxErr CtxExecutor contexts) -> is_Some (ctxErr ctx contexts).
Proof. intros Hctx [e He]. destruct contexts as [c m x m' r s], ctx; simpl in *; try done; destruct s, r; simpl; eauto. Qed.

(** The heartbeat context ends by [stop] or with the executor's. *)
Lemma ctxErr_heartbeat contexts : cx_stopped contexts = None ->
  is_Some (ctxErr CtxHeartbeat contexts) -> is_Some (ctxErr CtxExecutor contexts).
Proof. simpl. by intros ->. Qed.

(** ** The goroutine of the executor *)

(** What one step of it records, and where it is then. *)
Inductive executor_move : ExecutorState -> list Event -> ExecutorState -> Prop :=
| moves_not state : executor_move state [] state
| moves_call command value :
    executor_move (ExecutorEntered (DispatchCommand command) value) [EvExecute command value] (ExecutorCalled command value)
| moves_fail dispatch value e : (forall command, dispatch <> DispatchCommand command) ->
    executor_move (ExecutorEntered dispatch value) [] (ExecutorReturned (Err e))
| moves_return command value result :
    executor_move (ExecutorCalled command value) [EvReturned result] (ExecutorReturned result).

(** The events of the executor: the entry, and what its goroutine does then. *)
Definition ofExecutor (e : Event) : bool :=
  match e with EvExecute _ _ | EvReturned _ => true | _ => false end.
Definition executing (e : Event) : bool :=
  match e with EvEnter _ _ => true | _ => ofExecutor e end.

(** The events so far of a goroutine that is in some state. *)
Inductive ExecutorTrace : ExecutorState -> list Event -> Prop :=
| TraceAbsent : ExecutorTrace ExecutorAbsent []
| TraceEntered dispatch value : ExecutorTrace (ExecutorEntered dispatch value) [EvEnter dispatch value]
| TraceCalled command value :
    ExecutorTrace (ExecutorCalled command value) [EvEnter (DispatchCommand command) value; EvExecute command value]
| TraceFailed dispatch value e : (forall command, dispatch <> DispatchCommand command) ->
    ExecutorTrace (ExecutorReturned (Err e)) [EvEnter dispatch value]
| TraceReturned command value result :
    ExecutorTrace (ExecutorReturned result)
      [EvEnter (DispatchCommand command) value; EvExecute command value; EvReturned result].

Lemma executor_move_trace state events state' trace :
  executor_move state events state' -> ExecutorTrace state trace -> ExecutorTrace state' (trace ++ events).
Proof.
  intros Hm Ht. destruct Hm; inversion Ht; subst; simpl; rewrite ?app_nil_r; try done; by constructor.
Qed.

Lemma executor_move_events state events state' :
  executor_move state events state' -> Forall (fun e => ofExecutor e = true) events /\ List.filter executing events = events.
Proof. intros []; simpl; split; auto. Qed.

(** Its events end as its state says. *)
Lemma ExecutorTrace_returned result trace : ExecutorTrace (ExecutorReturned (Ok result)) trace -> EvReturned (Ok result) ∈ trace.
Proof. inversion 1; subst. set_solver. Qed.

Section executor.
Context {W : Type} (env : Environment W).

Lemma post_executorStep step (Q : unit -> World W -> Prop) w :
  (forall o events state, executor_move (w_executor w) events state ->
     Q tt {| w_oracle := o; w_events := w_events w ++ events; w_contexts := w_contexts w; w_session := w_session w;
             w_executor := state |}) ->
  post (executorStep env step) Q w.
Proof.
  intros HQ. assert (Hnot : Q tt w).
  { pose proof (HQ (w_oracle w) [] (w_executor w) (moves_not _)) as H. rewrite app_nil_r in H. by destruct w. }
  assert (Hfail : forall dispatch value e, w_executor w = ExecutorEntered dispatch value ->
    (forall command, dispatch <> DispatchCommand command) -> Q tt {| w with w_executor := ExecutorReturned (Err e) |}).
  { intros dispatch value e E Hd. pose proof (HQ (w_oracle w) [] (ExecutorReturned (Err e))) as H.
    rewrite E, app_nil_r in H. apply H. by constructor. }
  unfold executorStep. do 2 post_step. destruct step; try (by apply post_ret).
  - destruct (w_executor w) as [|[command| |] value|command value|result] eqn:E; try (by apply post_ret).
    + post_step. apply post_update, post_update. apply HQ. constructor.
    + apply post_update. by eapply Hfail.
    + apply post_update. by eapply Hfail.
  - destruct (w_executor w) as [|dispatch value|command value|result] eqn:E; try (by apply post_ret).
    do 2 post_step. apply post_update. apply HQ. constructor.
Qed.

(** Waiting for its completion. *)
Lemma post_executorDone service (Q : Result ExecutorResult -> World W -> Prop) w :
  post (envSteps env service [StepExecute; StepExecuted]) (fun _ w' =>
    forall r, (forall result, r = Ok result -> w_executor w' = ExecutorReturned (Ok result)) -> Q r w') w ->
  post (executorDone env service) Q w.
Proof.
  intros H. unfold executorDone. apply post_bind. eapply post_mono; [exact H|]. intros [] w' HQ. do 3 post_step.
  apply HQ. intros result. destruct (w_executor w'); try done. by intros ->.
Qed.
End executor.

(** ** The other parties *)

(** A fact that every step of the other parties keeps survives a yield. *)
Section stable.
Context {W : Type} (env : Environment W) (service : Service).
Variable (I : World W -> Prop).
Hypothesis I_oracle : forall w o, I w -> I {| w with w_oracle := o |}.
Hypothesis I_ctx : forall w step, I w -> I (setContexts (ctxStep step) w).
Hypothesis I_loop : forall w step, I w -> post (loopStep env service step) (fun _ w' => I w') w.
Hypothesis I_executor : forall w step, I w -> post (executorStep env step) (fun _ w' => I w') w.

Lemma envSteps_stable steps w : I w -> post (envSteps env service steps) (fun _ w' => I w') w.
Proof.
  revert w. induction steps as [|step steps IH]; intros w Hw; simpl; [done|].
  post_step. apply (post_mono _ (fun _ w' => I w')); [|intros [] w'; apply IH].
  destruct step; simpl; try apply I_loop, Hw; try apply I_executor, Hw. by apply I_ctx.
Qed.

Lemma yield_stable w : I w -> post (yield env service) (fun _ w' => I w') w.
Proof. intros Hw. unfold yield. do 2 post_step. by apply envSteps_stable, I_oracle. Qed.
End stable.

(** ** The events of a heartbeat session *)

Definition beat (e : Event) : bool :=
  match e with
  | EvResolveRunner _ _ | EvHeartbeat _ _ => true
  | _ => false
  end.

(** A heartbeat the queue accepted, for a claimed scope and lease. *)
Definition accepted (scope : RunnerScope) (lease : LeaseIdentity) (e : Event) : bool :=
  match e with
  | EvHeartbeat _ (Ok response) => beatAccepted scope lease response
  | _ => false
  end.

(** No heartbeat event that shows the lease lost: the registration still has the claimed
    scope, the queue accepts. *)
Definition good (scope : RunnerScope) (lease : LeaseIdentity) (e : Event) : bool :=
  match e with
  | EvResolveRunner _ (Ok registration) =>
      if RunnerRegistration_Scope registration is Ok current then sameRunnerScope current scope else false
  | EvResolveRunner _ (Err _) => false
  | EvHeartbeat _ _ => accepted scope lease e
  | _ => true
  end.

(** The number the next heartbeat should carry. *)
Definition expected (scope : RunnerScope) (lease : LeaseIdentity) (events : list Event) : Z :=
  1 + Z.of_nat (List.length (List.filter (accepted scope lease) events)).

Definition numbered (scope : RunnerScope) (lease : LeaseIdentity) (events : list Event) : Prop :=
  forall before request answer after, events = before ++ EvHeartbeat request answer :: after ->
  ahb_Lease request = lease /\ ahb_Sequence request = expected scope lease before.

Section beats.
Context (scope : RunnerScope) (lease : LeaseIdentity).
Abbreviation expected := (expected scope lease).
Abbreviation numbered := (numbered scope lease).
Abbreviation accepted := (accepted scope lease).
Abbreviation good := (good scope lease).

Lemma expected_app events events' :
  expected (events ++ events') = expected events + Z.of_nat (List.length (List.filter accepted events')).
Proof. unfold ServiceFacts.expected. rewrite List.filter_app, List.length_app. lia. Qed.

Lemma expected_snoc events e : expected (events ++ [e]) = expected events + (if accepted e then 1 else 0).
Proof. rewrite expected_app. simpl. by destruct (accepted e). Qed.

Lemma numbered_snoc events e : numbered events ->
  (forall request answer, e = EvHeartbeat request answer ->
     ahb_Lease request = lease /\ ahb_Sequence request = expected events) ->
  numbered (events ++ [e]).
Proof.
  intros Hn He before request answer after E.
  induction after as [|e' after _] using rev_ind.
  - apply app_inj_tail in E as [<- ->]. eauto.
  - rewrite app_comm_cons, app_assoc in E. apply app_inj_tail in E as [-> _]. eauto.
Qed.

Lemma numbered_quiet events e : numbered events -> accepted e = false -> beat e = false \/ (exists id a, e = EvResolveRunner id a) ->
  numbered (events ++ [e]).
Proof. intros Hn _ He. apply numbered_snoc; [done|]. intros request answer ->. destruct He as [?|(? & ? & ?)]; done. Qed.
End beats.

(** ** The numbering of heartbeats *)

(** The goroutine is not inside [checkpoint]. *)
Definition quiet (session : Session) : Prop :=
  match hs_loop session with LoopWaiting | LoopDone => True | _ => False end.

(** An accepted heartbeat whose [nextSequence++] is still to come: the goroutine's, and in
    [d] the main thread's, which holds the lock then. *)
Definition unreturned (session : Session) : Z :=
  match hs_loop session with LoopAnswered None => 1 | _ => 0 end.

Record Watched {W} (scope : RunnerScope) (lease : LeaseIdentity) (d : Z) (w : World W) : Prop := {
  wd_scope : hs_claimedScope (w_session w) = scope;
  wd_lease : hs_lease (w_session w) = lease;
  wd_numbered : numbered scope lease (w_events w);
  wd_count : hs_nextSequence (w_session w) + unreturned (w_session w) + d = expected scope lease (w_events w);
  wd_locked : hs_beatMu (w_session w) = true -> quiet (w_session w);
  wd_started : hs_loop (w_session w) <> LoopAbsent;
  wd_main : d = 0 \/ hs_beatMu (w_session w) = true
}.

(** ** No failed heartbeat goes unnoticed *)

Definition lost {W} (w : World W) : Prop :=
  is_Some (hs_failure (w_session w)) \/ is_Some (ctxErr CtxExecutor (w_contexts w)) \/
  (exists e, hs_loop (w_session w) = LoopAnswered (Some e)).

Record Sound {W} (scope : RunnerScope) (lease : LeaseIdentity) (w : World W) : Prop := {
  sd_scope : hs_claimedScope (w_session w) = scope;
  sd_lease : hs_lease (w_session w) = lease;
  sd_running : hs_completeAcked (w_session w) = false /\ cx_stopped (w_contexts w) = None;
  sd_made : cx_executorMade (w_contexts w) = true;
  sd_noticed : Forall (fun e => good scope lease e = true) (w_events w) \/ lost w
}.

Section session.
Context {W : Type} (env : Environment W) (service : Service) (scope : RunnerScope) (lease : LeaseIdentity).
Implicit Types w : World W.

(** The two halves of [heartbeatOnce]: each records one event, and an error is reported
    unless the event is a good one. *)
Lemma post_heartbeatScope ctx Q w :
  (forall o id answer err, (err = None -> good scope lease (EvResolveRunner id answer) = true) ->
     Q err {| w_oracle := o; w_events := w_events w ++ [EvResolveRunner id answer]; w_contexts := w_contexts w;
              w_session := w_session w; w_executor := w_executor w |}) ->
  post (heartbeatScope env service ctx scope) Q w.
Proof.
  intros HQ. unfold heartbeatScope, resolveRunnerScope. do 4 post_step.
  destruct a as [registration|e]; simpl; [|repeat post_step; by apply HQ].
  destruct (RunnerRegistration_Scope registration) as [current|] eqn:Hs; [|repeat post_step; by apply HQ].
  destruct (_ || _); [repeat post_step; by apply HQ|].
  post_step. apply HQ. simpl. rewrite Hs. by destruct (sameRunnerScope _ _).
Qed.

Lemma post_heartbeatSend sequence Q w :
  (forall o request answer, ahb_Lease request = lease -> ahb_Sequence request = sequence ->
     let e := EvHeartbeat request answer in
     forall err, (err = None <-> accepted scope lease e = true) ->
     Q err {| w_oracle := o; w_events := w_events w ++ [e]; w_contexts := w_contexts w; w_session := w_session w;
              w_executor := w_executor w |}) ->
  post (heartbeatSend env service scope lease sequence) Q w.
Proof.
  intros HQ. unfold heartbeatSend. repeat post_step. apply HQ; [done..|].
  destruct a as [response|]; simpl; [destruct (beatAccepted _ _ _)|]; naive_solver.
Qed.

(** *** Numbering *)

Lemma Watched_oracle d w o : Watched scope lease d w -> Watched (W:=W) scope lease d {| w with w_oracle := o |}.
Proof. by intros []. Qed.

Lemma Watched_contexts d f w : Watched scope lease d w -> Watched scope lease d (setContexts f w).
Proof. by intros []. Qed.

Lemma Watched_loop d w step : Watched scope lease d w ->
  post (loopStep env service step) (fun _ w' => Watched scope lease d w') w.
Proof.
  intros HW. pose proof HW as [Hs Hl Hn Hc Hlk Hst Hm]. unfold loopStep. do 2 post_step.
  destruct (hs_loop (w_session w)) eqn:Hloop; destruct step; try (by apply post_ret).
  all: unfold unreturned, quiet in *; rewrite Hloop in *.
  - (* tick *) destruct (hs_beatMu (w_session w)) eqn:Hmu; [by apply post_ret|]. do 2 post_step. apply post_update.
    constructor; unfold unreturned, quiet; simpl; rewrite ?Hmu; auto; by destruct (DispatchError _ _).
  - (* exit *) do 2 post_step. destruct (ctxErr _ _); [|by apply post_ret]. apply post_update. by constructor.
  - (* scope *) rewrite Hs. post_step. apply post_heartbeatScope. intros o id answer err _. apply post_update.
    constructor; unfold unreturned, quiet; simpl; rewrite ?expected_snoc; simpl; auto.
    + apply numbered_quiet; eauto.
    + destruct err; simpl; lia.
    + intros Hmu. by destruct (Hlk Hmu).
    + by destruct err.
  - (* heartbeat *) assert (d = 0) as -> by (destruct Hm as [?|Hmu]; [done|by destruct (Hlk Hmu)]).
    rewrite Hs, Hl. post_step. apply post_heartbeatSend. intros o request answer Hlease Hseq e err Herr.
    apply post_update. constructor; unfold unreturned, quiet; simpl; rewrite ?expected_snoc; auto.
    + apply numbered_snoc; [done|]. intros ? ? [= <- <-]. split; [done|]. rewrite Hseq. lia.
    + subst e. destruct Herr as [Herr1 Herr2], (accepted _ _ _), err; try lia; [by specialize (Herr2 eq_refl)|by specialize (Herr1 eq_refl)].
  - (* return *) post_step. destruct result as [e|]; apply post_update, post_update.
    + destruct (ctxErr _ _); [by constructor|]. unfold failSession. destruct (_ || _); by constructor.
    + constructor; unfold unreturned, quiet; simpl; auto. lia.
Qed.

Lemma Watched_executor d w step : Watched scope lease d w ->
  post (executorStep env step) (fun _ w' => Watched scope lease d w') w.
Proof.
  intros [Hs Hl Hn Hc Hlk Hst Hm]. apply post_executorStep. intros o events state Hmove.
  destruct Hmove; simpl; rewrite ?app_nil_r; constructor; simpl; rewrite ?app_nil_r, ?expected_snoc, ?Z.add_0_r; auto;
    apply numbered_quiet; auto.
Qed.

Lemma Watched_yield d w : Watched scope lease d w ->
  post (yield env service) (fun _ w' => Watched scope lease d w') w.
Proof.
  apply (yield_stable env service (Watched scope lease d));
    [intros; by apply Watched_oracle|intros; by apply Watched_contexts|intros; by apply Watched_loop|intros; by apply Watched_executor].
Qed.

(** *** Noticing a loss *)

Lemma lost_contexts f w : (forall ctx, is_Some (ctxErr ctx (w_contexts w)) -> is_Some (ctxErr ctx (f (w_contexts w)))) ->
  lost w -> lost (setContexts f w).
Proof. intros Hf [?|[?|?]]; [by left|right; left; by apply (Hf CtxExecutor)|by right; right]. Qed.

Lemma Sound_oracle w o : Sound scope lease w -> Sound (W:=W) scope lease {| w with w_oracle := o |}.
Proof. by intros []. Qed.

Lemma Sound_ctx w step : Sound scope lease w -> Sound scope lease (setContexts (ctxStep step) w).
Proof.
  intros [Hs Hl [Ha Hst] Hm Hn]. pose proof (ctxStep_frame step (w_contexts w)) as Hf. unfold frame in Hf.
  injection Hf as Hf1 _ Hf2. constructor; simpl; auto; [by rewrite Hf2|by rewrite Hf1|].
  destruct Hn as [Hn|Hn]; [by left|right]. apply lost_contexts; [|done]. intros ctx. apply ctxStep_ended.
Qed.

Lemma Sound_loop w step : Sound scope lease w ->
  post (loopStep env service step) (fun _ w' => Sound scope lease w') w.
Proof.
  intros HS. pose proof HS as [Hs Hl [Ha Hst] Hm Hn]. unfold loopStep. do 2 post_step.
  destruct (hs_loop (w_session w)) eqn:Hloop; destruct step; try (by apply post_ret).
  all: assert (Hkeep : Forall (fun e => good scope lease e = true) (w_events w) \/
         (is_Some (hs_failure (w_session w)) \/ is_Some (ctxErr CtxExecutor (w_contexts w))) \/
         exists e, hs_loop (w_session w) = LoopAnswered (Some e)) by (unfold lost in Hn; tauto).
  - (* tick *) destruct (hs_beatMu (w_session w)) eqn:Hmu; [by apply post_ret|]. do 2 post_step. apply post_update.
    constructor; simpl; auto. destruct Hkeep as [?|[?|[? ?]]]; [by left|right; unfold lost; simpl; tauto|congruence].
  - (* exit *) do 2 post_step. destruct (ctxErr CtxHeartbeat _); [|by apply post_ret]. apply post_update.
    constructor; simpl; auto. destruct Hkeep as [?|[?|[? ?]]]; [by left|right; unfold lost; simpl; tauto|congruence].
  - (* scope *) rewrite Hs. post_step. apply post_heartbeatScope. intros o id answer err Herr. apply post_update.
    constructor; simpl; auto. destruct err as [e|]; [right; right; right; simpl; eauto|].
    destruct Hkeep as [?|[?|[? ?]]]; [|right; unfold lost; simpl; tauto|congruence].
    left. apply Forall_app. split; [done|]. constructor; [by apply Herr|done].
  - (* heartbeat *) rewrite Hs, Hl. post_step. apply post_heartbeatSend. intros o request answer _ _ e err Herr.
    apply post_update. constructor; simpl; auto. destruct err as [e'|]; [right; right; right; simpl; eauto|].
    destruct Hkeep as [?|[?|[? ?]]]; [|right; unfold lost; simpl; tauto|congruence].
    left. apply Forall_app. split; [done|]. constructor; [by apply Herr|done].
  - (* return *) post_step. destruct result as [e|]; apply post_update, post_update.
    + destruct (ctxErr CtxHeartbeat (w_contexts w)) as [e'|] eqn:Hctx.
      * constructor; simpl; auto. right. right. left. simpl. eapply (ctxErr_heartbeat (w_contexts w)); [done|eauto].
      * unfold failSession. rewrite Ha. destruct (hs_failure (w_session w)) eqn:Hf; simpl.
        -- constructor; simpl; auto. right. left. simpl. rewrite Hf. eauto.
        -- pose proof (cancelExecutor_frame (w_contexts w) context_Canceled) as Hfr. unfold frame in Hfr.
           injection Hfr as Hf1 _ Hf2. constructor; simpl; auto; [by rewrite Hf2|by rewrite Hf1|].
           right. left. simpl. eauto.
    + constructor; simpl; auto. destruct Hkeep as [?|[?|[? ?]]]; [by left|right; unfold lost; simpl; tauto|congruence].
Qed.

Lemma Sound_executor w step : Sound scope lease w -> post (executorStep env step) (fun _ w' => Sound scope lease w') w.
Proof.
  intros [Hs Hl Hr Hm Hn]. apply post_executorStep. intros o events state Hmove. constructor; simpl; auto.
  destruct Hn as [Hall|Hlost]; [left|by right]. apply Forall_app. split; [done|].
  destruct (executor_move_events _ _ _ Hmove) as [He _]. eapply Forall_impl; [exact He|]. by intros [].
Qed.

Lemma Sound_yield w : Sound scope lease w -> post (yield env service) (fun _ w' => Sound scope lease w') w.
Proof.
  apply (yield_stable env service (Sound scope lease));
    [intros; by apply Sound_oracle|intros; by apply Sound_ctx|intros; by apply Sound_loop|intros; by apply Sound_executor].
Qed.
End session.
