(* ===== verification/ServiceTraces.v ===== *)
(** * Traces of the execution service

    What each part of [RunNext] adds to the trace of calls, first while there is no
    heartbeat session ([idle]) and then beside one ([Run]). *)

From S2P Require Import Prelude.
From S2P Require Import Credential.
From S2P Require Import DurableHandles.
From S2P Require Import ExecutionLease.
From S2P Require Import Envelope.
From S2P Require Import ActionQueue.
From S2P Require Import Policy.
From S2P Require Import Service.
From S2P Require Import ServiceFacts.

Open Scope Z_scope.

(** ** Before the session *)

Record idle {W} (w : World W) : Prop := {
  idle_session : w_session w = Session_none;
  idle_contexts : frame (w_contexts w) = (false, false, None);
  idle_executor : w_executor w = ExecutorAbsent
}.

Definition extends {W} (w0 : World W) (trace : list Event) (w : World W) : Prop :=
  w_events w = w_events w0 ++ trace.

Section idle_rules.
Context {W : Type} (env : Environment W) (service : Service).
Context (Transform : string -> Result string) (ed25519_Verify : string -> string -> string -> bool).
Implicit Types (w : World W).

(** An idle world with a known trace. *)
Definition At (w0 : World W) (trace : list Event) (w : World W) : Prop := idle w /\ extends w0 trace w.

Lemma At_start w : idle w -> At w [] w.
Proof. intros. split; [done|]. unfold extends. by rewrite app_nil_r. Qed.

Lemma At_oracle w0 trace w o : At w0 trace w -> At w0 trace {| w with w_oracle := o |}.
Proof. by intros [[] ?]. Qed.

Lemma At_yield w0 trace w : At w0 trace w -> post (yield env service) (fun _ w' => At w0 trace w') w.
Proof.
  apply (yield_stable env service (At w0 trace)).
  - intros. by apply At_oracle.
  - intros w' step [[Hs Hc Hx] Ht]. split; [|done]. constructor; simpl; [done| |done]. by rewrite ctxStep_frame.
  - intros w' step HA. pose proof HA as [[Hs Hc Hx] Ht]. unfold loopStep. do 2 post_step. rewrite Hs. simpl. by destruct step.
  - intros w' step [[Hs Hc Hx] Ht]. apply post_executorStep. intros o events state Hmove. rewrite Hx in Hmove.
    inversion Hmove; subst. split; [done|]. unfold extends. simpl. by rewrite app_nil_r.
Qed.

Lemma At_record w0 trace w e :
  At w0 trace w -> At w0 (trace ++ [e])
    {| w_oracle := w_oracle w; w_events := w_events w ++ [e]; w_contexts := w_contexts w; w_session := w_session w;
       w_executor := w_executor w |}.
Proof. intros [[] Ht]. split; [done|]. unfold extends in *. simpl. by rewrite Ht, app_assoc. Qed.

Lemma at_yield w0 trace Q w : At w0 trace w -> (forall w', At w0 trace w' -> Q tt w') -> post (yield env service) Q w.
Proof. intros HA HQ. eapply post_mono; [by apply At_yield|]. intros []. apply HQ. Qed.

Lemma at_ask w0 trace {A} (question : W -> A * W) Q w :
  At w0 trace w -> (forall a w', At w0 trace w' -> Q a w') -> post (ask question) Q w.
Proof. intros HA HQ. apply post_ask. intros. by apply HQ, At_oracle. Qed.

Lemma at_perform w0 trace {A} (question : W -> A * W) event Q w :
  At w0 trace w -> (forall a w', At w0 (trace ++ [event a]) w' -> Q a w') -> post (perform question event) Q w.
Proof.
  intros HA HQ. apply post_perform. intros a o. apply HQ.
  apply (At_oracle _ _ _ o) in HA. by apply (At_record _ _ _ (event a)) in HA.
Qed.

Lemma at_call w0 trace {A} (question : W -> A * W) event Q w :
  At w0 trace w -> (forall a w', At w0 (trace ++ [event a]) w' -> Q a w') -> post (call env service question event) Q w.
Proof.
  intros HA HQ. unfold call. post_step. eapply at_yield; [done|]. intros w' HA'. eapply at_perform; [done|]. done.
Qed.

Lemma at_now w0 trace Q w : At w0 trace w -> (forall r w', At w0 trace w' -> Q r w') -> post (now env) Q w.
Proof. intros HA HQ. unfold now. post_step. eapply at_ask; [done|]. intros. post_step. by apply HQ. Qed.

Lemma at_Err_now w0 trace ctx Q w :
  At w0 trace w -> (forall r w', At w0 trace w' -> Q r w') -> post (Err_now env service ctx) Q w.
Proof. intros HA HQ. unfold Err_now. post_step. eapply at_yield; [done|]. intros. repeat post_step. by apply HQ. Qed.

Lemma at_resolveRunnerScope w0 trace Q w : At w0 trace w ->
  (forall answer result w', At w0 (trace ++ [EvResolveRunner (svc_runnerID service) answer]) w' ->
     (forall scope, result = Ok scope ->
        (exists registration, answer = Ok registration /\ RunnerRegistration_Scope registration = Ok scope) /\
        scope_pool scope = PoolWrite /\ scope_runnerID scope = svc_runnerID service) ->
     Q result w') ->
  post (resolveRunnerScope env service) Q w.
Proof.
  intros HA HQ. unfold resolveRunnerScope. post_step. eapply at_perform; [done|]. intros answer w' HA'. post_step.
  apply (HQ answer); [done|]. intros scope Hok. destruct answer as [registration|]; [|done].
  destruct (RunnerRegistration_Scope registration) as [current|] eqn:Hs; [|done].
  destruct (_ || _) eqn:Hb; [done|]. injection Hok as ->. guards. eauto.
Qed.

(** What a snapshot of the safety gate shows when it is accepted. *)
Definition safetyHolds (request : SafetyRequest) (snapshot : ClaimSafetySnapshot) : Prop :=
  cs_Enabled snapshot = true /\ cs_Pool snapshot = sr_Pool request /\ cs_RunnerID snapshot = sr_RunnerID request /\
  (sr_Phase request = SafetyPhaseStart ->
   cs_WorkspaceID snapshot = sr_WorkspaceID request /\ cs_EnvironmentID snapshot = sr_EnvironmentID request /\
   cs_ConnectorID snapshot = sr_ConnectorID request /\ cs_ActionType snapshot = sr_ActionType request).

Lemma at_checkSafety w0 trace request Q w : At w0 trace w ->
  (forall answer result w', At w0 (trace ++ [EvSafety request answer]) w' ->
     (forall snapshot, result = Ok snapshot -> answer = Ok snapshot /\ safetyHolds request snapshot) ->
     Q result w') ->
  post (checkSafety env service request) Q w.
Proof.
  intros HA HQ. unfold checkSafety. post_step. eapply at_call; [done|]. intros answer w' HA'.
  destruct answer as [snapshot|e]; [|post_step; by apply (HQ (Err e))].
  post_step. eapply at_now; [done|]. intros clock w'' HA''. post_step. apply (HQ (Ok snapshot)); [done|].
  intros snapshot' Hok. destruct clock as [now|]; [|done]. destruct (_ || _) eqn:Hb in Hok; [done|]. guards.
  unfold safetyHolds. destruct (sr_Phase request == SafetyPhaseClaim) eqn:Hphase.
  - destruct (_ || _) in Hok; [done|]. guards. split_and!; congruence.
  - destruct (_ || _) eqn:Hb' in Hok; [done|]. guards. split_and!; [congruence..|intros; split_and!; congruence].
Qed.

Lemma at_resolveEnvironment w0 trace envelope Q w : At w0 trace w ->
  (forall answer result w',
     At w0 (trace ++ [EvResolveEnvironment (env_WorkspaceID envelope) (target_EnvironmentID (env_Target envelope)) answer]) w' ->
     (forall snapshot, result = Ok snapshot -> answer = Ok snapshot) ->
     Q result w') ->
  post (resolveEnvironment env service envelope) Q w.
Proof.
  intros HA HQ. unfold resolveEnvironment. post_step. eapply at_call; [done|]. intros answer w' HA'.
  destruct answer as [snapshot|e]; [|post_step; by apply (HQ (Err e))].
  post_step. eapply at_now; [done|]. intros clock w'' HA''. post_step. apply (HQ (Ok snapshot)); [done|].
  intros snapshot'. destruct clock; [|done]. destruct (_ || _); congruence.
Qed.

(** Giving a claim back. *)
Definition release (e : Event) : bool :=
  match e with EvReject _ _ | EvNack _ _ => true | _ => false end.

Lemma at_nack w0 trace {A} claimed code cause (Q : A + RunOutcome -> World W -> Prop) w : At w0 trace w ->
  (forall o e w', release e = true -> At w0 (trace ++ [e]) w' -> o.2 <> None -> Q (inr o) w') ->
  post (stop (nackClaim env service claimed code cause)) Q w.
Proof.
  intros HA HQ. unfold stop, nackClaim. repeat post_step. eapply at_call; [done|]. intros answer w' HA'.
  do 2 post_step. eapply HQ; [|done|]; [done|]. by destruct answer.
Qed.

Lemma at_reject w0 trace {A} claimed code cause (Q : A + RunOutcome -> World W -> Prop) w : At w0 trace w ->
  (forall o e w', release e = true -> At w0 (trace ++ [e]) w' -> o.2 <> None -> Q (inr o) w') ->
  post (stop (rejectClaim env service claimed code cause)) Q w.
Proof.
  intros HA HQ. unfold stop, rejectClaim. repeat post_step. eapply at_call; [done|]. intros answer w' HA'.
  do 2 post_step. eapply HQ; [|done|]; [done|]. by destruct answer.
Qed.
End idle_rules.

(** ** The admission of an action *)

(** The calls before the credential is prepared that change nothing. *)
Definition reading (e : Event) : bool :=
  match e with
  | EvResolveRunner _ _ | EvResolveEnvironment _ _ _ | EvSafety _ _ | EvEvaluateCredentialIssue _ _
  | EvEvaluatePreExecution _ _ | EvClaim _ _ => true
  | _ => false
  end.

Definition readings (trace : list Event) : Prop := Forall (fun e => reading e = true) trace.

(** A run that ends before a credential is prepared: it reads, and may give the claim back. *)
Definition withdrawn (trace : list Event) : Prop :=
  readings trace \/ exists before e, trace = before ++ [e] /\ readings before /\ release e = true.

Lemma readings_snoc trace e : readings trace -> reading e = true -> readings (trace ++ [e]).
Proof. intros. apply Forall_app. split; [done|]. by constructor. Qed.

Lemma withdrawn_release trace e : readings trace -> release e = true -> withdrawn (trace ++ [e]).
Proof. right. eauto. Qed.

Lemma snoc_here (e : Event) trace : e ∈ trace ++ [e].
Proof. apply elem_of_app. right. constructor. Qed.

Lemma snoc_before (e e' : Event) trace : e ∈ trace -> e ∈ trace ++ [e'].
Proof. intros. apply elem_of_app. by left. Qed.

(** The calls of a trace, one by one. *)
Ltac solve_readings := repeat (apply readings_snoc; [|reflexivity]); assumption.
Ltac solve_withdrawn :=
  first [apply withdrawn_release; [solve_readings|assumption] | left; solve_readings].
Ltac solve_called := solve [repeat first [assumption | apply snoc_here | apply snoc_before]].

(** Every look at the runner's registration so far found the claimed scope. *)
Definition scopedBy (scope : RunnerScope) (e : Event) : Prop :=
  match e with
  | EvResolveRunner _ answer => exists registration, answer = Ok registration /\ RunnerRegistration_Scope registration = Ok scope
  | _ => True
  end.

Ltac solve_scoped := repeat (apply Forall_app; split; [|by constructor]); assumption.

(** What is known once an action is admitted, with the calls that showed it. *)
Record Claimed (Transform : string -> Result string) (ed25519_Verify : string -> string -> string -> bool)
    (service : Service) (trace : list Event) (runnerScope : RunnerScope) (claimed : ClaimedAction) : Prop := {
  cl_scope : exists registration, EvResolveRunner (svc_runnerID service) (Ok registration) ∈ trace /\
    RunnerRegistration_Scope registration = Ok runnerScope /\ scope_pool runnerScope = PoolWrite /\
    scope_runnerID runnerScope = svc_runnerID service;
  cl_claim : EvClaim {| aclaim_Scope := runnerScope; aclaim_LeaseDuration := svc_leaseDuration service |} (Ok claimed) ∈ trace;
  cl_bound : claimBound runnerScope claimed = true;
  cl_verified : exists keys now, Verify Transform ed25519_Verify (claimed_Envelope claimed) keys now = Ok tt;
  cl_environment : exists snapshot,
    EvResolveEnvironment (env_WorkspaceID (claimed_Envelope claimed))
      (target_EnvironmentID (env_Target (claimed_Envelope claimed))) (Ok snapshot) ∈ trace /\
    environmentHolds snapshot claimed = true
}.

Record Cleared {W} (env : Environment W) (trace : list Event) (admission : Admission) : Prop := {
  ad_credentialDecision :
    EvEvaluateCredentialIssue (claimed_Envelope (adm_claimed admission)) (Ok (adm_credentialDecision admission)) ∈ trace;
  ad_decision :
    EvEvaluatePreExecution (claimed_Envelope (adm_claimed admission)) (Ok (adm_decision admission)) ∈ trace;
  ad_same : samePolicySnapshot (adm_credentialDecision admission) (adm_decision admission) = true;
  ad_safety : let request := startSafetyRequest (adm_scope admission) (claimed_Envelope (adm_claimed admission)) in
    EvSafety request (Ok (adm_safety admission)) ∈ trace /\ safetyHolds request (adm_safety admission) /\
    cs_Revision (adm_safety admission) = dec_SafetyRevision (adm_decision admission);
  ad_fresh : exists now,
    fresh now (cs_ObservedAt (adm_safety admission)) MaxSafetySnapshotAge = true /\
    validPreExecutionDecision (adm_decision admission) (claimed_Envelope (adm_claimed admission)) now = true /\
    validCredentialIssueDecision (adm_credentialDecision admission) (claimed_Envelope (adm_claimed admission)) now = true /\
    boundedExecutionDeadline (on_Deadline env) (claimed_Envelope (adm_claimed admission))
      (dec_CredentialExpiresAt (adm_credentialDecision admission)) now = Ok (adm_executorDeadline admission)
}.

Lemma Claimed_mono Transform ed25519_Verify service trace trace' runnerScope claimed :
  (forall e, e ∈ trace -> e ∈ trace') -> Claimed Transform ed25519_Verify service trace runnerScope claimed ->
  Claimed Transform ed25519_Verify service trace' runnerScope claimed.
Proof. intros Hsub [Hs Hc Hb Hv He]. constructor; [naive_solver|auto|done|done|naive_solver]. Qed.

Lemma Cleared_mono {W} (env : Environment W) trace trace' admission :
  (forall e, e ∈ trace -> e ∈ trace') -> Cleared env trace admission -> Cleared env trace' admission.
Proof. intros Hsub [? ? ? (? & ? & ?) ?]. constructor; auto. Qed.

(** Use what is known of each answer that was a success. *)
Ltac learn_answers :=
  repeat match goal with
  | H : forall x, Ok ?a = Ok x -> _ |- _ => specialize (H a eq_refl)
  end.

(** One step of an idle run. *)
Ltac at_step :=
  lazymatch goal with
  | |- post (mbind _ _) _ _ => apply post_bind
  | |- post (mret _) _ _ => apply post_ret
  | |- post (yield _ _) _ _ => eapply at_yield; [eassumption|intros ? ?]
  | |- post (ask _) _ _ => eapply at_ask; [eassumption|intros ? ? ?]
  | |- post (call _ _ _ _) _ _ => eapply at_call; [eassumption|intros ? ? ?]
  | |- post (now _) _ _ => eapply at_now; [eassumption|intros ? ? ?]
  | |- post (Err_now _ _ _) _ _ => eapply at_Err_now; [eassumption|intros ? ? ?]
  | |- post (resolveRunnerScope _ _) _ _ => eapply at_resolveRunnerScope; [eassumption|intros ? ? ? ? ?]
  | |- post (checkSafety _ _ _) _ _ => eapply at_checkSafety; [eassumption|intros ? ? ? ? ?]
  | |- post (resolveEnvironment _ _ _) _ _ => eapply at_resolveEnvironment; [eassumption|intros ? ? ? ? ?]
  | |- post (stop (nackClaim _ _ _ _ _)) _ _ => eapply at_nack; [eassumption|intros ? ? ? ? ? ?]
  | |- post (stop (rejectClaim _ _ _ _ _)) _ _ => eapply at_reject; [eassumption|intros ? ? ? ? ? ?]
  | |- post (stop (match ?x with _ => _ end)) _ _ => destruct x eqn:?
  | |- post (let _ := _ in _) _ _ => cbv zeta
  | |- post (match ?x with _ => _ end) _ _ => destruct x eqn:?
  end; cbv beta iota.

Section admission.
Context {W : Type} (env : Environment W) (service : Service).
Context (Transform : string -> Result string) (ed25519_Verify : string -> string -> string -> bool).
Context (w0 : World W).

Lemma claim_trace w : At w0 [] w ->
  post (RunNext_claim env Transform ed25519_Verify service)
    (fun r w' => exists trace', At w0 trace' w' /\
       match r with
       | inl (runnerScope, claimed) =>
           readings trace' /\ Claimed Transform ed25519_Verify service trace' runnerScope claimed /\
           Forall (scopedBy runnerScope) trace'
       | inr o => withdrawn trace' /\ o.2 <> None
       end) w.
Proof.
  intros HA. assert (readings []) by constructor. unfold RunNext_claim. repeat at_step.
  all: eexists; split; [eassumption|].
  all: try (split; [solve_withdrawn|done]).
  learn_answers. guards. destruct_and?.
  match goal with H : exists _, _ |- _ => destruct H as (registration & -> & Hscope) end.
  split_and!; [solve_readings| |repeat (apply Forall_app; split); repeat constructor; simpl; by eauto].
  constructor.
  - exists registration. split_and!; [solve_called|done..].
  - solve_called.
  - done.
  - match goal with H : Verify _ _ _ _ _ = Ok ?u |- _ => destruct u; eauto end.
  - simplify_eq. eexists. split; [solve_called|done].
Qed.

Lemma policy_trace trace w claimed : At w0 trace w -> readings trace ->
  post (RunNext_policy env service claimed)
    (fun r w' => exists trace', At w0 trace' w' /\ (forall e, e ∈ trace -> e ∈ trace') /\
       match r with
       | inl (credentialDecision, decision) =>
           (forall scope, Forall (scopedBy scope) trace -> Forall (scopedBy scope) trace') /\
           readings trace' /\ EvEvaluateCredentialIssue (claimed_Envelope claimed) (Ok credentialDecision) ∈ trace' /\
           EvEvaluatePreExecution (claimed_Envelope claimed) (Ok decision) ∈ trace' /\
           samePolicySnapshot credentialDecision decision = true
       | inr o => withdrawn trace' /\ o.2 <> None
       end) w.
Proof.
  intros HA Hr. unfold RunNext_policy. repeat at_step.
  all: eexists; split; [eassumption|]; split; [intros; solve_called|].
  all: try (split; [solve_withdrawn|done]).
  guards. split_and!; [intros; solve_scoped|solve_readings|solve_called..|done].
Qed.

Lemma admit_trace trace w runnerScope claimed credentialDecision decision : At w0 trace w -> readings trace ->
  EvEvaluateCredentialIssue (claimed_Envelope claimed) (Ok credentialDecision) ∈ trace ->
  EvEvaluatePreExecution (claimed_Envelope claimed) (Ok decision) ∈ trace ->
  samePolicySnapshot credentialDecision decision = true ->
  post (RunNext_admit env service runnerScope claimed credentialDecision decision)
    (fun r w' => exists trace', At w0 trace' w' /\ (forall e, e ∈ trace -> e ∈ trace') /\
       match r with
       | inl admission =>
           (forall scope, Forall (scopedBy scope) trace -> Forall (scopedBy scope) trace') /\
           readings trace' /\ Cleared env trace' admission /\
           adm_scope admission = runnerScope /\ adm_claimed admission = claimed
       | inr o => withdrawn trace' /\ o.2 <> None
       end) w.
Proof.
  intros HA Hr Hc Hd Hs. unfold RunNext_admit. repeat at_step.
  all: eexists; split; [eassumption|]; split; [intros; solve_called|].
  all: try (split; [solve_withdrawn|done]).
  learn_answers. guards. destruct_and?. simplify_eq. split_and!; [intros; solve_scoped|solve_readings| |done..].
  constructor; simpl; [solve_called..|done| |].
  - split_and!; [solve_called|done|congruence].
  - eexists. split_and!; try done.
Qed.

Lemma admission_trace w : At w0 [] w ->
  post (RunNext_admission env Transform ed25519_Verify service)
    (fun r w' => exists trace, At w0 trace w' /\
       match r with
       | inl admission =>
           readings trace /\ Cleared env trace admission /\
           Claimed Transform ed25519_Verify service trace (adm_scope admission) (adm_claimed admission) /\
           Forall (scopedBy (adm_scope admission)) trace
       | inr o => withdrawn trace /\ o.2 <> None
       end) w.
Proof.
  intros HA. unfold RunNext_admission. apply post_bind. eapply post_mono; [by eapply claim_trace|].
  intros [[runnerScope claimed]|o] w1 (trace1 & HA1 & H1); [|apply post_ret; eauto].
  destruct H1 as (Hr1 & Hcl & Hsc). apply post_bind. eapply post_mono; [by eapply policy_trace|].
  intros [[credentialDecision decision]|o] w2 (trace2 & HA2 & Hsub2 & H2); [|apply post_ret; eauto].
  destruct H2 as (Hsc2 & Hr2 & Hc & Hd & Hs). eapply post_mono; [by eapply admit_trace|].
  intros [admission|o] w3 (trace3 & HA3 & Hsub3 & H3); [|eauto].
  destruct H3 as (Hsc3 & Hr3 & Had & <- & <-). exists trace3. split_and!; auto.
  eapply Claimed_mono; [|done]. auto.
Qed.
End admission.

(** ** Preparing and starting *)

(** What happens beside the main thread: heartbeats and the goroutine of the executor. *)
Definition beside (e : Event) : bool := beat e || ofExecutor e.

(** The trace of the main thread, as to its calls and the entry of the executor. *)
Definition calls (trace : list Event) : list Event := List.filter (fun e => negb (beside e)) trace.

Lemma calls_app trace trace' : calls (trace ++ trace') = calls trace ++ calls trace'.
Proof. apply List.filter_app. Qed.

Lemma calls_snoc trace e : calls (trace ++ [e]) = calls trace ++ (if beside e then [] else [e]).
Proof. rewrite calls_app. simpl. by destruct (beside e). Qed.

Lemma calls_beside trace : Forall (fun e => beside e = true) trace -> calls trace = [].
Proof. unfold calls. induction 1 as [|e trace He _ IH]; simpl; [done|]. by rewrite He. Qed.

Definition leaseFence (admission : Admission) : LeaseIdentity := Execution_Fence (claimed_Execution (adm_claimed admission)).

(** The calls of a run that ends before a credential may exist. *)
Inductive Unstarted (admission : Admission) : list Event -> Prop :=
| UnstartedPrepare e : Unstarted admission [EvPrepare (prepareRequest admission) (Err e)]
| UnstartedStart prepared start answer : Unstarted admission
    [EvPrepare (prepareRequest admission) (Ok prepared); EvStart (leaseFence admission) start;
     EvNoCredential prepared answer].

(** Well-numbered heartbeats, the next of which is [n], and no executor yet. *)
Definition counted (scope : RunnerScope) (lease : LeaseIdentity) (n : Z) (trace : list Event) : Prop :=
  numbered scope lease trace /\ expected scope lease trace = n /\ List.filter executing trace = [].

Section counted.
Context (scope : RunnerScope) (lease : LeaseIdentity).

Lemma counted_nil : counted scope lease 1 [].
Proof. split_and!; [|done..]. intros before request answer after E. by destruct before. Qed.

Lemma counted_other n trace e : counted scope lease n trace -> (forall request answer, e <> EvHeartbeat request answer) ->
  executing e = false -> counted scope lease n (trace ++ [e]).
Proof.
  intros (Hn & <- & Hno) He Hx. split_and!; [apply numbered_snoc; [done|]; by intros ? ? ->; destruct (He request answer)| |].
  - rewrite expected_snoc. destruct (accepted scope lease e) eqn:Ha; [|lia].
    destruct e; try done. by destruct (He request answer).
  - rewrite List.filter_app, Hno. simpl. by rewrite Hx.
Qed.

Lemma counted_beat n trace request answer : counted scope lease n trace -> ahb_Lease request = lease ->
  ahb_Sequence request = n ->
  counted scope lease (n + if accepted scope lease (EvHeartbeat request answer) then 1 else 0)
    (trace ++ [EvHeartbeat request answer]).
Proof.
  intros (Hn & <- & Hno) Hl Hs. split_and!; [|by rewrite expected_snoc|by rewrite List.filter_app, Hno].
  apply numbered_snoc; [done|]. by intros ? ? [= <- <-].
Qed.

Lemma counted_readings trace : readings trace -> counted scope lease 1 trace.
Proof.
  induction trace as [|e trace IH] using rev_ind; intros Hr; [apply counted_nil|].
  apply Forall_app in Hr as [Hr He]. inversion_clear He. apply counted_other; [auto|by intros ? ? ->|by destruct e].
Qed.
End counted.

Section start.
Context {W : Type} (env : Environment W) (service : Service) (admission : Admission) (w0 : World W).
Let scope := adm_scope admission.
Let lease := leaseFence admission.

Lemma at_firstBeat trace ctx Q w : At w0 trace w -> counted scope lease 1 trace ->
  (forall beats n err w', At w0 (trace ++ beats) w' -> calls beats = [] -> counted scope lease n (trace ++ beats) ->
     (err = None -> n = 2 /\ Forall (fun e => good scope lease e = true) beats) -> Q err w') ->
  post (heartbeatOnce env service ctx scope lease 1) Q w.
Proof.
  intros HA Hc HQ. unfold heartbeatOnce. apply post_bind. eapply at_yield; [done|]. intros w1 HA1.
  apply post_bind, (post_heartbeatScope _ _ _ lease). intros o id answer err Hgood.
  apply (At_oracle _ _ _ o) in HA1. apply (At_record _ _ _ (EvResolveRunner id answer)) in HA1.
  assert (Hc1 : counted scope lease 1 (trace ++ [EvResolveRunner id answer])) by by apply counted_other.
  destruct err as [e|]; [apply post_ret; by eapply HQ|].
  apply post_bind. eapply at_yield; [exact HA1|]. intros w2 HA2. apply post_heartbeatSend.
  intros o' request answer' Hl Hs e err Herr.
  apply (At_oracle _ _ _ o') in HA2. apply (At_record _ _ _ e) in HA2.
  pose proof (counted_beat _ _ _ _ _ answer' Hc1 Hl Hs) as Hc2. fold e in Hc2. rewrite <- app_assoc in HA2, Hc2.
  eapply HQ; [exact HA2|done|exact Hc2|]. intros Hok. rewrite (proj1 Herr Hok). split; [done|].
  constructor; [by apply Hgood|]. constructor; [by apply Herr|done].
Qed.

Lemma at_noCredential trace prepared Q w : At w0 trace w ->
  (forall answer r w', At w0 (trace ++ [EvNoCredential prepared answer]) w' -> Q r w') ->
  post (recordNoCredential env service prepared) Q w.
Proof.
  intros HA HQ. unfold recordNoCredential. apply post_bind. eapply at_call; [done|]. intros answer w' HA'.
  apply post_ret. by eapply HQ.
Qed.

(** How [RunNext_start] leaves the trace. *)
Definition startEnds (trace : list Event) (r : PreparedDurableCredential * Execution + RunOutcome) (w : World W) : Prop :=
  exists tail n, At w0 (trace ++ tail) w /\ counted scope lease n (trace ++ tail) /\
    match r with
    | inl (prepared, started) =>
        calls tail = [EvPrepare (prepareRequest admission) (Ok prepared); EvStart lease (Ok started)] /\
        n = 2 /\ Forall (fun e => good scope lease e = true) tail
    | inr o => Unstarted admission (calls tail) /\ o.2 <> None
    end.

Lemma counted_call n trace e : counted scope lease n trace -> beat e || executing e = false ->
  counted scope lease n (trace ++ [e]).
Proof. intros Hc He. apply orb_false_iff in He as [Hb Hx]. apply counted_other; [done| |done]. by intros ? ? ->. Qed.

(** After [Prepare], a run that does not get to [Issue] ends by recording that. *)
Lemma uncertain_trace trace tail n prepared start started e w :
  At w0 (trace ++ tail) w -> counted scope lease n (trace ++ tail) ->
  calls tail = [EvPrepare (prepareRequest admission) (Ok prepared); EvStart lease start] ->
  post (stop (uncertain env service prepared started e)) (startEnds trace) w.
Proof.
  intros HA Hc Ht. unfold stop, uncertain. do 2 apply post_bind. eapply at_noCredential; [done|].
  intros answer r w' HA'. do 2 apply post_ret. pose proof (counted_call _ _ (EvNoCredential prepared answer) Hc eq_refl) as Hc'.
  rewrite <- app_assoc in HA', Hc'. exists (tail ++ [EvNoCredential prepared answer]), n.
  split_and!; [done..| |by destruct r]. rewrite calls_app, Ht. constructor.
Qed.

Lemma start_trace trace w : At w0 trace w -> counted scope lease 1 trace ->
  post (RunNext_start env service admission) (startEnds trace) w.
Proof.
  intros HA Hc. unfold RunNext_start. fold (leaseFence admission). fold lease scope. cbv zeta.
  apply post_bind. eapply at_call; [done|]. intros prepare w1 HA1.
  pose proof (counted_call _ _ (EvPrepare (prepareRequest admission) prepare) Hc eq_refl) as Hc1.
  destruct prepare as [prepared|e]; [|apply post_ret; eexists _, 1; split_and!; [done..|constructor|done]].
  apply post_bind. eapply at_call; [done|]. intros start w2 HA2.
  pose proof (counted_call _ _ (EvStart lease start) Hc1 eq_refl) as Hc2. rewrite <- app_assoc in HA2, Hc2.
  destruct start as [started|e].
  2: { apply post_bind. eapply at_noCredential; [done|]. intros answer r w3 HA3. apply post_ret.
       pose proof (counted_call _ _ (EvNoCredential prepared answer) Hc2 eq_refl) as Hc3. rewrite <- app_assoc in HA3, Hc3.
       eexists _, 1. split_and!; [done..|constructor|by destruct r]. }
  apply post_bind. eapply at_firstBeat; [done|done|]. intros beats n err w3 HA3 Hb Hc3 Hok. rewrite <- app_assoc in HA3, Hc3.
  match type of HA3 with At _ (_ ++ ?t) _ => assert (Ht : calls t =
    [EvPrepare (prepareRequest admission) (Ok prepared); EvStart lease (Ok started)]) by (rewrite calls_app, Hb; done) end.
  destruct err as [e|]; [by eapply uncertain_trace|].
  apply post_bind. eapply at_ask; [done|]. intros localExecutorObservedAt w4 HA4.
  apply post_bind. eapply at_now; [done|]. intros [now4|e] w5 HA5; [|by eapply uncertain_trace].
  destruct (negb _); [by eapply uncertain_trace|]. destruct (mappedExecutionDeadline _ _ _); [|by eapply uncertain_trace].
  apply post_ret. destruct (Hok eq_refl) as [-> Hgood]. eexists _, 2. split_and!; [done..|].
  apply Forall_app. split; [|done]. by repeat constructor.
Qed.
End start.
