(* ===== verification/ServiceRun.v ===== *)
(** * Running an action beside its heartbeats

    The part of [RunNext] that runs while the heartbeat goroutine and the goroutine of the
    executor do: what it adds to the trace, whatever they and the contexts do in between. *)

From S2P Require Import Prelude.
From S2P Require Import Credential.
From S2P Require Import DurableHandles.
From S2P Require Import ExecutionLease.
From S2P Require Import Envelope.
From S2P Require Import ActionQueue.
From S2P Require Import Policy.
From S2P Require Import Service.
From S2P Require Import ServiceFacts.
From S2P Require Import ServiceTraces.

Open Scope Z_scope.

(** A world during the session: well numbered, the calls so far, a known part of the
    trace, while [k] no failed heartbeat has gone unnoticed, and the executor is where its
    events say. *)
Record Run {W} (scope : RunnerScope) (lease : LeaseIdentity) (d : Z) (k : bool) (cs base : list Event) (w : World W) : Prop := {
  run_watched : Watched scope lease d w;
  run_sound : k = true -> Sound scope lease w;
  run_calls : calls (w_events w) = cs;
  run_base : base `prefix_of` w_events w;
  run_executor : ExecutorTrace (w_executor w) (List.filter executing (w_events w))
}.

(** The main thread holds [beatMu], so the numbering stands still. *)
Record Held {W} (n : Z) (w : World W) : Prop := {
  held_lock : hs_beatMu (w_session w) = true;
  held_quiet : quiet (w_session w);
  held_next : hs_nextSequence (w_session w) = n
}.

(** An error, whatever it is. *)
Definition is_Err {A} (r : Result A) : Prop := exists e, r = Err e.

Section run.
Context {W : Type} (env : Environment W) (service : Service) (scope : RunnerScope) (lease : LeaseIdentity).
Implicit Types (w : World W).
Abbreviation Run := (Run (W:=W) scope lease).

(** ** What the other parties keep *)

Lemma loop_beats step w :
  post (loopStep env service step) (fun _ w' => w_executor w' = w_executor w /\
    exists beats, w_events w' = w_events w ++ beats /\ Forall (fun e => beat e = true) beats) w.
Proof.
  assert (Hnone : w_executor w = w_executor w /\ exists beats, w_events w = w_events w ++ beats /\ Forall (fun e => beat e = true) beats)
    by (split; [done|]; exists []; by rewrite app_nil_r).
  unfold loopStep. do 2 post_step. destruct (hs_loop (w_session w)) eqn:Hloop; destruct step; try (by apply post_ret).
  - destruct (hs_beatMu _); [by apply post_ret|]. do 2 post_step. by apply post_update.
  - do 2 post_step. destruct (ctxErr _ _); [by apply post_update|by apply post_ret].
  - post_step. apply (post_heartbeatScope _ _ _ lease). intros. apply post_update. split; [done|]. eexists. split; [done|by constructor].
  - post_step. apply post_heartbeatSend. intros. apply post_update. split; [done|]. eexists. split; [done|by constructor].
  - post_step. destruct result; apply post_update, post_update; [|done].
    destruct (ctxErr CtxHeartbeat _); [done|]. unfold failSession. by destruct (_ || _).
Qed.

Lemma beats_beside beats : Forall (fun e => beat e = true) beats -> calls beats = [] /\ List.filter executing beats = [].
Proof. induction 1 as [|e beats He _ [IH1 IH2]]; [done|]. by destruct e. Qed.

Lemma executors_beside events : Forall (fun e => ofExecutor e = true) events -> calls events = [].
Proof. intros He. apply calls_beside. eapply Forall_impl; [exact He|]. intros e. unfold beside. intros ->. apply orb_true_r. Qed.

Lemma Run_loop d k cs base w step : Run d k cs base w -> post (loopStep env service step) (fun _ w' => Run d k cs base w') w.
Proof.
  intros [Hw Hs Hc Hb Hx]. pose proof (Watched_loop env service scope lease _ _ step Hw) as Hw'.
  pose proof (loop_beats step w) as (Ex & beats & E & Hbeats). unfold post in *. apply beats_beside in Hbeats as [Hb1 Hb2].
  constructor; [done| | | |].
  - intros Hk. by apply (Sound_loop env service scope lease), Hs.
  - by rewrite E, calls_app, Hb1, app_nil_r.
  - rewrite E. by apply prefix_app_r.
  - by rewrite Ex, E, List.filter_app, Hb2, app_nil_r.
Qed.

Lemma Run_executor d k cs base w step : Run d k cs base w -> post (executorStep env step) (fun _ w' => Run d k cs base w') w.
Proof.
  intros [Hw Hs Hc Hb Hx]. pose proof (Watched_executor env scope lease _ _ step Hw) as Hw'.
  assert (Hs' : k = true -> post (executorStep env step) (fun _ w' => Sound scope lease w') w) by auto using Sound_executor.
  cut (post (executorStep env step) (fun _ w' => calls (w_events w') = cs /\ base `prefix_of` w_events w' /\
    ExecutorTrace (w_executor w') (List.filter executing (w_events w'))) w).
  { unfold post in *. intros (? & ? & ?). by constructor. }
  apply post_executorStep. intros o events state Hm. simpl. destruct (executor_move_events _ _ _ Hm) as [He Hf].
  rewrite calls_app, (executors_beside _ He), app_nil_r, List.filter_app, Hf.
  split_and!; [done|by apply prefix_app_r|by eapply executor_move_trace].
Qed.

Lemma Run_ctx d k cs base w step : Run d k cs base w -> Run d k cs base (setContexts (ctxStep step) w).
Proof. intros [Hw Hs Hc Hb Hx]. constructor; [by apply Watched_contexts| |done..]. intros Hk. by apply Sound_ctx, Hs. Qed.

Lemma Run_oracle d k cs base w o : Run d k cs base w -> Run d k cs base {| w with w_oracle := o |}.
Proof. intros [Hw Hs Hc Hb Hx]. constructor; [by apply Watched_oracle| |done..]. intros Hk. by apply Sound_oracle, Hs. Qed.

Lemma Run_steps d k cs base w steps : Run d k cs base w -> post (envSteps env service steps) (fun _ w' => Run d k cs base w') w.
Proof. apply envSteps_stable; [intros; by apply Run_ctx|intros; by apply Run_loop|intros; by apply Run_executor]. Qed.

Lemma Run_yield d k cs base w : Run d k cs base w -> post (yield env service) (fun _ w' => Run d k cs base w') w.
Proof.
  apply yield_stable; [intros; by apply Run_oracle|intros; by apply Run_ctx|intros; by apply Run_loop|intros; by apply Run_executor].
Qed.

(** What is known of the trace so far. *)
Lemma Run_here d k cs base w : Run d k cs base w -> Run d k cs (w_events w) w.
Proof. by intros []. Qed.

Lemma Run_base d k cs base base' w : base `prefix_of` base' -> Run d k cs base' w -> Run d k cs base w.
Proof. intros Hp []. constructor; try done. by etrans. Qed.

(** The goroutine of the executor leaves session and contexts alone. *)
Lemma executor_frame (P : World W -> Prop) w step : P w ->
  (forall w', w_contexts w' = w_contexts w -> w_session w' = w_session w -> P w') ->
  post (executorStep env step) (fun _ w' => P w') w.
Proof. intros HP Hframe. apply post_executorStep. intros. by apply Hframe. Qed.

Lemma Held_yield n w : Held n w -> post (yield env service) (fun _ w' => Held n w') w.
Proof.
  apply (yield_stable env service (Held n)); [by intros ? ? []|by intros ? ? []| |].
  2: { intros w' step [Hl Hq Hn]. apply executor_frame; [done|]. intros w'' Ec Es. constructor; by rewrite Es. }
  intros w' step HH. pose proof HH as [Hl Hq Hn]. unfold loopStep. do 2 post_step. unfold quiet in Hq.
  destruct (hs_loop (w_session w')) eqn:Hloop; try done; destruct step; try (by apply post_ret).
  - rewrite Hl. by apply post_ret.
  - do 2 post_step. destruct (ctxErr _ _); [|by apply post_ret]. apply post_update. by constructor.
Qed.

Lemma post_and {A} (p : Prog W A) (Q Q' : A -> World W -> Prop) w :
  post p Q w -> post p Q' w -> post p (fun a w' => Q a w' /\ Q' a w') w.
Proof. done. Qed.

(** ** Calls of the main thread *)

(** A call of the main thread itself. *)
Definition mine (e : Event) : bool := negb (beat e) && negb (executing e).

Lemma Run_called d k cs base w e state : Run d k cs base w -> beside e = false ->
  ExecutorTrace state (List.filter executing (w_events w ++ [e])) ->
  Run d k (cs ++ [e]) base {| w_oracle := w_oracle w; w_events := w_events w ++ [e]; w_contexts := w_contexts w;
                              w_session := w_session w; w_executor := state |}.
Proof.
  intros [[Hs Hl Hn Hc Hlk Hst Hm] Hsound Hcalls Hb Hx] He Hx'. assert (Hbeat : beat e = false) by by destruct e.
  assert (Ha : accepted scope lease e = false) by by destruct e.
  assert (Hg : good scope lease e = true) by by destruct e.
  constructor; simpl.
  - constructor; simpl; auto; [apply numbered_quiet; auto|]. rewrite expected_snoc, Ha. lia.
  - intros Hk. destruct (Hsound Hk) as [? ? ? ? Hnot]. constructor; auto. destruct Hnot as [Hall|?]; [left|by right].
    apply Forall_app. split; [done|]. by constructor.
  - by rewrite calls_snoc, He, Hcalls.
  - by apply prefix_app_r.
  - done.
Qed.

Lemma Run_record d k cs base w e : Run d k cs base w -> mine e = true ->
  Run d k (cs ++ [e]) base {| w_oracle := w_oracle w; w_events := w_events w ++ [e]; w_contexts := w_contexts w;
                              w_session := w_session w; w_executor := w_executor w |}.
Proof.
  intros HR He. apply Run_called; [done|by destruct e|]. rewrite List.filter_app.
  assert (List.filter executing [e] = []) as -> by by destruct e. rewrite app_nil_r. apply HR.
Qed.

(** The executor was not entered if no call so far says so. *)
Lemma Run_absent d k cs base w : Run d k cs base w -> List.filter executing cs = [] ->
  w_executor w = ExecutorAbsent /\ List.filter executing (w_events w) = [].
Proof.
  intros [_ _ Hc _ Hx] Hno.
  assert (Henter : forall dispatch value, EvEnter dispatch value ∉ w_events w).
  { intros dispatch value Hin. assert (EvEnter dispatch value ∈ List.filter executing cs) as Hbad; [|rewrite Hno in Hbad; set_solver].
    rewrite <- Hc. apply list_elem_of_In, List.filter_In. split; [|done]. apply List.filter_In. split; [by apply list_elem_of_In|done]. }
  assert (Hin : forall e, e ∈ List.filter executing (w_events w) -> e ∈ w_events w).
  { intros e He. by apply list_elem_of_In, List.filter_In in He as [?%list_elem_of_In _]. }
  inversion Hx as [E1 E2|dispatch value E1 E2|command value E1 E2|dispatch value e Hd E1 E2|command value result E1 E2]; [done|..];
    exfalso; eapply Henter, Hin; rewrite <- E2; by left.
Qed.

Section main.
Context (d : Z) (k : bool) (cs base : list Event).

Lemma run_yield Q w : Run d k cs base w -> (forall w', Run d k cs base w' -> Q tt w') -> post (yield env service) Q w.
Proof. intros HR HQ. eapply post_mono; [by apply Run_yield|]. intros []. apply HQ. Qed.

Lemma run_ask {A} (question : W -> A * W) Q w :
  Run d k cs base w -> (forall a w', Run d k cs base w' -> Q a w') -> post (ask question) Q w.
Proof. intros HR HQ. apply post_ask. intros. by apply HQ, Run_oracle. Qed.

Lemma run_now Q w : Run d k cs base w -> (forall r w', Run d k cs base w' -> Q r w') -> post (now env) Q w.
Proof. intros HR HQ. unfold now. post_step. apply run_ask; [done|]. intros. post_step. by apply HQ. Qed.

Lemma run_call {A} (question : W -> A * W) event Q w : Run d k cs base w -> (forall a, mine (event a) = true) ->
  (forall a before w', calls before = cs -> base `prefix_of` before -> Run d k (cs ++ [event a]) (before ++ [event a]) w' -> Q a w') ->
  post (call env service question event) Q w.
Proof.
  intros HR He HQ. unfold call. post_step. apply run_yield; [done|]. intros w' HR'. apply post_perform. intros a o.
  apply (HQ a (w_events w')); [apply HR'..|].
  apply (Run_oracle _ _ _ _ _ o) in HR'. apply (Run_record _ _ _ _ _ (event a)) in HR'; [|done]. exact (Run_here _ _ _ _ _ HR').
Qed.
End main.

(** ** The lock, checkpoints and the end of the session *)

(** While the main thread waits for the lock, a checkpoint of the goroutine returns. *)
Lemma settled w : hs_loop (w_session w) <> LoopAbsent ->
  post (envSteps env service settleSteps) (fun _ w' => quiet (w_session w')) w.
Proof.
  intros Hst. unfold settleSteps, envSteps, envStep.
  apply post_bind, (post_mono _ (fun _ w' =>
    match hs_loop (w_session w') with LoopAbsent | LoopChecked => False | _ => True end)).
  { unfold loopStep. do 2 post_step. destruct (hs_loop (w_session w)) eqn:Hloop; try done;
      try (apply post_ret; by rewrite Hloop).
    post_step. apply (post_heartbeatScope _ _ _ lease). intros. apply post_update. by destruct err. }
  intros [] w1 H1. apply post_bind, (post_mono _ (fun _ w' =>
    match hs_loop (w_session w') with LoopAbsent | LoopChecked | LoopScoped => False | _ => True end)).
  { unfold loopStep. do 2 post_step. destruct (hs_loop (w_session w1)) eqn:Hloop; try done;
      try (apply post_ret; by rewrite Hloop).
    post_step. apply post_heartbeatSend. intros. by apply post_update. }
  intros [] w2 H2. apply post_bind, (post_mono _ (fun _ w' => quiet (w_session w'))); [|done].
  unfold loopStep. do 2 post_step. destruct (hs_loop (w_session w2)) eqn:Hloop; try done;
    try (apply post_ret; unfold quiet; by rewrite Hloop).
  post_step. destruct result; by apply post_update, post_update.
Qed.

Lemma run_lockBeat k cs base Q w : Run 0 k cs base w ->
  (forall w', Run 0 k cs base w' -> Held (hs_nextSequence (w_session w')) w' -> Q tt w') ->
  post (lockBeat env service) Q w.
Proof.
  intros HR HQ. unfold lockBeat. post_step. apply (run_yield 0 k cs base); [done|]. intros w1 HR1. post_step.
  eapply post_mono; [apply post_and; [apply settled, (run_watched _ _ _ _ _ _ _ HR1)|by eapply Run_steps]|].
  intros [] w2 [Hq [[Hs Hl Hn Hc Hlk Hst Hm] Hsound Hcalls Hb Hx]]. apply post_update. apply HQ; [|by constructor].
  constructor; [by constructor; auto| |done..]. intros Hk. destruct (Hsound Hk). by constructor.
Qed.

Lemma run_unlockBeat k cs base Q w : Run 0 k cs base w -> (forall w', Run 0 k cs base w' -> Q tt w') ->
  post unlockBeat Q w.
Proof.
  intros [[Hs Hl Hn Hc Hlk Hst Hm] Hsound Hcalls Hb Hx] HQ. apply post_update, HQ.
  constructor; [by constructor; auto| |done..]. intros Hk. destruct (Hsound Hk). by constructor.
Qed.

(** Forgetting the soundness of the past. *)
Lemma Run_weaken d k cs base w : Run d k cs base w -> Run d false cs base w.
Proof. by intros []. Qed.

(** The two events of a heartbeat of the main thread. *)
Definition recorded (o : W) (e : Event) (w : World W) : World W :=
  {| w_oracle := o; w_events := w_events w ++ [e]; w_contexts := w_contexts w; w_session := w_session w;
     w_executor := w_executor w |}.

Lemma Held_recorded n o e w : Held n w -> Held n (recorded o e w).
Proof. by intros []. Qed.

Lemma Sound_recorded o e w : Sound scope lease w -> good scope lease e = true -> Sound scope lease (recorded o e w).
Proof.
  intros [? ? ? ? Hnot] Hg. constructor; auto. destruct Hnot as [Hall|?]; [left|by right].
  apply Forall_app. split; [done|]. by constructor.
Qed.

Lemma Run_scoped d k cs base w o id answer : Run d k cs base w ->
  Run d (k && good scope lease (EvResolveRunner id answer)) cs base (recorded o (EvResolveRunner id answer) w).
Proof.
  intros [[Hs Hl Hn Hc Hlk Hst Hm] Hsound Hcalls Hb Hx]. constructor.
  - constructor; simpl; auto; [apply numbered_quiet; eauto|]. rewrite expected_snoc. simpl. lia.
  - intros [Hk Hg]%andb_true_iff. by apply Sound_recorded; [apply Hsound|].
  - simpl. by rewrite calls_snoc, app_nil_r.
  - by apply prefix_app_r.
  - simpl. rewrite List.filter_app. simpl. by rewrite app_nil_r.
Qed.

Lemma Run_beaten k cs base w n o request answer : Run 0 k cs base w -> Held n w ->
  ahb_Lease request = lease -> ahb_Sequence request = n ->
  let ok := accepted scope lease (EvHeartbeat request answer) in
  Run (if ok then 1 else 0) (k && ok) cs base (recorded o (EvHeartbeat request answer) w).
Proof.
  intros [[Hs Hl Hn Hc Hlk Hst Hm] Hsound Hcalls Hb Hx] [Hlock Hq Hnext] Hlease Hseq ok.
  assert (Hn2 : n = expected scope lease (w_events w)).
  { unfold quiet, unreturned in *. destruct (hs_loop _); simpl in *; try done; lia. }
  constructor.
  - constructor; simpl; auto.
    + apply numbered_snoc; [done|]. intros ? ? [= <- <-]. by rewrite Hseq.
    + rewrite expected_snoc. fold ok. destruct ok; lia.
  - intros [Hk Hg]%andb_true_iff. by apply Sound_recorded; [apply Hsound|].
  - simpl. by rewrite calls_snoc, app_nil_r.
  - by apply prefix_app_r.
  - simpl. rewrite List.filter_app. simpl. by rewrite app_nil_r.
Qed.

(** A heartbeat of the main thread. *)
Lemma run_heartbeatOnce ctx k cs base n Q w : Run 0 k cs base w -> Held n w ->
  (forall e w', Run 0 false cs base w' -> Held n w' -> Q (Some e) w') ->
  (forall w', Run 1 k cs base w' -> Held n w' -> Q None w') ->
  post (heartbeatOnce env service ctx scope lease n) Q w.
Proof.
  intros HR HH Herr Hok. unfold heartbeatOnce. post_step.
  eapply post_mono; [apply post_and; [by eapply Run_yield|by eapply Held_yield]|]. intros [] w1 [HR1 HH1].
  post_step. apply (post_heartbeatScope _ _ _ lease). intros o id answer err Hgood. fold (recorded o (EvResolveRunner id answer) w1).
  apply (Run_scoped _ _ _ _ _ o id answer) in HR1. apply (Held_recorded _ o (EvResolveRunner id answer)) in HH1.
  destruct err as [e|]; [apply post_ret, Herr; [by eapply Run_weaken|done]|].
  rewrite (Hgood eq_refl), andb_true_r in HR1.
  post_step. eapply post_mono; [apply post_and; [by eapply Run_yield|by eapply Held_yield]|]. intros [] w2 [HR2 HH2].
  apply post_heartbeatSend. intros o' request answer' Hlease Hseq e err Hiff. fold (recorded o' e w2).
  pose proof (Run_beaten _ _ _ _ _ o' request answer' HR2 HH2 Hlease Hseq) as HR3. cbv zeta in HR3.
  apply (Held_recorded _ o' e) in HH2. destruct (accepted scope lease _) eqn:Ha.
  - rewrite (proj2 Hiff eq_refl). rewrite andb_true_r in HR3. by apply Hok.
  - destruct err as [e'|]; [|pose proof (proj1 Hiff eq_refl) as Ha'; subst e; congruence]. apply Herr; [by eapply Run_weaken|done].
Qed.

(** What a checkpoint does with a failed and with an accepted heartbeat. *)
Lemma run_failed ctx e cs base Q w : Run 0 false cs base w -> (forall w', Run 0 false cs base w' -> Q tt w') ->
  post (checkpointResult ctx (Some e)) Q w.
Proof.
  intros HR HQ. apply post_update, HQ. destruct (ctxErr ctx _); [done|]. unfold failSession. destruct (_ || _); [done|].
  destruct HR as [[] ? ? ? ?]. by constructor.
Qed.

Lemma run_passed ctx k cs base n Q w : Run 1 k cs base w -> Held n w -> (forall w', Run 0 k cs base w' -> Q tt w') ->
  post (checkpointResult ctx None) Q w.
Proof.
  intros [[Hs Hl Hn Hc Hlk Hst Hm] Hsound Hcalls Hb Hx] HH HQ. apply post_update, HQ. constructor; [|intros Hk; by destruct (Hsound Hk)|done..].
  constructor; simpl; auto. unfold unreturned in *. simpl. lia.
Qed.

Lemma run_Checkpoint ctx k cs base Q w : Run 0 k cs base w ->
  (forall e w', Run 0 false cs base w' -> Q (Some e) w') -> (forall w', Run 0 k cs base w' -> Q None w') ->
  post (Checkpoint env service ctx) Q w.
Proof.
  intros HR Herr Hok. unfold Checkpoint. post_step. eapply run_lockBeat; [done|]. intros w1 HR1 HH1.
  do 2 post_step. destruct (DispatchError ctx w1) as [e|].
  { post_step. eapply run_unlockBeat; [done|]. intros w2 HR2. apply post_ret, Herr. by eapply Run_weaken. }
  do 2 post_step. rewrite (wd_scope _ _ _ _ (run_watched _ _ _ _ _ _ _ HR1)), (wd_lease _ _ _ _ (run_watched _ _ _ _ _ _ _ HR1)).
  post_step. eapply run_heartbeatOnce; [done|done| |].
  - intros e w2 HR2 _. post_step. eapply run_yield; [done|]. intros w3 HR3. post_step. eapply run_failed; [done|]. intros w4 HR4.
    post_step. eapply run_unlockBeat; [done|]. intros w5 HR5. by apply post_ret, Herr.
  - intros w2 HR2 HH2. post_step. eapply post_mono; [apply post_and; [by eapply Run_yield|by eapply Held_yield]|].
    intros [] w3 [HR3 HH3]. post_step. eapply run_passed; [done..|]. intros w4 HR4.
    post_step. eapply run_unlockBeat; [done|]. intros w5 HR5. by apply post_ret, Hok.
Qed.

Lemma run_AcknowledgeComplete k cs base Q w : Run 0 k cs base w -> (forall w', Run 0 false cs base w' -> Q tt w') ->
  post AcknowledgeComplete Q w.
Proof. intros [[] ? ? ? ?] HQ. apply post_update, HQ. constructor; [by constructor|done..]. Qed.

(** *** The end of the session *)

(** A stopped context stays stopped, and then a goroutine that waits has an exit. *)
Lemma stopped_steps steps w : is_Some (cx_stopped (w_contexts w)) ->
  post (envSteps env service steps) (fun _ w' => is_Some (cx_stopped (w_contexts w'))) w.
Proof.
  apply (envSteps_stable env service (fun w => is_Some (cx_stopped (w_contexts w)))).
  - intros w' step Hst. simpl. pose proof (ctxStep_frame step (w_contexts w')) as Hf. unfold frame in Hf. by injection Hf as _ _ ->.
  - intros w' step Hst. unfold loopStep. do 2 post_step.
    destruct (hs_loop (w_session w')) eqn:Hloop; destruct step; try (by apply post_ret).
    + destruct (hs_beatMu _); [by apply post_ret|]. do 2 post_step. by apply post_update.
    + do 2 post_step. destruct (ctxErr CtxHeartbeat _); [by apply post_update|by apply post_ret].
    + post_step. apply (post_heartbeatScope _ _ _ lease). intros. by apply post_update.
    + post_step. apply post_heartbeatSend. intros. by apply post_update.
    + post_step. destruct result; apply post_update, post_update; [|done].
      destruct (ctxErr CtxHeartbeat _); [done|]. unfold failSession. destruct (_ || _); [done|]. simpl.
      pose proof (cancelExecutor_frame (w_contexts w') context_Canceled) as Hf. unfold frame in Hf. by injection Hf as _ _ ->.
  - intros w' step Hst. apply executor_frame; [done|]. by intros ? ->.
Qed.

Lemma exits w : quiet (w_session w) -> is_Some (cx_stopped (w_contexts w)) ->
  post (loopStep env service StepLoopExit) (fun _ w' => hs_loop (w_session w') = LoopDone) w.
Proof.
  intros Hq Hst. unfold loopStep. do 2 post_step. unfold quiet in Hq. destruct (hs_loop (w_session w)) eqn:Hloop; try done.
  do 2 post_step. destruct Hst as [e Hst]. simpl. rewrite Hst. simpl. by apply post_update.
Qed.

Lemma post_steps_app steps steps' Q w :
  post (envSteps env service steps) (fun _ w' => post (envSteps env service steps') Q w') w ->
  post (envSteps env service (steps ++ steps')) Q w.
Proof.
  revert w. induction steps as [|step steps IH]; intros w; simpl; [done|]. intros HQ. unfold post, mbind, Prog_bind in *.
  destruct (envStep env service step w) as [[] w']. apply IH, HQ.
Qed.

Lemma run_Stop k cs base Q w : Run 0 k cs base w ->
  (forall r w', Run 0 false cs base w' -> hs_loop (w_session w') = LoopDone -> Q r w') ->
  post (Stop env service) Q w.
Proof.
  intros HR HQ. unfold Stop. post_step. eapply run_yield; [done|]. intros w1 HR1. post_step. apply post_update.
  set (w1' := setContexts _ w1). assert (HR1' : Run 0 false cs base w1').
  { destruct HR1 as [Hw ? ? ? ?]. constructor; [by apply Watched_contexts|done..]. }
  assert (Hst : is_Some (cx_stopped (w_contexts w1'))) by (by eexists).
  post_step. unfold yield. post_step. apply post_ask. intros steps o.
  eapply post_mono; [apply post_and; [by eapply Run_steps, Run_oracle|by apply stopped_steps]|].
  intros [] w2 [HR2 Hst2]. post_step. apply post_steps_app.
  eapply post_mono; [apply post_and; [apply post_and; [by eapply Run_steps|by apply stopped_steps]
                                     |apply settled, (run_watched _ _ _ _ _ _ _ HR2)]|].
  intros [] w3 [[HR3 Hst3] Hq3]. apply post_bind.
  eapply post_mono; [apply post_and; [exact (Run_loop 0 false cs base _ StepLoopExit HR3)|by apply exits]|].
  intros [] w4 [HR4 Hd4]. apply post_ret. by apply post_reads, HQ.
Qed.

(** ** The executor *)

(** The wait for the goroutine of the executor: a result it answers is one the executor
    returned. *)
Lemma run_executorDone k cs base Q w : Run 0 k cs base w ->
  (forall r w', Run 0 k cs base w' -> (forall result, r = Ok result -> EvReturned (Ok result) ∈ w_events w') -> Q r w') ->
  post (executorDone env service) Q w.
Proof.
  intros HR HQ. apply post_executorDone. eapply post_mono; [by apply Run_steps|]. intros [] w' HR' r Hr. apply HQ; [done|].
  intros result E. apply Hr in E. pose proof (run_executor _ _ _ _ _ _ _ HR') as Hx. rewrite E in Hx.
  apply ExecutorTrace_returned in Hx. by apply list_elem_of_In, List.filter_In in Hx as [?%list_elem_of_In _].
Qed.

Lemma run_awaitDispatch ctx k cs base Q w : Run 0 k cs base w ->
  (forall r w', Run 0 k cs base w' -> (forall result, r = Ok result -> EvReturned (Ok result) ∈ w_events w') -> Q r w') ->
  post (awaitDispatch env service ctx) Q w.
Proof.
  intros HR HQ. unfold awaitDispatch. post_step. eapply run_yield; [done|]. intros w1 HR1.
  post_step. eapply run_ask; [done|]. intros ready w2 HR2. do 4 post_step.
  assert (Hexec : post (result ← executorDone env service; yield env service;;
     contexts ← reads w_contexts;
     match ctxErr ctx contexts with
     | Some e => mret (Err e)
     | None => yield env service;; failure ← reads Failure; mret (if failure is Some e then Err e else result)
     end) Q w2).
  { post_step. eapply run_executorDone; [done|]. intros r w3 HR3 Hr. pose proof (run_base _ _ _ _ _ _ _ HR3) as Hbase.
    apply Run_here in HR3. post_step. eapply run_yield; [done|]. intros w4 HR4. do 2 post_step.
    destruct (ctxErr _ _); [apply post_ret, HQ; [by eapply Run_base|done]|].
    post_step. eapply run_yield; [done|]. intros w5 HR5. do 2 post_step. apply post_ret, HQ; [by eapply Run_base|].
    destruct (Failure w5); [done|]. intros result E. eapply elem_of_prefix; [by apply Hr|]. apply HR5. }
  destruct ready; [exact Hexec| |].
  - destruct (hs_loop _); try exact Hexec. post_step. eapply run_yield; [done|]. intros w3 HR3. do 2 post_step.
    by apply post_ret, HQ.
  - destruct (ctxErr _ _); [|exact Hexec]. post_step. eapply run_yield; [done|]. intros w3 HR3. do 2 post_step.
    by apply post_ret, HQ.
Qed.

(** The gate: the goroutine of the executor is entered only when every heartbeat so far
    was good. *)
Lemma run_dispatch ctx envelope value cs base Q w : ctx <> CtxCaller -> List.filter executing cs = [] -> Run 0 true cs base w ->
  (forall r w', Run 0 false cs base w' -> is_Err r -> Q r w') ->
  (forall before r w', let e := EvEnter (executorCommand envelope) value in
     calls before = cs -> base `prefix_of` before -> Forall (fun e => good scope lease e = true) before ->
     Run 0 false (cs ++ [e]) (before ++ [e]) w' ->
     (forall result, r = Ok result -> EvReturned (Ok result) ∈ w_events w') -> Q r w') ->
  post (dispatchWithHeartbeat env service ctx envelope value) Q w.
Proof.
  intros Hctx Hno HR Hnot Hdone. unfold dispatchWithHeartbeat. post_step. eapply run_lockBeat; [done|]. intros w1 HR1 HH1.
  do 2 post_step. destruct (DispatchError ctx w1) as [e|] eqn:Herr.
  { post_step. eapply run_unlockBeat; [done|]. intros w2 HR2. apply post_ret, Hnot; [by eapply Run_weaken|by eexists]. }
  assert (Hgood : Forall (fun e => good scope lease e = true) (w_events w1)).
  { apply or_else_None in Herr as [Hf Hc]. destruct (run_sound _ _ _ _ _ _ _ HR1 eq_refl) as [_ _ _ _ [?|Hlost]]; [done|].
    destruct Hlost as [[? ?]|[Hx|[e He]]]; [congruence| |].
    - apply (ctxErr_executor _ ctx) in Hx as [? ?]; [congruence|done].
    - pose proof (held_quiet _ _ HH1) as Hq. unfold quiet in Hq. by rewrite He in Hq. }
  destruct (Run_absent _ _ _ _ _ HR1 Hno) as [_ Hnone].
  post_step. unfold dispatchEntered. apply post_update. set (e := EvEnter _ value).
  assert (Hx : ExecutorTrace (ExecutorEntered (executorCommand envelope) value) (List.filter executing (w_events w1 ++ [e])))
    by (rewrite List.filter_app, Hnone; apply TraceEntered).
  pose proof (Run_called _ _ _ _ w1 e _ (Run_weaken _ _ _ _ _ HR1) eq_refl Hx) as HR2. apply Run_here in HR2.
  post_step. eapply run_unlockBeat; [exact HR2|]. intros w2 HR3. eapply run_awaitDispatch; [done|].
  intros r w3 HR4 Hr. eapply (Hdone (w_events w1)); try done; apply HR1.
Qed.

(** [Stop] from any state of the goroutine. *)
Lemma present_steps steps w : hs_loop (w_session w) <> LoopAbsent ->
  post (envSteps env service steps) (fun _ w' => hs_loop (w_session w') <> LoopAbsent) w.
Proof.
  apply (envSteps_stable env service (fun w => hs_loop (w_session w) <> LoopAbsent)); [done| |].
  2: { intros w' step Hst. apply executor_frame; [done|]. by intros ? _ ->. }
  intros w' step Hst. unfold loopStep. do 2 post_step.
  destruct (hs_loop (w_session w')) eqn:Hloop; [done|..]; destruct step; try (apply post_ret; by rewrite Hloop).
  - destruct (hs_beatMu _); [apply post_ret; by rewrite Hloop|]. do 2 post_step. apply post_update. simpl. by destruct (DispatchError _ _).
  - do 2 post_step. destruct (ctxErr CtxHeartbeat _); [by apply post_update|apply post_ret; by rewrite Hloop].
  - post_step. apply (post_heartbeatScope _ _ _ lease). intros. apply post_update. by destruct err.
  - post_step. apply post_heartbeatSend. intros. by apply post_update.
  - post_step. destruct result; by apply post_update, post_update.
Qed.

Lemma stops w : hs_loop (w_session w) <> LoopAbsent ->
  post (Stop env service) (fun _ w' => hs_loop (w_session w') = LoopDone) w.
Proof.
  intros Hst. unfold Stop. post_step. unfold yield at 1. post_step. apply post_ask. intros steps o.
  eapply post_mono; [by apply present_steps|]. intros [] w1 H1. post_step. apply post_update.
  post_step. unfold yield. post_step. apply post_ask. intros steps' o'.
  eapply post_mono; [apply post_and; [by apply present_steps|by apply stopped_steps]|]. intros [] w2 [H2 Hs2].
  post_step. apply post_steps_app.
  eapply post_mono; [apply post_and; [by apply stopped_steps|by apply settled]|]. intros [] w3 [Hs3 Hq3].
  apply post_bind. eapply post_mono; [by apply exits|]. intros [] w4 H4. by apply post_ret, post_reads.
Qed.

(** ** After the session *)

(** The goroutine of the heartbeats is gone. The goroutine of the executor may still be
    there: nobody waits for one that was abandoned. *)
Record Still (base cs : list Event) (w : World W) : Prop := {
  still_done : hs_loop (w_session w) = LoopDone;
  still_events : exists rest, w_events w = base ++ rest /\ calls rest = cs /\ Forall (fun e => beat e = false) rest;
  still_executor : ExecutorTrace (w_executor w) (List.filter executing (w_events w))
}.

Lemma still_steps steps base cs w : Still base cs w -> post (envSteps env service steps) (fun _ w' => Still base cs w') w.
Proof.
  apply (envSteps_stable env service (Still base cs)); [by intros ? ? []| |].
  - intros w' step HS'. pose proof HS' as [Hd _ _]. unfold loopStep. do 2 post_step. rewrite Hd. by destruct step.
  - intros w' step [Hd (rest & E & Hc & Hb) Hx]. apply post_executorStep. intros o events state Hm.
    destruct (executor_move_events _ _ _ Hm) as [He Hf]. constructor; simpl; [done| |].
    + exists (rest ++ events). rewrite E, app_assoc, calls_app, Hc, (executors_beside _ He), app_nil_r. split_and!; [done..|].
      apply Forall_app. split; [done|]. eapply Forall_impl; [exact He|]. by intros [].
    + rewrite List.filter_app, Hf. by eapply executor_move_trace.
Qed.

Lemma still_call {A} (question : W -> A * W) event base cs Q w : Still base cs w -> (forall a, mine (event a) = true) ->
  (forall a w', Still base (cs ++ [event a]) w' -> Q a w') -> post (call env service question event) Q w.
Proof.
  intros HS Hmine HQ. unfold call. post_step. apply (post_mono _ (fun _ w' => Still base cs w')).
  { unfold yield. do 2 post_step. apply still_steps. by destruct HS. }
  intros [] w' [Hd (rest & E & Hc & Hb) Hx]. apply post_perform. intros a o. apply HQ. specialize (Hmine a).
  constructor; simpl; [done| |].
  - exists (rest ++ [event a]). rewrite E, app_assoc, calls_snoc, Hc. split_and!; [done|by destruct (event a)|].
    apply Forall_app. split; [done|]. constructor; [|done]. by destruct (event a).
  - rewrite List.filter_app. simpl. assert (executing (event a) = false) as -> by by destruct (event a). by rewrite app_nil_r.
Qed.

Lemma Still_here d k cs base w : Run d k cs base w -> hs_loop (w_session w) = LoopDone -> Still (w_events w) [] w.
Proof. intros [_ _ _ _ Hx] Hd. constructor; [done| |done]. exists []. by rewrite app_nil_r. Qed.

End run.
