(* ===== verification/ServiceProtocol.v ===== *)
(** * The protocol of the execution service

    The calls [RunNext] may make, as a specification of its own ([Protocol]), and the proof
    that every run follows it, whatever the services it calls answer and however the
    heartbeat goroutine, the goroutine of the executor and the contexts interleave with
    it. *)

From S2P Require Import Prelude.
From S2P Require Import Credential.
From S2P Require Import DurableHandles.
From S2P Require Import ExecutionLease.
From S2P Require Import Envelope.
From S2P Require Import ActionQueue.
From S2P Require Import Policy.
From S2P Require Import Service.
From S2P Require Import ServiceFacts.
From S2P Require Import ServiceTraces.
From S2P Require Import ServiceRun.

Open Scope Z_scope.

(** ** The specification *)

(** The goroutine of the executor: not entered, and then the outcome is uncertain; or
    entered once, with the issued credential and the command of the envelope, and then the
    outcome is uncertain too or classifies what the executor has returned by now. *)
Inductive Executed (admission : Admission) (issue : Result DurableCredential) (running : list Event)
    : list Event -> ExecutorResult -> Prop :=
| NotExecuted summary : result_Outcome summary = ExecutorUncertain -> Executed admission issue running [] summary
| ExecutedOnce value secret issuedAt summary :
    issue = Ok value ->
    validDurableCredential value secret (claimed_Envelope (adm_claimed admission))
      (dec_CredentialExpiresAt (adm_credentialDecision admission)) issuedAt = true ->
    (result_Outcome summary = ExecutorUncertain \/
     exists result, EvReturned (Ok result) ∈ running /\ summary = (classifyResult result None).2) ->
    Executed admission issue running
      [EvEnter (executorCommand (claimed_Envelope (adm_claimed admission))) value] summary.

(** Exactly one revocation request per issued credential. *)
Inductive Revoked : option DurableCredential -> Result (option Revocation) -> list Event -> Prop :=
| RevokedNone : Revoked None (Ok None) []
| RevokedRequested value answer :
    Revoked (Some value) (match answer with Ok revocation => Ok (Some revocation) | Err e => Err e end)
      [EvRequestRevocation value answer].

(** A definite result is finalized only when the credential is known to be gone. *)
Definition cleared (summary : ExecutorResult) (answer : Result (option Revocation)) : Prop :=
  answer = Ok None \/
  exists revocation, answer = Ok (Some revocation) /\
    (Revocation_Terminal revocation = true \/ ResultSummaryStatus summary = Ok StatusUncertain).

(** What follows the end of the session. *)
Inductive Finished (admission : Admission) (issued : option DurableCredential) (summary : ExecutorResult)
    : Result Execution -> list Event -> RunOutcome -> Prop :=
| FinishedUnacknowledged e answer revoked o :
    Revoked issued answer revoked -> o.2 <> None -> Finished admission issued summary (Err e) revoked o
| FinishedPending finalizing answer revoked o :
    Revoked issued answer revoked -> ~ cleared summary answer -> o.2 <> None ->
    Finished admission issued summary (Ok finalizing) revoked o
| FinishedFinal finalizing answer revoked final o :
    Revoked issued answer revoked -> cleared summary answer ->
    (o.2 = None -> final = Ok o.1 /\ ex_Status o.1 <> StatusFailed /\ ex_Status o.1 <> StatusUncertain) ->
    Finished admission issued summary (Ok finalizing) (revoked ++ [EvFinalize (leaseFence admission) final]) o.

Definition issuedBy (issue : Result DurableCredential) : option DurableCredential :=
  if issue is Ok value then Some value else None.

Definition completeRequest (admission : Admission) (summary : ExecutorResult) : ActionCompleteRequest :=
  {| acomplete_Lease := leaseFence admission; acomplete_Summary := summary |}.

(** The calls of a run from [Prepare] on: until [Complete], until the session is closed,
    and after it, when there are no heartbeats any more. *)
Inductive Ending (admission : Admission) : list Event -> RunOutcome -> Prop :=
| EndingUnstarted trace o : Unstarted admission (calls trace) -> List.filter executing trace = [] -> o.2 <> None ->
    Ending admission trace o
| EndingRun running prepared started issue executed summary complete closing rest o :
    calls running =
      [EvPrepare (prepareRequest admission) (Ok prepared); EvStart (leaseFence admission) (Ok started);
       EvIssue prepared issue] ++ executed ->
    Executed admission issue running executed summary -> validExecutorResult summary = true ->
    calls closing = [] ->
    Finished admission (issuedBy issue) summary complete (calls rest) o -> Forall (fun e => beat e = false) rest ->
    Ending admission (running ++ EvComplete (completeRequest admission summary) complete :: closing ++ rest) o.

(** The goroutine of the executor is entered only when every heartbeat before was good. *)
Definition gated (scope : RunnerScope) (lease : LeaseIdentity) (trace : list Event) : Prop :=
  forall before dispatch value after, trace = before ++ EvEnter dispatch value :: after ->
  Forall (fun e => good scope lease e = true) before.

(** The goroutine of the executor runs at most once: it is entered, it calls the executor
    with what it was entered with, and the executor returns. *)
Definition executesOnce (trace : list Event) : Prop := exists state, ExecutorTrace state (List.filter executing trace).

Inductive Protocol {W} (env : Environment W) (Transform : string -> Result string)
    (ed25519_Verify : string -> string -> string -> bool) (service : Service) : list Event -> RunOutcome -> Prop :=
| ProtocolWithdrawn trace o : withdrawn trace -> o.2 <> None -> Protocol env Transform ed25519_Verify service trace o
| ProtocolCleared admission before after o :
    readings before ->
    Claimed Transform ed25519_Verify service before (adm_scope admission) (adm_claimed admission) ->
    Cleared env before admission ->
    Ending admission after o ->
    numbered (adm_scope admission) (leaseFence admission) (before ++ after) ->
    gated (adm_scope admission) (leaseFence admission) (before ++ after) ->
    executesOnce (before ++ after) ->
    Protocol env Transform ed25519_Verify service (before ++ after) o.

(** ** Results *)

Lemma classifyResult_valid result err : validExecutorResult (classifyResult result err).2 = true.
Proof.
  unfold classifyResult. destruct err; [done|]. destruct (validExecutorResult result) eqn:Hv; [|done]. simpl.
  by destruct (result_Outcome result).
Qed.

Lemma classifyResult_error result e : result_Outcome (classifyResult result (Some e)).2 = ExecutorUncertain.
Proof. done. Qed.

Lemma ResultSummaryStatus_valid summary : validExecutorResult summary = true ->
  exists status, ResultSummaryStatus summary = Ok status.
Proof.
  intros Hv. unfold ResultSummaryStatus. rewrite Hv. simpl.
  unfold validExecutorResult in Hv. destruct (_ || _); [done|]. destruct (result_Outcome summary); eauto. done.
Qed.

Lemma errors_Join_Some e errs : is_Some (errors_Join (Some e :: errs)).
Proof. simpl. destruct (errors_Join errs); eauto. Qed.

(** The test that [RunNext] makes before [Finalize]. *)
Lemma cleared_iff summary status revocation : ResultSummaryStatus summary = Ok status ->
  (status != StatusUncertain) &&
    (if revocation is Some revocation then negb (Revocation_Terminal revocation) else false) = false <->
  cleared summary (Ok revocation).
Proof.
  intros Hstatus. unfold cleared. rewrite Hstatus. destruct revocation as [revocation|]; [|rewrite andb_false_r; split; auto].
  destruct (Revocation_Terminal revocation) eqn:Ht, (status == StatusUncertain) eqn:Hu; guards; naive_solver.
Qed.

(** ** Entries of the executor in a trace *)

Definition is_enter (e : Event) : bool := if e is EvEnter _ _ then true else false.

Lemma enters_calls trace : List.filter is_enter (calls trace) = List.filter is_enter trace.
Proof. induction trace as [|e trace IH]; [done|]. destruct e; simpl; by rewrite ?IH. Qed.

Lemma enter_unique before e after before' e' after' :
  before ++ e :: after = before' ++ e' :: after' -> is_enter e = true -> is_enter e' = true ->
  List.length (List.filter is_enter (before ++ e :: after)) = 1%nat -> before = before'.
Proof.
  intros E He He' H1. destruct (app_eq_inv _ _ _ _ E) as [(k & -> & Hk)|(k & -> & Hk)]; destruct k as [|x k];
    try (by rewrite app_nil_r); simplify_eq/=; exfalso; revert H1;
    repeat progress (rewrite ?List.filter_app, ?List.length_app, ?He, ?He'; simpl); lia.
Qed.

Lemma executing_calls trace : List.filter executing trace = [] -> List.filter executing (calls trace) = [].
Proof. induction trace as [|e trace IH]; [done|]. by destruct e; simpl. Qed.

Lemma no_enters trace : Forall (fun e => is_enter e = false) trace -> List.filter is_enter trace = [].
Proof. induction 1 as [|e trace He _ IH]; [done|]. simpl. by rewrite He. Qed.

(** ** A run follows the protocol *)

Section protocol.
Context {W : Type} (env : Environment W) (Transform : string -> Result string)
  (ed25519_Verify : string -> string -> string -> bool) (service : Service) (admission : Admission).
Implicit Types (w : World W).
Let scope := adm_scope admission.
Let lease := leaseFence admission.
Let envelope := claimed_Envelope (adm_claimed admission).
Let policyExpiresAt := dec_CredentialExpiresAt (adm_credentialDecision admission).
Abbreviation Run := (Run (W:=W) scope lease).

Lemma run_runCredential value cs base Q w : List.filter executing cs = [] -> Run 0 true cs base w ->
  (forall r ctx w', Run 0 false cs base w' -> is_Err r -> Q (r, ctx) w') ->
  (forall before secret issuedAt r ctx w',
     validDurableCredential value secret envelope policyExpiresAt issuedAt = true ->
     base `prefix_of` before -> Forall (fun e => good scope lease e = true) before ->
     let e := EvEnter (executorCommand envelope) value in Run 0 false (cs ++ [e]) (before ++ [e]) w' ->
     (forall result, r = Ok result -> EvReturned (Ok result) ∈ w_events w') -> Q (r, ctx) w') ->
  post (runCredential env service admission value) Q w.
Proof.
  intros Hno HR Hnot Hdone. unfold runCredential. fold envelope policyExpiresAt. cbv zeta.
  post_step. eapply run_ask; [done|]. intros observed w1 HR1. post_step. eapply run_now; [done|]. intros clock w2 HR2.
  destruct clock as [issueNow|]; [|apply post_ret, Hnot; [by eapply Run_weaken|by eexists]].
  post_step. eapply run_ask; [done|]. intros secret w3 HR3.
  destruct (validDurableCredential _ _ _ _ _) eqn:Hvalid; simpl negb; cbv iota;
    [|apply post_ret, Hnot; [by eapply Run_weaken|by eexists]].
  destruct (mappedExecutionDeadline _ _ _); [|apply post_ret, Hnot; [by eapply Run_weaken|by eexists]].
  post_step. apply post_update. set (w3' := setContexts _ w3). assert (HR3' : Run 0 true cs base w3').
  { destruct HR3 as [Hw Hs Hc Hb Hx]. constructor; [by apply Watched_contexts| |done..]. intros Hk. by destruct (Hs Hk). }
  post_step. eapply run_Checkpoint; [done| |].
  { intros e w4 HR4. apply post_ret, Hnot; [done|by eexists]. }
  intros w4 HR4. post_step. eapply run_dispatch; [done|done|done| |].
  - intros r w5 HR5 Hr. by apply post_ret, Hnot.
  - intros before r w5 e Hcalls Hbase Hgood HR5 Hr. apply post_ret. by eapply Hdone.
Qed.

(** The gate in terms of the trace so far. *)
Definition gatedBy (executed trace : list Event) : Prop :=
  executed = [] \/ exists before e, executed = [e] /\ Forall (fun e => good scope lease e = true) before /\
                     (before ++ [e]) `prefix_of` trace.

Lemma Executed_mono issue running running' executed summary : running `prefix_of` running' ->
  Executed admission issue running executed summary -> Executed admission issue running' executed summary.
Proof.
  intros Hp [|? ? ? ? ? ? Hr]; [by constructor|]. eapply ExecutedOnce; [done..|].
  destruct Hr as [?|(result & ? & ?)]; [by left|right]. exists result. split; [by eapply elem_of_prefix|done].
Qed.

Lemma Executed_after before issue running executed summary : readings before ->
  Executed admission issue (before ++ running) executed summary -> Executed admission issue running executed summary.
Proof.
  intros Hb [|? ? ? ? ? ? Hr]; [by constructor|]. eapply ExecutedOnce; [done..|].
  destruct Hr as [?|(result & [Hin|?]%elem_of_app & ?)]; [by left| |right; eauto].
  unfold readings in Hb. rewrite Forall_forall in Hb. by specialize (Hb _ Hin).
Qed.

(** What is known when the result is there. *)
Definition Executing prepared cs base0 (r : option DurableCredential * ExecutorResult) w : Prop :=
  exists issue executed base, r.1 = issuedBy issue /\ validExecutorResult r.2 = true /\
    Executed admission issue base executed r.2 /\ gatedBy executed base /\ base0 `prefix_of` base /\
    Run 0 false ((cs ++ [EvIssue prepared issue]) ++ executed) base w.

(** The summary of a result, after the last checkpoint. *)
Lemma run_summary prepared issue result ctx executed base cs base0 w :
  Run 0 false ((cs ++ [EvIssue prepared issue]) ++ executed) base w -> gatedBy executed base -> base0 `prefix_of` base ->
  (forall summary, (is_Err result -> result_Outcome summary = ExecutorUncertain) ->
     (result_Outcome summary = ExecutorUncertain \/
      exists answer, result = Ok answer /\ summary = (classifyResult answer None).2) ->
     Executed admission issue base executed summary) ->
  post (heartbeatErr ← Checkpoint env service ctx;
        mret (issuedBy issue,
              match heartbeatErr with
              | Some e => (classifyResult ExecutorResult_zero (Some e)).2
              | None => (classifyResult (Result_default ExecutorResult_zero result) (errOf result)).2
              end)) (Executing prepared cs base0) w.
Proof.
  intros HR Hg Hb He. post_step. eapply run_Checkpoint; [done|intros e w3 HR3|intros w3 HR3];
    apply post_ret; exists issue, executed, base; split_and!; try done; try apply classifyResult_valid; apply He; auto.
  - intros [e ->]. done.
  - destruct result as [answer|e]; [right; by exists answer|by left].
Qed.

Lemma run_execute prepared cs base0 w : List.filter executing cs = [] -> Run 0 true cs base0 w ->
  post (RunNext_execute env service admission prepared) (Executing prepared cs base0) w.
Proof.
  intros Hno HR. unfold RunNext_execute. post_step. eapply run_call; [done|done|]. intros issue before w1 _ Hb0 HR1.
  apply (Run_base _ _ _ _ _ base0) in HR1; [|by apply prefix_app_r]. post_step. destruct issue as [value|e].
  - eapply run_runCredential; [|exact HR1|..]; [by rewrite List.filter_app, Hno|..].
    + intros r ctx w2 HR2 Hr. eapply (run_summary _ (Ok value) _ _ []); [by rewrite app_nil_r|by left|done|].
      intros summary Hs _. apply NotExecuted, Hs, Hr.
    + intros before' secret issuedAt r ctx w2 Hvalid Hbase Hgood ev HR2 Hr. pose proof (run_base _ _ _ _ _ _ _ HR2) as Hp.
      apply Run_here in HR2. eapply (run_summary _ (Ok value)); [exact HR2|right; by eexists _, _| |].
      { etrans; [|exact Hp]. by apply prefix_app_r. }
      intros summary _ Hs. eapply ExecutedOnce; [done..|]. destruct Hs as [?|(answer & ? & ?)]; [by left|right; eauto].
  - apply post_ret. eapply (run_summary _ (Err e) _ _ []); [rewrite app_nil_r; by eapply Run_weaken|by left|done|].
    intros summary Hs _. apply NotExecuted, Hs. by eexists.
Qed.

Lemma still_requestRevocation issued base cs Q w : Still base cs w ->
  (forall answer revoked w', Revoked issued answer revoked -> Still base (cs ++ revoked) w' -> Q answer w') ->
  post (requestRevocation env service issued) Q w.
Proof.
  intros HS HQ. unfold requestRevocation. destruct issued as [value|].
  - post_step. eapply still_call; [done|done|]. intros answer w' HS'. apply post_ret. eapply HQ; [constructor|done].
  - apply post_ret. eapply HQ; [constructor|]. by rewrite app_nil_r.
Qed.

(** What is known when the action is closed. *)
Definition Closed issued summary cs base (o : RunOutcome) w : Prop :=
  exists running complete closing rest,
    let active := running ++ EvComplete (completeRequest admission summary) complete :: closing in
    w_events w = active ++ rest /\ calls running = cs /\ base `prefix_of` running /\ calls closing = [] /\
    numbered scope lease active /\ Finished admission issued summary complete (calls rest) o /\
    Forall (fun e => beat e = false) rest /\ executesOnce (w_events w).

Lemma run_closed issued summary complete cs base before w :
  let e := EvComplete (completeRequest admission summary) complete in
  calls before = cs -> base `prefix_of` before -> Run 0 false (cs ++ [e]) (before ++ [e]) w ->
  hs_loop (w_session w) = LoopDone ->
  Still (w_events w) [] w /\
  forall rest o w', Still (w_events w) rest w' -> Finished admission issued summary complete rest o ->
    Closed issued summary cs base o w'.
Proof.
  intros e Hb Hp HR Hd. split; [by eapply Still_here|]. intros rest o w' [_ (tail & E & <- & Hbeat) Hx] Hf.
  destruct HR as [[] _ Hc [closing Ha] _]. exists before, complete, closing, tail. rewrite <- app_assoc in Ha. simpl in Ha.
  cbv zeta. fold e. rewrite <- Ha. split_and!; try done; [|by eexists].
  rewrite Ha, calls_app, Hb in Hc. apply app_inv_head in Hc. by injection Hc.
Qed.

Lemma run_finish started issued summary cs base w : Run 0 false cs base w -> validExecutorResult summary = true ->
  post (RunNext_finish env service admission started issued summary) (Closed issued summary cs base) w.
Proof.
  intros HR Hv. unfold RunNext_finish. fold (leaseFence admission). cbv zeta. fold (completeRequest admission summary).
  post_step. eapply run_call; [done|done|]. intros complete before w1 Hb Hp HR1. destruct complete as [finalizing|e].
  2: { post_step. eapply run_Stop; [done|]. intros heartbeatErr w2 HR2 Hd.
       destruct (run_closed issued _ _ _ _ _ _ Hb Hp HR2 Hd) as [HS Hend].
       post_step. eapply still_requestRevocation; [done|]. intros answer revoked w3 Hrev HS3. apply post_ret.
       eapply Hend; [done|]. eapply FinishedUnacknowledged; [done|].
       destruct (errors_Join_Some ErrExecutionUncertain [Some e; heartbeatErr; errOf answer]) as [? Hj].
       simpl in *. by rewrite Hj. }
  post_step. eapply run_AcknowledgeComplete; [done|]. intros w2 HR2.
  post_step. eapply run_Stop; [done|]. intros heartbeatErr w3 HR3 Hd.
  destruct (run_closed issued _ _ _ _ _ _ Hb Hp HR3 Hd) as [HS Hend].
  post_step. eapply still_requestRevocation; [done|]. intros answer revoked w4 Hrev HS4.
  destruct answer as [revocation|e].
  2: { apply post_ret. eapply Hend; [done|]. eapply FinishedPending; [done| |done].
       by intros [?|(? & ? & _)]. }
  destruct (ResultSummaryStatus_valid _ Hv) as [status Hstatus]. rewrite Hstatus. simpl Result_default.
  pose proof (cleared_iff summary status revocation Hstatus) as Hcleared.
  destruct ((status != StatusUncertain) && _) eqn:Hpending.
  { apply post_ret. eapply Hend; [done|]. eapply FinishedPending; [done| |done]. intros Hc. by apply Hcleared in Hc. }
  post_step. eapply still_call; [done|done|]. intros final w5 HS5. apply post_ret.
  eapply Hend; [done|]. eapply FinishedFinal; [done|by apply Hcleared|].
  destruct final as [completed|e].
  - destruct (ex_Status completed) eqn:Hst; simpl; try done; intros _; rewrite Hst; done.
  - destruct (bool_decide _); [done|]. intros Hn. by destruct (errors_Join_Some ErrExecutionUncertain [Some e]).
Qed.

(** *** The gate in the whole trace *)

Lemma gatedBy_gated executed base trace : gatedBy executed base -> base `prefix_of` trace ->
  List.filter is_enter (calls trace) = executed -> gated scope lease trace.
Proof.
  intros Hg Hbase Hex before' dispatch value after' E. rewrite enters_calls in Hex.
  assert (Hin : EvEnter dispatch value ∈ executed).
  { rewrite <- Hex, E, List.filter_app. apply elem_of_app. right. constructor. }
  destruct Hg as [->|(before & e & -> & Hgood & Hpre)]; [by apply not_elem_of_nil in Hin|].
  apply list_elem_of_singleton in Hin as <-. destruct (transitivity Hpre Hbase) as [after Ht].
  rewrite <- app_assoc in Ht. simpl in Ht. rewrite Ht in E, Hex.
  rewrite <- (enter_unique _ _ _ _ _ _ E eq_refl eq_refl); [done|]. by rewrite Hex.
Qed.

Lemma scopedBy_good trace : readings trace -> Forall (scopedBy scope) trace ->
  Forall (fun e => good scope lease e = true) trace.
Proof.
  intros Hr Hs. induction Hr as [|e trace He Hr IH]; [constructor|]. inversion_clear Hs as [|? ? Hse Hst].
  constructor; [|auto]. destruct e; try done. destruct Hse as (registration & -> & Hok). simpl. rewrite Hok.
  unfold sameRunnerScope. by rewrite !eqb_same.
Qed.

(** *** The whole run *)

Lemma Finished_rest issued summary complete rest o : Finished admission issued summary complete rest o ->
  Forall (fun e => is_enter e = false) rest.
Proof.
  assert (Hrev : forall answer revoked, Revoked issued answer revoked -> Forall (fun e => is_enter e = false) revoked)
    by (intros ? ? []; by repeat constructor).
  intros []; [by eapply Hrev..|]. apply Forall_app. split; [by eapply Hrev|]. by repeat constructor.
Qed.

Lemma numbered_rest trace rest : numbered scope lease trace ->
  Forall (fun e => beat e = false) rest -> numbered scope lease (trace ++ rest).
Proof.
  intros Hn Hr. induction rest as [|e rest IH] using rev_ind; [by rewrite app_nil_r|].
  apply Forall_app in Hr as [Hr He]. rewrite app_assoc. apply numbered_snoc; [auto|]. inversion_clear He. naive_solver.
Qed.

Lemma executed_enters issue running executed summary : Executed admission issue running executed summary ->
  List.filter is_enter executed = executed.
Proof. by intros []. Qed.

(** The session starts with everything good so far. *)
Lemma session_starts w0 trace w : At w0 trace w -> w_events w0 = [] -> counted scope lease 2 trace ->
  Forall (fun e => good scope lease e = true) trace ->
  Run 0 true (calls trace) trace
    (startHeartbeatSession scope lease 2
       (setContexts (fun contexts => {| contexts with cx_executorMade := true |}) w)).2.
Proof.
  intros [[Hs Hc Hx] Ht] H0 (Hn & He & Hno) Hg. unfold extends in Ht. rewrite H0 in Ht. simpl in Ht. unfold frame in Hc.
  constructor; simpl; rewrite ?Ht; try done.
  - constructor; unfold unreturned; simpl; rewrite ?Ht; try done. auto.
  - intros _. constructor; simpl; rewrite ?Ht; try done; [|by left]. split; [done|congruence].
  - rewrite Hx, Hno. constructor.
Qed.

(** The run until [Issue], when it does not get there. *)
Lemma unstarted_trace w0 before tail n o w : At w0 (before ++ tail) w -> w_events w0 = [] ->
  counted scope lease n (before ++ tail) -> List.filter is_enter (calls before) = [] ->
  Unstarted admission (calls tail) -> o.2 <> None ->
  w_events w = before ++ tail /\ Ending admission tail o /\ numbered scope lease (before ++ tail) /\
  gated scope lease (before ++ tail) /\ executesOnce (before ++ tail).
Proof.
  intros [_ Ht] H0 (Hn & _ & Hno) Hbefore Hun Ho. unfold extends in Ht. rewrite H0 in Ht. split_and!; [done| |done| |].
  - constructor; [done| |done]. rewrite List.filter_app in Hno. by apply app_eq_nil in Hno as [_ ?].
  - eapply (gatedBy_gated []); [by left|apply prefix_nil|]. rewrite calls_app, List.filter_app, Hbefore. by destruct Hun.
  - exists ExecutorAbsent. rewrite Hno. constructor.
Qed.

Lemma run_trace w0 before w : At w0 before w -> w_events w0 = [] -> readings before -> Forall (scopedBy scope) before ->
  post (RunNext_run env service admission)
    (fun o w' => exists after, w_events w' = before ++ after /\ Ending admission after o /\
       numbered scope lease (before ++ after) /\ gated scope lease (before ++ after) /\ executesOnce (before ++ after)) w.
Proof.
  intros HA H0 Hr Hsc. unfold RunNext_run. post_step.
  eapply post_mono; [eapply start_trace; [done|by apply counted_readings]|].
  assert (Hbefore : List.filter is_enter (calls before) = []).
  { rewrite enters_calls. apply no_enters. eapply Forall_impl; [exact Hr|]. intros e He. by destruct e. }
  intros [[prepared started]|o] w1 (tail & n & HA1 & Hc1 & H1).
  2: { destruct H1 as [Hun Ho]. apply post_ret. exists tail. by eapply unstarted_trace. }
  destruct H1 as (Ht1 & -> & Hg1). fold scope (leaseFence admission). fold lease.
  assert (Hgood : Forall (fun e => good scope lease e = true) (before ++ tail)).
  { apply Forall_app. split; [by apply scopedBy_good|done]. }
  pose proof (session_starts _ _ _ HA1 H0 Hc1 Hgood) as HR2. post_step. apply post_update. post_step.
  refine (post_mono (A:=unit) _ (fun _ w' => Run 0 true _ _ w') _ _ HR2 _). clear HR2. intros [] w2 HR2.
  assert (Hno : List.filter executing (calls (before ++ tail)) = []).
  { apply executing_calls. apply Hc1. }
  post_step. eapply post_mono; [by apply run_execute|].
  intros [issued summary] w3 (issue & executed & base & Hissued & Hvalid & Hex & Hgate & Hbase & HR3). simpl in *.
  subst issued. eapply post_mono; [by apply run_finish|].
  intros o w4 (running & complete & closing & rest & He & Hcalls & Hpre & Hclosing & Hnum & Hfin & Hbeat & Honce).
  destruct (transitivity Hbase Hpre) as [more Hact]. rewrite <- app_assoc in Hact.
  set (e := EvComplete _ _) in *. exists ((tail ++ more) ++ e :: closing ++ rest).
  assert (EA : before ++ (tail ++ more) ++ e :: closing ++ rest = (running ++ e :: closing) ++ rest).
  { by rewrite Hact, <- !app_assoc. }
  rewrite <- EA in He. rewrite He in Honce. split_and!; [done| |rewrite EA; by apply numbered_rest| |done].
  - eapply EndingRun; [| |done..].
    + rewrite Hact, (calls_app before (tail ++ more)), (calls_app before tail), <- !app_assoc in Hcalls.
      apply app_inv_head in Hcalls. by rewrite Hcalls, Ht1.
    + eapply Executed_after; [exact Hr|]. rewrite <- Hact. by eapply Executed_mono.
  - eapply gatedBy_gated; [done|rewrite EA, <- app_assoc; by apply prefix_app_r|].
    rewrite EA, !calls_app, Hcalls, !List.filter_app, (executed_enters _ _ _ _ Hex). simpl.
    rewrite Hclosing, calls_app, List.filter_app, Hbefore, Ht1, (no_enters _ (Finished_rest _ _ _ _ _ Hfin)). simpl.
    by rewrite !app_nil_r.
Qed.
End protocol.

(** [RunNext] follows the protocol. *)
Lemma RunNext_protocol {W} (env : Environment W) Transform ed25519_Verify service oracle caller :
  post (RunNext env Transform ed25519_Verify service)
    (fun o w' => Protocol env Transform ed25519_Verify service (w_events w') o) (World_start oracle caller).
Proof.
  assert (Hstart : At (World_start oracle caller) [] (World_start oracle caller)) by (apply At_start; by constructor).
  unfold RunNext. post_step. eapply post_mono; [by apply admission_trace|].
  intros [admission|o] w (trace & HA & H).
  - destruct H as (Hr & Had & Hcl & Hsc). eapply post_mono; [by eapply run_trace|].
    intros o w' (after & -> & Hend & Hnum & Hgate & Honce). by eapply ProtocolCleared.
  - apply post_ret. destruct HA as [_ ->]. destruct H. by constructor.
Qed.
