(* ===== verification/ServiceExamples.v ===== *)
(** * An example run of the execution service

    One complete run of [RunNext] against answers that all succeed, with a heartbeat round
    at every yield, to instantiate the theorems with. *)

From S2P Require Import Prelude.
From S2P Require Import Credential.
From S2P Require Import DurableHandles.
From S2P Require Import ExecutionLease.
From S2P Require Import Envelope.
From S2P Require Import ActionQueue.
From S2P Require Import Examples.
From S2P Require Import Policy.
From S2P Require Import PolicyTheorems.
From S2P Require Import Service.
From S2P Require Import ServiceFacts.
From S2P Require Import ServiceTraces.

Open Scope Z_scope.

Module ServiceDemo.

Definition now : Time := demo_now.
Definition envelope : Envelope := PolicyDemo.envelope.
Definition service : Service :=
  {| svc_runnerID := "runner-1"; svc_leaseDuration := Minute; svc_heartbeatInterval := 20 * Second;
     svc_finalizeTimeout := 5 * Second |}.

Definition registration : RunnerRegistration :=
  {| reg_RunnerID := "runner-1"; reg_TenantID := "tenant-1"; reg_Pool := PoolWrite; reg_Enabled := true;
     reg_ScopeRevision := 1; reg_MaxConcurrency := 2;
     reg_ScopeBindings := [{| binding_WorkspaceID := "workspace-1"; binding_EnvironmentID := "staging" |}] |}.

Definition leased : Execution :=
  {| Execution_zero with
     ex_ExecutionID := "action-1"; ex_TargetKey := "target-1"; ex_Pool := PoolWrite; ex_Status := StatusLeased;
     ex_RunnerID := "runner-1"; ex_RunnerTenantID := "tenant-1"; ex_RunnerWorkspaceID := "workspace-1";
     ex_RunnerEnvironmentID := "staging"; ex_ScopeRevision := 1; ex_LeaseToken := "token-1"; ex_LeaseEpoch := 1 |}.
Definition running : Execution := {| leased with ex_Status := StatusRunning |}.
Definition finalizing : Execution := {| leased with ex_Status := StatusFinalizing |}.
Definition succeeded : Execution := {| leased with ex_Status := StatusSucceeded |}.

Definition claimed : ClaimedAction :=
  {| claimed_Execution := leased; claimed_Envelope := envelope; claimed_PlanHash := env_PlanHash envelope;
     claimed_TargetKey := "target-1"; claimed_EnvironmentRevision := "env-1"; claimed_Production := false |}.

Definition snapshot : EnvironmentSnapshot :=
  {| es_WorkspaceID := "workspace-1"; es_EnvironmentID := "staging"; es_Production := false; es_Revision := "env-1";
     es_ObservedAt := now |}.

Definition safety (request : SafetyRequest) : ClaimSafetySnapshot :=
  {| cs_Enabled := true; cs_Pool := sr_Pool request; cs_RunnerID := sr_RunnerID request;
     cs_WorkspaceID := sr_WorkspaceID request; cs_EnvironmentID := sr_EnvironmentID request;
     cs_ConnectorID := sr_ConnectorID request; cs_ActionType := sr_ActionType request; cs_Revision := "g1/s1";
     cs_ObservedAt := now |}.

Definition decision (stage : Stage) : Decision :=
  {| dec_Outcome := OutcomeAllow; dec_PolicyVersion := env_PolicyVersion envelope; dec_Stage := stage;
     dec_PlanHash := env_PlanHash envelope; dec_ReasonCodes := []; dec_SafetyRevision := "g1/s1";
     dec_TargetRevision := "t1"; dec_RiskRevision := "r1"; dec_LimitsRevision := "l1"; dec_EvaluatedAt := now;
     dec_CredentialExpiresAt := now + 10 * Minute |}.

Definition prepared : PreparedDurableCredential := {| pdc_revocationID := "7b1d6e0a-4c52-4b7e-9a51-0d4f3a2b1c6d"; pdc_state := 1 |}.
Definition credential : DurableCredential :=
  {| dc_revocationID := "7b1d6e0a-4c52-4b7e-9a51-0d4f3a2b1c6d"; dc_expiresAt := now + 5 * Minute; dc_state := 2 |}.

Definition revocation : Revocation :=
  {| rev_ID := dc_revocationID credential; rev_TenantID := "tenant-1"; rev_WorkspaceID := "workspace-1";
     rev_EnvironmentID := "staging"; rev_ActionID := "action-1"; rev_TargetKey := "target-1"; rev_Production := false;
     rev_RunnerID := "runner-1"; rev_ActionLeaseEpoch := 1; rev_Issuer := "vault"; rev_IssuerRevision := "v1";
     rev_ActionType := "K8S_ROLLOUT_RESTART"; rev_ConnectorID := "kubernetes-1"; rev_Permission := "PATCH_DEPLOYMENT_RESTART";
     rev_Resource := "cluster-1/payments/deployment/api"; rev_CredentialTTLSeconds := 600;
     rev_CredentialExpiresAt := now + 5 * Minute; rev_Status := StatusRevoked; rev_AccessorPresent := false;
     rev_AccessorHMAC := ""; rev_EncryptionKeyID := ""; rev_ClaimEpoch := 1; rev_ClaimedBy := ""; rev_ClaimedAt := 0;
     rev_ClaimExpiresAt := 0; rev_LastHeartbeatAt := 0; rev_Attempt := 1; rev_FailureCount := 0;
     rev_FailureCode := FailureCodeOther ""; rev_FailureDetailSHA256 := ""; rev_AvailableAt := now; rev_EvidenceHash := "";
     rev_CreatedAt := now; rev_UpdatedAt := now; rev_AnchoredAt := now; rev_ActivatedAt := now;
     rev_RevocationRequestedAt := now; rev_ManualRequiredAt := 0; rev_RevokedAt := now; rev_Version := 5 |}.

(** Everything answers as hoped for, and at every yield the heartbeat goroutine makes a whole
    round. *)
Definition env : Environment unit := {|
  on_Clock := fun w => (now, w);
  on_TimeNow := fun w => (now, w);
  on_Deadline := None;
  on_Timeout := fun w => (None, w);
  on_Keys := fun w => (Some demo_resolver, w);
  on_Secret := fun _ w => ("secret"%string, w);
  on_ResolveRunner := fun _ w => (Ok registration, w);
  on_ResolveEnvironment := fun _ _ w => (Ok snapshot, w);
  on_Safety := fun request w => (Ok (safety request), w);
  on_EvaluateCredentialIssue := fun _ w => (Ok (decision StageCredentialIssue), w);
  on_EvaluatePreExecution := fun _ w => (Ok (decision StagePreExecution), w);
  on_Submit := fun _ w => (Ok leased, w);
  on_Claim := fun _ w => (Ok claimed, w);
  on_Reject := fun _ w => (Ok leased, w);
  on_Nack := fun _ w => (Ok leased, w);
  on_Start := fun _ w => (Ok running, w);
  on_Heartbeat := fun _ w => (Ok {| ahb_Execution := running; ahb_Directive := HeartbeatContinue |}, w);
  on_Complete := fun _ w => (Ok finalizing, w);
  on_Finalize := fun _ w => (Ok succeeded, w);
  on_Prepare := fun _ w => (Ok prepared, w);
  on_Issue := fun _ w => (Ok credential, w);
  on_NoCredential := fun _ w => (Ok revocation, w);
  on_RequestRevocation := fun _ w => (Ok revocation, w);
  on_Execute := fun _ _ w => (Ok demo_summary, w);
  on_Select := fun w => (ReadyExecutor, w);
  on_Schedule := fun w => ([StepTick; StepScope; StepHeartbeat; StepReturn], w)
|}.

Definition run : RunOutcome * World unit := RunNext env demo_Transform demo_Verify service (World_start tt None).

(** The calls of the run, without the heartbeats' and the executor's. *)
Definition name (e : Event) : string :=
  match e with
  | EvResolveRunner _ _ => "ResolveRunner" | EvResolveEnvironment _ _ _ => "ResolveEnvironment" | EvSafety _ _ => "Safety"
  | EvEvaluateCredentialIssue _ _ => "EvaluateCredentialIssue" | EvEvaluatePreExecution _ _ => "EvaluatePreExecution"
  | EvSubmit _ _ => "Submit" | EvClaim _ _ => "Claim" | EvReject _ _ => "Reject" | EvNack _ _ => "Nack"
  | EvStart _ _ => "Start" | EvHeartbeat _ _ => "Heartbeat" | EvComplete _ _ => "Complete" | EvFinalize _ _ => "Finalize"
  | EvPrepare _ _ => "Prepare" | EvIssue _ _ => "Issue" | EvNoCredential _ _ => "NoCredential"
  | EvRequestRevocation _ _ => "RequestRevocation" | EvEnter _ _ => "Enter" | EvExecute _ _ => "Execute"
  | EvReturned _ => "Returned"
  end.

Example run_calls : map name (calls (w_events run.2)) =
  ["Safety"; "Claim"; "ResolveEnvironment"; "EvaluateCredentialIssue"; "EvaluatePreExecution"; "Safety";
   "ResolveEnvironment"; "Prepare"; "Start"; "Issue"; "Enter"; "Complete"; "RequestRevocation"; "Finalize"]%string.
Proof. vm_compute. reflexivity. Qed.

(** What the run knew when it prepared the credential. *)
Definition scope : RunnerScope := Result_default RunnerScope_zero (RunnerRegistration_Scope registration).
Definition admission : Admission :=
  {| adm_scope := scope; adm_claimed := claimed; adm_credentialDecision := decision StageCredentialIssue;
     adm_decision := decision StagePreExecution; adm_safety := safety (startSafetyRequest scope envelope);
     adm_executorDeadline := now + 5 * Minute |}.

(** What [Submit] makes of the envelope. *)
Definition submission : ActionSubmission :=
  {| sub_Envelope := envelope; sub_PlanHash := env_PlanHash envelope;
     sub_TargetKey := Result_default ""%string (deriveTargetKey envelope); sub_EnvironmentRevision := "env-1";
     sub_Production := false; sub_Pool := PoolWrite |}.

Definition command : Command :=
  KubernetesRolloutRestartCommand (commandIdentity envelope) (demo_kubernetes "api") {| restart_Reason := "memory leak" |}
    {| ks_Generation := 7; ks_Replicas := 3; ks_AvailableReplicas := 2; ks_UpdatedReplicas := 3 |}
    (env_Preconditions envelope) (env_Verification envelope).

(** Some of its calls, where they are in the trace. *)
Lemma prepares : w_events run.2 !! 8%nat = Some (EvPrepare (prepareRequest admission) (Ok prepared)).
Proof. vm_compute. reflexivity. Qed.
Lemma issues : w_events run.2 !! 14%nat = Some (EvIssue prepared (Ok credential)).
Proof. vm_compute. reflexivity. Qed.
Lemma executes : w_events run.2 !! 24%nat = Some (EvExecute command credential).
Proof. vm_compute. reflexivity. Qed.
Lemma finalizes : w_events run.2 !! 40%nat = Some (EvFinalize (leaseFence admission) (Ok succeeded)).
Proof. vm_compute. reflexivity. Qed.
Lemma succeeds : run.1 = (succeeded, None).
Proof. vm_compute. reflexivity. Qed.

Lemma run_eq : RunNext env demo_Transform demo_Verify service (World_start tt None) = run.
Proof. reflexivity. Qed.

#[global] Opaque run.
End ServiceDemo.
