(* ===== verification/ServiceTheorems.v ===== *)
(** * Theorems about the execution service

    Properties of every run of [RunNext], for any answers of the services it calls and
    any interleaving with its heartbeat goroutine, the goroutine of its executor and its
    contexts. *)

From S2P Require Import Prelude.
From S2P Require Import Sha256.
From S2P Require Import GoText.
From S2P Require Import GoJson.
From S2P Require Import Credential.
From S2P Require Import DurableHandles.
From S2P Require Import ExecutionLease.
From S2P Require Import Envelope.
From S2P Require Import ActionQueue.
From S2P Require Import Examples.
From S2P Require Import Policy.
From S2P Require Import PolicyTheorems.
From S2P Require Import Service.
From S2P Require Import ServiceFacts.
From S2P Require Import ServiceTraces.
From S2P Require Import ServiceRun.
From S2P Require Import ServiceProtocol.
From S2P Require Import ServiceExamples.

Open Scope Z_scope.

(** ** Splitting a trace *)

Lemma prefix_before (before0 after0 before after : list Event) x :
  before0 ++ after0 = before ++ x :: after -> x ∉ before0 -> before0 `prefix_of` before.
Proof.
  intros E Hx. destruct (app_eq_inv _ _ _ _ E) as [(k & -> & Hk)|(k & -> & _)]; [|by apply prefix_app_r].
  destruct k as [|y k]; [by rewrite app_nil_r|]. simplify_eq/=. destruct Hx. apply elem_of_app. right. constructor.
Qed.

Lemma not_elem_filtered (P : Event -> bool) trace e : Forall (fun e => P e = false) trace -> P e = true -> e ∉ trace.
Proof. intros Hall He Hin. rewrite Forall_forall in Hall. specialize (Hall e Hin). congruence. Qed.

Lemma calls_in e trace : e ∈ calls trace -> e ∈ trace.
Proof. intros Hin. apply list_elem_of_In. apply list_elem_of_In, List.filter_In in Hin as [? _]. done. Qed.

Lemma calls_own e trace : e ∈ calls trace -> beside e = false.
Proof. intros Hin. by apply list_elem_of_In, List.filter_In in Hin as [_ ?%negb_true_iff]. Qed.

Lemma in_calls e trace : e ∈ trace -> beside e = false -> e ∈ calls trace.
Proof. intros Hin He. apply list_elem_of_In, List.filter_In. split; [by apply list_elem_of_In|]. by rewrite He. Qed.

Lemma Forall_calls (P : Event -> Prop) trace : (forall e, beside e = true -> P e) -> Forall P (calls trace) -> Forall P trace.
Proof.
  intros HP Hc. rewrite Forall_forall in Hc |- *. intros e Hin. destruct (beside e) eqn:Hb; [auto|]. by apply Hc, in_calls.
Qed.

Lemma calls_nil trace : calls trace = [] -> Forall (fun e => beside e = true) trace.
Proof. induction trace as [|e trace IH]; [constructor|]. unfold calls. simpl. destruct (beside e) eqn:He; [|done]. constructor; auto. Qed.

(** A call splits the trace it is in. *)
Lemma calls_split trace e cs : calls trace = e :: cs ->
  exists before after, trace = before ++ e :: after /\ calls before = [] /\ calls after = cs.
Proof.
  induction trace as [|x trace IH]; [done|]. unfold calls. simpl. destruct (beside x) eqn:Hx; simpl.
  - intros (before & after & -> & Hb & Ha)%IH. exists (x :: before), after. split_and!; [done| |done]. unfold calls. simpl. by rewrite Hx.
  - intros [= <- <-]. by exists [], trace.
Qed.

(** What a run that did not get to [Issue] cannot contain. *)
Definition early (e : Event) : bool :=
  match e with
  | EvIssue _ _ | EvEnter _ _ | EvExecute _ _ | EvReturned _ | EvComplete _ _ | EvRequestRevocation _ _ | EvFinalize _ _ => false
  | _ => true
  end.

Lemma readings_early trace : readings trace -> Forall (fun e => early e = true) trace.
Proof. intros Hr. eapply Forall_impl; [exact Hr|]. intros e He. by destruct e. Qed.

Lemma withdrawn_early trace : withdrawn trace -> Forall (fun e => early e = true /\ (if e is EvPrepare _ _ then false else true) = true) trace.
Proof.
  assert (Hr : forall trace, readings trace -> Forall (fun e => early e = true /\ (if e is EvPrepare _ _ then false else true) = true) trace).
  { intros tr Hr. eapply Forall_impl; [exact Hr|]. intros e He. by destruct e. }
  intros [?|(before & e & -> & Hb & He)]; [auto|]. apply Forall_app. split; [auto|]. constructor; [by destruct e|constructor].
Qed.

Lemma filter_none (P : Event -> bool) trace : List.filter P trace = [] -> Forall (fun e => P e = false) trace.
Proof. induction trace as [|e trace IH]; [constructor|]. simpl. destruct (P e) eqn:He; [done|]. intros Hl. constructor; auto. Qed.

Lemma early_calls trace : List.filter executing trace = [] -> Forall (fun e => early e = true) (calls trace) ->
  Forall (fun e => early e = true) trace.
Proof.
  intros Hno%filter_none Hc. rewrite Forall_forall in Hno, Hc. apply Forall_forall. intros e Hin. specialize (Hno e Hin).
  destruct (beside e) eqn:Hb; [by destruct e|]. by apply Hc, in_calls.
Qed.

(** A run that got to [Issue], and its parts. *)
Record Late {W} (env : Environment W) (Transform : string -> Result string) (ed25519_Verify : string -> string -> string -> bool)
    (service : Service) (trace : list Event) (o : RunOutcome) (admission : Admission)
    (before running : list Event) (prepared : PreparedDurableCredential) (started : Execution) (issue : Result DurableCredential)
    (executed : list Event) (summary : ExecutorResult) (complete : Result Execution) (closing rest : list Event) : Prop := {
  lt_trace : trace = before ++ running ++ EvComplete (completeRequest admission summary) complete :: closing ++ rest;
  lt_readings : readings before;
  lt_claimed : Claimed Transform ed25519_Verify service before (adm_scope admission) (adm_claimed admission);
  lt_cleared : Cleared env before admission;
  lt_running : calls running =
    [EvPrepare (prepareRequest admission) (Ok prepared); EvStart (leaseFence admission) (Ok started);
     EvIssue prepared issue] ++ executed;
  lt_executed : Executed admission issue running executed summary;
  lt_valid : validExecutorResult summary = true;
  lt_closing : calls closing = [];
  lt_finished : Finished admission (issuedBy issue) summary complete (calls rest) o;
  lt_rest : Forall (fun e => beat e = false) rest;
  lt_gated : gated (adm_scope admission) (leaseFence admission) trace;
  lt_once : executesOnce trace
}.

(** A run with a late call is one that was admitted and got to [Issue]. *)
Lemma late_run {W} (env : Environment W) Transform ed25519_Verify service trace o e :
  Protocol env Transform ed25519_Verify service trace o -> e ∈ trace -> early e = false ->
  exists admission before running prepared started issue executed summary complete closing rest,
    Late env Transform ed25519_Verify service trace o admission before running prepared started issue executed summary
      complete closing rest.
Proof.
  assert (Hno : forall trace, Forall (fun e => early e = true) trace -> e ∈ trace -> early e = false -> False).
  { intros tr Hall Hin He. rewrite Forall_forall in Hall. specialize (Hall e Hin). congruence. }
  intros [tr oo Hw _|admission before after oo Hr Hcl Had Hend Hnum Hgate Honce] Hin He.
  { exfalso. eapply Hno; [|exact Hin|done]. eapply Forall_impl; [by apply withdrawn_early|]. by intros ? []. }
  destruct Hend as [tr oo Hun Hx _|running prepared started issue executed summary complete closing rest oo Hcalls Hex Hv Hclo Hfin Hb].
  - exfalso. eapply Hno; [|exact Hin|done]. apply Forall_app. split; [by apply readings_early|]. apply early_calls; [done|].
    destruct Hun; by repeat constructor.
  - by exists admission, before, running, prepared, started, issue, executed, summary, complete, closing, rest.
Qed.

(** One event that passes a filter is the only one. *)
Lemma filter_one (P : Event -> bool) before x after y :
  List.filter P (before ++ x :: after) = [y] -> P x = true ->
  y = x /\ Forall (fun e => P e = false) before /\ Forall (fun e => P e = false) after.
Proof.
  rewrite List.filter_app. simpl. intros E Hx. rewrite Hx in E.
  destruct (List.filter P before) as [|z l] eqn:Hb; simplify_list_eq; [auto using filter_none|]. by destruct l.
Qed.

Lemma executed_one admission issue running executed summary : Executed admission issue running executed summary ->
  executed = [] \/ exists x, executed = [x] /\ is_enter x = true.
Proof. intros []; eauto. Qed.

(** The calls before the goroutine of the executor is entered. *)
Lemma enter_split {W} (env : Environment W) Transform ed25519_Verify service o admission
    before0 running prepared started issue executed summary complete closing rest before dispatch value after :
  Late env Transform ed25519_Verify service (before ++ EvEnter dispatch value :: after) o admission before0 running prepared started
    issue executed summary complete closing rest ->
  executed = [EvEnter dispatch value] /\
  calls before = calls before0 ++
    [EvPrepare (prepareRequest admission) (Ok prepared); EvStart (leaseFence admission) (Ok started);
     EvIssue prepared issue] /\
  Forall (fun e => is_enter e = false) (before ++ after).
Proof.
  intros [E Hr _ _ Hcalls Hex _ Hclo Hfin _ _ _]. set (trace := before ++ _) in *.
  assert (Ecalls : calls trace = calls before0 ++ calls running ++
    EvComplete (completeRequest admission summary) complete :: calls rest).
  { rewrite E, !calls_app. unfold calls at 3. simpl. fold (calls (closing ++ rest)). by rewrite calls_app, Hclo. }
  assert (Hfilter : List.filter is_enter trace = executed).
  { rewrite <- enters_calls, Ecalls, Hcalls, !List.filter_app. simpl. rewrite enters_calls, (executed_enters _ _ _ _ _ Hex).
    rewrite (no_enters before0), (no_enters (calls rest)), app_nil_r; [done| |].
    - exact (Finished_rest _ _ _ _ _ _ Hfin).
    - eapply Forall_impl; [exact Hr|]. intros e He. by destruct e. }
  assert (Hone : executed = [EvEnter dispatch value]).
  { apply executed_one in Hex as [->|(x & -> & _)].
    - unfold trace in Hfilter. rewrite List.filter_app in Hfilter. by destruct (List.filter is_enter before).
    - by destruct (filter_one _ _ _ _ _ Hfilter eq_refl) as [-> _]. }
  rewrite Hone in *. destruct (filter_one is_enter before (EvEnter dispatch value) after _ Hfilter eq_refl) as (_ & Hb & Ha).
  split_and!; [done| |by apply Forall_app].
  assert (Et : calls trace = calls before ++ EvEnter dispatch value :: calls after) by (unfold trace; by rewrite calls_app).
  rewrite <- enters_calls, Et in Hfilter. rewrite Et, Hcalls, <- app_assoc, (app_assoc (calls before0)) in Ecalls. cbn [app] in Ecalls.
  eapply enter_unique; [exact Ecalls|done|done|]. by rewrite Hfilter.
Qed.

(** *** The goroutine of the executor *)

Definition is_execute (e : Event) : bool := if e is EvExecute _ _ then true else false.

Lemma in_executing e trace : e ∈ trace -> executing e = true -> e ∈ List.filter executing trace.
Proof. intros Hin He. apply list_elem_of_In, List.filter_In. split; [by apply list_elem_of_In|done]. Qed.

Lemma executing_in e trace : e ∈ List.filter executing trace -> e ∈ trace.
Proof. intros Hin. by apply list_elem_of_In, List.filter_In in Hin as [?%list_elem_of_In _]. Qed.

Lemma executesOnce_shape before after : executesOnce (before ++ after) ->
  exists state, ExecutorTrace state (List.filter executing before ++ List.filter executing after).
Proof. intros [state Hx]. exists state. by rewrite <- List.filter_app. Qed.

(** The executor is called once, after its goroutine was entered with this command. *)
Lemma execute_split before command value after : executesOnce (before ++ EvExecute command value :: after) ->
  exists entered between, before = entered ++ EvEnter (DispatchCommand command) value :: between /\
    Forall (fun e => is_execute e = false) (before ++ after).
Proof.
  intros [state Hx]%executesOnce_shape. simpl in Hx. set (b := List.filter executing before) in *.
  assert (Hb : b = [EvEnter (DispatchCommand command) value] /\
    forall e, e ∈ List.filter executing after -> is_execute e = false).
  { clearbody b. destruct b as [|x b]; [inversion Hx|]. destruct b as [|y b]; simpl in Hx.
    - inversion Hx; subst; (split; [done|intros e He; set_solver]).
    - inversion Hx; subst; destruct b as [|? b]; simplify_eq/=; by destruct b. }
  destruct Hb as [Hb Ha]. assert (Hin : EvEnter (DispatchCommand command) value ∈ before).
  { apply executing_in. fold b. rewrite Hb. by left. }
  apply list_elem_of_split in Hin as (entered & between & E). exists entered, between. split; [done|].
  apply Forall_forall. intros e He. destruct (is_execute e) eqn:Hex; [exfalso|done].
  assert (Hexe : executing e = true) by by destruct e.
  apply elem_of_app in He as [He|He]; apply in_executing in He; try done.
  - fold b in He. rewrite Hb in He. apply list_elem_of_singleton in He as ->. done.
  - apply Ha in He. congruence.
Qed.

(** Nothing of the executor follows its return. *)
Lemma returned_last before after result : executesOnce (before ++ after) -> EvReturned result ∈ before ->
  Forall (fun e => executing e = false) after.
Proof.
  intros [state Hx]%executesOnce_shape Hin. apply in_executing in Hin; [|done]. apply filter_none.
  revert Hx Hin. generalize (List.filter executing before) as b. generalize (List.filter executing after) as a.
  intros a b Hx Hin. destruct b as [|x [|y [|z b]]]; simpl in Hx; inversion Hx; subst; try set_solver.
  by destruct b.
Qed.


Section runs.
Context {W : Type} (env : Environment W) (Transform : string -> Result string)
  (ed25519_Verify : string -> string -> string -> bool) (service : Service) (oracle : W) (caller : option GoError).
Let run := RunNext env Transform ed25519_Verify service (World_start oracle caller).

Lemma run_protocol : Protocol env Transform ed25519_Verify service (w_events run.2) run.1.
Proof. exact (RunNext_protocol env Transform ed25519_Verify service oracle caller). Qed.
End runs.

(** C6. When the executor is called, everything that authorises it was checked before its
    goroutine was entered: the claim is bound to the runner and to its envelope, the envelope
    is verified, both policy decisions allow it on one snapshot, the safety gate is open for
    exactly this action, the environment has not drifted, the credential was prepared for the
    lease, issued and is valid for the envelope, the lease was started, and every heartbeat
    until then was accepted.  The command and the credential are those it was entered with,
    the command is the envelope's, and there is no second entry and no second call. *)
Theorem executor_runs_authorized {W} (env : Environment W) Transform ed25519_Verify service oracle caller
    before command value after :
  w_events (RunNext env Transform ed25519_Verify service (World_start oracle caller)).2 =
    before ++ EvExecute command value :: after ->
  exists admission prepared started entered between,
    before = entered ++ EvEnter (DispatchCommand command) value :: between /\
    Claimed Transform ed25519_Verify service entered (adm_scope admission) (adm_claimed admission) /\
    Cleared env entered admission /\
    EvPrepare (prepareRequest admission) (Ok prepared) ∈ entered /\
    EvStart (leaseFence admission) (Ok started) ∈ entered /\
    EvIssue prepared (Ok value) ∈ entered /\
    (exists secret issuedAt,
       validDurableCredential value secret (claimed_Envelope (adm_claimed admission))
         (dec_CredentialExpiresAt (adm_credentialDecision admission)) issuedAt = true) /\
    executorCommand (claimed_Envelope (adm_claimed admission)) = DispatchCommand command /\
    Forall (fun e => good (adm_scope admission) (leaseFence admission) e = true) entered /\
    Forall (fun e => is_enter e = false) (entered ++ between ++ after) /\
    Forall (fun e => is_execute e = false) (before ++ after).
Proof.
  intros E. pose proof (run_protocol env Transform ed25519_Verify service oracle caller) as HP. rewrite E in HP.
  eapply late_run in HP; [|apply elem_of_app; right; apply elem_of_cons; by left|done].
  destruct HP as (admission & before0 & running & prepared & started & issue & executed & summary & complete & closing & rest & HL).
  destruct (execute_split _ _ _ _ (lt_once _ _ _ _ _ _ _ _ _ _ _ _ _ _ _ _ _ HL)) as (entered & between & Eb & Honce).
  rewrite Eb, <- app_assoc in HL. cbn [app] in HL.
  destruct (enter_split _ _ _ _ _ _ _ _ _ _ _ _ _ _ _ _ _ _ _ _ HL) as (-> & Hbefore & Hnone).
  destruct HL as [Et Hr Hcl Had Hcalls Hex _ _ _ _ Hgate _].
  assert (Hpre : forall e, e ∈ before0 -> e ∈ entered).
  { destruct (prefix_before _ _ _ _ _ (eq_sym Et)) as [k ->]; [|intros; apply elem_of_app; by left].
    apply (not_elem_filtered is_enter); [|done]. eapply Forall_impl; [exact Hr|]. intros e He. by destruct e. }
  assert (Hin : forall e, e ∈ [EvPrepare (prepareRequest admission) (Ok prepared);
      EvStart (leaseFence admission) (Ok started); EvIssue prepared issue] -> e ∈ entered).
  { intros e He. apply calls_in. rewrite Hbefore. apply elem_of_app. by right. }
  inversion Hex as [|value' secret issuedAt summary' Hissue Hvalid _ Ed]; subst value' summary' issue.
  exists admission, prepared, started, entered, between. split_and!; try done; try (apply Hin; set_solver).
  - by rewrite Ed.
  - exact (Claimed_mono _ _ _ _ _ _ _ Hpre Hcl).
  - exact (Cleared_mono _ _ _ _ Hpre Had).
  - eauto.
  - by eapply Hgate.
  - rewrite !Forall_app in Hnone |- *. rewrite Forall_cons in Hnone. naive_solver.
Qed.

Lemma executor_runs_authorized_witness : exists before after,
  w_events ServiceDemo.run.2 = before ++ EvExecute ServiceDemo.command ServiceDemo.credential :: after /\
  exists admission entered, entered `prefix_of` before /\ Cleared ServiceDemo.env entered admission.
Proof.
  pose proof (eq_sym (take_drop_middle _ _ _ ServiceDemo.executes)) as E.
  exists (take 24 (w_events ServiceDemo.run.2)), (drop 25 (w_events ServiceDemo.run.2)). split; [exact E|].
  rewrite <- ServiceDemo.run_eq in E at 1.
  destruct (executor_runs_authorized ServiceDemo.env demo_Transform demo_Verify ServiceDemo.service tt None
    _ ServiceDemo.command ServiceDemo.credential _ E) as (admission & _ & _ & entered & between & Eb & _ & Had & _).
  exists admission, entered. split; [|exact Had]. rewrite Eb. apply prefix_app_r. reflexivity.
Defined.

(** The calls after the readings. *)
Lemma in_after e before after : e ∈ before ++ after -> readings before -> reading e = false -> beside e = false ->
  e ∈ calls after.
Proof.
  intros [He|He]%elem_of_app Hr Hn Hb; [|by apply in_calls].
  unfold readings in Hr. rewrite Forall_forall in Hr. specialize (Hr e He). congruence.
Qed.

Lemma calls_cons e trace : beside e = false -> calls (e :: trace) = e :: calls trace.
Proof. intros He. unfold calls. simpl. by rewrite He. Qed.

Lemma in_active e before running c closing rest : e ∈ before ++ running ++ c :: closing ++ rest ->
  readings before -> reading e = false -> beside e = false -> beside c = false -> calls closing = [] ->
  e ∈ calls running \/ e = c \/ e ∈ calls rest.
Proof.
  intros He Hr Hn Hb Hc Hclo. apply in_after in He; [|done..]. rewrite calls_app, calls_cons, calls_app, Hclo in He by done.
  set_solver.
Qed.

Lemma Finished_revoked admission issued summary complete rest o : Finished admission issued summary complete rest o ->
  exists answer revoked tail, Revoked issued answer revoked /\ rest = revoked ++ tail /\
    (tail = [] \/ exists final, tail = [EvFinalize (leaseFence admission) final] /\ cleared summary answer).
Proof.
  intros [e answer revoked o' Hrev _|finalizing answer revoked o' Hrev _ _|finalizing answer revoked final o' Hrev Hc _].
  1,2: exists answer, revoked, []; rewrite app_nil_r; auto.
  exists answer, revoked, [EvFinalize (leaseFence admission) final]. split_and!; eauto.
Qed.

Lemma Finished_finalized admission issued summary complete rest o fence final :
  Finished admission issued summary complete rest o -> EvFinalize fence final ∈ rest ->
  exists finalizing answer revoked, complete = Ok finalizing /\ rest = revoked ++ [EvFinalize fence final] /\
    fence = leaseFence admission /\ Revoked issued answer revoked /\ cleared summary answer /\
    (o.2 = None -> final = Ok o.1).
Proof.
  intros [e answer revoked o' Hrev _|finalizing answer revoked o' Hrev _ _|finalizing answer revoked final' o' Hrev Hc Ho] Hin.
  1,2: by destruct Hrev; set_solver.
  assert (EvFinalize fence final = EvFinalize (leaseFence admission) final') as E by (destruct Hrev; set_solver).
  injection E as -> ->. exists finalizing, answer, revoked. split_and!; try done. intros Hn. by apply Ho.
Qed.

(** [Finalize] ends the calls: what follows is not a heartbeat either. *)
Lemma finalize_split rest revoked e : calls rest = revoked ++ [e] -> Forall (fun e => beat e = false) rest ->
  exists before after, rest = before ++ e :: after /\ calls before = revoked /\ Forall (fun e => ofExecutor e = true) after.
Proof.
  revert rest. induction revoked as [|x revoked IH]; intros rest Hc Hb.
  - apply calls_split in Hc as (before & after & -> & Hbefore & Hafter%calls_nil). exists before, after. split_and!; [done..|].
    apply Forall_app in Hb as [_ Hb]. inversion_clear Hb as [|? ? _ Hb'].
    rewrite Forall_forall in Hb', Hafter |- *. intros y Hy. specialize (Hb' y Hy). specialize (Hafter y Hy).
    unfold beside in Hafter. by rewrite Hb' in Hafter.
  - assert (Hx : beside x = false) by (apply (calls_own x rest); rewrite Hc; by left).
    apply calls_split in Hc as (before & after & -> & Hbefore & Hafter). apply Forall_app in Hb as [Hb1 Hb2].
    inversion_clear Hb2 as [|? ? _ Hb]. destruct (IH after Hafter Hb) as (before' & after' & -> & <- & Ha).
    exists (before ++ x :: before'), after'. split_and!; [by rewrite <- app_assoc| |done].
    by rewrite calls_app, Hbefore, calls_cons.
Qed.

(** The parts of a run in which a credential was issued. *)
Lemma issued_run {W} (env : Environment W) Transform ed25519_Verify service o admission
    trace before0 running prepared' started issue executed summary complete closing rest prepared value :
  Late env Transform ed25519_Verify service trace o admission before0 running prepared' started
    issue executed summary complete closing rest ->
  EvIssue prepared (Ok value) ∈ trace -> prepared' = prepared /\ issue = Ok value.
Proof.
  intros [-> Hr _ _ Hcalls Hex _ Hclo Hfin _ _ _] Hin.
  destruct (Finished_revoked _ _ _ _ _ _ Hfin) as (answer & revoked & tail & Hrev & Er & Htail).
  apply in_active in Hin as [Hin|[Hin|Hin]]; [|done| |done..].
  - rewrite Hcalls in Hin. destruct Hex; set_solver.
  - rewrite Er in Hin. destruct Hrev, Htail as [->|(final & -> & _)]; set_solver.
Qed.

(** C9. Every issued credential is handed back: its revocation is requested exactly once,
    and for no other credential; the request follows [Complete], the goroutine of the executor
    is not entered after it, and no heartbeat is sent after it.  Unless the completed outcome
    is uncertain, the executor has returned by then, so that nothing of it follows either. *)
Theorem issued_credential_is_revoked {W} (env : Environment W) Transform ed25519_Verify service oracle caller
    prepared value :
  let trace := w_events (RunNext env Transform ed25519_Verify service (World_start oracle caller)).2 in
  EvIssue prepared (Ok value) ∈ trace ->
  exists before answer after request complete,
    trace = before ++ EvRequestRevocation value answer :: after /\
    EvIssue prepared (Ok value) ∈ before /\ EvComplete request complete ∈ before /\
    Forall (fun e => is_enter e = false /\ beat e = false) after /\
    (forall value' answer', EvRequestRevocation value' answer' ∉ before ++ after) /\
    (result_Outcome (acomplete_Summary request) = ExecutorUncertain \/
     (exists result, EvReturned (Ok result) ∈ before) /\ Forall (fun e => executing e = false) after).
Proof.
  intros trace Hin. pose proof (run_protocol env Transform ed25519_Verify service oracle caller) as HP. fold trace in HP.
  eapply late_run in HP; [|exact Hin|done].
  destruct HP as (admission & before0 & running & prepared' & started & issue & executed & summary & complete & closing & rest & HL).
  destruct (issued_run _ _ _ _ _ _ _ _ _ _ _ _ _ _ _ _ _ _ _ HL Hin) as [-> ->].
  destruct HL as [Et Hr _ _ Hcalls Hex _ Hclo Hfin Hrest _ Honce]. clearbody trace. subst trace.
  destruct (Finished_revoked _ _ _ _ _ _ Hfin) as (answer & revoked & tail & Hrev & Er & Htail).
  inversion Hrev as [|value' answer' Ev Ea El]; subst value' answer revoked. simpl in Er.
  apply calls_split in Er as (r1 & r2 & -> & Hr1 & Hr2). set (c := EvComplete _ _) in *.
  exists (before0 ++ running ++ c :: closing ++ r1), answer', r2, (completeRequest admission summary), complete.
  assert (Et : before0 ++ running ++ c :: closing ++ r1 ++ EvRequestRevocation value answer' :: r2 =
    (before0 ++ running ++ c :: closing ++ r1) ++ EvRequestRevocation value answer' :: r2)
    by (rewrite <- !app_assoc; cbn [app]; by rewrite <- !app_assoc).
  split_and!; [exact Et| |set_solver| | |].
  - apply elem_of_app. right. apply elem_of_app. left. apply calls_in. rewrite Hcalls. set_solver.
  - apply Forall_app in Hrest as [_ Hrest]. inversion_clear Hrest as [|? ? _ Hb]. apply Forall_and. split; [|done].
    apply Forall_calls; [by intros []|]. rewrite Hr2. destruct Htail as [->|(final & -> & _)]; by repeat constructor.
  - intros value' answer'' Hbad.
    assert (Hbad' : EvRequestRevocation value' answer'' ∈ before0 ++ running ++ c :: closing ++ (r1 ++ r2)) by set_solver.
    apply in_active in Hbad' as [Hbad'|[?|Hbad']]; [|done| |done..].
    + rewrite Hcalls in Hbad'. destruct Hex; set_solver.
    + rewrite calls_app, Hr1, Hr2 in Hbad'. destruct Htail as [->|(final & -> & _)]; set_solver.
  - inversion Hex as [? Hu|? ? ? ? _ _ Hres]; subst; [by left|]. destruct Hres as [?|(result & Hret & _)]; [by left|right].
    assert (Hret' : EvReturned (Ok result) ∈ before0 ++ running ++ c :: closing ++ r1) by set_solver.
    split; [by exists result|]. rewrite Et in Honce. pose proof (returned_last _ _ _ Honce Hret') as Hlast. by inversion Hlast.
Qed.

Lemma issued_credential_is_revoked_witness : exists before answer after,
  w_events ServiceDemo.run.2 = before ++ EvRequestRevocation ServiceDemo.credential answer :: after.
Proof.
  pose proof (list_elem_of_lookup_2 _ _ _ ServiceDemo.issues) as Hin. rewrite <- ServiceDemo.run_eq in Hin |- *.
  destruct (issued_credential_is_revoked ServiceDemo.env demo_Transform demo_Verify ServiceDemo.service tt None
    ServiceDemo.prepared ServiceDemo.credential Hin)
    as (before & answer & after & _ & _ & E & _).
  exists before, answer, after. exact E.
Defined.

(** A prepared action keeps its lease: after [Prepare] was called, whatever it
    answered, the claim is neither rejected nor given back, and a credential that was prepared is
    either issued or recorded as never issued, and not both. *)
Theorem prepared_action_is_not_released {W} (env : Environment W) Transform ed25519_Verify service oracle caller
    request answer :
  let trace := w_events (RunNext env Transform ed25519_Verify service (World_start oracle caller)).2 in
  EvPrepare request answer ∈ trace ->
  Forall (fun e => release e = false) trace /\
  forall prepared, answer = Ok prepared ->
    ((exists issue, EvIssue prepared issue ∈ trace) /\ (forall prepared' a, EvNoCredential prepared' a ∉ trace)) \/
    ((exists a, EvNoCredential prepared a ∈ trace) /\ (forall prepared' issue, EvIssue prepared' issue ∉ trace)).
Proof.
  intros trace Hin. pose proof (run_protocol env Transform ed25519_Verify service oracle caller) as HP. fold trace in HP.
  clearbody trace. destruct HP as [tr oo Hw _|admission before after oo Hr _ _ Hend _ _ _].
  { apply withdrawn_early in Hw. rewrite Forall_forall in Hw. by destruct (Hw _ Hin). }
  assert (Hreadings : Forall (fun e => release e = false) before).
  { eapply Forall_impl; [exact Hr|]. intros e He. by destruct e. }
  destruct Hend as [tr oo Hun _ _|running prepared started issue executed summary complete closing rest oo Hcalls Hex _ Hclo Hfin _].
  - split; [apply Forall_app; split; [done|]; apply Forall_calls; [by intros []|]; by destruct Hun; repeat constructor|].
    intros prepared ->. right. apply in_after in Hin; [|done..]. inversion Hun as [e Eq|prepared' start a Eq]; rewrite <- Eq in Hin.
    { set_solver. }
    assert (prepared' = prepared) as -> by set_solver. split.
    + exists a. apply elem_of_app. right. apply calls_in. rewrite <- Eq. set_solver.
    + intros ? ? Hbad. apply in_after in Hbad; [|done..]. rewrite <- Eq in Hbad. set_solver.
  - set (c := EvComplete _ _) in *.
    assert (Hall : Forall (fun e => release e = false /\ forall p a, e <> EvNoCredential p a)
        (calls (running ++ c :: closing ++ rest))).
    { destruct (Finished_revoked _ _ _ _ _ _ Hfin) as (answer' & revoked & tail & Hrev & Er & Htail).
      rewrite calls_app, calls_cons, calls_app, Hclo, Hcalls, Er by done.
      destruct Hex, Hrev, Htail as [->|(final & -> & _)]; by repeat constructor. }
    split.
    + apply Forall_app. split; [done|]. apply Forall_calls; [by intros []|]. eapply Forall_impl; [exact Hall|]. by intros ? [].
    + intros prepared0 ->. left. assert (prepared0 = prepared) as ->.
      { destruct (Finished_revoked _ _ _ _ _ _ Hfin) as (answer' & revoked & tail & Hrev & Er & Htail).
        apply in_active in Hin as [Hin|[Hin|Hin]]; [|done| |done..].
        - rewrite Hcalls in Hin. destruct Hex; set_solver.
        - rewrite Er in Hin. destruct Hrev, Htail as [->|(final & -> & _)]; set_solver. }
      split; [exists issue; apply elem_of_app; right; apply elem_of_app; left; apply calls_in; rewrite Hcalls; set_solver|].
      intros p a Hbad. apply in_after in Hbad; [|done..]. rewrite Forall_forall in Hall.
      destruct (Hall _ Hbad) as [_ Hno]. exact (Hno p a eq_refl).
Qed.

Lemma prepared_action_is_not_released_witness : Forall (fun e => release e = false) (w_events ServiceDemo.run.2).
Proof.
  pose proof (list_elem_of_lookup_2 _ _ _ ServiceDemo.prepares) as Hin. rewrite <- ServiceDemo.run_eq in Hin |- *.
  exact (proj1 (prepared_action_is_not_released ServiceDemo.env demo_Transform demo_Verify ServiceDemo.service tt None
    (prepareRequest ServiceDemo.admission) (Ok ServiceDemo.prepared) Hin)).
Defined.

(** Heartbeats are numbered without gaps: there are none before a claim, and then each
    carries the lease of the claim and one more than the number of accepted heartbeats before it,
    whichever thread sends it. *)
Theorem heartbeats_are_consecutive {W} (env : Environment W) Transform ed25519_Verify service oracle caller :
  let trace := w_events (RunNext env Transform ed25519_Verify service (World_start oracle caller)).2 in
  Forall (fun e => forall request answer, e <> EvHeartbeat request answer) trace \/
  exists scope claimed,
    EvClaim {| aclaim_Scope := scope; aclaim_LeaseDuration := svc_leaseDuration service |} (Ok claimed) ∈ trace /\
    numbered scope (Execution_Fence (claimed_Execution claimed)) trace.
Proof.
  intros trace. pose proof (run_protocol env Transform ed25519_Verify service oracle caller) as HP. fold trace in HP.
  clearbody trace. destruct HP as [tr oo Hw _|admission before after oo Hr Hcl _ _ Hnum _ _].
  - left. assert (Hreadings : forall tr, readings tr -> Forall (fun e => forall request answer, e <> EvHeartbeat request answer) tr).
    { intros l Hl. eapply Forall_impl; [exact Hl|]. by intros e He ? ? ->. }
    destruct Hw as [?|(before & e & -> & Hb & He)]; [auto|]. apply Forall_app. split; [auto|]. constructor; [|constructor].
    by intros ? ? ->.
  - right. exists (adm_scope admission), (adm_claimed admission). split; [|done]. apply elem_of_app. left. apply Hcl.
Qed.

(** A result is finalized only after it was completed and, when a credential was issued,
    after its revocation was requested: for a definite result the credential must be known to be
    gone, and an uncertain one only needs the request to be persisted.  It is the last call:
    only an executor that was abandoned may still do something. *)
Theorem finalize_waits_for_cleanup {W} (env : Environment W) Transform ed25519_Verify service oracle caller
    fence final :
  let trace := w_events (RunNext env Transform ed25519_Verify service (World_start oracle caller)).2 in
  EvFinalize fence final ∈ trace ->
  exists before request finalizing after,
    trace = before ++ EvFinalize fence final :: after /\ Forall (fun e => ofExecutor e = true) after /\
    EvComplete request (Ok finalizing) ∈ before /\ acomplete_Lease request = fence /\
    validExecutorResult (acomplete_Summary request) = true /\
    forall prepared value, EvIssue prepared (Ok value) ∈ before ->
      exists revocation, EvRequestRevocation value (Ok revocation) ∈ before /\
        (Revocation_Terminal revocation = true \/ ResultSummaryStatus (acomplete_Summary request) = Ok StatusUncertain).
Proof.
  intros trace Hin. pose proof (run_protocol env Transform ed25519_Verify service oracle caller) as HP. fold trace in HP.
  eapply late_run in HP; [|exact Hin|done].
  destruct HP as (admission & before0 & running & prepared & started & issue & executed & summary & complete & closing & rest & HL).
  assert (Hissued : forall prepared' value, EvIssue prepared' (Ok value) ∈ trace -> issue = Ok value).
  { intros prepared' value Hissue. by destruct (issued_run _ _ _ _ _ _ _ _ _ _ _ _ _ _ _ _ _ _ _ HL Hissue). }
  destruct HL as [Et Hr _ _ Hcalls Hex Hv Hclo Hfin Hrest _ _]. clearbody trace. subst trace. set (c := EvComplete _ _) in *.
  apply in_active in Hin as [Hin|[Hin|Hin]]; [|done| |done..]; [rewrite Hcalls in Hin; destruct Hex; set_solver|].
  destruct (Finished_finalized _ _ _ _ _ _ _ _ Hfin Hin) as (finalizing & answer & revoked & -> & Er & -> & Hrev & Hclear & _).
  apply finalize_split in Er as (r1 & r2 & -> & Hr1 & Hr2); [|done].
  assert (Et : before0 ++ running ++ c :: closing ++ r1 ++ EvFinalize (leaseFence admission) final :: r2 =
    (before0 ++ running ++ c :: closing ++ r1) ++ EvFinalize (leaseFence admission) final :: r2)
    by (rewrite <- !app_assoc; cbn [app]; by rewrite <- !app_assoc).
  exists (before0 ++ running ++ c :: closing ++ r1), (completeRequest admission summary), finalizing, r2.
  split_and!; [exact Et|done|set_solver|done..|]. intros prepared' value Hissue.
  assert (issue = Ok value) as -> by (apply (Hissued prepared'); rewrite Et; set_solver).
  inversion Hrev as [|value' answer' Ev Ea El]; subst. destruct Hclear as [Hc|(revocation & Hc & Hok)]; [by destruct answer'|].
  destruct answer' as [revocation'|]; simplify_eq. exists revocation. split; [|done].
  assert (EvRequestRevocation value (Ok revocation) ∈ r1) by (apply calls_in; rewrite <- El; set_solver). set_solver.
Qed.

Lemma finalize_waits_for_cleanup_witness : exists before after,
  w_events ServiceDemo.run.2 = before ++ EvFinalize (leaseFence ServiceDemo.admission) (Ok ServiceDemo.succeeded) :: after.
Proof.
  pose proof (list_elem_of_lookup_2 _ _ _ ServiceDemo.finalizes) as Hin. rewrite <- ServiceDemo.run_eq in Hin |- *.
  destruct (finalize_waits_for_cleanup ServiceDemo.env demo_Transform demo_Verify ServiceDemo.service tt None
    (leaseFence ServiceDemo.admission) (Ok ServiceDemo.succeeded) Hin)
    as (before & request & finalizing & after & E & _).
  exists before, after. exact E.
Defined.

(** [RunNext] reports success only for an action the queue finalized with a definite
    result: [Finalize] is the last call and answered the execution that is returned, which is
    neither failed nor uncertain; only an executor that was abandoned may still do
    something. *)
Theorem success_is_finalized {W} (env : Environment W) Transform ed25519_Verify service oracle caller execution w :
  RunNext env Transform ed25519_Verify service (World_start oracle caller) = ((execution, None), w) ->
  exists before fence after, w_events w = before ++ EvFinalize fence (Ok execution) :: after /\
    Forall (fun e => ofExecutor e = true) after /\
    ex_Status execution <> StatusFailed /\ ex_Status execution <> StatusUncertain.
Proof.
  intros E. pose proof (run_protocol env Transform ed25519_Verify service oracle caller) as HP. rewrite E in HP.
  inversion HP as [tr oo _ Ho|admission before after oo _ _ _ Hend _ _ _]; subst; [done|].
  inversion Hend as [tr oo _ _ Ho|running prepared started issue executed summary complete closing rest oo _ _ _ _ Hfin Hrest]; subst; [done|].
  inversion Hfin as [? ? ? ? _ Ho|? ? ? ? _ _ Ho|finalizing answer revoked final oo _ _ Hok Ec Er]; subst; [done|done|].
  destruct (Hok eq_refl) as (-> & Hf & Hu). symmetry in Er. apply finalize_split in Er as (r1 & r2 & -> & _ & Hr2); [|done].
  eexists _, (leaseFence admission), r2. split_and!; [|done..]. simpl.
  by rewrite !(app_assoc _ _ (_ :: r2)), app_comm_cons, !(app_assoc _ _ (_ :: r2)).
Qed.

Lemma success_is_finalized_witness : exists before fence after,
  w_events ServiceDemo.run.2 = before ++ EvFinalize fence (Ok ServiceDemo.succeeded) :: after.
Proof.
  assert (E : RunNext ServiceDemo.env demo_Transform demo_Verify ServiceDemo.service (World_start tt None) =
              ((ServiceDemo.succeeded, None), ServiceDemo.run.2)).
  { rewrite ServiceDemo.run_eq, <- ServiceDemo.succeeds. exact (surjective_pairing ServiceDemo.run). }
  destruct (success_is_finalized ServiceDemo.env demo_Transform demo_Verify ServiceDemo.service tt None
    ServiceDemo.succeeded ServiceDemo.run.2 E) as (before & fence & after & Et & _).
  exists before, fence, after. exact Et.
Defined.

(** ** The policy engine and the service *)

(** The revisions of a decision that allows are there. *)
Lemma checks_revisions Transform ed25519_Verify engine now stage envelope global scoped target risk limits :
  checks Transform ed25519_Verify engine now stage envelope global scoped target risk limits ->
  (gl_Revision global +:+ "/" +:+ sw_Revision scoped != ""%string) = true /\ (tg_Revision target != ""%string) = true /\
  (rk_Revision risk != ""%string) = true /\ (lm_Revision limits != ""%string) = true.
Proof.
  intros K. destruct K as [_ _ _ _ _ [_ Hrisk] [_ Hlimits] _ (Hg & Hs & Ht) _].
  unfold riskMatches in Hrisk. unfold limitsMatch in Hlimits. guards.
  split_and!; apply negb_true_iff, eqb_false; try done. by destruct (gl_Revision global).
Qed.

(** Two evaluations by one engine look at the same snapshots. *)
Lemma checks_same Transform ed25519_Verify engine t1 t2 stage1 stage2 envelope g1 s1 tg1 r1 l1 g2 s2 tg2 r2 l2 :
  checks Transform ed25519_Verify engine t1 stage1 envelope g1 s1 tg1 r1 l1 ->
  checks Transform ed25519_Verify engine t2 stage2 envelope g2 s2 tg2 r2 l2 ->
  g1 = g2 /\ s1 = s2 /\ tg1 = tg2 /\ r1 = r2 /\ l1 = l2.
Proof. intros [(? & _) _ _ (? & _) (? & _) (? & _) (? & _)] [(? & _) _ _ (? & _) (? & _) (? & _) (? & _)]. naive_solver congruence. Qed.

Lemma fresh_Sub now t : t <= now <= t + 5 * Second -> (Sub now t <=? 5 * Second) = true.
Proof. unfold Sub, MinInt64, MaxInt64, Second. lia. Qed.

(** A verified envelope stays valid until it expires. *)
Lemma Verify_ValidateAt Transform ed25519_Verify envelope keys t now :
  Verify Transform ed25519_Verify envelope keys t = Ok tt -> t <= now -> now < zt_instant (env_ExpiresAt envelope) ->
  Envelope_ValidateAt envelope now = Ok tt.
Proof.
  unfold Verify, Envelope_ValidateAt. intros Hv Ht He. destruct keys as [Resolve|]; [|done].
  destruct (Envelope_Validate envelope) as [[]|]; [|done]. cbn [mbind Result_bind] in *.
  destruct (Before t (zt_instant (env_ExpiresAt envelope))); [|done]. cbn [ensure mbind Result_bind] in Hv.
  destruct (Before t (zt_instant (env_NotBefore envelope))) eqn:Hn; [done|]. clear Hv.
  unfold Before in *. rewrite (proj2 (Z.ltb_lt _ _) He). cbn [ensure mbind Result_bind].
  rewrite (proj2 (Z.ltb_ge now (zt_instant (env_NotBefore envelope)))); [done|]. apply Z.ltb_ge in Hn. lia.
Qed.

(** The credential decision's deadline is the one the service allows. *)
Lemma credential_deadline (t ttl expires now : Z) :
  now < Z.min (t + ttl) expires ->
  After (Z.min (t + ttl) expires) now &&
  negb (After (Z.min (t + ttl) expires) (if Before expires (Add t ttl) then expires else Add t ttl)) = true.
Proof.
  unfold After, Before, Add. intros H. apply andb_true_iff. split; [lia|]. apply negb_true_iff.
  destruct (Z.ltb_spec expires (t + ttl)); lia.
Qed.

(** The service accepts what the policy engine allows: two fresh decisions of one engine, for
    issuing and for executing, are accepted together, with the same snapshot, as long as the
    credential and the envelope have not expired. *)
Theorem allowed_decisions_are_accepted Transform ed25519_Verify engine t1 t2 envelope d1 d2 e1 e2 now :
  EvaluateCredentialIssue Transform ed25519_Verify engine None t1 envelope = (d1, e1) -> dec_Outcome d1 = OutcomeAllow ->
  EvaluatePreExecution Transform ed25519_Verify engine None t2 envelope = (d2, e2) -> dec_Outcome d2 = OutcomeAllow ->
  0 < t1 -> 0 < t2 -> t1 <= now <= t1 + 5 * Second -> t2 <= now <= t2 + 5 * Second ->
  now < dec_CredentialExpiresAt d1 -> now < zt_instant (env_ExpiresAt envelope) ->
  validCredentialIssueDecision d1 envelope now = true /\ validPreExecutionDecision d2 envelope now = true /\
  samePolicySnapshot d1 d2 = true.
Proof.
  intros H1 A1 H2 A2 P1 P2 N1 N2 Hc He. unfold EvaluateCredentialIssue in H1. unfold EvaluatePreExecution in H2.
  apply evaluate_allowed in H1 as (_ & _ & g1 & s1 & tg1 & r1 & l1 & K1 & ->); [|done].
  apply evaluate_allowed in H2 as (_ & _ & g2 & s2 & tg2 & r2 & l2 & K2 & ->); [|done].
  destruct (checks_revisions _ _ _ _ _ _ _ _ _ _ _ K1) as (Hs & Ht & Hr & Hl).
  destruct (checks_same _ _ _ _ _ _ _ _ _ _ _ _ _ _ _ _ _ _ K1 K2) as (<- & <- & <- & <- & <-).
  pose proof (ck_verified _ _ _ _ _ _ _ _ _ _ _ K2) as Hver. clear K1 K2 A1 A2.
  unfold allowed_decision in *. cbn [dec_CredentialExpiresAt] in Hc. rewrite eqb_same in Hc.
  assert (Hskew : forall t, 0 < t -> t <= now -> negb (IsZero t) && negb (After t (Add now maximumClockSkew)) = true).
  { intros t ? ?. unfold IsZero, After, Add, maximumClockSkew, Second. apply andb_true_iff. lia. }
  split_and!.
  - unfold validCredentialIssueDecision.
    cbn [dec_Outcome dec_Stage dec_PolicyVersion dec_PlanHash dec_SafetyRevision dec_TargetRevision dec_RiskRevision
         dec_LimitsRevision dec_EvaluatedAt dec_CredentialExpiresAt].
    rewrite !eqb_same, Hs, Ht, Hr, Hl, fresh_Sub, <- !andb_assoc, credential_deadline by done. cbn [andb].
    by rewrite !andb_true_r, Hskew by lia.
  - unfold validPreExecutionDecision.
    cbn [dec_Outcome dec_Stage dec_PolicyVersion dec_PlanHash dec_SafetyRevision dec_TargetRevision dec_RiskRevision
         dec_LimitsRevision dec_EvaluatedAt dec_CredentialExpiresAt].
    rewrite !eqb_same, Hs, Ht, Hr, Hl, fresh_Sub by done. cbn [andb]. rewrite Hskew by lia. cbn [andb].
    rewrite (Verify_ValidateAt _ _ _ _ _ now Hver) by lia. reflexivity.
  - unfold samePolicySnapshot. cbn [dec_PolicyVersion dec_PlanHash dec_SafetyRevision dec_TargetRevision dec_RiskRevision
      dec_LimitsRevision]. by rewrite !eqb_same.
Qed.

Lemma allowed_decisions_are_accepted_witness :
  let d1 := (EvaluateCredentialIssue demo_Transform demo_Verify PolicyDemo.engine None PolicyDemo.now PolicyDemo.envelope).1 in
  let d2 := (EvaluatePreExecution demo_Transform demo_Verify PolicyDemo.engine None PolicyDemo.now PolicyDemo.envelope).1 in
  validCredentialIssueDecision d1 PolicyDemo.envelope (PolicyDemo.now + Second) = true /\
  validPreExecutionDecision d2 PolicyDemo.envelope (PolicyDemo.now + Second) = true /\ samePolicySnapshot d1 d2 = true.
Proof.
  intros d1 d2.
  eapply (allowed_decisions_are_accepted demo_Transform demo_Verify PolicyDemo.engine PolicyDemo.now PolicyDemo.now
    PolicyDemo.envelope d1 d2 _ _ (PolicyDemo.now + Second) (surjective_pairing _)).
  - vm_compute. reflexivity.
  - exact (surjective_pairing _).
  - vm_compute. reflexivity.
  - apply Z.ltb_lt. vm_compute. reflexivity.
  - apply Z.ltb_lt. vm_compute. reflexivity.
  - split; apply Z.leb_le; vm_compute; reflexivity.
  - split; apply Z.leb_le; vm_compute; reflexivity.
  - apply Z.ltb_lt. vm_compute. reflexivity.
  - apply Z.ltb_lt. vm_compute. reflexivity.
Defined.

(** ** Submitting *)

(** What is known of an action on the queue, with the calls that showed it. *)
Record Submitted (Transform : string -> Result string) (ed25519_Verify : string -> string -> string -> bool)
    (service : Service) (envelope : Envelope) (submission : ActionSubmission) (answer : Result Execution)
    (trace : list Event) : Prop := {
  sb_verified : exists keys now, Verify Transform ed25519_Verify envelope keys now = Ok tt;
  sb_envelope : sub_Envelope submission = envelope /\ sub_PlanHash submission = env_PlanHash envelope;
  sb_target : deriveTargetKey envelope = Ok (sub_TargetKey submission) /\ sub_Pool submission = PoolWrite;
  sb_scope : exists registration scope, EvResolveRunner (svc_runnerID service) (Ok registration) ∈ trace /\
    RunnerRegistration_Scope registration = Ok scope /\
    RunnerScope_allows scope (env_WorkspaceID envelope) (target_EnvironmentID (env_Target envelope)) = true;
  sb_environment : exists snapshot,
    EvResolveEnvironment (env_WorkspaceID envelope) (target_EnvironmentID (env_Target envelope)) (Ok snapshot) ∈ trace /\
    sub_EnvironmentRevision submission = es_Revision snapshot /\ sub_Production submission = es_Production snapshot
}.

(** What the service puts on the queue is verified and classified by itself: the envelope is
    signed and in its window, the runner's scope allows its workspace and environment, and the
    target key, the plan hash, the environment's revision and production bit and the pool are
    derived from it and from the trusted environment, none of them from the caller. *)
Theorem submitted_action_is_verified {W} (env : Environment W) Transform ed25519_Verify service oracle caller
    envelope submission answer :
  let trace := w_events (Submit env Transform ed25519_Verify service envelope (World_start oracle caller)).2 in
  EvSubmit submission answer ∈ trace -> Submitted Transform ed25519_Verify service envelope submission answer trace.
Proof.
  assert (Hstart : At (World_start oracle caller) [] (World_start oracle caller)) by (apply At_start; by constructor).
  cut (post (Submit env Transform ed25519_Verify service envelope) (fun _ w => EvSubmit submission answer ∈ w_events w ->
    Submitted Transform ed25519_Verify service envelope submission answer (w_events w)) (World_start oracle caller)); [done|].
  unfold Submit. repeat at_step.
  all: match goal with H : At _ _ ?w |- _ ∈ w_events ?w -> _ => destruct H as [_ ->]; intros Hin end.
  all: simpl in Hin; repeat (apply elem_of_cons in Hin as [Hin|Hin]); try discriminate Hin; try (by apply elem_of_nil in Hin).
  injection Hin as -> ->. learn_answers. guards. destruct_and?.
  match goal with H : exists _, _ |- _ => destruct H as (registration & -> & Hscope) end. simplify_eq.
  constructor; simpl.
  - match goal with H : Verify _ _ _ _ _ = Ok ?u |- _ => destruct u; eauto end.
  - done.
  - done.
  - eexists registration, _. split_and!; [set_solver|done..].
  - eexists. split; [apply elem_of_cons; right; apply elem_of_cons; by left|done].
Qed.

Lemma submitted_action_is_verified_witness :
  deriveTargetKey ServiceDemo.envelope = Ok (sub_TargetKey ServiceDemo.submission).
Proof.
  assert (E : w_events (Submit ServiceDemo.env demo_Transform demo_Verify ServiceDemo.service ServiceDemo.envelope
    (World_start tt None)).2 !! 2%nat = Some (EvSubmit ServiceDemo.submission (Ok ServiceDemo.leased))) by (vm_compute; reflexivity).
  exact (proj1 (sb_target _ _ _ _ _ _ _ (submitted_action_is_verified ServiceDemo.env demo_Transform demo_Verify
    ServiceDemo.service tt None ServiceDemo.envelope ServiceDemo.submission (Ok ServiceDemo.leased)
    (list_elem_of_lookup_2 _ _ _ E)))).
Defined.

(** ** The end of a session *)

(** What the goroutines do once the one of the heartbeats is gone: only the executor's is
    left, if it was entered at all. *)
Definition quieted {W} (w' w : World W) : Prop :=
  hs_loop (w_session w) = LoopDone /\
  exists trace, w_events w = w_events w' ++ trace /\ Forall (fun e => ofExecutor e = true) trace /\
    (w_executor w' = ExecutorAbsent -> w_executor w = ExecutorAbsent /\ trace = []).

Lemma quieted_steps {W} (env : Environment W) service (w' w : World W) steps :
  quieted w' w -> post (envSteps env service steps) (fun _ w'' => quieted w' w'') w.
Proof.
  apply (envSteps_stable env service (quieted w')); [done| |].
  - intros w1 step HQ. pose proof HQ as [Hd _]. unfold loopStep. do 2 post_step. rewrite Hd. by destruct step.
  - intros w1 step (Hd & trace & E & Ht & Hno). apply post_executorStep. intros o events state Hm. split; [done|].
    exists (trace ++ events). simpl. rewrite E, app_assoc. split_and!; [done| |].
    + apply Forall_app. split; [done|]. by destruct (executor_move_events _ _ _ Hm).
    + intros Habsent. destruct (Hno Habsent) as [Ha ->]. rewrite Ha in Hm. by inversion Hm.
Qed.

(** C38. [Stop] ends a heartbeat session under every schedule: whatever the goroutine was
    doing, it is gone when [Stop] returns, and whatever may be scheduled later adds no
    heartbeat and no other call of the service: only an executor that was entered and abandoned
    may still do something, and without one nothing does. *)
Theorem stop_ends_the_session {W} (env : Environment W) service w err w' steps :
  hs_loop (w_session w) <> LoopAbsent -> Stop env service w = (err, w') ->
  hs_loop (w_session w') = LoopDone /\
  exists trace, w_events (envSteps env service steps w').2 = w_events w' ++ trace /\
    Forall (fun e => ofExecutor e = true) trace /\
    (w_executor w' = ExecutorAbsent -> trace = []).
Proof.
  intros Hst E. pose proof (stops env service (hs_lease (w_session w)) w Hst) as Hd.
  apply (post_run _ _ _ err w') in Hd; [|done]. split; [done|].
  assert (HQ : quieted w' w') by (split; [done|]; exists []; by rewrite app_nil_r).
  destruct (quieted_steps env service w' w' steps HQ) as (_ & trace & Et & Ht & Hno). exists trace. naive_solver.
Qed.

(** The goroutine is in the middle of a heartbeat when [Stop] is called. *)
Definition demo_session : World unit :=
  {| w_oracle := tt; w_events := []; w_contexts := {| Contexts_none with cx_executorMade := true |};
     w_session := {| hs_failure := None; hs_completeAcked := true; hs_claimedScope := ServiceDemo.scope;
                     hs_lease := leaseFence ServiceDemo.admission; hs_nextSequence := 2; hs_loop := LoopScoped;
                     hs_beatMu := false |};
     w_executor := ExecutorAbsent |}.

Lemma stop_ends_the_session_witness :
  hs_loop (w_session (Stop ServiceDemo.env ServiceDemo.service demo_session).2) = LoopDone.
Proof.
  exact (proj1 (stop_ends_the_session ServiceDemo.env ServiceDemo.service demo_session _ _ []
    ltac:(discriminate) (surjective_pairing _))).
Defined.
