(* ===== verification/GoDecode.v ===== *)
(** * Go's [encoding/json]: decoding

    The grammar [json.Valid] accepts, as a parser from text to a tree: members of
    objects in the order of the text, numbers as their text, strings unquoted the way the
    decoder does it (escapes, surrogate pairs, invalid UTF-8 replaced).  [json.Unmarshal] into
    an [any] and the tokens of a [json.Decoder] are functions of that tree.  Each byte of the
    text takes at most two calls, so twice its length is enough fuel. *)

From S2P Require Import Prelude.
From S2P Require Import Sha256.
From S2P Require Import GoText.
From S2P Require Import GoStrings.
From S2P Require Import GoJson.
From Stdlib Require Import Ascii String.

Open Scope Z_scope.

#[warnings="-register-all"]
Inductive Value :=
| VNull
| VBool (b : bool)
| VNumber (text : string)
| VString (s : string)
| VArray (values : list Value)
| VObject (members : list (string * Value)).

(** Induction on a value with the hypothesis for every element and member. *)
Section Value_induction.
Context (P : Value -> Prop).
Context (HNull : P VNull) (HBool : forall b, P (VBool b)) (HNumber : forall text, P (VNumber text))
  (HString : forall s, P (VString s)) (HArray : forall values, Forall P values -> P (VArray values))
  (HObject : forall members, Forall (fun member => P member.2) members -> P (VObject members)).

Fixpoint Value_induction (value : Value) : P value :=
  match value with
  | VNull => HNull
  | VBool b => HBool b
  | VNumber text => HNumber text
  | VString s => HString s
  | VArray values =>
      HArray values ((fix go (values : list Value) : Forall P values :=
        match values with
        | [] => @List.Forall_nil _ P
        | value :: values => @List.Forall_cons _ P value values (Value_induction value) (go values)
        end) values)
  | VObject members =>
      HObject members ((fix go (members : list (string * Value)) : Forall (fun member => P member.2) members :=
        match members with
        | [] => @List.Forall_nil _ (fun member => P member.2)
        | (key, value) :: members => @List.Forall_cons _ (fun member => P member.2) (key, value) members (Value_induction value) (go members)
        end) members)
  end.
End Value_induction.

(** ** Characters *)

(** [utf8.AppendRune], which writes [RuneError] for what is not a rune. *)
Definition encodeRune (r : Z) : list Z :=
  if (r <? 0) || (0x10ffff <? r) || byte_in 0xd800 0xdfff r then [0xef; 0xbf; 0xbd]
  else if r <? 0x80 then [r]
  else if r <? 0x800 then [0xc0 + Z.shiftr r 6; 0x80 + six_bits r]
  else if r <? 0x10000 then [0xe0 + Z.shiftr r 12; 0x80 + six_bits (Z.shiftr r 6); 0x80 + six_bits r]
  else [0xf0 + Z.shiftr r 18; 0x80 + six_bits (Z.shiftr r 12); 0x80 + six_bits (Z.shiftr r 6); 0x80 + six_bits r].

Definition json_space (b : Z) : bool := (b =? 0x20) || (b =? 0x09) || (b =? 0x0d) || (b =? 0x0a).

Fixpoint skip_space (bytes : list Z) : list Z :=
  match bytes with
  | b :: rest => if json_space b then skip_space rest else bytes
  | [] => []
  end.

Definition hex_value (b : Z) : option Z :=
  if byte_in 48 57 b then Some (b - 48)
  else if byte_in 97 102 b then Some (b - 87)
  else if byte_in 65 70 b then Some (b - 55)
  else None.

(** [getu4]: the code unit of [\uXXXX], without its first two bytes. *)
Definition hex4 (bytes : list Z) : option (Z * list Z) :=
  match bytes with
  | a :: b :: c :: d :: rest =>
      match hex_value a, hex_value b, hex_value c, hex_value d with
      | Some a, Some b, Some c, Some d => Some (((a * 16 + b) * 16 + c) * 16 + d, rest)
      | _, _, _, _ => None
      end
  | _ => None
  end.

(** The rune of [\uXXXX] and what follows it: a high surrogate takes the low one behind it
    along, and a surrogate without its partner is [RuneError]. *)
Definition unquoteUnit (unit : Z) (rest : list Z) : Z * list Z :=
  if byte_in 0xd800 0xdfff unit then
    match rest with
    | 92 :: 117 :: more =>
        match hex4 more with
        | Some (low, more) =>
            if byte_in 0xd800 0xdbff unit && byte_in 0xdc00 0xdfff low
            then ((unit - 0xd800) * 0x400 + (low - 0xdc00) + 0x10000, more)
            else (RuneError, rest)
        | None => (RuneError, rest)
        end
    | _ => (RuneError, rest)
    end
  else (unit, rest).

(** The byte a one-letter escape stands for. *)
Definition unescape (b : Z) : option Z :=
  if (b =? 34) || (b =? 92) || (b =? 47) then Some b
  else if b =? 98 then Some 8
  else if b =? 102 then Some 12
  else if b =? 110 then Some 10
  else if b =? 114 then Some 13
  else if b =? 116 then Some 9
  else None.

(** A string after its opening quote: its bytes, unquoted, and what follows its closing
    quote. *)
Fixpoint string_body (fuel : nat) (bytes : list Z) : option (list Z * list Z) :=
  match fuel, bytes with
  | O, _ | _, [] => None
  | S fuel, 34 :: rest => Some ([], rest)
  | S fuel, 92 :: 117 :: rest =>
      match hex4 rest with
      | Some (unit, rest) =>
          let '(r, rest) := unquoteUnit unit rest in
          match string_body fuel rest with
          | Some (body, rest) => Some (encodeRune r ++ body, rest)
          | None => None
          end
      | None => None
      end
  | S fuel, 92 :: b :: rest =>
      match unescape b, string_body fuel rest with
      | Some c, Some (body, rest) => Some (c :: body, rest)
      | _, _ => None
      end
  | S fuel, _ =>
      let '(r, n) := DecodeRune bytes in
      if r <? 0x20 then None
      else
        match string_body fuel (skipn n bytes) with
        | Some (body, rest) => Some (encodeRune r ++ body, rest)
        | None => None
        end
  end.

(** ** Numbers *)

Definition digit_byte (b : Z) : bool := byte_in 48 57 b.

Fixpoint take_digits (bytes : list Z) : list Z * list Z :=
  match bytes with
  | b :: rest => if digit_byte b then let '(ds, rest) := take_digits rest in (b :: ds, rest) else ([], bytes)
  | [] => ([], [])
  end.

(** The integer part: an optional sign, then 0 or digits that do not start with 0. *)
Definition number_integer (bytes : list Z) : option (list Z * list Z) :=
  let '(sign, bytes) := match bytes with 45 :: rest => ([45], rest) | _ => ([], bytes) end in
  match bytes with
  | 48 :: rest => Some (sign ++ [48], rest)
  | _ =>
      match take_digits bytes with
      | ([], _) => None
      | (ds, rest) => Some (sign ++ ds, rest)
      end
  end.

(** The fraction, if there is one. *)
Definition number_fraction (bytes : list Z) : option (list Z * list Z) :=
  match bytes with
  | 46 :: rest =>
      match take_digits rest with
      | ([], _) => None
      | (ds, rest) => Some (46 :: ds, rest)
      end
  | _ => Some ([], bytes)
  end.

(** The exponent, if there is one. *)
Definition number_exponent (bytes : list Z) : option (list Z * list Z) :=
  match bytes with
  | e :: rest =>
      if (e =? 101) || (e =? 69) then
        let '(sign, rest) := match rest with
                             | s :: more => if (s =? 43) || (s =? 45) then ([s], more) else ([], rest)
                             | [] => ([], [])
                             end in
        match take_digits rest with
        | ([], _) => None
        | (ds, rest) => Some (e :: sign ++ ds, rest)
        end
      else Some ([], bytes)
  | [] => Some ([], [])
  end.

Definition number_text (bytes : list Z) : option (string * list Z) :=
  match number_integer bytes with
  | Some (integer, rest) =>
      match number_fraction rest with
      | Some (fraction, rest) =>
          match number_exponent rest with
          | Some (exponent, rest) => Some (string_of_bytes (integer ++ fraction ++ exponent), rest)
          | None => None
          end
      | None => None
      end
  | None => None
  end.

(** ** Values *)

(** [maxNestingDepth] of the scanner. *)
Definition maxNestingDepth : nat := Z.to_nat 10000.

Fixpoint strip (prefix bytes : list Z) : option (list Z) :=
  match prefix, bytes with
  | [], _ => Some bytes
  | p :: prefix, b :: bytes => if p =? b then strip prefix bytes else None
  | _ :: _, [] => None
  end.

Definition literal (text : string) (value : Value) (bytes : list Z) : option (Value * list Z) :=
  match strip (bytes_of_string text) bytes with
  | Some rest => Some (value, rest)
  | None => None
  end.

(** A value; the elements of an array behind its bracket; the members of an object behind its
    brace.  [depth] counts the brackets and braces still allowed. *)
Fixpoint parseValue (fuel depth : nat) (bytes : list Z) : option (Value * list Z) :=
  match fuel with
  | O => None
  | S fuel =>
      match skip_space bytes with
      | 34 :: rest =>
          match string_body fuel rest with
          | Some (body, rest) => Some (VString (string_of_bytes body), rest)
          | None => None
          end
      | 91 :: rest =>
          match depth with
          | O => None
          | S depth =>
              match skip_space rest with
              | 93 :: rest => Some (VArray [], rest)
              | rest =>
                  match parseElements fuel depth rest with
                  | Some (values, rest) => Some (VArray values, rest)
                  | None => None
                  end
              end
          end
      | 123 :: rest =>
          match depth with
          | O => None
          | S depth =>
              match skip_space rest with
              | 125 :: rest => Some (VObject [], rest)
              | rest =>
                  match parseMembers fuel depth rest with
                  | Some (members, rest) => Some (VObject members, rest)
                  | None => None
                  end
              end
          end
      | (116 :: _) as bytes => literal "true" (VBool true) bytes
      | (102 :: _) as bytes => literal "false" (VBool false) bytes
      | (110 :: _) as bytes => literal "null" VNull bytes
      | bytes =>
          match number_text bytes with
          | Some (text, rest) => Some (VNumber text, rest)
          | None => None
          end
      end
  end
with parseElements (fuel depth : nat) (bytes : list Z) : option (list Value * list Z) :=
  match fuel with
  | O => None
  | S fuel =>
      match parseValue fuel depth bytes with
      | Some (value, rest) =>
          match skip_space rest with
          | 44 :: rest =>
              match parseElements fuel depth rest with
              | Some (values, rest) => Some (value :: values, rest)
              | None => None
              end
          | 93 :: rest => Some ([value], rest)
          | _ => None
          end
      | None => None
      end
  end
with parseMembers (fuel depth : nat) (bytes : list Z) : option (list (string * Value) * list Z) :=
  match fuel with
  | O => None
  | S fuel =>
      match skip_space bytes with
      | 34 :: rest =>
          match string_body fuel rest with
          | Some (key, rest) =>
              match skip_space rest with
              | 58 :: rest =>
                  match parseValue fuel depth rest with
                  | Some (value, rest) =>
                      match skip_space rest with
                      | 44 :: rest =>
                          match parseMembers fuel depth rest with
                          | Some (members, rest) => Some ((string_of_bytes key, value) :: members, rest)
                          | None => None
                          end
                      | 125 :: rest => Some ([(string_of_bytes key, value)], rest)
                      | _ => None
                      end
                  | None => None
                  end
              | _ => None
              end
          | None => None
          end
      | _ => None
      end
  end.

(** The value of a text that holds exactly one. *)
Definition parseJson (text : string) : option Value :=
  let bytes := bytes_of_string text in
  match parseValue (2 * List.length bytes + 2) maxNestingDepth bytes with
  | Some (value, rest) => match skip_space rest with [] => Some value | _ => None end
  | None => None
  end.

(** [json.Valid] *)
Definition json_Valid (text : string) : bool := if parseJson text is Some _ then true else false.

(** ** Numbers as [float64] *)

Definition decimal_value (ds : list Z) : Z := foldl (fun n d => n * 10 + (d - 48)) 0 ds.

(** The exponent as [strconv] reads it: digits beyond 10000 no longer count. *)
Definition exponent_value (ds : list Z) : Z := foldl (fun n d => if n <? 10000 then n * 10 + (d - 48) else n) 0 ds.

(** Whether [strconv.ParseFloat(text, 64)] answers [ErrRange]: the value is at least half a
    unit above the greatest finite number.  Only values of 300 to 310 digits take a
    comparison. *)
Definition number_overflows (text : string) : bool :=
  let bytes := bytes_of_string text in
  let bytes := match bytes with 45 :: rest => rest | _ => bytes end in
  let '(integer, rest) := take_digits bytes in
  let '(fraction, rest) := match rest with 46 :: rest => take_digits rest | _ => ([], rest) end in
  let exponent :=
    match rest with
    | _ :: 45 :: ds => - exponent_value ds
    | _ :: 43 :: ds => exponent_value ds
    | _ :: ds => exponent_value ds
    | [] => 0
    end in
  let mantissa := decimal_value (integer ++ fraction) in
  let scale := exponent - Z.of_nat (List.length fraction) in
  let magnitude := scale + Z.of_nat (List.length (integer ++ fraction)) in
  if mantissa =? 0 then false
  else if magnitude <? 300 then false
  else if 0 <=? scale then
    if 400 <? scale then true else 2 ^ 1024 - 2 ^ 970 <=? mantissa * 10 ^ scale
  else (2 ^ 1024 - 2 ^ 970) * 10 ^ (- scale) <=? mantissa.

(** Whether [json.Unmarshal] into an [any] succeeds on a value: every number fits. *)
Fixpoint unmarshals (value : Value) : bool :=
  match value with
  | VNumber text => negb (number_overflows text)
  | VArray values => forallb unmarshals values
  | VObject members => forallb (fun member => unmarshals member.2) members
  | _ => true
  end.

(** [json.Unmarshal(text, &object)] for a [map[string]any], where no key occurs twice: the
    members, or [None] for an error or a nil map. *)
Definition unmarshalObject (text : string) : option (list (string * Value)) :=
  match parseJson text with
  | Some (VObject members) => if forallb (fun member => unmarshals member.2) members then Some members else None
  | _ => None
  end.

(** [json.Compact] with HTML escaping, as [json.Marshal] treats the text of a
    [json.RawMessage]. *)
Fixpoint compact_bytes (fuel : nat) (quoted : bool) (bytes : list Z) : list Z :=
  match fuel, bytes with
  | O, _ | _, [] => []
  | S fuel, b :: rest =>
      if quoted then
        match bytes with
        | 92 :: c :: rest => 92 :: c :: compact_bytes fuel true rest
        | 34 :: rest => 34 :: compact_bytes fuel false rest
        | 0xe2 :: 0x80 :: c :: rest =>
            if (c =? 0xa8) || (c =? 0xa9)
            then [92; 117; 50; 48; 50; hexByte (Z.land c 15)] ++ compact_bytes fuel true rest
            else 0xe2 :: 0x80 :: c :: compact_bytes fuel true rest
        | _ =>
            if (b =? 60) || (b =? 62) || (b =? 38)
            then [92; 117; 48; 48; hexByte (Z.shiftr b 4); hexByte (Z.land b 15)] ++ compact_bytes fuel true rest
            else b :: compact_bytes fuel true rest
        end
      else if b =? 34 then 34 :: compact_bytes fuel true rest
      else if json_space b then compact_bytes fuel false rest
      else b :: compact_bytes fuel false rest
  end.

(** What [json.Marshal] writes for a [json.RawMessage]; an empty one is [null]. *)
Definition marshalRaw (raw : string) : Result Json :=
  if raw == ""%string then Ok JNull
  else if json_Valid raw then
    let bytes := bytes_of_string raw in Ok (JText (string_of_bytes (compact_bytes (List.length bytes) false bytes)))
  else Err (errors_New "json: error calling MarshalJSON for type json.RawMessage").

(** ** Examples *)

Definition q (s : string) : string := quote +:+ s +:+ quote.

Example parse_object :
  parseJson (" {" +:+ q "a" +:+ ": [1, -2.5e3, true , null], " +:+ q "b\u0041\n" +:+ ":" +:+ q "\ud83D\ude00\ud800x" +:+ "} ")
  = Some (VObject [("a", VArray [VNumber "1"; VNumber "-2.5e3"; VBool true; VNull]);
                   ("bA" +:+ String "010" EmptyString,
                    VString (string_of_bytes [0xf0; 0x9f; 0x98; 0x80; 0xef; 0xbf; 0xbd; 120]))])%string.
Proof. vm_compute. reflexivity. Qed.

Example parse_rejects :
  List.map json_Valid ["{,}"; "[1,]"; "01"; "1."; "- 1"; "[1] 2"; q "\x"; "{" +:+ q "a" +:+ "}"; ""]%string
  = [false; false; false; false; false; false; false; false; false].
Proof. vm_compute. reflexivity. Qed.

Example overflow_bound :
  List.map number_overflows ["1e308"; "1.7976931348623157e308"; "1.7976931348623159e308"; "-1e309"; "0e999"; "1e-999"]%string
  = [false; false; true; true; false; false].
Proof. vm_compute. reflexivity. Qed.
