(* ===== verification/GoRegexp.v ===== *)
(** * Go's [regexp]

    Patterns that are not a statement about all characters of a text are matched by
    backtracking over its runes, which finds the match Go's leftmost-first semantics
    prefers: alternatives from left to right, repetitions as long as possible.  A [Mark]
    records the position at which it was passed. *)

From S2P Require Import Prelude.
From S2P Require Import Sha256.
From S2P Require Import GoText.
From S2P Require Import GoStrings.
From Stdlib Require Import Ascii String.

Open Scope Z_scope.

Inductive Regexp :=
| Class_ (p : Z -> bool)
| Seq (first second : Regexp)
| Alt (first second : Regexp)
| Star (r : Regexp)
| Empty
| TextBegin
| TextEnd
| Mark (n : nat).

(** A place in the text: its byte offset, the runes from there on, the marks passed. *)
Record Place := { pl_offset : nat; pl_rest : list (Z * list Z); pl_marks : list (nat * nat) }.

Definition advance (rune : Z * list Z) (rest : list (Z * list Z)) (at_ : Place) : Place :=
  {| pl_offset := pl_offset at_ + List.length rune.2; pl_rest := rest; pl_marks := pl_marks at_ |}.

(** Match [r] at a place, then what [k] matches behind it.  An iteration of a repetition
    takes at least one rune, so their number is enough fuel. *)
Fixpoint match_then {A} (r : Regexp) (k : Place -> option A) (at_ : Place) : option A :=
  match r with
  | Class_ p =>
      match pl_rest at_ with
      | rune :: rest => if p rune.1 then k (advance rune rest at_) else None
      | [] => None
      end
  | Seq first second => match_then first (match_then second k) at_
  | Alt first second =>
      match match_then first k at_ with
      | Some a => Some a
      | None => match_then second k at_
      end
  | Star r =>
      (fix star (fuel : nat) (at_ : Place) : option A :=
        match fuel with
        | O => k at_
        | S fuel =>
            let again at' := if (pl_offset at_ <? pl_offset at')%nat then star fuel at' else None in
            match match_then r again at_ with
            | Some a => Some a
            | None => k at_
            end
        end) (List.length (pl_rest at_)) at_
  | Empty => k at_
  | TextBegin => if (pl_offset at_ =? 0)%nat then k at_ else None
  | TextEnd => match pl_rest at_ with [] => k at_ | _ => None end
  | Mark n =>
      k {| pl_offset := pl_offset at_; pl_rest := pl_rest at_; pl_marks := (n, pl_offset at_) :: pl_marks at_ |}
  end.

(** The end of the leftmost match from a place on. *)
Fixpoint find_from (r : Regexp) (rest : list (Z * list Z)) (offset : nat) : option Place :=
  match match_then r Some {| pl_offset := offset; pl_rest := rest; pl_marks := [] |} with
  | Some found => Some found
  | None =>
      match rest with
      | rune :: rest => find_from r rest (offset + List.length rune.2)
      | [] => None
      end
  end.

(** [MatchString] *)
Definition MatchString (r : Regexp) (s : string) : bool := if find_from r (runes s) 0 is Some _ then true else false.

(** [FindAllStringSubmatchIndex] for a pattern that does not match the empty text. *)
Fixpoint find_all (fuel : nat) (r : Regexp) (rest : list (Z * list Z)) (offset : nat) : list Place :=
  match fuel with
  | O => []
  | S fuel =>
      match find_from r rest offset with
      | Some found => found :: find_all fuel r (pl_rest found) (pl_offset found)
      | None => []
      end
  end.

Definition FindAll (r : Regexp) (s : string) : list Place :=
  let text := runes s in find_all (List.length text) r text 0.

(** ** Building patterns *)

Definition Opt (r : Regexp) : Regexp := Alt r Empty.
Definition Plus (r : Regexp) : Regexp := Seq r (Star r).

(** Up to [n] repetitions. *)
Fixpoint Upto (n : nat) (r : Regexp) : Regexp :=
  match n with
  | O => Empty
  | S n => Opt (Seq r (Upto n r))
  end.

Definition rune_is (c : Z) (r : Z) : bool := r =? c.
Definition rune_in (cs : string) (r : Z) : bool := existsb (Z.eqb r) (bytes_of_string cs).

(** Under [(?i)] a letter stands for both of its cases, and [s] and [k] also for U+017F and
    U+212A. *)
Definition fold_rune (r : Z) : Z :=
  if byte_in 65 90 r then r + 32 else if r =? 0x17f then 115 else if r =? 0x212a then 107 else r.
Definition folded (p : Z -> bool) (r : Z) : bool := p (fold_rune r).

Fixpoint literal_fold (s : string) : Regexp :=
  match s with
  | EmptyString => Empty
  | String c rest => Seq (Class_ (folded (rune_is (byteZ c)))) (literal_fold rest)
  end.

Fixpoint any_of (rs : list Regexp) : Regexp :=
  match rs with
  | [] => Class_ (fun _ => false)
  | [r] => r
  | r :: rs => Alt r (any_of rs)
  end.

Definition lower_rune (r : Z) : bool := byte_in 97 122 r.
Definition digit_rune (r : Z) : bool := byte_in 48 57 r.

(** [\s] *)
Definition perl_space (r : Z) : bool := (r =? 9) || (r =? 10) || (r =? 12) || (r =? 13) || (r =? 32).
