(* ===== verification/GoUnicode.v ===== *)
(** * Go's [unicode], and more of [strings]

    Letters, digits and lower case come from the tables of the Unicode standard that Go
    ships, which are an argument (class [Unicode]); control and format characters are few
    enough to be listed.  Then the functions of [strings] that search and cut text. *)

From S2P Require Import Prelude.
From S2P Require Import Sha256.
From S2P Require Import GoText.
From S2P Require Import GoStrings.
From S2P Require Import GoDecode.
From Stdlib Require Import Ascii String.

Open Scope Z_scope.

Class Unicode := {
  unicode_IsLetter : Z -> bool;
  unicode_IsDigit : Z -> bool;
  unicode_ToLower : Z -> Z
}.

(** The tables restricted to ASCII, for examples. *)
Definition AsciiTables : Unicode := {|
  unicode_IsLetter r := byte_in 65 90 r || byte_in 97 122 r;
  unicode_IsDigit r := byte_in 48 57 r;
  unicode_ToLower r := if byte_in 65 90 r then r + 32 else r
|}.

(** [unicode.IsControl] *)
Definition IsControl (r : Z) : bool := byte_in 0 0x1f r || byte_in 0x7f 0x9f r.

(** [unicode.Is(unicode.Cf, r)] *)
Definition IsFormat (r : Z) : bool :=
  (r =? 0xad) || byte_in 0x600 0x605 r || (r =? 0x61c) || (r =? 0x6dd) || (r =? 0x70f) || byte_in 0x890 0x891 r ||
  (r =? 0x8e2) || (r =? 0x180e) || byte_in 0x200b 0x200f r || byte_in 0x202a 0x202e r || byte_in 0x2060 0x2064 r ||
  byte_in 0x2066 0x206f r || (r =? 0xfeff) || byte_in 0xfff9 0xfffb r || (r =? 0x110bd) || (r =? 0x110cd) ||
  byte_in 0x13430 0x1343f r || byte_in 0x1bca0 0x1bca3 r || byte_in 0x1d173 0x1d17a r || (r =? 0xe0001) ||
  byte_in 0xe0020 0xe007f r.

(** [utf8.ValidString] *)
Definition utf8_ValidString (s : string) : bool :=
  forallb (fun rune => negb ((rune.1 =? RuneError) && (List.length rune.2 =? 1)%nat)) (runes s).

(** The text of runes, [strings.Builder.WriteRune] after one another. *)
Definition text_of_runes (rs : list Z) : string := string_of_bytes (List.concat (List.map encodeRune rs)).

(** [strings.ToLower] *)
Definition strings_ToLower `{Unicode} (s : string) : string :=
  text_of_runes (List.map (fun rune => unicode_ToLower rune.1) (runes s)).

(** ** Searching *)

Fixpoint Contains (s sub : string) : bool :=
  HasPrefix s sub || match s with String _ rest => Contains rest sub | EmptyString => false end.

Fixpoint HasSuffix (s suffix : string) : bool :=
  (s == suffix) || match s with String _ rest => HasSuffix rest suffix | EmptyString => false end.

(** The text before the first of some ASCII characters, or all of it:
    [s[:strings.IndexAny(s, chars)]] where there is one. *)
Fixpoint before_any (chars : string) (s : string) : string :=
  match s with
  | EmptyString => EmptyString
  | String c rest => if one_of_chars chars c then EmptyString else String c (before_any chars rest)
  end.

(** [strings.TrimPrefix] *)
Fixpoint TrimPrefix (s prefix : string) : string :=
  match prefix, s with
  | String c prefix', String d s' => if Ascii.eqb c d && HasPrefix s' prefix' then TrimPrefix s' prefix' else s
  | _, _ => s
  end.

(** [strings.Trim] for a cut set of ASCII characters, given as their codes. *)
Fixpoint drop_set (cut : list Z) (bytes : list Z) : list Z :=
  match bytes with
  | b :: rest => if existsb (Z.eqb b) cut then drop_set cut rest else bytes
  | [] => []
  end.
Definition TrimSet (cut : list Z) (s : string) : string :=
  string_of_bytes (List.rev (drop_set cut (List.rev (drop_set cut (bytes_of_string s))))).

(** [strings.Fields]: the parts of a text between its spaces. *)
Fixpoint fields_from (rs : list (Z * list Z)) (field : list Z) : list (list Z) :=
  match rs with
  | [] => match field with [] => [] | _ => [field] end
  | (r, bytes) :: rest =>
      if IsSpace r then match field with [] => fields_from rest [] | _ => field :: fields_from rest [] end
      else fields_from rest (field ++ bytes)
  end.
Definition Fields (s : string) : list string := List.map string_of_bytes (fields_from (runes s) []).

Example fields_trim :
  Fields " ab  c" = ["ab"; "c"]%string /\ TrimSet [40; 41; 59] "(a;b);" = "a;b"%string /\
  TrimPrefix "--ab" "--" = "ab"%string /\ TrimPrefix "-ab" "--" = "-ab"%string /\ before_any "=:" "ab:c=d" = "ab"%string /\
  Contains "abcd" "bc" = true /\ Contains "abcd" "bd" = false /\ HasSuffix "abcd" "cd" = true /\ HasSuffix "abcd" "c" = false.
Proof. vm_compute. repeat split; reflexivity. Qed.
