(* ===== verification/GoFloat.v ===== *)
(** * Go's [float64] as [encoding/json] writes it

    A number of type [float64] is its sign, mantissa and binary exponent.  [json.Marshal]
    writes the shortest decimal that reads back as the number, the closest one among those,
    with an exponent outside of [1e-6, 1e21). *)

From S2P Require Import Prelude.
From S2P Require Import Sha256.
From S2P Require Import GoText.
From S2P Require Import GoStrings.
From S2P Require Import GoJson.
From Stdlib Require Import Ascii String.

Open Scope Z_scope.

(** [Finite negative m e] is [m * 2^e], with [0 <= m < 2^53] and [e >= -1074], and [m] at
    least [2^52] unless [e] is [-1074]. *)
Inductive Float64 :=
| NaN
| Infinity (negative : bool)
| Finite (negative : bool) (mantissa exponent : Z).

#[export] Instance Float64_eq_dec : EqDecision Float64.
Proof. solve_decision. Defined.

(** [value < 0] and [value > 1] *)
Definition float_negative (value : Float64) : bool :=
  match value with
  | NaN => false
  | Infinity negative => negative
  | Finite negative m _ => negative && (0 <? m)
  end.
Definition float_above_one (value : Float64) : bool :=
  match value with
  | NaN => false
  | Infinity negative => negb negative
  | Finite negative m e => negb negative && (if 0 <=? e then 1 <? m * 2 ^ e else 2 ^ (- e) <? m)
  end.
Definition float_special (value : Float64) : bool := match value with Finite _ _ _ => false | _ => true end.

(** The rounding interval of [m * 2^e], its ends and the number itself as numerators over
    [2 ^ k] with [k = 2 - e] or 0. *)
Definition over (e : Z) : Z * Z := if 0 <=? e - 2 then (2 ^ (e - 2), 1) else (1, 2 ^ (2 - e)).
Definition interval (m e : Z) : Z * Z * Z :=
  let below := if (m =? 2 ^ 52) && negb (e =? -1074) then 1 else 2 in (4 * m - below, 4 * m, 4 * m + 2).

(** The decimal [d * 10^-k] against [v * num / den]: below, inside or above. *)
Definition compare_decimal (d k v num den : Z) : comparison :=
  if 0 <=? k then (d * den) ?= (v * num * 10 ^ k) else (d * den * 10 ^ (- k)) ?= (v * num).

Definition inside (m e d k : Z) : bool :=
  let '(num, den) := over e in
  let '(low, _, high) := interval m e in
  let even := Z.even m in
  match compare_decimal d k low num den, compare_decimal d k high num den with
  | Gt, Lt => true
  | Eq, Lt | Gt, Eq => even
  | _, _ => false
  end.

(** With [k] digits behind the point, the closest decimal that reads back as the number. *)
Definition decimal_at (m e k : Z) : option Z :=
  let '(num, den) := over e in
  let '(top, bottom) := if 0 <=? k then (4 * m * num * 10 ^ k, den) else (4 * m * num, den * 10 ^ (- k)) in
  let d := top / bottom in
  let nearer := if 2 * (top mod bottom) <=? bottom then [d; d + 1] else [d + 1; d] in
  List.find (fun d => inside m e d k) nearer.

Fixpoint shortest (fuel : nat) (m e k : Z) : Z * Z :=
  match fuel with
  | O => (0, 0)
  | S fuel => match decimal_at m e k with Some d => (d, k) | None => shortest fuel m e (k + 1) end
  end.

(** The number of decimal digits before the point, an estimate from the binary exponent that is
    not too small. *)
Definition leading (m e : Z) : Z := (Z.log2 m + 1 + e) * 30103 / 100000 + 2.

Definition decimal_digits (m e : Z) : string * Z :=
  let '(d, k) := shortest 25 m e (- leading m e) in
  let text := FormatInt d in (text, len text - k).

Definition zeros (n : Z) : string := string_of_bytes (List.repeat 48 (Z.to_nat n)).

(** Digits and position of the point, in the form ['f']. *)
Definition format_f (text : string) (point : Z) : string :=
  if point <=? 0 then "0." +:+ zeros (- point) +:+ text
  else if len text <=? point then text +:+ zeros (point - len text)
  else String.substring 0 (Z.to_nat point) text +:+ "." +:+
       String.substring (Z.to_nat point) (String.length text - Z.to_nat point) text.

(** The same in the form ['e'], without a leading zero in the exponent. *)
Definition format_e (text : string) (point : Z) : string :=
  let fraction := String.substring 1 (String.length text - 1) text in
  let exponent := point - 1 in
  String.substring 0 1 text +:+ (if fraction == ""%string then "" else "." +:+ fraction) +:+
  (if exponent <? 0 then "e-" else "e+") +:+ FormatInt (Z.abs exponent).

(** [json.Marshal] on a [float64]; an error for NaN and the infinities. *)
Definition marshalFloat (value : Float64) : Result Json :=
  match value with
  | Finite negative m e =>
      let '(text, point) := if m =? 0 then ("0"%string, 1) else decimal_digits m e in
      let body := if negb (m =? 0) && ((point <=? -6) || (21 <? point)) then format_e text point else format_f text point in
      Ok (JText ((if negative then "-" else "") +:+ body))
  | _ => Err (errors_New "json: unsupported value")
  end.

Example floats :
  List.map marshalFloat
    [Finite false 4503599627370496 (-52); Finite false 7205759403792794 (-56); Finite false 8106479329266893 (-53);
     Finite false 4722366482869645 (-72); Finite false 0 (-1074); Finite true 0 (-1074); Finite false 1 (-1074);
     Finite false 6755399441055744 (-48); Finite false 6103515625000000 24]
  = List.map (fun text => Ok (JText text))
    ["1"; "0.1"; "0.9"; "0.000001"; "0"; "-0"; "5e-324"; "24"; "1.024e+23"]%string.
Proof. vm_compute. reflexivity. Qed.
