(* ===== verification/SafeText.v ===== *)
(** * Identifiers, safe text and safe JSON

    internal/domain/structured_json.go: the bounded identifiers of the domain, and the checks
    that keep credentials out of what an investigation stores.  Text is refused when it holds
    invisible characters, an assignment or an option to a name that sounds like a credential, or
    a marker of one.  A JSON object is refused when it repeats a key, is nested too deeply, or
    has such a name or text anywhere.  The errors of the checks differ in their text only. *)

From S2P Require Import Prelude.
From S2P Require Import Sha256.
From S2P Require Import GoText.
From S2P Require Import GoStrings.
From S2P Require Import GoDecode.
From S2P Require Import GoUnicode.
From Stdlib Require Import Ascii String.

Open Scope Z_scope.

Definition MaxInvestigationJSONBytes : Z := 64 * 1024.
Definition MaxResourceIDBytes : Z := 256.
Definition maxInvestigationJSONDepth : nat := 32.

(** ** Identifiers *)

Definition idempotencyKeyPattern (s : string) : bool :=
  head_tail (fun c => is_lower c || is_digit c) (fun c => is_lower c || is_digit c || one_of_chars "._:/-" c) s && (len s <=? 128).
Definition lowCardinalityPattern (s : string) : bool :=
  head_tail (fun c => is_lower c || is_digit c) (fun c => is_lower c || is_digit c || one_of_chars "_.-" c) s.

Definition ValidSHA256Hex (value : string) : bool := sha256Pattern value.
Definition ValidResourceID (value : string) : bool := validIdentifier value MaxResourceIDBytes.
Definition ValidIdempotencyKey (value : string) : bool := idempotencyKeyPattern value.
Definition ValidFailureCode (value : string) : bool := (len value <=? 128) && lowCardinalityPattern value.
Definition ValidConnectorID (value : string) : bool := (len value <=? 128) && lowCardinalityPattern value.
Definition ValidOperation (value : string) : bool := (len value <=? 64) && lowCardinalityPattern value.

Section text.
Context `{Unicode}.

(** ** Names and text that sound like credentials *)

Definition normalizeSecurityName (value : string) : string :=
  text_of_runes (List.map unicode_ToLower
    (List.filter (fun r => unicode_IsLetter r || unicode_IsDigit r) (List.map fst (runes value)))).

Definition securityMarkers : list string :=
  ["authorization"; "authentication"; "auth"; "apikey"; "accessor"; "credential";
   "rawerror"; "errorbody"; "secret"; "token"; "password"; "cookie"; "privatekey"].

Definition unsafeSecurityName (value : string) : bool :=
  let normalized := normalizeSecurityName value in existsb (Contains normalized) securityMarkers.

(** Backslash, quotes, brackets, braces, angles, comma and semicolon. *)
Definition optionTrim : list Z := [92; 34; 39; 96; 91; 93; 40; 41; 123; 125; 60; 62; 44; 59].

Definition containsUnsafeSecurityCLIOption (value : string) : bool :=
  existsb (fun field =>
    let candidate := TrimSet optionTrim field in
    HasPrefix candidate "--" && unsafeSecurityName (before_any "=:" (TrimPrefix candidate "--"))) (Fields value).

(** For every colon and equals sign, the text before it. *)
Fixpoint assignment_heads (rs : list (Z * list Z)) (before : list Z) : list string :=
  match rs with
  | [] => []
  | (r, bytes) :: rest =>
      let others := assignment_heads rest (before ++ bytes) in
      if (r =? 58) || (r =? 61) then string_of_bytes before :: others else others
  end.

Definition containsUnsafeSecurityAssignment (value : string) : bool :=
  existsb (fun head => let skeleton := normalizeSecurityName head in existsb (HasSuffix skeleton) securityMarkers)
    (assignment_heads (runes value) []).

Definition valueMarkers : list string :=
  ["bearer "; "authorization"; "cookie"; "set-cookie"; "begin private key"; "begin rsa private key";
   "private key"; "private-key"; "private_key"; "raw error body"; "raw_error_body"; "raw-error-body"].

Definition unsafeSecurityValue (value : string) : bool :=
  let trimmed := TrimSpace value in
  containsUnsafeSecurityCLIOption trimmed || containsUnsafeSecurityAssignment value ||
  (let normalized := strings_ToLower trimmed in existsb (Contains normalized) valueMarkers).

Definition validSafeUnicode (value : string) : bool :=
  utf8_ValidString value && forallb (fun rune => negb (rune.1 =? RuneError)) (runes value) &&
  forallb (fun rune => negb (IsControl rune.1 || IsFormat rune.1)) (runes value).

Definition ValidSafeText (value : string) : bool := validSafeUnicode value && negb (unsafeSecurityValue value).

Definition ValidSafeMetadata (name value : string) : bool :=
  validSafeUnicode name && validSafeUnicode value && negb (unsafeSecurityName name) && negb (unsafeSecurityValue value) &&
  ((normalizeSecurityName name != "name") || negb (unsafeSecurityName value)).

Definition validStrictJSONString (value : string) : bool := validSafeUnicode value.

(** [hasErrorContext] of the loop in the code. *)
Fixpoint unsafeErrorPath (path : list string) (hasErrorContext : bool) : bool :=
  match path with
  | [] => false
  | segment :: path =>
      let normalized := normalizeSecurityName segment in
      if Contains normalized "error" || Contains normalized "response" then unsafeErrorPath path true
      else
        (hasErrorContext && (Contains normalized "body" || Contains normalized "details" || Contains normalized "message")) ||
        unsafeErrorPath path hasErrorContext
  end.

Definition unsafeSecurityPath (path : list string) : bool :=
  unsafeErrorPath path false || unsafeSecurityName (strings_Join path ".").

(** ** JSON objects *)

Definition sensitiveMetadata : GoError := errors_New "JSON contains forbidden sensitive metadata".

Definition checkString (text : string) : Result unit :=
  ensure (validStrictJSONString text) (errors_New "JSON contains invalid Unicode");;
  ensure (negb (unsafeSecurityValue text)) sensitiveMetadata.

(** [consumeJSONToken] on the tokens of a value, [depth] levels deep. *)
Fixpoint consumeJSONToken (value : Value) (depth : nat) : Result unit :=
  ensure (depth <=? maxInvestigationJSONDepth)%nat (errors_New "JSON nesting exceeds limit");;
  match value with
  | VString text => checkString text
  | VArray values =>
      (fix elements (values : list Value) : Result unit :=
        match values with
        | [] => Ok tt
        | value :: values => consumeJSONToken value (S depth);; elements values
        end) values
  | VObject members =>
      (fix fields (members : list (string * Value)) (seen : list string) : Result unit :=
        match members with
        | [] => Ok tt
        | (key, child) :: members =>
            checkString key;;
            ensure (bool_decide (key ∉ seen)) (errors_New "JSON contains duplicate object field");;
            consumeJSONToken child (S depth);;
            fields members (key :: seen)
        end) members []
  | _ => Ok tt
  end.

(** A member [name] or [key] whose text sounds like a credential. *)
Definition namesSensitive (member : string * Value) : bool :=
  let normalized := normalizeSecurityName member.1 in
  ((normalized == "name") || (normalized == "key")) &&
  match member.2 with VString name => unsafeSecurityName name | _ => false end.

Fixpoint rejectSensitiveJSON (value : Value) (path : list string) : Result unit :=
  match value with
  | VObject members =>
      ensure (negb (existsb namesSensitive members)) sensitiveMetadata;;
      (fix fields (members : list (string * Value)) : Result unit :=
        match members with
        | [] => Ok tt
        | (key, child) :: members =>
            let nextPath := path ++ [key] in
            ensure (negb (unsafeSecurityName key || unsafeSecurityPath nextPath)) sensitiveMetadata;;
            rejectSensitiveJSON child nextPath;;
            fields members
        end) members
  | VArray values =>
      (fix elements (values : list Value) : Result unit :=
        match values with
        | [] => Ok tt
        | child :: values => rejectSensitiveJSON child path;; elements values
        end) values
  | VString item => ensure (negb (unsafeSecurityValue item)) sensitiveMetadata
  | _ => Ok tt
  end.

Definition ValidateSafeJSONObject (text : string) : Result unit :=
  let invalid := errors_New "JSON must be a valid object of at most 65536 bytes" in
  ensure (negb (text == "") && (len text <=? MaxInvestigationJSONBytes) && utf8_ValidString text) invalid;;
  match parseJson text with
  | None => Err invalid
  | Some value =>
      consumeJSONToken value 1;;
      match unmarshalObject text with
      | None => Err (errors_New "JSON must be an object")
      | Some members => rejectSensitiveJSON (VObject members) []
      end
  end.

Definition validateHashedJSONObject (value hash : string) : Result unit :=
  ValidateSafeJSONObject value;;
  ensure (ValidSHA256Hex hash) (errors_New "SHA-256 hash must be lowercase hexadecimal");;
  ensure (sha256_hex value == hash) (errors_New "SHA-256 hash does not match JSON").

(** A nil map is [None]. *)
Definition ValidateSafeAttributes (attributes : option (gmap string string)) : Result unit :=
  let attributes := default ∅ attributes in
  ensure (Z.of_nat (size attributes) <=? 32) (errors_New "evidence attributes exceed limit");;
  ensure (forallb (fun '(key, value) => lowCardinalityPattern key && (len key <=? 64) && (len value <=? 512) &&
                     ValidSafeMetadata key value) (map_to_list attributes))
    (errors_New "evidence attributes contain invalid or sensitive metadata").
End text.
