(* ===== verification/InvestigationDomain.v ===== *)
(** * Incidents, investigations and what they hold

    internal/domain: signals, incidents, investigations, read tasks, evidence, receipts,
    hypotheses and feedback, with their [Validate] methods and the transitions of an incident.
    Instants are in UTC: every one the repository stores was passed through [UTC()].
    An enumeration is a string in the source; its last constructor stands for the texts that
    are none of its constants. *)

From S2P Require Import Prelude.
From S2P Require Import Sha256.
From S2P Require Import GoText.
From S2P Require Import GoStrings.
From S2P Require Import GoUnicode.
From S2P Require Import GoFloat.
From S2P Require Import SafeText.
From Stdlib Require Import Ascii String.

Open Scope Z_scope.

(** [fmt.Errorf] without [%w]. *)
Abbreviation text_error := errors_New (only parsing).

(** ** Enumerations *)

Inductive MappingStatus := MappingExact | MappingAmbiguous | MappingUnresolved | MappingOther (text : string).
Inductive IncidentStatus :=
| IncidentOpen | IncidentInvestigating | IncidentMitigating | IncidentResolved | IncidentClosed | IncidentOther (text : string).
Inductive InvestigationStatus :=
| InvestigationQueued | InvestigationRunning | InvestigationPartial | InvestigationCompleted | InvestigationFailed
| InvestigationCancelled | InvestigationOther (text : string).
Inductive ModelStatus :=
| ModelPending | ModelRunning | ModelCompleted | ModelFailed | ModelSkipped | ModelCancelled | ModelOther (text : string).
Inductive ReadTaskStatus :=
| ReadTaskQueued | ReadTaskRunning | ReadTaskEvidence | ReadTaskFailed | ReadTaskCancelled | ReadTaskOther (text : string).
Inductive HypothesisStatus := HypothesisProposed | HypothesisConfirmed | HypothesisRejected | HypothesisOther (text : string).
Inductive FeedbackVerdict := FeedbackConfirmed | FeedbackRejected | FeedbackInconclusive | FeedbackOther (text : string).
Inductive ActorType := ActorHuman | ActorModel | ActorWorkload | ActorOther (text : string).

#[export] Instance MappingStatus_eq_dec : EqDecision MappingStatus.
Proof. solve_decision. Defined.
#[export] Instance IncidentStatus_eq_dec : EqDecision IncidentStatus.
Proof. solve_decision. Defined.
#[export] Instance InvestigationStatus_eq_dec : EqDecision InvestigationStatus.
Proof. solve_decision. Defined.
#[export] Instance ModelStatus_eq_dec : EqDecision ModelStatus.
Proof. solve_decision. Defined.
#[export] Instance ReadTaskStatus_eq_dec : EqDecision ReadTaskStatus.
Proof. solve_decision. Defined.
#[export] Instance HypothesisStatus_eq_dec : EqDecision HypothesisStatus.
Proof. solve_decision. Defined.
#[export] Instance FeedbackVerdict_eq_dec : EqDecision FeedbackVerdict.
Proof. solve_decision. Defined.
#[export] Instance ActorType_eq_dec : EqDecision ActorType.
Proof. solve_decision. Defined.

(** ** Bindings of plans and tasks *)

Definition InvestigationPlanBindingSchemaVersion : string := "investigation-plan-manifest.v1".
Definition ReadTaskRuntimeBindingSchemaVersion : string := "read-task-runtime-binding.v1".
Definition InvestigationCreateRequestVersionV1 : string := "investigation.create.v1".
Definition InvestigationCreateRequestVersionV2 : string := "investigation.create.v2".

(** The connector's name, then [-v1-] and the digest of its content. *)
Definition ConnectorDigestMatchesID (connectorID connectorDigest : string) : bool :=
  if negb (ValidConnectorID connectorID) || negb (ValidSHA256Hex connectorDigest) then false
  else
    let suffix := "-v1-" +:+ connectorDigest in
    let prefixLength := len connectorID - len suffix in
    HasSuffix connectorID suffix && (1 <=? prefixLength) && (prefixLength <=? 60).

Record InvestigationPlanBinding := {
  ipb_SchemaVersion : string; ipb_ManifestDigest : string; ipb_RegistryDigest : string;
  ipb_ProfileDigest : string; ipb_TasksHash : string
}.

#[export] Instance InvestigationPlanBinding_eq_dec : EqDecision InvestigationPlanBinding.
Proof. solve_decision. Defined.

Definition InvestigationPlanBinding_zero : InvestigationPlanBinding :=
  {| ipb_SchemaVersion := ""; ipb_ManifestDigest := ""; ipb_RegistryDigest := ""; ipb_ProfileDigest := ""; ipb_TasksHash := "" |}.

Definition PlanBinding_Validate (binding : InvestigationPlanBinding) : Result unit :=
  ensure ((ipb_SchemaVersion binding == InvestigationPlanBindingSchemaVersion) &&
          ValidSHA256Hex (ipb_ManifestDigest binding) && ValidSHA256Hex (ipb_RegistryDigest binding) &&
          ValidSHA256Hex (ipb_ProfileDigest binding) && ValidSHA256Hex (ipb_TasksHash binding))
    (text_error "investigation plan binding is invalid").

(** [err == nil] *)
Definition passes (r : Result unit) : bool := if r is Ok _ then true else false.

Definition PlanBinding_Equal (binding other : InvestigationPlanBinding) : bool :=
  passes (PlanBinding_Validate binding) && passes (PlanBinding_Validate other) && (binding == other).

Record ReadTaskRuntimeBinding := {
  rtb_SchemaVersion : string; rtb_ConnectorDigest : string; rtb_TargetDigest : string;
  rtb_ExecutorDigest : string; rtb_RuntimeDigest : string; rtb_BoundAt : Time
}.

#[export] Instance ReadTaskRuntimeBinding_eq_dec : EqDecision ReadTaskRuntimeBinding.
Proof. solve_decision. Defined.

Definition ReadTaskRuntimeBinding_zero : ReadTaskRuntimeBinding :=
  {| rtb_SchemaVersion := ""; rtb_ConnectorDigest := ""; rtb_TargetDigest := ""; rtb_ExecutorDigest := "";
     rtb_RuntimeDigest := ""; rtb_BoundAt := 0 |}.

Definition Microsecond : Duration := 1000.

(** [t.Truncate(time.Microsecond)]: toward the zero instant, which no instant here precedes. *)
Definition TruncateMicro (t : Time) : Time := t - t mod Microsecond.

Definition RuntimeBinding_Validate (binding : ReadTaskRuntimeBinding) : Result unit :=
  ensure ((rtb_SchemaVersion binding == ReadTaskRuntimeBindingSchemaVersion) &&
          ValidSHA256Hex (rtb_ConnectorDigest binding) && ValidSHA256Hex (rtb_TargetDigest binding) &&
          ValidSHA256Hex (rtb_ExecutorDigest binding) && ValidSHA256Hex (rtb_RuntimeDigest binding) &&
          negb (IsZero (rtb_BoundAt binding)) && (rtb_BoundAt binding =? TruncateMicro (rtb_BoundAt binding)))
    (text_error "read task runtime binding is invalid").

Definition RuntimeBinding_Equal (binding other : ReadTaskRuntimeBinding) : bool :=
  passes (RuntimeBinding_Validate binding) && passes (RuntimeBinding_Validate other) && (binding == other).

(** ** Signals *)

(** The labels of a signal are a map that is not nil once it is normalized. *)
Record Signal := {
  sig_ID : string; sig_WorkspaceID : string; sig_IntegrationID : string; sig_Provider : string;
  sig_ProviderEventID : string; sig_PayloadHash : string; sig_Fingerprint : string; sig_Status : string;
  sig_Labels : gmap string string; sig_ObservedAt : Time
}.

#[export] Instance Signal_eq_dec : EqDecision Signal.
Proof. solve_decision. Defined.

(** ** Incidents *)

Definition MaxCorrelationKeyBytes : Z := 512.

Definition correlationKeyPattern (s : string) : bool :=
  head_tail (fun c => is_lower c || is_digit c) (fun c => is_lower c || is_digit c || one_of_chars "._:/@-" c) s.
Definition ValidCorrelationKey (value : string) : bool :=
  (0 <? len value) && (len value <=? MaxCorrelationKeyBytes) && correlationKeyPattern value.

Definition incidentTransitions (status : IncidentStatus) : option IncidentStatus :=
  match status with
  | IncidentOpen => Some IncidentInvestigating
  | IncidentInvestigating => Some IncidentMitigating
  | IncidentMitigating => Some IncidentResolved
  | IncidentResolved => Some IncidentClosed
  | _ => None
  end.

Record Incident := {
  inc_ID : string; inc_TenantID : string; inc_WorkspaceID : string; inc_ServiceID : string; inc_EnvironmentID : string;
  inc_CorrelationKey : string; inc_MappingStatus : MappingStatus; inc_Severity : string; inc_Title : string;
  inc_Status : IncidentStatus; inc_ConfirmedHypothesisID : string; inc_OpenedAt : Time; inc_LastSignalAt : Time;
  inc_UpdatedAt : Time; inc_SignalCount : Z; inc_Version : Z
}.

#[export] Instance Incident_eq_dec : EqDecision Incident.
Proof. solve_decision. Defined.

Definition NewIncidentForTenant (id tenantID workspaceID : string) (now : Time) : Incident := {|
  inc_ID := id; inc_TenantID := tenantID; inc_WorkspaceID := workspaceID; inc_ServiceID := ""; inc_EnvironmentID := "";
  inc_CorrelationKey := ""; inc_MappingStatus := MappingUnresolved; inc_Severity := "UNKNOWN";
  inc_Title := "Unclassified operational incident"; inc_Status := IncidentOpen; inc_ConfirmedHypothesisID := "";
  inc_OpenedAt := now; inc_LastSignalAt := 0; inc_UpdatedAt := now; inc_SignalCount := 0; inc_Version := 1
|}.

(** An identifier that may be left out. *)
Definition optionalID (value : string) : bool := (value == "") || ValidResourceID value.

Definition knownMapping (status : MappingStatus) : bool := if status is MappingOther _ then false else true.
Definition knownIncidentStatus (status : IncidentStatus) : bool := if status is IncidentOther _ then false else true.

Definition Incident_Validate (incident : Incident) : Result unit :=
  ensure (ValidResourceID (inc_ID incident) && ValidResourceID (inc_TenantID incident) &&
          ValidResourceID (inc_WorkspaceID incident) && optionalID (inc_ServiceID incident) &&
          optionalID (inc_EnvironmentID incident) && optionalID (inc_ConfirmedHypothesisID incident))
    (text_error "incident resource identifiers are invalid");;
  ensure ((inc_Severity incident != "") && (inc_Title incident != ""))
    (text_error "incident id, tenant id, workspace id, severity and title are required");;
  ensure (negb (IsZero (inc_OpenedAt incident)) && negb (IsZero (inc_UpdatedAt incident)) &&
          negb (Before (inc_UpdatedAt incident) (inc_OpenedAt incident)))
    (text_error "incident timestamps are invalid");;
  ensure (0 <? inc_Version incident) (text_error "incident version must be positive");;
  (if inc_CorrelationKey incident == "" then
     ensure (IsZero (inc_LastSignalAt incident) && (inc_SignalCount incident =? 0))
       (text_error "uncorrelated incident cannot have signal metadata")
   else
     ensure (ValidCorrelationKey (inc_CorrelationKey incident)) (text_error "incident correlation key is not canonical");;
     ensure (negb (IsZero (inc_LastSignalAt incident)) && (0 <? inc_SignalCount incident) &&
             negb (Before (inc_LastSignalAt incident) (inc_OpenedAt incident)) &&
             negb (After (inc_LastSignalAt incident) (inc_UpdatedAt incident)))
       (text_error "correlated incident signal time and count are inconsistent"));;
  ensure (negb ((inc_MappingStatus incident == MappingExact) &&
                ((inc_ServiceID incident == "") || (inc_EnvironmentID incident == ""))))
    (text_error "exact incident mapping requires service and environment");;
  ensure (knownMapping (inc_MappingStatus incident)) (text_error "invalid incident mapping status");;
  ensure (knownIncidentStatus (inc_Status incident)) (text_error "invalid incident status").

Definition Incident_ValidateForCreate (incident : Incident) : Result unit :=
  Incident_Validate incident;;
  ensure ((inc_Status incident == IncidentOpen) && (inc_Version incident =? 1) && (inc_ConfirmedHypothesisID incident == ""))
    (text_error "new incident must be OPEN at version 1 without a confirmed hypothesis").

Definition Incident_TransitionAt (next : IncidentStatus) (now : Time) (incident : Incident) : Result Incident :=
  ensure (incidentTransitions (inc_Status incident) == Some next) (text_error "invalid incident transition");;
  ensure (negb (IsZero now) && negb (Before now (inc_UpdatedAt incident)))
    (text_error "incident transition time cannot move backward");;
  Ok {| incident with inc_Status := next; inc_UpdatedAt := now; inc_Version := inc_Version incident + 1 |}.

(** ** Investigations *)

Record Investigation := {
  inv_ID : string; inv_WorkspaceID : string; inv_IncidentID : string; inv_Status : InvestigationStatus;
  inv_ModelStatus : ModelStatus; inv_IdempotencyKey : string; inv_RequestHash : string; inv_RequestHashVersion : string;
  inv_PlanBinding : InvestigationPlanBinding; inv_FailureCode : string; inv_ModelFailureCode : string;
  inv_CreatedAt : Time; inv_StartedAt : Time; inv_CompletedAt : Time; inv_UpdatedAt : Time
}.

#[export] Instance Investigation_eq_dec : EqDecision Investigation.
Proof. solve_decision. Defined.

Definition validInvestigationModelState (status : InvestigationStatus) (modelStatus : ModelStatus) : bool :=
  match status with
  | InvestigationQueued => modelStatus == ModelPending
  | InvestigationRunning => (modelStatus == ModelPending) || (modelStatus == ModelRunning)
  | InvestigationCompleted | InvestigationPartial =>
      (modelStatus == ModelCompleted) || (modelStatus == ModelFailed) || (modelStatus == ModelSkipped)
  | InvestigationFailed | InvestigationCancelled => modelStatus == ModelCancelled
  | InvestigationOther _ => false
  end.

Definition timeWithin (value notBefore notAfter : Time) : bool :=
  IsZero value || (negb (Before value notBefore) && negb (After value notAfter)).

(** Both instants set, the second before the first. *)
Definition reversed (startedAt completedAt : Time) : bool :=
  negb (IsZero startedAt) && negb (IsZero completedAt) && Before completedAt startedAt.

Definition knownInvestigationStatus (status : InvestigationStatus) : bool := if status is InvestigationOther _ then false else true.
Definition knownModelStatus (status : ModelStatus) : bool := if status is ModelOther _ then false else true.

(** Statuses, hash and plan. *)
Definition Investigation_Validate_binding (investigation : Investigation) : Result unit :=
  ensure (validIdentifier (inv_ID investigation) 256 && validIdentifier (inv_WorkspaceID investigation) 256 &&
          validIdentifier (inv_IncidentID investigation) 256)
    (text_error "investigation identifiers are invalid");;
  ensure (knownInvestigationStatus (inv_Status investigation)) (text_error "invalid investigation status");;
  ensure (knownModelStatus (inv_ModelStatus investigation)) (text_error "invalid model status");;
  ensure (validInvestigationModelState (inv_Status investigation) (inv_ModelStatus investigation))
    (text_error "investigation and model statuses are inconsistent");;
  ensure (ValidIdempotencyKey (inv_IdempotencyKey investigation)) (text_error "investigation idempotency key is invalid");;
  ensure (ValidSHA256Hex (inv_RequestHash investigation)) (text_error "investigation request hash is invalid");;
  if inv_RequestHashVersion investigation == InvestigationCreateRequestVersionV1 then
    ensure (inv_PlanBinding investigation == InvestigationPlanBinding_zero)
      (text_error "legacy investigation cannot contain a plan binding")
  else if inv_RequestHashVersion investigation == InvestigationCreateRequestVersionV2 then
    ensure (passes (PlanBinding_Validate (inv_PlanBinding investigation))) (text_error "bound investigation plan is invalid")
  else Err (text_error "investigation request hash version is invalid").

(** What the status says of the instants and of the model. *)
Definition Investigation_lifecycle (investigation : Investigation) : bool :=
  let started := negb (IsZero (inv_StartedAt investigation)) in
  let completed := negb (IsZero (inv_CompletedAt investigation)) in
  let model := inv_ModelStatus investigation in
  match inv_Status investigation with
  | InvestigationQueued => negb started && negb completed && (model == ModelPending)
  | InvestigationRunning => started && negb completed
  | InvestigationPartial | InvestigationCompleted =>
      started && completed && ((model == ModelCompleted) || (model == ModelFailed) || (model == ModelSkipped))
  | InvestigationFailed | InvestigationCancelled => completed && (model == ModelCancelled)
  | InvestigationOther _ => true
  end.

Definition Investigation_Validate (investigation : Investigation) : Result unit :=
  Investigation_Validate_binding investigation;;
  (match inv_Status investigation with
   | InvestigationFailed | InvestigationCancelled =>
       ensure (ValidFailureCode (inv_FailureCode investigation))
         (text_error "failed or cancelled investigation requires a bounded failure code")
   | _ =>
       ensure (inv_FailureCode investigation == "")
         (text_error "investigation failure code requires FAILED or CANCELLED status")
   end);;
  (if inv_ModelStatus investigation == ModelFailed then
     ensure (ValidFailureCode (inv_ModelFailureCode investigation)) (text_error "failed model requires a bounded failure code")
   else
     ensure (inv_ModelFailureCode investigation == "") (text_error "model failure code requires FAILED model status"));;
  ensure (negb (IsZero (inv_CreatedAt investigation)) && negb (IsZero (inv_UpdatedAt investigation)) &&
          negb (Before (inv_UpdatedAt investigation) (inv_CreatedAt investigation)))
    (text_error "investigation timestamps are invalid");;
  ensure (timeWithin (inv_StartedAt investigation) (inv_CreatedAt investigation) (inv_UpdatedAt investigation) &&
          timeWithin (inv_CompletedAt investigation) (inv_CreatedAt investigation) (inv_UpdatedAt investigation) &&
          negb (reversed (inv_StartedAt investigation) (inv_CompletedAt investigation)))
    (text_error "investigation lifecycle timestamps are invalid");;
  ensure (Investigation_lifecycle investigation) (text_error "investigation lifecycle is inconsistent").

(** ** Read tasks *)

Record ReadTask := {
  task_ID : string; task_WorkspaceID : string; task_IncidentID : string; task_InvestigationID : string; task_Key : string;
  task_Position : Z; task_ConnectorID : string; task_Operation : string; task_Input : string; task_InputHash : string;
  task_RuntimeBinding : ReadTaskRuntimeBinding; task_Status : ReadTaskStatus; task_EvidenceID : string;
  task_FailureCode : string; task_CreatedAt : Time; task_StartedAt : Time; task_CompletedAt : Time; task_UpdatedAt : Time
}.

#[export] Instance ReadTask_eq_dec : EqDecision ReadTask.
Proof. solve_decision. Defined.

Definition knownReadTaskStatus (status : ReadTaskStatus) : bool := if status is ReadTaskOther _ then false else true.

Definition ReadTask_lifecycle (task : ReadTask) : bool :=
  let started := negb (IsZero (task_StartedAt task)) in
  let completed := negb (IsZero (task_CompletedAt task)) in
  let unproven := task_EvidenceID task == "" in
  match task_Status task with
  | ReadTaskQueued => negb started && negb completed && unproven && (task_FailureCode task == "")
  | ReadTaskRunning => started && negb completed && unproven && (task_FailureCode task == "")
  | ReadTaskEvidence => started && completed && validIdentifier (task_EvidenceID task) 256 && (task_FailureCode task == "")
  | ReadTaskFailed => started && completed && unproven && ValidFailureCode (task_FailureCode task)
  | ReadTaskCancelled => completed && unproven && ValidFailureCode (task_FailureCode task)
  | ReadTaskOther _ => true
  end.

(** ** Evidence and receipts *)

Record Evidence := {
  ev_ID : string; ev_WorkspaceID : string; ev_IncidentID : string; ev_InvestigationID : string; ev_TaskID : string;
  ev_ConnectorID : string; ev_ContentHash : string; ev_Payload : string; ev_Attributes : option (gmap string string);
  ev_CollectedAt : Time; ev_CreatedAt : Time
}.

#[export] Instance Evidence_eq_dec : EqDecision Evidence.
Proof. solve_decision. Defined.

Record RunnerEvidenceReceipt := {
  rcp_ID : string; rcp_WorkspaceID : string; rcp_InvestigationID : string; rcp_TaskID : string; rcp_RunnerID : string;
  rcp_ConnectorID : string; rcp_EvidenceID : string; rcp_ContentHash : string; rcp_FailureCode : string;
  rcp_IdempotencyKey : string; rcp_ReceivedAt : Time
}.

#[export] Instance RunnerEvidenceReceipt_eq_dec : EqDecision RunnerEvidenceReceipt.
Proof. solve_decision. Defined.

Definition Receipt_Validate (receipt : RunnerEvidenceReceipt) : Result unit :=
  ensure (validIdentifier (rcp_ID receipt) 256 && validIdentifier (rcp_WorkspaceID receipt) 256 &&
          validIdentifier (rcp_InvestigationID receipt) 256 && validIdentifier (rcp_TaskID receipt) 256 &&
          validIdentifier (rcp_RunnerID receipt) 256 && ValidConnectorID (rcp_ConnectorID receipt) &&
          ValidIdempotencyKey (rcp_IdempotencyKey receipt))
    (text_error "runner evidence receipt identifiers are invalid");;
  let success := validIdentifier (rcp_EvidenceID receipt) 256 && ValidSHA256Hex (rcp_ContentHash receipt) &&
                 (rcp_FailureCode receipt == "") in
  let failure := (rcp_EvidenceID receipt == "") && (rcp_ContentHash receipt == "") &&
                 ValidFailureCode (rcp_FailureCode receipt) in
  ensure (negb (Bool.eqb success failure)) (text_error "runner evidence receipt must contain exactly one bounded result");;
  ensure (negb (IsZero (rcp_ReceivedAt receipt))) (text_error "runner evidence receipt time is required").

(** ** Hypotheses and feedback *)

(** [Hypothesis] in the source, a keyword here. *)
Record HypothesisRecord := {
  hyp_ID : string; hyp_WorkspaceID : string; hyp_IncidentID : string; hyp_InvestigationID : string;
  hyp_Status : HypothesisStatus; hyp_Rank : Z; hyp_Confidence : Float64; hyp_Summary : string; hyp_Proposal : string;
  hyp_ProposalHash : string; hyp_Unknowns : list string; hyp_EvidenceIDs : list string; hyp_CreatedAt : Time
}.

#[export] Instance Hypothesis_eq_dec : EqDecision HypothesisRecord.
Proof. solve_decision. Defined.

Record Actor := { actor_Type : ActorType; actor_ID : string }.

#[export] Instance Actor_eq_dec : EqDecision Actor.
Proof. solve_decision. Defined.

Record Feedback := {
  fb_ID : string; fb_WorkspaceID : string; fb_IncidentID : string; fb_InvestigationID : string; fb_HypothesisID : string;
  fb_Actor : Actor; fb_Verdict : FeedbackVerdict; fb_Details : string; fb_CreatedAt : Time
}.

#[export] Instance Feedback_eq_dec : EqDecision Feedback.
Proof. solve_decision. Defined.

Definition knownHypothesisStatus (status : HypothesisStatus) : bool := if status is HypothesisOther _ then false else true.
Definition knownVerdict (verdict : FeedbackVerdict) : bool := if verdict is FeedbackOther _ then false else true.

Section text.
Context `{Unicode}.

Definition Signal_Validate (signal : Signal) : Result unit :=
  ensure (forallb (fun value => value != "")
            [sig_ID signal; sig_WorkspaceID signal; sig_IntegrationID signal; sig_Provider signal;
             sig_ProviderEventID signal; sig_PayloadHash signal; sig_Fingerprint signal; sig_Status signal])
    (text_error "signal field is required");;
  ensure (negb (IsZero (sig_ObservedAt signal))) (text_error "observed_at is required");;
  ensure ((len (sig_Provider signal) <=? 64) && (len (sig_ProviderEventID signal) <=? 512) &&
          (len (sig_Fingerprint signal) <=? 512) && (len (sig_PayloadHash signal) <=? 128))
    (text_error "signal indexed fields exceed byte limits");;
  ensure (lowCardinalityPattern (sig_Provider signal) && ValidSafeText (sig_Provider signal) &&
          ValidSafeText (sig_ProviderEventID signal) && ValidSafeText (sig_Fingerprint signal))
    (text_error "signal indexed metadata is unsafe");;
  ensure ((sig_Status signal == "firing") || (sig_Status signal == "resolved"))
    (text_error "signal status must be firing or resolved").

Definition ReadTask_Validate (task : ReadTask) : Result unit :=
  ensure (validIdentifier (task_ID task) 256 && validIdentifier (task_WorkspaceID task) 256 &&
          validIdentifier (task_IncidentID task) 256 && validIdentifier (task_InvestigationID task) 256)
    (text_error "read task identifiers are invalid");;
  ensure ((0 <? task_Position task) && (task_Position task <=? 12)) (text_error "read task position must be between 1 and 12");;
  ensure (lowCardinalityPattern (task_Key task) && (len (task_Key task) <=? 64)) (text_error "read task key is invalid");;
  ensure (ValidConnectorID (task_ConnectorID task) && ValidOperation (task_Operation task))
    (text_error "read task connector or operation is invalid");;
  wrapError "read task input" (validateHashedJSONObject (task_Input task) (task_InputHash task));;
  ensure ((task_RuntimeBinding task == ReadTaskRuntimeBinding_zero) ||
          (passes (RuntimeBinding_Validate (task_RuntimeBinding task)) &&
           ConnectorDigestMatchesID (task_ConnectorID task) (rtb_ConnectorDigest (task_RuntimeBinding task)) &&
           (rtb_BoundAt (task_RuntimeBinding task) =? task_CreatedAt task)))
    (text_error "read task runtime binding is invalid");;
  ensure (knownReadTaskStatus (task_Status task)) (text_error "invalid read task status");;
  ensure ((task_FailureCode task == "") || ValidFailureCode (task_FailureCode task)) (text_error "read task failure code is invalid");;
  ensure (negb (IsZero (task_CreatedAt task)) && negb (IsZero (task_UpdatedAt task)) &&
          negb (Before (task_UpdatedAt task) (task_CreatedAt task)) &&
          timeWithin (task_StartedAt task) (task_CreatedAt task) (task_UpdatedAt task) &&
          timeWithin (task_CompletedAt task) (task_CreatedAt task) (task_UpdatedAt task) &&
          negb (reversed (task_StartedAt task) (task_CompletedAt task)))
    (text_error "read task timestamps are invalid");;
  ensure (ReadTask_lifecycle task) (text_error "read task lifecycle is inconsistent").

Definition Evidence_Validate (evidence : Evidence) : Result unit :=
  ensure (validIdentifier (ev_ID evidence) 256 && validIdentifier (ev_WorkspaceID evidence) 256 &&
          validIdentifier (ev_IncidentID evidence) 256 && validIdentifier (ev_InvestigationID evidence) 256 &&
          validIdentifier (ev_TaskID evidence) 256 && ValidConnectorID (ev_ConnectorID evidence))
    (text_error "evidence identifiers are invalid");;
  wrapError "evidence payload" (validateHashedJSONObject (ev_Payload evidence) (ev_ContentHash evidence));;
  ValidateSafeAttributes (ev_Attributes evidence);;
  ensure (negb (IsZero (ev_CollectedAt evidence)) && negb (IsZero (ev_CreatedAt evidence)) &&
          negb (After (ev_CollectedAt evidence) (ev_CreatedAt evidence)))
    (text_error "evidence timestamps are invalid").

(** A line of text that is not empty, has no space around it and is safe. *)
Definition safeLine (limit : Z) (text : string) : bool :=
  (text != "") && (text == TrimSpace text) && (len text <=? limit) && ValidSafeText text.

Definition Hypothesis_Validate (hypothesis : HypothesisRecord) : Result unit :=
  ensure (validIdentifier (hyp_ID hypothesis) 256 && validIdentifier (hyp_WorkspaceID hypothesis) 256 &&
          validIdentifier (hyp_IncidentID hypothesis) 256 && validIdentifier (hyp_InvestigationID hypothesis) 256)
    (text_error "hypothesis identifiers are invalid");;
  ensure (knownHypothesisStatus (hyp_Status hypothesis)) (text_error "invalid hypothesis status");;
  ensure ((0 <? hyp_Rank hypothesis) && (hyp_Rank hypothesis <=? 100)) (text_error "hypothesis rank must be between 1 and 100");;
  ensure (negb (float_special (hyp_Confidence hypothesis)) && negb (float_negative (hyp_Confidence hypothesis)) &&
          negb (float_above_one (hyp_Confidence hypothesis)))
    (text_error "hypothesis confidence must be between 0 and 1");;
  ensure (safeLine 4096 (hyp_Summary hypothesis)) (text_error "hypothesis summary is invalid");;
  wrapError "hypothesis proposal" (validateHashedJSONObject (hyp_Proposal hypothesis) (hyp_ProposalHash hypothesis));;
  ensure (Z.of_nat (List.length (hyp_Unknowns hypothesis)) <=? 32) (text_error "hypothesis unknowns exceed limit");;
  ensure (forallb (safeLine 512) (hyp_Unknowns hypothesis)) (text_error "hypothesis unknown is invalid");;
  ensure ((0 <? Z.of_nat (List.length (hyp_EvidenceIDs hypothesis))) &&
          (Z.of_nat (List.length (hyp_EvidenceIDs hypothesis)) <=? 64))
    (text_error "hypothesis evidence IDs exceed limits");;
  ensure (forallb (fun id => validIdentifier id 256) (hyp_EvidenceIDs hypothesis)) (text_error "hypothesis evidence ID is invalid");;
  ensure (bool_decide (NoDup (hyp_EvidenceIDs hypothesis))) (text_error "hypothesis evidence IDs must be unique");;
  ensure (negb (IsZero (hyp_CreatedAt hypothesis))) (text_error "hypothesis creation time is required").

Definition Feedback_Validate (feedback : Feedback) : Result unit :=
  ensure (validIdentifier (fb_ID feedback) 256 && validIdentifier (fb_WorkspaceID feedback) 256 &&
          validIdentifier (fb_IncidentID feedback) 256 && validIdentifier (fb_InvestigationID feedback) 256 &&
          validIdentifier (fb_HypothesisID feedback) 256)
    (text_error "feedback identifiers are invalid");;
  ensure ((actor_Type (fb_Actor feedback) == ActorHuman) && validIdentifier (actor_ID (fb_Actor feedback)) 256)
    (text_error "feedback requires an authenticated human");;
  ensure (knownVerdict (fb_Verdict feedback)) (text_error "invalid feedback verdict");;
  wrapError "feedback details" (ValidateSafeJSONObject (fb_Details feedback));;
  ensure (negb (IsZero (fb_CreatedAt feedback))) (text_error "feedback creation time is required").

(** Both the incident and the hypothesis are changed, or neither. *)
Definition Incident_ConfirmRootCauseAt (hypothesis : HypothesisRecord) (actor : Actor) (now : Time) (incident : Incident)
    : Result (Incident * HypothesisRecord) :=
  ensure (passes (Incident_Validate incident)) (text_error "root cause confirmation requires a valid incident");;
  ensure (inc_ConfirmedHypothesisID incident == "") (text_error "incident already has a confirmed root cause");;
  ensure ((actor_Type actor == ActorHuman) && ValidResourceID (actor_ID actor))
    (text_error "root cause confirmation requires an authenticated human");;
  ensure (passes (Hypothesis_Validate hypothesis)) (text_error "root cause confirmation requires a valid hypothesis");;
  ensure (hyp_Status hypothesis == HypothesisProposed) (text_error "only a proposed hypothesis can be confirmed");;
  ensure ((hyp_WorkspaceID hypothesis == inc_WorkspaceID incident) && (hyp_IncidentID hypothesis == inc_ID incident))
    (text_error "hypothesis does not belong to this incident");;
  ensure (negb (IsZero now) && negb (Before now (inc_UpdatedAt incident)))
    (text_error "root cause confirmation time cannot move backward");;
  let hypothesisCandidate := {| hypothesis with hyp_Status := HypothesisConfirmed |} in
  let incidentCandidate := {| incident with inc_ConfirmedHypothesisID := hyp_ID hypothesis; inc_UpdatedAt := now;
                                            inc_Version := inc_Version incident + 1 |} in
  ensure (passes (Hypothesis_Validate hypothesisCandidate)) (text_error "root cause confirmation produced an invalid hypothesis");;
  ensure (passes (Incident_Validate incidentCandidate)) (text_error "root cause confirmation produced an invalid incident");;
  Ok (incidentCandidate, hypothesisCandidate).
End text.
