(* ===== verification/TaskSpecs.v ===== *)
(** * Task specifications and runtime bindings

    internal/investigation/task_specs.go and runtime_binding.go: the canonical form of the
    read tasks of a plan and its hash, the checks that keep the address of a target out of the
    input of a task, the authorisation of tasks by a trusted registry, and the digest that
    binds a task to its plan, scope and runtime.  The JSON canonicalizer is an argument, as are
    the answers of the authorizer and of the binder. *)

From S2P Require Import Prelude.
From S2P Require Import Sha256.
From S2P Require Import GoText.
From S2P Require Import GoStrings.
From S2P Require Import GoJson.
From S2P Require Import GoSort.
From S2P Require Import GoDecode.
From S2P Require Import GoRegexp.
From S2P Require Import GoUnicode.
From S2P Require Import SafeText.
From S2P Require Import InvestigationDomain.
From Stdlib Require Import Ascii String.

Open Scope Z_scope.

Definition ErrInvalidRequest := errors_New "investigation.ErrInvalidRequest".
Definition ErrInvalidTransition := errors_New "investigation.ErrInvalidTransition".

(** [fmt.Errorf("%w: text", ErrInvalidRequest)] *)
Definition invalid (text : string) : GoError := Errorf text ErrInvalidRequest.

Definition taskSpecsSemanticsV1 : string := "investigation.task-specs.v1".

Record TaskSpec := { spec_Key : string; spec_ConnectorID : string; spec_Operation : string; spec_Input : string }.

#[export] Instance TaskSpec_eq_dec : EqDecision TaskSpec.
Proof. solve_decision. Defined.

Record TaskSpecScope := {
  tss_TenantID : string; tss_WorkspaceID : string; tss_EnvironmentID : string; tss_ServiceID : string;
  tss_MappingStatus : MappingStatus
}.

Record TaskRuntimeComponents := { trc_ConnectorDigest : string; trc_TargetDigest : string; trc_ExecutorDigest : string }.

#[export] Instance TaskRuntimeComponents_eq_dec : EqDecision TaskRuntimeComponents.
Proof. solve_decision. Defined.

Definition TaskSpecScope_Validate (scope : TaskSpecScope) : Result unit :=
  ensure (ValidResourceID (tss_TenantID scope) && ValidResourceID (tss_WorkspaceID scope) &&
          ValidResourceID (tss_EnvironmentID scope) && ValidResourceID (tss_ServiceID scope) &&
          (tss_MappingStatus scope == MappingExact))
    (invalid "trusted task specification scope must be an exact incident mapping").

Definition Components_Validate (components : TaskRuntimeComponents) : Result unit :=
  ensure (ValidSHA256Hex (trc_ConnectorDigest components) && ValidSHA256Hex (trc_TargetDigest components) &&
          ValidSHA256Hex (trc_ExecutorDigest components))
    (invalid "task runtime components are invalid").

Definition taskKeyPattern (s : string) : bool := lowCardinalityPattern s && (len s <=? 64).

(** ** Target patterns *)

Definition hostRune (r : Z) : bool := lower_rune r || digit_rune r || rune_in ".-" r.
Definition hostPattern : Regexp :=
  Alt (Plus (Class_ (folded hostRune)))
      (Seq (Class_ (rune_is 91)) (Seq (Plus (Class_ (folded (fun r => digit_rune r || byte_in 97 102 r || (r =? 58)))))
        (Class_ (rune_is 93)))).
Definition portPattern : Regexp :=
  Seq (Class_ (rune_is 58)) (Seq (Class_ digit_rune) (Upto 4 (Class_ digit_rune))).

Definition targetURISchemePattern : Regexp :=
  Seq (Class_ (folded lower_rune)) (Seq (Star (Class_ (folded (fun r => lower_rune r || digit_rune r || rune_in "+.-" r))))
    (literal_fold "://")).

Definition targetSchemeRelativePattern : Regexp :=
  Seq (Alt TextBegin (Class_ (fun r => perl_space r || existsb (Z.eqb r) [34; 39; 40; 61])))
  (Seq (literal_fold "//")
  (Seq (Opt (Seq (Plus (Class_ (folded (fun r => lower_rune r || digit_rune r || rune_in "._~%!$&()*+,;=:-" r)))) (Class_ (rune_is 64))))
  (Seq hostPattern
  (Seq (Opt portPattern) (Alt (Class_ (rune_in "/#?")) TextEnd))))).

Definition targetHostPortPattern : Regexp :=
  Seq TextBegin (Seq hostPattern (Seq portPattern
    (Seq (Opt (Seq (Class_ (rune_in "/#?")) (Star (Class_ (fun r => negb (perl_space r)))))) TextEnd))).

(** Mark 2 is the start of the second group. *)
Definition targetAssignmentPattern : Regexp :=
  let gap := Star (Class_ (fun r => perl_space r || rune_in "_.-" r)) in
  Seq (Alt TextBegin (Class_ (folded (fun r => negb (lower_rune r || digit_rune r)))))
  (Seq (Mark 2)
  (Seq (any_of [Seq (literal_fold "host") (Opt (Seq gap (literal_fold "name"))); literal_fold "port"; literal_fold "dsn";
                literal_fold "endpoint"; literal_fold "url"; literal_fold "uri"; literal_fold "address";
                literal_fold "server"; literal_fold "target"; literal_fold "cluster"])
  (Seq gap (Seq (Class_ (rune_in ":=")) (Star (Class_ perl_space)))))).

Definition targetMetricIdentifierPattern (s : string) : bool :=
  head_tail (fun c => is_upper c || is_lower c || one_of_chars "_:" c) (fun c => is_alnum c || one_of_chars "_:" c) s.

(** ** Selectors *)

(** The offsets of the braces that are open, innermost first, after some bytes of a text. *)
Fixpoint selectorStarts (bytes : list Z) (index : nat) (quoted escaped : bool) (starts : list nat) : list nat :=
  match bytes with
  | [] => starts
  | current :: bytes =>
      if escaped then selectorStarts bytes (S index) quoted false starts
      else if quoted && (current =? 92) then selectorStarts bytes (S index) quoted true starts
      else if current =? 34 then selectorStarts bytes (S index) (negb quoted) escaped starts
      else if negb quoted && (current =? 123) then selectorStarts bytes (S index) quoted escaped (index :: starts)
      else if negb quoted && (current =? 125) then selectorStarts bytes (S index) quoted escaped (List.tl starts)
      else selectorStarts bytes (S index) quoted escaped starts
  end.

Definition isTaskMetricIdentifierByte (b : Z) : bool :=
  byte_in 97 122 b || byte_in 65 90 b || byte_in 48 57 b || (b =? 95) || (b =? 58).

Fixpoint take_while (p : Z -> bool) (bytes : list Z) : list Z :=
  match bytes with
  | b :: rest => if p b then b :: take_while p rest else []
  | [] => []
  end.

Definition insideAllowedTaskSelector (value : string) (position : nat) : bool :=
  let bytes := bytes_of_string value in
  match selectorStarts (take position bytes) 0 false false [] with
  | [] => false
  | O :: _ => true
  | start :: _ =>
      let before := skip_space (List.rev (take start bytes)) in
      targetMetricIdentifierPattern (string_of_bytes (List.rev (take_while isTaskMetricIdentifierByte before)))
  end.

Definition containsTaskTargetAssignment (value : string) : bool :=
  existsb (fun found =>
    let remaining := List.concat (List.map snd (pl_rest found)) in
    let selector := default 0%nat (List.find (fun mark => (mark.1 =? 2)%nat) (pl_marks found) ≫= fun mark => Some mark.2) in
    match remaining with
    | [] => false
    | _ => negb (insideAllowedTaskSelector value selector &&
                 match remaining with 34 :: _ | 126 :: 34 :: _ => true | _ => false end)
    end) (FindAll targetAssignmentPattern value).

Section text.
Context `{Unicode}.

Definition normalizeTaskFieldName (value : string) : string :=
  text_of_runes (List.map unicode_ToLower
    (List.filter (fun r => unicode_IsLetter r || unicode_IsDigit r) (List.map fst (runes value)))).

Definition forbiddenTaskFieldName (value : string) : bool :=
  let normalized := normalizeTaskFieldName value in
  existsb (eqb normalized)
    ["args"; "arguments"; "argv"; "env"; "environment"; "environmentvariables"; "command"; "cmd"; "options"; "flags"] ||
  existsb (Contains normalized)
    ["url"; "endpoint"; "header"; "auth"; "secret"; "token"; "password"; "credential"; "host"; "hostname"; "port"; "dsn";
     "uri"; "address"; "socket"; "proxy"; "server"; "target"; "cluster"; "destination"].

Definition containsTaskTargetCLIOption (value : string) : bool :=
  existsb (fun field => HasPrefix field "--" && forbiddenTaskFieldName (before_any "=" (TrimPrefix field "--"))) (Fields value).

Definition unsafeTaskTargetValue (value : string) : bool :=
  let trimmed := TrimSpace value in
  containsTaskTargetCLIOption trimmed || MatchString targetURISchemePattern trimmed ||
  MatchString targetSchemeRelativePattern trimmed || MatchString targetHostPortPattern trimmed ||
  containsTaskTargetAssignment trimmed.

(** [containsTaskTargetMaterialAt]; the key it passes along is not used. *)
Fixpoint containsTaskTargetMaterial (value : Value) : bool :=
  match value with
  | VObject members =>
      existsb (fun member =>
        let normalized := normalizeTaskFieldName member.1 in
        ((normalized == "name") || (normalized == "key")) &&
        match member.2 with VString name => forbiddenTaskFieldName name | _ => false end) members ||
      existsb (fun member => forbiddenTaskFieldName member.1 || containsTaskTargetMaterial member.2) members
  | VArray values => existsb containsTaskTargetMaterial values
  | VString item => unsafeTaskTargetValue item
  | _ => false
  end.

(** ** Canonical specifications *)

Context (Transform : string -> Result string).

Definition semanticRequestHash (schema : string) (value : Result Json) : Result string :=
  match value with
  | Err _ => Err (invalid "request semantics cannot be encoded")
  | Ok value =>
      match Transform (Marshal value) with
      | Err _ => Err (invalid "request semantics cannot be canonicalized")
      | Ok canonical => Ok (sha256_hex (schema +:+ String (ascii_of_Z 0) EmptyString +:+ canonical))
      end
  end.

Definition canonicalTaskSpec (spec : TaskSpec) (seen : list string) : Result TaskSpec :=
  ensure (taskKeyPattern (spec_Key spec) && ValidConnectorID (spec_ConnectorID spec) && ValidOperation (spec_Operation spec))
    (invalid "task key, connector and operation must be canonical");;
  ensure (bool_decide (spec_Key spec ∉ seen)) (invalid "duplicate task key");;
  ensure (passes (ValidateSafeJSONObject (spec_Input spec))) (invalid "unsafe task input");;
  match unmarshalObject (spec_Input spec) with
  | None => Err (invalid "invalid task input")
  | Some object =>
      ensure (negb (containsTaskTargetMaterial (VObject object)))
        (invalid "task input contains connection or credential material");;
      match Transform (spec_Input spec) with
      | Err _ => Err (invalid "task input cannot be canonicalized")
      | Ok encoded => Ok {| spec with spec_Input := encoded |}
      end
  end.

Fixpoint canonicalTaskSpecs (specs : list TaskSpec) (seen : list string) : Result (list TaskSpec) :=
  match specs with
  | [] => Ok []
  | spec :: specs =>
      canonical ← canonicalTaskSpec spec seen;
      others ← canonicalTaskSpecs specs (spec_Key spec :: seen);
      Ok (canonical :: others)
  end.

Definition taskSpecLess (left right : TaskSpec) : bool :=
  if spec_Key left != spec_Key right then String.ltb (spec_Key left) (spec_Key right)
  else if spec_ConnectorID left != spec_ConnectorID right then String.ltb (spec_ConnectorID left) (spec_ConnectorID right)
  else if spec_Operation left != spec_Operation right then String.ltb (spec_Operation left) (spec_Operation right)
  else String.ltb (spec_Input left) (spec_Input right).

(** Go sequences results: a list of encodings, or the first error. *)
Fixpoint sequence {A} (rs : list (Result A)) : Result (list A) :=
  match rs with
  | [] => Ok []
  | r :: rs => a ← r; others ← sequence rs; Ok (a :: others)
  end.

Definition json_taskSpec (spec : TaskSpec) : Result Json :=
  input ← marshalRaw (spec_Input spec);
  Ok (JObject [("Key", JString (spec_Key spec)); ("ConnectorID", JString (spec_ConnectorID spec));
               ("Operation", JString (spec_Operation spec)); ("Input", input)]).

Definition CanonicalTaskSpecs (specs : list TaskSpec) : Result (list TaskSpec * string) :=
  ensure (negb (List.length specs =? 0)%nat && (List.length specs <=? 12)%nat) (invalid "task count must be between 1 and 12");;
  canonical ← canonicalTaskSpecs specs [];
  let canonical := sort_Slice taskSpecLess canonical in
  hash ← semanticRequestHash taskSpecsSemanticsV1 (encoded ← sequence (List.map json_taskSpec canonical); Ok (JArray encoded));
  Ok (canonical, hash).

(** ** Authorisation and binding

    [ctx] gives the successive readings of [ctx.Err()], of which [reading] is the next. *)

Fixpoint authorizeEach (ctx : nat -> option GoError) (reading : nat) (authorizer : TaskSpecScope -> TaskSpec -> option GoError)
    (scope : TaskSpecScope) (specs : list TaskSpec) : Result unit :=
  match specs with
  | [] => Ok tt
  | spec :: specs =>
      match authorizer scope spec, ctx reading with
      | _, Some e => Err e
      | Some _, None => Err (invalid "task specification is not authorized")
      | None, None => authorizeEach ctx (S reading) authorizer scope specs
      end
  end.

Definition AuthorizeTaskSpecs (ctx : nat -> option GoError) (reading : nat)
    (authorizer : TaskSpecScope -> TaskSpec -> option GoError) (scope : TaskSpecScope) (specs : list TaskSpec) : Result unit :=
  match ctx reading with
  | Some e => Err e
  | None => TaskSpecScope_Validate scope;; authorizeEach ctx (S reading) authorizer scope specs
  end.

Definition sameCanonicalTaskSpecs (canonical original : list TaskSpec) : bool := canonical == original.

Definition validateRuntimeDigestInput (scope : TaskSpecScope) (plan : InvestigationPlanBinding) (spec : TaskSpec)
    (position : Z) (components : TaskRuntimeComponents) : Result TaskSpec :=
  ensure (passes (TaskSpecScope_Validate scope) && passes (PlanBinding_Validate plan) && (1 <=? position) &&
          (position <=? 12) && passes (Components_Validate components))
    (invalid "runtime binding facts are invalid");;
  match CanonicalTaskSpecs [spec] with
  | Ok ([canonical], _) =>
      ensure (canonical == spec) (invalid "runtime binding task must be canonical");;
      ensure (ConnectorDigestMatchesID (spec_ConnectorID spec) (trc_ConnectorDigest components))
        (invalid "runtime connector digest does not match its content-addressed ID");;
      Ok canonical
  | _ => Err (invalid "runtime binding task must be canonical")
  end.

Definition mappingText (status : MappingStatus) : string :=
  match status with
  | MappingExact => "EXACT"
  | MappingAmbiguous => "AMBIGUOUS"
  | MappingUnresolved => "UNRESOLVED"
  | MappingOther text => text
  end.

Definition ReadTaskRuntimeDigest (scope : TaskSpecScope) (plan : InvestigationPlanBinding) (spec : TaskSpec)
    (position : Z) (components : TaskRuntimeComponents) : Result string :=
  canonical ← validateRuntimeDigestInput scope plan spec position components;
  semanticRequestHash ReadTaskRuntimeBindingSchemaVersion (Ok (JObject [
    ("registry_digest", JString (ipb_RegistryDigest plan));
    ("scope", JObject [
      ("tenant_id", JString (tss_TenantID scope)); ("workspace_id", JString (tss_WorkspaceID scope));
      ("environment_id", JString (tss_EnvironmentID scope)); ("service_id", JString (tss_ServiceID scope));
      ("mapping_status", JString (mappingText (tss_MappingStatus scope)))]);
    ("task", JObject [
      ("key", JString (spec_Key canonical)); ("position", JInt position); ("connector_id", JString (spec_ConnectorID canonical));
      ("operation", JString (spec_Operation canonical)); ("input_hash", JString (sha256_hex (spec_Input canonical)))]);
    ("components", JObject [
      ("connector_digest", JString (trc_ConnectorDigest components));
      ("target_digest", JString (trc_TargetDigest components));
      ("executor_digest", JString (trc_ExecutorDigest components))])])).

Definition BuildReadTaskRuntimeBinding (scope : TaskSpecScope) (plan : InvestigationPlanBinding) (spec : TaskSpec)
    (position : Z) (components : TaskRuntimeComponents) (boundAt : Time) : Result ReadTaskRuntimeBinding :=
  runtimeDigest ← ReadTaskRuntimeDigest scope plan spec position components;
  let binding := {| rtb_SchemaVersion := ReadTaskRuntimeBindingSchemaVersion;
                    rtb_ConnectorDigest := trc_ConnectorDigest components; rtb_TargetDigest := trc_TargetDigest components;
                    rtb_ExecutorDigest := trc_ExecutorDigest components; rtb_RuntimeDigest := runtimeDigest;
                    rtb_BoundAt := boundAt |} in
  ensure (passes (RuntimeBinding_Validate binding)) (invalid "repository runtime binding time is invalid");;
  Ok binding.

Definition context_Canceled := errors_New "context.Canceled".
Definition context_DeadlineExceeded := errors_New "context.DeadlineExceeded".

(** The answer of the binder: a value, an error, or [None] for a panic. *)
Definition Binder : Type :=
  TaskSpecScope -> InvestigationPlanBinding -> TaskSpec -> option (Result TaskRuntimeComponents).

Fixpoint bindEach (ctx : nat -> option GoError) (reading : nat) (binder : Binder) (scope : TaskSpecScope)
    (plan : InvestigationPlanBinding) (specs : list TaskSpec) (position : Z) : Result (list TaskRuntimeComponents) :=
  match specs with
  | [] => Ok []
  | spec :: specs =>
      match binder scope plan spec with
      | None => Err (invalid "task runtime binding rejected")
      | Some (Err bindErr) =>
          if decide (errors_Is bindErr context_Canceled) then Err context_Canceled
          else if decide (errors_Is bindErr context_DeadlineExceeded) then Err context_DeadlineExceeded
          else match ctx reading with
               | Some e => Err e
               | None => Err (invalid "task runtime binding rejected")
               end
      | Some (Ok components) =>
          match ctx reading with
          | Some e => Err e
          | None =>
              ensure (passes (Components_Validate components)) (invalid "task runtime binding rejected");;
              match ReadTaskRuntimeDigest scope plan spec position components with
              | Err _ => Err (invalid "task runtime binding rejected")
              | Ok _ =>
                  others ← bindEach ctx (S reading) binder scope plan specs (position + 1);
                  Ok (components :: others)
              end
          end
      end
  end.

Definition ResolveTaskRuntimeComponents (ctx : nat -> option GoError) (reading : nat) (binder : Binder)
    (scope : TaskSpecScope) (plan : InvestigationPlanBinding) (specs : list TaskSpec) : Result (list TaskRuntimeComponents) :=
  ensure (passes (TaskSpecScope_Validate scope) && passes (PlanBinding_Validate plan))
    (invalid "trusted task runtime binder is required");;
  match ctx reading with
  | Some e => Err e
  | None =>
      match CanonicalTaskSpecs specs with
      | Err _ => Err (invalid "task runtime binding set is invalid")
      | Ok (canonical, tasksHash) =>
          ensure ((tasksHash == ipb_TasksHash plan) && sameCanonicalTaskSpecs canonical specs)
            (invalid "task runtime binding set is invalid");;
          bindEach ctx (S reading) binder scope plan canonical 1
      end
  end.
End text.

(** ** Examples *)

Definition ascii_safe (value : string) : bool := negb (@unsafeTaskTargetValue AsciiTables value).

Example target_values :
  List.map ascii_safe
    ["rate of errors"; "see HTTPS://x"; "go //host/path"; "a//b"; "db.internal:5432"; "10:30"; "host = a"; "ghost=a";
     "--target x"; "--verbose x"; "up{cluster=" +:+ quote +:+ "a" +:+ quote +:+ "}"; "x y{cluster=a}"; "endpoint:"]%string
  = [true; false; false; true; false; false; false; true; false; true; true; false; true].
Proof. vm_compute. reflexivity. Qed.
