(* ===== verification/InvestigationRequests.v ===== *)
(** * Requests of the investigation repository

    internal/investigation: the requests and results of repository.go, their normal form and
    semantic hash (request_semantics.go), the admission of signals (signal_semantics.go), and
    the identity of a registered signal (registered_signal.go, signal_snapshot.go). *)

From S2P Require Import Prelude.
From S2P Require Import Sha256.
From S2P Require Import GoText.
From S2P Require Import GoStrings.
From S2P Require Import GoJson.
From S2P Require Import GoSort.
From S2P Require Import GoDecode.
From S2P Require Import GoUnicode.
From S2P Require Import GoFloat.
From S2P Require Import SafeText.
From S2P Require Import InvestigationDomain.
From S2P Require Import TaskSpecs.
From Stdlib Require Import Ascii String.

Open Scope Z_scope.

(** ** Requests and results *)

Record CorrelateSignalRequest := {
  csr_WorkspaceID : string; csr_SignalID : string; csr_ExpectedSignalHash : string; csr_CorrelationKey : string;
  csr_ServiceID : string; csr_EnvironmentID : string; csr_MappingStatus : MappingStatus
}.

(** The zero value of [Incident] in a result is [None]. *)
Record CorrelateSignalResult := {
  csa_Incident : option Incident; csa_Created : bool; csa_Associated : bool; csa_Counted : bool
}.

Record CreateOrGetInvestigationRequest := {
  cir_WorkspaceID : string; cir_IncidentID : string; cir_IdempotencyKey : string;
  cir_PlanBinding : InvestigationPlanBinding; cir_Tasks : list TaskSpec
}.

Record CreateOrGetInvestigationResult := {
  cia_Investigation : Investigation; cia_Tasks : list ReadTask; cia_Created : bool
}.

Record EvidenceInput := {
  ei_Payload : string; ei_ContentHash : string; ei_Attributes : option (gmap string string); ei_CollectedAt : Time
}.

Record CompleteTaskRequest := {
  ctr_WorkspaceID : string; ctr_InvestigationID : string; ctr_TaskID : string; ctr_RunnerID : string;
  ctr_IdempotencyKey : string; ctr_Status : ReadTaskStatus; ctr_Evidence : option EvidenceInput; ctr_FailureCode : string
}.

Record CompleteTaskResult := {
  cta_Task : ReadTask; cta_Evidence : option Evidence; cta_Receipt : RunnerEvidenceReceipt; cta_Replayed : bool
}.

Record HypothesisSpec := {
  hs_Rank : Z; hs_Confidence : Float64; hs_Summary : string; hs_Proposal : string; hs_ProposalHash : string;
  hs_Unknowns : list string; hs_EvidenceIDs : list string
}.

Record FinalizeInvestigationRequest := {
  fir_WorkspaceID : string; fir_InvestigationID : string; fir_IdempotencyKey : string; fir_Status : InvestigationStatus;
  fir_ModelStatus : ModelStatus; fir_FailureCode : string; fir_ModelFailureCode : string; fir_Hypotheses : list HypothesisSpec
}.

Record FinalizeInvestigationResult := {
  fia_Investigation : Investigation; fia_Hypotheses : list HypothesisRecord; fia_Replayed : bool
}.

Record FailInvestigationRequest := {
  fail_WorkspaceID : string; fail_InvestigationID : string; fail_IdempotencyKey : string; fail_FailureCode : string
}.

Record FailInvestigationResult := { faila_Investigation : Investigation; faila_Replayed : bool }.

Record StartModelRequest := { smr_WorkspaceID : string; smr_InvestigationID : string; smr_IdempotencyKey : string }.

Record StartModelResult := { sma_Investigation : Investigation; sma_Replayed : bool }.

Record RecordFeedbackRequest := {
  rfr_WorkspaceID : string; rfr_IncidentID : string; rfr_InvestigationID : string; rfr_HypothesisID : string;
  rfr_Actor : Actor; rfr_Verdict : FeedbackVerdict; rfr_Details : string; rfr_IdempotencyKey : string
}.

Record RecordFeedbackResult := { rfa_Feedback : Feedback; rfa_Created : bool }.

Record RegisteredSignal := { rs_TenantID : string; rs_WorkspaceID : string; rs_Signal : Signal }.

(** ** Texts of the enumerations *)

Definition readTaskStatusText (status : ReadTaskStatus) : string :=
  match status with
  | ReadTaskQueued => "QUEUED" | ReadTaskRunning => "RUNNING" | ReadTaskEvidence => "EVIDENCE"
  | ReadTaskFailed => "FAILED" | ReadTaskCancelled => "CANCELLED" | ReadTaskOther text => text
  end.
Definition investigationStatusText (status : InvestigationStatus) : string :=
  match status with
  | InvestigationQueued => "QUEUED" | InvestigationRunning => "RUNNING" | InvestigationPartial => "PARTIAL"
  | InvestigationCompleted => "COMPLETED" | InvestigationFailed => "FAILED" | InvestigationCancelled => "CANCELLED"
  | InvestigationOther text => text
  end.
Definition modelStatusText (status : ModelStatus) : string :=
  match status with
  | ModelPending => "PENDING" | ModelRunning => "RUNNING" | ModelCompleted => "COMPLETED" | ModelFailed => "FAILED"
  | ModelSkipped => "SKIPPED" | ModelCancelled => "CANCELLED" | ModelOther text => text
  end.
Definition verdictText (verdict : FeedbackVerdict) : string :=
  match verdict with
  | FeedbackConfirmed => "CONFIRMED" | FeedbackRejected => "REJECTED" | FeedbackInconclusive => "INCONCLUSIVE"
  | FeedbackOther text => text
  end.
Definition actorTypeText (type : ActorType) : string :=
  match type with
  | ActorHuman => "HUMAN" | ActorModel => "MODEL" | ActorWorkload => "WORKLOAD" | ActorOther text => text
  end.

(** A map of strings, its keys in order. *)
Definition json_map (m : gmap string string) : Json :=
  JObject (sort_Slice (fun left right => String.ltb left.1 right.1)
    ((fun '(key, value) => (key, JString value)) <$> map_to_list m)).

(** ** Signals *)

Definition MaxSignalFutureSkew : Duration := 5 * Minute.
Definition maxSignalLabels : Z := 64.
Definition maxSignalLabelValue : Z := 512.

Definition signalLabelKeyPattern (s : string) : bool :=
  head_tail is_alnum (fun c => is_alnum c || one_of_chars "_.:/@-" c) s && (len s <=? 128).

Definition ValidPersistentSignalID (value : string) : bool := uuidPattern value.

Definition ValidateNewSignalTime (signal : Signal) (trustedNow : Time) : Result unit :=
  ensure (negb (IsZero trustedNow || IsZero (sig_ObservedAt signal) ||
                After (sig_ObservedAt signal) (Add trustedNow MaxSignalFutureSkew)))
    (invalid "invalid signal").

(** ** Finalization *)

Definition validFinalizationSemantics (status : InvestigationStatus) (modelStatus : ModelStatus)
    (failureCode modelFailureCode : string) (hypothesisCount : nat) : bool :=
  match status with
  | InvestigationCompleted | InvestigationPartial =>
      match modelStatus with
      | ModelCompleted => (failureCode == "") && (modelFailureCode == "") && negb (hypothesisCount =? 0)%nat
      | ModelFailed => (failureCode == "") && ValidFailureCode modelFailureCode && (hypothesisCount =? 0)%nat
      | ModelSkipped => (failureCode == "") && (modelFailureCode == "") && (hypothesisCount =? 0)%nat
      | _ => false
      end
  | InvestigationCancelled =>
      (modelStatus == ModelCancelled) && ValidFailureCode failureCode && (modelFailureCode == "") && (hypothesisCount =? 0)%nat
  | _ => false
  end.

(** Ranks in a sorted list that differ from their neighbours. *)
Fixpoint distinctRanks (specs : list HypothesisSpec) : bool :=
  match specs with
  | spec :: (next :: _) as rest => negb (hs_Rank spec =? hs_Rank next) && distinctRanks rest
  | _ => true
  end.

Section requests.
Context `{Unicode} (Transform : string -> Result string).

(** Rounding strips the monotonic reading of the instant and the labels are copied: the
    normal form of a signal is the signal. *)
Definition NormalizeSignalForReplay (signal : Signal) : Result Signal :=
  ensure (passes (Signal_Validate signal) && ValidResourceID (sig_WorkspaceID signal) && ValidResourceID (sig_ID signal) &&
          ValidResourceID (sig_IntegrationID signal) && ValidSHA256Hex (sig_PayloadHash signal) &&
          (Z.of_nat (size (sig_Labels signal)) <=? maxSignalLabels))
    (invalid "invalid signal");;
  ensure (forallb (fun '(key, value) => signalLabelKeyPattern key && (len value <=? maxSignalLabelValue) &&
                     ValidSafeMetadata key value) (map_to_list (sig_Labels signal)))
    (invalid "invalid signal");;
  Ok signal.

Definition RegisteredSignal_Validate (registered : RegisteredSignal) : Result unit :=
  ensure (ValidPersistentSignalID (rs_TenantID registered) && ValidPersistentSignalID (rs_WorkspaceID registered) &&
          (sig_WorkspaceID (rs_Signal registered) == rs_WorkspaceID registered))
    ErrInvalidRequest;;
  match NormalizeSignalForReplay (rs_Signal registered) with
  | Ok _ => Ok tt
  | Err _ => Err ErrInvalidRequest
  end.

Definition registeredSignalSnapshotSemanticsV1 : string := "investigation.registered-signal-snapshot.v1".

Definition RegisteredSignalSnapshotHash (registered : RegisteredSignal) : Result string :=
  match RegisteredSignal_Validate registered, NormalizeSignalForReplay (rs_Signal registered) with
  | Ok _, Ok normalized =>
      semanticRequestHash Transform registeredSignalSnapshotSemanticsV1 (
        observedAt ← marshalTime (UTC (sig_ObservedAt normalized));
        Ok (JObject [
          ("tenant_id", JString (rs_TenantID registered)); ("id", JString (sig_ID normalized));
          ("workspace_id", JString (rs_WorkspaceID registered)); ("integration_id", JString (sig_IntegrationID normalized));
          ("provider", JString (sig_Provider normalized)); ("provider_event_id", JString (sig_ProviderEventID normalized));
          ("payload_hash", JString (sig_PayloadHash normalized)); ("fingerprint", JString (sig_Fingerprint normalized));
          ("status", JString (sig_Status normalized)); ("labels", json_map (sig_Labels normalized));
          ("observed_at", observedAt)]))
  | _, _ => Err ErrInvalidRequest
  end.

(** ** Creation *)

Definition json_planBinding (binding : InvestigationPlanBinding) : Json :=
  JObject [("schema_version", JString (ipb_SchemaVersion binding)); ("manifest_digest", JString (ipb_ManifestDigest binding));
           ("registry_digest", JString (ipb_RegistryDigest binding)); ("profile_digest", JString (ipb_ProfileDigest binding));
           ("tasks_hash", JString (ipb_TasksHash binding))].

Definition CreateOrGetInvestigationRequestHash (request : CreateOrGetInvestigationRequest) (taskSpecsHash : string) : Result string :=
  ensure (ValidSHA256Hex taskSpecsHash && passes (PlanBinding_Validate (cir_PlanBinding request)) &&
          (ipb_TasksHash (cir_PlanBinding request) == taskSpecsHash))
    (invalid "invalid canonical task specification hash");;
  semanticRequestHash Transform "investigation.create.v2" (Ok (JObject [
    ("incident_id", JString (cir_IncidentID request)); ("task_specs_hash", JString taskSpecsHash);
    ("plan_binding", json_planBinding (cir_PlanBinding request))])).

(** ** Completion of a task *)

Definition validEvidenceInput (evidence : EvidenceInput) : bool :=
  negb (IsZero (ei_CollectedAt evidence)) && ValidSHA256Hex (ei_ContentHash evidence) &&
  passes (ValidateSafeJSONObject (ei_Payload evidence)) && (sha256_hex (ei_Payload evidence) == ei_ContentHash evidence) &&
  passes (ValidateSafeAttributes (ei_Attributes evidence)).

Definition json_evidenceInput (evidence : EvidenceInput) : Result Json :=
  payload ← marshalRaw (ei_Payload evidence);
  collectedAt ← marshalTime (UTC (ei_CollectedAt evidence));
  Ok (JObject [("Payload", payload); ("ContentHash", JString (ei_ContentHash evidence));
               ("Attributes", match ei_Attributes evidence with Some m => json_map m | None => JNull end);
               ("CollectedAt", collectedAt)]).

(** Cloning changes nothing: the normal form is the request. *)
Definition NormalizeCompleteTaskRequest (request : CompleteTaskRequest) : Result (CompleteTaskRequest * string) :=
  (match ctr_Status request with
   | ReadTaskEvidence =>
       ensure (match ctr_Evidence request with Some evidence => validEvidenceInput evidence | None => false end &&
               (ctr_FailureCode request == "")) (invalid "invalid evidence completion body")
   | ReadTaskFailed | ReadTaskCancelled =>
       ensure (negb (if ctr_Evidence request is Some _ then true else false) && ValidFailureCode (ctr_FailureCode request))
         (invalid "invalid failed task completion body")
   | _ => Err (invalid "invalid task completion status")
   end);;
  requestHash ← semanticRequestHash Transform "investigation.complete-task.v1" (
    evidence ← (match ctr_Evidence request with
                | Some evidence => encoded ← json_evidenceInput evidence; Ok [("evidence", encoded)]
                | None => Ok []
                end : Result (list (string * Json)));
    Ok (JObject ([("investigation_id", JString (ctr_InvestigationID request)); ("task_id", JString (ctr_TaskID request));
                  ("runner_id", JString (ctr_RunnerID request)); ("status", JString (readTaskStatusText (ctr_Status request)))]
                 ++ evidence ++ omitempty "failure_code" (ctr_FailureCode request))%list));
  Ok (request, requestHash).

(** ** Finalization of an investigation *)

(** The hypothesis a specification is validated as. *)
Definition validationCandidate (spec : HypothesisSpec) : HypothesisRecord := {|
  hyp_ID := "validation"; hyp_WorkspaceID := "validation"; hyp_IncidentID := "validation"; hyp_InvestigationID := "validation";
  hyp_Status := HypothesisProposed; hyp_Rank := hs_Rank spec; hyp_Confidence := hs_Confidence spec;
  hyp_Summary := hs_Summary spec; hyp_Proposal := hs_Proposal spec; hyp_ProposalHash := hs_ProposalHash spec;
  hyp_Unknowns := hs_Unknowns spec; hyp_EvidenceIDs := hs_EvidenceIDs spec; hyp_CreatedAt := 62135596801 * Second
|}.

Definition normalizeHypothesisSpecs (specs : list HypothesisSpec) : Result (list HypothesisSpec) :=
  ensure (List.length specs <=? 20)%nat (invalid "hypothesis count exceeds limit");;
  ensure (forallb (fun spec => passes (Hypothesis_Validate (validationCandidate spec))) specs) (invalid "invalid hypothesis body");;
  let normalized := sort_Slice (fun left right => hs_Rank left <? hs_Rank right) specs in
  ensure (distinctRanks normalized) (invalid "hypothesis ranks must be unique");;
  Ok normalized.

Definition json_hypothesisSpec (spec : HypothesisSpec) : Result Json :=
  confidence ← marshalFloat (hs_Confidence spec);
  proposal ← marshalRaw (hs_Proposal spec);
  Ok (JObject [("Rank", JInt (hs_Rank spec)); ("Confidence", confidence); ("Summary", JString (hs_Summary spec));
               ("Proposal", proposal); ("ProposalHash", JString (hs_ProposalHash spec));
               ("Unknowns", JArray (JString <$> hs_Unknowns spec));
               ("EvidenceIDs", match hs_EvidenceIDs spec with [] => JNull | ids => JArray (JString <$> ids) end)]).

Definition NormalizeFinalizeInvestigationRequest (request : FinalizeInvestigationRequest)
    : Result (FinalizeInvestigationRequest * string) :=
  ensure (validFinalizationSemantics (fir_Status request) (fir_ModelStatus request) (fir_FailureCode request)
            (fir_ModelFailureCode request) (List.length (fir_Hypotheses request)))
    (invalid "invalid investigation finalization body");;
  hypotheses ← normalizeHypothesisSpecs (fir_Hypotheses request);
  requestHash ← semanticRequestHash Transform "investigation.finalize.v1" (
    encoded ← sequence (List.map json_hypothesisSpec hypotheses);
    Ok (JObject ([("investigation_id", JString (fir_InvestigationID request));
                  ("status", JString (investigationStatusText (fir_Status request)));
                  ("model_status", JString (modelStatusText (fir_ModelStatus request)))]
                 ++ omitempty "failure_code" (fir_FailureCode request)
                 ++ omitempty "model_failure_code" (fir_ModelFailureCode request)
                 ++ [("hypotheses", JArray encoded)])%list));
  Ok ({| request with fir_Hypotheses := hypotheses |}, requestHash).

(** ** Feedback, model and failure *)

Definition NormalizeRecordFeedbackRequest (request : RecordFeedbackRequest) : Result (RecordFeedbackRequest * string) :=
  ensure (actor_Type (rfr_Actor request) == ActorHuman) (invalid "feedback requires a human actor");;
  ensure (knownVerdict (rfr_Verdict request)) (invalid "invalid feedback verdict");;
  ensure (passes (ValidateSafeJSONObject (rfr_Details request))) (invalid "invalid feedback details");;
  match Transform (rfr_Details request) with
  | Err _ => Err (invalid "feedback details cannot be canonicalized")
  | Ok canonicalDetails =>
      requestHash ← semanticRequestHash Transform "investigation.feedback.v1" (
        details ← marshalRaw canonicalDetails;
        Ok (JObject [
          ("incident_id", JString (rfr_IncidentID request)); ("investigation_id", JString (rfr_InvestigationID request));
          ("hypothesis_id", JString (rfr_HypothesisID request));
          ("actor", JObject [("Type", JString (actorTypeText (actor_Type (rfr_Actor request))));
                             ("ID", JString (actor_ID (rfr_Actor request)))]);
          ("verdict", JString (verdictText (rfr_Verdict request))); ("details", details)]));
      Ok ({| request with rfr_Details := canonicalDetails |}, requestHash)
  end.

Definition StartModelRequestHash (request : StartModelRequest) : Result string :=
  semanticRequestHash Transform "investigation.start-model.v1" (Ok (JObject [
    ("investigation_id", JString (smr_InvestigationID request))])).

Definition FailInvestigationRequestHash (request : FailInvestigationRequest) : Result string :=
  ensure (ValidFailureCode (fail_FailureCode request)) (invalid "invalid investigation failure body");;
  semanticRequestHash Transform "investigation.fail.v1" (Ok (JObject [
    ("investigation_id", JString (fail_InvestigationID request)); ("failure_code", JString (fail_FailureCode request))])).
End requests.
