(* ===== verification/StoreErrors.v ===== *)
(** * The errors of internal/store/store.go, which the in-memory repositories share *)

From S2P Require Import Prelude.

Definition ErrIdempotencyConflict := errors_New "store.ErrIdempotencyConflict".
Definition ErrNotFound := errors_New "store.ErrNotFound".
Definition ErrScopeViolation := errors_New "store.ErrScopeViolation".
Definition ErrStaleClaim := errors_New "store.ErrStaleClaim".
Definition ErrInvalidOutboxClaim := errors_New "store.ErrInvalidOutboxClaim".
