(* ===== verification/InvestigationRepository.v ===== *)
(** * The investigation repository

    internal/investigation/memory: signals are registered and correlated to incidents; an
    investigation of an incident is created with its read tasks, collects evidence as the
    tasks complete, runs the model, and is finalized with hypotheses or failed; people confirm
    or reject hypotheses.  A method that changes state holds the lock from its first read that
    matters to its last write and is a handler.  [RegisterSignal], [CorrelateSignal] and
    [CreateOrGetInvestigation] first look under the read lock: [between] is what other callers
    do to the repository before the method has the write lock.  The clock, the ID factory
    (as the sequence of its answers), the tenant resolver, the task authorizer and the runtime
    binder are arguments of a call. *)

From S2P Require Import Prelude.
From S2P Require Import Sha256.
From S2P Require Import GoText.
From S2P Require Import GoUnicode.
From S2P Require Import GoSort.
From S2P Require Import SafeText.
From S2P Require Import InvestigationDomain.
From S2P Require Import TaskSpecs.
From S2P Require Import InvestigationRequests.
From S2P Require Import StoreErrors.

Open Scope Z_scope.

(** ** State *)

(** Workspace and resource. *)
Abbreviation scopeKey := (string * string)%type (only parsing).
Definition scoped (workspaceID id : string) : scopeKey := (workspaceID, id).

Record idempotencyRecord := { idem_requestHash : string; idem_resourceID : string }.

Record signalAssociationRecord := {
  assoc_incidentID : string; assoc_correlationKey : string; assoc_mappingStatus : MappingStatus;
  assoc_serviceID : string; assoc_environmentID : string
}.

Definition assoc_matches (record : signalAssociationRecord) (request : CorrelateSignalRequest) : bool :=
  (assoc_correlationKey record == csr_CorrelationKey request) && (assoc_mappingStatus record == csr_MappingStatus request) &&
  (assoc_serviceID record == csr_ServiceID request) && (assoc_environmentID record == csr_EnvironmentID request).

Record taskCompletionRecord := { tc_requestHash : string; tc_taskID : string; tc_evidenceID : string; tc_receiptID : string }.
Record finalizeRecord := { fin_requestHash : string; fin_result : FinalizeInvestigationResult }.
Record modelStartRecord := { ms_requestHash : string; ms_result : StartModelResult }.

Record Repository := {
  signals : gmap scopeKey Signal;
  signalTenants : gmap scopeKey string;
  incidents : gmap scopeKey Incident;
  activeIncidentByCorrelation : gmap scopeKey string;
  signalIncident : gmap scopeKey signalAssociationRecord;
  investigations : gmap scopeKey Investigation;
  tasks : gmap scopeKey ReadTask;
  taskIDsByInvestigation : gmap scopeKey (list string);
  activeInvestigation : gmap scopeKey string;
  investigationIdempotency : gmap scopeKey idempotencyRecord;
  evidence : gmap scopeKey Evidence;
  evidenceIDsByInvestigation : gmap scopeKey (list string);
  receipts : gmap scopeKey RunnerEvidenceReceipt;
  taskCompletionIdempotency : gmap scopeKey taskCompletionRecord;
  hypotheses : gmap scopeKey HypothesisRecord;
  hypothesisIDsByInvestigation : gmap scopeKey (list string);
  finalizeIdempotency : gmap scopeKey finalizeRecord;
  failureIdempotency : gmap scopeKey idempotencyRecord;
  feedback : gmap scopeKey Feedback;
  feedbackIdempotency : gmap scopeKey idempotencyRecord;
  modelStartIdempotency : gmap scopeKey modelStartRecord;
  idempotencyOwners : gmap scopeKey string
}.

(** [New] *)
Definition Repository_empty : Repository := {|
  signals := ∅; signalTenants := ∅; incidents := ∅; activeIncidentByCorrelation := ∅; signalIncident := ∅;
  investigations := ∅; tasks := ∅; taskIDsByInvestigation := ∅; activeInvestigation := ∅; investigationIdempotency := ∅;
  evidence := ∅; evidenceIDsByInvestigation := ∅; receipts := ∅; taskCompletionIdempotency := ∅; hypotheses := ∅;
  hypothesisIDsByInvestigation := ∅; finalizeIdempotency := ∅; failureIdempotency := ∅; feedback := ∅;
  feedbackIdempotency := ∅; modelStartIdempotency := ∅; idempotencyOwners := ∅
|}.

(** ** Helpers *)

(** [_, exists := m[k]] *)
Definition present {A : Type} (o : option A) : bool := if o is Some _ then true else false.

Definition newID (id : string) : Result string :=
  ensure (ValidResourceID id) (invalid "ID factory returned invalid ID");; Ok id.

Definition validResourceScope (workspaceID : string) (resourceIDs : list string) : bool :=
  ValidResourceID workspaceID && forallb ValidResourceID resourceIDs.

Definition idempotencyOwnerMatches (key : scopeKey) (operation : string) (s : Repository) : bool :=
  match idempotencyOwners s !! key with
  | Some owner => owner == operation
  | None => true
  end.

Definition bindIdempotencyOwner (key : scopeKey) (operation : string) (s : Repository) : Repository :=
  {| s with idempotencyOwners := <[key := operation]> (idempotencyOwners s) |}.

Definition latestTime (times : list Time) : Time :=
  foldl (fun latest candidate => if After candidate latest then candidate else latest) 0 times.

Definition laterTime (left right : Time) : Time := if After right left then right else left.

Definition taskIDsOf (workspaceID investigationID : string) (s : Repository) : list string :=
  default [] (taskIDsByInvestigation s !! scoped workspaceID investigationID).
Definition evidenceIDsOf (workspaceID investigationID : string) (s : Repository) : list string :=
  default [] (evidenceIDsByInvestigation s !! scoped workspaceID investigationID).
Definition hypothesisIDsOf (workspaceID investigationID : string) (s : Repository) : list string :=
  default [] (hypothesisIDsByInvestigation s !! scoped workspaceID investigationID).

(** A loop over the resources of a list of IDs: [ErrNotFound] for one that is missing, else
    what the body makes of each. *)
Fixpoint visit {A B : Type} (m : gmap scopeKey A) (workspaceID : string) (body : A -> Result B) (ids : list string) : Result (list B) :=
  match ids with
  | [] => Ok []
  | id :: ids =>
      match m !! scoped workspaceID id with
      | None => Err ErrNotFound
      | Some a => b ← body a; others ← visit m workspaceID body ids; Ok (b :: others)
      end
  end.

Definition lookupAll {A : Type} (m : gmap scopeKey A) (workspaceID : string) (ids : list string) : Result (list A) :=
  visit m workspaceID Ok ids.

Definition investigationCommitTime (workspaceID : string) (item : Investigation) (extra : list Time) (clock : Time)
    (s : Repository) : Result Time :=
  taskItems ← lookupAll (tasks s) workspaceID (taskIDsOf workspaceID (inv_ID item) s);
  evidenceItems ← lookupAll (evidence s) workspaceID (evidenceIDsOf workspaceID (inv_ID item) s);
  ensure (negb (IsZero clock)) (invalid "clock returned zero time");;
  Ok (latestTime ([inv_UpdatedAt item; inv_CompletedAt item] ++ extra ++
        (taskItems ≫= fun task => [task_UpdatedAt task; task_CompletedAt task]) ++
        (evidenceItems ≫= fun item => [ev_CollectedAt item; ev_CreatedAt item]) ++ [clock])).

(** ** Signals and incidents *)

Section methods.
Context `{Unicode} (Transform : string -> Result string).

(** What the repository answers to a signal it knows. *)
Definition registeredAlready (key : scopeKey) (signal : Signal) (s : Repository) : option (Result bool) :=
  match signals s !! key with
  | None => None
  | Some existing =>
      match signalTenants s !! key with
      | Some storedTenant =>
          if ValidResourceID storedTenant
          then Some (if existing == signal then Ok false else Err ErrIdempotencyConflict)
          else Some (Err ErrScopeViolation)
      | None => Some (Err ErrScopeViolation)
      end
  end.

Definition storeSignal (signal : Signal) (tenantID : string) (s : Repository) : Repository :=
  let key := scoped (sig_WorkspaceID signal) (sig_ID signal) in
  {| s with signals := <[key := signal]> (signals s); signalTenants := <[key := tenantID]> (signalTenants s) |}.

(** Under the write lock. *)
Definition RegisterSignal_locked (signal : Signal) (tenantID : string) (clock : Time) : M Repository bool :=
  s ← get;
  match registeredAlready (scoped (sig_WorkspaceID signal) (sig_ID signal)) signal s with
  | Some answer => lift answer
  | None =>
      lift (ValidateNewSignalTime signal clock);;
      modify (storeSignal signal tenantID);;
      mret true
  end.

Definition RegisterSignal (err : option GoError) (signal : Signal) (tenant : Result string) (clock : Time)
    (between : Repository -> Repository) : M Repository bool :=
  checkContext err;;
  signal ← lift (NormalizeSignalForReplay signal);
  s ← get;
  match registeredAlready (scoped (sig_WorkspaceID signal) (sig_ID signal)) signal s with
  | Some answer => lift answer
  | None =>
      tenantID ← lift (match tenant with
                       | Ok tenantID => ensure (ValidResourceID tenantID) (invalid "trusted tenant resolution failed");; Ok tenantID
                       | Err _ => Err (invalid "trusted tenant resolution failed")
                       end);
      modify between;;
      RegisterSignal_locked signal tenantID clock
  end.

Definition validMapping (status : MappingStatus) (serviceID environmentID : string) : bool :=
  match status with
  | MappingExact => ValidResourceID serviceID && ValidResourceID environmentID
  | MappingAmbiguous | MappingUnresolved => optionalID serviceID && optionalID environmentID
  | MappingOther _ => false
  end.

Definition validCorrelation (request : CorrelateSignalRequest) : bool :=
  ValidResourceID (csr_WorkspaceID request) && ValidResourceID (csr_SignalID request) &&
  ValidCorrelationKey (csr_CorrelationKey request) &&
  validMapping (csr_MappingStatus request) (csr_ServiceID request) (csr_EnvironmentID request) &&
  ((csr_ExpectedSignalHash request == "") || ValidSHA256Hex (csr_ExpectedSignalHash request)).

Definition isActiveIncident (status : IncidentStatus) : bool :=
  match status with IncidentOpen | IncidentInvestigating | IncidentMitigating => true | _ => false end.

Definition signalSnapshotMatchesLocked (signalKey : scopeKey) (expected : string) (s : Repository) : bool :=
  if expected == "" then true
  else
    match signals s !! signalKey, signalTenants s !! signalKey with
    | Some signal, Some tenantID =>
        match RegisteredSignalSnapshotHash Transform
                {| rs_TenantID := tenantID; rs_WorkspaceID := sig_WorkspaceID signal; rs_Signal := signal |} with
        | Ok actual => actual == expected
        | Err _ => false
        end
    | _, _ => false
    end.

Definition CorrelateSignalResult_zero : CorrelateSignalResult :=
  {| csa_Incident := None; csa_Created := false; csa_Associated := false; csa_Counted := false |}.

(** The third result of the code, [handled], is whether there is an answer. *)
Definition correlationReplayLocked (signalKey : scopeKey) (request : CorrelateSignalRequest) (s : Repository)
    : option (Result CorrelateSignalResult) :=
  match signals s !! signalKey with
  | None => Some (Err ErrNotFound)
  | Some _ =>
      match signalIncident s !! signalKey with
      | None => None
      | Some association =>
          if negb (assoc_matches association request) then Some (Err ErrIdempotencyConflict)
          else if assoc_incidentID association == "" then Some (Ok CorrelateSignalResult_zero)
          else
            match incidents s !! scoped (csr_WorkspaceID request) (assoc_incidentID association) with
            | None => Some (Err ErrNotFound)
            | Some incident =>
                Some (Ok {| csa_Incident := Some incident; csa_Created := false; csa_Associated := true; csa_Counted := false |})
            end
      end
  end.

(** What both looks at the repository begin with: the tenant, the snapshot, a replay. *)
Definition correlationProbe (request : CorrelateSignalRequest) (s : Repository) : option (Result CorrelateSignalResult) :=
  let signalKey := scoped (csr_WorkspaceID request) (csr_SignalID request) in
  match signalTenants s !! signalKey with
  | None => Some (Err ErrScopeViolation)
  | Some tenantID =>
      if negb (ValidResourceID tenantID) then Some (Err ErrScopeViolation)
      else if negb (signalSnapshotMatchesLocked signalKey (csr_ExpectedSignalHash request) s) then Some (Err ErrScopeViolation)
      else correlationReplayLocked signalKey request s
  end.

Definition association (request : CorrelateSignalRequest) (incidentID : string) : signalAssociationRecord := {|
  assoc_incidentID := incidentID; assoc_correlationKey := csr_CorrelationKey request;
  assoc_mappingStatus := csr_MappingStatus request; assoc_serviceID := csr_ServiceID request;
  assoc_environmentID := csr_EnvironmentID request
|}.

Definition associateSignal (request : CorrelateSignalRequest) (incidentID : string) (s : Repository) : Repository :=
  {| s with signalIncident := <[scoped (csr_WorkspaceID request) (csr_SignalID request) := association request incidentID]>
                                (signalIncident s) |}.

Definition putIncident (workspaceID : string) (incident : Incident) (s : Repository) : Repository :=
  {| s with incidents := <[scoped workspaceID (inc_ID incident) := incident]> (incidents s) |}.

Definition indexIncident (workspaceID correlationKey incidentID : string) (s : Repository) : Repository :=
  {| s with activeIncidentByCorrelation := <[scoped workspaceID correlationKey := incidentID]> (activeIncidentByCorrelation s) |}.

Definition unindexIncident (correlationKey : scopeKey) (s : Repository) : Repository :=
  {| s with activeIncidentByCorrelation := delete correlationKey (activeIncidentByCorrelation s) |}.

(** The first signal of an incident. *)
Definition openedIncident (request : CorrelateSignalRequest) (id tenantID : string) (signal : Signal) (now : Time) : Incident :=
  let openedAt := sig_ObservedAt signal in
  let incident := NewIncidentForTenant id tenantID (csr_WorkspaceID request) openedAt in
  {| incident with
     inc_ServiceID := csr_ServiceID request; inc_EnvironmentID := csr_EnvironmentID request;
     inc_CorrelationKey := csr_CorrelationKey request; inc_MappingStatus := csr_MappingStatus request;
     inc_LastSignalAt := openedAt; inc_UpdatedAt := laterTime now openedAt; inc_SignalCount := 1 |}.

(** One more signal. *)
Definition countedIncident (signal : Signal) (now : Time) (incident : Incident) : Incident :=
  let observedAt := sig_ObservedAt signal in
  let openedAt := if Before observedAt (inc_OpenedAt incident) then observedAt else inc_OpenedAt incident in
  let lastSignalAt := if After observedAt (inc_LastSignalAt incident) then observedAt else inc_LastSignalAt incident in
  {| incident with
     inc_SignalCount := inc_SignalCount incident + 1; inc_OpenedAt := openedAt; inc_LastSignalAt := lastSignalAt;
     inc_UpdatedAt := latestTime [inc_UpdatedAt incident; now; lastSignalAt]; inc_Version := inc_Version incident + 1 |}.

Definition CorrelateSignal_open (request : CorrelateSignalRequest) (tenantID : string) (signal : Signal) (now : Time)
    (ids : nat -> string) : M Repository CorrelateSignalResult :=
  incidentID ← lift (newID (ids 0%nat));
  s ← get;
  require (negb (present (incidents s !! scoped (csr_WorkspaceID request) incidentID)))
    (invalid "ID factory returned duplicate incident ID");;
  let incident := openedIncident request incidentID tenantID signal now in
  require (passes (Incident_ValidateForCreate incident)) (invalid "incident");;
  modify (putIncident (csr_WorkspaceID request) incident);;
  modify (indexIncident (csr_WorkspaceID request) (csr_CorrelationKey request) (inc_ID incident));;
  modify (associateSignal request (inc_ID incident));;
  mret {| csa_Incident := Some incident; csa_Created := true; csa_Associated := true; csa_Counted := true |}.

Definition CorrelateSignal_count (request : CorrelateSignalRequest) (tenantID : string) (signal : Signal) (now : Time)
    (incident : Incident) : M Repository CorrelateSignalResult :=
  require (inc_TenantID incident == tenantID) ErrScopeViolation;;
  require ((inc_CorrelationKey incident == csr_CorrelationKey request) && (inc_MappingStatus incident == csr_MappingStatus request) &&
           (inc_ServiceID incident == csr_ServiceID request) && (inc_EnvironmentID incident == csr_EnvironmentID request))
    ErrScopeViolation;;
  let incident := countedIncident signal now incident in
  require (passes (Incident_Validate incident)) (invalid "incident");;
  modify (putIncident (csr_WorkspaceID request) incident);;
  modify (associateSignal request (inc_ID incident));;
  mret {| csa_Incident := Some incident; csa_Created := false; csa_Associated := true; csa_Counted := true |}.

(** Under the write lock. *)
Definition CorrelateSignal_locked (request : CorrelateSignalRequest) (clock : Time) (ids : nat -> string)
    : M Repository CorrelateSignalResult :=
  s ← get;
  let signalKey := scoped (csr_WorkspaceID request) (csr_SignalID request) in
  match correlationProbe request s, signals s !! signalKey, signalTenants s !! signalKey with
  | Some answer, _, _ => lift answer
  | None, Some signal, Some tenantID =>
      require (negb (IsZero clock)) (invalid "clock returned zero time");;
      let correlationKey := scoped (csr_WorkspaceID request) (csr_CorrelationKey request) in
      let incidentID := default ""%string (activeIncidentByCorrelation s !! correlationKey) in
      let found := incidents s !! scoped (csr_WorkspaceID request) incidentID in
      let stale := match found with Some incident => negb (isActiveIncident (inc_Status incident)) | None => false end in
      modify (if stale then unindexIncident correlationKey else fun s => s);;
      match (if stale then None else found) with
      | Some incident => CorrelateSignal_count request tenantID signal clock incident
      | None =>
          if sig_Status signal == "resolved" then
            modify (associateSignal request "");; mret CorrelateSignalResult_zero
          else CorrelateSignal_open request tenantID signal clock ids
      end
  | None, _, _ => throw ErrNotFound
  end.

Definition CorrelateSignal (err : option GoError) (request : CorrelateSignalRequest) (clock : Time) (ids : nat -> string)
    (between : Repository -> Repository) : M Repository CorrelateSignalResult :=
  checkContext err;;
  require (validCorrelation request) (invalid "invalid signal correlation");;
  s ← get;
  match correlationProbe request s with
  | Some answer => lift answer
  | None => modify between;; CorrelateSignal_locked request clock ids
  end.

(** ** Creation of an investigation *)

Definition isActiveInvestigation (status : InvestigationStatus) : bool :=
  match status with InvestigationQueued | InvestigationRunning => true | _ => false end.

Definition investigationResult (workspaceID investigationID : string) (created : bool) (s : Repository)
    : Result CreateOrGetInvestigationResult :=
  match investigations s !! scoped workspaceID investigationID with
  | None => Err ErrNotFound
  | Some item =>
      items ← lookupAll (tasks s) workspaceID (taskIDsOf workspaceID investigationID s);
      Ok {| cia_Investigation := item; cia_Tasks := items; cia_Created := created |}
  end.

Definition createInvestigationReplayLocked (workspaceID : string) (idempotencyKey : scopeKey) (requestHash : string)
    (s : Repository) : option (Result CreateOrGetInvestigationResult) :=
  if negb (idempotencyOwnerMatches idempotencyKey "create_investigation" s) then Some (Err ErrIdempotencyConflict)
  else
    match investigationIdempotency s !! idempotencyKey with
    | None => None
    | Some record =>
        if idem_requestHash record != requestHash then Some (Err ErrIdempotencyConflict)
        else Some (investigationResult workspaceID (idem_resourceID record) false s)
    end.

Definition scopeOf (incident : Incident) : TaskSpecScope := {|
  tss_TenantID := inc_TenantID incident; tss_WorkspaceID := inc_WorkspaceID incident;
  tss_EnvironmentID := inc_EnvironmentID incident; tss_ServiceID := inc_ServiceID incident;
  tss_MappingStatus := inc_MappingStatus incident
|}.

(** One position of [activeRuntimeBindingsMatch]. *)
Definition boundTaskMatches (scope : TaskSpecScope) (plan : InvestigationPlanBinding) (position : Z) (task : ReadTask)
    (spec : TaskSpec) (components : TaskRuntimeComponents) : bool :=
  (task_Position task =? position) && (task_Key task == spec_Key spec) && (task_ConnectorID task == spec_ConnectorID spec) &&
  (task_Operation task == spec_Operation spec) && (task_Input task == spec_Input spec) &&
  (task_RuntimeBinding task != ReadTaskRuntimeBinding_zero) &&
  match BuildReadTaskRuntimeBinding Transform scope plan spec position components (rtb_BoundAt (task_RuntimeBinding task)) with
  | Ok expected => RuntimeBinding_Equal (task_RuntimeBinding task) expected
  | Err _ => false
  end.

Fixpoint boundTasksMatch (scope : TaskSpecScope) (plan : InvestigationPlanBinding) (position : Z) (items : list ReadTask)
    (specs : list TaskSpec) (components : list TaskRuntimeComponents) : bool :=
  match items, specs, components with
  | [], [], [] => true
  | task :: items, spec :: specs, component :: components =>
      boundTaskMatches scope plan position task spec component && boundTasksMatch scope plan (position + 1) items specs components
  | _, _, _ => false
  end.

Definition activeRuntimeBindingsMatch (workspaceID : string) (item : Investigation) (scope : TaskSpecScope)
    (specs : list TaskSpec) (components : list TaskRuntimeComponents) (s : Repository) : bool :=
  match lookupAll (tasks s) workspaceID (taskIDsOf workspaceID (inv_ID item) s) with
  | Ok items => boundTasksMatch scope (inv_PlanBinding item) 1 items specs components
  | Err _ => false
  end.

(** The IDs of [count] new tasks, from answer [n] of the factory on. *)
Fixpoint newTaskIDs (workspaceID : string) (ids : nat -> string) (n count : nat) (created : list string) (s : Repository)
    : Result (list string) :=
  match count with
  | O => Ok []
  | S count =>
      taskID ← newID (ids n);
      ensure (negb (present (tasks s !! scoped workspaceID taskID)))
        (invalid "ID factory returned duplicate task ID");;
      ensure (bool_decide (taskID ∉ created)) (invalid "ID factory returned duplicate task ID");;
      others ← newTaskIDs workspaceID ids (S n) count (taskID :: created) s;
      Ok (taskID :: others)
  end.

(** The commit time of a new investigation: a whole microsecond, not before the clock and
    the incident. *)
Definition creationTime (clock : Time) (incident : Incident) : Time :=
  let boundary := latestTime [clock; inc_OpenedAt incident; inc_LastSignalAt incident; inc_UpdatedAt incident] in
  let commitAt := TruncateMicro boundary in
  if Before commitAt boundary then Add commitAt Microsecond else commitAt.

Definition newInvestigation (request : CreateOrGetInvestigationRequest) (requestHash investigationID : string) (commitAt : Time)
    : Investigation := {|
  inv_ID := investigationID; inv_WorkspaceID := cir_WorkspaceID request; inv_IncidentID := cir_IncidentID request;
  inv_Status := InvestigationQueued; inv_ModelStatus := ModelPending; inv_IdempotencyKey := cir_IdempotencyKey request;
  inv_RequestHash := requestHash; inv_RequestHashVersion := InvestigationCreateRequestVersionV2;
  inv_PlanBinding := cir_PlanBinding request; inv_FailureCode := ""; inv_ModelFailureCode := "";
  inv_CreatedAt := commitAt; inv_StartedAt := 0; inv_CompletedAt := 0; inv_UpdatedAt := commitAt
|}.

Definition newTask (request : CreateOrGetInvestigationRequest) (investigationID taskID : string) (position : Z) (spec : TaskSpec)
    (binding : ReadTaskRuntimeBinding) (commitAt : Time) : ReadTask := {|
  task_ID := taskID; task_WorkspaceID := cir_WorkspaceID request; task_IncidentID := cir_IncidentID request;
  task_InvestigationID := investigationID; task_Key := spec_Key spec; task_Position := position;
  task_ConnectorID := spec_ConnectorID spec; task_Operation := spec_Operation spec; task_Input := spec_Input spec;
  task_InputHash := sha256_hex (spec_Input spec); task_RuntimeBinding := binding; task_Status := ReadTaskQueued;
  task_EvidenceID := ""; task_FailureCode := ""; task_CreatedAt := commitAt; task_StartedAt := 0; task_CompletedAt := 0;
  task_UpdatedAt := commitAt
|}.

Fixpoint newTasks (request : CreateOrGetInvestigationRequest) (scope : TaskSpecScope) (investigationID : string) (commitAt : Time)
    (position : Z) (taskIDs : list string) (specs : list TaskSpec) (components : list TaskRuntimeComponents)
    : Result (list ReadTask) :=
  match taskIDs, specs, components with
  | taskID :: taskIDs, spec :: specs, component :: components =>
      binding ← BuildReadTaskRuntimeBinding Transform scope (cir_PlanBinding request) spec position component commitAt;
      let task := newTask request investigationID taskID position spec binding commitAt in
      ensure (passes (ReadTask_Validate task)) (invalid "read task");;
      others ← newTasks request scope investigationID commitAt (position + 1) taskIDs specs components;
      Ok (task :: others)
  | _, _, _ => Ok []
  end.

Definition putTasks (workspaceID : string) (items : list ReadTask) (s : Repository) : Repository :=
  {| s with tasks := foldl (fun m task => <[scoped workspaceID (task_ID task) := task]> m) (tasks s) items |}.

(** The writes of a creation; [opened] is the incident, if the creation moved it on. *)
Definition storeInvestigation (request : CreateOrGetInvestigationRequest) (requestHash : string) (opened : option Incident)
    (item : Investigation) (taskIDs : list string) (items : list ReadTask) (s : Repository) : Repository :=
  let workspaceID := cir_WorkspaceID request in
  let incidentKey := scoped workspaceID (cir_IncidentID request) in
  let idempotencyKey := scoped workspaceID (cir_IdempotencyKey request) in
  let itemKey := scoped workspaceID (inv_ID item) in
  let s := putTasks workspaceID items {| s with
    incidents := match opened with Some incident => <[incidentKey := incident]> (incidents s) | None => incidents s end;
    investigations := <[itemKey := item]> (investigations s) |} in
  bindIdempotencyOwner idempotencyKey "create_investigation" {| s with
    taskIDsByInvestigation := <[itemKey := taskIDs]> (taskIDsByInvestigation s);
    activeInvestigation := <[incidentKey := inv_ID item]> (activeInvestigation s);
    investigationIdempotency :=
      <[idempotencyKey := {| idem_requestHash := requestHash; idem_resourceID := inv_ID item |}]> (investigationIdempotency s) |}.

Definition CreateOrGetInvestigation_new (request : CreateOrGetInvestigationRequest) (requestHash : string)
    (canonicalTasks : list TaskSpec) (components : list TaskRuntimeComponents) (incident : Incident) (clock : Time)
    (ids : nat -> string) : M Repository CreateOrGetInvestigationResult :=
  let workspaceID := cir_WorkspaceID request in
  s ← get;
  investigationID ← lift (newID (ids 0%nat));
  require (negb (present (investigations s !! scoped workspaceID investigationID)))
    (invalid "ID factory returned duplicate investigation ID");;
  taskIDs ← lift (newTaskIDs workspaceID ids 1 (List.length canonicalTasks) [] s);
  require (negb (IsZero clock)) (invalid "clock returned zero time");;
  let commitAt := creationTime clock incident in
  let item := newInvestigation request requestHash investigationID commitAt in
  require (passes (Investigation_Validate item)) (invalid "investigation");;
  createdTasks ← lift (newTasks request (scopeOf incident) investigationID commitAt 1 taskIDs canonicalTasks components);
  opened ← lift (if inc_Status incident == IncidentOpen then
                   match Incident_TransitionAt IncidentInvestigating commitAt incident with
                   | Ok incident => Ok (Some incident)
                   | Err _ => Err (Errorf "incident" ErrInvalidTransition)
                   end
                 else Ok None);
  modify (storeInvestigation request requestHash opened item taskIDs createdTasks);;
  mret {| cia_Investigation := item; cia_Tasks := createdTasks; cia_Created := true |}.

Definition forgetActive (incidentKey : scopeKey) (s : Repository) : Repository :=
  {| s with activeInvestigation := delete incidentKey (activeInvestigation s) |}.

(** The investigation that is active for an incident, with the entry of one that no longer is
    removed. *)
Definition activeFor (workspaceID : string) (incidentKey : scopeKey) : M Repository (option Investigation) :=
  s ← get;
  let activeID := default ""%string (activeInvestigation s !! incidentKey) in
  if activeID == "" then mret None
  else
    match investigations s !! scoped workspaceID activeID with
    | Some candidate =>
        if isActiveInvestigation (inv_Status candidate) then mret (Some candidate)
        else modify (forgetActive incidentKey);; mret None
    | None => modify (forgetActive incidentKey);; mret None
    end.

(** One more key for an investigation. *)
Definition storeJoin (request : CreateOrGetInvestigationRequest) (requestHash investigationID : string) (s : Repository) : Repository :=
  let idempotencyKey := scoped (cir_WorkspaceID request) (cir_IdempotencyKey request) in
  bindIdempotencyOwner idempotencyKey "create_investigation" {| s with
    investigationIdempotency :=
      <[idempotencyKey := {| idem_requestHash := requestHash; idem_resourceID := investigationID |}]> (investigationIdempotency s) |}.

Definition CreateOrGetInvestigation_join (request : CreateOrGetInvestigationRequest) (requestHash : string) (scope : TaskSpecScope)
    (canonicalTasks : list TaskSpec) (components : list TaskRuntimeComponents) (active : Investigation)
    : M Repository CreateOrGetInvestigationResult :=
  s ← get;
  require ((inv_RequestHashVersion active == InvestigationCreateRequestVersionV2) && (inv_RequestHash active == requestHash) &&
           PlanBinding_Equal (inv_PlanBinding active) (cir_PlanBinding request) &&
           activeRuntimeBindingsMatch (cir_WorkspaceID request) active scope canonicalTasks components s)
    ErrIdempotencyConflict;;
  modify (storeJoin request requestHash (inv_ID active));;
  s ← get;
  lift (investigationResult (cir_WorkspaceID request) (inv_ID active) false s).

(** Under the write lock; [ctx] gives the readings of [ctx.Err()] after the first. *)
Definition CreateOrGetInvestigation_locked (request : CreateOrGetInvestigationRequest) (requestHash : string)
    (canonicalTasks : list TaskSpec) (ctx : nat -> option GoError) (authorizer : TaskSpecScope -> TaskSpec -> option GoError)
    (binder : Binder) (clock : Time) (ids : nat -> string) : M Repository CreateOrGetInvestigationResult :=
  let workspaceID := cir_WorkspaceID request in
  let incidentKey := scoped workspaceID (cir_IncidentID request) in
  s ← get;
  match createInvestigationReplayLocked workspaceID (scoped workspaceID (cir_IdempotencyKey request)) requestHash s with
  | Some answer => lift answer
  | None =>
      incident ← require_some (incidents s !! incidentKey) ErrNotFound;
      active ← activeFor workspaceID incidentKey;
      require (present active || isActiveIncident (inc_Status incident))
        (Errorf "terminal incident cannot start a new investigation" ErrInvalidTransition);;
      let scope := scopeOf incident in
      lift (AuthorizeTaskSpecs ctx 0 authorizer scope canonicalTasks);;
      components ← lift (ResolveTaskRuntimeComponents Transform ctx (1 + List.length canonicalTasks) binder scope
                           (cir_PlanBinding request) canonicalTasks);
      match active with
      | Some active => CreateOrGetInvestigation_join request requestHash scope canonicalTasks components active
      | None => CreateOrGetInvestigation_new request requestHash canonicalTasks components incident clock ids
      end
  end.

Definition CreateOrGetInvestigation (err : option GoError) (request : CreateOrGetInvestigationRequest)
    (ctx : nat -> option GoError) (authorizer : TaskSpecScope -> TaskSpec -> option GoError) (binder : Binder) (clock : Time)
    (ids : nat -> string) (between : Repository -> Repository) : M Repository CreateOrGetInvestigationResult :=
  let workspaceID := cir_WorkspaceID request in
  checkContext err;;
  require (validResourceScope workspaceID [cir_IncidentID request] && ValidIdempotencyKey (cir_IdempotencyKey request))
    (invalid "invalid investigation identity");;
  canonical ← lift (CanonicalTaskSpecs Transform (cir_Tasks request));
  requestHash ← lift (CreateOrGetInvestigationRequestHash Transform request canonical.2);
  s ← get;
  match createInvestigationReplayLocked workspaceID (scoped workspaceID (cir_IdempotencyKey request)) requestHash s with
  | Some answer => lift answer
  | None => modify between;; CreateOrGetInvestigation_locked request requestHash canonical.1 ctx authorizer binder clock ids
  end.

(** ** Completion of a task *)

Definition taskCompletionResult (workspaceID : string) (record : taskCompletionRecord) (replayed : bool) (s : Repository)
    : Result CompleteTaskResult :=
  match tasks s !! scoped workspaceID (tc_taskID record), receipts s !! scoped workspaceID (tc_receiptID record) with
  | Some task, Some receipt =>
      if tc_evidenceID record == "" then
        Ok {| cta_Task := task; cta_Evidence := None; cta_Receipt := receipt; cta_Replayed := replayed |}
      else
        match evidence s !! scoped workspaceID (tc_evidenceID record) with
        | Some item => Ok {| cta_Task := task; cta_Evidence := Some item; cta_Receipt := receipt; cta_Replayed := replayed |}
        | None => Err ErrNotFound
        end
  | _, _ => Err ErrNotFound
  end.

Definition newEvidence (request : CompleteTaskRequest) (item : Investigation) (task : ReadTask) (input : EvidenceInput)
    (evidenceID : string) (commitAt : Time) : Evidence := {|
  ev_ID := evidenceID; ev_WorkspaceID := ctr_WorkspaceID request; ev_IncidentID := task_IncidentID task;
  ev_InvestigationID := inv_ID item; ev_TaskID := task_ID task; ev_ConnectorID := task_ConnectorID task;
  ev_ContentHash := ei_ContentHash input; ev_Payload := ei_Payload input; ev_Attributes := ei_Attributes input;
  ev_CollectedAt := ei_CollectedAt input; ev_CreatedAt := commitAt
|}.

(** A request to complete with evidence carries it: its normalization saw to that. *)
Definition storedEvidence (request : CompleteTaskRequest) (item : Investigation) (task : ReadTask) (evidenceID : string)
    (commitAt : Time) : option Evidence :=
  match ctr_Status request, ctr_Evidence request with
  | ReadTaskEvidence, Some input => Some (newEvidence request item task input evidenceID commitAt)
  | _, _ => None
  end.

Definition newReceipt (request : CompleteTaskRequest) (item : Investigation) (task : ReadTask) (receiptID evidenceID contentHash : string)
    (commitAt : Time) : RunnerEvidenceReceipt := {|
  rcp_ID := receiptID; rcp_WorkspaceID := ctr_WorkspaceID request; rcp_InvestigationID := inv_ID item; rcp_TaskID := task_ID task;
  rcp_RunnerID := ctr_RunnerID request; rcp_ConnectorID := task_ConnectorID task; rcp_EvidenceID := evidenceID;
  rcp_ContentHash := contentHash; rcp_FailureCode := ctr_FailureCode request; rcp_IdempotencyKey := ctr_IdempotencyKey request;
  rcp_ReceivedAt := commitAt
|}.

Definition completedTask (request : CompleteTaskRequest) (evidenceID : string) (commitAt : Time) (task : ReadTask) : ReadTask :=
  {| task with
     task_StartedAt := if IsZero (task_StartedAt task) then commitAt else task_StartedAt task;
     task_Status := ctr_Status request; task_EvidenceID := evidenceID; task_FailureCode := ctr_FailureCode request;
     task_CompletedAt := commitAt; task_UpdatedAt := commitAt |}.

Definition progressed (commitAt : Time) (item : Investigation) : Investigation :=
  let queued := inv_Status item == InvestigationQueued in
  {| item with
     inv_Status := if queued then InvestigationRunning else inv_Status item;
     inv_StartedAt := if queued then commitAt else inv_StartedAt item; inv_UpdatedAt := commitAt |}.

(** The writes of a completion. *)
Definition storeCompletion (request : CompleteTaskRequest) (requestHash : string) (item : Investigation) (task : ReadTask)
    (stored : option Evidence) (receipt : RunnerEvidenceReceipt) (s : Repository) : Repository :=
  let workspaceID := ctr_WorkspaceID request in
  let itemKey := scoped workspaceID (inv_ID item) in
  let idempotencyKey := scoped workspaceID (ctr_IdempotencyKey request) in
  let record := {| tc_requestHash := requestHash; tc_taskID := task_ID task; tc_evidenceID := task_EvidenceID task;
                   tc_receiptID := rcp_ID receipt |} in
  bindIdempotencyOwner idempotencyKey "complete_task" {| s with
    tasks := <[scoped workspaceID (task_ID task) := task]> (tasks s);
    investigations := <[itemKey := item]> (investigations s);
    evidence := match stored with Some e => <[scoped workspaceID (ev_ID e) := e]> (evidence s) | None => evidence s end;
    evidenceIDsByInvestigation :=
      match stored with
      | Some e => <[itemKey := evidenceIDsOf workspaceID (inv_ID item) s ++ [ev_ID e]]> (evidenceIDsByInvestigation s)
      | None => evidenceIDsByInvestigation s
      end;
    receipts := <[scoped workspaceID (rcp_ID receipt) := receipt]> (receipts s);
    taskCompletionIdempotency := <[idempotencyKey := record]> (taskCompletionIdempotency s) |}.

Definition isOpenTask (status : ReadTaskStatus) : bool :=
  match status with ReadTaskQueued | ReadTaskRunning => true | _ => false end.

(** From the admitted task to the writes. *)
Definition CompleteTask_commit (request : CompleteTaskRequest) (requestHash : string) (item : Investigation) (task : ReadTask)
    (clock : Time) (ids : nat -> string) : M Repository CompleteTaskResult :=
  let workspaceID := ctr_WorkspaceID request in
  let proves := ctr_Status request == ReadTaskEvidence in
  s ← get;
  evidenceID ← (if proves then
                  id ← lift (newID (ids 0%nat));
                  require (negb (present (evidence s !! scoped workspaceID id)))
                    (invalid "ID factory returned duplicate evidence ID");;
                  mret id
                else mret ""%string : M Repository string);
  receiptID ← lift (newID (ids (if proves then 1%nat else 0%nat)));
  require (negb (present (receipts s !! scoped workspaceID receiptID)))
    (invalid "ID factory returned duplicate receipt ID");;
  commitAt ← lift (investigationCommitTime workspaceID item [] clock s);
  require (match ctr_Evidence request with Some input => negb (After (ei_CollectedAt input) commitAt) | None => true end)
    (invalid "evidence collection time is in the future");;
  let stored := storedEvidence request item task evidenceID commitAt in
  require (match stored with Some item => passes (Evidence_Validate item) | None => true end) (invalid "evidence");;
  let contentHash := match stored with Some item => ev_ContentHash item | None => ""%string end in
  let receipt := newReceipt request item task receiptID evidenceID contentHash commitAt in
  require (passes (Receipt_Validate receipt)) (invalid "receipt");;
  let task := completedTask request evidenceID commitAt task in
  require (passes (ReadTask_Validate task)) (invalid "read task");;
  let item := progressed commitAt item in
  require (passes (Investigation_Validate item)) (invalid "investigation");;
  modify (storeCompletion request requestHash item task stored receipt);;
  s ← get;
  lift (taskCompletionResult workspaceID {| tc_requestHash := requestHash; tc_taskID := task_ID task; tc_evidenceID := evidenceID;
                                            tc_receiptID := rcp_ID receipt |} false s).

Definition CompleteTask (err : option GoError) (request : CompleteTaskRequest) (clock : Time) (ids : nat -> string)
    : M Repository CompleteTaskResult :=
  let workspaceID := ctr_WorkspaceID request in
  checkContext err;;
  require (validResourceScope workspaceID [ctr_InvestigationID request; ctr_TaskID request; ctr_RunnerID request] &&
           ValidIdempotencyKey (ctr_IdempotencyKey request))
    (invalid "invalid task completion identity");;
  normalized ← lift (NormalizeCompleteTaskRequest Transform request);
  let '(request, requestHash) := normalized in
  s ← get;
  let idempotencyKey := scoped workspaceID (ctr_IdempotencyKey request) in
  require (idempotencyOwnerMatches idempotencyKey "complete_task" s) ErrIdempotencyConflict;;
  match taskCompletionIdempotency s !! idempotencyKey with
  | Some record =>
      require (tc_requestHash record == requestHash) ErrIdempotencyConflict;;
      lift (taskCompletionResult workspaceID record true s)
  | None =>
      item ← require_some (investigations s !! scoped workspaceID (ctr_InvestigationID request)) ErrNotFound;
      task ← require_some (tasks s !! scoped workspaceID (ctr_TaskID request)) ErrNotFound;
      require (task_InvestigationID task == inv_ID item) ErrScopeViolation;;
      require (isOpenTask (task_Status task)) ErrInvalidTransition;;
      require (isActiveInvestigation (inv_Status item)) ErrInvalidTransition;;
      CompleteTask_commit request requestHash item task clock ids
  end.

(** ** The model *)

Definition isClosedTask (status : ReadTaskStatus) : bool :=
  match status with ReadTaskEvidence | ReadTaskFailed | ReadTaskCancelled => true | _ => false end.

Definition storeModelStart (request : StartModelRequest) (requestHash : string) (item : Investigation) (s : Repository) : Repository :=
  let idempotencyKey := scoped (smr_WorkspaceID request) (smr_IdempotencyKey request) in
  bindIdempotencyOwner idempotencyKey "start_model" {| s with
    investigations := <[scoped (smr_WorkspaceID request) (smr_InvestigationID request) := item]> (investigations s);
    modelStartIdempotency := <[idempotencyKey := {| ms_requestHash := requestHash; ms_result :=
      {| sma_Investigation := item; sma_Replayed := false |} |}]> (modelStartIdempotency s) |}.

Definition StartModel (err : option GoError) (request : StartModelRequest) (clock : Time) : M Repository StartModelResult :=
  let workspaceID := smr_WorkspaceID request in
  checkContext err;;
  require (validResourceScope workspaceID [smr_InvestigationID request] && ValidIdempotencyKey (smr_IdempotencyKey request))
    (invalid "invalid model start request");;
  requestHash ← lift (StartModelRequestHash Transform request);
  s ← get;
  let idempotencyKey := scoped workspaceID (smr_IdempotencyKey request) in
  require (idempotencyOwnerMatches idempotencyKey "start_model" s) ErrIdempotencyConflict;;
  match modelStartIdempotency s !! idempotencyKey with
  | Some record =>
      require (ms_requestHash record == requestHash) ErrIdempotencyConflict;;
      let result := ms_result record in
      mret {| result with sma_Replayed := true |}
  | None =>
      item ← require_some (investigations s !! scoped workspaceID (smr_InvestigationID request)) ErrNotFound;
      require ((inv_Status item == InvestigationRunning) && (inv_ModelStatus item == ModelPending)) ErrInvalidTransition;;
      lift (visit (tasks s) workspaceID (fun task => ensure (isClosedTask (task_Status task)) ErrInvalidTransition)
              (taskIDsOf workspaceID (inv_ID item) s));;
      commitAt ← lift (investigationCommitTime workspaceID item [] clock s);
      let item := {| item with inv_ModelStatus := ModelRunning; inv_UpdatedAt := commitAt |} in
      require (passes (Investigation_Validate item)) (Errorf "invalid model transition" ErrInvalidTransition);;
      modify (storeModelStart request requestHash item);;
      mret {| sma_Investigation := item; sma_Replayed := false |}
  end.

(** ** Finalization and failure *)

Definition validModelFinalizationTransition (current terminal : ModelStatus) : bool :=
  match terminal with
  | ModelCompleted | ModelFailed => current == ModelRunning
  | ModelSkipped => current == ModelPending
  | ModelCancelled => (current == ModelPending) || (current == ModelRunning)
  | _ => false
  end.

Definition cancelledTask (failureCode : string) (commitAt : Time) (task : ReadTask) : ReadTask :=
  {| task with task_Status := ReadTaskCancelled; task_FailureCode := failureCode; task_CompletedAt := commitAt;
               task_UpdatedAt := commitAt |}.

(** The tasks of an investigation, those that are open cancelled. *)
Definition cancelledTaskCandidates (workspaceID investigationID failureCode : string) (commitAt : Time) (s : Repository)
    : Result (list ReadTask) :=
  visit (tasks s) workspaceID (fun task =>
    if isOpenTask (task_Status task) then
      let task := cancelledTask failureCode commitAt task in
      ensure (passes (ReadTask_Validate task)) (Errorf "invalid task cancellation" ErrInvalidTransition);; Ok task
    else Ok task) (taskIDsOf workspaceID investigationID s).

(** The status its tasks give a finished investigation; an error while one is open. *)
Definition derivedStatus (workspaceID investigationID : string) (s : Repository) : Result InvestigationStatus :=
  proven ← visit (tasks s) workspaceID (fun task =>
    ensure (negb (isOpenTask (task_Status task))) ErrInvalidTransition;; Ok (task_Status task == ReadTaskEvidence))
    (taskIDsOf workspaceID investigationID s);
  Ok (if forallb id proven then InvestigationCompleted else InvestigationPartial).

(** A claim to have completed, or completed in part, is the one the tasks support. *)
Definition statusAgrees (request : FinalizeInvestigationRequest) (item : Investigation) (s : Repository) : Result unit :=
  match fir_Status request with
  | InvestigationCompleted | InvestigationPartial =>
      derived ← derivedStatus (fir_WorkspaceID request) (inv_ID item) s;
      ensure (fir_Status request == derived) ErrInvalidTransition
  | _ => Ok tt
  end.

(** The IDs of new hypotheses, each checked with the evidence it rests on. *)
Fixpoint newHypothesisIDs (workspaceID : string) (item : Investigation) (ids : nat -> string) (n : nat)
    (specs : list HypothesisSpec) (created : list string) (s : Repository) : Result (list string) :=
  match specs with
  | [] => Ok []
  | spec :: specs =>
      hypothesisID ← newID (ids n);
      ensure (negb (present (hypotheses s !! scoped workspaceID hypothesisID)))
        (invalid "ID factory returned duplicate hypothesis ID");;
      ensure (bool_decide (hypothesisID ∉ created)) (invalid "ID factory returned duplicate hypothesis ID");;
      visit (evidence s) workspaceID (fun cited => ensure (ev_InvestigationID cited == inv_ID item) ErrScopeViolation)
        (hs_EvidenceIDs spec);;
      others ← newHypothesisIDs workspaceID item ids (S n) specs (hypothesisID :: created) s;
      Ok (hypothesisID :: others)
  end.

Definition newHypothesis (workspaceID : string) (item : Investigation) (hypothesisID : string) (spec : HypothesisSpec)
    (commitAt : Time) : HypothesisRecord := {|
  hyp_ID := hypothesisID; hyp_WorkspaceID := workspaceID; hyp_IncidentID := inv_IncidentID item; hyp_InvestigationID := inv_ID item;
  hyp_Status := HypothesisProposed; hyp_Rank := hs_Rank spec; hyp_Confidence := hs_Confidence spec; hyp_Summary := hs_Summary spec;
  hyp_Proposal := hs_Proposal spec; hyp_ProposalHash := hs_ProposalHash spec; hyp_Unknowns := hs_Unknowns spec;
  hyp_EvidenceIDs := hs_EvidenceIDs spec; hyp_CreatedAt := commitAt
|}.

Definition newHypotheses (workspaceID : string) (item : Investigation) (hypothesisIDs : list string) (specs : list HypothesisSpec)
    (commitAt : Time) : Result (list HypothesisRecord) :=
  let created := zip_with (fun id spec => newHypothesis workspaceID item id spec commitAt) hypothesisIDs specs in
  ensure (forallb (fun hypothesis => passes (Hypothesis_Validate hypothesis)) created) (invalid "hypothesis");;
  Ok created.

Definition finalizedInvestigation (request : FinalizeInvestigationRequest) (commitAt : Time) (item : Investigation) : Investigation :=
  {| item with inv_Status := fir_Status request; inv_ModelStatus := fir_ModelStatus request;
               inv_FailureCode := fir_FailureCode request; inv_ModelFailureCode := fir_ModelFailureCode request;
               inv_CompletedAt := commitAt; inv_UpdatedAt := commitAt |}.

(** An investigation that ended is no longer the active one of its incident. *)
Definition releaseActive (workspaceID : string) (item : Investigation) (s : Repository) : Repository :=
  let incidentKey := scoped workspaceID (inv_IncidentID item) in
  {| s with activeInvestigation :=
       if default ""%string (activeInvestigation s !! incidentKey) == inv_ID item
       then delete incidentKey (activeInvestigation s) else activeInvestigation s |}.

(** The writes of a finalization. *)
Definition storeFinalization (request : FinalizeInvestigationRequest) (requestHash : string) (item : Investigation)
    (taskCandidates : list ReadTask) (created : list HypothesisRecord) (s : Repository) : Repository :=
  let workspaceID := fir_WorkspaceID request in
  let idempotencyKey := scoped workspaceID (fir_IdempotencyKey request) in
  let itemKey := scoped workspaceID (inv_ID item) in
  let s := putTasks workspaceID taskCandidates {| s with investigations := <[itemKey := item]> (investigations s) |} in
  let s := releaseActive workspaceID item {| s with
    hypotheses := foldl (fun m hypothesis => <[scoped workspaceID (hyp_ID hypothesis) := hypothesis]> m) (hypotheses s) created;
    hypothesisIDsByInvestigation := <[itemKey := hyp_ID <$> created]> (hypothesisIDsByInvestigation s) |} in
  bindIdempotencyOwner idempotencyKey "finalize_investigation" {| s with
    finalizeIdempotency := <[idempotencyKey := {| fin_requestHash := requestHash; fin_result :=
      {| fia_Investigation := item; fia_Hypotheses := created; fia_Replayed := false |} |}]> (finalizeIdempotency s) |}.

Definition FinalizeInvestigation_commit (request : FinalizeInvestigationRequest) (requestHash : string) (item : Investigation)
    (clock : Time) (ids : nat -> string) : M Repository FinalizeInvestigationResult :=
  let workspaceID := fir_WorkspaceID request in
  s ← get;
  lift (statusAgrees request item s);;
  hypothesisIDs ← lift (newHypothesisIDs workspaceID item ids 0 (fir_Hypotheses request) [] s);
  commitAt ← lift (investigationCommitTime workspaceID item [] clock s);
  taskCandidates ← lift (if fir_Status request == InvestigationCancelled
                         then cancelledTaskCandidates workspaceID (inv_ID item) (fir_FailureCode request) commitAt s else Ok []);
  created ← lift (newHypotheses workspaceID item hypothesisIDs (fir_Hypotheses request) commitAt);
  let item := finalizedInvestigation request commitAt item in
  require (passes (Investigation_Validate item)) (invalid "investigation");;
  modify (storeFinalization request requestHash item taskCandidates created);;
  mret {| fia_Investigation := item; fia_Hypotheses := created; fia_Replayed := false |}.

Definition FinalizeInvestigation (err : option GoError) (request : FinalizeInvestigationRequest) (clock : Time)
    (ids : nat -> string) : M Repository FinalizeInvestigationResult :=
  let workspaceID := fir_WorkspaceID request in
  checkContext err;;
  require (validResourceScope workspaceID [fir_InvestigationID request] && ValidIdempotencyKey (fir_IdempotencyKey request))
    (invalid "invalid investigation finalization");;
  normalized ← lift (NormalizeFinalizeInvestigationRequest Transform request);
  let '(request, requestHash) := normalized in
  s ← get;
  let idempotencyKey := scoped workspaceID (fir_IdempotencyKey request) in
  require (idempotencyOwnerMatches idempotencyKey "finalize_investigation" s) ErrIdempotencyConflict;;
  match finalizeIdempotency s !! idempotencyKey with
  | Some record =>
      require (fin_requestHash record == requestHash) ErrIdempotencyConflict;;
      let result := fin_result record in
      mret {| result with fia_Replayed := true |}
  | None =>
      item ← require_some (investigations s !! scoped workspaceID (fir_InvestigationID request)) ErrNotFound;
      require (isActiveInvestigation (inv_Status item)) ErrInvalidTransition;;
      require (validModelFinalizationTransition (inv_ModelStatus item) (fir_ModelStatus request)) ErrInvalidTransition;;
      FinalizeInvestigation_commit request requestHash item clock ids
  end.

Definition failedInvestigation (failureCode : string) (commitAt : Time) (item : Investigation) : Investigation :=
  {| item with inv_Status := InvestigationFailed; inv_ModelStatus := ModelCancelled; inv_FailureCode := failureCode;
               inv_ModelFailureCode := ""; inv_CompletedAt := commitAt; inv_UpdatedAt := commitAt |}.

(** The writes of a failure. *)
Definition storeFailure (request : FailInvestigationRequest) (requestHash : string) (item : Investigation)
    (taskCandidates : list ReadTask) (s : Repository) : Repository :=
  let workspaceID := fail_WorkspaceID request in
  let idempotencyKey := scoped workspaceID (fail_IdempotencyKey request) in
  let s := releaseActive workspaceID item (putTasks workspaceID taskCandidates {| s with
    investigations := <[scoped workspaceID (fail_InvestigationID request) := item]> (investigations s) |}) in
  bindIdempotencyOwner idempotencyKey "fail_investigation" {| s with
    failureIdempotency := <[idempotencyKey := {| idem_requestHash := requestHash; idem_resourceID := inv_ID item |}]>
      (failureIdempotency s) |}.

Definition FailInvestigation (err : option GoError) (request : FailInvestigationRequest) (clock : Time)
    : M Repository FailInvestigationResult :=
  let workspaceID := fail_WorkspaceID request in
  checkContext err;;
  require (validResourceScope workspaceID [fail_InvestigationID request] && ValidIdempotencyKey (fail_IdempotencyKey request))
    (invalid "invalid investigation failure");;
  requestHash ← lift (FailInvestigationRequestHash Transform request);
  s ← get;
  let idempotencyKey := scoped workspaceID (fail_IdempotencyKey request) in
  require (idempotencyOwnerMatches idempotencyKey "fail_investigation" s) ErrIdempotencyConflict;;
  match failureIdempotency s !! idempotencyKey with
  | Some record =>
      require (idem_requestHash record == requestHash) ErrIdempotencyConflict;;
      item ← require_some (investigations s !! scoped workspaceID (idem_resourceID record)) ErrNotFound;
      mret {| faila_Investigation := item; faila_Replayed := true |}
  | None =>
      item ← require_some (investigations s !! scoped workspaceID (fail_InvestigationID request)) ErrNotFound;
      require (isActiveInvestigation (inv_Status item)) ErrInvalidTransition;;
      commitAt ← lift (investigationCommitTime workspaceID item [] clock s);
      taskCandidates ← lift (cancelledTaskCandidates workspaceID (inv_ID item) (fail_FailureCode request) commitAt s);
      let item := failedInvestigation (fail_FailureCode request) commitAt item in
      require (passes (Investigation_Validate item)) (Errorf "invalid failed investigation" ErrInvalidTransition);;
      modify (storeFailure request requestHash item taskCandidates);;
      mret {| faila_Investigation := item; faila_Replayed := false |}
  end.

(** ** Feedback *)

Definition newFeedback (request : RecordFeedbackRequest) (incident : Incident) (item : Investigation) (hypothesis : HypothesisRecord)
    (feedbackID : string) (commitAt : Time) : Feedback := {|
  fb_ID := feedbackID; fb_WorkspaceID := rfr_WorkspaceID request; fb_IncidentID := inc_ID incident; fb_InvestigationID := inv_ID item;
  fb_HypothesisID := hyp_ID hypothesis; fb_Actor := rfr_Actor request; fb_Verdict := rfr_Verdict request;
  fb_Details := rfr_Details request; fb_CreatedAt := commitAt
|}.

Definition storeHypothesis (request : RecordFeedbackRequest) (hypothesis : HypothesisRecord) (s : Repository) : Repository :=
  {| s with hypotheses := <[scoped (rfr_WorkspaceID request) (rfr_HypothesisID request) := hypothesis]> (hypotheses s) |}.

Definition storeFeedback (request : RecordFeedbackRequest) (requestHash : string) (item : Feedback) (s : Repository) : Repository :=
  let idempotencyKey := scoped (rfr_WorkspaceID request) (rfr_IdempotencyKey request) in
  bindIdempotencyOwner idempotencyKey "record_feedback" {| s with
    feedback := <[scoped (rfr_WorkspaceID request) (fb_ID item) := item]> (feedback s);
    feedbackIdempotency := <[idempotencyKey := {| idem_requestHash := requestHash; idem_resourceID := fb_ID item |}]>
      (feedbackIdempotency s) |}.

(** What the verdict does to the incident and the hypothesis. *)
Definition judge (request : RecordFeedbackRequest) (incident : Incident) (hypothesis : HypothesisRecord) (commitAt : Time)
    : M Repository unit :=
  match rfr_Verdict request with
  | FeedbackConfirmed =>
      confirmed ← lift (match Incident_ConfirmRootCauseAt hypothesis (rfr_Actor request) commitAt incident with
                        | Ok confirmed => Ok confirmed
                        | Err _ => Err ErrInvalidTransition
                        end);
      modify (fun s => {| s with
        incidents := <[scoped (rfr_WorkspaceID request) (rfr_IncidentID request) := confirmed.1]> (incidents s) |});;
      modify (storeHypothesis request confirmed.2)
  | FeedbackRejected =>
      require (hyp_Status hypothesis == HypothesisProposed) ErrInvalidTransition;;
      modify (storeHypothesis request {| hypothesis with hyp_Status := HypothesisRejected |})
  | _ => mret tt
  end.

Definition RecordFeedback (err : option GoError) (request : RecordFeedbackRequest) (clock : Time) (ids : nat -> string)
    : M Repository RecordFeedbackResult :=
  let workspaceID := rfr_WorkspaceID request in
  checkContext err;;
  require (validResourceScope workspaceID [rfr_IncidentID request; rfr_InvestigationID request; rfr_HypothesisID request;
                                           actor_ID (rfr_Actor request)] && ValidIdempotencyKey (rfr_IdempotencyKey request))
    (invalid "invalid feedback identity");;
  normalized ← lift (NormalizeRecordFeedbackRequest Transform request);
  let '(request, requestHash) := normalized in
  s ← get;
  let idempotencyKey := scoped workspaceID (rfr_IdempotencyKey request) in
  require (idempotencyOwnerMatches idempotencyKey "record_feedback" s) ErrIdempotencyConflict;;
  match feedbackIdempotency s !! idempotencyKey with
  | Some record =>
      require (idem_requestHash record == requestHash) ErrIdempotencyConflict;;
      item ← require_some (feedback s !! scoped workspaceID (idem_resourceID record)) ErrNotFound;
      mret {| rfa_Feedback := item; rfa_Created := false |}
  | None =>
      incident ← require_some (incidents s !! scoped workspaceID (rfr_IncidentID request)) ErrNotFound;
      item ← require_some (investigations s !! scoped workspaceID (rfr_InvestigationID request)) ErrNotFound;
      hypothesis ← require_some (hypotheses s !! scoped workspaceID (rfr_HypothesisID request)) ErrNotFound;
      require ((inv_IncidentID item == inc_ID incident) && (hyp_IncidentID hypothesis == inc_ID incident) &&
               (hyp_InvestigationID hypothesis == inv_ID item)) ErrScopeViolation;;
      feedbackID ← lift (newID (ids 0%nat));
      require (negb (present (feedback s !! scoped workspaceID feedbackID)))
        (invalid "ID factory returned duplicate feedback ID");;
      commitAt ← lift (investigationCommitTime workspaceID item [inc_UpdatedAt incident; hyp_CreatedAt hypothesis] clock s);
      let item' := newFeedback request incident item hypothesis feedbackID commitAt in
      require (passes (Feedback_Validate item')) (invalid "feedback");;
      judge request incident hypothesis commitAt;;
      modify (storeFeedback request requestHash item');;
      mret {| rfa_Feedback := item'; rfa_Created := true |}
  end.
End methods.

(** ** Reads *)

Definition readOne {A : Type} (err : option GoError) (m : gmap scopeKey A) (workspaceID id : string) : Result A :=
  match err with
  | Some e => Err e
  | None =>
      ensure (validResourceScope workspaceID [id]) (invalid "workspace and resource IDs are required");;
      match m !! scoped workspaceID id with Some a => Ok a | None => Err ErrNotFound end
  end.

Definition GetSignal (err : option GoError) (workspaceID id : string) (s : Repository) : Result Signal :=
  readOne err (signals s) workspaceID id.
Definition GetIncident (err : option GoError) (workspaceID id : string) (s : Repository) : Result Incident :=
  readOne err (incidents s) workspaceID id.
Definition GetInvestigation (err : option GoError) (workspaceID id : string) (s : Repository) : Result Investigation :=
  readOne err (investigations s) workspaceID id.
Definition GetTask (err : option GoError) (workspaceID id : string) (s : Repository) : Result ReadTask :=
  readOne err (tasks s) workspaceID id.
Definition GetEvidence (err : option GoError) (workspaceID id : string) (s : Repository) : Result Evidence :=
  readOne err (evidence s) workspaceID id.
Definition GetHypothesis (err : option GoError) (workspaceID id : string) (s : Repository) : Result HypothesisRecord :=
  readOne err (hypotheses s) workspaceID id.

(** A signal by its global ID, which must be that of one signal only. *)
Definition GetRegisteredSignal (ctx : bool) (err : option GoError) (signalID : string) (s : Repository) : Result RegisteredSignal :=
  if negb ctx then Err (invalid "context is required")
  else match err with
  | Some e => Err e
  | None =>
      ensure (ValidPersistentSignalID signalID) (invalid "invalid global signal ID");;
      match List.filter (fun entry => entry.1.2 == signalID) (map_to_list (signals s)) with
      | [] => Err ErrNotFound
      | [(key, found)] =>
          let tenantID := default ""%string (signalTenants s !! key) in
          ensure (ValidResourceID tenantID) ErrScopeViolation;;
          Ok {| rs_TenantID := tenantID; rs_WorkspaceID := sig_WorkspaceID found; rs_Signal := found |}
      | _ => Err ErrScopeViolation
      end
  end.

(** An empty filter admits every status. *)
Definition wanted {A} `{EqDecision A} (statuses : list A) (status : A) : bool :=
  match statuses with [] => true | _ => bool_decide (status ∈ statuses) end.

Definition ListIncidents (err : option GoError) (workspaceID : string) (statuses : list IncidentStatus) (s : Repository)
    : Result (list Incident) :=
  match err with
  | Some e => Err e
  | None =>
      ensure (ValidResourceID workspaceID) (invalid "workspace ID is required");;
      ensure (forallb knownIncidentStatus statuses) (invalid "invalid incident status filter");;
      Ok (sort_Slice (lessBy [inc_OpenedAt] inc_ID)
            (List.filter (fun incident => (inc_WorkspaceID incident == workspaceID) && wanted statuses (inc_Status incident))
              (map_to_list (incidents s)).*2))
  end.

Definition ListInvestigations (err : option GoError) (workspaceID incidentID : string) (statuses : list InvestigationStatus)
    (s : Repository) : Result (list Investigation) :=
  match err with
  | Some e => Err e
  | None =>
      ensure (ValidResourceID workspaceID && optionalID incidentID) (invalid "workspace ID is required");;
      ensure (forallb knownInvestigationStatus statuses) (invalid "invalid investigation status filter");;
      ensure ((incidentID == "") || (present (incidents s !! scoped workspaceID incidentID))) ErrNotFound;;
      Ok (sort_Slice (lessBy [inv_CreatedAt] inv_ID)
            (List.filter (fun item => (inv_WorkspaceID item == workspaceID) &&
                            ((incidentID == "") || (inv_IncidentID item == incidentID)) && wanted statuses (inv_Status item))
              (map_to_list (investigations s)).*2))
  end.

(** The listed resources of an investigation that exists. *)
Definition readListed {A : Type} (err : option GoError) (m : gmap scopeKey A) (ids : string -> string -> Repository -> list string)
    (extra : bool) (workspaceID investigationID : string) (s : Repository) : Result (list A) :=
  match err with
  | Some e => Err e
  | None =>
      ensure (validResourceScope workspaceID [investigationID] && extra) (invalid "workspace and investigation IDs are required");;
      ensure (present (investigations s !! scoped workspaceID investigationID)) ErrNotFound;;
      lookupAll m workspaceID (ids workspaceID investigationID s)
  end.

Definition ListTasks (err : option GoError) (workspaceID investigationID : string) (statuses : list ReadTaskStatus)
    (s : Repository) : Result (list ReadTask) :=
  items ← readListed err (tasks s) taskIDsOf (forallb knownReadTaskStatus statuses) workspaceID investigationID s;
  Ok (List.filter (fun task => wanted statuses (task_Status task)) items).

Definition ListEvidence (err : option GoError) (workspaceID investigationID taskID : string) (s : Repository)
    : Result (list Evidence) :=
  items ← readListed err (evidence s) evidenceIDsOf (optionalID taskID) workspaceID investigationID s;
  Ok (sort_Slice (lessBy [ev_CollectedAt; ev_CreatedAt] ev_ID)
        (List.filter (fun item => (taskID == "") || (ev_TaskID item == taskID)) items)).

Definition ListHypotheses (err : option GoError) (workspaceID investigationID : string) (s : Repository)
    : Result (list HypothesisRecord) :=
  readListed err (hypotheses s) hypothesisIDsOf true workspaceID investigationID s.
