(* ===== verification/InvestigationHistory.v ===== *)
(** * Histories of the investigation repository

    The calls of the investigation repository, what a sequence of them makes of the empty
    repository, and the writes they consist of: whatever the calls, their interleaving and
    their outcomes, the state changes by the commits listed here and by nothing else. *)

From S2P Require Import Prelude.
From S2P Require Import GoText.
From S2P Require Import GoUnicode.
From S2P Require Import GoSort.
From S2P Require Import SafeText.
From S2P Require Import InvestigationDomain.
From S2P Require Import TaskSpecs.
From S2P Require Import InvestigationRequests.
From S2P Require Import StoreErrors.
From S2P Require Import InvestigationRepository.

Open Scope Z_scope.

Lemma present_false {A : Type} (o : option A) : present o = false -> o = None.
Proof. by destruct o. Qed.

Lemma passes_Ok r : passes r = true -> r = Ok tt.
Proof. by destruct r as [[]|]. Qed.

Lemma newID_Ok id id' : newID id = Ok id' -> id' = id /\ ValidResourceID id = true.
Proof. unfold newID. destruct (ValidResourceID id) eqn:?; simpl; [|done]. by intros [= ->]. Qed.

(** ** Commits *)

(** IDs the factory made for new resources. *)
Definition fresh_ids {A : Type} (m : gmap scopeKey A) (workspaceID : string) (ids : list string) : Prop :=
  NoDup ids /\ Forall (fun id => ValidResourceID id = true /\ m !! scoped workspaceID id = None) ids.

Section history.
Context `{Unicode} (Transform : string -> Result string).

(** The incident of a signal's correlation key, according to the index. *)
Definition indexedIncident (request : CorrelateSignalRequest) (s : Repository) : option Incident :=
  incidents s !! scoped (csr_WorkspaceID request)
    (default ""%string (activeIncidentByCorrelation s !! scoped (csr_WorkspaceID request) (csr_CorrelationKey request))).

(** The index knows no incident for the correlation key. *)
Definition unindexed (request : CorrelateSignalRequest) (s : Repository) : Prop :=
  forall id, activeIncidentByCorrelation s !! scoped (csr_WorkspaceID request) (csr_CorrelationKey request) = Some id ->
    incidents s !! scoped (csr_WorkspaceID request) id = None.

(** What a correlation is made from. *)
Record correlates (s : Repository) (request : CorrelateSignalRequest) (signal : Signal) (tenantID : string) : Prop := {
  corr_signal : signals s !! scoped (csr_WorkspaceID request) (csr_SignalID request) = Some signal;
  corr_tenant : signalTenants s !! scoped (csr_WorkspaceID request) (csr_SignalID request) = Some tenantID;
  corr_new : signalIncident s !! scoped (csr_WorkspaceID request) (csr_SignalID request) = None;
  corr_key : ValidCorrelationKey (csr_CorrelationKey request) = true
}.

(** What a creation is made from. *)
Record creates (s : Repository) (request : CreateOrGetInvestigationRequest) (requestHash : string) (incident : Incident)
    (opened : option Incident) (item : Investigation) (taskIDs : list string) (items : list ReadTask)
    (specs : list TaskSpec) (components : list TaskRuntimeComponents) (commitAt : Time) : Prop := {
  cr_owner : idempotencyOwnerMatches (scoped (cir_WorkspaceID request) (cir_IdempotencyKey request)) "create_investigation" s = true;
  cr_new : investigationIdempotency s !! scoped (cir_WorkspaceID request) (cir_IdempotencyKey request) = None;
  cr_incident : incidents s !! scoped (cir_WorkspaceID request) (cir_IncidentID request) = Some incident;
  cr_active : isActiveIncident (inc_Status incident) = true;
  cr_alone : default ""%string (activeInvestigation s !! scoped (cir_WorkspaceID request) (cir_IncidentID request)) = ""%string;
  cr_specs : specs <> [] /\ length components = length specs;
  cr_item : item = newInvestigation request requestHash (inv_ID item) commitAt;
  cr_valid : ValidResourceID (inv_ID item) = true;
  cr_fresh : investigations s !! scoped (cir_WorkspaceID request) (inv_ID item) = None;
  cr_item_valid : Investigation_Validate item = Ok tt;
  cr_taskIDs : fresh_ids (tasks s) (cir_WorkspaceID request) taskIDs /\ length taskIDs = length specs;
  cr_tasks : newTasks Transform request (scopeOf incident) (inv_ID item) commitAt 1 taskIDs specs components = Ok items;
  cr_opened : if inc_Status incident == IncidentOpen
              then exists incident', opened = Some incident' /\ Incident_TransitionAt IncidentInvestigating commitAt incident = Ok incident'
              else opened = None
}.

(** What a completion is made from. *)
Record completes (s : Repository) (request : CompleteTaskRequest) (requestHash : string) (item : Investigation) (task : ReadTask)
    (evidenceID receiptID : string) (commitAt : Time) : Prop := {
  co_normal : NormalizeCompleteTaskRequest Transform request = Ok (request, requestHash);
  co_owner : idempotencyOwnerMatches (scoped (ctr_WorkspaceID request) (ctr_IdempotencyKey request)) "complete_task" s = true;
  co_new : taskCompletionIdempotency s !! scoped (ctr_WorkspaceID request) (ctr_IdempotencyKey request) = None;
  co_item : investigations s !! scoped (ctr_WorkspaceID request) (ctr_InvestigationID request) = Some item;
  co_task : tasks s !! scoped (ctr_WorkspaceID request) (ctr_TaskID request) = Some task;
  co_scope : task_InvestigationID task = inv_ID item;
  co_open : isOpenTask (task_Status task) = true;
  co_active : isActiveInvestigation (inv_Status item) = true;
  co_evidence : if ctr_Status request == ReadTaskEvidence
                then ValidResourceID evidenceID = true /\ evidence s !! scoped (ctr_WorkspaceID request) evidenceID = None
                else evidenceID = ""%string;
  co_receipt : receipts s !! scoped (ctr_WorkspaceID request) receiptID = None;
  co_time : exists clock, investigationCommitTime (ctr_WorkspaceID request) item [] clock s = Ok commitAt;
  co_evidence_valid : forall e, storedEvidence request item task evidenceID commitAt = Some e -> Evidence_Validate e = Ok tt;
  co_receipt_valid : Receipt_Validate (newReceipt request item task receiptID evidenceID
                       (match storedEvidence request item task evidenceID commitAt with Some e => ev_ContentHash e | None => "" end)
                       commitAt) = Ok tt;
  co_task_valid : ReadTask_Validate (completedTask request evidenceID commitAt task) = Ok tt;
  co_item_valid : Investigation_Validate (progressed commitAt item) = Ok tt
}.

(** What a finalization is made from. *)
Record finalizes (s : Repository) (request : FinalizeInvestigationRequest) (requestHash : string) (item : Investigation)
    (candidates : list ReadTask) (created : list HypothesisRecord) (hypothesisIDs : list string) (commitAt : Time) : Prop := {
  fi_semantics : validFinalizationSemantics (fir_Status request) (fir_ModelStatus request) (fir_FailureCode request)
                   (fir_ModelFailureCode request) (length (fir_Hypotheses request)) = true;
  fi_owner : idempotencyOwnerMatches (scoped (fir_WorkspaceID request) (fir_IdempotencyKey request)) "finalize_investigation" s = true;
  fi_new : finalizeIdempotency s !! scoped (fir_WorkspaceID request) (fir_IdempotencyKey request) = None;
  fi_item : investigations s !! scoped (fir_WorkspaceID request) (fir_InvestigationID request) = Some item;
  fi_active : isActiveInvestigation (inv_Status item) = true;
  fi_model : validModelFinalizationTransition (inv_ModelStatus item) (fir_ModelStatus request) = true;
  fi_derived : statusAgrees request item s = Ok tt;
  fi_fresh : fresh_ids (hypotheses s) (fir_WorkspaceID request) hypothesisIDs /\
             length hypothesisIDs = length (fir_Hypotheses request);
  fi_ranked : StronglySorted Z.lt (hs_Rank <$> fir_Hypotheses request);
  fi_evidence : Forall (fun spec => exists results,
      visit (evidence s) (fir_WorkspaceID request) (fun cited => ensure (ev_InvestigationID cited == inv_ID item) ErrScopeViolation)
        (hs_EvidenceIDs spec) = Ok results) (fir_Hypotheses request);
  fi_time : exists clock, investigationCommitTime (fir_WorkspaceID request) item [] clock s = Ok commitAt;
  fi_candidates : (if fir_Status request == InvestigationCancelled
                   then cancelledTaskCandidates (fir_WorkspaceID request) (inv_ID item) (fir_FailureCode request) commitAt s
                   else Ok []) = Ok candidates;
  fi_created : newHypotheses (fir_WorkspaceID request) item hypothesisIDs (fir_Hypotheses request) commitAt = Ok created;
  fi_item_valid : Investigation_Validate (finalizedInvestigation request commitAt item) = Ok tt
}.

(** What a feedback is made from, its verdict apart. *)
Record judges (s : Repository) (request : RecordFeedbackRequest) (incident : Incident) (item : Investigation)
    (hypothesis : HypothesisRecord) (feedbackID : string) (commitAt : Time) : Prop := {
  ju_human : actor_Type (rfr_Actor request) = ActorHuman;
  ju_owner : idempotencyOwnerMatches (scoped (rfr_WorkspaceID request) (rfr_IdempotencyKey request)) "record_feedback" s = true;
  ju_new : feedbackIdempotency s !! scoped (rfr_WorkspaceID request) (rfr_IdempotencyKey request) = None;
  ju_incident : incidents s !! scoped (rfr_WorkspaceID request) (rfr_IncidentID request) = Some incident;
  ju_item : investigations s !! scoped (rfr_WorkspaceID request) (rfr_InvestigationID request) = Some item;
  ju_hypothesis : hypotheses s !! scoped (rfr_WorkspaceID request) (rfr_HypothesisID request) = Some hypothesis;
  ju_item_scope : inv_IncidentID item = inc_ID incident;
  ju_hypothesis_scope : hyp_IncidentID hypothesis = inc_ID incident /\ hyp_InvestigationID hypothesis = inv_ID item;
  ju_fresh : feedback s !! scoped (rfr_WorkspaceID request) feedbackID = None;
  ju_time : exists clock, investigationCommitTime (rfr_WorkspaceID request) item
              [inc_UpdatedAt incident; hyp_CreatedAt hypothesis] clock s = Ok commitAt;
  ju_valid : Feedback_Validate (newFeedback request incident item hypothesis feedbackID commitAt) = Ok tt
}.

Inductive commit (s : Repository) : Repository -> Prop :=
| commit_register signal tenantID :
    NormalizeSignalForReplay signal = Ok signal -> ValidResourceID tenantID = true ->
    signals s !! scoped (sig_WorkspaceID signal) (sig_ID signal) = None ->
    commit s (storeSignal signal tenantID s)
| commit_unindex key id incident :
    activeIncidentByCorrelation s !! key = Some id -> incidents s !! scoped key.1 id = Some incident ->
    isActiveIncident (inc_Status incident) = false ->
    commit s (unindexIncident key s)
| commit_resolved request signal tenantID :
    correlates s request signal tenantID -> sig_Status signal = "resolved"%string ->
    commit s (associateSignal request "" s)
| commit_open request signal tenantID clock incident :
    correlates s request signal tenantID -> sig_Status signal <> "resolved"%string -> unindexed request s ->
    incidents s !! scoped (csr_WorkspaceID request) (inc_ID incident) = None ->
    incident = openedIncident request (inc_ID incident) tenantID signal clock -> Incident_ValidateForCreate incident = Ok tt ->
    commit s (associateSignal request (inc_ID incident)
      (indexIncident (csr_WorkspaceID request) (csr_CorrelationKey request) (inc_ID incident)
        (putIncident (csr_WorkspaceID request) incident s)))
| commit_count request signal tenantID clock incident :
    correlates s request signal tenantID -> indexedIncident request s = Some incident ->
    isActiveIncident (inc_Status incident) = true -> inc_TenantID incident = tenantID ->
    inc_CorrelationKey incident = csr_CorrelationKey request -> inc_MappingStatus incident = csr_MappingStatus request ->
    inc_ServiceID incident = csr_ServiceID request -> inc_EnvironmentID incident = csr_EnvironmentID request ->
    Incident_Validate (countedIncident signal clock incident) = Ok tt ->
    commit s (associateSignal request (inc_ID incident)
      (putIncident (csr_WorkspaceID request) (countedIncident signal clock incident) s))
| commit_forget key :
    (forall id item, activeInvestigation s !! key = Some id -> investigations s !! scoped key.1 id = Some item ->
      isActiveInvestigation (inv_Status item) = false) ->
    commit s (forgetActive key s)
| commit_create request requestHash incident opened item taskIDs items specs components commitAt :
    creates s request requestHash incident opened item taskIDs items specs components commitAt ->
    commit s (storeInvestigation request requestHash opened item taskIDs items s)
| commit_join request requestHash active activeID :
    idempotencyOwnerMatches (scoped (cir_WorkspaceID request) (cir_IdempotencyKey request)) "create_investigation" s = true ->
    investigationIdempotency s !! scoped (cir_WorkspaceID request) (cir_IdempotencyKey request) = None ->
    investigations s !! scoped (cir_WorkspaceID request) activeID = Some active ->
    inv_RequestHash active = requestHash ->
    commit s (storeJoin request requestHash (inv_ID active) s)
| commit_complete request requestHash item task evidenceID receiptID commitAt :
    completes s request requestHash item task evidenceID receiptID commitAt ->
    let stored := storedEvidence request item task evidenceID commitAt in
    commit s (storeCompletion request requestHash (progressed commitAt item) (completedTask request evidenceID commitAt task) stored
      (newReceipt request item task receiptID evidenceID (match stored with Some e => ev_ContentHash e | None => "" end) commitAt) s)
| commit_model request requestHash item commitAt clock :
    idempotencyOwnerMatches (scoped (smr_WorkspaceID request) (smr_IdempotencyKey request)) "start_model" s = true ->
    modelStartIdempotency s !! scoped (smr_WorkspaceID request) (smr_IdempotencyKey request) = None ->
    investigations s !! scoped (smr_WorkspaceID request) (smr_InvestigationID request) = Some item ->
    inv_Status item = InvestigationRunning -> inv_ModelStatus item = ModelPending ->
    (exists results, visit (tasks s) (smr_WorkspaceID request)
      (fun task => ensure (isClosedTask (task_Status task)) ErrInvalidTransition)
      (taskIDsOf (smr_WorkspaceID request) (inv_ID item) s) = Ok results) ->
    investigationCommitTime (smr_WorkspaceID request) item [] clock s = Ok commitAt ->
    Investigation_Validate {| item with inv_ModelStatus := ModelRunning; inv_UpdatedAt := commitAt |} = Ok tt ->
    commit s (storeModelStart request requestHash {| item with inv_ModelStatus := ModelRunning; inv_UpdatedAt := commitAt |} s)
| commit_finalize request requestHash item candidates created hypothesisIDs commitAt :
    finalizes s request requestHash item candidates created hypothesisIDs commitAt ->
    commit s (storeFinalization request requestHash (finalizedInvestigation request commitAt item) candidates created s)
| commit_fail request requestHash item candidates commitAt clock :
    ValidFailureCode (fail_FailureCode request) = true ->
    idempotencyOwnerMatches (scoped (fail_WorkspaceID request) (fail_IdempotencyKey request)) "fail_investigation" s = true ->
    failureIdempotency s !! scoped (fail_WorkspaceID request) (fail_IdempotencyKey request) = None ->
    investigations s !! scoped (fail_WorkspaceID request) (fail_InvestigationID request) = Some item ->
    isActiveInvestigation (inv_Status item) = true ->
    investigationCommitTime (fail_WorkspaceID request) item [] clock s = Ok commitAt ->
    cancelledTaskCandidates (fail_WorkspaceID request) (inv_ID item) (fail_FailureCode request) commitAt s = Ok candidates ->
    Investigation_Validate (failedInvestigation (fail_FailureCode request) commitAt item) = Ok tt ->
    commit s (storeFailure request requestHash (failedInvestigation (fail_FailureCode request) commitAt item) candidates s)
| commit_confirm request requestHash incident item hypothesis feedbackID commitAt confirmed :
    judges s request incident item hypothesis feedbackID commitAt -> rfr_Verdict request = FeedbackConfirmed ->
    Incident_ConfirmRootCauseAt hypothesis (rfr_Actor request) commitAt incident = Ok confirmed ->
    commit s (storeFeedback request requestHash (newFeedback request incident item hypothesis feedbackID commitAt)
      (storeHypothesis request confirmed.2 {| s with
        incidents := <[scoped (rfr_WorkspaceID request) (rfr_IncidentID request) := confirmed.1]> (incidents s) |}))
| commit_reject request requestHash incident item hypothesis feedbackID commitAt :
    judges s request incident item hypothesis feedbackID commitAt -> rfr_Verdict request = FeedbackRejected ->
    hyp_Status hypothesis = HypothesisProposed ->
    commit s (storeFeedback request requestHash (newFeedback request incident item hypothesis feedbackID commitAt)
      (storeHypothesis request {| hypothesis with hyp_Status := HypothesisRejected |} s))
| commit_inconclusive request requestHash incident item hypothesis feedbackID commitAt :
    judges s request incident item hypothesis feedbackID commitAt -> rfr_Verdict request = FeedbackInconclusive ->
    commit s (storeFeedback request requestHash (newFeedback request incident item hypothesis feedbackID commitAt) s).

(** ** Every call is made of commits *)

Abbreviation commits := (rtc commit).

Lemma NormalizeSignalForReplay_Ok signal signal' : NormalizeSignalForReplay signal = Ok signal' -> signal' = signal.
Proof. unfold NormalizeSignalForReplay. intros. by accepted. Qed.

Lemma registeredAlready_None key signal s : registeredAlready key signal s = None -> signals s !! key = None.
Proof. unfold registeredAlready. intros. by repeat case_match. Qed.

Lemma RegisterSignal_locked_commits signal tenantID clock s :
  NormalizeSignalForReplay signal = Ok signal -> ValidResourceID tenantID = true ->
  wp (RegisterSignal_locked signal tenantID clock) (fun _ s' => commits s s') s.
Proof.
  intros Hn Ht. unfold RegisterSignal_locked. wp_run_all; try apply rtc_refl.
  apply rtc_once, commit_register; [done..|]. by eapply registeredAlready_None.
Qed.

Lemma correlationProbe_None request s :
  correlationProbe Transform request s = None ->
  signalIncident s !! scoped (csr_WorkspaceID request) (csr_SignalID request) = None.
Proof. unfold correlationProbe, correlationReplayLocked. intros. by repeat (case_match; simplify_eq/=). Qed.

Lemma CorrelateSignal_count_commits request tenantID signal clock incident s :
  correlates s request signal tenantID -> indexedIncident request s = Some incident ->
  isActiveIncident (inc_Status incident) = true ->
  wp (CorrelateSignal_count request tenantID signal clock incident) (fun _ s' => commits s s') s.
Proof.
  intros Hc Hi Ha. unfold CorrelateSignal_count. wp_run_all; try apply rtc_refl. guards.
  apply rtc_once. apply (commit_count s request signal tenantID clock incident); auto using passes_Ok.
Qed.

Lemma CorrelateSignal_open_commits request tenantID signal clock ids s :
  correlates s request signal tenantID -> sig_Status signal <> "resolved"%string -> unindexed request s ->
  wp (CorrelateSignal_open request tenantID signal clock ids) (fun _ s' => commits s s') s.
Proof.
  intros Hc Hs Hi. unfold CorrelateSignal_open. wp_run_all; try apply rtc_refl. guards.
  apply rtc_once. eapply (commit_open s request signal tenantID clock (openedIncident _ _ _ _ _));
    eauto using passes_Ok, present_false.
Qed.

Lemma correlates_unindex s request signal tenantID key :
  correlates s request signal tenantID -> correlates (unindexIncident key s) request signal tenantID.
Proof. by intros []. Qed.

(** An entry of the index that leads to an incident that is not active is removed. *)
Lemma stale_unindexed request incident s :
  indexedIncident request s = Some incident -> isActiveIncident (inc_Status incident) = false ->
  let s' := unindexIncident (scoped (csr_WorkspaceID request) (csr_CorrelationKey request)) s in
  commits s s' /\ unindexed request s'.
Proof.
  intros Hi Ha s'. unfold indexedIncident in Hi. split.
  - destruct (activeIncidentByCorrelation s !! _) as [id|] eqn:Hid; simpl in Hi.
    + apply rtc_once. by eapply commit_unindex.
    + replace s' with s; [apply rtc_refl|]. unfold s', unindexIncident. rewrite delete_id by done. by destruct s.
  - intros id Hid. simpl in Hid. by rewrite lookup_delete_eq in Hid.
Qed.

Lemma CorrelateSignal_rest_commits request signal tenantID clock ids s :
  correlates s request signal tenantID -> unindexed request s ->
  wp (if sig_Status signal == "resolved"%string then
        modify (associateSignal request "");; mret CorrelateSignalResult_zero
      else CorrelateSignal_open request tenantID signal clock ids) (fun _ s' => commits s s') s.
Proof.
  intros Hc Hu. wp_step; guards.
  - wp_run_all. apply rtc_once. by eapply commit_resolved.
  - by apply CorrelateSignal_open_commits.
Qed.

Lemma CorrelateSignal_locked_commits request clock ids s :
  ValidCorrelationKey (csr_CorrelationKey request) = true ->
  wp (CorrelateSignal_locked Transform request clock ids) (fun _ s' => commits s s') s.
Proof.
  intros Hk. unfold CorrelateSignal_locked.
  wp_step. wp_step. destruct (correlationProbe Transform request s) eqn:Hp; [apply rtc_refl|].
  destruct (signals s !! _) as [signal|] eqn:Hs; [|apply rtc_refl].
  destruct (signalTenants s !! _) as [tenantID|] eqn:Ht; [|apply rtc_refl].
  assert (correlates s request signal tenantID) as Hc by (constructor; auto using correlationProbe_None).
  do 2 wp_step; [|apply rtc_refl]. fold (indexedIncident request s).
  destruct (indexedIncident request s) as [incident|] eqn:Hi; [destruct (isActiveIncident _) eqn:Ha|]; simpl; do 2 wp_step.
  - by apply CorrelateSignal_count_commits.
  - destruct (stale_unindexed request incident s) as [Hcs Hu]; [done..|].
    eapply wp_mono; [|apply CorrelateSignal_rest_commits; [by apply correlates_unindex|done]].
    intros ? s' ?. by etrans.
  - apply CorrelateSignal_rest_commits; [done|]. intros id Hid. unfold indexedIncident in Hi. by rewrite Hid in Hi.
Qed.

(** ** Creation *)

Lemma newTaskIDs_Ok workspaceID ids n count created s taskIDs :
  newTaskIDs workspaceID ids n count created s = Ok taskIDs ->
  fresh_ids (tasks s) workspaceID taskIDs /\ length taskIDs = count /\ Forall (fun id => id ∉ created) taskIDs.
Proof.
  revert n created taskIDs. induction count as [|count IH]; intros n created taskIDs Hn; simpl in Hn.
  { simplify_eq. repeat split; constructor. }
  accepted. subst. guards. apply newID_Ok in H0 as [-> Hv].
  apply IH in H3 as ([Hnd Hf] & Hl & Hnew). repeat split; simpl; [|by constructor; eauto using present_false|by f_equal|].
  - constructor; [|done]. intros Hin. rewrite Forall_forall in Hnew. set_solver.
  - constructor; [done|]. eapply Forall_impl; [done|]. set_solver.
Qed.

Lemma bindEach_length ctx reading binder scope plan specs position components :
  bindEach Transform ctx reading binder scope plan specs position = Ok components -> length components = length specs.
Proof.
  revert reading position components. induction specs as [|spec specs IH]; intros reading position components Hb; simpl in Hb.
  { by simplify_eq. }
  repeat (case_match; simplify_eq/=); accepted; subst; simpl; f_equal; eauto.
Qed.

Lemma ResolveTaskRuntimeComponents_Ok ctx reading binder scope plan specs components :
  ResolveTaskRuntimeComponents Transform ctx reading binder scope plan specs = Ok components ->
  specs <> [] /\ length components = length specs.
Proof.
  unfold ResolveTaskRuntimeComponents. intros. accepted. guards. case_match; [done|].
  destruct (CanonicalTaskSpecs _ specs) as [[canonical hash]|] eqn:Hc; [|done].
  accepted. guards. unfold sameCanonicalTaskSpecs in *. guards. subst. split; [|by eapply bindEach_length].
  intros ->. unfold CanonicalTaskSpecs in Hc. by accepted.
Qed.

Lemma CreateOrGetInvestigation_new_commits request requestHash specs components incident clock ids s :
  let key := scoped (cir_WorkspaceID request) (cir_IdempotencyKey request) in
  idempotencyOwnerMatches key "create_investigation" s = true -> investigationIdempotency s !! key = None ->
  incidents s !! scoped (cir_WorkspaceID request) (cir_IncidentID request) = Some incident ->
  isActiveIncident (inc_Status incident) = true ->
  default ""%string (activeInvestigation s !! scoped (cir_WorkspaceID request) (cir_IncidentID request)) = ""%string ->
  specs <> [] -> length components = length specs ->
  wp (CreateOrGetInvestigation_new Transform request requestHash specs components incident clock ids) (fun _ s' => commits s s') s.
Proof.
  intros key ?? Hi ????. unfold CreateOrGetInvestigation_new. wp_run_all; try apply rtc_refl. guards.
  apply rtc_once. eapply (commit_create s request requestHash incident).
  destruct (newID_Ok _ _ Heqr) as [-> ?], (newTaskIDs_Ok _ _ _ _ _ _ _ Heqr0) as (? & ? & _).
  econstructor; eauto using passes_Ok, present_false.
  repeat case_match; simplify_eq; eauto.
Qed.

(** What [activeFor] answers, and what it leaves. *)
Lemma activeFor_commits workspaceID incidentID s :
  let key := scoped workspaceID incidentID in
  wp (activeFor workspaceID key) (fun r s' =>
    (exists active activeID, r = Ok (Some active) /\ s' = s /\ investigations s !! scoped workspaceID activeID = Some active) \/
    (r = Ok None /\ default ""%string (activeInvestigation s' !! key) = ""%string /\ commits s s' /\
     (s' = s \/ s' = forgetActive key s))) s.
Proof.
  intros key. assert (default ""%string (activeInvestigation (forgetActive key s) !! key) = ""%string) as Hd
    by (simpl; by rewrite lookup_delete_eq).
  unfold activeFor. wp_run_all; guards.
  - right. repeat split; [done|apply rtc_refl|by left].
  - left. eauto 6.
  - right. repeat split; [done| |by right]. apply rtc_once, commit_forget. intros id item Hid Hitem.
    rewrite Hid in Heqo. simpl in *. congruence.
  - right. repeat split; [done| |by right]. apply rtc_once, commit_forget. intros id item Hid Hitem.
    rewrite Hid in Heqo. simpl in *. congruence.
Qed.

Lemma createInvestigationReplayLocked_None workspaceID key requestHash s :
  createInvestigationReplayLocked workspaceID key requestHash s = None ->
  idempotencyOwnerMatches key "create_investigation" s = true /\ investigationIdempotency s !! key = None.
Proof. unfold createInvestigationReplayLocked. intros. by repeat (case_match; guards; simplify_eq/=). Qed.

Lemma CreateOrGetInvestigation_join_commits request requestHash scope specs components active activeID s :
  let key := scoped (cir_WorkspaceID request) (cir_IdempotencyKey request) in
  idempotencyOwnerMatches key "create_investigation" s = true -> investigationIdempotency s !! key = None ->
  investigations s !! scoped (cir_WorkspaceID request) activeID = Some active ->
  wp (CreateOrGetInvestigation_join Transform request requestHash scope specs components active) (fun _ s' => commits s s') s.
Proof.
  intros key ???. unfold CreateOrGetInvestigation_join. wp_run_all; try apply rtc_refl. guards.
  apply rtc_once. by eapply commit_join.
Qed.

Lemma CreateOrGetInvestigation_locked_commits request requestHash specs ctx authorizer binder clock ids s :
  wp (CreateOrGetInvestigation_locked Transform request requestHash specs ctx authorizer binder clock ids)
    (fun _ s' => commits s s') s.
Proof.
  unfold CreateOrGetInvestigation_locked. do 3 wp_step; [apply rtc_refl|].
  apply createInvestigationReplayLocked_None in Heqo as [Ho Hn].
  do 2 wp_step; [|apply rtc_refl]. wp_step. eapply wp_mono; [|apply activeFor_commits].
  intros r s' [(active & activeID & -> & -> & Ha)|(-> & Hd & Hc & Hs)]; cbv beta iota.
  - wp_run_all; try apply rtc_refl. by eapply CreateOrGetInvestigation_join_commits.
  - assert (idempotencyOwnerMatches (scoped (cir_WorkspaceID request) (cir_IdempotencyKey request)) "create_investigation" s' = true
      /\ investigationIdempotency s' !! scoped (cir_WorkspaceID request) (cir_IdempotencyKey request) = None
      /\ incidents s' !! scoped (cir_WorkspaceID request) (cir_IncidentID request) = Some a) as (? & ? & ?)
      by (by destruct Hs as [-> | ->]).
    wp_run_all; try done. simpl in *. destruct (ResolveTaskRuntimeComponents_Ok _ _ _ _ _ _ _ Heqr0).
    eapply wp_mono; [|by apply CreateOrGetInvestigation_new_commits]. intros ? s'' ?. by etrans.
Qed.

(** ** Progress of an investigation *)

Lemma NormalizeCompleteTaskRequest_Ok request request' requestHash :
  NormalizeCompleteTaskRequest Transform request = Ok (request', requestHash) -> request' = request.
Proof. unfold NormalizeCompleteTaskRequest. intros. accepted. congruence. Qed.

(** What a completion that was admitted stores. *)
Definition completionState (request : CompleteTaskRequest) (requestHash : string) (item : Investigation) (task : ReadTask)
    (evidenceID receiptID : string) (commitAt : Time) (s : Repository) : Repository :=
  let stored := storedEvidence request item task evidenceID commitAt in
  storeCompletion request requestHash (progressed commitAt item) (completedTask request evidenceID commitAt task) stored
    (newReceipt request item task receiptID evidenceID (match stored with Some e => ev_ContentHash e | None => "" end) commitAt) s.

Lemma CompleteTask_commit_spec request requestHash item task clock ids s :
  NormalizeCompleteTaskRequest Transform request = Ok (request, requestHash) ->
  idempotencyOwnerMatches (scoped (ctr_WorkspaceID request) (ctr_IdempotencyKey request)) "complete_task" s = true ->
  taskCompletionIdempotency s !! scoped (ctr_WorkspaceID request) (ctr_IdempotencyKey request) = None ->
  investigations s !! scoped (ctr_WorkspaceID request) (ctr_InvestigationID request) = Some item ->
  tasks s !! scoped (ctr_WorkspaceID request) (ctr_TaskID request) = Some task -> task_InvestigationID task = inv_ID item ->
  isOpenTask (task_Status task) = true -> isActiveInvestigation (inv_Status item) = true ->
  wp (CompleteTask_commit request requestHash item task clock ids) (fun r s' =>
    (exists e, r = Err e /\ s' = s) \/
    exists evidenceID receiptID commitAt, completes s request requestHash item task evidenceID receiptID commitAt /\
      s' = completionState request requestHash item task evidenceID receiptID commitAt s /\
      r = taskCompletionResult (ctr_WorkspaceID request) {| tc_requestHash := requestHash; tc_taskID := task_ID task;
            tc_evidenceID := evidenceID; tc_receiptID := receiptID |} false s') s.
Proof.
  intros. unfold CompleteTask_commit. wp_run_all; try (left; eexists; split; reflexivity); right.
  all: repeat match goal with H : newID _ = Ok _ |- _ => apply newID_Ok in H as [-> ?] end.
  all: do 3 eexists; split; [|split; reflexivity].
  all: constructor; eauto using passes_Ok; guards; eauto using present_false.
  all: try (intros e He; rewrite He in *; by apply passes_Ok).
  all: destruct (ctr_Status request == ReadTaskEvidence) eqn:?; guards; try congruence; eauto using present_false.
Qed.

Lemma CompleteTask_commits err request clock ids s :
  wp (CompleteTask Transform err request clock ids) (fun _ s' => commits s s') s.
Proof.
  unfold CompleteTask. wp_run_all; try apply rtc_refl.
  pose proof (NormalizeCompleteTaskRequest_Ok _ _ _ Heqr); subst; guards.
  eapply wp_mono; [|by apply CompleteTask_commit_spec].
  intros r s' [(e & _ & ->)|(evidenceID & receiptID & commitAt & Hco & -> & _)]; [apply rtc_refl|].
  by apply rtc_once, commit_complete.
Qed.

Lemma StartModel_commits err request clock s : wp (StartModel Transform err request clock) (fun _ s' => commits s s') s.
Proof.
  unfold StartModel. wp_run_all; try apply rtc_refl. guards. apply rtc_once. eapply commit_model; eauto using passes_Ok.
Qed.

Lemma newHypothesisIDs_Ok workspaceID item ids n specs created s hypothesisIDs :
  newHypothesisIDs workspaceID item ids n specs created s = Ok hypothesisIDs ->
  fresh_ids (hypotheses s) workspaceID hypothesisIDs /\ length hypothesisIDs = length specs /\
  Forall (fun id => id ∉ created) hypothesisIDs /\
  Forall (fun spec => exists results,
      visit (evidence s) workspaceID (fun cited => ensure (ev_InvestigationID cited == inv_ID item) ErrScopeViolation)
        (hs_EvidenceIDs spec) = Ok results) specs.
Proof.
  revert n created hypothesisIDs. induction specs as [|spec specs IH]; intros n created hypothesisIDs Hn; simpl in Hn.
  { simplify_eq. repeat split; constructor. }
  accepted. subst. guards. apply newID_Ok in H0 as [-> Hv].
  apply IH in H4 as ([Hnd Hf] & Hl & Hnew & Hev). repeat split; simpl; [|by constructor; eauto using present_false|by f_equal| |].
  - constructor; [|done]. intros Hin. rewrite Forall_forall in Hnew. set_solver.
  - constructor; [done|]. eapply Forall_impl; [done|]. set_solver.
  - constructor; eauto.
Qed.

Lemma FinalizeInvestigation_commit_commits request requestHash item clock ids s :
  validFinalizationSemantics (fir_Status request) (fir_ModelStatus request) (fir_FailureCode request)
    (fir_ModelFailureCode request) (length (fir_Hypotheses request)) = true ->
  StronglySorted Z.lt (hs_Rank <$> fir_Hypotheses request) ->
  idempotencyOwnerMatches (scoped (fir_WorkspaceID request) (fir_IdempotencyKey request)) "finalize_investigation" s = true ->
  finalizeIdempotency s !! scoped (fir_WorkspaceID request) (fir_IdempotencyKey request) = None ->
  investigations s !! scoped (fir_WorkspaceID request) (fir_InvestigationID request) = Some item ->
  isActiveInvestigation (inv_Status item) = true ->
  validModelFinalizationTransition (inv_ModelStatus item) (fir_ModelStatus request) = true ->
  wp (FinalizeInvestigation_commit request requestHash item clock ids) (fun _ s' => commits s s') s.
Proof.
  intros. unfold FinalizeInvestigation_commit. wp_run_all; try apply rtc_refl.
  destruct a. apply newHypothesisIDs_Ok in Heqr0 as (? & ? & _ & ?).
  guards. apply rtc_once. eapply commit_finalize. econstructor; eauto using passes_Ok.
Qed.

(** Sorted ranks that differ from their neighbours increase. *)
Lemma distinctRanks_sorted specs : distinctRanks (sort_Slice (fun left right => hs_Rank left <? hs_Rank right) specs) = true ->
  StronglySorted Z.lt (hs_Rank <$> sort_Slice (fun left right => hs_Rank left <? hs_Rank right) specs).
Proof.
  set (less := fun left right => hs_Rank left <? hs_Rank right).
  assert (StronglySorted (le_of less) (sort_Slice less specs)) as Hs.
  { apply sort_Slice_sorted; unfold le_of, less; intros; lia. }
  induction Hs as [|spec rest Hrest IH Hall]; [constructor|]. intros Hd. csimpl.
  assert (distinctRanks rest = true /\ forall next, head rest = Some next -> hs_Rank spec <> hs_Rank next) as [Hd' Hnext].
  { destruct rest as [|next rest]; [done|]. simpl in Hd. guards. split; [done|]. intros ? [= <-]. lia. }
  constructor; [by apply IH|]. specialize (IH Hd').
  destruct rest as [|next rest]; [constructor|]. apply Forall_cons in Hall as [Hle _]. unfold le_of, less in Hle.
  specialize (Hnext next eq_refl). inversion_clear IH as [|? ? _ Hafter]. constructor; [lia|].
  eapply Forall_impl; [exact Hafter|]. simpl. intros. lia.
Qed.

Lemma NormalizeFinalizeInvestigationRequest_Ok request request' requestHash :
  NormalizeFinalizeInvestigationRequest Transform request = Ok (request', requestHash) ->
  fir_WorkspaceID request' = fir_WorkspaceID request /\
  StronglySorted Z.lt (hs_Rank <$> fir_Hypotheses request') /\
  validFinalizationSemantics (fir_Status request') (fir_ModelStatus request') (fir_FailureCode request')
    (fir_ModelFailureCode request') (length (fir_Hypotheses request')) = true.
Proof.
  unfold NormalizeFinalizeInvestigationRequest, normalizeHypothesisSpecs. intros. accepted. simplify_eq/=. split; [done|].
  split; [by apply distinctRanks_sorted|]. by rewrite sort_Slice_perm.
Qed.

Lemma FinalizeInvestigation_commits err request clock ids s :
  wp (FinalizeInvestigation Transform err request clock ids) (fun _ s' => commits s s') s.
Proof.
  unfold FinalizeInvestigation. wp_run_all; try apply rtc_refl.
  destruct (NormalizeFinalizeInvestigationRequest_Ok _ _ _ Heqr) as (Hw & ? & ?). rewrite <- Hw in *. guards.
  by apply FinalizeInvestigation_commit_commits.
Qed.

Lemma FailInvestigation_commits err request clock s : wp (FailInvestigation Transform err request clock) (fun _ s' => commits s s') s.
Proof.
  unfold FailInvestigation. wp_run_all; try apply rtc_refl. guards. apply rtc_once.
  eapply commit_fail; eauto using passes_Ok. unfold FailInvestigationRequestHash in *. by accepted.
Qed.

Lemma NormalizeRecordFeedbackRequest_Ok request request' requestHash :
  NormalizeRecordFeedbackRequest Transform request = Ok (request', requestHash) ->
  rfr_WorkspaceID request' = rfr_WorkspaceID request /\ actor_Type (rfr_Actor request') = ActorHuman /\
  knownVerdict (rfr_Verdict request') = true.
Proof.
  unfold NormalizeRecordFeedbackRequest. intros. accepted. case_match; [|done]. accepted. guards. by simplify_eq/=.
Qed.

Lemma RecordFeedback_commits err request clock ids s :
  wp (RecordFeedback Transform err request clock ids) (fun _ s' => commits s s') s.
Proof.
  unfold RecordFeedback, judge. wp_run_all; try apply rtc_refl.
  all: destruct (NormalizeRecordFeedbackRequest_Ok _ _ _ Heqr) as (Hw & Hh & Hk); rewrite <- Hw in *; guards.
  all: match goal with H : newID _ = Ok _ |- _ => apply newID_Ok in H as [-> ?] end.
  all: match goal with
       | H : hypotheses ?st !! _ = Some ?h, H' : incidents _ !! _ = Some ?i, H'' : investigations _ !! _ = Some ?item,
         Ht : investigationCommitTime _ _ _ _ _ = Ok ?t, Hf : present (feedback _ !! scoped (rfr_WorkspaceID ?r) ?id) = false |- _ =>
           assert (judges st r i item h id t) by (econstructor; eauto using passes_Ok, present_false)
       end.
  - apply rtc_once. case_match; simplify_eq. by eapply commit_confirm.
  - apply rtc_once. by eapply commit_reject.
  - apply rtc_once. by eapply commit_inconclusive.
  - by rewrite Heqf in Hk.
Qed.

(** ** Calls *)

(** A call of a method, with what the environment answers; [between] is what other callers
    complete between the two looks of a method that has two. *)
Inductive Call :=
| CallRegisterSignal (err : option GoError) (signal : Signal) (tenant : Result string) (clock : Time) (between : list Call)
| CallCorrelateSignal (err : option GoError) (request : CorrelateSignalRequest) (clock : Time) (ids : nat -> string)
    (between : list Call)
| CallCreateOrGetInvestigation (err : option GoError) (request : CreateOrGetInvestigationRequest) (ctx : nat -> option GoError)
    (authorizer : TaskSpecScope -> TaskSpec -> option GoError) (binder : Binder) (clock : Time) (ids : nat -> string)
    (between : list Call)
| CallCompleteTask (err : option GoError) (request : CompleteTaskRequest) (clock : Time) (ids : nat -> string)
| CallStartModel (err : option GoError) (request : StartModelRequest) (clock : Time)
| CallFinalizeInvestigation (err : option GoError) (request : FinalizeInvestigationRequest) (clock : Time) (ids : nat -> string)
| CallFailInvestigation (err : option GoError) (request : FailInvestigationRequest) (clock : Time)
| CallRecordFeedback (err : option GoError) (request : RecordFeedbackRequest) (clock : Time) (ids : nat -> string).

Section Call_induction.
Context (P : Call -> Prop).
Context (Hregister : forall err signal tenant clock between, Forall P between -> P (CallRegisterSignal err signal tenant clock between)).
Context (Hcorrelate : forall err request clock ids between, Forall P between -> P (CallCorrelateSignal err request clock ids between)).
Context (Hcreate : forall err request ctx authorizer binder clock ids between, Forall P between ->
  P (CallCreateOrGetInvestigation err request ctx authorizer binder clock ids between)).
Context (Hcomplete : forall err request clock ids, P (CallCompleteTask err request clock ids)).
Context (Hmodel : forall err request clock, P (CallStartModel err request clock)).
Context (Hfinalize : forall err request clock ids, P (CallFinalizeInvestigation err request clock ids)).
Context (Hfail : forall err request clock, P (CallFailInvestigation err request clock)).
Context (Hfeedback : forall err request clock ids, P (CallRecordFeedback err request clock ids)).

Fixpoint Call_induction (c : Call) : P c :=
  let each := fix each (cs : list Call) : Forall P cs :=
    match cs with [] => Forall_nil_2 _ | c :: cs => Forall_cons_2 _ _ _ (Call_induction c) (each cs) end in
  match c with
  | CallRegisterSignal err signal tenant clock between => Hregister err signal tenant clock between (each between)
  | CallCorrelateSignal err request clock ids between => Hcorrelate err request clock ids between (each between)
  | CallCreateOrGetInvestigation err request ctx authorizer binder clock ids between =>
      Hcreate err request ctx authorizer binder clock ids between (each between)
  | CallCompleteTask err request clock ids => Hcomplete err request clock ids
  | CallStartModel err request clock => Hmodel err request clock
  | CallFinalizeInvestigation err request clock ids => Hfinalize err request clock ids
  | CallFailInvestigation err request clock => Hfail err request clock
  | CallRecordFeedback err request clock ids => Hfeedback err request clock ids
  end.
End Call_induction.

(** The repository after a call. *)
Fixpoint perform (c : Call) (s : Repository) : Repository :=
  let others between s := fold_left (fun s c => perform c s) between s in
  match c with
  | CallRegisterSignal err signal tenant clock between => (RegisterSignal err signal tenant clock (others between) s).2
  | CallCorrelateSignal err request clock ids between => (CorrelateSignal Transform err request clock ids (others between) s).2
  | CallCreateOrGetInvestigation err request ctx authorizer binder clock ids between =>
      (CreateOrGetInvestigation Transform err request ctx authorizer binder clock ids (others between) s).2
  | CallCompleteTask err request clock ids => (CompleteTask Transform err request clock ids s).2
  | CallStartModel err request clock => (StartModel Transform err request clock s).2
  | CallFinalizeInvestigation err request clock ids => (FinalizeInvestigation Transform err request clock ids s).2
  | CallFailInvestigation err request clock => (FailInvestigation Transform err request clock s).2
  | CallRecordFeedback err request clock ids => (RecordFeedback Transform err request clock ids s).2
  end.

Definition performAll (calls : list Call) (s : Repository) : Repository := fold_left (fun s c => perform c s) calls s.

(** The repository after calls on a new one. *)
Definition after (calls : list Call) : Repository := performAll calls Repository_empty.

Lemma performAll_commits_of calls s :
  Forall (fun c => forall s, commits s (perform c s)) calls -> commits s (performAll calls s).
Proof.
  intros Hcs. revert s. induction Hcs as [|c calls Hc _ IH]; intros s; [apply rtc_refl|]. simpl. etrans; [apply Hc|apply IH].
Qed.

Lemma wp_commits_between {A} (m : M Repository A) s s' :
  commits s s' -> wp m (fun _ s'' => commits s' s'') s' -> wp m (fun _ s'' => commits s s'') s'.
Proof. intros Hc. apply wp_mono. intros _ s'' ?. by etrans. Qed.

Lemma perform_commits c s : commits s (perform c s).
Proof.
  revert s. induction c as [err signal tenant clock between Hb|err request clock ids between Hb
    |err request ctx authorizer binder clock ids between Hb|err request clock ids|err request clock|err request clock ids
    |err request clock|err request clock ids] using Call_induction; intros s.
  - change (wp (RegisterSignal err signal tenant clock (performAll between)) (fun _ s' => commits s s') s).
    unfold RegisterSignal. wp_run_all; try apply rtc_refl.
    pose proof (NormalizeSignalForReplay_Ok _ _ Heqr). subst. destruct tenant as [tenantID|]; [|done]. accepted. subst.
    eapply wp_commits_between; [by apply performAll_commits_of|]. by apply RegisterSignal_locked_commits.
  - change (wp (CorrelateSignal Transform err request clock ids (performAll between)) (fun _ s' => commits s s') s).
    unfold CorrelateSignal, validCorrelation. wp_run_all; try apply rtc_refl. guards.
    eapply wp_commits_between; [by apply performAll_commits_of|]. by apply CorrelateSignal_locked_commits.
  - change (wp (CreateOrGetInvestigation Transform err request ctx authorizer binder clock ids (performAll between))
      (fun _ s' => commits s s') s).
    unfold CreateOrGetInvestigation. wp_run_all; try apply rtc_refl.
    eapply wp_commits_between; [by apply performAll_commits_of|]. apply CreateOrGetInvestigation_locked_commits.
  - apply CompleteTask_commits.
  - apply StartModel_commits.
  - apply FinalizeInvestigation_commits.
  - apply FailInvestigation_commits.
  - apply RecordFeedback_commits.
Qed.

Lemma performAll_commits calls s : commits s (performAll calls s).
Proof. apply performAll_commits_of, Forall_true. intros c s'. apply perform_commits. Qed.

Lemma after_commits calls : commits Repository_empty (after calls).
Proof. apply performAll_commits. Qed.
End history.
