(* ===== verification/InvestigationOrder.v ===== *)
(** * How the contents of the investigation repository may change

    The order [advances] between states of the repository: nothing is removed or renamed;
    signals, associations, evidence, receipts, feedback and idempotency records never change;
    an incident, an investigation, a task and a hypothesis keep their identity and move
    forward in their life, and what has ended stays as it ended. *)

From S2P Require Import Prelude.
From S2P Require Import GoText.
From S2P Require Import InvestigationDomain.
From S2P Require Import InvestigationRepository.

Open Scope Z_scope.

(** ** One resource *)

Definition isTerminalInvestigation (status : InvestigationStatus) : bool :=
  match status with
  | InvestigationPartial | InvestigationCompleted | InvestigationFailed | InvestigationCancelled => true
  | _ => false
  end.

(** How far a status is from the beginning. *)
Definition incidentStage (status : IncidentStatus) : Z :=
  match status with
  | IncidentOpen => 0 | IncidentInvestigating => 1 | IncidentMitigating => 2 | IncidentResolved => 3 | IncidentClosed => 4
  | IncidentOther _ => 0
  end.
Definition investigationStage (status : InvestigationStatus) : Z :=
  match status with InvestigationQueued => 0 | InvestigationRunning => 1 | InvestigationOther _ => 0 | _ => 2 end.
Definition modelStage (status : ModelStatus) : Z :=
  match status with ModelPending => 0 | ModelRunning => 1 | ModelOther _ => 0 | _ => 2 end.

Record Incident_advances (i i' : Incident) : Prop := {
  ia_identity : inc_ID i' = inc_ID i /\ inc_TenantID i' = inc_TenantID i /\ inc_WorkspaceID i' = inc_WorkspaceID i;
  ia_scope : inc_ServiceID i' = inc_ServiceID i /\ inc_EnvironmentID i' = inc_EnvironmentID i /\
             inc_CorrelationKey i' = inc_CorrelationKey i /\ inc_MappingStatus i' = inc_MappingStatus i;
  ia_window : inc_OpenedAt i' <= inc_OpenedAt i /\ inc_LastSignalAt i <= inc_LastSignalAt i';
  ia_counters : inc_SignalCount i <= inc_SignalCount i' /\ inc_Version i <= inc_Version i' /\ inc_UpdatedAt i <= inc_UpdatedAt i';
  ia_stage : incidentStage (inc_Status i) <= incidentStage (inc_Status i');
  ia_cause : inc_ConfirmedHypothesisID i = ""%string \/ inc_ConfirmedHypothesisID i' = inc_ConfirmedHypothesisID i
}.

Record Investigation_advances (item item' : Investigation) : Prop := {
  va_identity : inv_ID item' = inv_ID item /\ inv_WorkspaceID item' = inv_WorkspaceID item /\
                inv_IncidentID item' = inv_IncidentID item;
  va_request : inv_IdempotencyKey item' = inv_IdempotencyKey item /\ inv_RequestHash item' = inv_RequestHash item /\
               inv_RequestHashVersion item' = inv_RequestHashVersion item /\ inv_PlanBinding item' = inv_PlanBinding item;
  va_times : inv_CreatedAt item' = inv_CreatedAt item /\ inv_UpdatedAt item <= inv_UpdatedAt item';
  va_stage : investigationStage (inv_Status item) <= investigationStage (inv_Status item') /\
             modelStage (inv_ModelStatus item) <= modelStage (inv_ModelStatus item');
  va_final : isTerminalInvestigation (inv_Status item) = true -> item' = item
}.

(** What a task is about, which never changes. *)
Definition task_facts (t : ReadTask) :=
  (task_ID t, task_WorkspaceID t, task_IncidentID t, task_InvestigationID t, task_Key t, task_Position t,
   task_ConnectorID t, task_Operation t, task_Input t, task_InputHash t, task_RuntimeBinding t, task_CreatedAt t).

Record Task_advances (t t' : ReadTask) : Prop := {
  ta_facts : task_facts t' = task_facts t;
  ta_final : isClosedTask (task_Status t) = true -> t' = t;
  ta_closes : t' = t \/ isClosedTask (task_Status t') = true
}.

Record Hypothesis_advances (h h' : HypothesisRecord) : Prop := {
  ha_facts : h' = {| h with hyp_Status := hyp_Status h' |};
  ha_final : hyp_Status h <> HypothesisProposed -> h' = h
}.

#[export] Instance Incident_advances_preorder : PreOrder Incident_advances.
Proof.
  split.
  - intros i. by constructor; try lia; auto.
  - intros i1 i2 i3 [? ? ? ? ? C12] [? ? ? ? ? C23]. destruct_and!. constructor; repeat split; try congruence; try lia.
    destruct C12 as [?|E]; [by left|]. destruct C23; [left|right]; congruence.
Qed.

#[export] Instance Investigation_advances_preorder : PreOrder Investigation_advances.
Proof.
  split.
  - intros i. by constructor; try lia; auto.
  - intros i1 i2 i3 [? ? ? ? F12] [? ? ? ? F23]. destruct_and!. constructor; repeat split; try congruence; try lia.
    intros Hf. pose proof (F12 Hf). subst. auto.
Qed.

#[export] Instance Task_advances_preorder : PreOrder Task_advances.
Proof.
  split.
  - intros t. by constructor; auto.
  - intros t1 t2 t3 [? F12 C12] [? F23 C23]. constructor; [congruence| |].
    + intros Hf. rewrite (F12 Hf) in F23. auto.
    + destruct C23 as [->|]; [done|by right].
Qed.

#[export] Instance Hypothesis_advances_preorder : PreOrder Hypothesis_advances.
Proof.
  split.
  - intros h. constructor; [by destruct h|done].
  - intros h1 h2 h3 [E12 F12] [E23 F23]. constructor.
    + rewrite E23. rewrite E12. done.
    + intros Hf. rewrite (F12 Hf) in F23. auto.
Qed.

(** ** Maps *)

(** Every entry is still there, related to what it was. *)
Definition grows {A : Type} (R : relation A) (m m' : gmap scopeKey A) : Prop :=
  forall k a, m !! k = Some a -> exists a', m' !! k = Some a' /\ R a a'.

#[export] Instance grows_preorder {A : Type} (R : relation A) : PreOrder R -> PreOrder (grows R).
Proof.
  intros HR. split.
  - intros m k a Ha. by exists a.
  - intros m1 m2 m3 H12 H23 k a1 H1. destruct (H12 k a1 H1) as (a2 & H2 & ?).
    destruct (H23 k a2 H2) as (a3 & H3 & ?). exists a3. split; [done|]. by etrans.
Qed.

Lemma grows_insert {A : Type} (R : relation A) `{!Reflexive R} (m : gmap scopeKey A) k a' :
  (forall a, m !! k = Some a -> R a a') -> grows R m (<[k := a']> m).
Proof.
  intros HR j a Ha. destruct (decide (j = k)) as [->|].
  - exists a'. rewrite lookup_insert_eq. auto.
  - exists a. by rewrite lookup_insert_ne.
Qed.

Lemma grows_fresh {A : Type} (R : relation A) `{!Reflexive R} (m : gmap scopeKey A) k a' :
  m !! k = None -> grows R m (<[k := a']> m).
Proof. intros Hn. apply grows_insert; [done|]. congruence. Qed.

(** Entries that never change. *)
Abbreviation keeps := (grows eq) (only parsing).

Lemma keeps_lookup {A : Type} (m m' : gmap scopeKey A) k a : grows eq m m' -> m !! k = Some a -> m' !! k = Some a.
Proof. intros Hg Hk. by destruct (Hg k a Hk) as (? & ? & <-). Qed.

(** ** The repository *)

Record advances (s s' : Repository) : Prop := {
  ad_signals : keeps (signals s) (signals s');
  ad_tenants : keeps (signalTenants s) (signalTenants s');
  ad_incidents : grows Incident_advances (incidents s) (incidents s');
  ad_index : keeps (activeIncidentByCorrelation s) (activeIncidentByCorrelation s');
  ad_associations : keeps (signalIncident s) (signalIncident s');
  ad_investigations : grows Investigation_advances (investigations s) (investigations s');
  ad_tasks : grows Task_advances (tasks s) (tasks s');
  ad_taskIDs : keeps (taskIDsByInvestigation s) (taskIDsByInvestigation s');
  ad_creations : keeps (investigationIdempotency s) (investigationIdempotency s');
  ad_evidence : keeps (evidence s) (evidence s');
  ad_evidenceIDs : grows prefix (evidenceIDsByInvestigation s) (evidenceIDsByInvestigation s');
  ad_receipts : keeps (receipts s) (receipts s');
  ad_completions : keeps (taskCompletionIdempotency s) (taskCompletionIdempotency s');
  ad_hypotheses : grows Hypothesis_advances (hypotheses s) (hypotheses s');
  ad_hypothesisIDs : keeps (hypothesisIDsByInvestigation s) (hypothesisIDsByInvestigation s');
  ad_finalizations : keeps (finalizeIdempotency s) (finalizeIdempotency s');
  ad_failures : keeps (failureIdempotency s) (failureIdempotency s');
  ad_feedback : keeps (feedback s) (feedback s');
  ad_feedbacks : keeps (feedbackIdempotency s) (feedbackIdempotency s');
  ad_models : keeps (modelStartIdempotency s) (modelStartIdempotency s');
  ad_owners : keeps (idempotencyOwners s) (idempotencyOwners s')
}.

#[export] Instance advances_preorder : PreOrder advances.
Proof.
  split.
  - intros s. constructor; reflexivity.
  - intros s1 s2 s3 [] []. constructor; etrans; eassumption.
Qed.
