(* ===== verification/InvestigationInvariant.v ===== *)
(** * The invariant of the investigation repository

    [well_kept] says of every entry of every map of the repository that it is where its
    identifiers say, that it passes its own [Validate], and how it is tied to the others:
    tasks to their investigation and to the incident it is of, evidence and receipts to tasks,
    hypotheses to evidence, feedback to hypotheses, idempotency records to their operation and
    to what it made.  All of it lasts when the repository [advances].  [Inv] adds what is about
    the repository as it is now: the signals an incident counts, the investigation that is
    active, and how far the tasks of an investigation are. *)

From S2P Require Import Prelude.
From S2P Require Import Sha256.
From S2P Require Import GoText.
From S2P Require Import GoSort.
From S2P Require Import GoUnicode.
From S2P Require Import SafeText.
From S2P Require Import InvestigationDomain.
From S2P Require Import TaskSpecs.
From S2P Require Import InvestigationRequests.
From S2P Require Import InvestigationRepository.
From S2P Require Import InvestigationHistory.
From S2P Require Import InvestigationOrder.

Open Scope Z_scope.

Section invariant.
Context `{Unicode} (Transform : string -> Result string).
Implicit Types (s : Repository) (k : scopeKey).

(** ** Entries *)

Definition signal_ok s k (x : Signal) : Prop :=
  k = scoped (sig_WorkspaceID x) (sig_ID x) /\ NormalizeSignalForReplay x = Ok x /\
  exists tenantID, signalTenants s !! k = Some tenantID /\ ValidResourceID tenantID = true.

Definition tenant_ok s k (tenantID : string) : Prop := is_Some (signals s !! k).

Definition incident_ok s k (i : Incident) : Prop :=
  k = scoped (inc_WorkspaceID i) (inc_ID i) /\ Incident_Validate i = Ok tt /\ inc_CorrelationKey i <> ""%string /\
  isActiveIncident (inc_Status i) = true /\
  activeIncidentByCorrelation s !! scoped k.1 (inc_CorrelationKey i) = Some (inc_ID i).

Definition cause_ok s k (i : Incident) : Prop :=
  inc_ConfirmedHypothesisID i <> ""%string ->
  exists h, hypotheses s !! scoped k.1 (inc_ConfirmedHypothesisID i) = Some h /\ hyp_Status h = HypothesisConfirmed /\
    hyp_IncidentID h = inc_ID i.

Definition index_ok s k (id : string) : Prop :=
  exists i, incidents s !! scoped k.1 id = Some i /\ inc_CorrelationKey i = k.2.

Definition association_ok s k (a : signalAssociationRecord) : Prop :=
  exists x, signals s !! k = Some x /\
    (assoc_incidentID a = ""%string /\ sig_Status x = "resolved"%string \/
     assoc_incidentID a <> ""%string /\
     exists i, incidents s !! scoped k.1 (assoc_incidentID a) = Some i /\ signalTenants s !! k = Some (inc_TenantID i) /\
       assoc_correlationKey a = inc_CorrelationKey i /\ assoc_mappingStatus a = inc_MappingStatus i /\
       assoc_serviceID a = inc_ServiceID i /\ assoc_environmentID a = inc_EnvironmentID i).

Definition investigation_ok s k (item : Investigation) : Prop :=
  k = scoped (inv_WorkspaceID item) (inv_ID item) /\ Investigation_Validate item = Ok tt /\
  inv_RequestHashVersion item = InvestigationCreateRequestVersionV2 /\
  is_Some (incidents s !! scoped k.1 (inv_IncidentID item)) /\
  (exists ids, taskIDsByInvestigation s !! k = Some ids /\ ids <> [] /\
    forall n id, ids !! n = Some id -> exists t, tasks s !! scoped k.1 id = Some t /\ task_InvestigationID t = inv_ID item /\
      task_Position t = Z.of_nat n + 1).

(** An investigation that ended in part has a task that gave no evidence; one whose model
    completed has hypotheses. *)
Definition ending_ok s k (item : Investigation) : Prop :=
  (inv_Status item = InvestigationPartial ->
    exists id t, tasks s !! scoped k.1 id = Some t /\ task_InvestigationID t = inv_ID item /\
      isClosedTask (task_Status t) = true /\ task_Status t <> ReadTaskEvidence) /\
  (inv_ModelStatus item = ModelCompleted -> exists ids, hypothesisIDsByInvestigation s !! k = Some ids /\ ids <> []).

Definition taskIDs_ok s k (ids : list string) : Prop := is_Some (investigations s !! k).

Definition task_ok s k (t : ReadTask) : Prop :=
  k = scoped (task_WorkspaceID t) (task_ID t) /\ ReadTask_Validate t = Ok tt /\
  (exists ids, taskIDsByInvestigation s !! scoped k.1 (task_InvestigationID t) = Some ids /\ task_ID t ∈ ids) /\
  (exists item, investigations s !! scoped k.1 (task_InvestigationID t) = Some item /\ task_IncidentID t = inv_IncidentID item) /\
  (task_Status t = ReadTaskEvidence ->
    exists e, evidence s !! scoped k.1 (task_EvidenceID t) = Some e /\ ev_TaskID e = task_ID t).

(** What the runtime binding of a task was built from. *)
Definition specOf (t : ReadTask) : TaskSpec :=
  {| spec_Key := task_Key t; spec_ConnectorID := task_ConnectorID t; spec_Operation := task_Operation t; spec_Input := task_Input t |}.
Definition componentsOf (binding : ReadTaskRuntimeBinding) : TaskRuntimeComponents :=
  {| trc_ConnectorDigest := rtb_ConnectorDigest binding; trc_TargetDigest := rtb_TargetDigest binding;
     trc_ExecutorDigest := rtb_ExecutorDigest binding |}.

Definition binding_ok s k (t : ReadTask) : Prop :=
  exists item i, investigations s !! scoped k.1 (task_InvestigationID t) = Some item /\
    incidents s !! scoped k.1 (inv_IncidentID item) = Some i /\
    BuildReadTaskRuntimeBinding Transform (scopeOf i) (inv_PlanBinding item) (specOf t) (task_Position t)
      (componentsOf (task_RuntimeBinding t)) (task_CreatedAt t) = Ok (task_RuntimeBinding t).

Definition evidence_ok s k (e : Evidence) : Prop :=
  k = scoped (ev_WorkspaceID e) (ev_ID e) /\ Evidence_Validate e = Ok tt /\
  (exists t, tasks s !! scoped k.1 (ev_TaskID e) = Some t /\ task_Status t = ReadTaskEvidence /\ task_EvidenceID t = ev_ID e /\
    task_InvestigationID t = ev_InvestigationID e /\ task_IncidentID t = ev_IncidentID e /\ task_ConnectorID t = ev_ConnectorID e) /\
  (exists ids, evidenceIDsByInvestigation s !! scoped k.1 (ev_InvestigationID e) = Some ids /\ ev_ID e ∈ ids).

Definition evidenceIDs_ok s k (ids : list string) : Prop :=
  Forall (fun id => exists e, evidence s !! scoped k.1 id = Some e /\ ev_InvestigationID e = k.2) ids /\ NoDup ids.

Definition receipt_ok s k (r : RunnerEvidenceReceipt) : Prop :=
  k = scoped (rcp_WorkspaceID r) (rcp_ID r) /\ Receipt_Validate r = Ok tt /\
  exists t, tasks s !! scoped k.1 (rcp_TaskID r) = Some t /\ isClosedTask (task_Status t) = true /\
    task_EvidenceID t = rcp_EvidenceID r /\ task_FailureCode t = rcp_FailureCode r /\
    task_InvestigationID t = rcp_InvestigationID r /\ task_ConnectorID t = rcp_ConnectorID r.

Definition hypothesis_ok s k (h : HypothesisRecord) : Prop :=
  k = scoped (hyp_WorkspaceID h) (hyp_ID h) /\ Hypothesis_Validate h = Ok tt /\
  (exists item, investigations s !! scoped k.1 (hyp_InvestigationID h) = Some item /\
    isTerminalInvestigation (inv_Status item) = true /\ inv_ModelStatus item = ModelCompleted /\
    inv_IncidentID item = hyp_IncidentID h) /\
  Forall (fun id => exists e, evidence s !! scoped k.1 id = Some e /\ ev_InvestigationID e = hyp_InvestigationID h)
    (hyp_EvidenceIDs h) /\
  (exists ids, hypothesisIDsByInvestigation s !! scoped k.1 (hyp_InvestigationID h) = Some ids /\ hyp_ID h ∈ ids).

(** The hypotheses of an investigation are listed by their ranks. *)
Definition hypothesisIDs_ok s k (ids : list string) : Prop :=
  (exists item, investigations s !! k = Some item /\ isTerminalInvestigation (inv_Status item) = true) /\
  Forall (fun id => exists h, hypotheses s !! scoped k.1 id = Some h /\ hyp_InvestigationID h = k.2) ids /\
  (exists ranks, StronglySorted Z.lt ranks /\
     Forall2 (fun id rank => exists h, hypotheses s !! scoped k.1 id = Some h /\ hyp_Rank h = rank) ids ranks).

(** The verdict a hypothesis that was judged was given. *)
Definition verdictOf (status : HypothesisStatus) : FeedbackVerdict :=
  match status with HypothesisConfirmed => FeedbackConfirmed | HypothesisRejected => FeedbackRejected | _ => FeedbackInconclusive end.

Definition judged_ok s k (h : HypothesisRecord) : Prop :=
  (hyp_Status h = HypothesisConfirmed ->
    exists i, incidents s !! scoped k.1 (hyp_IncidentID h) = Some i /\ inc_ConfirmedHypothesisID i = hyp_ID h /\ hyp_ID h <> ""%string) /\
  (hyp_Status h <> HypothesisProposed ->
    exists id f, feedback s !! scoped k.1 id = Some f /\ fb_HypothesisID f = hyp_ID h /\ actor_Type (fb_Actor f) = ActorHuman /\
      fb_Verdict f = verdictOf (hyp_Status h)).

Definition feedback_ok s k (f : Feedback) : Prop :=
  k = scoped (fb_WorkspaceID f) (fb_ID f) /\ Feedback_Validate f = Ok tt /\
  exists h, hypotheses s !! scoped k.1 (fb_HypothesisID f) = Some h /\ hyp_IncidentID h = fb_IncidentID f /\
    hyp_InvestigationID h = fb_InvestigationID f.

(** ** Idempotency records *)

Definition creation_ok s k (r : idempotencyRecord) : Prop :=
  idempotencyOwners s !! k = Some "create_investigation"%string /\
  exists item, investigations s !! scoped k.1 (idem_resourceID r) = Some item /\ inv_RequestHash item = idem_requestHash r.

Definition completion_ok s k (r : taskCompletionRecord) : Prop :=
  idempotencyOwners s !! k = Some "complete_task"%string /\
  (exists t, tasks s !! scoped k.1 (tc_taskID r) = Some t /\ isClosedTask (task_Status t) = true /\
    task_EvidenceID t = tc_evidenceID r) /\
  (exists receipt, receipts s !! scoped k.1 (tc_receiptID r) = Some receipt /\ rcp_TaskID receipt = tc_taskID r) /\
  (tc_evidenceID r <> ""%string -> exists e, evidence s !! scoped k.1 (tc_evidenceID r) = Some e /\ ev_TaskID e = tc_taskID r).

Definition modelStart_ok s k (r : modelStartRecord) : Prop :=
  idempotencyOwners s !! k = Some "start_model"%string /\ sma_Replayed (ms_result r) = false /\
  exists item, investigations s !! scoped k.1 (inv_ID (sma_Investigation (ms_result r))) = Some item /\
    Investigation_advances (sma_Investigation (ms_result r)) item.

Definition finalization_ok s k (r : finalizeRecord) : Prop :=
  idempotencyOwners s !! k = Some "finalize_investigation"%string /\ fia_Replayed (fin_result r) = false /\
  let item := fia_Investigation (fin_result r) in
  investigations s !! scoped k.1 (inv_ID item) = Some item /\ isTerminalInvestigation (inv_Status item) = true /\
  Forall (fun h => exists h', hypotheses s !! scoped k.1 (hyp_ID h) = Some h' /\ Hypothesis_advances h h') (fia_Hypotheses (fin_result r)).

Definition failure_ok s k (r : idempotencyRecord) : Prop :=
  idempotencyOwners s !! k = Some "fail_investigation"%string /\
  exists item, investigations s !! scoped k.1 (idem_resourceID r) = Some item /\ inv_Status item = InvestigationFailed.

Definition feedbackRecord_ok s k (r : idempotencyRecord) : Prop :=
  idempotencyOwners s !! k = Some "record_feedback"%string /\ is_Some (feedback s !! scoped k.1 (idem_resourceID r)).

(** ** What lasts *)

Record well_kept s : Prop := {
  wk_signals : map_Forall (signal_ok s) (signals s);
  wk_tenants : map_Forall (tenant_ok s) (signalTenants s);
  wk_incidents : map_Forall (incident_ok s) (incidents s);
  wk_causes : map_Forall (cause_ok s) (incidents s);
  wk_index : map_Forall (index_ok s) (activeIncidentByCorrelation s);
  wk_associations : map_Forall (association_ok s) (signalIncident s);
  wk_investigations : map_Forall (investigation_ok s) (investigations s);
  wk_endings : map_Forall (ending_ok s) (investigations s);
  wk_taskIDs : map_Forall (taskIDs_ok s) (taskIDsByInvestigation s);
  wk_tasks : map_Forall (task_ok s) (tasks s);
  wk_bindings : map_Forall (binding_ok s) (tasks s);
  wk_evidence : map_Forall (evidence_ok s) (evidence s);
  wk_evidenceIDs : map_Forall (evidenceIDs_ok s) (evidenceIDsByInvestigation s);
  wk_receipts : map_Forall (receipt_ok s) (receipts s);
  wk_hypotheses : map_Forall (hypothesis_ok s) (hypotheses s);
  wk_hypothesisIDs : map_Forall (hypothesisIDs_ok s) (hypothesisIDsByInvestigation s);
  wk_judged : map_Forall (judged_ok s) (hypotheses s);
  wk_feedback : map_Forall (feedback_ok s) (feedback s);
  wk_creations : map_Forall (creation_ok s) (investigationIdempotency s);
  wk_completions : map_Forall (completion_ok s) (taskCompletionIdempotency s);
  wk_models : map_Forall (modelStart_ok s) (modelStartIdempotency s);
  wk_finalizations : map_Forall (finalization_ok s) (finalizeIdempotency s);
  wk_failures : map_Forall (failure_ok s) (failureIdempotency s);
  wk_feedbacks : map_Forall (feedbackRecord_ok s) (feedbackIdempotency s)
}.

(** ** Entries last *)

Section monotone.
Context (s s' : Repository) (Hadv : advances s s').

(** An entry of a map whose entries do not change. *)
Ltac kept := eapply keeps_lookup; [apply Hadv|done].

(** Where an entry of [s] is in [s'], and how it is related to what it was. *)
Lemma incident_later k i : incidents s !! k = Some i -> exists i', incidents s' !! k = Some i' /\ Incident_advances i i'.
Proof. apply (ad_incidents _ _ Hadv). Qed.
Lemma investigation_later k item :
  investigations s !! k = Some item -> exists item', investigations s' !! k = Some item' /\ Investigation_advances item item'.
Proof. apply (ad_investigations _ _ Hadv). Qed.
Lemma task_later k t : tasks s !! k = Some t -> exists t', tasks s' !! k = Some t' /\ Task_advances t t'.
Proof. apply (ad_tasks _ _ Hadv). Qed.
Lemma hypothesis_later k h : hypotheses s !! k = Some h -> exists h', hypotheses s' !! k = Some h' /\ Hypothesis_advances h h'.
Proof. apply (ad_hypotheses _ _ Hadv). Qed.
Lemma closed_later k t : tasks s !! k = Some t -> isClosedTask (task_Status t) = true -> tasks s' !! k = Some t.
Proof. intros Hk Hc. destruct (task_later k t Hk) as (t' & ? & [_ Hf _]). by rewrite (Hf Hc) in *. Qed.
Lemma terminal_later k item :
  investigations s !! k = Some item -> isTerminalInvestigation (inv_Status item) = true -> investigations s' !! k = Some item.
Proof. intros Hk Ht. destruct (investigation_later k item Hk) as (? & ? & [_ _ _ _ Hf]). by rewrite (Hf Ht) in *. Qed.
Lemma judged_later k h : hypotheses s !! k = Some h -> hyp_Status h <> HypothesisProposed -> hypotheses s' !! k = Some h.
Proof. intros Hk Hj. destruct (hypothesis_later k h Hk) as (? & ? & [_ Hf]). by rewrite (Hf Hj) in *. Qed.

Lemma signal_ok_later k x : signal_ok s k x -> signal_ok s' k x.
Proof.
  intros (? & ? & tenantID & Ht & ?). repeat split; [done..|]. exists tenantID. split; [|done]. kept.
Qed.

Lemma tenant_ok_later k tenantID : tenant_ok s k tenantID -> tenant_ok s' k tenantID.
Proof. intros [x Hx]. exists x. kept. Qed.

Lemma incident_ok_later k i : incident_ok s k i -> incident_ok s' k i.
Proof. intros (? & ? & ? & ? & ?). repeat split; [done..|]. kept. Qed.

Lemma cause_ok_later k i : cause_ok s k i -> cause_ok s' k i.
Proof.
  intros Hc Hn. destruct (Hc Hn) as (h & Hh & Hs & ?). exists h. split; [|done]. apply judged_later; [done|congruence].
Qed.

Lemma index_ok_later k id : index_ok s k id -> index_ok s' k id.
Proof. intros (i & Hi & ?). destruct (incident_later _ _ Hi) as (i' & ? & []). exists i'. destruct_and!. split; [done|congruence]. Qed.

Lemma association_ok_later k a : association_ok s k a -> association_ok s' k a.
Proof.
  intros (x & Hx & [?|(? & i & Hi & Ht & ?)]); exists x; (split; [kept|]); [by left|right].
  split; [done|]. destruct (incident_later _ _ Hi) as (i' & ? & []). exists i'. destruct_and!.
  split; [done|]. split; [eapply keeps_lookup; [apply Hadv|congruence]|]. repeat split; congruence.
Qed.

Lemma investigation_ok_later k item : investigation_ok s k item -> investigation_ok s' k item.
Proof.
  intros (? & ? & ? & [i Hi] & ids & Hids & ? & Hts). destruct (incident_later _ _ Hi) as (i' & ? & _).
  repeat split; [done..|by exists i'|]. exists ids. repeat split; [kept|done|].
  intros n id Hn. destruct (Hts n id Hn) as (t & Ht & ? & ?). destruct (task_later _ _ Ht) as (t' & ? & [Hf _ _]).
  exists t'. unfold task_facts in Hf. split; [done|]. split; congruence.
Qed.

Lemma ending_ok_later k item : ending_ok s k item -> ending_ok s' k item.
Proof.
  intros [Hp Hm]. split.
  - intros Hs. destruct (Hp Hs) as (id & t & ? & ? & ? & ?). exists id, t. repeat split; [|done..]. by apply closed_later.
  - intros Hs. destruct (Hm Hs) as (ids & ? & ?). exists ids. split; [|done]. kept.
Qed.

Lemma taskIDs_ok_later k ids : taskIDs_ok s k ids -> taskIDs_ok s' k ids.
Proof. intros [item Hi]. destruct (investigation_later _ _ Hi) as (item' & ? & _). by exists item'. Qed.

Lemma task_ok_later k t : task_ok s k t -> task_ok s' k t.
Proof.
  intros (? & ? & (ids & ? & ?) & (item & Hi & ?) & Hp). destruct (investigation_later _ _ Hi) as (item' & ? & []). destruct_and!.
  repeat split; [done..| | |].
  - exists ids. split; [|done]. kept.
  - exists item'. split; [done|congruence].
  - intros Hs. destruct (Hp Hs) as (e & ? & ?). exists e. split; [|done]. kept.
Qed.

Lemma scopeOf_advances i i' : Incident_advances i i' -> scopeOf i' = scopeOf i.
Proof. intros []. destruct_and!. unfold scopeOf. congruence. Qed.

Lemma binding_ok_later k t : binding_ok s k t -> binding_ok s' k t.
Proof.
  intros (item & i & Hitem & Hi & Hb). destruct (investigation_later _ _ Hitem) as (item' & ? & []).
  destruct (incident_later _ _ Hi) as (i' & ? & Hii). destruct_and!. exists item', i'. split; [done|].
  rewrite (scopeOf_advances _ _ Hii). split; congruence.
Qed.

Lemma evidence_ok_later k e : evidence_ok s k e -> evidence_ok s' k e.
Proof.
  intros (? & ? & (t & Ht & Hs & ?) & ids & Hids & ?). destruct (ad_evidenceIDs _ _ Hadv _ _ Hids) as (ids' & ? & [more ->]).
  repeat split; [done..| |].
  - exists t. split; [|done]. apply closed_later; [done|by rewrite Hs].
  - exists (ids ++ more). set_solver.
Qed.

Lemma evidenceIDs_ok_later k ids : evidenceIDs_ok s k ids -> evidenceIDs_ok s' k ids.
Proof.
  intros [Hf Hnd]. split; [|done]. eapply Forall_impl; [exact Hf|]. intros id (e & ? & ?). exists e. split; [|done]. kept.
Qed.

Lemma receipt_ok_later k r : receipt_ok s k r -> receipt_ok s' k r.
Proof. intros (? & ? & t & ? & ? & ?). repeat split; [done..|]. exists t. split; [by apply closed_later|done]. Qed.

Lemma hypothesis_ok_later k h : hypothesis_ok s k h -> hypothesis_ok s' k h.
Proof.
  intros (? & ? & (item & ? & ? & ?) & Hev & ids & ? & ?). repeat split; [done..| | |].
  - exists item. split; [by apply terminal_later|done].
  - eapply Forall_impl; [exact Hev|]. intros id (e & ? & ?). exists e. split; [|done]. kept.
  - exists ids. split; [|done]. kept.
Qed.

Lemma hypothesisIDs_ok_later k ids : hypothesisIDs_ok s k ids -> hypothesisIDs_ok s' k ids.
Proof.
  intros ((item & ? & ?) & Hf & ranks & Hs & Hr). split; [exists item; split; [by apply terminal_later|done]|]. split.
  - eapply Forall_impl; [exact Hf|]. intros id (h & Hh & ?). destruct (hypothesis_later _ _ Hh) as (h' & ? & [Heq _]).
    exists h'. split; [done|]. by rewrite Heq.
  - exists ranks. split; [done|]. eapply Forall2_impl; [exact Hr|]. intros id rank (h & Hh & ?).
    destruct (hypothesis_later _ _ Hh) as (h' & ? & [Heq _]). exists h'. split; [done|]. by rewrite Heq.
Qed.

Lemma judged_ok_later k h : judged_ok s k h -> judged_ok s' k h.
Proof.
  intros [Hc Hj]. split.
  - intros Hs. destruct (Hc Hs) as (i & Hi & Heq & ?). destruct (incident_later _ _ Hi) as (i' & ? & [? ? ? ? ? Hcause]).
    exists i'. repeat split; [done| |done]. destruct Hcause; congruence.
  - intros Hs. destruct (Hj Hs) as (id & f & ? & ?). exists id, f. split; [|done]. kept.
Qed.

Lemma feedback_ok_later k f : feedback_ok s k f -> feedback_ok s' k f.
Proof.
  intros (? & ? & h & Hh & ? & ?). destruct (hypothesis_later _ _ Hh) as (h' & ? & [Heq _]).
  repeat split; [done..|]. exists h'. split; [done|]. by rewrite Heq.
Qed.

Lemma owner_later k operation : idempotencyOwners s !! k = Some operation -> idempotencyOwners s' !! k = Some operation.
Proof. apply keeps_lookup, Hadv. Qed.

Lemma creation_ok_later k r : creation_ok s k r -> creation_ok s' k r.
Proof.
  intros (? & item & Hi & ?). split; [by apply owner_later|]. destruct (investigation_later _ _ Hi) as (item' & ? & []).
  destruct_and!. exists item'. split; congruence.
Qed.

Lemma completion_ok_later k r : completion_ok s k r -> completion_ok s' k r.
Proof.
  intros (? & (t & ? & ? & ?) & (receipt & ? & ?) & He). split; [by apply owner_later|]. split; [|split].
  - exists t. split; [by apply closed_later|done].
  - exists receipt. split; [|done]. kept.
  - intros Hn. destruct (He Hn) as (e & ? & ?). exists e. split; [|done]. kept.
Qed.

Lemma modelStart_ok_later k r : modelStart_ok s k r -> modelStart_ok s' k r.
Proof.
  intros (? & ? & item & Hi & ?). destruct (investigation_later _ _ Hi) as (item' & ? & ?).
  repeat split; [by apply owner_later|done|]. exists item'. split; [done|by etrans].
Qed.

Lemma finalization_ok_later k r : finalization_ok s k r -> finalization_ok s' k r.
Proof.
  intros (? & ? & ? & ? & Hf). repeat split; [by apply owner_later|done|by apply terminal_later|done|].
  eapply Forall_impl; [exact Hf|]. intros h (h' & Hh & ?). destruct (hypothesis_later _ _ Hh) as (h'' & ? & ?).
  exists h''. split; [done|by etrans].
Qed.

Lemma failure_ok_later k r : failure_ok s k r -> failure_ok s' k r.
Proof.
  intros (? & item & ? & Hs). split; [by apply owner_later|]. exists item. split; [|done].
  apply terminal_later; [done|by rewrite Hs].
Qed.

Lemma feedbackRecord_ok_later k r : feedbackRecord_ok s k r -> feedbackRecord_ok s' k r.
Proof.
  intros [? [f Hf]]. split; [by apply owner_later|]. exists f. kept.
Qed.
End monotone.

(** ** The repository as it is *)

(** The associations of signals to an incident. *)
Definition members s k : gmap scopeKey signalAssociationRecord :=
  filter (fun p => p.1.1 = k.1 /\ assoc_incidentID p.2 = k.2) (signalIncident s).

(** An incident counts the signals associated with it and spans the instants they were observed at. *)
Record counted s k (i : Incident) : Prop := {
  ct_count : inc_SignalCount i = Z.of_nat (size (members s k));
  ct_window : forall j a, members s k !! j = Some a ->
    exists x, signals s !! j = Some x /\ inc_OpenedAt i <= sig_ObservedAt x <= inc_LastSignalAt i;
  ct_first : exists j a x, members s k !! j = Some a /\ signals s !! j = Some x /\ sig_ObservedAt x = inc_OpenedAt i;
  ct_last : exists j a x, members s k !! j = Some a /\ signals s !! j = Some x /\ sig_ObservedAt x = inc_LastSignalAt i
}.

(** The active investigation of an incident is the one the index names. *)
Definition activeOnly s : Prop :=
  forall w incidentID id, activeInvestigation s !! scoped w incidentID = Some id <->
    exists item, investigations s !! scoped w id = Some item /\ inv_IncidentID item = incidentID /\
      isActiveInvestigation (inv_Status item) = true.

(** What the status of an investigation says of its tasks. *)
Definition in_phase (item : Investigation) (t : ReadTask) : Prop :=
  match inv_Status item with
  | InvestigationQueued => task_Status t = ReadTaskQueued
  | InvestigationRunning =>
      (task_Status t = ReadTaskQueued \/ isClosedTask (task_Status t) = true) /\
      (inv_ModelStatus item = ModelRunning -> isClosedTask (task_Status t) = true)
  | InvestigationCompleted => task_Status t = ReadTaskEvidence
  | _ => isClosedTask (task_Status t) = true
  end.

Definition phased s : Prop :=
  forall k t item, tasks s !! k = Some t -> investigations s !! scoped k.1 (task_InvestigationID t) = Some item -> in_phase item t.

Record Inv s : Prop := {
  ri_kept : well_kept s;
  ri_counted : map_Forall (counted s) (incidents s);
  ri_active : activeOnly s;
  ri_phased : phased s
}.

Lemma Inv_empty : Inv Repository_empty.
Proof.
  constructor; [constructor; apply map_Forall_empty|apply map_Forall_empty| |].
  - intros w incidentID id. split; [done|]. by intros (? & ? & _).
  - by intros k t item Ht.
Qed.
End invariant.

Create HintDb later.
#[export] Hint Resolve signal_ok_later tenant_ok_later incident_ok_later cause_ok_later index_ok_later association_ok_later
  investigation_ok_later ending_ok_later taskIDs_ok_later task_ok_later binding_ok_later evidence_ok_later evidenceIDs_ok_later receipt_ok_later
  hypothesis_ok_later hypothesisIDs_ok_later judged_ok_later feedback_ok_later creation_ok_later completion_ok_later
  modelStart_ok_later finalization_ok_later failure_ok_later feedbackRecord_ok_later : later.
