(* ===== verification/InvestigationPreservation.v ===== *)
(** * Commits keep the invariant of the investigation repository *)

From S2P Require Import Prelude.
From S2P Require Import Sha256.
From S2P Require Import GoText.
From S2P Require Import GoUnicode.
From S2P Require Import SafeText.
From S2P Require Import InvestigationDomain.
From S2P Require Import TaskSpecs.
From S2P Require Import InvestigationRequests.
From S2P Require Import InvestigationRepository.
From S2P Require Import InvestigationHistory.
From S2P Require Import InvestigationOrder.
From S2P Require Import InvestigationInvariant.

Open Scope Z_scope.

(** The entries of [s], in a state that [s] advances to. *)
Ltac old_entries s Hk :=
  lazymatch goal with
  | |- map_Forall (?F _) _ => eapply (map_Forall_impl (F s)); [apply Hk|intros ? ? ?; eauto with later]
  end.

(** A commit that writes few maps: the others are as they were. *)
Ltac others_unchanged := constructor; try reflexivity.

(** [well_kept] of an advanced state, up to the maps that were written. *)
Ltac rest_kept s Hk := constructor; try solve [old_entries s Hk].

Lemma latestTime_from latest times :
  latest <= foldl (fun latest candidate => if After candidate latest then candidate else latest) latest times /\
  forall t, t ∈ times -> t <= foldl (fun latest candidate => if After candidate latest then candidate else latest) latest times.
Proof.
  unfold After. revert latest. induction times as [|t times IH]; intros latest; simpl; [split; [done|by intros ? ?%elem_of_nil]|].
  destruct (latest <? t) eqn:Hlt; guards.
  - destruct (IH t) as [? Hall]. split; [lia|]. intros u [->|Hu]%elem_of_cons; [done|]. by apply Hall.
  - destruct (IH latest) as [? Hall]. split; [lia|]. intros u [->|Hu]%elem_of_cons; [lia|]. by apply Hall.
Qed.

Lemma latestTime_ge times t : t ∈ times -> t <= latestTime times.
Proof. apply (latestTime_from 0 times). Qed.

(** ** Several writes to a map *)

Lemma putAll_lookup {A : Type} (id : A -> string) (w : string) (items : list A) (m : gmap scopeKey A) (k : scopeKey) (a : A) :
  NoDup (id <$> items) ->
  (foldl (fun m a => <[scoped w (id a) := a]> m) m items) !! k = Some a <->
  (a ∈ items /\ k = scoped w (id a)) \/ ((k ∉ (fun a => scoped w (id a)) <$> items) /\ m !! k = Some a).
Proof.
  revert m. induction items as [|b items IH]; intros m; simpl; [set_solver|].
  intros [Hnew Hnd]%NoDup_cons. rewrite IH by done. rewrite lookup_insert_Some. set_unfold. split.
  - intros [[? ->]|[Hni [[<- <-]|[? ?]]]]; [by left; auto|by left; auto|]. right. split; [|done]. intros [->|?]; auto.
  - intros [[[->|?] ->]|[Hni ?]]; [|by left|].
    + right. split; [|by left]. intros (x & [= Heq] & ?). apply Hnew. eauto.
    + right. split; [naive_solver|]. right. split; [|done]. naive_solver.
Qed.

Lemma putAll_grows {A : Type} (R : relation A) `{!Reflexive R} (id : A -> string) (w : string) (items : list A) (m : gmap scopeKey A) :
  NoDup (id <$> items) -> (forall a old, a ∈ items -> m !! scoped w (id a) = Some old -> R old a) ->
  grows R m (foldl (fun m a => <[scoped w (id a) := a]> m) m items).
Proof.
  intros Hnd HR k old Hold. destruct (decide (k ∈ (fun a => scoped w (id a)) <$> items)) as [Hin|Hni].
  - apply list_elem_of_fmap in Hin as (a & -> & Ha). exists a. split; [apply putAll_lookup; auto|]. by apply HR.
  - exists old. split; [apply putAll_lookup; auto|done].
Qed.

(** What holds of the entries that were there and of those that are written holds of all. *)
Lemma putAll_Forall {A : Type} (P : scopeKey -> A -> Prop) (id : A -> string) (w : string) (items : list A) (m : gmap scopeKey A) :
  NoDup (id <$> items) -> map_Forall P m -> (forall a, a ∈ items -> P (scoped w (id a)) a) ->
  map_Forall P (foldl (fun m a => <[scoped w (id a) := a]> m) m items).
Proof. intros Hnd Hm Hitems k a Hk. apply putAll_lookup in Hk as [[? ->]|[_ ?]]; auto. Qed.

Lemma visit_Ok {A B : Type} (m : gmap scopeKey A) w (body : A -> Result B) ids results :
  visit m w body ids = Ok results ->
  length results = length ids /\
  forall n id, ids !! n = Some id -> exists a b, m !! scoped w id = Some a /\ body a = Ok b /\ results !! n = Some b.
Proof.
  revert results. induction ids as [|id ids IH]; intros results Hv; simpl in Hv; [by simplify_eq|].
  case_match; [|done]. accepted. subst. match goal with H : visit _ _ _ _ = Ok _ |- _ => destruct (IH _ H) as [Hl Hn] end. split; [by simpl; f_equal|].
  intros [|n] id' Hid; simpl in *; [|by apply Hn]. injection Hid as <-. eauto.
Qed.

Lemma investigationCommitTime_ge w item extra clock s commitAt :
  investigationCommitTime w item extra clock s = Ok commitAt ->
  inv_UpdatedAt item <= commitAt /\ forall t, t ∈ extra -> t <= commitAt.
Proof.
  unfold investigationCommitTime. intros. accepted. subst. split; [|intros t Ht]; apply latestTime_ge; set_solver.
Qed.

Section preservation.
Context `{Unicode} (Transform : string -> Result string).
Implicit Types (s : Repository) (k : scopeKey).

(** ** Frames *)

Lemma counted_frame s s' k i i' :
  signalIncident s' = signalIncident s -> grows eq (signals s) (signals s') ->
  inc_SignalCount i' = inc_SignalCount i -> inc_OpenedAt i' = inc_OpenedAt i -> inc_LastSignalAt i' = inc_LastSignalAt i ->
  counted s k i -> counted s' k i'.
Proof.
  intros Ha Hs Hc Ho Hl [? Hw (jf & af & xf & ? & ? & ?) (jl & al & xl & ? & ? & ?)].
  constructor; unfold members in *; rewrite ?Ha, ?Hc, ?Ho, ?Hl; [done| | |].
  - intros j a Hj. destruct (Hw j a Hj) as (x & ? & ?). exists x. split; [by eapply keeps_lookup|done].
  - exists jf, af, xf. repeat split; [done|by eapply keeps_lookup|done].
  - exists jl, al, xl. repeat split; [done|by eapply keeps_lookup|done].
Qed.

Lemma counted_unchanged s s' :
  signalIncident s' = signalIncident s -> grows eq (signals s) (signals s') -> incidents s' = incidents s ->
  map_Forall (counted s) (incidents s) -> map_Forall (counted s') (incidents s').
Proof. intros ? ? -> Hc. eapply map_Forall_impl; [exact Hc|]. intros k i. by apply counted_frame. Qed.

Lemma activeOnly_frame s s' :
  activeInvestigation s' = activeInvestigation s -> investigations s' = investigations s -> activeOnly s -> activeOnly s'.
Proof. intros Ha Hi Hactive. unfold activeOnly. rewrite Ha, Hi. apply Hactive. Qed.

Lemma phased_frame s s' : tasks s' = tasks s -> investigations s' = investigations s -> phased s -> phased s'.
Proof. intros Ht Hi Hp. unfold phased. rewrite Ht, Hi. apply Hp. Qed.

(** ** Signals *)

Lemma storeSignal_advances signal tenantID s :
  Inv Transform s -> signals s !! scoped (sig_WorkspaceID signal) (sig_ID signal) = None -> advances s (storeSignal signal tenantID s).
Proof.
  intros Hi Hn. others_unchanged.
  - by apply grows_fresh.
  - apply grows_fresh; [done|]. destruct (signalTenants s !! _) eqn:Ht; [|done].
    destruct (wk_tenants _ _ (ri_kept _ _ Hi) _ _ Ht). congruence.
Qed.

Lemma storeSignal_Inv signal tenantID s :
  Inv Transform s -> NormalizeSignalForReplay signal = Ok signal -> ValidResourceID tenantID = true ->
  signals s !! scoped (sig_WorkspaceID signal) (sig_ID signal) = None -> Inv Transform (storeSignal signal tenantID s).
Proof.
  intros Hi Hnorm Hv Hn. pose proof (storeSignal_advances signal tenantID s Hi Hn) as Hadv.
  destruct Hi as [Hk Hc Ha Hp]. constructor.
  - rest_kept s Hk.
    + apply map_Forall_insert_2; [|old_entries s Hk]. repeat split; [done|]. exists tenantID. simpl. by rewrite lookup_insert_eq.
    + apply map_Forall_insert_2; [|old_entries s Hk]. exists signal. simpl. by rewrite lookup_insert_eq.
  - apply (counted_unchanged s); [done|apply Hadv|done|done].
  - by apply (activeOnly_frame s).
  - by apply (phased_frame s).
Qed.

(** ** Incidents *)

Lemma ValidResourceID_nonempty id : ValidResourceID id = true -> id <> ""%string.
Proof. by intros Hv ->. Qed.

Lemma Incident_Validate_ids i : Incident_Validate i = Ok tt -> ValidResourceID (inc_ID i) = true.
Proof. unfold Incident_Validate. intros. accepted. by guards. Qed.

Section kept.
Context (s : Repository) (Hk : well_kept Transform s).

Lemma incident_at w id i : incidents s !! scoped w id = Some i -> inc_WorkspaceID i = w /\ inc_ID i = id.
Proof. intros Hi. destruct (wk_incidents _ _ Hk _ _ Hi) as ([= -> ->] & _). done. Qed.
Lemma investigation_at w id item : investigations s !! scoped w id = Some item -> inv_WorkspaceID item = w /\ inv_ID item = id.
Proof. intros Hi. destruct (wk_investigations _ _ Hk _ _ Hi) as ([= -> ->] & _). done. Qed.
Lemma task_at w id t : tasks s !! scoped w id = Some t -> task_WorkspaceID t = w /\ task_ID t = id.
Proof. intros Hi. destruct (wk_tasks _ _ Hk _ _ Hi) as ([= -> ->] & _). done. Qed.
Lemma hypothesis_at w id h : hypotheses s !! scoped w id = Some h -> hyp_WorkspaceID h = w /\ hyp_ID h = id.
Proof. intros Hi. destruct (wk_hypotheses _ _ Hk _ _ Hi) as ([= -> ->] & _). done. Qed.

Lemma incident_id_nonempty k i : incidents s !! k = Some i -> k.2 <> ""%string.
Proof.
  intros Hi. destruct (wk_incidents _ _ Hk _ _ Hi) as (-> & Hv & _). by apply ValidResourceID_nonempty, Incident_Validate_ids.
Qed.

(** The index leads to an active incident of its key. *)
Lemma indexed_incident w key id :
  activeIncidentByCorrelation s !! scoped w key = Some id ->
  exists i, incidents s !! scoped w id = Some i /\ inc_ID i = id /\ inc_CorrelationKey i = key /\
    isActiveIncident (inc_Status i) = true.
Proof.
  intros Hx. destruct (wk_index _ _ Hk _ _ Hx) as (i & Hi & Hkey). exists i. destruct (incident_at _ _ _ Hi).
  destruct (wk_incidents _ _ Hk _ _ Hi) as (_ & _ & _ & ? & _). done.
Qed.

(** Associations are to incidents that exist. *)
Lemma members_none w id : incidents s !! scoped w id = None -> id <> ""%string -> members s (scoped w id) = ∅.
Proof.
  intros Hn Hid. apply map_empty. intros j. unfold members. apply map_lookup_filter_None_2. right. intros a Ha [Hw Hi]. simpl in *.
  destruct (wk_associations _ _ Hk _ _ Ha) as (x & _ & [[? _]|(_ & i & ? & _)]); congruence.
Qed.
End kept.

(** What an association with another incident leaves of the members. *)
Lemma members_other s s' request id k :
  signalIncident s' = signalIncident (associateSignal request id s) ->
  signalIncident s !! scoped (csr_WorkspaceID request) (csr_SignalID request) = None ->
  scoped (csr_WorkspaceID request) id <> k -> members s' k = members s k.
Proof.
  intros Ha Hn Hne. unfold members. rewrite Ha. apply map_filter_insert_not'; [|by rewrite Hn].
  intros [Hw Hid]. simpl in *. destruct Hne. destruct k. simpl in *. by subst.
Qed.

Lemma members_same s s' request id :
  signalIncident s' = signalIncident (associateSignal request id s) ->
  members s' (scoped (csr_WorkspaceID request) id) =
  <[scoped (csr_WorkspaceID request) (csr_SignalID request) := association request id]> (members s (scoped (csr_WorkspaceID request) id)).
Proof. intros Ha. unfold members. rewrite Ha. by apply map_filter_insert_True. Qed.

Lemma counted_elsewhere s s' k i :
  members s' k = members s k -> grows eq (signals s) (signals s') -> counted s k i -> counted s' k i.
Proof.
  intros Hm Hs [? Hw (jf & af & xf & ? & ? & ?) (jl & al & xl & ? & ? & ?)]. constructor; rewrite ?Hm; [done| | |].
  - intros j a Hj. destruct (Hw j a Hj) as (x & ? & ?). exists x. split; [by eapply keeps_lookup|done].
  - exists jf, af, xf. repeat split; [done|by eapply keeps_lookup|done].
  - exists jl, al, xl. repeat split; [done|by eapply keeps_lookup|done].
Qed.

(** *** A resolved signal that no incident is active for *)

Lemma resolved_advances request signal tenantID s :
  correlates s request signal tenantID -> advances s (associateSignal request "" s).
Proof. intros Hc. others_unchanged. apply grows_fresh; [done|]. apply Hc. Qed.

Lemma resolved_Inv request signal tenantID s :
  Inv Transform s -> correlates s request signal tenantID -> sig_Status signal = "resolved"%string ->
  Inv Transform (associateSignal request "" s).
Proof.
  intros [Hk Hc Ha Hp] Hcorr Hr. pose proof (resolved_advances _ _ _ _ Hcorr) as Hadv. destruct Hcorr. constructor.
  - rest_kept s Hk. apply map_Forall_insert_2; [|old_entries s Hk]. exists signal. split; [done|by left].
  - intros k i Hi. apply (counted_elsewhere s); [|apply Hadv|by apply Hc].
    eapply members_other; [done|done|]. intros <-. by apply (incident_id_nonempty s Hk _ _ Hi).
  - by apply (activeOnly_frame s).
  - by apply (phased_frame s).
Qed.

(** *** The first signal of an incident *)

Definition openedState (request : CorrelateSignalRequest) (incident : Incident) s : Repository :=
  associateSignal request (inc_ID incident)
    (indexIncident (csr_WorkspaceID request) (csr_CorrelationKey request) (inc_ID incident)
      (putIncident (csr_WorkspaceID request) incident s)).

Lemma opened_advances request signal tenantID incident s :
  Inv Transform s -> correlates s request signal tenantID -> unindexed request s ->
  incidents s !! scoped (csr_WorkspaceID request) (inc_ID incident) = None -> advances s (openedState request incident s).
Proof.
  intros [Hk _ _ _] [] Hu Hn. others_unchanged; (apply grows_fresh; [apply _|]); try done.
  destruct (activeIncidentByCorrelation s !! scoped (csr_WorkspaceID request) (csr_CorrelationKey request)) as [id|] eqn:Hx; [|done].
  destruct (indexed_incident s Hk _ _ _ Hx) as (i & Hi & _). specialize (Hu id Hx). congruence.
Qed.

Lemma ValidCorrelationKey_nonempty key : ValidCorrelationKey key = true -> key <> ""%string.
Proof. by intros Hv ->. Qed.

(** What the incident of a first signal is. *)
Record opened_facts (request : CorrelateSignalRequest) (signal : Signal) (tenantID : string) (incident : Incident) : Prop := {
  of_identity : inc_WorkspaceID incident = csr_WorkspaceID request /\ inc_TenantID incident = tenantID;
  of_scope : inc_CorrelationKey incident = csr_CorrelationKey request /\ inc_MappingStatus incident = csr_MappingStatus request /\
             inc_ServiceID incident = csr_ServiceID request /\ inc_EnvironmentID incident = csr_EnvironmentID request;
  of_status : inc_Status incident = IncidentOpen /\ inc_ConfirmedHypothesisID incident = ""%string;
  of_signal : inc_SignalCount incident = 1 /\ inc_OpenedAt incident = sig_ObservedAt signal /\
              inc_LastSignalAt incident = sig_ObservedAt signal
}.

Lemma openedIncident_facts request id tenantID signal clock :
  opened_facts request signal tenantID (openedIncident request id tenantID signal clock).
Proof. by constructor. Qed.

Lemma opened_counted request signal tenantID incident s :
  well_kept Transform s -> correlates s request signal tenantID -> opened_facts request signal tenantID incident ->
  incidents s !! scoped (csr_WorkspaceID request) (inc_ID incident) = None -> inc_ID incident <> ""%string ->
  counted (openedState request incident s) (scoped (csr_WorkspaceID request) (inc_ID incident)) incident.
Proof.
  intros Hk [] [_ _ _ (Hcount & Ho & Hl)] Hn Hid.
  assert (members (openedState request incident s) (scoped (csr_WorkspaceID request) (inc_ID incident)) =
    {[ scoped (csr_WorkspaceID request) (csr_SignalID request) := association request (inc_ID incident) ]}) as Hm.
  { rewrite (members_same s) by done. by rewrite (members_none s Hk). }
  constructor; rewrite ?Hm.
  - by rewrite map_size_singleton.
  - intros j a [<- <-]%lookup_singleton_Some. exists signal. split; [done|]. lia.
  - eexists _, _, signal. split; [apply lookup_singleton_eq|]. done.
  - eexists _, _, signal. split; [apply lookup_singleton_eq|]. done.
Qed.

Lemma opened_Inv request signal tenantID incident s :
  Inv Transform s -> correlates s request signal tenantID -> unindexed request s ->
  incidents s !! scoped (csr_WorkspaceID request) (inc_ID incident) = None ->
  opened_facts request signal tenantID incident -> Incident_Validate incident = Ok tt ->
  Inv Transform (openedState request incident s).
Proof.
  intros Hinv Hcorr Hu Hn Hf Hv. pose proof (opened_advances _ _ _ _ _ Hinv Hcorr Hu Hn) as Hadv.
  pose proof (ValidResourceID_nonempty _ (Incident_Validate_ids _ Hv)) as Hid.
  destruct Hinv as [Hk Hc Ha Hp]. pose proof (opened_counted _ _ _ _ _ Hk Hcorr Hf Hn Hid) as Hcount.
  destruct Hcorr as [Hsig Hten Hnew Hkey], Hf as [[Hw Ht] (Hck & Hms & Hse & Hen) [Hst Hcf] _]. constructor.
  - rest_kept s Hk.
    + apply map_Forall_insert_2; [|old_entries s Hk]. repeat split; [congruence|done| | |].
      * rewrite Hck. by apply ValidCorrelationKey_nonempty.
      * by rewrite Hst.
      * simpl. rewrite Hck. by rewrite lookup_insert_eq.
    + apply map_Forall_insert_2; [|old_entries s Hk]. congruence.
    + apply map_Forall_insert_2; [|old_entries s Hk]. exists incident. split; [apply lookup_insert_eq|done].
    + apply map_Forall_insert_2; [|old_entries s Hk]. exists signal. split; [done|]. right. split; [done|].
      exists incident. split; [apply lookup_insert_eq|]. simpl. rewrite Hten. repeat split; congruence.
  - intros k i Hi. simpl in Hi. apply lookup_insert_Some in Hi as [[<- <-]|[Hne Hi]]; [done|].
    apply (counted_elsewhere s); [|apply Hadv|by apply Hc]. by eapply members_other.
  - by apply (activeOnly_frame s).
  - by apply (phased_frame s).
Qed.

(** *** One more signal *)

Definition countedState (request : CorrelateSignalRequest) (incident incident' : Incident) s : Repository :=
  associateSignal request (inc_ID incident) (putIncident (csr_WorkspaceID request) incident' s).

Lemma countedIncident_advances signal clock incident : Incident_advances incident (countedIncident signal clock incident).
Proof.
  constructor; simpl; try done; unfold Before, After.
  - split; case_match; guards; lia.
  - repeat split; try lia. apply latestTime_ge. set_solver.
  - by right.
Qed.

Lemma counted_advances request signal tenantID clock incident s :
  correlates s request signal tenantID -> incidents s !! scoped (csr_WorkspaceID request) (inc_ID incident) = Some incident ->
  advances s (countedState request incident (countedIncident signal clock incident) s).
Proof.
  intros [] Hi. others_unchanged.
  - apply grows_insert; [apply _|]. simpl. rewrite Hi. intros ? [= <-]. apply countedIncident_advances.
  - by apply grows_fresh.
Qed.

(** The window of an incident after one more signal. *)
Lemma countedIncident_window signal clock incident x :
  let i := countedIncident signal clock incident in
  inc_OpenedAt i <= sig_ObservedAt signal <= inc_LastSignalAt i /\
  (inc_OpenedAt incident <= x <= inc_LastSignalAt incident -> inc_OpenedAt i <= x <= inc_LastSignalAt i) /\
  (inc_OpenedAt i = inc_OpenedAt incident \/ inc_OpenedAt i = sig_ObservedAt signal) /\
  (inc_LastSignalAt i = inc_LastSignalAt incident \/ inc_LastSignalAt i = sig_ObservedAt signal).
Proof. simpl. unfold Before, After. do 2 case_match; guards; lia. Qed.

Lemma counted_once_more request signal tenantID clock incident s :
  correlates s request signal tenantID -> counted s (scoped (csr_WorkspaceID request) (inc_ID incident)) incident ->
  counted (countedState request incident (countedIncident signal clock incident) s)
    (scoped (csr_WorkspaceID request) (inc_ID incident)) (countedIncident signal clock incident).
Proof.
  intros [Hsig _ Hnew _] [Hc Hw (jf & af & xf & Hjf & ? & Hf) (jl & al & xl & Hjl & ? & Hl)].
  pose proof (countedIncident_window signal clock incident) as Hwin.
  set (key := scoped (csr_WorkspaceID request) (csr_SignalID request)) in *.
  assert (members s (scoped (csr_WorkspaceID request) (inc_ID incident)) !! key = None) as Hfresh
    by (apply map_lookup_filter_None_2; by left).
  assert (forall j a, members s (scoped (csr_WorkspaceID request) (inc_ID incident)) !! j = Some a -> j <> key) as Hne by congruence.
  constructor; rewrite (members_same s) by done; fold key.
  - rewrite map_size_insert_None by done. simpl. lia.
  - intros j a [[<- <-]|[_ Hj]]%lookup_insert_Some.
    + exists signal. split; [done|]. apply (Hwin 0).
    + destruct (Hw j a Hj) as (x & ? & ?). exists x. split; [done|]. by apply Hwin.
  - destruct (Hwin 0) as (_ & _ & [-> | ->] & _).
    + exists jf, af, xf. split; [|done]. rewrite lookup_insert_ne; [done|]. by eapply not_eq_sym, Hne.
    + eexists key, _, signal. split; [apply lookup_insert_eq|done].
  - destruct (Hwin 0) as (_ & _ & _ & [-> | ->]).
    + exists jl, al, xl. split; [|done]. rewrite lookup_insert_ne; [done|]. by eapply not_eq_sym, Hne.
    + eexists key, _, signal. split; [apply lookup_insert_eq|done].
Qed.

(** An incident that advances stays well kept. *)
Lemma incident_ok_advanced (s' : Repository) k i i' :
  Incident_advances i i' -> Incident_Validate i' = Ok tt -> isActiveIncident (inc_Status i') = true ->
  incident_ok s' k i -> incident_ok s' k i'.
Proof.
  intros [] ? ? (-> & _ & ? & _ & ?). destruct_and!. repeat split; [congruence|done|congruence|done|simpl in *; congruence].
Qed.

Lemma cause_ok_same s k i i' :
  inc_ConfirmedHypothesisID i' = inc_ConfirmedHypothesisID i -> inc_ID i' = inc_ID i -> cause_ok s k i -> cause_ok s k i'.
Proof. unfold cause_ok. by intros -> ->. Qed.

Lemma counted_Inv request signal tenantID clock incident s :
  Inv Transform s -> correlates s request signal tenantID ->
  incidents s !! scoped (csr_WorkspaceID request) (inc_ID incident) = Some incident ->
  isActiveIncident (inc_Status incident) = true -> inc_TenantID incident = tenantID ->
  inc_CorrelationKey incident = csr_CorrelationKey request -> inc_MappingStatus incident = csr_MappingStatus request ->
  inc_ServiceID incident = csr_ServiceID request -> inc_EnvironmentID incident = csr_EnvironmentID request ->
  Incident_Validate (countedIncident signal clock incident) = Ok tt ->
  Inv Transform (countedState request incident (countedIncident signal clock incident) s).
Proof.
  intros Hinv Hcorr Hi Hactive Ht Hck Hms Hse Hen Hv. pose proof (counted_advances _ _ _ clock _ _ Hcorr Hi) as Hadv.
  destruct Hinv as [Hk Hc Ha Hp]. pose proof (counted_once_more _ _ _ clock _ _ Hcorr (Hc _ _ Hi)) as Hcount.
  destruct Hcorr as [Hsig Hten Hnew Hkey]. constructor.
  - rest_kept s Hk.
    + apply map_Forall_insert_2; [|old_entries s Hk].
      eapply incident_ok_advanced; [apply countedIncident_advances|done|done|].
      eapply incident_ok_later; [done|by apply Hk].
    + apply map_Forall_insert_2; [|old_entries s Hk].
      apply (cause_ok_later s); [done|]. by apply (wk_causes _ _ Hk _ _ Hi).
    + apply map_Forall_insert_2; [|old_entries s Hk]. exists signal. split; [done|]. right.
      split; [by eapply (incident_id_nonempty s Hk _ _ Hi)|]. eexists. split; [apply lookup_insert_eq|]. simpl. rewrite Hten.
      repeat split; congruence.
  - intros k i Hki. simpl in Hki. apply lookup_insert_Some in Hki as [[<- <-]|[Hne Hki]]; [done|].
    apply (counted_elsewhere s); [|apply Hadv|by apply Hc]. by eapply members_other.
  - by apply (activeOnly_frame s).
  - by apply (phased_frame s).
Qed.

Lemma owner_grows key operation s :
  idempotencyOwnerMatches key operation s = true -> grows eq (idempotencyOwners s) (<[key := operation]> (idempotencyOwners s)).
Proof.
  unfold idempotencyOwnerMatches. intros Hm. apply grows_insert; [done|]. intros owner Ho. rewrite Ho in Hm. by guards.
Qed.

(** ** Creation *)

Lemma newTasks_spec request scope investigationID commitAt position taskIDs specs components items :
  length taskIDs = length specs -> length components = length specs ->
  newTasks Transform request scope investigationID commitAt position taskIDs specs components = Ok items ->
  task_ID <$> items = taskIDs /\
  forall n t, items !! n = Some t -> exists spec component binding,
    t = newTask request investigationID (task_ID t) (position + Z.of_nat n) spec binding commitAt /\
    BuildReadTaskRuntimeBinding Transform scope (cir_PlanBinding request) spec (position + Z.of_nat n) component commitAt = Ok binding /\
    ReadTask_Validate t = Ok tt.
Proof.
  revert position specs components items. induction taskIDs as [|id taskIDs IH]; intros position [|spec specs] [|component components] items
    Hl Hl' Hn; simplify_eq/=; [done|].
  accepted. subst. destruct (IH _ _ _ _ Hl Hl' H2) as [Hids Hnth]. split; [by simpl; f_equal|].
  intros [|n] t Ht; simpl in Ht.
  - injection Ht as <-. exists spec, component, x. rewrite Z.add_0_r. auto using passes_Ok.
  - destruct (Hnth n t Ht) as (spec' & component' & binding & ? & ? & ?). exists spec', component', binding.
    by replace (position + Z.of_nat (S n)) with (position + 1 + Z.of_nat n) by lia.
Qed.

Lemma Incident_TransitionAt_advances next now i i' :
  Incident_TransitionAt next now i = Ok i' -> Incident_advances i i' /\ inc_Status i' = next.
Proof.
  unfold Incident_TransitionAt, Before. intros. accepted. guards. subst. split; [|done]. constructor; simpl; try done; try lia.
  - by destruct (inc_Status i) eqn:Hs; simplify_eq/=.
  - by right.
Qed.

Lemma ensure_then {B} b e (r : Result B) v : b = true -> r = Ok v -> (ensure b e;; r) = Ok v.
Proof. by intros -> ->. Qed.

Lemma unit_then {B} (r : Result unit) (r' : Result B) v : r = Ok tt -> r' = Ok v -> (r;; r') = Ok v.
Proof. by intros -> ->. Qed.

(** A boolean goal from guards that are known. *)
Ltac prove_guard :=
  repeat match goal with
  | |- (_ && _)%bool = true => apply andb_true_iff; split
  | |- negb _ = true => apply negb_true_iff
  | |- (_ =? _) = true => apply Z.eqb_eq
  | |- (_ =? _) = false => apply Z.eqb_neq
  | |- (_ <? _) = true => apply Z.ltb_lt
  | |- (_ <? _) = false => apply Z.ltb_ge
  | |- (_ <=? _) = true => apply Z.leb_le
  end.

Lemma Incident_Validate_moved status now i :
  Incident_Validate i = Ok tt -> knownIncidentStatus status = true -> inc_UpdatedAt i <= now -> inc_UpdatedAt i <> 0 -> now <> 0 ->
  Incident_Validate {| i with inc_Status := status; inc_UpdatedAt := now; inc_Version := inc_Version i + 1 |} = Ok tt.
Proof.
  unfold Incident_Validate, Before, After, IsZero. intros Hv Hst ???. accepted. simpl.
  do 2 (apply ensure_then; [done|]). guards.
  do 2 (apply ensure_then; [by prove_guard; auto; lia|]). apply unit_then; [|do 2 (apply ensure_then; [by prove_guard|]); by rewrite Hst].
  destruct (inc_CorrelationKey i == ""%string); [done|]. accepted. apply ensure_then; [done|]. guards.
  rewrite (proj2 (andb_true_iff _ _)); [done|]. split; prove_guard; lia.
Qed.

Lemma Incident_TransitionAt_Validate now i i' :
  Incident_Validate i = Ok tt -> Incident_TransitionAt IncidentInvestigating now i = Ok i' -> Incident_Validate i' = Ok tt.
Proof.
  intros Hv Ht. unfold Incident_TransitionAt, Before, IsZero in Ht. accepted. guards. subst.
  apply Incident_Validate_moved; [done..| |done]. unfold Incident_Validate, IsZero in Hv. accepted. by guards.
Qed.

Lemma BuildReadTaskRuntimeBinding_components scope plan spec position components boundAt binding :
  BuildReadTaskRuntimeBinding Transform scope plan spec position components boundAt = Ok binding ->
  componentsOf binding = components.
Proof. unfold BuildReadTaskRuntimeBinding. intros. accepted. subst. by destruct components. Qed.

(** What is used of a creation. *)
Record created s (request : CreateOrGetInvestigationRequest) (requestHash : string) (incident : Incident) (opened : option Incident)
    (item : Investigation) (items : list ReadTask) (commitAt : Time) : Prop := {
  cd_item : item = newInvestigation request requestHash (inv_ID item) commitAt;
  cd_item_valid : Investigation_Validate item = Ok tt;
  cd_item_fresh : investigations s !! scoped (cir_WorkspaceID request) (inv_ID item) = None;
  cd_incident : incidents s !! scoped (cir_WorkspaceID request) (cir_IncidentID request) = Some incident;
  cd_opened : forall i, opened = Some i -> Incident_TransitionAt IncidentInvestigating commitAt incident = Ok i;
  cd_alone : activeInvestigation s !! scoped (cir_WorkspaceID request) (cir_IncidentID request) = None;
  cd_tasks : items <> [] /\ NoDup (task_ID <$> items);
  cd_fresh : forall t, t ∈ items -> tasks s !! scoped (cir_WorkspaceID request) (task_ID t) = None;
  cd_task : forall n t, items !! n = Some t -> exists spec component binding,
    t = newTask request (inv_ID item) (task_ID t) (1 + Z.of_nat n) spec binding commitAt /\
    BuildReadTaskRuntimeBinding Transform (scopeOf incident) (cir_PlanBinding request) spec (1 + Z.of_nat n) component commitAt = Ok binding /\
    ReadTask_Validate t = Ok tt
}.

Lemma Investigation_Validate_ids item : Investigation_Validate item = Ok tt -> inv_ID item <> ""%string.
Proof.
  unfold Investigation_Validate, Investigation_Validate_binding. intros. accepted. guards. by intros Hid; rewrite Hid in *.
Qed.

Lemma creates_created s request requestHash incident opened item taskIDs items specs components commitAt :
  Inv Transform s -> creates Transform s request requestHash incident opened item taskIDs items specs components commitAt ->
  created s request requestHash incident opened item items commitAt /\ taskIDs = task_ID <$> items.
Proof.
  intros [Hk _ Hactive _] []. destruct cr_specs as [Hne Hlc], cr_taskIDs as [[Hnd Hfresh] Hlt].
  destruct (newTasks_spec _ _ _ _ _ _ _ _ _ Hlt Hlc cr_tasks) as [Hids Hnth]. subst taskIDs. split; [|done].
  rewrite length_fmap in Hlt. constructor; try done.
  - intros i ->. case_match; [|done]. by destruct cr_opened as (? & [= <-] & ?).
  - destruct (activeInvestigation s !! _) as [id|] eqn:Ha; [|done]. simpl in cr_alone. subst id.
    apply Hactive in Ha as (item' & Hitem & _). destruct (wk_investigations _ _ Hk _ _ Hitem) as ([= _ Hid] & Hv & _).
    by destruct (Investigation_Validate_ids _ Hv).
  - split; [|done]. by destruct items, specs.
  - intros t Ht. rewrite Forall_forall in Hfresh. apply (Hfresh (task_ID t)). by apply list_elem_of_fmap_2.
Qed.

Lemma created_advances s request requestHash incident opened item items commitAt :
  Inv Transform s -> created s request requestHash incident opened item items commitAt ->
  idempotencyOwnerMatches (scoped (cir_WorkspaceID request) (cir_IdempotencyKey request)) "create_investigation" s = true ->
  investigationIdempotency s !! scoped (cir_WorkspaceID request) (cir_IdempotencyKey request) = None ->
  advances s (storeInvestigation request requestHash opened item (task_ID <$> items) items s).
Proof.
  intros [Hk _ _ _] [Hitem Hvalid Hif Hinc Hop Halone [Hne Hnd] Hfresh Htask] Hown Hnew. others_unchanged; simpl.
  - destruct opened as [i|]; [|reflexivity]. apply grows_insert; [apply _|]. intros old Hold.
    assert (old = incident) as -> by congruence. by eapply Incident_TransitionAt_advances, Hop.
  - by apply grows_fresh; [apply _|].
  - apply putAll_grows; [apply _|done|]. intros t old Ht Hold. by rewrite Hfresh in Hold.
  - apply grows_fresh; [done|]. destruct (taskIDsByInvestigation s !! _) eqn:Hids; [|done].
    destruct (wk_taskIDs _ _ Hk _ _ Hids). congruence.
  - by apply grows_fresh.
  - by apply owner_grows.
Qed.

Section created.
Context s request requestHash incident opened item items commitAt
  (Hinv : Inv Transform s) (Hcd : created s request requestHash incident opened item items commitAt)
  (Hown : idempotencyOwnerMatches (scoped (cir_WorkspaceID request) (cir_IdempotencyKey request)) "create_investigation" s = true)
  (Hnew : investigationIdempotency s !! scoped (cir_WorkspaceID request) (cir_IdempotencyKey request) = None).

#[local] Abbreviation w := (cir_WorkspaceID request).
Let s' := storeInvestigation request requestHash opened item (task_ID <$> items) items s.
Let Hk : well_kept Transform s := ri_kept _ _ Hinv.
Let Hadv : advances s s' := created_advances _ _ _ _ _ _ _ _ Hinv Hcd Hown Hnew.

(** The incident after the creation. *)
Lemma created_incident :
  exists i, incidents s' !! scoped w (cir_IncidentID request) = Some i /\ Incident_advances incident i /\
    Incident_Validate i = Ok tt /\ isActiveIncident (inc_Status i) = true /\
    inc_SignalCount i = inc_SignalCount incident /\ inc_OpenedAt i = inc_OpenedAt incident /\
    inc_LastSignalAt i = inc_LastSignalAt incident /\ inc_ConfirmedHypothesisID i = inc_ConfirmedHypothesisID incident /\
    (incidents s' = <[scoped w (cir_IncidentID request) := i]> (incidents s)).
Proof.
  destruct (wk_incidents _ _ Hk _ _ (cd_incident _ _ _ _ _ _ _ _ Hcd)) as (_ & Hv & _ & Ha & _). simpl.
  destruct opened as [i|] eqn:Ho.
  - pose proof (cd_opened _ _ _ _ _ _ _ _ Hcd i eq_refl) as Ht. exists i. rewrite lookup_insert_eq.
    destruct (Incident_TransitionAt_advances _ _ _ _ Ht) as [? Hs]. rewrite Hs.
    pose proof (Incident_TransitionAt_Validate _ _ _ Hv Ht). unfold Incident_TransitionAt in Ht. accepted. by subst.
  - exists incident. rewrite (cd_incident _ _ _ _ _ _ _ _ Hcd). repeat split; try done; try lia.
    + by right.
    + symmetry. apply insert_id, (cd_incident _ _ _ _ _ _ _ _ Hcd).
Qed.

(** The tasks after the creation. *)
Lemma created_task_lookup k t :
  tasks s' !! k = Some t <-> (t ∈ items /\ k = scoped w (task_ID t)) \/ tasks s !! k = Some t.
Proof.
  simpl. rewrite (putAll_lookup task_ID w) by apply (cd_tasks _ _ _ _ _ _ _ _ Hcd). split; [tauto|].
  intros [?|Ht]; [by left|]. right. split; [|done]. intros (t' & -> & Ht')%list_elem_of_fmap.
  pose proof (cd_fresh _ _ _ _ _ _ _ _ Hcd t' Ht'). congruence.
Qed.

Lemma created_task t : t ∈ items -> exists n spec component binding, items !! n = Some t /\
  t = newTask request (inv_ID item) (task_ID t) (1 + Z.of_nat n) spec binding commitAt /\
  BuildReadTaskRuntimeBinding Transform (scopeOf incident) (cir_PlanBinding request) spec (1 + Z.of_nat n) component commitAt = Ok binding /\
  ReadTask_Validate t = Ok tt.
Proof.
  intros [n Hn]%list_elem_of_lookup. destruct (cd_task _ _ _ _ _ _ _ _ Hcd n t Hn) as (spec & component & binding & ?).
  by exists n, spec, component, binding.
Qed.

Lemma created_kept : well_kept Transform s'.
Proof.
  destruct created_incident as (i & Hi & Hii & Hiv & Hia & _ & _ & _ & Hcause & Hins).
  pose proof (cd_incident _ _ _ _ _ _ _ _ Hcd) as Hinc. pose proof (cd_item _ _ _ _ _ _ _ _ Hcd) as Hitem.
  assert (investigations s' !! scoped w (inv_ID item) = Some item) as Hsaved by (simpl; apply lookup_insert_eq).
  assert (inv_WorkspaceID item = w /\ inv_IncidentID item = cir_IncidentID request) as [Hw Hincid] by (by rewrite Hitem).
  assert (taskIDsByInvestigation s' !! scoped w (inv_ID item) = Some (task_ID <$> items)) as Hlist by (simpl; apply lookup_insert_eq).
  rest_kept s Hk.
  - rewrite Hins. apply map_Forall_insert_2; [|old_entries s Hk]. eapply incident_ok_advanced; [done..|].
    eapply incident_ok_later; [exact Hadv|by apply Hk].
  - rewrite Hins. apply map_Forall_insert_2; [|old_entries s Hk]. eapply cause_ok_same; [done|apply Hii|].
    eapply cause_ok_later; [exact Hadv|by apply (wk_causes _ _ Hk)].
  - apply map_Forall_insert_2; [|old_entries s Hk]. split; [by rewrite Hw|]. split; [apply Hcd|]. split; [by rewrite Hitem|].
    split; [exists i; by rewrite Hincid|]. exists (task_ID <$> items). repeat split; [done| |].
    + destruct (cd_tasks _ _ _ _ _ _ _ _ Hcd) as [Hne _]. by destruct items.
    + intros n id Hn. rewrite list_lookup_fmap in Hn. apply fmap_Some in Hn as (t & Ht & ->).
      destruct (cd_task _ _ _ _ _ _ _ _ Hcd n t Ht) as (spec & component & binding & Heq & _). exists t. split.
      * apply created_task_lookup. left. split; [by eapply list_elem_of_lookup_2|done].
      * rewrite Heq. simpl. split; [done|lia].
  - apply map_Forall_insert_2; [|old_entries s Hk]. rewrite Hitem. split; simpl; done.
  - apply map_Forall_insert_2; [|old_entries s Hk]. exists item. done.
  - apply putAll_Forall; [apply Hcd|old_entries s Hk|]. intros t Ht.
    destruct (created_task t Ht) as (n & spec & component & binding & _ & Heq & _ & Hv).
    assert (task_InvestigationID t = inv_ID item) as Htask by (by rewrite Heq). unfold task_ok. rewrite Htask.
    repeat split; [by rewrite Heq|done| | |by rewrite Heq].
    + exists (task_ID <$> items). split; [done|]. by apply list_elem_of_fmap_2.
    + exists item. split; [done|]. by rewrite Heq.
  - apply putAll_Forall; [apply Hcd|old_entries s Hk|]. intros t Ht.
    destruct (created_task t Ht) as (n & spec & component & binding & _ & Heq & Hb & _).
    exists item, i. rewrite (scopeOf_advances _ _ Hii). rewrite Hincid, Heq. repeat split; [done..|]. simpl.
    rewrite (BuildReadTaskRuntimeBinding_components _ _ _ _ _ _ _ Hb).
    replace (inv_PlanBinding item) with (cir_PlanBinding request) by (by rewrite Hitem). by destruct spec.
  - apply map_Forall_insert_2; [|old_entries s Hk]. split; [simpl; apply lookup_insert_eq|]. exists item. split; [done|].
    by rewrite Hitem.
Qed.

Lemma created_Inv : Inv Transform s'.
Proof.
  pose proof (cd_item _ _ _ _ _ _ _ _ Hcd) as Hitem. pose proof (cd_item_fresh _ _ _ _ _ _ _ _ Hcd) as Hfresh.
  pose proof (ri_counted _ _ Hinv) as Hc. pose proof (ri_active _ _ Hinv) as Ha. pose proof (ri_phased _ _ Hinv) as Hp.
  constructor; [apply created_kept| | |].
  - destruct created_incident as (i & _ & _ & _ & _ & Hcount & Ho & Hl & _ & Hins). rewrite Hins.
    assert (grows eq (signals s) (signals s')) by apply Hadv. apply map_Forall_insert_2.
    + apply (counted_frame s s' _ incident); [done..|]. apply Hc, Hcd.
    + eapply map_Forall_impl; [exact Hc|]. intros k j. by apply counted_frame.
  - intros w0 incidentID id. simpl. destruct (decide (scoped w (cir_IncidentID request) = scoped w0 incidentID)) as [[= <- <-]|Hne].
    + rewrite lookup_insert_eq. split.
      * intros [= <-]. exists item. rewrite lookup_insert_eq. by rewrite Hitem.
      * intros (item' & [[[= <-] <-]|[_ Hold]]%lookup_insert_Some & Hinc & Hact); [done|].
        assert (activeInvestigation s !! scoped w (cir_IncidentID request) = Some id) as Hsome by (apply Ha; eauto).
        rewrite (cd_alone _ _ _ _ _ _ _ _ Hcd) in Hsome. done.
    + rewrite lookup_insert_ne by done. rewrite (Ha w0 incidentID id). split.
      * intros (item' & Hold & ?). exists item'. rewrite lookup_insert_ne; [done|]. congruence.
      * intros (item' & [[[= <- <-] <-]|[_ Hold]]%lookup_insert_Some & Hinc & ?); [|eauto].
        destruct Hne. rewrite Hitem in Hinc. simpl in Hinc. congruence.
  - intros k t item' Ht Hi. apply created_task_lookup in Ht as [[Hin ->]|Ht].
    + destruct (created_task t Hin) as (n & spec & component & binding & _ & Heq & _).
      assert (task_InvestigationID t = inv_ID item) as Hti by (by rewrite Heq). rewrite Hti in Hi. simpl in Hi.
      rewrite lookup_insert_eq in Hi. injection Hi as <-. rewrite Hitem, Heq. done.
    + destruct (wk_tasks _ _ Hk _ _ Ht) as (_ & _ & _ & (old & Hold & _) & _). simpl in Hi.
      rewrite lookup_insert_ne in Hi; [by eapply Hp|]. intros Heq. rewrite <- Heq in Hold. congruence.
Qed.
End created.

(** *** One more key for the active investigation *)

Lemma joined_advances s request requestHash activeID :
  idempotencyOwnerMatches (scoped (cir_WorkspaceID request) (cir_IdempotencyKey request)) "create_investigation" s = true ->
  investigationIdempotency s !! scoped (cir_WorkspaceID request) (cir_IdempotencyKey request) = None ->
  advances s (storeJoin request requestHash activeID s).
Proof. intros Hown Hnew. others_unchanged; simpl; [by apply grows_fresh|by apply owner_grows]. Qed.

Lemma joined_Inv s request requestHash active :
  Inv Transform s ->
  idempotencyOwnerMatches (scoped (cir_WorkspaceID request) (cir_IdempotencyKey request)) "create_investigation" s = true ->
  investigationIdempotency s !! scoped (cir_WorkspaceID request) (cir_IdempotencyKey request) = None ->
  investigations s !! scoped (cir_WorkspaceID request) (inv_ID active) = Some active -> inv_RequestHash active = requestHash ->
  Inv Transform (storeJoin request requestHash (inv_ID active) s).
Proof.
  intros [Hk Hc Ha Hp] Hown Hnew Hi Hh. pose proof (joined_advances s request requestHash (inv_ID active) Hown Hnew) as Hadv. constructor.
  - rest_kept s Hk. apply map_Forall_insert_2; [|old_entries s Hk]. split; [simpl; apply lookup_insert_eq|]. by exists active.
  - by apply (counted_unchanged s).
  - by apply (activeOnly_frame s).
  - by apply (phased_frame s).
Qed.

(** ** An investigation that moves *)

Lemma investigation_ok_advanced s k item item' :
  Investigation_advances item item' -> Investigation_Validate item' = Ok tt -> investigation_ok s k item -> investigation_ok s k item'.
Proof.
  intros [(Hid & Hw & Hinc) (_ & _ & Hv & _) _ _ _] ? (-> & _ & ? & ? & ?). split; [by rewrite Hw, Hid|].
  split; [done|]. split; [congruence|]. simpl in *. by rewrite Hinc, Hid.
Qed.

Lemma binding_ok_facts s k t t' : task_facts t' = task_facts t -> binding_ok Transform s k t -> binding_ok Transform s k t'.
Proof. destruct t, t'. unfold task_facts. by intros [= -> -> -> -> -> -> -> -> -> -> -> ->]. Qed.

(** What an active investigation is, as [Validate] has it. *)
Lemma active_model item :
  Investigation_Validate item = Ok tt -> isActiveInvestigation (inv_Status item) = true ->
  inv_ModelStatus item = ModelPending \/ inv_Status item = InvestigationRunning /\ inv_ModelStatus item = ModelRunning.
Proof.
  unfold Investigation_Validate, Investigation_Validate_binding. intros Hv Ha. accepted.
  destruct (inv_Status item); try done; simpl in *; guards; [by left|].
  destruct (inv_ModelStatus item == ModelPending) eqn:?; guards; [by left|]. simpl in *. guards. auto.
Qed.

Lemma ending_ok_active s k item :
  Investigation_Validate item = Ok tt -> isActiveInvestigation (inv_Status item) = true -> ending_ok s k item.
Proof.
  intros Hv Ha. split; [by intros Hs; rewrite Hs in Ha|].
  intros Hm. destruct (active_model item Hv Ha) as [?|[_ ?]]; congruence.
Qed.

(** The active investigation of an incident stays active. *)
Lemma activeOnly_moved s s' w item item' :
  activeOnly s -> activeInvestigation s' = activeInvestigation s ->
  investigations s !! scoped w (inv_ID item) = Some item ->
  investigations s' = <[scoped w (inv_ID item) := item']> (investigations s) ->
  inv_IncidentID item' = inv_IncidentID item -> isActiveInvestigation (inv_Status item) = true ->
  isActiveInvestigation (inv_Status item') = true -> activeOnly s'.
Proof.
  intros Ha Hact Hi Hins Hinc Hold Hnew w0 incidentID id. rewrite Hact, Hins, (Ha w0 incidentID id). split.
  - intros (item0 & H0 & ? & ?). destruct (decide (scoped w (inv_ID item) = scoped w0 id)) as [[= <- <-]|Hne].
    + exists item'. rewrite lookup_insert_eq. split; [done|]. split; congruence.
    + exists item0. by rewrite lookup_insert_ne.
  - intros (item0 & [[[= <- <-] <-]|[_ H0]]%lookup_insert_Some & ? & ?); [|by eauto]. exists item. split; [done|]. split; congruence.
Qed.

(** An investigation that ends is no longer active. *)
Lemma activeOnly_ended s s' w item item' :
  activeOnly s -> investigations s !! scoped w (inv_ID item) = Some item -> isActiveInvestigation (inv_Status item) = true ->
  investigations s' = <[scoped w (inv_ID item) := item']> (investigations s) ->
  activeInvestigation s' = delete (scoped w (inv_IncidentID item)) (activeInvestigation s) ->
  isActiveInvestigation (inv_Status item') = false -> activeOnly s'.
Proof.
  intros Ha Hi Hactive Hins Hact Hended w0 incidentID id. rewrite Hact, Hins.
  assert (activeInvestigation s !! scoped w (inv_IncidentID item) = Some (inv_ID item)) as Hcur by (apply Ha; eauto).
  rewrite lookup_delete_Some, (Ha w0 incidentID id). split.
  - intros (Hne & item0 & H0 & ? & ?). exists item0. split; [|done]. rewrite lookup_insert_ne; [done|].
    intros [= <- <-]. apply Hne. congruence.
  - intros (item0 & [[_ <-]|[Hne H0]]%lookup_insert_Some & Hinc & ?); [congruence|]. split; [|eauto].
    intros [= <- <-]. assert (activeInvestigation s !! scoped w (inv_IncidentID item) = Some id) by (apply Ha; eauto). congruence.
Qed.

(** ** Completion of a task *)

Lemma NormalizeCompleteTaskRequest_cases request requestHash :
  NormalizeCompleteTaskRequest Transform request = Ok (request, requestHash) ->
  (ctr_Status request = ReadTaskEvidence /\ exists input, ctr_Evidence request = Some input) \/
  ((ctr_Status request = ReadTaskFailed \/ ctr_Status request = ReadTaskCancelled) /\ ctr_Evidence request = None).
Proof.
  unfold NormalizeCompleteTaskRequest. intros. accepted. destruct (ctr_Status request); try done; accepted; guards.
  - left. split; [done|]. destruct (ctr_Evidence request) as [input|]; [by exists input|done].
  - right. destruct (ctr_Evidence request); [done|]. auto.
  - right. destruct (ctr_Evidence request); [done|]. auto.
Qed.

Section completed.
Context s request requestHash item task evidenceID receiptID commitAt
  (Hinv : Inv Transform s) (Hco : completes Transform s request requestHash item task evidenceID receiptID commitAt).

#[local] Abbreviation w := (ctr_WorkspaceID request).
Let stored := storedEvidence request item task evidenceID commitAt.
Let item' := progressed commitAt item.
Let task' := completedTask request evidenceID commitAt task.
Let receipt :=
  newReceipt request item task receiptID evidenceID (match stored with Some e => ev_ContentHash e | None => "" end) commitAt.
Let s' := storeCompletion request requestHash item' task' stored receipt s.
Let Hk : well_kept Transform s := ri_kept _ _ Hinv.

Lemma completion_closes : isClosedTask (ctr_Status request) = true.
Proof. by destruct (NormalizeCompleteTaskRequest_cases _ _ (co_normal _ _ _ _ _ _ _ _ _ Hco)) as [[-> _]|[[-> | ->] _]]. Qed.

(** What the completion stores as evidence. *)
Lemma completion_evidence :
  (ctr_Status request = ReadTaskEvidence /\ ValidResourceID evidenceID = true /\ evidence s !! scoped w evidenceID = None /\
   exists input, stored = Some (newEvidence request item task input evidenceID commitAt)) \/
  (ctr_Status request <> ReadTaskEvidence /\ evidenceID = ""%string /\ stored = None).
Proof.
  pose proof (co_evidence _ _ _ _ _ _ _ _ _ Hco) as He. unfold stored, storedEvidence.
  destruct (NormalizeCompleteTaskRequest_cases _ _ (co_normal _ _ _ _ _ _ _ _ _ Hco)) as [[Hs [input Hin]]|[[Hs|Hs] Hin]];
    rewrite Hs in He; rewrite Hs, ?Hin; [left|right|right]; naive_solver.
Qed.

Lemma completion_at :
  investigations s !! scoped w (inv_ID item) = Some item /\ tasks s !! scoped w (task_ID task) = Some task /\
  inv_WorkspaceID item = w /\ task_WorkspaceID task = w.
Proof.
  pose proof (co_item _ _ _ _ _ _ _ _ _ Hco) as Hi. pose proof (co_task _ _ _ _ _ _ _ _ _ Hco) as Ht.
  destruct (investigation_at s Hk _ _ _ Hi) as [? ->], (task_at s Hk _ _ _ Ht) as [? ->]. done.
Qed.

Lemma completed_task_advances : Task_advances task task'.
Proof.
  pose proof (co_open _ _ _ _ _ _ _ _ _ Hco) as Ho. constructor; [done| |right; apply completion_closes].
  intros Hc. by destruct (task_Status task).
Qed.

Lemma progressed_advances : Investigation_advances item item'.
Proof.
  destruct (co_time _ _ _ _ _ _ _ _ _ Hco) as [clock [Ht _]%investigationCommitTime_ge].
  pose proof (co_active _ _ _ _ _ _ _ _ _ Hco) as Ha. constructor; simpl; try done.
  - destruct (inv_Status item); try done; split; simpl; lia.
  - intros Hf. by destruct (inv_Status item).
Qed.

Lemma completed_advances : advances s s'.
Proof.
  destruct completion_at as (Hi & Ht & _). others_unchanged; simpl.
  - apply grows_insert; [apply _|]. rewrite Hi. intros ? [= <-]. apply progressed_advances.
  - apply grows_insert; [apply _|]. rewrite Ht. intros ? [= <-]. apply completed_task_advances.
  - destruct completion_evidence as [(_ & _ & Hn & input & ->)|(_ & _ & ->)]; [by apply grows_fresh|done].
  - destruct completion_evidence as [(_ & _ & Hn & input & ->)|(_ & _ & ->)]; [|reflexivity].
    apply grows_insert; [apply _|]. intros ids Hids. unfold evidenceIDsOf. rewrite Hids. by eexists.
  - apply grows_fresh; [done|]. apply Hco.
  - apply grows_fresh; [done|]. apply Hco.
  - apply owner_grows, Hco.
Qed.

Lemma progressed_active : isActiveInvestigation (inv_Status item') = true.
Proof. pose proof (co_active _ _ _ _ _ _ _ _ _ Hco). simpl. by destruct (inv_Status item). Qed.

Lemma completed_lookups :
  tasks s' !! scoped w (task_ID task) = Some task' /\ investigations s' !! scoped w (inv_ID item) = Some item' /\
  receipts s' !! scoped w receiptID = Some receipt /\
  (ctr_Status request = ReadTaskEvidence ->
    exists e, stored = Some e /\ evidence s' !! scoped w evidenceID = Some e /\ ev_ID e = evidenceID /\
      ev_TaskID e = task_ID task /\ ev_InvestigationID e = inv_ID item).
Proof.
  simpl. rewrite !lookup_insert_eq. repeat split. intros Hs.
  destruct completion_evidence as [(_ & _ & Hn & input & ->)|(? & _)]; [|done]. eexists. split; [done|]. by rewrite lookup_insert_eq.
Qed.

Lemma completed_kept : well_kept Transform s'.
Proof.
  pose proof completed_advances as Hadv. destruct completion_at as (Hi & Ht & Hwi & Hwt).
  destruct completed_lookups as (Lt & Li & Lr & Le). pose proof (co_scope _ _ _ _ _ _ _ _ _ Hco) as Hscope.
  pose proof (task_ok_later s s' Hadv _ _ (wk_tasks _ _ Hk _ _ Ht)) as (_ & _ & Hlisted & Hof & _).
  rest_kept s Hk.
  - apply map_Forall_insert_2; [|old_entries s Hk]. eapply investigation_ok_advanced; [apply progressed_advances|apply Hco|].
    eapply investigation_ok_later; [done|by apply Hk].
  - apply map_Forall_insert_2; [|old_entries s Hk]. apply ending_ok_active; [apply Hco|apply progressed_active].
  - apply map_Forall_insert_2; [|old_entries s Hk]. split; [by simpl; rewrite Hwt|]. split; [apply Hco|]. split; [done|].
    split; [done|]. intros Hs. destruct (Le Hs) as (e & _ & ? & _ & ? & _). by exists e.
  - apply map_Forall_insert_2; [|old_entries s Hk]. eapply binding_ok_facts; [apply completed_task_advances|].
    eapply binding_ok_later; [done|by apply (wk_bindings _ _ Hk)].
  - simpl. destruct completion_evidence as [(Hs & _ & _ & input & Hst)|(_ & _ & Hst)]; rewrite Hst; [|old_entries s Hk].
    apply map_Forall_insert_2; [|old_entries s Hk]. split; [done|]. split; [by apply Hco|]. split.
    + exists task'. split; [done|]. by repeat split.
    + exists (evidenceIDsOf w (inv_ID item) s ++ [evidenceID]). simpl. rewrite Hst, lookup_insert_eq. set_solver.
  - simpl. destruct completion_evidence as [(Hs & _ & Hn & input & Hst)|(_ & _ & Hst)]; rewrite Hst; [|old_entries s Hk].
    apply map_Forall_insert_2; [|old_entries s Hk].
    assert (evidenceIDs_ok s (scoped w (inv_ID item)) (evidenceIDsOf w (inv_ID item) s)) as Hold.
    { unfold evidenceIDsOf. destruct (evidenceIDsByInvestigation s !! _) as [ids|] eqn:Hids; simpl; [|by repeat constructor].
      exact (wk_evidenceIDs _ _ Hk _ _ Hids). }
    pose proof (evidenceIDs_ok_later s s' Hadv _ _ Hold) as [Hold' Hnd]. split.
    + apply Forall_app. split; [exact Hold'|]. apply Forall_singleton. destruct (Le Hs) as (e & _ & ? & ? & _ & ?). by exists e.
    + apply NoDup_app. split; [exact Hnd|]. split; [|apply NoDup_singleton].
      intros id Hin ->%list_elem_of_singleton. destruct Hold as [Hall _]. rewrite Forall_forall in Hall.
      destruct (Hall _ Hin) as (e & He & _). simpl in *. congruence.
  - apply map_Forall_insert_2; [|old_entries s Hk]. split; [done|]. split; [apply Hco|]. exists task'. split; [done|].
    split; [apply completion_closes|]. done.
  - apply map_Forall_insert_2; [|old_entries s Hk]. split; [simpl; apply lookup_insert_eq|]. split; [|split].
    + exists task'. split; [done|]. split; [apply completion_closes|done].
    + by exists receipt.
    + simpl. intros Hne. destruct completion_evidence as [(Hs & _)|(_ & ? & _)]; [|done].
      destruct (Le Hs) as (e & _ & ? & _ & ? & _). by exists e.
Qed.

Lemma completed_Inv : Inv Transform s'.
Proof.
  pose proof (ri_counted _ _ Hinv) as Hc. pose proof (ri_active _ _ Hinv) as Ha. pose proof (ri_phased _ _ Hinv) as Hp.
  destruct completion_at as (Hi & Ht & _). constructor; [apply completed_kept| | |].
  - by apply (counted_unchanged s).
  - eapply (activeOnly_moved s s' w item item'); [done..|apply Hco|apply progressed_active].
  - intros k t item0 Hkt Hki. simpl in *. apply lookup_insert_Some in Hkt as [[<- <-]|[Hne Hkt]].
    + simpl in Hki. rewrite (co_scope _ _ _ _ _ _ _ _ _ Hco), lookup_insert_eq in Hki. injection Hki as <-.
      pose proof completion_closes. pose proof (co_active _ _ _ _ _ _ _ _ _ Hco). unfold in_phase. simpl.
      by destruct (inv_Status item); try done; simpl; auto.
    + apply lookup_insert_Some in Hki as [[Hke <-]|[_ Hki]]; [|by eapply Hp].
      assert (in_phase item t) as Hph by (eapply Hp; [done|by rewrite <- Hke]).
      pose proof (co_active _ _ _ _ _ _ _ _ _ Hco). unfold in_phase in *. simpl. 
      destruct (wk_investigations _ _ Hk _ _ Hi) as (_ & Hv & _). pose proof (active_model item Hv) as Hmodel.
      destruct (inv_Status item); try done; simpl in *. split; [by left|].
      intros Hm. destruct (Hmodel eq_refl) as [?|[? _]]; congruence.
Qed.
End completed.

(** ** The model *)

(** A visit of the tasks of an investigation sees them all. *)
Lemma visited_task {B : Type} s w id (body : ReadTask -> Result B) results k t :
  well_kept Transform s -> visit (tasks s) w body (taskIDsOf w id s) = Ok results ->
  tasks s !! k = Some t -> k.1 = w -> task_InvestigationID t = id -> exists b, body t = Ok b /\ b ∈ results.
Proof.
  intros Hk Hv Ht Hw Hid. destruct (wk_tasks _ _ Hk _ _ Ht) as (Hkey & _ & (ids & Hids & Hin) & _).
  rewrite Hw, Hid in Hids. unfold taskIDsOf in Hv. rewrite Hids in Hv. simpl in Hv.
  apply list_elem_of_lookup in Hin as [n Hn]. destruct (visit_Ok _ _ _ _ _ Hv) as [_ Hall].
  destruct (Hall n _ Hn) as (t' & b & Ht' & Hb & Hr). assert (t' = t) as ->.
  { rewrite Hkey in Ht. rewrite Hkey in Hw. simpl in Hw. rewrite Hw in Ht. congruence. }
  exists b. split; [done|by eapply list_elem_of_lookup_2].
Qed.

Definition startedModel (commitAt : Time) (item : Investigation) : Investigation :=
  {| item with inv_ModelStatus := ModelRunning; inv_UpdatedAt := commitAt |}.

Section model.
Context s request (requestHash : string) item commitAt clock (results : list unit) (Hinv : Inv Transform s)
  (Hown : idempotencyOwnerMatches (scoped (smr_WorkspaceID request) (smr_IdempotencyKey request)) "start_model" s = true)
  (Hnew : modelStartIdempotency s !! scoped (smr_WorkspaceID request) (smr_IdempotencyKey request) = None)
  (Hitem : investigations s !! scoped (smr_WorkspaceID request) (smr_InvestigationID request) = Some item)
  (Hrunning : inv_Status item = InvestigationRunning) (Hpending : inv_ModelStatus item = ModelPending)
  (Hclosed : visit (tasks s) (smr_WorkspaceID request) (fun task => ensure (isClosedTask (task_Status task)) ErrInvalidTransition)
     (taskIDsOf (smr_WorkspaceID request) (inv_ID item) s) = Ok results)
  (Htime : investigationCommitTime (smr_WorkspaceID request) item [] clock s = Ok commitAt)
  (Hvalid : Investigation_Validate (startedModel commitAt item) = Ok tt).

Let s' := storeModelStart request requestHash (startedModel commitAt item) s.
Let Hk : well_kept Transform s := ri_kept _ _ Hinv.

Lemma startedModel_advances : Investigation_advances item (startedModel commitAt item).
Proof.
  apply investigationCommitTime_ge in Htime as [? _]. constructor; simpl; try done.
  - by rewrite Hpending.
  - by rewrite Hrunning.
Qed.

Lemma model_advances : advances s s'.
Proof.
  others_unchanged; simpl; [|by apply grows_fresh|by apply owner_grows].
  apply grows_insert; [apply _|]. rewrite Hitem. intros ? [= <-]. apply startedModel_advances.
Qed.

Lemma model_Inv : Inv Transform s'.
Proof.
  pose proof model_advances as Hadv. pose proof (ri_counted _ _ Hinv) as Hc. pose proof (ri_active _ _ Hinv) as Ha.
  pose proof (ri_phased _ _ Hinv) as Hp. destruct (investigation_at s Hk _ _ _ Hitem) as [Hw Hid]. constructor.
  - rest_kept s Hk.
    + apply map_Forall_insert_2; [|old_entries s Hk]. eapply investigation_ok_advanced; [apply startedModel_advances|done|].
      eapply investigation_ok_later; [done|by apply Hk].
    + apply map_Forall_insert_2; [|old_entries s Hk]. apply ending_ok_active; [done|]. simpl. by rewrite Hrunning.
    + apply map_Forall_insert_2; [|old_entries s Hk]. split; [simpl; apply lookup_insert_eq|]. split; [done|].
      exists (startedModel commitAt item). split; [simpl; by rewrite Hid, lookup_insert_eq|done].
  - by apply (counted_unchanged s).
  - rewrite <- Hid in Hitem.
    apply (activeOnly_moved s s' (smr_WorkspaceID request) item (startedModel commitAt item)); simpl; rewrite ?Hid, ?Hrunning in *; done.
  - intros k t item0 Ht Hi. simpl in *. apply lookup_insert_Some in Hi as [[[= Hkw Hkid] <-]|[_ Hi]]; [|by eapply Hp].
    destruct (visited_task s _ _ _ _ k t Hk Hclosed Ht) as (b & Hb & _); [congruence|congruence|]. accepted.
    unfold in_phase. simpl. rewrite Hrunning. auto.
Qed.
End model.
End preservation.
