(* ===== verification/InvestigationEndings.v ===== *)
(** * The end of an investigation and what people say of it keep the invariant *)

From S2P Require Import Prelude.
From S2P Require Import Sha256.
From S2P Require Import GoText.
From S2P Require Import GoSort.
From S2P Require Import GoUnicode.
From S2P Require Import SafeText.
From S2P Require Import InvestigationDomain.
From S2P Require Import TaskSpecs.
From S2P Require Import InvestigationRequests.
From S2P Require Import InvestigationRepository.
From S2P Require Import InvestigationHistory.
From S2P Require Import InvestigationOrder.
From S2P Require Import InvestigationInvariant.
From S2P Require Import InvestigationPreservation.

Open Scope Z_scope.

Section endings.
Context `{Unicode} (Transform : string -> Result string).
Implicit Types (s : Repository) (k : scopeKey).

(** ** Tasks that are cancelled *)

Lemma taskIDs_NoDup s k item ids :
  well_kept Transform s -> investigations s !! k = Some item -> taskIDsByInvestigation s !! k = Some ids -> NoDup ids.
Proof.
  intros Hk Hi Hids. destruct (wk_investigations _ _ Hk _ _ Hi) as (_ & _ & _ & _ & ids' & Hids' & _ & Hpos).
  assert (ids' = ids) as -> by congruence. apply NoDup_alt. intros n m id Hn Hm.
  destruct (Hpos n id Hn) as (t & ? & _ & ?), (Hpos m id Hm) as (t' & ? & _ & ?). assert (t' = t) as -> by congruence. lia.
Qed.

(** What a cancellation makes of the tasks of an investigation: those it does not leave, it cancels. *)
Record cancels s (w : string) (item : Investigation) (candidates : list ReadTask) : Prop := {
  ca_nodup : NoDup (task_ID <$> candidates);
  ca_each : forall c, c ∈ candidates -> exists t, tasks s !! scoped w (task_ID c) = Some t /\ task_InvestigationID t = inv_ID item /\
    Task_advances t c /\ (c = t \/ task_Status c = ReadTaskCancelled /\ ReadTask_Validate c = Ok tt)
}.

Lemma cancels_nothing s w item : cancels s w item [].
Proof. constructor; [constructor|]. by intros c ?%elem_of_nil. Qed.

Lemma cancelledTask_advances failureCode commitAt t :
  isOpenTask (task_Status t) = true -> Task_advances t (cancelledTask failureCode commitAt t).
Proof. intros Ho. constructor; [done| |by right]. intros Hc. by destruct (task_Status t). Qed.

Lemma cancelledTaskCandidates_spec s w item failureCode commitAt candidates :
  well_kept Transform s -> investigations s !! scoped w (inv_ID item) = Some item ->
  cancelledTaskCandidates w (inv_ID item) failureCode commitAt s = Ok candidates ->
  cancels s w item candidates /\ Forall (fun c => isOpenTask (task_Status c) = false) candidates /\
  (forall k t, tasks s !! k = Some t -> k.1 = w -> task_InvestigationID t = inv_ID item -> task_ID t ∈ task_ID <$> candidates).
Proof.
  intros Hk Hi Hc. unfold cancelledTaskCandidates in Hc.
  destruct (wk_investigations _ _ Hk _ _ Hi) as (_ & _ & _ & _ & ids & Hids & _ & Hpos). simpl in *.
  pose proof (taskIDs_NoDup s _ _ _ Hk Hi Hids) as Hnd. pose proof Hc as Hall.
  unfold taskIDsOf in Hall. rewrite Hids in Hall. simpl in Hall. apply visit_Ok in Hall as [Hlen Hall].
  assert (forall n c, candidates !! n = Some c -> exists id t, ids !! n = Some id /\ tasks s !! scoped w id = Some t /\
    task_ID c = id /\ task_InvestigationID t = inv_ID item /\ Task_advances t c /\ isOpenTask (task_Status c) = false /\
    (c = t \/ task_Status c = ReadTaskCancelled /\ ReadTask_Validate c = Ok tt)) as Heach.
  { intros n c Hn. destruct (lookup_lt_is_Some_2 ids n) as [id Hid]; [rewrite <- Hlen; by eapply lookup_lt_Some|].
    destruct (Hall n id Hid) as (t & b & Ht & Hb & Hr). assert (b = c) as -> by congruence.
    destruct (Hpos n id Hid) as (t' & Ht' & Hin & _). assert (t' = t) as -> by congruence.
    exists id, t. destruct (task_at Transform s Hk _ _ _ Ht) as [_ Hidt]. destruct (isOpenTask (task_Status t)) eqn:Ho.
    - accepted. subst. repeat split; try done; [by apply cancelledTask_advances|by right; auto using passes_Ok|].
      right. auto using passes_Ok.
    - simplify_eq. repeat split; try done; auto. }
  assert (task_ID <$> candidates = ids) as Heq.
  { apply list_eq_same_length with (n := length ids); [done|by rewrite length_fmap|].
    intros n id id' _ Hn Hn'. rewrite list_lookup_fmap in Hn. apply fmap_Some in Hn as (c & Hc' & ->).
    destruct (Heach n c Hc') as (id0 & t & ? & _ & <- & _). congruence. }
  split; [constructor|split].
  - by rewrite Heq.
  - intros c [n Hn]%list_elem_of_lookup. destruct (Heach n c Hn) as (id & t & _ & ? & <- & ? & ? & _ & ?). by exists t.
  - apply Forall_forall. intros c [n Hn]%list_elem_of_lookup. by destruct (Heach n c Hn) as (id & t & _ & _ & _ & _ & _ & ? & _).
  - intros k t Ht Hw Hin. rewrite Heq. destruct (wk_tasks _ _ Hk _ _ Ht) as (_ & _ & (ids' & Hids' & ?) & _).
    rewrite Hw, Hin in Hids'. congruence.
Qed.

(** The tasks after the candidates are stored. *)
Abbreviation tasksWith s w candidates := (foldl (fun m task => <[scoped w (task_ID task) := task]> m) (tasks s) candidates) (only parsing).

Lemma cancelled_lookup s w item candidates k t :
  cancels s w item candidates -> tasksWith s w candidates !! k = Some t ->
  exists t0, tasks s !! k = Some t0 /\ Task_advances t0 t /\
    (t = t0 \/ task_Status t = ReadTaskCancelled /\ ReadTask_Validate t = Ok tt).
Proof.
  intros [Hnd Heach] Hk. apply (proj1 (putAll_lookup task_ID w _ _ _ _ Hnd)) in Hk as [[Hin ->]|[_ Hk]];
    [|by exists t; split; [done|]; split; [|left]].
  destruct (Heach t Hin) as (t0 & ? & _ & ? & ?). by exists t0.
Qed.

Lemma cancelled_grows s w item candidates : cancels s w item candidates -> grows Task_advances (tasks s) (tasksWith s w candidates).
Proof.
  intros [Hnd Heach]. apply putAll_grows; [apply _|done|]. intros c old Hc Hold.
  destruct (Heach c Hc) as (t & ? & _ & ? & _). assert (t = old) as -> by congruence. done.
Qed.

Lemma task_ok_cancelled s k t t' :
  Task_advances t t' -> task_Status t' = ReadTaskCancelled -> ReadTask_Validate t' = Ok tt -> task_ok s k t -> task_ok s k t'.
Proof.
  intros [Hf _ _] Hs Hv (-> & _ & ? & ? & _). unfold task_facts in Hf. injection Hf as Hid Hw Hinc Hinv. intros.
  repeat split; [congruence|done|..]; simpl in *; rewrite ?Hinv, ?Hid, ?Hinc; [done|done|]. congruence.
Qed.

Lemma cancelled_kept s s' w item candidates :
  well_kept Transform s -> advances s s' -> cancels s w item candidates ->
  map_Forall (task_ok s') (tasksWith s w candidates) /\ map_Forall (binding_ok Transform s') (tasksWith s w candidates).
Proof.
  intros Hk Hadv Hc. split; intros k t Ht; destruct (cancelled_lookup _ _ _ _ _ _ Hc Ht) as (t0 & Ht0 & Hta & Hcase).
  - assert (task_ok s' k t0) by (eapply task_ok_later; [done|by apply Hk]).
    destruct Hcase as [->|[? ?]]; [done|]. by eapply task_ok_cancelled.
  - eapply binding_ok_facts; [apply Hta|]. eapply binding_ok_later; [done|by apply (wk_bindings _ _ Hk)].
Qed.

(** ** An investigation that ends *)

(** What is used of an end. *)
Record ends s (w : string) (item item' : Investigation) (candidates : list ReadTask) : Prop := {
  en_item : investigations s !! scoped w (inv_ID item) = Some item;
  en_active : isActiveInvestigation (inv_Status item) = true;
  en_terminal : isTerminalInvestigation (inv_Status item') = true;
  en_advances : Investigation_advances item item';
  en_valid : Investigation_Validate item' = Ok tt;
  en_cancels : cancels s w item candidates;
  en_phase : forall k t, tasksWith s w candidates !! k = Some t -> k.1 = w -> task_InvestigationID t = inv_ID item -> in_phase item' t
}.

Lemma released (w : string) (item : Investigation) (m : gmap scopeKey string) s :
  activeOnly s -> investigations s !! scoped w (inv_ID item) = Some item -> isActiveInvestigation (inv_Status item) = true ->
  (if default ""%string (activeInvestigation s !! scoped w (inv_IncidentID item)) == inv_ID item
   then delete (scoped w (inv_IncidentID item)) m else m) = delete (scoped w (inv_IncidentID item)) m.
Proof.
  intros Ha Hi Hactive. assert (activeInvestigation s !! scoped w (inv_IncidentID item) = Some (inv_ID item)) as -> by (apply Ha; eauto).
  simpl. by rewrite eqb_same.
Qed.

Lemma ended_phased s s' w item item' candidates :
  Inv Transform s -> ends s w item item' candidates ->
  tasks s' = tasksWith s w candidates -> investigations s' = <[scoped w (inv_ID item) := item']> (investigations s) -> phased s'.
Proof.
  intros [Hk _ _ Hp] [Hi _ _ _ _ Hc Hphase] Ht Hins k t item0 Hkt Hki. rewrite Ht in Hkt. rewrite Hins in Hki.
  apply lookup_insert_Some in Hki as [[[= Hw Hid] <-]|[Hne Hki]]; [by eapply Hphase|].
  destruct Hc as [Hnd Heach]. apply (proj1 (putAll_lookup task_ID w _ _ _ _ Hnd)) in Hkt as [[Hin ->]|[_ Hkt]]; [|by eapply Hp].
  destruct (Heach t Hin) as (t0 & _ & Hid & [Hf _ _] & _). destruct Hne. unfold task_facts in Hf. simpl. f_equal. congruence.
Qed.

Lemma ended_Inv s s' w item item' candidates :
  Inv Transform s -> ends s w item item' candidates -> advances s s' ->
  tasks s' = tasksWith s w candidates -> investigations s' = <[scoped w (inv_ID item) := item']> (investigations s) ->
  activeInvestigation s' = delete (scoped w (inv_IncidentID item)) (activeInvestigation s) ->
  signalIncident s' = signalIncident s -> incidents s' = incidents s -> well_kept Transform s' -> Inv Transform s'.
Proof.
  intros Hinv He Hadv Ht Hi Ha Hsi Hinc Hk'. constructor; [done| | |].
  - apply (counted_unchanged s); [done|apply Hadv|done|apply Hinv].
  - eapply (activeOnly_ended s s' w item item'); [apply Hinv|apply He|apply He|done|done|].
    pose proof (en_terminal _ _ _ _ _ He) as Hterm. by destruct (inv_Status item').
  - by eapply ended_phased.
Qed.

(** A task that is not open has been closed. *)
Lemma phase_closed item t : in_phase item t -> isActiveInvestigation (inv_Status item) = true ->
  isOpenTask (task_Status t) = false -> isClosedTask (task_Status t) = true.
Proof.
  unfold in_phase. intros Hp Ha Ho. destruct (inv_Status item); try done.
  - by rewrite Hp in Ho.
  - destruct Hp as [[Hq|?] _]; [by rewrite Hq in Ho|done].
Qed.

(** After a cancellation of the open tasks every task is closed. *)
Lemma cancelled_closed s w item failureCode commitAt candidates k t :
  Inv Transform s -> investigations s !! scoped w (inv_ID item) = Some item -> isActiveInvestigation (inv_Status item) = true ->
  cancelledTaskCandidates w (inv_ID item) failureCode commitAt s = Ok candidates ->
  tasksWith s w candidates !! k = Some t -> k.1 = w -> task_InvestigationID t = inv_ID item -> isClosedTask (task_Status t) = true.
Proof.
  intros [Hk _ _ Hp] Hi Ha Hc Ht Hw Hid. destruct (cancelledTaskCandidates_spec _ _ _ _ _ _ Hk Hi Hc) as (Hcs & Hopen & Hall).
  destruct (cancelled_lookup _ _ _ _ _ _ Hcs Ht) as (t0 & Ht0 & [Hf _ Hcl] & _). destruct Hcl as [->|?]; [|done].
  assert (in_phase item t0) as Hph by (eapply Hp; [done|by rewrite Hw, Hid]). eapply phase_closed; [done..|].
  apply (proj1 (putAll_lookup task_ID w _ _ _ _ (ca_nodup _ _ _ _ Hcs))) in Ht as [[Hin _]|[Hni _]];
    [by rewrite Forall_forall in Hopen; apply Hopen|].
  destruct Hni. destruct (wk_tasks _ _ Hk _ _ Ht0) as (-> & _). simpl in *. rewrite <- Hw.
  specialize (Hall _ _ Ht0 Hw Hid). apply list_elem_of_fmap in Hall as (c & ? & ?). apply list_elem_of_fmap. exists c. by split; [f_equal|].
Qed.

(** *** Failure *)

Section failed.
Context s request (requestHash : string) item candidates commitAt clock (Hinv : Inv Transform s)
  (Hown : idempotencyOwnerMatches (scoped (fail_WorkspaceID request) (fail_IdempotencyKey request)) "fail_investigation" s = true)
  (Hnew : failureIdempotency s !! scoped (fail_WorkspaceID request) (fail_IdempotencyKey request) = None)
  (Hitem : investigations s !! scoped (fail_WorkspaceID request) (fail_InvestigationID request) = Some item)
  (Hactive : isActiveInvestigation (inv_Status item) = true)
  (Htime : investigationCommitTime (fail_WorkspaceID request) item [] clock s = Ok commitAt)
  (Hcancel : cancelledTaskCandidates (fail_WorkspaceID request) (inv_ID item) (fail_FailureCode request) commitAt s = Ok candidates)
  (Hvalid : Investigation_Validate (failedInvestigation (fail_FailureCode request) commitAt item) = Ok tt).

#[local] Abbreviation w := (fail_WorkspaceID request).
Let item' := failedInvestigation (fail_FailureCode request) commitAt item.
Let s' := storeFailure request requestHash item' candidates s.
Let Hk : well_kept Transform s := ri_kept _ _ Hinv.

Lemma failed_ends : ends s w item item' candidates.
Proof.
  destruct (investigation_at Transform s Hk _ _ _ Hitem) as [_ Hid]. rewrite <- Hid in Hitem.
  destruct (cancelledTaskCandidates_spec _ _ _ _ _ _ Hk Hitem Hcancel) as [Hc _].
  apply investigationCommitTime_ge in Htime as [? _].
  constructor; try done.
  - constructor; simpl; try done; [|by destruct (inv_Status item)].
    split; [by destruct (inv_Status item)|by destruct (inv_ModelStatus item)].
  - intros k t Ht Hw Hin. by eapply cancelled_closed.
Qed.

Lemma failed_advances : advances s s'.
Proof.
  destruct failed_ends as [Hi _ _ ? _ Hc _]. destruct (investigation_at Transform s Hk _ _ _ Hitem) as [_ Hid].
  others_unchanged; simpl.
  - apply grows_insert; [apply _|]. rewrite Hitem. by intros ? [= <-].
  - by eapply cancelled_grows.
  - by apply grows_fresh.
  - by apply owner_grows.
Qed.

Lemma failed_Inv : Inv Transform s'.
Proof.
  pose proof failed_ends as He. pose proof failed_advances as Hadv. destruct (investigation_at Transform s Hk _ _ _ Hitem) as [_ Hid].
  destruct (cancelled_kept _ _ _ _ _ Hk Hadv (en_cancels _ _ _ _ _ He)) as [? ?].
  eapply (ended_Inv s s' w item item' candidates); try done.
  - simpl. by rewrite Hid.
  - apply (released w item (activeInvestigation s) s); [apply Hinv|apply He|done].
  - rest_kept s Hk.
    + apply map_Forall_insert_2; [|old_entries s Hk]. eapply investigation_ok_advanced; [apply He|apply He|].
      eapply investigation_ok_later; [done|by apply Hk].
    + apply map_Forall_insert_2; [|old_entries s Hk]. by split.
    + done.
    + done.
    + apply map_Forall_insert_2; [|old_entries s Hk]. split; [simpl; apply lookup_insert_eq|].
      exists item'. split; [simpl; by rewrite Hid, lookup_insert_eq|done].
Qed.
End failed.

(** *** Finalization *)

(** A status the tasks of an investigation support. *)
Lemma derivedStatus_spec s w id status :
  well_kept Transform s -> derivedStatus w id s = Ok status ->
  (forall k t, tasks s !! k = Some t -> k.1 = w -> task_InvestigationID t = id -> isOpenTask (task_Status t) = false) /\
  (status = InvestigationCompleted /\
     (forall k t, tasks s !! k = Some t -> k.1 = w -> task_InvestigationID t = id -> task_Status t = ReadTaskEvidence) \/
   status = InvestigationPartial /\
     exists taskID t, taskID ∈ taskIDsOf w id s /\ tasks s !! scoped w taskID = Some t /\ task_Status t <> ReadTaskEvidence /\
       isOpenTask (task_Status t) = false).
Proof.
  unfold derivedStatus. intros Hk Hd. accepted. rename x into proven. rename H0 into Hv. split.
  - intros k t Ht Hw Hid. destruct (visited_task Transform s _ _ _ _ k t Hk Hv Ht Hw Hid) as (b & Hb & _). accepted. by guards.
  - destruct (forallb Datatypes.id proven) eqn:Hall; [left|right]; (split; [done|]).
    + intros k t Ht Hw Hid. destruct (visited_task Transform s _ _ _ _ k t Hk Hv Ht Hw Hid) as (b & Hb & Hin). accepted.
      rewrite forallb_forall in Hall. apply list_elem_of_In in Hin. specialize (Hall b Hin). subst b. unfold Datatypes.id in Hall. by guards.
    + destruct (visit_Ok _ _ _ _ _ Hv) as [Hlen Hn].
      assert (exists n, proven !! n = Some false) as [n Hfalse].
      { clear -Hall. induction proven as [|[] proven IH]; [done| |by exists 0%nat]. destruct (IH Hall) as [n ?]. by exists (S n). }
      destruct (lookup_lt_is_Some_2 (taskIDsOf w id s) n) as [taskID Hid]; [rewrite <- Hlen; by eapply lookup_lt_Some|].
      destruct (Hn n taskID Hid) as (t & b & Ht & Hb & Hr). assert (b = false) as -> by congruence. accepted. guards.
      exists taskID, t. repeat split; [by eapply list_elem_of_lookup_2|done..].
Qed.

Lemma newHypotheses_spec w item ids specs commitAt created :
  length ids = length specs -> newHypotheses w item ids specs commitAt = Ok created ->
  hyp_ID <$> created = ids /\ length created = length specs /\
  forall h, h ∈ created -> Hypothesis_Validate h = Ok tt /\
    exists spec, spec ∈ specs /\ h = newHypothesis w item (hyp_ID h) spec commitAt.
Proof.
  unfold newHypotheses. intros Hl Hn. accepted. rename H0 into Hv. rewrite forallb_forall in Hv.
  set (mk := fun id spec => newHypothesis w item id spec commitAt) in *.
  assert (hyp_ID <$> created = ids /\ length created = length specs /\
    forall h, h ∈ created -> exists spec, spec ∈ specs /\ h = newHypothesis w item (hyp_ID h) spec commitAt) as (? & ? & Heach).
  { subst created. clear Hv. revert specs Hl. induction ids as [|id ids IH]; intros [|spec specs] Hl; simplify_eq/=.
    - repeat split. by intros h ?%elem_of_nil.
    - destruct (IH specs Hl) as (Hids & Hlen & Hh). repeat split; [by f_equal..|].
      intros h [->|Hin]%elem_of_cons; [exists spec; split; [left|done]|]. destruct (Hh h Hin) as (spec' & ? & ?).
      exists spec'. split; [by right|done]. }
  split; [done|]. split; [done|]. intros h Hin. split; [|by apply Heach].
  apply passes_Ok, (Hv h). subst created. by apply list_elem_of_In.
Qed.

Lemma newHypotheses_ranks w item ids specs commitAt created :
  length ids = length specs -> newHypotheses w item ids specs commitAt = Ok created ->
  hyp_Rank <$> created = hs_Rank <$> specs.
Proof.
  unfold newHypotheses. intros Hl Hn. accepted. subst created. clear -Hl. revert specs Hl.
  induction ids as [|id ids IH]; intros [|spec specs] Hl; simplify_eq/=; [done|]. f_equal. by apply IH.
Qed.

Section finalized.
Context s request (requestHash : string) item candidates created hypothesisIDs commitAt (Hinv : Inv Transform s)
  (Hfi : finalizes s request requestHash item candidates created hypothesisIDs commitAt).

#[local] Abbreviation w := (fir_WorkspaceID request).
Let item' := finalizedInvestigation request commitAt item.
Let s' := storeFinalization request requestHash item' candidates created s.
Let Hk : well_kept Transform s := ri_kept _ _ Hinv.

Lemma finalized_at : investigations s !! scoped w (inv_ID item) = Some item.
Proof.
  pose proof (fi_item _ _ _ _ _ _ _ _ Hfi) as Hi. by destruct (investigation_at Transform s Hk _ _ _ Hi) as [_ ->].
Qed.

Lemma finalized_status :
  (fir_Status request = InvestigationCompleted \/ fir_Status request = InvestigationPartial \/
   fir_Status request = InvestigationCancelled) /\
  (fir_ModelStatus request = ModelCompleted <-> created <> []).
Proof.
  pose proof (fi_semantics _ _ _ _ _ _ _ _ Hfi) as Hs. destruct (fi_fresh _ _ _ _ _ _ _ _ Hfi) as [_ Hl].
  destruct (newHypotheses_spec _ _ _ _ _ _ Hl (fi_created _ _ _ _ _ _ _ _ Hfi)) as (_ & Hlen & _).
  rewrite <- Hlen in Hs. unfold validFinalizationSemantics in Hs.
  destruct (fir_Status request), (fir_ModelStatus request); try done; guards; (split; [by auto|]);
    destruct created; simpl in *; try done; naive_solver.
Qed.

Lemma finalized_cancels : cancels s w item candidates.
Proof.
  pose proof (fi_candidates _ _ _ _ _ _ _ _ Hfi) as Hc. destruct (_ == _); [|simplify_eq; apply cancels_nothing].
  by destruct (cancelledTaskCandidates_spec _ _ _ _ _ _ Hk finalized_at Hc).
Qed.

Lemma finalized_derived :
  fir_Status request <> InvestigationCancelled -> derivedStatus w (inv_ID item) s = Ok (fir_Status request) /\ candidates = [].
Proof.
  intros Hne. destruct finalized_status as [Hs _]. pose proof (fi_derived _ _ _ _ _ _ _ _ Hfi) as Hd.
  pose proof (fi_candidates _ _ _ _ _ _ _ _ Hfi) as Hc. unfold statusAgrees in Hd.
  destruct Hs as [Hs|[Hs|Hs]]; [| |done]; rewrite Hs in Hd, Hc |- *; accepted; guards; simpl in *; split; congruence.
Qed.

Lemma finalized_phase k t :
  tasksWith s w candidates !! k = Some t -> k.1 = w -> task_InvestigationID t = inv_ID item -> in_phase item' t.
Proof.
  intros Ht Hw Hid. unfold in_phase. simpl. pose proof (fi_active _ _ _ _ _ _ _ _ Hfi) as Ha.
  destruct (decide (fir_Status request = InvestigationCancelled)) as [Hs|Hs].
  - pose proof (fi_candidates _ _ _ _ _ _ _ _ Hfi) as Hc. rewrite Hs in Hc |- *. simpl in Hc.
    by eapply cancelled_closed; [|apply finalized_at| | | | |].
  - destruct (finalized_derived Hs) as [Hd Hnil]. rewrite Hnil in Ht. simpl in Ht. destruct (derivedStatus_spec _ _ _ _ Hk Hd) as [Hopen Hcase].
    destruct Hcase as [[-> Hall]|[-> _]]; [by eapply Hall|]. eapply phase_closed; [|done|by eapply Hopen].
    eapply (ri_phased _ _ Hinv); [done|]. rewrite Hw, Hid. apply finalized_at.
Qed.

Lemma finalized_ends : ends s w item item' candidates.
Proof.
  destruct finalized_status as [Hs _]. pose proof (fi_active _ _ _ _ _ _ _ _ Hfi) as Ha.
  pose proof (fi_model _ _ _ _ _ _ _ _ Hfi) as Hm. destruct (fi_time _ _ _ _ _ _ _ _ Hfi) as [clock [? _]%investigationCommitTime_ge].
  assert (isTerminalInvestigation (inv_Status item') = true) as Hterm by (simpl; by destruct Hs as [-> | [-> | ->]]).
  constructor; [apply finalized_at|done|done| |apply Hfi|apply finalized_cancels|apply finalized_phase].
  constructor; simpl; try done; [|by destruct (inv_Status item)].
  split; [destruct Hs as [-> | [-> | ->]]; by destruct (inv_Status item)|].
  by destruct (fir_ModelStatus request), (inv_ModelStatus item).
Qed.

(** The hypotheses a finalization creates. *)
Lemma created_hypotheses :
  hyp_ID <$> created = hypothesisIDs /\ NoDup (hyp_ID <$> created) /\
  (forall h, h ∈ created -> hypotheses s !! scoped w (hyp_ID h) = None) /\
  forall h, h ∈ created -> Hypothesis_Validate h = Ok tt /\
    exists spec, spec ∈ fir_Hypotheses request /\ h = newHypothesis w item (hyp_ID h) spec commitAt.
Proof.
  destruct (fi_fresh _ _ _ _ _ _ _ _ Hfi) as [[Hnd Hfresh] Hl].
  destruct (newHypotheses_spec _ _ _ _ _ _ Hl (fi_created _ _ _ _ _ _ _ _ Hfi)) as (<- & _ & Heach). repeat split; try done.
  - intros h Hin. rewrite Forall_forall in Hfresh. apply (Hfresh (hyp_ID h)). by apply list_elem_of_fmap_2.
  - by apply Heach.
  - by apply Heach.
Qed.

Lemma finalized_advances : advances s s'.
Proof.
  destruct finalized_ends as [Hi Ha _ Hadv _ Hc _]. destruct created_hypotheses as (_ & Hnd & Hfresh & _).
  others_unchanged; simpl.
  - apply grows_insert; [apply _|]. rewrite Hi. by intros ? [= <-].
  - by eapply cancelled_grows.
  - apply putAll_grows; [apply _|done|]. intros h old Hh Hold. by rewrite Hfresh in Hold.
  - apply grows_fresh; [done|]. destruct (hypothesisIDsByInvestigation s !! _) eqn:Hids; [|done].
    destruct (wk_hypothesisIDs _ _ Hk _ _ Hids) as [(item0 & Hi0 & Hterm) _]. assert (item0 = item) as -> by congruence.
    by destruct (inv_Status item).
  - apply grows_fresh; [done|]. apply Hfi.
  - apply owner_grows, Hfi.
Qed.

Lemma finalized_hypothesis h : h ∈ created ->
  hypotheses s' !! scoped w (hyp_ID h) = Some h /\ hyp_InvestigationID h = inv_ID item /\ hyp_Status h = HypothesisProposed.
Proof.
  intros Hin. destruct created_hypotheses as (_ & Hnd & _ & Heach). destruct (Heach h Hin) as (_ & spec & _ & Heq).
  split; [|by rewrite Heq]. simpl. apply putAll_lookup; auto.
Qed.

Lemma finalized_ranks : exists ranks, StronglySorted Z.lt ranks /\
  Forall2 (fun id rank => exists h, hypotheses s' !! scoped w id = Some h /\ hyp_Rank h = rank) (hyp_ID <$> created) ranks.
Proof.
  destruct (fi_fresh _ _ _ _ _ _ _ _ Hfi) as [_ Hl]. exists (hs_Rank <$> fir_Hypotheses request). split; [apply Hfi|].
  rewrite <- (newHypotheses_ranks _ _ _ _ _ _ Hl (fi_created _ _ _ _ _ _ _ _ Hfi)).
  apply Forall2_fmap, Forall_Forall2_diag, Forall_forall. intros h Hin. exists h. by destruct (finalized_hypothesis h Hin).
Qed.

Lemma finalized_hypothesis_ok h : h ∈ created -> hypothesis_ok s' (scoped w (hyp_ID h)) h.
Proof.
  intros Hin. destruct created_hypotheses as (_ & _ & _ & Heach). destruct (Heach h Hin) as (Hv & spec & Hspec & Heq).
  destruct finalized_status as [Hs Hm]. pose proof (fi_evidence _ _ _ _ _ _ _ _ Hfi) as Hev. rewrite Forall_forall in Hev.
  destruct (Hev spec Hspec) as [results [_ Hcited]%visit_Ok].
  assert (hyp_InvestigationID h = inv_ID item /\ hyp_EvidenceIDs h = hs_EvidenceIDs spec /\ hyp_IncidentID h = inv_IncidentID item /\
    hyp_WorkspaceID h = w) as (Hinv' & Hids & Hinc & Hw) by (by rewrite Heq).
  unfold hypothesis_ok. rewrite Hinv', Hids, Hinc, Hw. repeat split; [done| | |].
  - exists item'. split; [simpl; apply lookup_insert_eq|]. split; [simpl; by destruct Hs as [-> | [-> | ->]]|]. split; [|done].
    simpl. apply Hm. by intros ->; apply elem_of_nil in Hin.
  - apply Forall_forall. intros id [n Hn]%list_elem_of_lookup. destruct (Hcited n id Hn) as (e & b & ? & ? & _). accepted. guards.
    by exists e.
  - exists (hyp_ID <$> created). split; [simpl; apply lookup_insert_eq|]. by apply list_elem_of_fmap_2.
Qed.

Lemma finalized_ending_ok : ending_ok s' (scoped w (inv_ID item)) item'.
Proof.
  destruct finalized_status as [_ Hm]. split; simpl.
  - intros Hs. destruct finalized_derived as [Hd Hnil]; [by rewrite Hs|]. rewrite Hnil.
    destruct (derivedStatus_spec _ _ _ _ Hk Hd) as [_ [[? _]|(_ & taskID & t & Hin & Ht & Hne & Hopen)]]; [congruence|].
    assert (task_InvestigationID t = inv_ID item) as Hid.
    { destruct (wk_investigations _ _ Hk _ _ finalized_at) as (_ & _ & _ & _ & ids & Hids & _ & Hpos).
      unfold taskIDsOf in Hin. rewrite Hids in Hin. apply list_elem_of_lookup in Hin as [n Hn].
      destruct (Hpos n taskID Hn) as (t' & Ht' & ? & _). simpl in Ht'. congruence. }
    exists taskID, t. repeat split; [done|done| |done]. eapply phase_closed; [|apply Hfi|done].
    eapply (ri_phased _ _ Hinv); [done|]. simpl. rewrite Hid. apply finalized_at.
  - intros Hc. apply Hm in Hc. exists (hyp_ID <$> created). rewrite lookup_insert_eq. split; [done|]. by destruct created.
Qed.

Lemma finalized_Inv : Inv Transform s'.
Proof.
  pose proof finalized_ends as He. pose proof finalized_advances as Hadv.
  destruct (cancelled_kept _ _ _ _ _ Hk Hadv (en_cancels _ _ _ _ _ He)) as [? ?].
  destruct created_hypotheses as (_ & Hnd & _ & _).
  eapply (ended_Inv s s' w item item' candidates); try done.
  - apply (released w item (activeInvestigation s) s); [apply Hinv|apply He|apply He].
  - rest_kept s Hk.
    + apply map_Forall_insert_2; [|old_entries s Hk]. eapply investigation_ok_advanced; [apply He|apply He|].
      eapply investigation_ok_later; [done|]. apply Hk, finalized_at.
    + apply map_Forall_insert_2; [|old_entries s Hk]. apply finalized_ending_ok.
    + done.
    + done.
    + apply putAll_Forall; [done|old_entries s Hk|]. apply finalized_hypothesis_ok.
    + apply map_Forall_insert_2; [|old_entries s Hk]. split; [|split; [|apply finalized_ranks]].
      * exists item'. split; [simpl; apply lookup_insert_eq|apply He].
      * apply Forall_forall. intros id (h & -> & Hin)%list_elem_of_fmap. exists h. by destruct (finalized_hypothesis h Hin) as (? & ? & _).
    + apply putAll_Forall; [done|old_entries s Hk|]. intros h Hin. destruct (finalized_hypothesis h Hin) as (_ & _ & Hp).
      split; congruence.
    + apply map_Forall_insert_2; [|old_entries s Hk]. split; [simpl; apply lookup_insert_eq|]. split; [done|].
      split; [simpl; apply lookup_insert_eq|]. split; [apply He|]. apply Forall_forall. intros h Hin. exists h.
      split; [by apply finalized_hypothesis|done].
Qed.
End finalized.

(** ** Feedback *)

(** What a verdict makes of an incident and a hypothesis: nothing, a rejection, or a confirmation. *)
Inductive judgement (incident : Incident) (hypothesis : HypothesisRecord) : FeedbackVerdict -> Incident -> HypothesisRecord -> Prop :=
| judge_nothing : judgement incident hypothesis FeedbackInconclusive incident hypothesis
| judge_rejected : hyp_Status hypothesis = HypothesisProposed ->
    judgement incident hypothesis FeedbackRejected incident {| hypothesis with hyp_Status := HypothesisRejected |}
| judge_confirmed actor commitAt confirmed :
    Incident_ConfirmRootCauseAt hypothesis actor commitAt incident = Ok confirmed ->
    judgement incident hypothesis FeedbackConfirmed confirmed.1 confirmed.2.

(** The state a judgement leaves. *)
Definition judgedState (request : RecordFeedbackRequest) (requestHash : string) (f : Feedback) (i' : Incident) (h' : HypothesisRecord) s :=
  storeFeedback request requestHash f (storeHypothesis request h' {| s with
    incidents := <[scoped (rfr_WorkspaceID request) (rfr_IncidentID request) := i']> (incidents s) |}).

Lemma judgedState_incident request requestHash f i h' s :
  incidents s !! scoped (rfr_WorkspaceID request) (rfr_IncidentID request) = Some i ->
  judgedState request requestHash f i h' s = storeFeedback request requestHash f (storeHypothesis request h' s).
Proof. intros Hi. unfold judgedState. rewrite insert_id by done. by destruct s. Qed.

Lemma judgedState_nothing request requestHash f i h s :
  incidents s !! scoped (rfr_WorkspaceID request) (rfr_IncidentID request) = Some i ->
  hypotheses s !! scoped (rfr_WorkspaceID request) (rfr_HypothesisID request) = Some h ->
  judgedState request requestHash f i h s = storeFeedback request requestHash f s.
Proof. intros Hi Hh. rewrite judgedState_incident by done. unfold storeHypothesis. rewrite insert_id by done. by destruct s. Qed.

Lemma Hypothesis_Validate_rejected h :
  Hypothesis_Validate h = Ok tt -> Hypothesis_Validate {| h with hyp_Status := HypothesisRejected |} = Ok tt.
Proof. unfold Hypothesis_Validate. intros Hv. simpl. destruct (knownHypothesisStatus (hyp_Status h)); [done|]. by accepted. Qed.

Lemma Hypothesis_Validate_ids h : Hypothesis_Validate h = Ok tt -> hyp_ID h <> ""%string.
Proof. unfold Hypothesis_Validate. intros. accepted. guards. by intros Hid; rewrite Hid in *. Qed.

Lemma judgement_incident incident hypothesis verdict i' h' :
  Incident_Validate incident = Ok tt -> judgement incident hypothesis verdict i' h' ->
  Incident_advances incident i' /\ Incident_Validate i' = Ok tt /\ inc_Status i' = inc_Status incident /\
  inc_SignalCount i' = inc_SignalCount incident /\ inc_OpenedAt i' = inc_OpenedAt incident /\
  inc_LastSignalAt i' = inc_LastSignalAt incident /\
  (inc_ConfirmedHypothesisID i' = inc_ConfirmedHypothesisID incident \/
   inc_ConfirmedHypothesisID incident = ""%string /\ inc_ConfirmedHypothesisID i' = hyp_ID hypothesis /\ hyp_Status h' = HypothesisConfirmed).
Proof.
  intros Hv [| |actor commitAt confirmed Hc]; [repeat split; auto; lia..|].
  unfold Incident_ConfirmRootCauseAt, Before in Hc. accepted. guards. subst. simpl in *.
  split; [|by repeat split; auto using passes_Ok]. constructor; simpl; auto; lia.
Qed.

Lemma judgement_hypothesis incident hypothesis verdict i' h' :
  Hypothesis_Validate hypothesis = Ok tt -> judgement incident hypothesis verdict i' h' ->
  Hypothesis_advances hypothesis h' /\ Hypothesis_Validate h' = Ok tt /\
  (h' = hypothesis \/ verdict = verdictOf (hyp_Status h')) /\
  (hyp_Status h' = HypothesisConfirmed -> h' = hypothesis \/ inc_ConfirmedHypothesisID i' = hyp_ID hypothesis).
Proof.
  intros Hv [|Hp|actor commitAt confirmed Hc]; [split; [done|]; by auto| |].
  - split; [by constructor|]. split; [by apply Hypothesis_Validate_rejected|]. split; [by right|done].
  - unfold Incident_ConfirmRootCauseAt in Hc. accepted. guards. subst. simpl in *.
    split; [by constructor|]. split; [by apply passes_Ok|]. split; [by right|by right].
Qed.

Section judged.
Context s request (requestHash : string) incident item hypothesis feedbackID commitAt i' h' (Hinv : Inv Transform s)
  (Hju : judges s request incident item hypothesis feedbackID commitAt)
  (Hjd : judgement incident hypothesis (rfr_Verdict request) i' h').

#[local] Abbreviation w := (rfr_WorkspaceID request).
Let f := newFeedback request incident item hypothesis feedbackID commitAt.
Let s' := judgedState request requestHash f i' h' s.
Let Hk : well_kept Transform s := ri_kept _ _ Hinv.

Lemma judged_at :
  inc_ID incident = rfr_IncidentID request /\ hyp_ID hypothesis = rfr_HypothesisID request /\
  Incident_Validate incident = Ok tt /\ Hypothesis_Validate hypothesis = Ok tt /\ hyp_WorkspaceID hypothesis = w.
Proof.
  pose proof (ju_incident _ _ _ _ _ _ _ Hju) as Hi. pose proof (ju_hypothesis _ _ _ _ _ _ _ Hju) as Hh.
  destruct (wk_incidents _ _ Hk _ _ Hi) as (_ & ? & _), (wk_hypotheses _ _ Hk _ _ Hh) as (_ & ? & _).
  destruct (incident_at Transform s Hk _ _ _ Hi) as [_ ->], (hypothesis_at Transform s Hk _ _ _ Hh) as [-> ->]. done.
Qed.

Lemma judged_advances : advances s s'.
Proof.
  destruct judged_at as (_ & _ & Hiv & Hhv & _).
  destruct (judgement_incident _ _ _ _ _ Hiv Hjd) as [Hi _], (judgement_hypothesis _ _ _ _ _ Hhv Hjd) as [Hh _].
  others_unchanged; simpl.
  - apply grows_insert; [apply _|]. rewrite (ju_incident _ _ _ _ _ _ _ Hju). by intros ? [= <-].
  - apply grows_insert; [apply _|]. rewrite (ju_hypothesis _ _ _ _ _ _ _ Hju). by intros ? [= <-].
  - apply grows_fresh; [done|]. apply Hju.
  - apply grows_fresh; [done|]. apply Hju.
  - apply owner_grows, Hju.
Qed.

Lemma judged_kept : well_kept Transform s'.
Proof.
  pose proof judged_advances as Hadv. destruct judged_at as (Hiid & Hhid & Hiv & Hhv & Hhw).
  pose proof (ju_incident _ _ _ _ _ _ _ Hju) as Li. pose proof (ju_hypothesis _ _ _ _ _ _ _ Hju) as Lh.
  destruct (judgement_incident _ _ _ _ _ Hiv Hjd) as (Hi & Hiv' & Hst & _ & _ & _ & Hcause).
  destruct (judgement_hypothesis _ _ _ _ _ Hhv Hjd) as ([Hf Hfin] & Hhv' & Hverdict & Hconf).
  destruct (wk_incidents _ _ Hk _ _ Li) as (_ & _ & _ & Hactive & _).
  pose proof (hypothesis_ok_later s s' Hadv _ _ (wk_hypotheses _ _ Hk _ _ Lh)) as (_ & _ & Hhi & Hhe & Hhl).
  assert (incidents s' !! scoped w (rfr_IncidentID request) = Some i') as Li' by (simpl; apply lookup_insert_eq).
  assert (hypotheses s' !! scoped w (rfr_HypothesisID request) = Some h') as Lh' by (simpl; apply lookup_insert_eq).
  assert (hyp_ID h' = hyp_ID hypothesis /\ hyp_IncidentID h' = hyp_IncidentID hypothesis /\
    hyp_InvestigationID h' = hyp_InvestigationID hypothesis) as (Hid' & Hinc' & Hinv') by (by rewrite Hf).
  destruct (ju_hypothesis_scope _ _ _ _ _ _ _ Hju) as [Hscope1 Hscope2].
  rest_kept s Hk.
  - apply map_Forall_insert_2; [|old_entries s Hk]. eapply incident_ok_advanced; [done|done|by rewrite Hst|].
    eapply incident_ok_later; [done|by apply Hk].
  - apply map_Forall_insert_2; [|old_entries s Hk]. destruct Hcause as [Hsame|(Hempty & Hnew & Hcs)].
    + eapply cause_ok_same; [done|apply Hi|]. eapply cause_ok_later; [done|by apply (wk_causes _ _ Hk)].
    + intros _. exists h'. simpl. rewrite Hnew, Hhid. split; [done|]. split; [done|]. rewrite Hinc', Hscope1. symmetry. apply Hi.
  - apply map_Forall_insert_2; [|old_entries s Hk]. rewrite Hf. repeat split; simpl; try done; [by rewrite Hhw, Hhid|by rewrite <- Hf].
  - apply map_Forall_insert_2; [|old_entries s Hk].
    pose proof (judged_ok_later s s' Hadv _ _ (wk_judged _ _ Hk _ _ Lh)) as [Hjc Hjj]. split.
    + intros Hs. destruct (Hconf Hs) as [Hsame|Hnew]; [rewrite Hsame in *; by apply Hjc|]. exists i'. simpl.
      rewrite Hinc', Hscope1, Hiid, Hid', Hnew. split; [done|]. split; [done|]. by apply Hypothesis_Validate_ids.
    + intros Hs. destruct Hverdict as [Hsame|Hv]; [rewrite Hsame in *; by apply Hjj|].
      exists feedbackID, f. split; [simpl; apply lookup_insert_eq|]. split; [by rewrite Hid'|]. split; [apply Hju|done].
  - apply map_Forall_insert_2; [|old_entries s Hk]. split; [done|]. split; [apply Hju|]. exists h'. simpl. rewrite Hhid.
    split; [done|]. rewrite Hinc', Hinv'. split; congruence.
  - apply map_Forall_insert_2; [|old_entries s Hk]. split; [simpl; apply lookup_insert_eq|]. eexists. simpl. apply lookup_insert_eq.
Qed.

Lemma judged_Inv : Inv Transform s'.
Proof.
  destruct judged_at as (_ & _ & Hiv & _). destruct (judgement_incident _ _ _ _ _ Hiv Hjd) as (_ & _ & _ & Hcount & Ho & Hl & _).
  constructor; [apply judged_kept| | |].
  - apply map_Forall_insert_2.
    + apply (counted_frame s s' _ incident); [done..|]. apply (ri_counted _ _ Hinv), Hju.
    + eapply map_Forall_impl; [apply (ri_counted _ _ Hinv)|]. intros k i. by apply counted_frame.
  - apply (activeOnly_frame s); [done..|apply Hinv].
  - apply (phased_frame s); [done..|apply Hinv].
Qed.
End judged.

(** ** Every commit *)

Lemma commit_Inv s s' : Inv Transform s -> commit Transform s s' -> advances s s' /\ Inv Transform s'.
Proof.
  intros Hinv Hc. pose proof (ri_kept _ _ Hinv) as Hk. destruct Hc as
    [signal tenantID Hn Hv Hf|key id incident Hx Hi Ha|request signal tenantID Hcorr Hr
    |request signal tenantID clock incident Hcorr Hs Hu Hn Heq Hv|request signal tenantID clock incident Hcorr Hi Ha Ht Hck Hms Hse Hen Hv
    |key Hf|request requestHash incident opened item taskIDs items specs components commitAt Hcr
    |request requestHash active activeID Ho Hn Hi Hh|request requestHash item task evidenceID receiptID commitAt Hco
    |request requestHash item commitAt clock Ho Hn Hi Hr Hp [results Hcl] Ht Hv
    |request requestHash item candidates created hypothesisIDs commitAt Hfi
    |request requestHash item candidates commitAt clock Hcode Ho Hn Hi Ha Ht Hcs Hv
    |request requestHash incident item hypothesis feedbackID commitAt confirmed Hju Hv Hcf
    |request requestHash incident item hypothesis feedbackID commitAt Hju Hv Hp
    |request requestHash incident item hypothesis feedbackID commitAt Hju Hv].
  - split; [by eapply storeSignal_advances|by apply storeSignal_Inv].
  - destruct (wk_incidents _ _ Hk _ _ Hi) as (_ & _ & _ & ? & _). congruence.
  - split; [by eapply resolved_advances|by eapply resolved_Inv].
  - assert (opened_facts request signal tenantID incident) as Hof by (rewrite Heq; apply openedIncident_facts).
    unfold Incident_ValidateForCreate in Hv. accepted.
    split; [by eapply opened_advances|by eapply opened_Inv].
  - unfold indexedIncident in Hi. destruct (incident_at Transform s Hk _ _ _ Hi) as [_ Hid]. rewrite <- Hid in Hi.
    split; [by eapply counted_advances|by eapply counted_Inv].
  - assert (forgetActive key s = s) as ->; [|by split].
    unfold forgetActive. rewrite delete_id; [by destruct s|]. destruct (activeInvestigation s !! key) as [id|] eqn:Hx; [|done].
    destruct key as [w incidentID]. pose proof Hx as Hy. apply (ri_active _ _ Hinv) in Hy as (item & Hi & _ & ?).
    specialize (Hf id item eq_refl Hi). congruence.
  - destruct (creates_created _ _ _ _ _ _ _ _ _ _ _ _ Hinv Hcr) as [Hcd ->].
    split; [eapply created_advances|eapply created_Inv]; try done; apply Hcr.
  - destruct (investigation_at Transform s Hk _ _ _ Hi) as [_ Hid]. rewrite <- Hid in Hi.
    split; [by apply joined_advances|by apply joined_Inv].
  - split; [by eapply completed_advances|by eapply completed_Inv].
  - split; [by eapply model_advances|by eapply model_Inv].
  - split; [by eapply finalized_advances|by eapply finalized_Inv].
  - split; [by eapply failed_advances|by eapply failed_Inv].
  - assert (judgement incident hypothesis (rfr_Verdict request) confirmed.1 confirmed.2) by (rewrite Hv; by econstructor).
    split; [by eapply judged_advances|by eapply judged_Inv].
  - rewrite <- (judgedState_incident _ _ _ incident) by apply Hju.
    assert (judgement incident hypothesis (rfr_Verdict request) incident {| hypothesis with hyp_Status := HypothesisRejected |})
      by (rewrite Hv; by constructor). split; [by eapply judged_advances|by eapply judged_Inv].
  - rewrite <- (judgedState_nothing _ _ _ incident hypothesis) by apply Hju.
    assert (judgement incident hypothesis (rfr_Verdict request) incident hypothesis) by (rewrite Hv; by constructor).
    split; [by eapply judged_advances|by eapply judged_Inv].
Qed.

Lemma commits_Inv s s' : Inv Transform s -> rtc (commit Transform) s s' -> advances s s' /\ Inv Transform s'.
Proof.
  intros Hinv Hcs. induction Hcs as [s|s1 s2 s3 Hc _ IH]; [done|]. destruct (commit_Inv _ _ Hinv Hc) as [? Hinv2].
  destruct (IH Hinv2) as [? ?]. split; [by etrans|done].
Qed.

Lemma performAll_Inv calls s : Inv Transform s -> advances s (performAll Transform calls s) /\ Inv Transform (performAll Transform calls s).
Proof. intros Hinv. apply commits_Inv; [done|]. apply performAll_commits. Qed.

Lemma after_Inv calls : Inv Transform (after Transform calls).
Proof. apply performAll_Inv, Inv_empty. Qed.
End endings.
