(* ===== verification/InvestigationTheorems.v ===== *)
(** * What the investigation repository guarantees

    Properties of every state that any sequence of calls, accepted or refused and interleaved
    as the locks allow, makes of a new repository. *)

From S2P Require Import Prelude.
From S2P Require Import Sha256.
From S2P Require Import GoText.
From S2P Require Import GoUnicode.
From S2P Require Import SafeText.
From S2P Require Import InvestigationDomain.
From S2P Require Import TaskSpecs.
From S2P Require Import InvestigationRequests.
From S2P Require Import InvestigationRepository.
From S2P Require Import InvestigationHistory.
From S2P Require Import InvestigationOrder.
From S2P Require Import InvestigationInvariant.
From S2P Require Import InvestigationPreservation.
From S2P Require Import InvestigationEndings.

Open Scope Z_scope.

Section theorems.
Context `{Unicode} (Transform : string -> Result string).
Implicit Types (s : Repository) (k : scopeKey) (calls more : list Call).

Lemma after_app calls more : after Transform (calls ++ more) = performAll Transform more (after Transform calls).
Proof. unfold after, performAll. apply fold_left_app. Qed.

(** ** The invariant *)

(** C32. Whatever the calls, every entry of every map of the repository is stored under its own
    identifiers, passes its own [Validate] and refers to entries that exist and agree with it
    (tasks, investigations, incidents, evidence, receipts, hypotheses, feedback and idempotency
    records); incidents count their signals, the index of active investigations is exact, and
    the status of an investigation is what its tasks allow. *)
Theorem investigation_repository_invariant calls : Inv Transform (after Transform calls).
Proof. apply after_Inv. Qed.

(** C24. Nothing is forgotten or rewritten: from any state to any later one, signals,
    associations, evidence, receipts, feedback and idempotency records stay as they are;
    incidents, investigations, tasks and hypotheses keep their identity and only move forward,
    and an investigation, a task or a hypothesis that has ended stays exactly as it ended. *)
Theorem investigation_history_advances calls more :
  advances (after Transform calls) (after Transform (calls ++ more)).
Proof. rewrite after_app. apply performAll_Inv, after_Inv. Qed.

(** ** Exclusion *)

(** At most one active incident per correlation key and one active investigation per incident. *)
Definition exclusive s : Prop :=
  (forall w id1 id2 i1 i2, incidents s !! scoped w id1 = Some i1 -> incidents s !! scoped w id2 = Some i2 ->
    isActiveIncident (inc_Status i1) = true -> isActiveIncident (inc_Status i2) = true ->
    inc_CorrelationKey i1 = inc_CorrelationKey i2 -> id1 = id2) /\
  (forall w id1 id2 v1 v2, investigations s !! scoped w id1 = Some v1 -> investigations s !! scoped w id2 = Some v2 ->
    isActiveInvestigation (inv_Status v1) = true -> isActiveInvestigation (inv_Status v2) = true ->
    inv_IncidentID v1 = inv_IncidentID v2 -> id1 = id2).

(** C23. In a workspace no two active incidents have the same correlation key, and no two
    active investigations are of the same incident. *)
Theorem active_work_is_exclusive calls : exclusive (after Transform calls).
Proof.
  destruct (after_Inv Transform calls) as [Hk _ Ha _]. split.
  - intros w id1 id2 i1 i2 H1 H2 _ _ Hkey.
    destruct (wk_incidents _ _ Hk _ _ H1) as ([= _ ->] & _ & _ & _ & Hx1), (wk_incidents _ _ Hk _ _ H2) as ([= _ ->] & _ & _ & _ & Hx2).
    simpl in *. rewrite Hkey in Hx1. congruence.
  - intros w id1 id2 v1 v2 H1 H2 A1 A2 Hinc.
    assert (activeInvestigation (after Transform calls) !! scoped w (inv_IncidentID v2) = Some id1) by (apply Ha; eauto).
    assert (activeInvestigation (after Transform calls) !! scoped w (inv_IncidentID v2) = Some id2) by (apply Ha; eauto).
    congruence.
Qed.

(** ** The end of an investigation *)

(** What the end of an investigation rests on. *)
Record ends_soundly s k (item : Investigation) : Prop := {
  es_completed : inv_Status item = InvestigationCompleted -> forall id, id ∈ taskIDsOf k.1 k.2 s ->
    exists t e, tasks s !! scoped k.1 id = Some t /\ task_Status t = ReadTaskEvidence /\
      evidence s !! scoped k.1 (task_EvidenceID t) = Some e /\ ev_TaskID e = task_ID t /\ ev_ConnectorID e = task_ConnectorID t /\
      sha256_hex (ev_Payload e) = ev_ContentHash e;
  es_partial : inv_Status item = InvestigationPartial ->
    (forall id, id ∈ taskIDsOf k.1 k.2 s -> exists t, tasks s !! scoped k.1 id = Some t /\ isClosedTask (task_Status t) = true) /\
    exists id t, id ∈ taskIDsOf k.1 k.2 s /\ tasks s !! scoped k.1 id = Some t /\ task_Status t <> ReadTaskEvidence;
  es_stopped : inv_Status item = InvestigationFailed \/ inv_Status item = InvestigationCancelled ->
    inv_ModelStatus item = ModelCancelled /\ ValidFailureCode (inv_FailureCode item) = true /\
    forall id, id ∈ taskIDsOf k.1 k.2 s -> exists t, tasks s !! scoped k.1 id = Some t /\ isClosedTask (task_Status t) = true;
  es_explained : inv_ModelStatus item = ModelCompleted <-> hypothesisIDsOf k.1 k.2 s <> []
}.

(** The tasks an investigation lists. *)
Lemma listed_task s k item id :
  Inv Transform s -> investigations s !! k = Some item -> id ∈ taskIDsOf k.1 k.2 s ->
  exists t, tasks s !! scoped k.1 id = Some t /\ in_phase item t /\ task_ok s (scoped k.1 id) t.
Proof.
  intros [Hk _ _ Hp] Hi Hin. destruct (wk_investigations _ _ Hk _ _ Hi) as (Hkey & _ & _ & _ & ids & Hids & _ & Hpos).
  unfold taskIDsOf in Hin. replace (scoped k.1 k.2) with k in Hin by (by destruct k). rewrite Hids in Hin.
  apply list_elem_of_lookup in Hin as [n Hn]. destruct (Hpos n id Hn) as (t & Ht & Hid & _). exists t. split; [done|].
  split; [|by apply Hk]. eapply Hp; [done|]. rewrite Hid. simpl. rewrite Hkey in Hi |- *. done.
Qed.

Lemma Evidence_Validate_hash e : Evidence_Validate e = Ok tt -> sha256_hex (ev_Payload e) = ev_ContentHash e.
Proof.
  unfold Evidence_Validate. intros. accepted. unfold wrapError in *. case_match; [|done].
  unfold validateHashedJSONObject in *. accepted. by guards.
Qed.

Lemma Inv_ends_soundly s : Inv Transform s -> map_Forall (ends_soundly s) (investigations s).
Proof.
  intros Hinv k item Hi. pose proof (ri_kept _ _ Hinv) as Hk.
  destruct (wk_investigations _ _ Hk _ _ Hi) as (Hkey & Hv & _), (wk_endings _ _ Hk _ _ Hi) as [Hpart Hmodel]. constructor.
  - intros Hs id Hin. destruct (listed_task s k item id Hinv Hi Hin) as (t & Ht & Hph & Hok). exists t.
    unfold in_phase in Hph. rewrite Hs in Hph. destruct Hok as (_ & _ & _ & _ & Hev). destruct (Hev Hph) as (e & He & Hte).
    exists e. destruct (wk_evidence _ _ Hk _ _ He) as (_ & Hve & (t' & Ht' & _ & _ & _ & _ & Hc) & _).
    rewrite Hte in Ht'. assert (t' = t) as ->. { destruct (task_at Transform _ Hk _ _ _ Ht) as [_ Hid]. simpl in Ht'. rewrite Hid in Ht'. congruence. }
    repeat split; try done. by apply Evidence_Validate_hash.
  - intros Hs. split.
    + intros id Hin. destruct (listed_task s k item id Hinv Hi Hin) as (t & Ht & Hph & _). exists t. unfold in_phase in Hph. by rewrite Hs in Hph.
    + destruct (Hpart Hs) as (id & t & Ht & Hid & _ & Hne). exists id, t. split; [|done].
      destruct (wk_tasks _ _ Hk _ _ Ht) as ([= _ Hidt] & _ & (ids & Hids & Hin) & _). unfold taskIDsOf. simpl in *.
      rewrite Hid in Hids. rewrite Hkey in Hids |- *. simpl in *. rewrite Hids. simpl. congruence.
  - intros Hs. assert (in_phase item = fun t => isClosedTask (task_Status t) = true) as Heq by (unfold in_phase; by destruct Hs as [-> | ->]).
    split; [|split].
    + unfold Investigation_Validate, Investigation_Validate_binding in Hv. accepted. destruct Hs as [Hs|Hs]; rewrite Hs in *; simpl in *; by guards.
    + unfold Investigation_Validate in Hv. accepted. destruct Hs as [Hs|Hs]; rewrite Hs in *; by accepted.
    + intros id Hin. destruct (listed_task s k item id Hinv Hi Hin) as (t & Ht & Hph & _). exists t. by rewrite Heq in Hph.
  - unfold hypothesisIDsOf. replace (scoped k.1 k.2) with k by (by destruct k). split.
    + intros Hm. destruct (Hmodel Hm) as (ids & Hids & ?). by rewrite Hids.
    + destruct (hypothesisIDsByInvestigation s !! k) as [ids|] eqn:Hids; [|done]. simpl. intros Hne.
      destruct ids as [|id ids]; [done|]. destruct (wk_hypothesisIDs _ _ Hk _ _ Hids) as (_ & Hf & _).
      apply Forall_cons in Hf as [(h & Hh & Hhi) _]. destruct (wk_hypotheses _ _ Hk _ _ Hh) as (_ & _ & (item' & Hi' & _ & Hm & _) & _).
      rewrite Hhi in Hi'. replace (scoped (scoped k.1 id).1 k.2) with k in Hi' by (by destruct k). congruence.
Qed.

(** C21. An investigation is COMPLETED only when each of its tasks has evidence, from the
    connector of the task and with the hash of its payload; PARTIAL only when each task is
    closed and one has no evidence; FAILED or CANCELLED only with a failure code, its model
    cancelled and every task closed; and it has hypotheses exactly when its model completed. *)
Theorem investigation_ends_soundly calls :
  let s := after Transform calls in map_Forall (ends_soundly s) (investigations s).
Proof. apply Inv_ends_soundly, after_Inv. Qed.

(** ** Root causes *)

(** What a confirmed root cause rests on. *)
Definition confirmed_soundly s k (i : Incident) : Prop :=
  inc_ConfirmedHypothesisID i <> ""%string ->
  exists h f item, hypotheses s !! scoped k.1 (inc_ConfirmedHypothesisID i) = Some h /\ hyp_Status h = HypothesisConfirmed /\
    hyp_IncidentID h = inc_ID i /\
    (exists id, feedback s !! scoped k.1 id = Some f) /\ fb_HypothesisID f = hyp_ID h /\ fb_Verdict f = FeedbackConfirmed /\
    actor_Type (fb_Actor f) = ActorHuman /\
    investigations s !! scoped k.1 (hyp_InvestigationID h) = Some item /\ inv_IncidentID item = inc_ID i /\
    inv_ModelStatus item = ModelCompleted /\ hyp_EvidenceIDs h <> [] /\
    Forall (fun id => exists e, evidence s !! scoped k.1 id = Some e /\ ev_InvestigationID e = inv_ID item) (hyp_EvidenceIDs h).

Definition confirmed_for_its_incident s k (h : HypothesisRecord) : Prop :=
  hyp_Status h = HypothesisConfirmed ->
  exists i, incidents s !! scoped k.1 (hyp_IncidentID h) = Some i /\ inc_ConfirmedHypothesisID i = hyp_ID h.

Lemma Hypothesis_Validate_evidence h : Hypothesis_Validate h = Ok tt -> hyp_EvidenceIDs h <> [].
Proof. unfold Hypothesis_Validate. intros. accepted. guards. by intros He; rewrite He in *. Qed.

Lemma Inv_confirmed_soundly s : Inv Transform s -> map_Forall (confirmed_soundly s) (incidents s).
Proof.
  intros [Hk _ _ _] k i Hi Hne. destruct (wk_causes _ _ Hk _ _ Hi Hne) as (h & Hh & Hs & Hinc).
  destruct (wk_hypotheses _ _ Hk _ _ Hh) as (_ & Hv & (item & Hitem & _ & Hm & Hii) & He & _).
  destruct (wk_judged _ _ Hk _ _ Hh) as [_ Hj]. destruct Hj as (id & f & Hf & Hfh & Ha & Hver); [congruence|].
  destruct (investigation_at Transform _ Hk _ _ _ Hitem) as [_ Hid].
  exists h, f, item. rewrite Hs in Hver. repeat split; try done; [by exists id|congruence|by apply Hypothesis_Validate_evidence|].
  eapply Forall_impl; [exact He|]. intros ? (e & ? & ?). exists e. split; [done|congruence].
Qed.

(** C22. The confirmed root cause of an incident is a hypothesis of that incident that a person
    confirmed, made by the completed model of an investigation of it, on evidence of that
    investigation; a hypothesis is confirmed only as the root cause of its incident, so an
    incident has at most one, and later calls never change it. *)
Theorem root_cause_is_confirmed_once calls more :
  let s := after Transform calls in let s' := after Transform (calls ++ more) in
  map_Forall (confirmed_soundly s) (incidents s) /\ map_Forall (confirmed_for_its_incident s) (hypotheses s) /\
  map_Forall (fun k i => inc_ConfirmedHypothesisID i <> ""%string ->
    exists i', incidents s' !! k = Some i' /\ inc_ConfirmedHypothesisID i' = inc_ConfirmedHypothesisID i) (incidents s).
Proof.
  split; [apply Inv_confirmed_soundly, after_Inv|]. split.
  - intros k h Hh Hs. destruct (wk_judged _ _ (ri_kept _ _ (after_Inv Transform calls)) _ _ Hh) as [Hc _].
    destruct (Hc Hs) as (i & ? & ? & _). by exists i.
  - intros k i Hi Hne. assert (advances (after Transform calls) (after Transform (calls ++ more))) as Hadv
      by (rewrite after_app; apply performAll_Inv, after_Inv).
    destruct (ad_incidents _ _ Hadv _ _ Hi) as (i' & ? & [_ _ _ _ _ Hcause]). exists i'. split; [done|]. by destruct Hcause.
Qed.
End theorems.
