(* ===== verification/InvestigationReplay.v ===== *)
(** * Refusals and repetitions of calls to the investigation repository

    A call that is refused leaves the repository as it was.  A call that was accepted can be
    repeated at any later time: it answers what it answered and changes nothing. *)

From S2P Require Import Prelude.
From S2P Require Import GoText.
From S2P Require Import GoUnicode.
From S2P Require Import SafeText.
From S2P Require Import InvestigationDomain.
From S2P Require Import TaskSpecs.
From S2P Require Import InvestigationRequests.
From S2P Require Import StoreErrors.
From S2P Require Import InvestigationRepository.
From S2P Require Import InvestigationHistory.
From S2P Require Import InvestigationOrder.
From S2P Require Import InvestigationInvariant.
From S2P Require Import InvestigationPreservation.
From S2P Require Import InvestigationEndings.

Open Scope Z_scope.

Section replay.
Context `{Unicode} (Transform : string -> Result string).
Implicit Types (s : Repository) (k : scopeKey) (calls more between : list Call).

(** ** Refusals *)

(** A call that ends with an error ends in one of the states it saw. *)
Definition harmless {A} (seen : list Repository) (r : Result A) (s' : Repository) : Prop :=
  match r with Ok _ => True | Err _ => s' ∈ seen end.

Ltac harm := unfold harmless; try done; try case_match; set_solver.

Lemma RegisterSignal_locked_harmless signal tenantID clock s :
  wp (RegisterSignal_locked signal tenantID clock) (harmless [s]) s.
Proof. unfold RegisterSignal_locked. wp_run_all; harm. Qed.

Lemma CorrelateSignal_locked_harmless request clock ids s :
  Inv Transform s -> wp (CorrelateSignal_locked Transform request clock ids) (harmless [s]) s.
Proof.
  intros [Hk _ _ _]. unfold CorrelateSignal_locked.
  do 2 wp_step. destruct (correlationProbe Transform request s); [wp_step; harm|].
  destruct (signals s !! _) as [signal|]; [|wp_step; harm]. destruct (signalTenants s !! _) as [tenantID|]; [|wp_step; harm].
  do 2 wp_step; [|harm]. cbv zeta. destruct (incidents s !! _) as [incident|] eqn:Hi.
  - destruct (wk_incidents _ _ Hk _ _ Hi) as (_ & _ & _ & Ha & _). rewrite Ha. simpl. do 2 wp_step.
    unfold CorrelateSignal_count. wp_run_all; harm.
  - simpl. do 2 wp_step. wp_step; [by wp_run_all|]. unfold CorrelateSignal_open. wp_run_all; harm.
Qed.

(** The index of active investigations is exact: nothing is removed from it here. *)
Lemma activeFor_Inv w incidentID s :
  Inv Transform s -> wp (activeFor w (scoped w incidentID)) (fun r s' => s' = s /\
    ((exists active, r = Ok (Some active) /\ investigations s !! scoped w (inv_ID active) = Some active) \/ r = Ok None)) s.
Proof.
  intros [Hk _ Ha _]. unfold activeFor. wp_run_all; [by split; [|right]| | |].
  - split; [done|]. left. exists i. by destruct (investigation_at Transform s Hk _ _ _ Heqo) as [_ ->].
  - destruct (activeInvestigation s !! scoped w incidentID) as [id|] eqn:Hx; [|done].
    pose proof (proj1 (Ha _ _ _) Hx) as (item & Hi & _ & ?). simpl in *. congruence.
  - destruct (activeInvestigation s !! scoped w incidentID) as [id|] eqn:Hx; [|done].
    pose proof (proj1 (Ha _ _ _) Hx) as (item & Hi & _ & ?). simpl in *. congruence.
Qed.

Lemma lookupAll_Ok {A : Type} (m : gmap scopeKey A) (w : string) (ids : list string) :
  (forall id, id ∈ ids -> is_Some (m !! scoped w id)) -> exists items, lookupAll m w ids = Ok items.
Proof.
  unfold lookupAll. induction ids as [|id ids IH]; intros Hall; simpl; [by eexists|].
  destruct (Hall id) as [a ->]; [by left|]. simpl. destruct IH as [items ->]; [|by eexists]. intros id' ?. apply Hall. by right.
Qed.

Lemma listed_tasks s w id item :
  well_kept Transform s -> investigations s !! scoped w id = Some item ->
  exists items, lookupAll (tasks s) w (taskIDsOf w id s) = Ok items.
Proof.
  intros Hk Hi. apply lookupAll_Ok. intros taskID Hin.
  destruct (wk_investigations _ _ Hk _ _ Hi) as (_ & _ & _ & _ & ids & Hids & _ & Hpos). unfold taskIDsOf in Hin. rewrite Hids in Hin.
  apply list_elem_of_lookup in Hin as [n Hn]. destruct (Hpos n taskID Hn) as (t & ? & _). by exists t.
Qed.

Lemma CreateOrGetInvestigation_locked_harmless request requestHash specs ctx authorizer binder clock ids s :
  Inv Transform s ->
  wp (CreateOrGetInvestigation_locked Transform request requestHash specs ctx authorizer binder clock ids) (harmless [s]) s.
Proof.
  intros Hinv. unfold CreateOrGetInvestigation_locked. do 3 wp_step; [wp_step; harm|]. do 2 wp_step; [|harm].
  wp_step. eapply wp_mono; [|by apply activeFor_Inv]. intros r s' [-> [(active & -> & Hact)| ->]]; cbv beta iota.
  - wp_run_all; try harm. unfold CreateOrGetInvestigation_join. wp_run_all; try harm. unfold investigationResult. simpl. rewrite Hact.
    destruct (listed_tasks s _ _ _ (ri_kept _ _ Hinv) Hact) as [items Hitems]. unfold taskIDsOf in *. simpl. by rewrite Hitems.
  - unfold CreateOrGetInvestigation_new. wp_run_all; harm.
Qed.

(** What a completion answers. *)
Lemma completion_answer s request requestHash item task evidenceID receiptID commitAt :
  Inv Transform s -> completes Transform s request requestHash item task evidenceID receiptID commitAt ->
  let s' := completionState request requestHash item task evidenceID receiptID commitAt s in
  exists result, taskCompletionResult (ctr_WorkspaceID request) {| tc_requestHash := requestHash; tc_taskID := task_ID task;
    tc_evidenceID := evidenceID; tc_receiptID := receiptID |} false s' = Ok result.
Proof.
  intros Hinv Hco s'. destruct (completed_lookups _ _ _ _ _ _ _ _ _ Hco) as (Lt & _ & Lr & Le).
  unfold taskCompletionResult. cbn [tc_taskID tc_evidenceID tc_receiptID]. unfold s', completionState. rewrite Lt, Lr.
  destruct (evidenceID == ""%string) eqn:He; [by eexists|].
  destruct (completion_evidence _ _ _ _ _ _ _ _ _ Hco) as [(Hs & _)|(_ & -> & _)]; [|done].
  destruct (Le Hs) as (e & _ & -> & _). by eexists.
Qed.

Lemma CompleteTask_harmless err request clock ids s : Inv Transform s -> wp (CompleteTask Transform err request clock ids) (harmless [s]) s.
Proof.
  intros Hinv. unfold CompleteTask. wp_run_all; try harm.
  pose proof (NormalizeCompleteTaskRequest_Ok _ _ _ _ Heqr); subst; guards.
  eapply wp_mono; [|by apply CompleteTask_commit_spec].
  intros r s' [(e & -> & ->)|(evidenceID & receiptID & commitAt & Hco & -> & ->)]; [harm|].
  by destruct (completion_answer _ _ _ _ _ _ _ _ Hinv Hco) as [result ->].
Qed.

Lemma StartModel_harmless err request clock s : wp (StartModel Transform err request clock) (harmless [s]) s.
Proof. unfold StartModel. wp_run_all; harm. Qed.

Lemma FinalizeInvestigation_harmless err request clock ids s :
  wp (FinalizeInvestigation Transform err request clock ids) (harmless [s]) s.
Proof. unfold FinalizeInvestigation, FinalizeInvestigation_commit. wp_run_all; harm. Qed.

Lemma FailInvestigation_harmless err request clock s : wp (FailInvestigation Transform err request clock) (harmless [s]) s.
Proof. unfold FailInvestigation. wp_run_all; harm. Qed.

Lemma RecordFeedback_harmless err request clock ids s : wp (RecordFeedback Transform err request clock ids) (harmless [s]) s.
Proof. unfold RecordFeedback, judge. wp_run_all; harm. Qed.

(** ** Repetitions *)

(** Whatever was answered, [again] holds of the answer in every later state. *)
Definition lasting {A} (again : A -> Repository -> Prop) (r : Result A) (s1 : Repository) : Prop :=
  match r with Ok a => forall more, again a (performAll Transform more s1) | Err _ => True end.

Lemma wp_lasting {A} (m : M Repository A) (holds again : A -> Repository -> Prop) s :
  Inv Transform s -> wp m (fun _ s1 => rtc (commit Transform) s s1) s ->
  wp m (fun r s1 => match r with Ok a => holds a s1 | Err _ => True end) s ->
  (forall a s1 s2, Inv Transform s1 -> advances s1 s2 -> Inv Transform s2 -> holds a s1 -> again a s2) ->
  wp m (lasting again) s.
Proof.
  intros Hinv Hc Ha Hagain. unfold wp in *. destruct (m s) as [[a|e] s1]; simpl in *; [|done]. intros more.
  destruct (commits_Inv _ _ _ Hinv Hc) as [_ Hinv1]. destruct (performAll_Inv Transform more s1 Hinv1) as [? ?]. by apply (Hagain a s1).
Qed.

(** *** Signals *)

Definition signal_known (signal : Signal) s : Prop :=
  NormalizeSignalForReplay signal = Ok signal /\ signals s !! scoped (sig_WorkspaceID signal) (sig_ID signal) = Some signal.

Lemma RegisterSignal_accepted err signal tenant clock others s :
  wp (RegisterSignal err signal tenant clock others) (fun r s1 => match r with Ok _ => signal_known signal s1 | Err _ => True end) s.
Proof.
  assert (forall s r, registeredAlready (scoped (sig_WorkspaceID signal) (sig_ID signal)) signal s = Some (Ok r) ->
    signals s !! scoped (sig_WorkspaceID signal) (sig_ID signal) = Some signal) as Hreg.
  { unfold registeredAlready. intros s0 r Hr. repeat (case_match; simplify_eq/=). by guards; subst. }
  unfold RegisterSignal, RegisterSignal_locked. wp_run_all; try done.
  all: pose proof (NormalizeSignalForReplay_Ok _ _ Heqr); subst; try case_match; subst; split; eauto.
  all: simpl; by rewrite lookup_insert_eq.
Qed.

Lemma RegisterSignal_again signal tenant clock others s :
  Inv Transform s -> signal_known signal s -> RegisterSignal None signal tenant clock others s = (Ok false, s).
Proof.
  intros [Hk _ _ _] [Hn Hs]. destruct (wk_signals _ _ Hk _ _ Hs) as (_ & _ & tenantID & Ht & Hv).
  unfold RegisterSignal, checkContext, lift, get, mbind, M_bind. rewrite Hn. unfold registeredAlready. rewrite Hs, Ht, Hv.
  by rewrite eqb_same.
Qed.

(** *** Correlations *)

Definition correlated (request : CorrelateSignalRequest) (result : CorrelateSignalResult) s : Prop :=
  validCorrelation request = true /\
  correlationProbe Transform request s = Some (Ok {| result with csa_Created := false; csa_Counted := false |}).

Lemma CorrelateSignal_again request clock ids others result s :
  validCorrelation request = true -> correlationProbe Transform request s = Some (Ok result) ->
  CorrelateSignal Transform None request clock ids others s = (Ok result, s).
Proof.
  intros Hv Hp. unfold CorrelateSignal, checkContext, require, lift, get, mbind, M_bind. by rewrite Hv, Hp.
Qed.

(** The same incident, further on. *)
Definition same_incident (o o' : option Incident) : Prop :=
  match o, o' with Some i, Some i' => Incident_advances i i' | None, None => True | _, _ => False end.

Lemma signalSnapshotMatches_later request s s' expected :
  Inv Transform s -> advances s s' ->
  is_Some (signals s !! scoped (csr_WorkspaceID request) (csr_SignalID request)) ->
  signalSnapshotMatchesLocked Transform (scoped (csr_WorkspaceID request) (csr_SignalID request)) expected s' =
  signalSnapshotMatchesLocked Transform (scoped (csr_WorkspaceID request) (csr_SignalID request)) expected s.
Proof.
  intros [Hk _ _ _] Hadv [x Hx]. destruct (wk_signals _ _ Hk _ _ Hx) as (_ & _ & tenantID & Ht & _).
  unfold signalSnapshotMatchesLocked. rewrite Hx, Ht.
  by rewrite (keeps_lookup _ _ _ _ (ad_signals _ _ Hadv) Hx), (keeps_lookup _ _ _ _ (ad_tenants _ _ Hadv) Ht).
Qed.

Lemma correlationProbe_later request s s' result :
  Inv Transform s -> advances s s' -> correlationProbe Transform request s = Some (Ok result) ->
  exists incident, correlationProbe Transform request s' = Some (Ok {| result with csa_Incident := incident |}) /\
    same_incident (csa_Incident result) incident.
Proof.
  intros Hinv Hadv Hp. unfold correlationProbe in *.
  destruct (signalTenants s !! _) as [tenantID|] eqn:Ht; [|done]. rewrite (keeps_lookup _ _ _ _ (ad_tenants _ _ Hadv) Ht).
  destruct (ValidResourceID tenantID); [|done]. simpl in *.
  destruct (signals s !! scoped (csr_WorkspaceID request) (csr_SignalID request)) as [x|] eqn:Hx;
    [|by destruct (wk_tenants _ _ (ri_kept _ _ Hinv) _ _ Ht); congruence].
  rewrite (signalSnapshotMatches_later request s) by eauto. destruct (signalSnapshotMatchesLocked _ _ _ _); [|done]. simpl in *.
  unfold correlationReplayLocked in *. rewrite Hx in Hp. rewrite (keeps_lookup _ _ _ _ (ad_signals _ _ Hadv) Hx).
  destruct (signalIncident s !! _) as [a|] eqn:Ha; [|done]. rewrite (keeps_lookup _ _ _ _ (ad_associations _ _ Hadv) Ha).
  destruct (assoc_matches a request); [|done]. simpl in *. destruct (_ == _); [by simplify_eq; exists None|].
  destruct (incidents s !! _) as [i|] eqn:Hi; [|done]. destruct (ad_incidents _ _ Hadv _ _ Hi) as (i' & -> & ?).
  simplify_eq. by exists (Some i').
Qed.

Lemma correlationProbe_plain request s result :
  correlationProbe Transform request s = Some (Ok result) ->
  correlationProbe Transform request s = Some (Ok {| result with csa_Created := false; csa_Counted := false |}).
Proof.
  intros Hp. rewrite Hp. do 2 f_equal. unfold correlationProbe, correlationReplayLocked in Hp.
  by repeat (case_match; simplify_eq/=).
Qed.

(** What a repetition finds once the signal is associated. *)
Lemma correlationProbe_associated request s s' id :
  correlationProbe Transform request s = None -> signals s' = signals s -> signalTenants s' = signalTenants s ->
  signalIncident s' = signalIncident (associateSignal request id s) ->
  correlationProbe Transform request s' =
    Some (if id == ""%string then Ok CorrelateSignalResult_zero
          else match incidents s' !! scoped (csr_WorkspaceID request) id with
               | None => Err ErrNotFound
               | Some i => Ok {| csa_Incident := Some i; csa_Created := false; csa_Associated := true; csa_Counted := false |}
               end).
Proof.
  intros Hp Hs Ht Ha. unfold correlationProbe, signalSnapshotMatchesLocked, correlationReplayLocked in *. rewrite Hs, Ht, Ha.
  destruct (signalTenants s !! _) as [tenantID|]; [|done]. destruct (ValidResourceID tenantID); [|done]. simpl in *.
  destruct (negb _); [done|]. destruct (signals s !! _) as [x|]; [|done].
  destruct (signalIncident s !! _) eqn:Hn; [by repeat (case_match; simplify_eq/=)|].
  rewrite lookup_insert_eq. unfold assoc_matches. simpl. rewrite !eqb_same. simpl. destruct (id == ""%string); [done|]. by case_match.
Qed.

Lemma CorrelateSignal_locked_accepted request clock ids s :
  Inv Transform s -> validCorrelation request = true ->
  wp (CorrelateSignal_locked Transform request clock ids) (fun r s1 =>
    match r with Ok result => correlated request result s1 | Err _ => True end) s.
Proof.
  intros [Hk _ _ _] Hvc. unfold CorrelateSignal_locked. do 2 wp_step.
  destruct (correlationProbe Transform request s) as [answer|] eqn:Hp.
  { wp_step. case_match; [|done]. subst. split; [done|]. by apply correlationProbe_plain. }
  destruct (signals s !! _) as [signal|]; [|by wp_step]. destruct (signalTenants s !! _) as [tenantID|]; [|by wp_step].
  do 2 wp_step; [|done]. cbv zeta. destruct (incidents s !! _) as [incident|] eqn:Hi.
  - destruct (wk_incidents _ _ Hk _ _ Hi) as (_ & _ & _ & Ha & _). rewrite Ha. simpl. do 2 wp_step.
    destruct (incident_at Transform s Hk _ _ _ Hi) as [_ Hid]. pose proof (incident_id_nonempty Transform s Hk _ _ Hi) as Hne.
    unfold CorrelateSignal_count. wp_run_all; try done. split; [done|].
    erewrite correlationProbe_associated; [|exact Hp|done|done|done]. simpl. rewrite lookup_insert_eq. simpl in Hne.
    rewrite Hid. by rewrite (proj2 (eqb_false _ _) Hne).
  - simpl. do 2 wp_step. wp_step.
    + wp_run_all. split; [done|]. by erewrite correlationProbe_associated; [|exact Hp|done|done|done].
    + unfold CorrelateSignal_open. wp_run_all; try done. split; [done|]. apply newID_Ok in Heqr as [-> Hv].
      erewrite correlationProbe_associated; [|exact Hp|done|done|done]. simpl. rewrite lookup_insert_eq.
      apply ValidResourceID_nonempty in Hv. by rewrite (proj2 (eqb_false _ _) Hv).
Qed.

Lemma CorrelateSignal_accepted err request clock ids between s :
  Inv Transform s ->
  wp (CorrelateSignal Transform err request clock ids (performAll Transform between)) (fun r s1 =>
    match r with Ok result => correlated request result s1 | Err _ => True end) s.
Proof.
  intros Hinv. destruct (performAll_Inv Transform between s Hinv) as [_ Hinv']. unfold CorrelateSignal.
  wp_run_all; try done.
  - subst. split; [done|]. by apply correlationProbe_plain.
  - by apply CorrelateSignal_locked_accepted.
Qed.

(** *** Investigations *)

Definition creation_recorded (request : CreateOrGetInvestigationRequest) (result : CreateOrGetInvestigationResult) s : Prop :=
  exists canonical requestHash,
    validResourceScope (cir_WorkspaceID request) [cir_IncidentID request] && ValidIdempotencyKey (cir_IdempotencyKey request) = true /\
    CanonicalTaskSpecs Transform (cir_Tasks request) = Ok canonical /\
    CreateOrGetInvestigationRequestHash Transform request canonical.2 = Ok requestHash /\
    createInvestigationReplayLocked (cir_WorkspaceID request) (scoped (cir_WorkspaceID request) (cir_IdempotencyKey request)) requestHash s =
      Some (Ok {| result with cia_Created := false |}).

Lemma CreateOrGetInvestigation_again request result s ctx authorizer binder clock ids others :
  creation_recorded request result s ->
  CreateOrGetInvestigation Transform None request ctx authorizer binder clock ids others s =
    (Ok {| result with cia_Created := false |}, s).
Proof.
  intros (canonical & requestHash & Hv & Hc & Hh & Hr).
  unfold CreateOrGetInvestigation, checkContext, require, lift, get, mbind, M_bind. by rewrite Hv, Hc, Hh, Hr.
Qed.

Lemma visit_later {A : Type} (R : relation A) (m m' : gmap scopeKey A) (w : string) (ids : list string) (items : list A) :
  grows R m m' -> lookupAll m w ids = Ok items -> exists items', lookupAll m' w ids = Ok items' /\ Forall2 R items items'.
Proof.
  intros Hg. unfold lookupAll. revert items. induction ids as [|id ids IH]; intros items Hv; simpl in *.
  { simplify_eq. exists []. split; [done|constructor]. }
  destruct (m !! _) as [a|] eqn:Ha; [|done]. destruct (Hg _ _ Ha) as (a' & -> & HR). simpl in *.
  destruct (visit m w Ok ids) as [rest|] eqn:Hrest; simplify_eq/=. destruct (IH rest eq_refl) as (rest' & -> & ?).
  exists (a' :: rest'). split; [done|]. by constructor.
Qed.

Definition further (result result' : CreateOrGetInvestigationResult) : Prop :=
  cia_Created result' = false /\ Investigation_advances (cia_Investigation result) (cia_Investigation result') /\
  Forall2 Task_advances (cia_Tasks result) (cia_Tasks result').

Lemma creation_recorded_later request result s s' :
  Inv Transform s -> advances s s' -> creation_recorded request result s ->
  exists result', creation_recorded request result' s' /\ further result result'.
Proof.
  intros [Hk _ _ _] Hadv (canonical & requestHash & Hv & Hc & Hh & Hr). unfold creation_recorded.
  unfold createInvestigationReplayLocked, idempotencyOwnerMatches in *.
  destruct (investigationIdempotency s !! _) as [record|] eqn:Hrec; [|by destruct (negb _)].
  destruct (wk_creations _ _ Hk _ _ Hrec) as [Hown _]. rewrite Hown in Hr. simpl in Hr. destruct (_ != _) eqn:Hhash; [done|].
  injection Hr as Hr. unfold investigationResult in Hr. destruct (investigations s !! _) as [item|] eqn:Hi; [|done]. accepted.
  destruct (ad_investigations _ _ Hadv _ _ Hi) as (item' & Hi' & ?).
  destruct (wk_investigations _ _ Hk _ _ Hi) as (_ & _ & _ & _ & ids & Hids & _).
  destruct (visit_later _ _ _ _ _ _ (ad_tasks _ _ Hadv) H0) as (items' & Hitems & ?).
  exists {| cia_Investigation := item'; cia_Tasks := items'; cia_Created := false |}.
  split; [|split; [done|by subst]].
  exists canonical, requestHash. split; [done|]. split; [done|]. split; [done|].
  rewrite (keeps_lookup _ _ _ _ (ad_owners _ _ Hadv) Hown), (keeps_lookup _ _ _ _ (ad_creations _ _ Hadv) Hrec). simpl.
  rewrite Hhash. unfold investigationResult. rewrite Hi'. unfold taskIDsOf in *. simpl in *. rewrite Hids in Hitems.
  by rewrite (keeps_lookup _ _ _ _ (ad_taskIDs _ _ Hadv) Hids), Hitems.
Qed.

Lemma investigationResult_plain w id created s result :
  investigationResult w id created s = Ok result -> investigationResult w id false s = Ok {| result with cia_Created := false |}.
Proof. unfold investigationResult. case_match; [|done]. intros. accepted. subst. by rewrite H1. Qed.

Lemma createInvestigationReplay_plain w key requestHash s result :
  createInvestigationReplayLocked w key requestHash s = Some (Ok result) ->
  createInvestigationReplayLocked w key requestHash s = Some (Ok {| result with cia_Created := false |}).
Proof.
  unfold createInvestigationReplayLocked. repeat case_match; try done. intros [= Hr]. f_equal. by eapply investigationResult_plain.
Qed.

(** The items that were written are the ones that are read. *)
Lemma lookupAll_putAll {A : Type} (id : A -> string) (w : string) (items : list A) (m : gmap scopeKey A) :
  NoDup (id <$> items) -> lookupAll (foldl (fun m a => <[scoped w (id a) := a]> m) m items) w (id <$> items) = Ok items.
Proof.
  intros Hnd. set (m' := foldl _ _ _). assert (forall a, a ∈ items -> m' !! scoped w (id a) = Some a) as Hall.
  { intros a Ha. apply putAll_lookup; auto. }
  clearbody m'. clear Hnd. unfold lookupAll. induction items as [|a items IH]; [done|].
  rewrite fmap_cons. cbn -[fmap]. rewrite Hall by (by left). cbn -[fmap]. rewrite IH; [done|]. intros b Hb. apply Hall. by right.
Qed.

Lemma CreateOrGetInvestigation_locked_accepted request requestHash specs ctx authorizer binder clock ids s :
  Inv Transform s ->
  wp (CreateOrGetInvestigation_locked Transform request requestHash specs ctx authorizer binder clock ids) (fun r s1 =>
    match r with
    | Ok result => createInvestigationReplayLocked (cir_WorkspaceID request) (scoped (cir_WorkspaceID request)
                     (cir_IdempotencyKey request)) requestHash s1 = Some (Ok {| result with cia_Created := false |})
    | Err _ => True
    end) s.
Proof.
  intros Hinv. unfold CreateOrGetInvestigation_locked. do 3 wp_step.
  { wp_step. case_match; [|done]. subst. by apply createInvestigationReplay_plain. }
  do 2 wp_step; [|done].
  wp_step. eapply wp_mono; [|by apply activeFor_Inv]. intros r s' [-> [(active & -> & Hact)| ->]]; cbv beta iota.
  - wp_run_all; try done. unfold CreateOrGetInvestigation_join. wp_run_all; try done.
    unfold createInvestigationReplayLocked, idempotencyOwnerMatches. simpl. rewrite !lookup_insert_eq. simpl. rewrite eqb_same. simpl.
    f_equal. by eapply investigationResult_plain.
  - unfold CreateOrGetInvestigation_new. wp_run_all; try done.
    destruct (ResolveTaskRuntimeComponents_Ok _ _ _ _ _ _ _ _ Heqr0) as [_ Hlc].
    destruct (newTaskIDs_Ok Transform _ _ _ _ _ _ _ Heqr2) as ([Hnd _] & Hlt & _).
    destruct (newTasks_spec _ _ _ _ _ _ _ _ _ _ Hlt Hlc Heqr3) as [<- _].
    unfold createInvestigationReplayLocked, idempotencyOwnerMatches. simpl. rewrite !lookup_insert_eq. simpl. rewrite eqb_same. simpl.
    unfold investigationResult, taskIDsOf. simpl. rewrite !lookup_insert_eq. simpl. by rewrite lookupAll_putAll.
Qed.

Lemma CreateOrGetInvestigation_accepted err request ctx authorizer binder clock ids between s :
  Inv Transform s ->
  wp (CreateOrGetInvestigation Transform err request ctx authorizer binder clock ids (performAll Transform between)) (fun r s1 =>
    match r with Ok result => creation_recorded request result s1 | Err _ => True end) s.
Proof.
  intros Hinv. destruct (performAll_Inv Transform between s Hinv) as [_ Hinv']. unfold CreateOrGetInvestigation.
  wp_run_all; try done.
  - subst. do 2 eexists. split; [done|]. split; [done|]. split; [done|]. by apply createInvestigationReplay_plain.
  - eapply wp_mono; [|by apply CreateOrGetInvestigation_locked_accepted]. intros [result|] s1 Hr; [|done].
    do 2 eexists. split; [done|]. eauto.
Qed.

(** *** Completions *)

Definition completion_recorded (request : CompleteTaskRequest) (result : CompleteTaskResult) s : Prop :=
  exists requestHash record,
    validResourceScope (ctr_WorkspaceID request) [ctr_InvestigationID request; ctr_TaskID request; ctr_RunnerID request] &&
      ValidIdempotencyKey (ctr_IdempotencyKey request) = true /\
    NormalizeCompleteTaskRequest Transform request = Ok (request, requestHash) /\ tc_requestHash record = requestHash /\
    taskCompletionIdempotency s !! scoped (ctr_WorkspaceID request) (ctr_IdempotencyKey request) = Some record /\
    taskCompletionResult (ctr_WorkspaceID request) record true s = Ok {| result with cta_Replayed := true |}.

Lemma taskCompletionResult_replayed w record replayed s result :
  taskCompletionResult w record replayed s = Ok result ->
  taskCompletionResult w record true s = Ok {| result with cta_Replayed := true |}.
Proof. unfold taskCompletionResult. repeat case_match; intros [= <-]; done. Qed.

Lemma CompleteTask_accepted err request clock ids s :
  Inv Transform s ->
  wp (CompleteTask Transform err request clock ids) (fun r s1 =>
    match r with Ok result => completion_recorded request result s1 | Err _ => True end) s.
Proof.
  intros Hinv. unfold CompleteTask. wp_run_all; try done; pose proof (NormalizeCompleteTaskRequest_Ok _ _ _ _ Heqr); subst.
  - do 2 eexists. split; [done|]. split; [done|]. split; [by guards|]. split; [done|]. by eapply taskCompletionResult_replayed.
  - guards. eapply wp_mono; [|by apply CompleteTask_commit_spec].
    intros r s' [(e & -> & ->)|(evidenceID & receiptID & commitAt & Hco & -> & ->)]; [done|]. case_match; [|done].
    do 2 eexists. split; [by apply andb_true_intro|]. split; [done|].
    split; [|split; [simpl; by rewrite lookup_insert_eq|]]; [done|].
    by eapply taskCompletionResult_replayed.
Qed.

Lemma CompleteTask_again request result s clock ids :
  Inv Transform s -> completion_recorded request result s ->
  CompleteTask Transform None request clock ids s = (Ok {| result with cta_Replayed := true |}, s).
Proof.
  intros [Hk _ _ _] (requestHash & record & Hv & Hn & Hh & Hr & Hresult). destruct (wk_completions _ _ Hk _ _ Hr) as [Hown _].
  unfold CompleteTask, checkContext, require, lift, get, mbind, M_bind, idempotencyOwnerMatches.
  by rewrite Hv, Hn, Hown, Hr, Hh, !eqb_same, Hresult.
Qed.

Lemma completion_recorded_later request result s s' :
  Inv Transform s -> advances s s' -> completion_recorded request result s -> completion_recorded request result s'.
Proof.
  intros [Hk _ _ _] Hadv (requestHash & record & Hv & Hn & Hh & Hr & Hresult). exists requestHash, record.
  do 3 (split; [done|]). split; [by eapply keeps_lookup; [apply (ad_completions _ _ Hadv)|]|].
  destruct (wk_completions _ _ Hk _ _ Hr) as (_ & (task & Ht & Hclosed & _) & (receipt & Hrec & _) & Hev). rewrite <- Hresult.
  unfold taskCompletionResult. simpl in *. rewrite Ht, Hrec, (keeps_lookup _ _ _ _ (ad_receipts _ _ Hadv) Hrec).
  destruct (ad_tasks _ _ Hadv _ _ Ht) as (task' & -> & [_ Hsame _]). rewrite (Hsame Hclosed).
  destruct (_ == _) eqn:He; [done|]. guards. destruct (Hev He) as (e & Hee & _).
  by rewrite Hee, (keeps_lookup _ _ _ _ (ad_evidence _ _ Hadv) Hee).
Qed.

(** *** The model *)

Definition model_recorded (request : StartModelRequest) (result : StartModelResult) s : Prop :=
  exists requestHash record,
    validResourceScope (smr_WorkspaceID request) [smr_InvestigationID request] && ValidIdempotencyKey (smr_IdempotencyKey request) = true /\
    StartModelRequestHash Transform request = Ok requestHash /\ ms_requestHash record = requestHash /\
    modelStartIdempotency s !! scoped (smr_WorkspaceID request) (smr_IdempotencyKey request) = Some record /\
    sma_Investigation (ms_result record) = sma_Investigation result.

Lemma StartModel_accepted err request clock s :
  wp (StartModel Transform err request clock) (fun r s1 =>
    match r with Ok result => model_recorded request result s1 | Err _ => True end) s.
Proof.
  unfold StartModel. wp_run_all; try done; do 2 eexists; do 2 (split; [done|]).
  - split; [by guards|]. split; [done|]. done.
  - split; [|split; [simpl; by rewrite lookup_insert_eq|]]; done.
Qed.

Lemma StartModel_again request result s clock :
  Inv Transform s -> model_recorded request result s ->
  StartModel Transform None request clock s = (Ok {| result with sma_Replayed := true |}, s).
Proof.
  intros [Hk _ _ _] (requestHash & record & Hv & Hn & Hh & Hr & Hresult). destruct (wk_models _ _ Hk _ _ Hr) as [Hown _].
  unfold StartModel, checkContext, require, lift, get, mbind, M_bind, idempotencyOwnerMatches.
  by rewrite Hv, Hn, Hown, Hr, Hh, !eqb_same, Hresult.
Qed.

(** *** Endings *)

Definition finalization_recorded (request : FinalizeInvestigationRequest) (result : FinalizeInvestigationResult) s : Prop :=
  exists request' requestHash record,
    validResourceScope (fir_WorkspaceID request) [fir_InvestigationID request] && ValidIdempotencyKey (fir_IdempotencyKey request) = true /\
    NormalizeFinalizeInvestigationRequest Transform request = Ok (request', requestHash) /\ fin_requestHash record = requestHash /\
    finalizeIdempotency s !! scoped (fir_WorkspaceID request) (fir_IdempotencyKey request') = Some record /\
    fia_Investigation (fin_result record) = fia_Investigation result /\ fia_Hypotheses (fin_result record) = fia_Hypotheses result.

Lemma FinalizeInvestigation_accepted err request clock ids s :
  wp (FinalizeInvestigation Transform err request clock ids) (fun r s1 =>
    match r with Ok result => finalization_recorded request result s1 | Err _ => True end) s.
Proof.
  unfold FinalizeInvestigation, FinalizeInvestigation_commit. wp_run_all; try done; do 3 eexists; do 2 (split; [done|]).
  - split; [by guards|]. by split; [done|].
  - destruct (NormalizeFinalizeInvestigationRequest_Ok _ _ _ _ Heqr) as [Hw _]. rewrite <- Hw.
    split; [|split; [simpl; by rewrite lookup_insert_eq|]]; done.
Qed.

Lemma FinalizeInvestigation_again request result s clock ids :
  Inv Transform s -> finalization_recorded request result s ->
  FinalizeInvestigation Transform None request clock ids s = (Ok {| result with fia_Replayed := true |}, s).
Proof.
  intros [Hk _ _ _] (request' & requestHash & record & Hv & Hn & Hh & Hr & Hresult & Hresult').
  destruct (wk_finalizations _ _ Hk _ _ Hr) as [Hown _].
  unfold FinalizeInvestigation, checkContext, require, lift, get, mbind, M_bind, idempotencyOwnerMatches.
  by rewrite Hv, Hn, Hown, Hr, Hh, !eqb_same, Hresult, Hresult'.
Qed.

Definition failure_recorded (request : FailInvestigationRequest) (result : FailInvestigationResult) s : Prop :=
  exists requestHash record,
    validResourceScope (fail_WorkspaceID request) [fail_InvestigationID request] &&
      ValidIdempotencyKey (fail_IdempotencyKey request) = true /\
    FailInvestigationRequestHash Transform request = Ok requestHash /\ idem_requestHash record = requestHash /\
    failureIdempotency s !! scoped (fail_WorkspaceID request) (fail_IdempotencyKey request) = Some record /\
    investigations s !! scoped (fail_WorkspaceID request) (idem_resourceID record) = Some (faila_Investigation result).

Lemma FailInvestigation_accepted err request clock s :
  Inv Transform s ->
  wp (FailInvestigation Transform err request clock) (fun r s1 =>
    match r with Ok result => failure_recorded request result s1 | Err _ => True end) s.
Proof.
  intros [Hk _ _ _]. unfold FailInvestigation. wp_run_all; try done; do 2 eexists; do 2 (split; [done|]).
  - split; [by guards|]. by split; [done|].
  - split; [|split; [simpl; by rewrite lookup_insert_eq|]]; [done|]. simpl.
    match goal with Hi : investigations s !! _ = Some ?item |- _ =>
      destruct (investigation_at Transform s Hk _ _ _ Hi) as [_ Hid] end.
    simpl in Hid. by rewrite Hid, lookup_insert_eq.
Qed.

Lemma FailInvestigation_again request result s clock :
  Inv Transform s -> failure_recorded request result s ->
  FailInvestigation Transform None request clock s = (Ok {| result with faila_Replayed := true |}, s).
Proof.
  intros [Hk _ _ _] (requestHash & record & Hv & Hn & Hh & Hr & Hresult). destruct (wk_failures _ _ Hk _ _ Hr) as [Hown _].
  unfold FailInvestigation, checkContext, require, require_some, lift, get, mbind, M_bind, idempotencyOwnerMatches.
  by rewrite Hv, Hn, Hown, Hr, Hh, !eqb_same, Hresult.
Qed.

Lemma failure_recorded_later request result s s' :
  Inv Transform s -> advances s s' -> failure_recorded request result s -> failure_recorded request result s'.
Proof.
  intros [Hk _ _ _] Hadv (requestHash & record & Hv & Hn & Hh & Hr & Hresult). exists requestHash, record.
  do 3 (split; [done|]). split; [by eapply keeps_lookup; [apply (ad_failures _ _ Hadv)|]|].
  destruct (wk_failures _ _ Hk _ _ Hr) as (_ & item & Hi & Hf). simpl in Hi. rewrite Hi in Hresult. injection Hresult as <-.
  destruct (ad_investigations _ _ Hadv _ _ Hi) as (item' & -> & Hsame). by rewrite (va_final _ _ Hsame) by (by rewrite Hf).
Qed.

(** *** Feedback *)

Definition feedback_recorded (request : RecordFeedbackRequest) (result : RecordFeedbackResult) s : Prop :=
  exists request' requestHash record,
    validResourceScope (rfr_WorkspaceID request) [rfr_IncidentID request; rfr_InvestigationID request; rfr_HypothesisID request;
      actor_ID (rfr_Actor request)] && ValidIdempotencyKey (rfr_IdempotencyKey request) = true /\
    NormalizeRecordFeedbackRequest Transform request = Ok (request', requestHash) /\ idem_requestHash record = requestHash /\
    feedbackIdempotency s !! scoped (rfr_WorkspaceID request) (rfr_IdempotencyKey request') = Some record /\
    feedback s !! scoped (rfr_WorkspaceID request) (idem_resourceID record) = Some (rfa_Feedback result).

Lemma RecordFeedback_accepted err request clock ids s :
  wp (RecordFeedback Transform err request clock ids) (fun r s1 =>
    match r with Ok result => feedback_recorded request result s1 | Err _ => True end) s.
Proof.
  unfold RecordFeedback, judge. wp_run_all; try done; do 3 eexists; do 2 (split; [done|]).
  1: by split; [guards|split].
  all: destruct (NormalizeRecordFeedbackRequest_Ok _ _ _ _ Heqr) as (Hw & _); rewrite <- Hw.
  all: split; [|split; [simpl; by rewrite lookup_insert_eq|]]; [done|]; simpl; by rewrite lookup_insert_eq.
Qed.

Lemma RecordFeedback_again request result s clock ids :
  Inv Transform s -> feedback_recorded request result s ->
  RecordFeedback Transform None request clock ids s = (Ok {| result with rfa_Created := false |}, s).
Proof.
  intros [Hk _ _ _] (request' & requestHash & record & Hv & Hn & Hh & Hr & Hresult).
  destruct (wk_feedbacks _ _ Hk _ _ Hr) as [Hown _].
  unfold RecordFeedback, checkContext, require, require_some, lift, get, mbind, M_bind, idempotencyOwnerMatches.
  by rewrite Hv, Hn, Hown, Hr, Hh, !eqb_same, Hresult.
Qed.

(** *** At any later time *)

Lemma RegisterSignal_repeats err signal tenant clock between s :
  Inv Transform s ->
  wp (RegisterSignal err signal tenant clock (performAll Transform between)) (lasting (fun _ later =>
    forall tenant clock others, RegisterSignal None signal tenant clock others later = (Ok false, later))) s.
Proof.
  intros Hinv. eapply (wp_lasting _ (fun _ => signal_known signal) _ s Hinv);
    [exact (perform_commits Transform (CallRegisterSignal _ _ _ _ _) s)|apply RegisterSignal_accepted|].
  intros _ s1 s2 _ Hadv Hinv2 [Hn Hs] *. apply RegisterSignal_again; [done|]. split; [done|].
  by eapply keeps_lookup; [apply (ad_signals _ _ Hadv)|].
Qed.

Lemma CorrelateSignal_repeats err request clock ids between s :
  Inv Transform s ->
  wp (CorrelateSignal Transform err request clock ids (performAll Transform between)) (lasting (fun result later =>
    exists incident, same_incident (csa_Incident result) incident /\ forall clock ids others,
      CorrelateSignal Transform None request clock ids others later =
        (Ok {| result with csa_Incident := incident; csa_Created := false; csa_Counted := false |}, later))) s.
Proof.
  intros Hinv. eapply (wp_lasting _ (correlated request) _ s Hinv);
    [exact (perform_commits Transform (CallCorrelateSignal _ _ _ _ _) s)|by apply CorrelateSignal_accepted|].
  intros result s1 s2 Hinv1 Hadv Hinv2 [Hv Hp]. destruct (correlationProbe_later _ _ _ _ Hinv1 Hadv Hp) as (incident & Hp' & ?).
  exists incident. split; [done|]. intros. by apply CorrelateSignal_again.
Qed.

Lemma CreateOrGetInvestigation_repeats err request ctx authorizer binder clock ids between s :
  Inv Transform s ->
  wp (CreateOrGetInvestigation Transform err request ctx authorizer binder clock ids (performAll Transform between)) (lasting (fun result later =>
    exists result', further result result' /\ forall ctx authorizer binder clock ids others,
      CreateOrGetInvestigation Transform None request ctx authorizer binder clock ids others later = (Ok result', later))) s.
Proof.
  intros Hinv. eapply (wp_lasting _ (creation_recorded request) _ s Hinv);
    [exact (perform_commits Transform (CallCreateOrGetInvestigation _ _ _ _ _ _ _ _) s)|by apply CreateOrGetInvestigation_accepted|].
  intros result s1 s2 Hinv1 Hadv Hinv2 Hc. destruct (creation_recorded_later _ _ _ _ Hinv1 Hadv Hc) as (result' & Hc' & Hf).
  exists result'. split; [done|]. intros. rewrite (CreateOrGetInvestigation_again request result') by done.
  destruct result', Hf as [Hf _]. simpl in *. by rewrite Hf.
Qed.

Lemma CompleteTask_repeats err request clock ids s :
  Inv Transform s ->
  wp (CompleteTask Transform err request clock ids) (lasting (fun result later => forall clock ids,
    CompleteTask Transform None request clock ids later = (Ok {| result with cta_Replayed := true |}, later))) s.
Proof.
  intros Hinv. eapply (wp_lasting _ (completion_recorded request) _ s Hinv);
    [exact (perform_commits Transform (CallCompleteTask _ _ _ _) s)|by apply CompleteTask_accepted|].
  intros. eapply CompleteTask_again; eauto using completion_recorded_later.
Qed.

Lemma StartModel_repeats err request clock s :
  Inv Transform s ->
  wp (StartModel Transform err request clock) (lasting (fun result later => forall clock,
    StartModel Transform None request clock later = (Ok {| result with sma_Replayed := true |}, later))) s.
Proof.
  intros Hinv. eapply (wp_lasting _ (model_recorded request) _ s Hinv);
    [exact (perform_commits Transform (CallStartModel _ _ _) s)|by apply StartModel_accepted|].
  intros result s1 s2 _ Hadv ? (requestHash & record & ? & ? & ? & Hr & ?) *. apply StartModel_again; [done|].
  exists requestHash, record. by rewrite (keeps_lookup _ _ _ _ (ad_models _ _ Hadv) Hr).
Qed.

Lemma FinalizeInvestigation_repeats err request clock ids s :
  Inv Transform s ->
  wp (FinalizeInvestigation Transform err request clock ids) (lasting (fun result later => forall clock ids,
    FinalizeInvestigation Transform None request clock ids later = (Ok {| result with fia_Replayed := true |}, later))) s.
Proof.
  intros Hinv. eapply (wp_lasting _ (finalization_recorded request) _ s Hinv);
    [exact (perform_commits Transform (CallFinalizeInvestigation _ _ _ _) s)|by apply FinalizeInvestigation_accepted|].
  intros result s1 s2 _ Hadv ? (request' & requestHash & record & ? & ? & ? & Hr & ?) *.
  apply FinalizeInvestigation_again; [done|].
  exists request', requestHash, record. by rewrite (keeps_lookup _ _ _ _ (ad_finalizations _ _ Hadv) Hr).
Qed.

Lemma FailInvestigation_repeats err request clock s :
  Inv Transform s ->
  wp (FailInvestigation Transform err request clock) (lasting (fun result later => forall clock,
    FailInvestigation Transform None request clock later = (Ok {| result with faila_Replayed := true |}, later))) s.
Proof.
  intros Hinv. eapply (wp_lasting _ (failure_recorded request) _ s Hinv);
    [exact (perform_commits Transform (CallFailInvestigation _ _ _) s)|by apply FailInvestigation_accepted|].
  intros. eapply FailInvestigation_again; eauto using failure_recorded_later.
Qed.

Lemma RecordFeedback_repeats err request clock ids s :
  Inv Transform s ->
  wp (RecordFeedback Transform err request clock ids) (lasting (fun result later => forall clock ids,
    RecordFeedback Transform None request clock ids later = (Ok {| result with rfa_Created := false |}, later))) s.
Proof.
  intros Hinv. eapply (wp_lasting _ (feedback_recorded request) _ s Hinv);
    [exact (perform_commits Transform (CallRecordFeedback _ _ _ _) s)|by apply RecordFeedback_accepted|].
  intros result s1 s2 _ Hadv ? (request' & requestHash & record & ? & ? & ? & Hr & Hf) *. apply RecordFeedback_again; [done|].
  exists request', requestHash, record.
  by rewrite (keeps_lookup _ _ _ _ (ad_feedbacks _ _ Hadv) Hr), (keeps_lookup _ _ _ _ (ad_feedback _ _ Hadv) Hf).
Qed.

(** ** The guarantees *)

(** A refused call leaves the repository as it found it; one that reads before it locks, as it
    was then or as the calls in between made it. *)
Record refuses_harmlessly s : Prop := {
  rh_register : forall err signal tenant clock between,
    wp (RegisterSignal err signal tenant clock (performAll Transform between)) (harmless [s; performAll Transform between s]) s;
  rh_correlate : forall err request clock ids between,
    wp (CorrelateSignal Transform err request clock ids (performAll Transform between))
      (harmless [s; performAll Transform between s]) s;
  rh_create : forall err request ctx authorizer binder clock ids between,
    wp (CreateOrGetInvestigation Transform err request ctx authorizer binder clock ids (performAll Transform between))
      (harmless [s; performAll Transform between s]) s;
  rh_complete : forall err request clock ids, wp (CompleteTask Transform err request clock ids) (harmless [s]) s;
  rh_model : forall err request clock, wp (StartModel Transform err request clock) (harmless [s]) s;
  rh_finalize : forall err request clock ids, wp (FinalizeInvestigation Transform err request clock ids) (harmless [s]) s;
  rh_fail : forall err request clock, wp (FailInvestigation Transform err request clock) (harmless [s]) s;
  rh_feedback : forall err request clock ids, wp (RecordFeedback Transform err request clock ids) (harmless [s]) s
}.

Lemma harmless_weaken {A} (m : M Repository A) s s0 :
  wp m (harmless [s]) s -> wp m (harmless [s0; s]) s.
Proof. apply wp_mono. intros [a|e] s'; simpl; [done|]. set_solver. Qed.

(** C25. Whatever calls came before, a call to any operation that writes, if it is refused,
    changes nothing: neither one that fails its checks nor one whose new identifiers collide,
    whose clock is zero or whose result would not be valid. *)
Theorem refused_investigation_call_changes_nothing calls : refuses_harmlessly (after Transform calls).
Proof.
  pose proof (after_Inv Transform calls) as Hinv. set (s := after Transform calls) in *. clearbody s.
  constructor; intros; try destruct (performAll_Inv Transform between s Hinv) as [_ Hinv'].
  - unfold RegisterSignal. wp_run_all; try harm; apply harmless_weaken, RegisterSignal_locked_harmless.
  - unfold CorrelateSignal. wp_run_all; try harm; by apply harmless_weaken, CorrelateSignal_locked_harmless.
  - unfold CreateOrGetInvestigation. wp_run_all; try harm; by apply harmless_weaken, CreateOrGetInvestigation_locked_harmless.
  - by apply CompleteTask_harmless.
  - apply StartModel_harmless.
  - apply FinalizeInvestigation_harmless.
  - apply FailInvestigation_harmless.
  - apply RecordFeedback_harmless.
Qed.

(** An accepted call, repeated in any later state with whatever clock, identifiers, authorizer
    and binder, is answered as it was, marked as a repetition, and changes nothing.  What a
    correlation or a creation reports of its incident, its investigation and its tasks is what
    they have become. *)
Record repeats_harmlessly s : Prop := {
  rp_register : forall err signal tenant clock between,
    wp (RegisterSignal err signal tenant clock (performAll Transform between)) (lasting (fun _ later =>
      forall tenant clock others, RegisterSignal None signal tenant clock others later = (Ok false, later))) s;
  rp_correlate : forall err request clock ids between,
    wp (CorrelateSignal Transform err request clock ids (performAll Transform between)) (lasting (fun result later =>
      exists incident, same_incident (csa_Incident result) incident /\ forall clock ids others,
        CorrelateSignal Transform None request clock ids others later =
          (Ok {| result with csa_Incident := incident; csa_Created := false; csa_Counted := false |}, later))) s;
  rp_create : forall err request ctx authorizer binder clock ids between,
    wp (CreateOrGetInvestigation Transform err request ctx authorizer binder clock ids (performAll Transform between))
      (lasting (fun result later => exists result', further result result' /\ forall ctx authorizer binder clock ids others,
        CreateOrGetInvestigation Transform None request ctx authorizer binder clock ids others later = (Ok result', later))) s;
  rp_complete : forall err request clock ids,
    wp (CompleteTask Transform err request clock ids) (lasting (fun result later => forall clock ids,
      CompleteTask Transform None request clock ids later = (Ok {| result with cta_Replayed := true |}, later))) s;
  rp_model : forall err request clock,
    wp (StartModel Transform err request clock) (lasting (fun result later => forall clock,
      StartModel Transform None request clock later = (Ok {| result with sma_Replayed := true |}, later))) s;
  rp_finalize : forall err request clock ids,
    wp (FinalizeInvestigation Transform err request clock ids) (lasting (fun result later => forall clock ids,
      FinalizeInvestigation Transform None request clock ids later = (Ok {| result with fia_Replayed := true |}, later))) s;
  rp_fail : forall err request clock,
    wp (FailInvestigation Transform err request clock) (lasting (fun result later => forall clock,
      FailInvestigation Transform None request clock later = (Ok {| result with faila_Replayed := true |}, later))) s;
  rp_feedback : forall err request clock ids,
    wp (RecordFeedback Transform err request clock ids) (lasting (fun result later => forall clock ids,
      RecordFeedback Transform None request clock ids later = (Ok {| result with rfa_Created := false |}, later))) s
}.

(** C19. Calls are idempotent.  Whatever calls came before and come after an accepted call,
    repeating it with the same request writes nothing, does not depend on what the authorizer,
    the binder, the clock and the source of identifiers would answer, and is answered with the
    same result, marked as a repetition.  The repetition of a correlation or of a creation names
    the same incident, the same investigation and the same tasks, and reports them as they have
    advanced since. *)
Theorem accepted_investigation_call_repeats calls : repeats_harmlessly (after Transform calls).
Proof.
  pose proof (after_Inv Transform calls).
  by constructor; intros; [apply RegisterSignal_repeats|apply CorrelateSignal_repeats|apply CreateOrGetInvestigation_repeats
    |apply CompleteTask_repeats|apply StartModel_repeats|apply FinalizeInvestigation_repeats|apply FailInvestigation_repeats
    |apply RecordFeedback_repeats].
Qed.
End replay.
