(* ===== verification/InvestigationReads.v ===== *)
(** * What the investigation repository answers when it is read

    The lists of the repository are exact: they hold the resources of the workspace, incident,
    investigation or task that was asked for, all of them once and no others, in order; and the
    list of an investigation that exists is always answered. *)

From S2P Require Import Prelude.
From S2P Require Import GoText.
From S2P Require Import GoSort.
From S2P Require Import GoUnicode.
From S2P Require Import SafeText.
From S2P Require Import InvestigationDomain.
From S2P Require Import TaskSpecs.
From S2P Require Import InvestigationRequests.
From S2P Require Import InvestigationRepository.
From S2P Require Import InvestigationHistory.
From S2P Require Import InvestigationOrder.
From S2P Require Import InvestigationInvariant.
From S2P Require Import InvestigationPreservation.
From S2P Require Import InvestigationEndings.
From S2P Require Import InvestigationReplay.

Open Scope Z_scope.

(** A list that is answered, in [order], with each of the [member]s once and nothing else. *)
Definition answers {A} (r : Result (list A)) (order : relation A) (member : A -> Prop) : Prop :=
  exists l, r = Ok l /\ StronglySorted order l /\ NoDup l /\ forall a, a ∈ l <-> member a.

Lemma elem_of_filter_bool {A} (p : A -> bool) (l : list A) a : a ∈ List.filter p l <-> a ∈ l /\ p a = true.
Proof. rewrite !list_elem_of_In. apply filter_In. Qed.

Lemma wanted_true {A} `{EqDecision A} (statuses : list A) status :
  wanted statuses status = true <-> statuses = [] \/ status ∈ statuses.
Proof.
  destruct statuses as [|x statuses]; [by split; [left|]|]. unfold wanted. rewrite bool_decide_eq_true. naive_solver.
Qed.

Lemma elem_of_values {A : Type} (m : gmap scopeKey A) a : a ∈ (map_to_list m).*2 <-> exists k, m !! k = Some a.
Proof.
  rewrite list_elem_of_fmap. split.
  - intros ([k b] & -> & Hin). exists k. by apply elem_of_map_to_list.
  - intros [k Hk]. exists (k, a). split; [done|]. by apply elem_of_map_to_list.
Qed.

(** Values that name their own keys are different. *)
Lemma values_NoDup {A : Type} (m : gmap scopeKey A) (key : A -> scopeKey) :
  (forall k a, m !! k = Some a -> k = key a) -> NoDup (map_to_list m).*2.
Proof.
  intros Hk. apply NoDup_fmap_2_strong; [|apply NoDup_map_to_list].
  intros [k a] [k' a'] Ha%elem_of_map_to_list Ha'%elem_of_map_to_list Heq. simpl in *. subst a'.
  by rewrite (Hk _ _ Ha), (Hk _ _ Ha').
Qed.

Lemma NoDup_filter_bool {A} (p : A -> bool) (l : list A) : NoDup l -> NoDup (List.filter p l).
Proof.
  induction 1 as [|a l Ha _ IH]; simpl; [constructor|]. case_match; [|done]. constructor; [|done].
  rewrite elem_of_filter_bool. naive_solver.
Qed.

Lemma sort_Slice_NoDup {A} (less : A -> A -> bool) (l : list A) : NoDup l -> NoDup (sort_Slice less l).
Proof. by rewrite sort_Slice_perm. Qed.

Lemma irreflexive_NoDup {A} (R : relation A) (l : list A) : (forall a, ~ R a a) -> StronglySorted R l -> NoDup l.
Proof.
  intros HR. induction 1 as [|a l _ IH Ha]; constructor; [|done]. intros Hin. rewrite Forall_forall in Ha. by apply (HR a), Ha.
Qed.

(** The resources that are read by different IDs are different. *)
Lemma lookupAll_NoDup {A : Type} (m : gmap scopeKey A) (w : string) (name : A -> string) (ids : list string) (items : list A) :
  (forall id a, m !! scoped w id = Some a -> name a = id) -> NoDup ids -> lookupAll m w ids = Ok items -> NoDup items.
Proof.
  intros Hname Hnd Hl. apply (NoDup_fmap_1 name). assert (name <$> items = ids) as ->; [|done].
  clear Hnd. unfold lookupAll in Hl. revert items Hl. induction ids as [|id ids IH]; intros items Hv; simpl in Hv; [by simplify_eq|].
  destruct (m !! scoped w id) as [b|] eqn:Hb; [|done]. simpl in Hv. destruct (visit m w Ok ids) as [rest|]; simplify_eq/=.
  f_equal; [by apply Hname|]. by apply IH.
Qed.

(** The resources that are read by their IDs are those the IDs name. *)
Lemma lookupAll_elem {A : Type} (m : gmap scopeKey A) (w : string) (ids : list string) (items : list A) :
  lookupAll m w ids = Ok items -> forall a, a ∈ items <-> exists id, id ∈ ids /\ m !! scoped w id = Some a.
Proof.
  unfold lookupAll. revert items. induction ids as [|id ids IH]; intros items Hv a; simpl in Hv.
  { simplify_eq. set_solver. }
  destruct (m !! scoped w id) as [b|] eqn:Hb; [|done]. simpl in Hv. destruct (visit m w Ok ids) as [rest|] eqn:Hr; simplify_eq/=.
  rewrite elem_of_cons, (IH rest eq_refl). set_solver.
Qed.

Lemma numbered_sorted {A} (position : A -> Z) (first : Z) (l : list A) :
  (forall n a, l !! n = Some a -> position a = Z.of_nat n + first) -> StronglySorted (fun a b => position a < position b) l.
Proof.
  revert first. induction l as [|a l IH]; intros first Hp; [constructor|]. constructor.
  - apply (IH (first + 1)). intros n b Hb. rewrite (Hp (S n) b Hb). lia.
  - apply Forall_forall. intros b [n Hb]%list_elem_of_lookup. rewrite (Hp 0%nat a eq_refl), (Hp (S n) b Hb). lia.
Qed.

Lemma StronglySorted_filter {A} (R : relation A) (p : A -> bool) (l : list A) :
  StronglySorted R l -> StronglySorted R (List.filter p l).
Proof.
  induction 1 as [|a l Hs IH Ha]; simpl; [constructor|]. case_match; [|done]. constructor; [done|].
  rewrite Forall_forall in *. intros b [? _]%elem_of_filter_bool. auto.
Qed.

(** The resources that are read by their IDs, in the order of their positions. *)
Lemma lookupAll_sorted {A : Type} (m : gmap scopeKey A) (w : string) (position : A -> Z) (ids : list string) (items : list A)
    (positions : list Z) :
  lookupAll m w ids = Ok items -> StronglySorted Z.lt positions ->
  Forall2 (fun id p => exists a, m !! scoped w id = Some a /\ position a = p) ids positions ->
  StronglySorted (fun a b => position a < position b) items.
Proof.
  intros Hl Hs Hp. assert (position <$> items = positions) as Heq.
  { clear Hs. unfold lookupAll in Hl. revert items Hl. induction Hp as [|id p ids positions (a & Ha & <-) _ IH]; intros items Hv; simpl in Hv.
    { by simplify_eq. }
    rewrite Ha in Hv. simpl in Hv. destruct (visit m w Ok ids) as [rest|]; simplify_eq/=. f_equal. by apply IH. }
  subst positions. clear Hl Hp. induction items as [|a items IH]; [constructor|]. csimpl in Hs. apply Sorted.StronglySorted_inv in Hs as [Hs' Hall].
  constructor; [by apply IH|]. apply Forall_forall. intros b Hb. by apply (proj1 (Forall_forall _ _) Hall), list_elem_of_fmap_2.
Qed.

Section reads.
Context `{Unicode} (Transform : string -> Result string).
Implicit Types (s : Repository) (calls : list Call).

Record lists_exactly s : Prop := {
  le_incidents : forall w statuses,
    ValidResourceID w = true -> forallb knownIncidentStatus statuses = true ->
    answers (ListIncidents None w statuses s) (le_of (lessBy [inc_OpenedAt] inc_ID)) (fun i =>
      (exists id, incidents s !! scoped w id = Some i) /\ (statuses = [] \/ inc_Status i ∈ statuses));
  le_investigations : forall w incidentID statuses,
    ValidResourceID w = true -> forallb knownInvestigationStatus statuses = true ->
    incidentID = ""%string \/ ValidResourceID incidentID = true /\ is_Some (incidents s !! scoped w incidentID) ->
    answers (ListInvestigations None w incidentID statuses s) (le_of (lessBy [inv_CreatedAt] inv_ID)) (fun item =>
      (exists id, investigations s !! scoped w id = Some item) /\
      (incidentID = ""%string \/ inv_IncidentID item = incidentID) /\ (statuses = [] \/ inv_Status item ∈ statuses));
  le_tasks : forall w id item statuses,
    validResourceScope w [id] = true -> forallb knownReadTaskStatus statuses = true -> investigations s !! scoped w id = Some item ->
    answers (ListTasks None w id statuses s) (fun t t' => task_Position t < task_Position t') (fun t =>
      (exists taskID, tasks s !! scoped w taskID = Some t) /\ task_InvestigationID t = id /\
      (statuses = [] \/ task_Status t ∈ statuses));
  le_evidence : forall w id item taskID,
    validResourceScope w [id] = true -> optionalID taskID = true -> investigations s !! scoped w id = Some item ->
    answers (ListEvidence None w id taskID s) (le_of (lessBy [ev_CollectedAt; ev_CreatedAt] ev_ID)) (fun e =>
      (exists evidenceID, evidence s !! scoped w evidenceID = Some e) /\ ev_InvestigationID e = id /\
      (taskID = ""%string \/ ev_TaskID e = taskID));
  le_hypotheses : forall w id item,
    validResourceScope w [id] = true -> investigations s !! scoped w id = Some item ->
    answers (ListHypotheses None w id s) (fun h h' => hyp_Rank h < hyp_Rank h') (fun h =>
      (exists hypothesisID, hypotheses s !! scoped w hypothesisID = Some h) /\ hyp_InvestigationID h = id)
}.

(** The resources of a workspace, where the key of each is its own. *)
Lemma in_workspace {A : Type} (m : gmap scopeKey A) (workspace id : A -> string) (w : string) a :
  (forall k a, m !! k = Some a -> k = scoped (workspace a) (id a)) ->
  (exists k, m !! k = Some a) /\ workspace a = w <-> exists i, m !! scoped w i = Some a.
Proof.
  intros Hk. split.
  - intros [[k Ha] <-]. exists (id a). by rewrite <- (Hk _ _ Ha).
  - intros [i Ha]. split; [eauto|]. by injection (Hk _ _ Ha).
Qed.

Lemma ListIncidents_exact s w statuses :
  Inv Transform s -> ValidResourceID w = true -> forallb knownIncidentStatus statuses = true ->
  answers (ListIncidents None w statuses s) (le_of (lessBy [inc_OpenedAt] inc_ID)) (fun i =>
      (exists id, incidents s !! scoped w id = Some i) /\ (statuses = [] \/ inc_Status i ∈ statuses)).
Proof.
  intros [Hk _ _ _] Hw Hs. unfold ListIncidents. rewrite Hw, Hs. eexists. split; [done|]. split; [apply lessBy_sorted|].
  split.
  { apply sort_Slice_NoDup, NoDup_filter_bool, (values_NoDup _ (fun i => scoped (inc_WorkspaceID i) (inc_ID i))).
    intros k i Hi. apply (wk_incidents _ _ Hk _ _ Hi). }
  intros i. rewrite sort_Slice_perm, elem_of_filter_bool, elem_of_values.
  rewrite <- (in_workspace (incidents s) inc_WorkspaceID inc_ID w i) by (intros k a Ha; apply (wk_incidents _ _ Hk _ _ Ha)).
  rewrite andb_true_iff, eqb_true, wanted_true. naive_solver.
Qed.

Lemma ListInvestigations_exact s w incidentID statuses :
  Inv Transform s -> ValidResourceID w = true -> forallb knownInvestigationStatus statuses = true ->
  incidentID = ""%string \/ ValidResourceID incidentID = true /\ is_Some (incidents s !! scoped w incidentID) ->
  answers (ListInvestigations None w incidentID statuses s) (le_of (lessBy [inv_CreatedAt] inv_ID)) (fun item =>
      (exists id, investigations s !! scoped w id = Some item) /\
      (incidentID = ""%string \/ inv_IncidentID item = incidentID) /\ (statuses = [] \/ inv_Status item ∈ statuses)).
Proof.
  intros [Hk _ _ _] Hw Hs Hi. unfold ListInvestigations, optionalID. rewrite Hw, Hs.
  assert ((incidentID == "") || ValidResourceID incidentID = true) as ->.
  { destruct Hi as [->|[-> _]]; [done|by rewrite orb_true_r]. }
  assert ((incidentID == "") || present (incidents s !! scoped w incidentID) = true) as ->.
  { destruct Hi as [->|[_ [i ->]]]; [done|by rewrite orb_true_r]. }
  eexists. split; [done|]. split; [apply lessBy_sorted|]. split.
  { apply sort_Slice_NoDup, NoDup_filter_bool, (values_NoDup _ (fun item => scoped (inv_WorkspaceID item) (inv_ID item))).
    intros k item Hi'. apply (wk_investigations _ _ Hk _ _ Hi'). }
  intros item. rewrite sort_Slice_perm, elem_of_filter_bool, elem_of_values.
  rewrite <- (in_workspace (investigations s) inv_WorkspaceID inv_ID w item) by (intros k a Ha; apply (wk_investigations _ _ Hk _ _ Ha)).
  rewrite !andb_true_iff, orb_true_iff, !eqb_true, wanted_true. naive_solver.
Qed.

Lemma readListed_Ok {A : Type} (m : gmap scopeKey A) ids extra w id item s :
  validResourceScope w [id] = true -> extra = true -> investigations s !! scoped w id = Some item ->
  readListed None m ids extra w id s = lookupAll m w (ids w id s).
Proof. intros Hw -> Hi. unfold readListed. by rewrite Hw, Hi. Qed.

Lemma ListTasks_exact s w id item statuses :
  Inv Transform s -> validResourceScope w [id] = true -> forallb knownReadTaskStatus statuses = true ->
  investigations s !! scoped w id = Some item ->
  answers (ListTasks None w id statuses s) (fun t t' => task_Position t < task_Position t') (fun t =>
      (exists taskID, tasks s !! scoped w taskID = Some t) /\ task_InvestigationID t = id /\
      (statuses = [] \/ task_Status t ∈ statuses)).
Proof.
  intros [Hk _ _ _] Hw Hs Hi. unfold ListTasks. erewrite readListed_Ok by done.
  destruct (listed_tasks Transform s w id item Hk Hi) as [items Hitems]. rewrite Hitems.
  destruct (wk_investigations _ _ Hk _ _ Hi) as ([= _ Hid] & _ & _ & _ & ids & Hids & _ & Hpos).
  assert (taskIDsOf w id s = ids) as Hids' by (unfold taskIDsOf; by rewrite Hids). rewrite Hids' in Hitems.
  assert (StronglySorted (fun t t' => task_Position t < task_Position t') items) as Hsorted.
  { apply (numbered_sorted _ 1). intros n t Ht. destruct (visit_Ok _ _ _ _ _ Hitems) as [Hl Hn].
    destruct (lookup_lt_is_Some_2 ids n) as [taskID Hn']; [rewrite <- Hl; by eapply lookup_lt_Some|].
    destruct (Hn n taskID Hn') as (t1 & t2 & Ht1 & [= ->] & Ht2), (Hpos n taskID Hn') as (t3 & Ht3 & _ & ?). simpl in *. congruence. }
  eexists. split; [done|]. split; [by apply StronglySorted_filter|]. split.
  - apply NoDup_filter_bool. eapply irreflexive_NoDup; [|exact Hsorted]. intros t. simpl. lia.
  - intros t. rewrite elem_of_filter_bool, (lookupAll_elem _ _ _ _ Hitems), wanted_true. split.
    + intros [(taskID & Hin & Ht) ?]. apply list_elem_of_lookup in Hin as [n Hn]. destruct (Hpos n taskID Hn) as (t' & Ht' & ? & _).
      simpl in *. split; [eauto|]. split; [congruence|done].
    + intros ([taskID Ht] & Hinv & ?). split; [|done]. exists taskID. split; [|done].
      destruct (wk_tasks _ _ Hk _ _ Ht) as ([= _ ->] & _ & (ids' & Hids'' & Hin) & _). simpl in *. congruence.
Qed.

Lemma ListEvidence_exact s w id item taskID :
  Inv Transform s -> validResourceScope w [id] = true -> optionalID taskID = true -> investigations s !! scoped w id = Some item ->
  answers (ListEvidence None w id taskID s) (le_of (lessBy [ev_CollectedAt; ev_CreatedAt] ev_ID)) (fun e =>
      (exists evidenceID, evidence s !! scoped w evidenceID = Some e) /\ ev_InvestigationID e = id /\
      (taskID = ""%string \/ ev_TaskID e = taskID)).
Proof.
  intros [Hk _ _ _] Hw Ho Hi. unfold ListEvidence. erewrite readListed_Ok by done.
  assert (forall evidenceID, evidenceID ∈ evidenceIDsOf w id s ->
    exists e, evidence s !! scoped w evidenceID = Some e /\ ev_InvestigationID e = id) as Hlisted.
  { intros evidenceID Hin. unfold evidenceIDsOf in Hin. destruct (evidenceIDsByInvestigation s !! _) as [ids|] eqn:Hids; [|set_solver].
    pose proof (wk_evidenceIDs _ _ Hk _ _ Hids) as [Hall _]. rewrite Forall_forall in Hall. by apply Hall. }
  destruct (lookupAll_Ok (evidence s) w (evidenceIDsOf w id s)) as [items Hitems].
  { intros evidenceID Hin. destruct (Hlisted _ Hin) as (e & -> & _). by eexists. }
  rewrite Hitems. eexists. split; [done|]. split; [apply lessBy_sorted|]. split.
  { apply sort_Slice_NoDup, NoDup_filter_bool. eapply (lookupAll_NoDup _ _ ev_ID); [| |exact Hitems].
    - intros evidenceID e He. by destruct (wk_evidence _ _ Hk _ _ He) as ([= _ ->] & _).
    - unfold evidenceIDsOf. destruct (evidenceIDsByInvestigation s !! _) as [ids|] eqn:Hids; [|constructor].
      apply (wk_evidenceIDs _ _ Hk _ _ Hids). }
  intros e. rewrite sort_Slice_perm, elem_of_filter_bool, (lookupAll_elem _ _ _ _ Hitems), orb_true_iff, !eqb_true. split.
  - intros [(evidenceID & Hin & He) ?]. destruct (Hlisted _ Hin) as (e' & He' & ?). split; [eauto|]. split; [congruence|done].
  - intros ([evidenceID He] & Hinv & ?). split; [|done]. exists evidenceID. split; [|done].
    destruct (wk_evidence _ _ Hk _ _ He) as ([= _ ->] & _ & _ & ids & Hids & Hin). unfold evidenceIDsOf. simpl in Hids.
    rewrite Hinv in Hids. by rewrite Hids.
Qed.

Lemma ListHypotheses_exact s w id item :
  Inv Transform s -> validResourceScope w [id] = true -> investigations s !! scoped w id = Some item ->
  answers (ListHypotheses None w id s) (fun h h' => hyp_Rank h < hyp_Rank h') (fun h =>
      (exists hypothesisID, hypotheses s !! scoped w hypothesisID = Some h) /\ hyp_InvestigationID h = id).
Proof.
  intros [Hk _ _ _] Hw Hi. unfold ListHypotheses. erewrite readListed_Ok by done.
  assert (forall hypothesisID, hypothesisID ∈ hypothesisIDsOf w id s ->
    exists h, hypotheses s !! scoped w hypothesisID = Some h /\ hyp_InvestigationID h = id) as Hlisted.
  { intros hypothesisID Hin. unfold hypothesisIDsOf in Hin.
    destruct (hypothesisIDsByInvestigation s !! _) as [ids|] eqn:Hids; [|set_solver].
    destruct (wk_hypothesisIDs _ _ Hk _ _ Hids) as (_ & Hall & _). rewrite Forall_forall in Hall. by apply Hall. }
  destruct (lookupAll_Ok (hypotheses s) w (hypothesisIDsOf w id s)) as [items Hitems].
  { intros hypothesisID Hin. destruct (Hlisted _ Hin) as (h & -> & _). by eexists. }
  assert (StronglySorted (fun h h' => hyp_Rank h < hyp_Rank h') items) as Hsorted.
  { unfold hypothesisIDsOf in Hitems. destruct (hypothesisIDsByInvestigation s !! _) as [ids|] eqn:Hids; [|by injection Hitems as <-; constructor].
    destruct (wk_hypothesisIDs _ _ Hk _ _ Hids) as (_ & _ & ranks & Hranks & Hall). by eapply lookupAll_sorted. }
  rewrite Hitems. exists items. split; [done|]. split; [done|]. split; [eapply irreflexive_NoDup; [|exact Hsorted]; simpl; lia|].
  intros h. rewrite (lookupAll_elem _ _ _ _ Hitems). split.
  - intros (hypothesisID & Hin & Hh). destruct (Hlisted _ Hin) as (h' & ? & ?). split; [eauto|congruence].
  - intros ([hypothesisID Hh] & Hinv). exists hypothesisID. split; [|done].
    destruct (wk_hypotheses _ _ Hk _ _ Hh) as ([= _ ->] & _ & _ & _ & ids & Hids & Hin). unfold hypothesisIDsOf. simpl in Hids.
    rewrite Hinv in Hids. by rewrite Hids.
Qed.

(** C34. Reading is exact.  Whatever the calls, a list of incidents, investigations, tasks,
    evidence or hypotheses holds all the resources of the workspace that belong to what was
    asked for, in the statuses asked for, each of them once, and no others: incidents by opening,
    investigations by creation, tasks by position, evidence by collection, hypotheses by rank.  No list of an investigation that
    exists is ever refused because a resource it names is missing. *)
Theorem investigation_reads_are_exact calls : lists_exactly (after Transform calls).
Proof.
  pose proof (after_Inv Transform calls).
  by constructor; intros; [apply ListIncidents_exact|apply ListInvestigations_exact|eapply ListTasks_exact|eapply ListEvidence_exact
    |eapply ListHypotheses_exact].
Qed.
End reads.
