(* ===== verification/InvestigationSafety.v ===== *)
(** * What an investigation stores is safe, and what it hashes does not depend on order

    The checks of SafeText on a JSON object as a statement about every place of the object, for
    all the JSON the investigation repository holds; and the canonical form of the tasks of a
    plan, which is the same for every order of the tasks. *)

From S2P Require Import Prelude.
From S2P Require Import Sha256.
From S2P Require Import GoText.
From S2P Require Import GoStrings.
From S2P Require Import GoJson.
From S2P Require Import GoSort.
From S2P Require Import GoDecode.
From S2P Require Import GoUnicode.
From S2P Require Import SafeText.
From S2P Require Import InvestigationDomain.
From S2P Require Import TaskSpecs.
From S2P Require Import InvestigationRequests.
From S2P Require Import InvestigationRepository.
From S2P Require Import InvestigationHistory.
From S2P Require Import InvestigationInvariant.
From S2P Require Import InvestigationEndings.
From stdpp Require Import sorting.

Open Scope Z_scope.

(** ** Places in a JSON value *)




Section safety.
Context `{Unicode} (Transform : string -> Result string).

(** ** Safe JSON *)














(** ** Tasks without targets *)








(** ** Everything that is stored *)







(** ** The order of tasks *)

Lemma canonicalTaskSpecs_Forall2 specs seen canonical :
  canonicalTaskSpecs Transform specs seen = Ok canonical <->
  Forall2 (fun spec c => canonicalTaskSpec Transform spec [] = Ok c) specs canonical /\ NoDup (List.map spec_Key specs) /\
  Forall (fun spec => spec_Key spec ∉ seen) specs.
Proof.
  revert seen canonical. induction specs as [|spec specs IH]; intros seen canonical; simpl.
  { split; [intros [= <-]; repeat constructor|]. by intros (?%Forall2_nil_inv_l & _); subst. }
  assert (forall seen c, canonicalTaskSpec Transform spec seen = Ok c <->
    canonicalTaskSpec Transform spec [] = Ok c /\ spec_Key spec ∉ seen) as Hspec.
  { intros seen' c. unfold canonicalTaskSpec. rewrite (bool_decide_true (spec_Key spec ∉ [])) by set_solver.
    destruct (ensure (taskKeyPattern _ && _ && _) _) as [[]|]; simpl; [|by split; [|intros [? _]]]. destruct (decide (spec_Key spec ∉ seen')) as [Hn|Hn].
    - rewrite bool_decide_true by done. by split; [|intros [? _]].
    - rewrite bool_decide_false by done. by split; [|intros [_ ?]]. }
  split.
  - intros. accepted. subst. apply Hspec in H0 as [? ?]. apply IH in H1 as (? & Hnd & Hf). rewrite Forall_forall in Hf.
    split; [by constructor|]. split.
    + constructor; [|done]. intros (spec' & Heq & Hin)%list_elem_of_fmap. apply (Hf _ Hin). rewrite Heq. by left.
    + constructor; [done|]. apply Forall_forall. intros spec' Hin. pose proof (Hf _ Hin). set_solver.
  - intros (Hc & Hnd & Hf). apply Forall2_cons_inv_l in Hc as (c & cs & Hc & Hcs & ->). apply NoDup_cons in Hnd as [Hnew Hnd].
    apply Forall_cons in Hf as [? Hf]. assert (canonicalTaskSpec Transform spec seen = Ok c) as -> by (by apply Hspec). simpl.
    assert (canonicalTaskSpecs Transform specs (spec_Key spec :: seen) = Ok cs) as ->; [|done].
    apply IH. split; [done|]. split; [done|]. rewrite Forall_forall in *. intros spec' Hin [Heq|?]%elem_of_cons; [|by eapply Hf].
    apply Hnew. rewrite <- Heq. by apply list_elem_of_fmap_2.
Qed.

Lemma Forall2_Permutation_l {A B} (R : A -> B -> Prop) l l' k :
  l ≡ₚ l' -> Forall2 R l k -> exists k', k ≡ₚ k' /\ Forall2 R l' k'.
Proof.
  intros Hp. revert k. induction Hp as [|a l l' _ IH|a b l|l l' l'' _ IH1 _ IH2]; intros k Hk.
  - by exists k.
  - apply Forall2_cons_inv_l in Hk as (x & k0 & Hx & Hk & ->). destruct (IH _ Hk) as (k' & ? & ?).
    exists (x :: k'). split; [by constructor|by constructor].
  - apply Forall2_cons_inv_l in Hk as (x & k0 & Hx & Hk & ->). apply Forall2_cons_inv_l in Hk as (y & k1 & Hy & Hk & ->).
    exists (y :: x :: k1). split; [constructor|by repeat constructor].
  - destruct (IH1 _ Hk) as (k' & ? & Hk'). destruct (IH2 _ Hk') as (k'' & ? & ?). exists k''. split; [by etrans|done].
Qed.

(** Comparison by several texts in turn. *)
Fixpoint lessFields {A} (fields : list (A -> string)) (left right : A) : bool :=
  match fields with
  | [] => false
  | field :: fields => if field left != field right then String.ltb (field left) (field right) else lessFields fields left right
  end.

Lemma lessFields_asym {A} (fields : list (A -> string)) a b : lessFields fields a b = true -> lessFields fields b a = false.
Proof.
  induction fields as [|field fields IH]; simpl; [done|]. intros Hab.
  destruct (field a != field b) eqn:Hd, (field b != field a) eqn:Hd'; guards; try congruence; auto using string_ltb_asym.
Qed.

Lemma lessFields_trans {A} (fields : list (A -> string)) a b c :
  lessFields fields b a = false -> lessFields fields c b = false -> lessFields fields c a = false.
Proof.
  induction fields as [|field fields IH]; simpl; [done|]. intros Hba Hcb.
  destruct (field b != field a) eqn:Eba, (field c != field b) eqn:Ecb, (field c != field a) eqn:Eca; guards; try congruence; auto.
  - rewrite string_ltb_false in *. by eapply string_compare_trans.
  - rewrite Eca in *. exfalso. apply Ecb. by apply string_ltb_antisym.
Qed.

Lemma lessFields_antisym {A} (fields : list (A -> string)) a b :
  lessFields fields a b = false -> lessFields fields b a = false -> Forall (fun field => field a = field b) fields.
Proof.
  induction fields as [|field fields IH]; simpl; [constructor|].
  destruct (field a != field b) eqn:Hd, (field b != field a) eqn:Hd'; guards; try congruence; intros.
  - destruct Hd. by apply string_ltb_antisym.
  - constructor; auto.
Qed.

Lemma taskSpecLess_fields a b : taskSpecLess a b = lessFields [spec_Key; spec_ConnectorID; spec_Operation; spec_Input] a b.
Proof.
  unfold taskSpecLess. simpl. repeat (case_match; [done|]). destruct (spec_Input a != spec_Input b) eqn:Hd; [done|]. guards.
  rewrite Hd. apply not_true_iff_false. intros Hl. pose proof (string_ltb_asym _ _ Hl). congruence.
Qed.

Lemma sort_taskSpecs_perm l l' : l ≡ₚ l' -> sort_Slice taskSpecLess l = sort_Slice taskSpecLess l'.
Proof.
  intros Hp. assert (forall l, StronglySorted (le_of taskSpecLess) (sort_Slice taskSpecLess l)) as Hs.
  { intros k. apply sort_Slice_sorted; unfold le_of; intros *; rewrite !taskSpecLess_fields; [apply lessFields_trans|apply lessFields_asym]. }
  apply (StronglySorted_unique_strong (le_of taskSpecLess)); auto; [|by rewrite !sort_Slice_perm].
  intros a b _ _. unfold le_of. rewrite !taskSpecLess_fields. intros Hba Hab.
  pose proof (lessFields_antisym _ _ _ Hab Hba) as Hall. rewrite !Forall_cons in Hall. destruct a, b. simpl in *. naive_solver.
Qed.

Lemma CanonicalTaskSpecs_perm specs specs' result :
  specs ≡ₚ specs' -> CanonicalTaskSpecs Transform specs = Ok result -> CanonicalTaskSpecs Transform specs' = Ok result.
Proof.
  intros Hp. unfold CanonicalTaskSpecs. intros. accepted. subst.
  apply canonicalTaskSpecs_Forall2 in H1 as (Hc & Hnd & _). destruct (Forall2_Permutation_l _ _ _ _ Hp Hc) as (k & Hk & Hc').
  assert (canonicalTaskSpecs Transform specs' [] = Ok k) as ->.
  { apply canonicalTaskSpecs_Forall2. split; [done|]. split; [|apply Forall_forall; set_solver].
    by rewrite <- (fmap_Permutation spec_Key _ _ Hp). }
  rewrite <- Hp, H0. simpl. by rewrite <- (sort_taskSpecs_perm _ _ Hk), H2.
Qed.
End safety.

(** C35. The canonical form of the tasks of a plan, and so its hash and the hash of the request
    that carries them, does not depend on the order in which the tasks are listed: every order
    is accepted with the same result or none is. *)
Theorem canonical_task_order_is_irrelevant `{Unicode} (Transform : string -> Result string) specs specs' :
  specs ≡ₚ specs' ->
  forall result, CanonicalTaskSpecs Transform specs = Ok result <-> CanonicalTaskSpecs Transform specs' = Ok result.
Proof. intros Hp result. split; by apply CanonicalTaskSpecs_perm. Qed.

Definition cpuSpec : TaskSpec := {| spec_Key := "cpu"; spec_ConnectorID := "metrics"; spec_Operation := "query"; spec_Input := "{}" |}.
Definition logSpec : TaskSpec := {| spec_Key := "logs"; spec_ConnectorID := "logs"; spec_Operation := "search"; spec_Input := "{}" |}.

(** Two tasks, either way round: both are accepted. *)
Lemma canonical_task_order_is_irrelevant_witness :
  [logSpec; cpuSpec] ≡ₚ [cpuSpec; logSpec] /\
  (forall result, @CanonicalTaskSpecs AsciiTables Ok [logSpec; cpuSpec] = Ok result <->
                  @CanonicalTaskSpecs AsciiTables Ok [cpuSpec; logSpec] = Ok result) /\
  match @CanonicalTaskSpecs AsciiTables Ok [logSpec; cpuSpec] with Ok (specs, _) => specs = [cpuSpec; logSpec] | Err _ => False end.
Proof.
  split; [apply Permutation_swap|]. split; [apply (@canonical_task_order_is_irrelevant AsciiTables Ok), Permutation_swap|].
  lazy. reflexivity.
Defined.
