(* ===== verification/SignalStore.v ===== *)
(** * The signal store and its outbox

    internal/store/store.go and internal/store/memory/store.go: signals are accepted from
    registered integrations, once per event of the provider, and every accepted signal and
    created incident puts an event into the outbox, from which consumers claim, acknowledge or
    put back events.  Methods hold the mutex, so each is atomic; the clock, the request
    metadata and the randomness of the identifiers are arguments. *)

From S2P Require Import Prelude.
From S2P Require Import Sha256.
From S2P Require Import GoText.
From S2P Require Import GoStrings.
From S2P Require Import GoJson.
From S2P Require Import GoRegexp.
From S2P Require Import GoUnicode.
From S2P Require Import InvestigationDomain.
From S2P Require Import StoreErrors.
From Stdlib Require Import Ascii.

Open Scope Z_scope.

(** ** Identifiers *)

Definition hexOf (b : Z) : string := String (hexDigit (Z.shiftr b 4)) (String (hexDigit (Z.land b 15)) EmptyString).

(** [ids.NewUUID]; [random] is what the sixteen bytes read are, as one number. *)
Definition NewUUID (random : Z) : string :=
  let value i := Z.land (Z.shiftr random (8 * (15 - i))) 255 in
  let version := Z.lor (Z.land (value 6) 0x0f) 0x40 in
  let variant := Z.lor (Z.land (value 8) 0x3f) 0x80 in
  hexOf (value 0) +:+ hexOf (value 1) +:+ hexOf (value 2) +:+ hexOf (value 3) +:+ "-" +:+
  hexOf (value 4) +:+ hexOf (value 5) +:+ "-" +:+ hexOf version +:+ hexOf (value 7) +:+ "-" +:+
  hexOf variant +:+ hexOf (value 9) +:+ "-" +:+ hexOf (value 10) +:+ hexOf (value 11) +:+ hexOf (value 12) +:+
  hexOf (value 13) +:+ hexOf (value 14) +:+ hexOf (value 15).

#[global] Arguments NewUUID : simpl never.

(** ** Data *)

Record Integration := { int_ID : string; int_WorkspaceID : string; int_Provider : string; int_Enabled : bool }.

Definition Integration_Validate (integration : Integration) : Result unit :=
  ensure ((int_ID integration != "") && (int_WorkspaceID integration != "") && (int_Provider integration != ""))
    (errors_New "integration id, workspace id and provider are required").

Record OutboxEvent := {
  ob_ID : string; ob_TenantID : string; ob_WorkspaceID : string; ob_AggregateType : string; ob_AggregateID : string;
  ob_AggregateVersion : Z; ob_Type : string; ob_Payload : string; ob_CreatedAt : Time; ob_AvailableAt : Time;
  ob_ClaimedAt : Time; ob_ClaimedBy : string; ob_ClaimToken : string; ob_ClaimExpiresAt : Time;
  ob_DeliveredAt : Time; ob_DeliveredClaimToken : string; ob_Attempts : Z; ob_LastErrorCode : string
}.

Record SecurityConflict := {
  sc_WorkspaceID : string; sc_Provider : string; sc_IntegrationID : string; sc_ProviderEventID : string;
  sc_ExistingSignalID : string; sc_ExistingHash : string; sc_IncomingHash : string; sc_RequestID : string;
  sc_TraceID : string; sc_DetectedAt : Time
}.

(** [requestmeta.Metadata] *)
Record Metadata := { meta_RequestID : string; meta_TraceID : string }.

Record Store := {
  store_signals : gmap string Signal;
  store_integrations : gmap string Integration;
  store_incidents : gmap string Incident;
  store_outbox : list OutboxEvent;
  store_securityConflicts : list SecurityConflict
}.

Definition Store_empty : Store := {|
  store_signals := ∅; store_integrations := ∅; store_incidents := ∅; store_outbox := []; store_securityConflicts := []
|}.

(** ** Requests *)

Definition MaxOutboxEventTypeBytes : Z := 128.
Definition MaxOutboxConsumerBytes : Z := 128.
Definition MaxOutboxClaimLimit : Z := 100.
Definition MinOutboxClaimLease : Duration := Second.
Definition MaxOutboxClaimLease : Duration := 15 * Minute.

Definition failureCodePattern (s : string) : bool :=
  head_tail (fun c => is_lower c || is_digit c) (fun c => is_lower c || is_digit c || one_of_chars "_.-" c) s && (len s <=? 128).

Definition outboxEventTypePattern : Regexp :=
  let word := Plus (Class_ (fun r => lower_rune r || digit_rune r)) in
  Seq TextBegin (Seq word (Seq (Star (Seq (Class_ (rune_in "._-")) word))
    (Seq (Class_ (rune_is 46)) (Seq (Class_ (rune_is 118)) (Seq (Class_ (byte_in 49 57))
      (Seq (Star (Class_ digit_rune)) TextEnd)))))).

Definition outboxConsumerPattern (s : string) : bool := head_tail is_alnum is_ident_char s.

Definition ValidOutboxEventType (value : string) : bool :=
  (len value <=? MaxOutboxEventTypeBytes) && MatchString outboxEventTypePattern value.

Definition store_ValidFailureCode (value : string) : bool := failureCodePattern value.

Record ClaimOutboxRequest := { cor_EventType : string; cor_ConsumerID : string; cor_Limit : Z; cor_Lease : Duration }.

Definition ClaimOutboxRequest_Validate (request : ClaimOutboxRequest) : Result unit :=
  ensure (ValidOutboxEventType (cor_EventType request) && (len (cor_ConsumerID request) <=? MaxOutboxConsumerBytes) &&
          outboxConsumerPattern (cor_ConsumerID request) && (1 <=? cor_Limit request) && (cor_Limit request <=? MaxOutboxClaimLimit) &&
          (MinOutboxClaimLease <=? cor_Lease request) && (cor_Lease request <=? MaxOutboxClaimLease))
    ErrInvalidOutboxClaim.

(** ** Producers *)

Definition RegisterIntegration (integration : Integration) : M Store unit :=
  lift (Integration_Validate integration);;
  s ← get;
  match store_integrations s !! int_ID integration with
  | Some _ => throw (errors_New "integration already exists")
  | None => modify (fun s => {| s with store_integrations := <[int_ID integration := integration]> (store_integrations s) |})
  end.

(** An event that nobody has claimed. *)
Definition newOutboxEvent (id tenantID workspaceID aggregateType aggregateID : string) (aggregateVersion : Z)
    (eventType payload : string) (now : Time) : OutboxEvent := {|
  ob_ID := id; ob_TenantID := tenantID; ob_WorkspaceID := workspaceID; ob_AggregateType := aggregateType;
  ob_AggregateID := aggregateID; ob_AggregateVersion := aggregateVersion; ob_Type := eventType; ob_Payload := payload;
  ob_CreatedAt := now; ob_AvailableAt := now; ob_ClaimedAt := Time_zero; ob_ClaimedBy := ""; ob_ClaimToken := "";
  ob_ClaimExpiresAt := Time_zero; ob_DeliveredAt := Time_zero; ob_DeliveredClaimToken := ""; ob_Attempts := 0;
  ob_LastErrorCode := ""
|}.

Definition signalPayload (signalID : string) : string := Marshal (JObject [("signal_id", JString signalID)]).
Definition incidentPayload (incidentID : string) : string := Marshal (JObject [("incident_id", JString incidentID)]).

Definition signalEvent (signal : Signal) (id : string) (now : Time) : OutboxEvent :=
  newOutboxEvent id (sig_WorkspaceID signal) (sig_WorkspaceID signal) "SIGNAL" (sig_ID signal) 1 "signal.ingested.v1"
    (signalPayload (sig_ID signal)) now.

Definition incidentEvent (incident : Incident) (id : string) (now : Time) : OutboxEvent :=
  newOutboxEvent id (inc_TenantID incident) (inc_WorkspaceID incident) "INCIDENT" (inc_ID incident) (inc_Version incident)
    "incident.created.v1" (incidentPayload (inc_ID incident)) now.

Definition signalKey (signal : Signal) : string :=
  sig_IntegrationID signal +:+ String (ascii_of_Z 0) (sig_ProviderEventID signal).

Definition securityConflict (existing signal : Signal) (metadata : Metadata) (random : Z) (now : Time) : SecurityConflict := {|
  sc_WorkspaceID := sig_WorkspaceID existing; sc_Provider := sig_Provider existing; sc_IntegrationID := sig_IntegrationID signal;
  sc_ProviderEventID := sig_ProviderEventID signal; sc_ExistingSignalID := sig_ID existing;
  sc_ExistingHash := sig_PayloadHash existing; sc_IncomingHash := sig_PayloadHash signal;
  sc_RequestID := if meta_RequestID metadata == "" then NewUUID random else meta_RequestID metadata;
  sc_TraceID := meta_TraceID metadata; sc_DetectedAt := now
|}.

Section methods.
Context `{Unicode}.

Definition CreateSignal (metadata : Metadata) (signal : Signal) (now : Time) (random : Z) : M Store bool :=
  lift (Signal_Validate signal);;
  s ← get;
  integration ← require_some (store_integrations s !! sig_IntegrationID signal) ErrNotFound;
  require (int_Enabled integration) ErrNotFound;;
  require ((int_WorkspaceID integration == sig_WorkspaceID signal) && (int_Provider integration == sig_Provider signal)) ErrScopeViolation;;
  match store_signals s !! signalKey signal with
  | Some existing =>
      if sig_PayloadHash existing != sig_PayloadHash signal then
        modify (fun s => {| s with store_securityConflicts :=
          store_securityConflicts s ++ [securityConflict existing signal metadata random now] |});;
        throw ErrIdempotencyConflict
      else mret false
  | None =>
      modify (fun s => {| s with
        store_signals := <[signalKey signal := signal]> (store_signals s);
        store_outbox := store_outbox s ++ [signalEvent signal (NewUUID random) now] |});;
      mret true
  end.

Definition CreateIncident (incident : Incident) (now : Time) (random : Z) : M Store unit :=
  lift (Incident_ValidateForCreate incident);;
  s ← get;
  match store_incidents s !! inc_ID incident with
  | Some _ => throw (errors_New "incident already exists")
  | None =>
      modify (fun s => {| s with
        store_incidents := <[inc_ID incident := incident]> (store_incidents s);
        store_outbox := store_outbox s ++ [incidentEvent incident (NewUUID random) now] |})
  end.
End methods.

(** ** Consumers *)

Definition claimable (eventType : string) (now : Time) (event : OutboxEvent) : bool :=
  (ob_Type event == eventType) && IsZero (ob_DeliveredAt event) && negb (After (ob_AvailableAt event) now) &&
  negb ((ob_ClaimToken event != "") && After (ob_ClaimExpiresAt event) now).

Definition claimedEvent (request : ClaimOutboxRequest) (token : string) (now : Time) (event : OutboxEvent) : OutboxEvent :=
  {| event with ob_ClaimedAt := now; ob_ClaimedBy := cor_ConsumerID request; ob_ClaimToken := token;
                ob_ClaimExpiresAt := Add now (cor_Lease request); ob_Attempts := ob_Attempts event + 1 |}.

(** The loop over the outbox: the events as they are left, and those that were claimed.  Up to
    [limit] more are claimed, the next with the token made from [random n].  The type of a
    claimed copy, which the source compares once more, is that of the event. *)
Fixpoint claimEvents (request : ClaimOutboxRequest) (now : Time) (random : nat -> Z) (n limit : nat) (events : list OutboxEvent)
    : list OutboxEvent * list OutboxEvent :=
  match limit, events with
  | O, _ | _, [] => (events, [])
  | S limit', event :: events =>
      if claimable (cor_EventType request) now event then
        let event := claimedEvent request (NewUUID (random n)) now event in
        let '(events, claimed) := claimEvents request now random (S n) limit' events in
        (event :: events, event :: claimed)
      else
        let '(events, claimed) := claimEvents request now random n limit events in (event :: events, claimed)
  end.

Definition ClaimOutbox (request : ClaimOutboxRequest) (now : Time) (random : nat -> Z) : M Store (list OutboxEvent) :=
  lift (ClaimOutboxRequest_Validate request);;
  s ← get;
  let '(events, claimed) := claimEvents request now random 0 (Z.to_nat (cor_Limit request)) (store_outbox s) in
  modify (fun s => {| s with store_outbox := events |});;
  mret claimed.

(** The first event with an ID, changed. *)
Fixpoint onEvent (id : string) (change : OutboxEvent -> Result OutboxEvent) (events : list OutboxEvent) : Result (list OutboxEvent) :=
  match events with
  | [] => Err ErrStaleClaim
  | event :: events =>
      if ob_ID event != id then rest ← onEvent id change events; Ok (event :: rest)
      else event ← change event; Ok (event :: events)
  end.

Definition holdsClaim (claimToken : string) (now : Time) (event : OutboxEvent) : bool :=
  (ob_ClaimToken event != "") && (ob_ClaimToken event == claimToken) && After (ob_ClaimExpiresAt event) now.

Definition unclaimed (event : OutboxEvent) : OutboxEvent :=
  {| event with ob_ClaimedAt := Time_zero; ob_ClaimedBy := ""; ob_ClaimToken := ""; ob_ClaimExpiresAt := Time_zero |}.

Definition acknowledged (eventType claimToken : string) (now : Time) (event : OutboxEvent) : Result OutboxEvent :=
  ensure (ob_Type event == eventType) ErrStaleClaim;;
  if negb (IsZero (ob_DeliveredAt event)) then
    ensure (ob_DeliveredClaimToken event == claimToken) ErrStaleClaim;; Ok event
  else
    ensure (holdsClaim claimToken now event) ErrStaleClaim;;
    let event := unclaimed event in
    Ok {| event with ob_DeliveredAt := now; ob_DeliveredClaimToken := claimToken |}.

Definition AckOutbox (id eventType claimToken : string) (now : Time) : M Store unit :=
  require (ValidOutboxEventType eventType) ErrInvalidOutboxClaim;;
  s ← get;
  events ← lift (onEvent id (acknowledged eventType claimToken now) (store_outbox s));
  modify (fun s => {| s with store_outbox := events |}).

Definition rescheduled (eventType claimToken failureCode : string) (availableAt now : Time) (event : OutboxEvent) : Result OutboxEvent :=
  ensure (ob_Type event == eventType) ErrStaleClaim;;
  ensure (holdsClaim claimToken now event && IsZero (ob_DeliveredAt event)) ErrStaleClaim;;
  let event := unclaimed event in
  Ok {| event with ob_AvailableAt := availableAt; ob_LastErrorCode := failureCode |}.

Definition RetryOutbox (id eventType claimToken : string) (availableAt : Time) (failureCode : string) (now : Time) : M Store unit :=
  require (ValidOutboxEventType eventType && negb (IsZero availableAt)) (errors_New "outbox retry availability is required");;
  require (store_ValidFailureCode failureCode) (errors_New "outbox retry failure code is invalid");;
  s ← get;
  events ← lift (onEvent id (rescheduled eventType claimToken failureCode availableAt now) (store_outbox s));
  modify (fun s => {| s with store_outbox := events |}).

(** ** Examples *)

Example event_types :
  List.map ValidOutboxEventType ["signal.ingested.v1"; "incident.created.v10"; "signal..v1"; "signal.v0"; "v1"; "a.v1 "; "Signal.v1"]%string
  = [true; true; false; false; false; false; false].
Proof. vm_compute. reflexivity. Qed.

Example uuid : NewUUID 0 = "00000000-0000-4000-8000-000000000000"%string /\
  NewUUID (2 ^ 128 - 1) = "ffffffff-ffff-4fff-bfff-ffffffffffff"%string.
Proof. split; reflexivity. Qed.
