(* ===== verification/SignalDispatcher.v ===== *)
(** * The dispatcher of the signal outbox

    internal/outbox/dispatcher.go: a round claims a batch of signal events, starts a workflow
    for each, and acknowledges the event when the workflow was started or already existed, or
    puts it back with a growing delay.  The store behind it is the in-memory store; between any
    two of its calls others may use the store ([others]); the starter, the clocks and the
    randomness are arguments. *)

From S2P Require Import Prelude.
From S2P Require Import GoText.
From S2P Require Import GoDecode.
From S2P Require Import GoUnicode.
From S2P Require Import InvestigationDomain.
From S2P Require Import StoreErrors.
From S2P Require Import SignalStore.

Open Scope Z_scope.

Definition signalIngestedEventType : string := "signal.ingested.v1".
Definition ErrInvalidSignalOutboxEvent := errors_New "invalid signal outbox event".

Inductive StartOutcome := StartOutcomeStarted | StartOutcomeAlreadyExists | StartOutcomeOther (text : string).

#[export] Instance StartOutcome_eq_dec : EqDecision StartOutcome.
Proof. solve_decision. Defined.

(** What [Start] answers: an outcome, or an error with the code of the [FailureCode] method of
    the first error in its chain that has one. *)
Inductive StartAnswer := StartAnswered (outcome : StartOutcome) | StartFailed (code : option string).

#[export] Instance StartAnswer_eq_dec : EqDecision StartAnswer.
Proof. solve_decision. Defined.

Record SignalWorkflowStart := {
  sws_Version : Z; sws_WorkflowID : string; sws_OutboxEventID : string; sws_TenantID : string; sws_WorkspaceID : string;
  sws_SignalID : string; sws_AggregateVersion : Z
}.

#[export] Instance SignalWorkflowStart_eq_dec : EqDecision SignalWorkflowStart.
Proof. solve_decision. Defined.

Record Options := {
  opt_ConsumerID : string; opt_BatchSize : Z; opt_Lease : Duration; opt_BaseBackoff : Duration; opt_MaxBackoff : Duration
}.

Record DispatchResult := { dr_Claimed : Z; dr_Started : Z; dr_AlreadyExists : Z; dr_Retried : Z }.

Definition DispatchResult_zero : DispatchResult := {| dr_Claimed := 0; dr_Started := 0; dr_AlreadyExists := 0; dr_Retried := 0 |}.

Definition claimRequestOf (options : Options) : ClaimOutboxRequest := {|
  cor_EventType := signalIngestedEventType; cor_ConsumerID := opt_ConsumerID options; cor_Limit := opt_BatchSize options;
  cor_Lease := opt_Lease options
|}.

Definition NewSignalDispatcher (options : Options) : Result Options :=
  match ClaimOutboxRequest_Validate (claimRequestOf options) with
  | Err _ => Err (errors_New "invalid signal outbox dispatcher claim options")
  | Ok _ =>
      ensure ((0 <? opt_BaseBackoff options) && (opt_BaseBackoff options <=? opt_MaxBackoff options))
        (errors_New "invalid signal outbox dispatcher backoff options");;
      Ok options
  end.

(** ** The delay *)

(** The loop from [current] on; [rounds] bounds its iterations, of which there are at most
    [attempt - current]. *)
Fixpoint backoff_loop (rounds : nat) (maximum delay : Duration) (current attempt : Z) : Duration :=
  match rounds with
  | O => delay
  | S rounds =>
      if (current <? attempt) && (delay <? maximum) then
        if maximum / 2 <? delay then maximum else backoff_loop rounds maximum (delay * 2) (current + 1) attempt
      else delay
  end.

Definition backoff (options : Options) (attempt : Z) : Duration :=
  let delay := backoff_loop (Z.to_nat attempt) (opt_MaxBackoff options) (opt_BaseBackoff options) 1 attempt in
  if opt_MaxBackoff options <? delay then opt_MaxBackoff options else delay.

(** ** The start of a workflow *)

(** The tokens of the payload are those of an object with the one member [signal_id]. *)
Definition decodeExactSignalPayload (payload : string) : Result string :=
  match parseJson payload with
  | Some (VObject [(name, VString signalID)]) =>
      ensure ((name == "signal_id") && (signalID != "")) ErrInvalidSignalOutboxEvent;; Ok signalID
  | _ => Err ErrInvalidSignalOutboxEvent
  end.

Definition newSignalWorkflowStart (event : OutboxEvent) : Result SignalWorkflowStart :=
  ensure ((ob_Type event == signalIngestedEventType) && (ob_AggregateType event == "SIGNAL") && (ob_AggregateVersion event =? 1) &&
          uuidPattern (ob_ID event) && uuidPattern (ob_TenantID event) && uuidPattern (ob_WorkspaceID event) &&
          uuidPattern (ob_AggregateID event)) ErrInvalidSignalOutboxEvent;;
  match decodeExactSignalPayload (ob_Payload event) with
  | Err _ => Err ErrInvalidSignalOutboxEvent
  | Ok signalID =>
      ensure ((signalID == ob_AggregateID event) && uuidPattern signalID) ErrInvalidSignalOutboxEvent;;
      Ok {| sws_Version := 1; sws_WorkflowID := ob_ID event; sws_OutboxEventID := ob_ID event; sws_TenantID := ob_TenantID event;
            sws_WorkspaceID := ob_WorkspaceID event; sws_SignalID := signalID; sws_AggregateVersion := ob_AggregateVersion event |}
  end.

(** ** Errors of the starter *)

(** [NewDispatchError]: the code the error carries. *)
Definition NewDispatchError (code : string) : string := if store_ValidFailureCode code then code else "workflow_start_failed".

Definition failureCodeOf (code : option string) : string :=
  match code with
  | Some candidate => if store_ValidFailureCode candidate then candidate else "workflow_start_failed"
  | None => "workflow_start_failed"
  end.

(** ** A round *)

(** The store, and the workflows that were asked for with the answers. *)
Record World := { w_store : Store; w_starts : list (SignalWorkflowStart * StartAnswer) }.

(** What a round is given by its surroundings, by the number of the event in the batch: the
    answer of the starter, the clocks of the store and of the dispatcher, and what others do
    before the starter is called and before the store is. *)
Record Surroundings := {
  su_starter : nat -> SignalWorkflowStart -> StartAnswer;
  su_storeClock : nat -> Time;
  su_clock : nat -> Time;
  su_beforeStart : nat -> World -> World;
  su_beforeStore : nat -> World -> World
}.

Section round.
Context (options : Options) (around : Surroundings).

(** A call to the store. *)
Definition onStore {A} (m : M Store A) (w : World) : Result A * World :=
  let '(r, s) := m (w_store w) in (r, {| w with w_store := s |}).

(** [fmt.Errorf] with %w around the error of a call. *)
Definition wrapping {A} (context : string) (m : M Store A) : M Store A := fun s =>
  match m s with
  | (Err e, s) => (Err (Errorf context e), s)
  | (Ok a, s) => (Ok a, s)
  end.

Definition retry (n : nat) (event : OutboxEvent) (failureCode : string) : M Store unit :=
  let retryAt := Add (su_clock around n) (backoff options (ob_Attempts event)) in
  wrapping "schedule signal outbox retry"
    (RetryOutbox (ob_ID event) signalIngestedEventType (ob_ClaimToken event) retryAt failureCode (su_storeClock around n)).

(** What is done about an answer of the starter: the call to the store, and the count if it
    succeeds. *)
Definition settle (n : nat) (event : OutboxEvent) (answer : StartAnswer) : M Store unit * (DispatchResult -> DispatchResult) :=
  let retried result := {| result with dr_Retried := dr_Retried result + 1 |} in
  let ack := wrapping "acknowledge signal outbox event"
    (AckOutbox (ob_ID event) signalIngestedEventType (ob_ClaimToken event) (su_storeClock around n)) in
  match answer with
  | StartFailed code => (retry n event (failureCodeOf code), retried)
  | StartAnswered StartOutcomeStarted => (ack, fun result => {| result with dr_Started := dr_Started result + 1 |})
  | StartAnswered StartOutcomeAlreadyExists => (ack, fun result => {| result with dr_AlreadyExists := dr_AlreadyExists result + 1 |})
  | StartAnswered (StartOutcomeOther _) => (retry n event "workflow_start_outcome_invalid", retried)
  end.

(** The loop over the claimed events; an event that is not well formed is left to its lease. *)
Fixpoint dispatchEvents (n : nat) (events : list OutboxEvent) (result : DispatchResult) (poison : option GoError) (w : World)
    : DispatchResult * option GoError * World :=
  match events with
  | [] => (result, poison, w)
  | event :: events =>
      match newSignalWorkflowStart event with
      | Err _ => dispatchEvents (S n) events result (Some ErrInvalidSignalOutboxEvent) w
      | Ok start =>
          let w := su_beforeStart around n w in
          let answer := su_starter around n start in
          let w := {| w with w_starts := w_starts w ++ [(start, answer)] |} in
          let w := su_beforeStore around n w in
          let '(call, count) := settle n event answer in
          match onStore call w with
          | (Err e, w) => (result, Some e, w)
          | (Ok _, w) => dispatchEvents (S n) events (count result) poison w
          end
      end
  end.

Definition RunOnce (now : Time) (random : nat -> Z) (w : World) : DispatchResult * option GoError * World :=
  match onStore (wrapping "claim signal outbox batch" (ClaimOutbox (claimRequestOf options) now random)) w with
  | (Err e, w) => (DispatchResult_zero, Some e, w)
  | (Ok events, w) =>
      dispatchEvents 0 events {| dr_Claimed := Z.of_nat (length events); dr_Started := 0; dr_AlreadyExists := 0; dr_Retried := 0 |}
        None w
  end.
End round.
