(* ===== verification/OutboxFacts.v ===== *)
(** * Facts about the signal store and its outbox

    How each call changes the events of the outbox, seen as phases of an abstract event: waiting,
    held under a claim, delivered. *)

From S2P Require Import Prelude.
From S2P Require Import Sha256.
From S2P Require Import GoText.
From S2P Require Import GoUnicode.
From S2P Require Import InvestigationDomain.
From S2P Require Import StoreErrors.
From S2P Require Import SignalStore.
From Stdlib Require Import Ascii.

Open Scope Z_scope.

(** ** Identifiers *)

Lemma hex_high b : 0 <= b < 256 -> is_lower_hex (hexDigit (Z.shiftr b 4)) = true.
Proof.
  intros Hb. apply hexDigit_lower_hex. rewrite Z.shiftr_div_pow2 by lia. change (2 ^ 4) with 16.
  split; [apply Z.div_pos; lia|apply Z.div_lt_upper_bound; lia].
Qed.

Lemma hex_low b : is_lower_hex (hexDigit (Z.land b 15)) = true.
Proof. apply hexDigit_lower_hex. change 15 with (Z.ones 4). rewrite Z.land_ones by lia. apply Z.mod_pos_bound. lia. Qed.

Lemma masked_byte n : 0 <= Z.land n 255 < 256.
Proof. change 255 with (Z.ones 8). rewrite Z.land_ones by lia. apply Z.mod_pos_bound. lia. Qed.

Lemma version_nibble n : Z.shiftr (Z.lor (Z.land n 15) 64) 4 = 4.
Proof.
  rewrite Z.shiftr_lor. assert (Z.shiftr (Z.land n 15) 4 = 0) as ->; [|done].
  rewrite Z.shiftr_land. change (Z.shiftr 15 4) with 0. apply Z.land_0_r.
Qed.

Lemma variant_nibble n : one_of_chars "89ab" (hexDigit (Z.shiftr (Z.lor (Z.land n 63) 128) 4)) = true.
Proof.
  rewrite Z.shiftr_lor, Z.shiftr_land. change (Z.shiftr 63 4) with (Z.ones 2). change (Z.shiftr 128 4) with 8.
  rewrite Z.land_ones by lia. pose proof (Z.mod_pos_bound (Z.shiftr n 4) (2 ^ 2) eq_refl) as Hr. change (2 ^ 2) with 4 in *.
  set (r := Z.shiftr n 4 mod 4) in *. clearbody r.
  assert (r = 0 \/ r = 1 \/ r = 2 \/ r = 3) as [-> |[-> |[-> | ->]]] by lia; done.
Qed.

Lemma matches_hex p q ps b s :
  matches_classes (p :: q :: ps) (hexOf b +:+ s) =
  p (hexDigit (Z.shiftr b 4)) && (q (hexDigit (Z.land b 15)) && matches_classes ps s).
Proof. reflexivity. Qed.

Lemma matches_last p q b :
  matches_classes [p; q] (hexOf b) = p (hexDigit (Z.shiftr b 4)) && (q (hexDigit (Z.land b 15)) && true).
Proof. reflexivity. Qed.

Lemma matches_dash p ps s : matches_classes (p :: ps) ("-" +:+ s) = p "-"%char && matches_classes ps s.
Proof. reflexivity. Qed.

(** What [NewUUID] makes is a UUID, whatever the random bytes. *)
Lemma NewUUID_pattern random : uuidPattern (NewUUID random) = true.
Proof.
  unfold NewUUID, uuidPattern.
  cbn [List.repeat List.app]. rewrite !matches_hex, !matches_dash, !matches_hex, !matches_dash, !matches_hex, !matches_dash.
  rewrite !matches_hex, !matches_dash, !matches_hex, matches_last, version_nibble, variant_nibble.
  rewrite ?hex_low, !hex_high by apply masked_byte. done.
Qed.

Lemma NewUUID_nonempty random : NewUUID random <> ""%string.
Proof. intros He. pose proof (NewUUID_pattern random) as Hp. by rewrite He in Hp. Qed.

(** ** Phases of an event *)

Inductive Phase := Waiting | Held (token : string) (until : Time) | Delivered (token : string).

Definition phaseOf (event : OutboxEvent) : Phase :=
  if negb (IsZero (ob_DeliveredAt event)) then Delivered (ob_DeliveredClaimToken event)
  else if ob_ClaimToken event == "" then Waiting
  else Held (ob_ClaimToken event) (ob_ClaimExpiresAt event).

(** What an event is about, which never changes. *)
Definition event_facts (event : OutboxEvent) :=
  (ob_ID event, ob_TenantID event, ob_WorkspaceID event, ob_AggregateType event, ob_AggregateID event, ob_AggregateVersion event,
   ob_Type event, ob_Payload event, ob_CreatedAt event).

(** ** Calls *)

Inductive StoreCall :=
| CallRegisterIntegration (integration : Integration)
| CallCreateSignal (metadata : Metadata) (signal : Signal) (now : Time) (random : Z)
| CallCreateIncident (incident : Incident) (now : Time) (random : Z)
| CallClaimOutbox (request : ClaimOutboxRequest) (now : Time) (random : nat -> Z)
| CallAckOutbox (id eventType claimToken : string) (now : Time)
| CallRetryOutbox (id eventType claimToken : string) (availableAt : Time) (failureCode : string) (now : Time).

(** The phases a call may take an event with some ID through: a claim takes one that waits or
    whose claim has lapsed; only the holder of a live claim delivers it or gives it back.  An
    acknowledgement at the zero instant leaves no mark. *)
Inductive phase_step : StoreCall -> string -> Phase -> Phase -> Prop :=
| phase_stays call id phase : phase_step call id phase phase
| phase_taken request now random n id phase :
    (phase = Waiting \/ exists token until, phase = Held token until /\ until <= now) ->
    phase_step (CallClaimOutbox request now random) id phase (Held (NewUUID (random n)) (now + cor_Lease request))
| phase_delivered id eventType token now until :
    now < until -> now <> 0 -> phase_step (CallAckOutbox id eventType token now) id (Held token until) (Delivered token)
| phase_unmarked id eventType token until :
    0 < until -> phase_step (CallAckOutbox id eventType token 0) id (Held token until) Waiting
| phase_returned id eventType token availableAt failureCode now until :
    now < until -> phase_step (CallRetryOutbox id eventType token availableAt failureCode now) id (Held token until) Waiting.

(** One event before and after a call. *)
Record event_moves (call : StoreCall) (event event' : OutboxEvent) : Prop := {
  em_facts : event_facts event' = event_facts event;
  em_phase : phase_step call (ob_ID event) (phaseOf event) (phaseOf event');
  em_attempts : ob_Attempts event <= ob_Attempts event'
}.

#[export] Instance event_moves_reflexive call : Reflexive (event_moves call).
Proof. intros event. constructor; [done|constructor|lia]. Qed.

(** ** The loop of an acknowledgement and a retry *)

Lemma onEvent_Ok id change events events' :
  onEvent id change events = Ok events' ->
  exists before event event' behind, events = before ++ event :: behind /\ events' = before ++ event' :: behind /\
    ob_ID event = id /\ change event = Ok event'.
Proof.
  revert events'. induction events as [|event events IH]; intros events' Ho; simpl in Ho; [done|].
  destruct (ob_ID event != id) eqn:Hid.
  - destruct (onEvent id change events) as [rest|] eqn:Hr; [|done]. simplify_eq/=.
    destruct (IH rest eq_refl) as (before & e & e' & behind & -> & -> & ? & ?). exists (event :: before), e, e', behind. auto.
  - destruct (change event) as [event'|] eqn:Hc; [|done]. simplify_eq/=. guards. exists [], event, event', events. auto.
Qed.

(** What a call does to one event: nothing, or what the call is for. *)
Definition event_changes (call : StoreCall) (event event' : OutboxEvent) : Prop :=
  event' = event \/
  match call with
  | CallClaimOutbox request now random =>
      claimable (cor_EventType request) now event = true /\ exists n, event' = claimedEvent request (NewUUID (random n)) now event
  | CallAckOutbox id eventType claimToken now => ob_ID event = id /\ acknowledged eventType claimToken now event = Ok event'
  | CallRetryOutbox id eventType claimToken availableAt failureCode now =>
      ob_ID event = id /\ rescheduled eventType claimToken failureCode availableAt now event = Ok event'
  | _ => False
  end.

#[export] Instance event_changes_reflexive call : Reflexive (event_changes call).
Proof. intros event. by left. Qed.

Lemma Forall2_same {A} (R : relation A) `{!Reflexive R} (l : list A) : Forall2 R l l.
Proof. by apply Forall_Forall2_diag, Forall_true. Qed.

Lemma onEvent_changes call id change events events' :
  (forall event event', ob_ID event = id -> change event = Ok event' -> event_changes call event event') ->
  onEvent id change events = Ok events' -> Forall2 (event_changes call) events events'.
Proof.
  intros Hc (before & event & event' & behind & -> & -> & Hid & Hch)%onEvent_Ok.
  apply Forall2_app; [apply Forall2_same; apply _|]. constructor; [by apply Hc|apply Forall2_same; apply _].
Qed.

Lemma holdsClaim_phase token now event :
  holdsClaim token now event = true -> IsZero (ob_DeliveredAt event) = true ->
  phaseOf event = Held token (ob_ClaimExpiresAt event) /\ now < ob_ClaimExpiresAt event.
Proof.
  unfold holdsClaim, phaseOf, After. intros Hh ->. simpl. guards. rewrite (proj2 (eqb_false _ _) H). split; [congruence|lia].
Qed.

Lemma acknowledged_moves eventType token now event event' :
  acknowledged eventType token now event = Ok event' -> event_moves (CallAckOutbox (ob_ID event) eventType token now) event event'.
Proof.
  unfold acknowledged. intros. accepted. destruct (IsZero (ob_DeliveredAt event)) eqn:Hd; simpl in *; accepted; subst; [|done].
  match goal with Hh : holdsClaim _ _ _ = true |- _ => destruct (holdsClaim_phase _ _ _ Hh Hd) as [Hp Hlt] end.
  constructor; [done| |simpl; lia].
  rewrite Hp. unfold phaseOf. simpl. destruct (IsZero now) eqn:Hz; unfold IsZero in Hz; guards; [subst|]; by constructor.
Qed.

Lemma rescheduled_moves eventType token failureCode availableAt now event event' :
  rescheduled eventType token failureCode availableAt now event = Ok event' ->
  event_moves (CallRetryOutbox (ob_ID event) eventType token availableAt failureCode now) event event'.
Proof.
  unfold rescheduled. intros. accepted. match goal with Hb : _ && _ = true |- _ => apply andb_true_iff in Hb as [Hh Hd] end. subst.
  destruct (holdsClaim_phase _ _ _ Hh Hd) as [Hp Hlt]. constructor; [done| |simpl; lia].
  rewrite Hp. unfold phaseOf. simpl. rewrite Hd. by constructor.
Qed.

(** ** The loop of a claim *)

Lemma claimable_phase eventType now event :
  claimable eventType now event = true ->
  phaseOf event = Waiting \/ exists token until, phaseOf event = Held token until /\ until <= now.
Proof.
  unfold claimable, phaseOf, After. rewrite !andb_true_iff. intros [[[_ ->] _] Hfree]. simpl.
  destruct (ob_ClaimToken event == "") eqn:Ht; [by left|]. right. do 2 eexists. split; [done|]. simpl in Hfree. guards. lia.
Qed.

Lemma claimedEvent_moves request now random n event :
  claimable (cor_EventType request) now event = true ->
  event_moves (CallClaimOutbox request now random) event (claimedEvent request (NewUUID (random n)) now event).
Proof.
  intros Hc. constructor; [done| |simpl; lia].
  assert (phaseOf (claimedEvent request (NewUUID (random n)) now event) = Held (NewUUID (random n)) (now + cor_Lease request)) as ->.
  { unfold phaseOf. simpl. unfold claimable in Hc. rewrite !andb_true_iff in Hc. destruct Hc as [[[_ ->] _] _]. done. }
  constructor. by eapply claimable_phase.
Qed.

Lemma claimEvents_changes request now random n limit events events' claimed :
  claimEvents request now random n limit events = (events', claimed) ->
  Forall2 (event_changes (CallClaimOutbox request now random)) events events'.
Proof.
  revert n limit events' claimed. induction events as [|event events IH]; intros n limit events' claimed Hc.
  { destruct limit; simplify_eq/=; constructor. }
  destruct limit as [|limit]; simpl in Hc; [simplify_eq; apply Forall2_same; apply _|].
  destruct (claimable _ _ _) eqn:Hcl.
  - destruct (claimEvents request now random (S n) limit events) as [rest taken] eqn:Hr. simplify_eq.
    constructor; [|by eapply IH]. right. split; [done|]. by exists n.
  - destruct (claimEvents request now random n (S limit) events) as [rest taken] eqn:Hr. simplify_eq. constructor; [done|by eapply IH].
Qed.

Lemma event_changes_moves call event event' : event_changes call event event' -> event_moves call event event'.
Proof.
  intros [->|Hc]; [done|]. destruct call; try done.
  - destruct Hc as [? [n ->]]. by apply claimedEvent_moves.
  - destruct Hc as [<- ?]. by apply acknowledged_moves.
  - destruct Hc as [<- ?]. by apply rescheduled_moves.
Qed.

(** The events that are claimed are the first that can be. *)
Lemma claimEvents_claimed request now random n limit events :
  (claimEvents request now random n limit events).2 =
  imap (fun i => claimedEvent request (NewUUID (random (n + i)%nat)) now)
    (take limit (List.filter (claimable (cor_EventType request) now) events)).
Proof.
  revert n limit. induction events as [|event events IH]; intros n limit; [by destruct limit|].
  destruct limit as [|limit]; [done|]. cbn [claimEvents List.filter]. destruct (claimable _ _ _) eqn:Hcl.
  - pose proof (IH (S n) limit) as IH'. destruct (claimEvents request now random (S n) limit events) as [rest taken].
    simpl in *. subst. f_equal; [by rewrite Nat.add_0_r|]. apply imap_ext. intros i e _. simpl. by rewrite Nat.add_succ_r.
  - pose proof (IH n (S limit)) as IH'. by destruct (claimEvents request now random n (S limit) events) as [rest taken].
Qed.

(** A claimed event is in the outbox as it was claimed. *)
Lemma claimEvents_stored request now random n limit events :
  (claimEvents request now random n limit events).2 ⊆ (claimEvents request now random n limit events).1.
Proof.
  revert n limit. induction events as [|event events IH]; intros n limit; [by destruct limit|].
  destruct limit as [|limit]; [simpl; set_solver|]. cbn [claimEvents]. destruct (claimable _ _ _) eqn:Hcl.
  - pose proof (IH (S n) limit) as IH'. destruct (claimEvents request now random (S n) limit events) as [rest taken]. simpl in *. set_solver.
  - pose proof (IH n (S limit)) as IH'. destruct (claimEvents request now random n (S limit) events) as [rest taken]. simpl in *. set_solver.
Qed.

(** ** Calls on the store *)

Section calls.
Context `{Unicode}.

Definition performStore (call : StoreCall) (s : Store) : Store :=
  match call with
  | CallRegisterIntegration integration => (RegisterIntegration integration s).2
  | CallCreateSignal metadata signal now random => (CreateSignal metadata signal now random s).2
  | CallCreateIncident incident now random => (CreateIncident incident now random s).2
  | CallClaimOutbox request now random => (ClaimOutbox request now random s).2
  | CallAckOutbox id eventType claimToken now => (AckOutbox id eventType claimToken now s).2
  | CallRetryOutbox id eventType claimToken availableAt failureCode now =>
      (RetryOutbox id eventType claimToken availableAt failureCode now s).2
  end.

Definition performStoreAll (calls : list StoreCall) (s : Store) : Store := fold_left (fun s call => performStore call s) calls s.

(** The store after calls on a new one. *)
Definition storeAfter (calls : list StoreCall) : Store := performStoreAll calls Store_empty.

(** What a call leaves: the events that were there, changed one by one, and at most one new
    event, for a signal or an incident that is new. *)
Inductive store_change (call : StoreCall) (s : Store) : Store -> Prop :=
| change_none : store_change call s s
| change_integration integration :
    store_integrations s !! int_ID integration = None ->
    store_change call s {| s with store_integrations := <[int_ID integration := integration]> (store_integrations s) |}
| change_conflict conflict :
    store_change call s {| s with store_securityConflicts := store_securityConflicts s ++ [conflict] |}
| change_signal signal integration random now :
    Signal_Validate signal = Ok tt -> store_integrations s !! sig_IntegrationID signal = Some integration ->
    store_signals s !! signalKey signal = None ->
    store_change call s {| s with store_signals := <[signalKey signal := signal]> (store_signals s);
                                  store_outbox := store_outbox s ++ [signalEvent signal (NewUUID random) now] |}
| change_incident incident random now :
    store_incidents s !! inc_ID incident = None ->
    store_change call s {| s with store_incidents := <[inc_ID incident := incident]> (store_incidents s);
                                  store_outbox := store_outbox s ++ [incidentEvent incident (NewUUID random) now] |}
| change_events events :
    Forall2 (event_changes call) (store_outbox s) events -> store_change call s {| s with store_outbox := events |}.

Lemma RegisterIntegration_changes call integration s :
  wp (RegisterIntegration integration) (fun _ s' => store_change call s s') s.
Proof.
  unfold RegisterIntegration. do 2 wp_step. wp_step; [|constructor]. do 2 wp_step. destruct (store_integrations s !! _) eqn:?; wp_run_all; by constructor.
Qed.

Lemma CreateSignal_changes call metadata signal now random s :
  wp (CreateSignal metadata signal now random) (fun _ s' => store_change call s s') s.
Proof.
  unfold CreateSignal. do 2 wp_step. wp_step; [|constructor]. do 9 (try wp_step); try by constructor. destruct (store_signals s !! _) eqn:?; wp_run_all; try by constructor.
  destruct a. by eapply change_signal.
Qed.

Lemma CreateIncident_changes call incident now random s : wp (CreateIncident incident now random) (fun _ s' => store_change call s s') s.
Proof.
  unfold CreateIncident. do 2 wp_step. wp_step; [|constructor]. do 2 wp_step. destruct (store_incidents s !! _) eqn:?; wp_run_all; by constructor.
Qed.

Lemma ClaimOutbox_changes request now random s :
  wp (ClaimOutbox request now random) (fun _ s' => store_change (CallClaimOutbox request now random) s s') s.
Proof.
  unfold ClaimOutbox. do 2 wp_step. wp_step; [|constructor]. do 2 wp_step. destruct (claimEvents _ _ _ _ _ _) as [events claimed] eqn:Hc.
  wp_run_all. constructor. by eapply claimEvents_changes.
Qed.

Lemma ClaimOutbox_claimed request now random s :
  wp (ClaimOutbox request now random) (fun r s' => forall claimed, r = Ok claimed ->
    claimed ⊆ store_outbox s' /\ Z.of_nat (length claimed) <= MaxOutboxClaimLimit) s.
Proof.
  unfold ClaimOutbox. do 2 wp_step. wp_step; [|done]. do 2 wp_step.
  pose proof (claimEvents_stored request now random 0 (Z.to_nat (cor_Limit request)) (store_outbox s)) as Hst.
  pose proof (claimEvents_claimed request now random 0 (Z.to_nat (cor_Limit request)) (store_outbox s)) as Hcl.
  destruct (claimEvents _ _ _ _ _ _) as [events claimed]. wp_run_all. intros ? [= <-]. split; [done|]. simpl in Hcl.
  rewrite Hcl, length_imap, length_take. unfold ClaimOutboxRequest_Validate in *. accepted. guards. lia.
Qed.

Lemma AckOutbox_changes id eventType claimToken now s :
  wp (AckOutbox id eventType claimToken now) (fun _ s' => store_change (CallAckOutbox id eventType claimToken now) s s') s.
Proof.
  unfold AckOutbox. wp_run_all; try by constructor. constructor. eapply onEvent_changes; [|exact Heqr]. intros. by right.
Qed.

Lemma RetryOutbox_changes id eventType claimToken availableAt failureCode now s :
  wp (RetryOutbox id eventType claimToken availableAt failureCode now) (fun _ s' =>
    store_change (CallRetryOutbox id eventType claimToken availableAt failureCode now) s s') s.
Proof.
  unfold RetryOutbox. wp_run_all; try by constructor. constructor. eapply onEvent_changes; [|exact Heqr]. intros. by right.
Qed.

Lemma performStore_changes call s : store_change call s (performStore call s).
Proof.
  destruct call.
  - apply RegisterIntegration_changes.
  - apply CreateSignal_changes.
  - apply CreateIncident_changes.
  - apply ClaimOutbox_changes.
  - apply AckOutbox_changes.
  - apply RetryOutbox_changes.
Qed.

(** The events of the outbox before a call, one by one. *)
Lemma store_change_events call s s' :
  store_change call s s' ->
  exists events new, store_outbox s' = events ++ new /\ Forall2 (event_changes call) (store_outbox s) events /\
    (length new <= 1)%nat /\ Forall (fun event => phaseOf event = Waiting /\ ob_Attempts event = 0) new.
Proof.
  assert (Forall2 (event_changes call) (store_outbox s) (store_outbox s)) as Hsame by (apply Forall2_same; apply _).
  intros []; simpl.
  1,2,3: exists (store_outbox s), []; rewrite app_nil_r; auto using Forall_nil_2 with lia.
  1,2: do 2 eexists; split; [done|]; split; [done|]; split; [simpl; lia|by repeat constructor].
  exists events, []. rewrite app_nil_r. auto using Forall_nil_2 with lia.
Qed.
End calls.
