(* ===== verification/OutboxTheorems.v ===== *)
(** * Theorems about the signal store and its outbox

    Every accepted signal and incident is announced by exactly one event, whatever calls are
    made; the events follow the life of the abstract event; a live claim excludes everyone but
    its holder; a repeated delivery of the provider changes nothing. *)

From S2P Require Import Prelude.
From S2P Require Import Sha256.
From S2P Require Import GoText.
From S2P Require Import GoUnicode.
From S2P Require Import InvestigationDomain.
From S2P Require Import StoreErrors.
From S2P Require Import SignalStore.
From S2P Require Import OutboxFacts.
From Stdlib Require Import Ascii.

Open Scope Z_scope.

(** ** What is announced *)

(** What an event says of its aggregate. *)
Definition announcement (event : OutboxEvent) :=
  (ob_AggregateType event, ob_AggregateID event, ob_AggregateVersion event, ob_Type event, ob_TenantID event,
   ob_WorkspaceID event, ob_Payload event).

Definition signalAnnouncement (signal : Signal) :=
  ("SIGNAL"%string, sig_ID signal, 1, "signal.ingested.v1"%string, sig_WorkspaceID signal, sig_WorkspaceID signal,
   signalPayload (sig_ID signal)).

Definition incidentAnnouncement (incident : Incident) :=
  ("INCIDENT"%string, inc_ID incident, inc_Version incident, "incident.created.v1"%string, inc_TenantID incident,
   inc_WorkspaceID incident, incidentPayload (inc_ID incident)).

(** An event is a UUID; a delivered one has no claim left and remembers the token it was
    delivered under; a claim has a token, and a token was handed out by an attempt. *)
Record event_sound (event : OutboxEvent) : Prop := {
  es_id : uuidPattern (ob_ID event) = true;
  es_delivered : ob_DeliveredAt event <> 0 -> ob_ClaimToken event = ""%string /\ ob_DeliveredClaimToken event <> ""%string;
  es_unclaimed : ob_ClaimToken event = ""%string ->
    ob_ClaimedAt event = 0 /\ ob_ClaimedBy event = ""%string /\ ob_ClaimExpiresAt event = 0;
  es_attempts : 0 <= ob_Attempts event;
  es_attempted : ob_ClaimToken event <> ""%string \/ ob_DeliveredAt event <> 0 -> 1 <= ob_Attempts event
}.

Record store_sound `{Unicode} (s : Store) : Prop := {
  ss_announced : announcement <$> store_outbox s ≡ₚ
    (signalAnnouncement <$> (map_to_list (store_signals s)).*2) ++ (incidentAnnouncement <$> (map_to_list (store_incidents s)).*2);
  ss_signals : map_Forall (fun key signal => signalKey signal = key /\ Signal_Validate signal = Ok tt /\
    is_Some (store_integrations s !! sig_IntegrationID signal)) (store_signals s);
  ss_incidents : map_Forall (fun key incident => inc_ID incident = key) (store_incidents s);
  ss_events : Forall event_sound (store_outbox s)
}.

Section store_theorems.
Context `{Unicode}.

Lemma event_changes_facts call event event' : event_changes call event event' -> event_facts event' = event_facts event.
Proof. intros Hc%event_changes_moves. apply Hc. Qed.

Lemma facts_announcement event event' : event_facts event' = event_facts event -> announcement event' = announcement event.
Proof. intros Hf. unfold event_facts, announcement in *. congruence. Qed.

Lemma event_changes_sound call event event' : event_changes call event event' -> event_sound event -> event_sound event'.
Proof.
  intros [->|Hc]; [done|]. intros [Hid Hde Hun Hat Had]. destruct call; try done.
  - destruct Hc as (Hcl & n & ->). unfold claimable in Hcl. guards. unfold claimedEvent. pose proof (NewUUID_nonempty (random n)).
    split; simpl; try done; try lia. unfold IsZero, Time_zero in *. intros Hd. guards. lia.
  - destruct Hc as [<- Hc]. unfold acknowledged in Hc. accepted. destruct (IsZero (ob_DeliveredAt event)) eqn:Hz; simpl in *; accepted; subst; [|by split].
    unfold holdsClaim in *. guards. subst. split; simpl; try done; try lia. intros _. apply Had. by left.
  - destruct Hc as [<- Hc]. unfold rescheduled, holdsClaim in Hc. accepted. guards. subst.
    split; simpl; try done; intros Hd; [by destruct (Hde Hd)|]. apply Had. by left.
Qed.

Lemma changed_announcements call events events' :
  Forall2 (event_changes call) events events' -> announcement <$> events' = announcement <$> events.
Proof. induction 1 as [|e e' es es' He _ IH]; csimpl; [done|]. f_equal; [|done]. apply facts_announcement. by eapply event_changes_facts. Qed.

Lemma store_change_sound call s s' : store_change call s s' -> store_sound s -> store_sound s'.
Proof.
  intros Hc [Han Hsi Hin Hev]. destruct Hc; try done.
  - split; simpl; try done. intros k sg Hk. destruct (Hsi k sg Hk) as (? & ? & ?). split_and!; try done. by apply lookup_insert_is_Some'; right.
  - split; simpl; try done.
    + rewrite fmap_app, Han, map_to_list_insert by done. simpl. rewrite Permutation_app_comm. done.
    + apply map_Forall_insert_2; [|done]. eauto.
    + apply Forall_app. split; [done|]. constructor; [|done]. split; simpl; try done; try lia; [apply NewUUID_pattern|intros []; done].
  - split; simpl; try done.
    + rewrite fmap_app, Han, map_to_list_insert by done. simpl. rewrite Permutation_app_comm. csimpl. by rewrite <- Permutation_middle.
    + by apply map_Forall_insert_2.
    + apply Forall_app. split; [done|]. constructor; [|done]. split; simpl; try done; try lia; [apply NewUUID_pattern|intros []; done].
  - split; simpl; try done.
    + by rewrite (changed_announcements call (store_outbox s)).
    + apply Forall_lookup_2. intros i e' He'. destruct (Forall2_lookup_r _ _ _ _ _ H0 He') as (e & He & Hee).
      eapply event_changes_sound; [done|]. by eapply Forall_lookup_1.
Qed.

Lemma performStoreAll_ind (P : Store -> Prop) calls s :
  (forall call s, P s -> P (performStore call s)) -> P s -> P (performStoreAll calls s).
Proof. intros Hstep. revert s. induction calls as [|call calls IH]; intros s Hs; simpl; [done|]. by apply IH, Hstep. Qed.

Lemma storeAfter_sound calls : store_sound (storeAfter calls).
Proof.
  unfold storeAfter. apply performStoreAll_ind.
  - intros call s. apply (store_change_sound call), performStore_changes.
  - split; simpl; try done; apply map_Forall_empty.
Qed.

(** C15. After any calls, the outbox holds exactly one event for each stored signal and each
    stored incident, with the aggregate's identifier, version, scope and payload, and no other
    event; signals are stored under their own delivery and incidents under their own identifier;
    every event is well formed. *)
Theorem every_acceptance_is_announced_once calls : store_sound (storeAfter calls).
Proof. apply storeAfter_sound. Qed.

(** ** The life of an event *)

(** C18. Every call moves each event of the outbox along the life of the abstract event, keeps
    what it is about and never lowers its attempts, keeps the order of the events, and adds at
    most one, which waits unattempted. *)
Theorem outbox_events_follow_their_life call s :
  exists events new, store_outbox (performStore call s) = events ++ new /\ Forall2 (event_moves call) (store_outbox s) events /\
    (length new <= 1)%nat /\ Forall (fun event => phaseOf event = Waiting /\ ob_Attempts event = 0) new.
Proof.
  destruct (store_change_events call s (performStore call s)) as (events & new & ? & Hf & ? & ?); [apply performStore_changes|].
  exists events, new. split_and!; try done. eapply Forall2_impl; [exact Hf|]. apply event_changes_moves.
Qed.

(** ** Claims exclude *)

(** A call that is made before the claim of an event lapses and does not present its token. *)
Definition spares (event : OutboxEvent) (call : StoreCall) : Prop :=
  match call with
  | CallClaimOutbox _ now _ => now < ob_ClaimExpiresAt event
  | CallAckOutbox id _ token _ | CallRetryOutbox id _ token _ _ _ => ~ (id = ob_ID event /\ token = ob_ClaimToken event)
  | _ => True
  end.

Definition held (event : OutboxEvent) : Prop := exists token until, phaseOf event = Held token until.

Lemma held_claim event : held event -> IsZero (ob_DeliveredAt event) = true /\ ob_ClaimToken event <> ""%string.
Proof. intros (token & until & Hp). unfold phaseOf in Hp. destruct (IsZero _); [|done]. simpl in Hp. by destruct (_ == _) eqn:?; guards. Qed.

Lemma spared_event_stays call event event' : held event -> spares event call -> event_changes call event event' -> event' = event.
Proof.
  intros [Hd Ht]%held_claim Hs [?|Hc]; [done|]. destruct call; try done; simpl in Hs.
  - destruct Hc as [Hc _]. unfold claimable, After in Hc. rewrite (proj2 (eqb_false _ _) Ht) in Hc. simpl in Hc. guards. lia.
  - destruct Hc as [<- Hc]. unfold acknowledged, holdsClaim in Hc. rewrite Hd in Hc. simpl in Hc. accepted. guards. by destruct Hs.
  - destruct Hc as [<- Hc]. unfold rescheduled, holdsClaim in Hc. accepted. guards. by destruct Hs.
Qed.

(** C16. An event that is held under a claim stays exactly as it is through any calls made
    before the claim lapses by anyone who does not hold its token, and events keep their place
    and what they are about. *)
Theorem live_claim_is_exclusive calls s :
  exists events new, store_outbox (performStoreAll calls s) = events ++ new /\
    Forall2 (fun event event' => event_facts event' = event_facts event /\
      (held event -> Forall (spares event) calls -> event' = event)) (store_outbox s) events.
Proof.
  revert s. induction calls as [|call calls IH]; intros s; simpl.
  { exists (store_outbox s), []. rewrite app_nil_r. split; [done|]. apply Forall_Forall2_diag, Forall_true. done. }
  destruct (store_change_events call s (performStore call s)) as (events1 & new1 & Ho & Hf & _); [apply performStore_changes|].
  destruct (IH (performStore call s)) as (events & new & -> & Hrest). rewrite Ho in Hrest.
  apply Forall2_app_inv_l in Hrest as (events2 & new2 & Hrest & _ & ->).
  exists events2, (new2 ++ new). rewrite app_assoc. split; [done|].
  eapply Forall2_trans; [|exact Hf|exact Hrest]. intros e e1 e2 He [Hfa Hst].
  split; [by rewrite Hfa; eapply event_changes_facts|]. intros Hheld [Hsp Hall]%Forall_cons.
  assert (e1 = e) as -> by by eapply spared_event_stays. by apply Hst.
Qed.

(** A claim that is granted hands out the first events of its type that are available and
    under no live claim, up to its limit, in their order, each with a token of its own draw and
    until the end of its lease, and these are in the outbox as they were handed out; one
    that is refused was invalid and changes nothing. *)
Theorem claim_takes_the_first_available request now random s :
  wp (ClaimOutbox request now random) (fun r s' =>
    match r with
    | Ok claimed =>
        ClaimOutboxRequest_Validate request = Ok tt /\
        claimed = imap (fun i => claimedEvent request (NewUUID (random i)) now)
          (take (Z.to_nat (cor_Limit request)) (List.filter (claimable (cor_EventType request) now) (store_outbox s))) /\
        (length claimed <= Z.to_nat MaxOutboxClaimLimit)%nat /\ claimed ⊆ store_outbox s' /\ Forall held claimed
    | Err e => s' = s /\ e = ErrInvalidOutboxClaim
    end) s.
Proof.
  unfold ClaimOutbox. do 2 wp_step. destruct (ClaimOutboxRequest_Validate request) as [[]|e] eqn:Hv; cbv beta iota; [|].
  2: { split; [done|]. unfold ClaimOutboxRequest_Validate, ensure in Hv. by case_match; simplify_eq. }
  do 2 wp_step. pose proof (claimEvents_claimed request now random 0 (Z.to_nat (cor_Limit request)) (store_outbox s)) as Hc.
  pose proof (claimEvents_stored request now random 0 (Z.to_nat (cor_Limit request)) (store_outbox s)) as Hst.
  destruct (claimEvents _ _ _ _ _ _) as [events claimed]. simpl in Hc, Hst. wp_run_all. subst. split_and!; try done.
  - rewrite length_imap, length_take. unfold ClaimOutboxRequest_Validate in Hv. apply ensure_Ok in Hv. guards. lia.
  - apply Forall_lookup_2. intros i event Hi. rewrite list_lookup_imap in Hi. apply fmap_Some in Hi as (e0 & Hi & ->).
    apply list_elem_of_lookup_2, elem_of_take in Hi as (k & Hi & _).
    apply list_elem_of_lookup_2, list_elem_of_In, filter_In in Hi as [_ Hcl].
    unfold held, phaseOf. simpl. unfold claimable in Hcl. rewrite !andb_true_iff in Hcl. destruct Hcl as [[[_ ->] _] _]. simpl.
    destruct (NewUUID (random i) == "") eqn:Hn; [|eauto]. guards. by apply NewUUID_nonempty in Hn.
Qed.

(** ** Repeated deliveries *)

(** Signals and integrations are never lost or replaced. *)
Definition store_grows (s s' : Store) : Prop :=
  store_signals s ⊆ store_signals s' /\ store_integrations s ⊆ store_integrations s'.

Lemma store_change_grows call s s' : store_change call s s' -> store_grows s s'.
Proof. intros []; split; simpl; try done; by apply insert_subseteq. Qed.

Lemma performStoreAll_grows calls s : store_grows s (performStoreAll calls s).
Proof.
  apply (performStoreAll_ind (store_grows s)); [|done]. intros call s' [? ?].
  destruct (store_change_grows call s' (performStore call s')) as [? ?]; [apply performStore_changes|]. split; by etrans.
Qed.

(** What a delivery of the same event of a provider answers in a store that has it as
    [existing]: nothing new for the same payload, a recorded conflict for another one. *)
Definition recognised (existing signal : Signal) (s : Store) : Prop :=
  forall metadata again now random,
    Signal_Validate again = Ok tt -> sig_IntegrationID again = sig_IntegrationID signal ->
    sig_ProviderEventID again = sig_ProviderEventID signal -> sig_WorkspaceID again = sig_WorkspaceID signal ->
    sig_Provider again = sig_Provider signal ->
    CreateSignal metadata again now random s =
      if sig_PayloadHash again == sig_PayloadHash signal then (Ok false, s)
      else (Err ErrIdempotencyConflict, {| s with store_securityConflicts :=
              store_securityConflicts s ++ [securityConflict existing again metadata random now] |}).

(** C17. Once a delivery was accepted, as new or as a repetition, every later delivery of the
    same event of the provider is recognised whatever happened in between: with the same
    payload hash it changes nothing, with another one it is refused and only recorded as a
    conflict.  A delivery that is refused adds no signal and no event. *)
Theorem repeated_delivery_is_recognised metadata signal now random calls s :
  wp (CreateSignal metadata signal now random) (fun r s' =>
    match r with
    | Ok created => exists existing, store_signals s' !! signalKey signal = Some existing /\
        (created = true -> existing = signal) /\ (created = false -> s' = s) /\
        recognised existing signal (performStoreAll calls s')
    | Err _ => store_signals s' = store_signals s /\ store_outbox s' = store_outbox s
    end) s.
Proof.
  assert (Hrec : forall s' existing integration, store_integrations s' !! sig_IntegrationID signal = Some integration ->
    int_Enabled integration = true ->
    int_WorkspaceID integration = sig_WorkspaceID signal -> int_Provider integration = sig_Provider signal ->
    store_signals s' !! signalKey signal = Some existing -> sig_PayloadHash existing = sig_PayloadHash signal ->
    recognised existing signal (performStoreAll calls s')).
  { intros s' existing integration Hi Hen Hw Hp Hex Hh meta again now' random' Hv E1 E2 E3 E4.
    destruct (performStoreAll_grows calls s') as [G1 G2]. set (s2 := performStoreAll calls s') in *. clearbody s2.
    unfold CreateSignal, lift, mbind, M_bind. rewrite Hv. simpl. rewrite E1, (lookup_weaken _ _ _ _ Hi G2). simpl.
    rewrite Hen. simpl. rewrite E3, E4, Hw, Hp, !eqb_same. simpl. unfold signalKey in *. rewrite E1, E2, (lookup_weaken _ _ _ _ Hex G1), Hh.
    destruct (sig_PayloadHash again == sig_PayloadHash signal) eqn:Hd; guards.
    - by rewrite Hd, eqb_same.
    - by rewrite (proj2 (eqb_false _ _)). }
  unfold CreateSignal. do 2 wp_step. wp_step; [|done]. do 9 (try wp_step); try done; wp_run_all; guards; try done.
  - exists s0. split_and!; try done. by eapply Hrec.
  - exists signal. simpl. rewrite lookup_insert_eq. split_and!; try done. eapply Hrec; try done. simpl. by rewrite lookup_insert_eq.
Qed.

End store_theorems.
