(* ===== verification/DispatcherFacts.v ===== *)
(** * Facts about the dispatcher of the signal outbox

    The delay of a retry, the round trip of the payload of a signal event, and what one call
    of the store may deliver. *)

From S2P Require Import Prelude.
From S2P Require Import Sha256.
From S2P Require Import GoText.
From S2P Require Import GoStrings.
From S2P Require Import GoJson.
From S2P Require Import GoDecode.
From S2P Require Import GoUnicode.
From S2P Require Import InvestigationDomain.
From S2P Require Import StoreErrors.
From S2P Require Import SignalStore.
From S2P Require Import SignalDispatcher.
From S2P Require Import OutboxFacts.
From S2P Require Import OutboxTheorems.
From Stdlib Require Import Ascii.

Open Scope Z_scope.

(** ** The delay *)

Lemma backoff_loop_value rounds maximum delay current attempt :
  0 < delay <= maximum -> attempt - current <= Z.of_nat rounds ->
  backoff_loop rounds maximum delay current attempt = Z.min maximum (delay * 2 ^ Z.max 0 (attempt - current)).
Proof.
  revert delay current. induction rounds as [|rounds IH]; intros delay current Hd Hr; simpl.
  { rewrite Z.max_l by lia. lia. }
  destruct (current <? attempt) eqn:Hc; simpl; [|rewrite Z.max_l by lia; lia].
  assert (2 ^ Z.max 0 (attempt - current) = 2 * 2 ^ Z.max 0 (attempt - (current + 1))) as Hpow.
  { rewrite !Z.max_r by lia. rewrite <- Z.pow_succ_r by lia. f_equal. lia. }
  assert (0 < 2 ^ Z.max 0 (attempt - (current + 1))) as Hpos by (apply Z.pow_pos_nonneg; lia).
  pose proof (Z.mod_pos_bound maximum 2). pose proof (Z.div_mod maximum 2).
  destruct (delay <? maximum) eqn:Hm; [|rewrite Z.min_l; nia].
  destruct (maximum / 2 <? delay) eqn:Hh; [rewrite Z.min_l; nia|].
  rewrite IH by lia. f_equal. rewrite Hpow. lia.
Qed.

(** The delay doubles with every attempt up to the maximum. *)
Lemma backoff_value options attempt :
  0 < opt_BaseBackoff options <= opt_MaxBackoff options ->
  backoff options attempt = Z.min (opt_MaxBackoff options) (opt_BaseBackoff options * 2 ^ Z.max 0 (attempt - 1)).
Proof.
  intros Hb. unfold backoff. rewrite backoff_loop_value by lia. destruct (_ <? _) eqn:Hl; lia.
Qed.

(** ** The payload *)

Lemma bytes_of_string_app s t : bytes_of_string (s +:+ t) = bytes_of_string s ++ bytes_of_string t.
Proof. induction s as [|c s IH]; [done|]. unfold bytes_of_string in *. simpl. by rewrite IH. Qed.

(** A byte of text that needs no escape stands for itself. *)
Lemma string_body_byte fuel b rest :
  htmlSafe b = true -> b < 0x80 ->
  string_body (S fuel) (b :: rest) =
  match string_body fuel rest with Some (body, rest) => Some (b :: body, rest) | None => None end.
Proof.
  intros Hs Hb. unfold htmlSafe, byte_in in Hs. guards.
  assert (DecodeRune (b :: rest) = (b, 1%nat)) as Hd by (unfold DecodeRune; by rewrite (proj2 (Z.ltb_lt _ _))).
  assert (encodeRune b = [b]) as He.
  { unfold encodeRune, byte_in. rewrite (proj2 (Z.ltb_ge b 0)), (proj2 (Z.ltb_ge 0x10ffff b)), (proj2 (Z.leb_gt 0xd800 b)) by lia. simpl.
    by rewrite (proj2 (Z.ltb_lt _ _)). }
  assert (string_body (S fuel) (b :: rest) =
    let '(r, n) := DecodeRune (b :: rest) in
    if r <? 0x20 then None
    else match string_body fuel (skipn n (b :: rest)) with
         | Some (body, rest) => Some (encodeRune r ++ body, rest)
         | None => None
         end) as ->.
  { destruct b as [|p|p]; try done. do 7 (destruct p as [p|p|]; try (exfalso; lia); try done). }
  rewrite Hd, (proj2 (Z.ltb_ge b 0x20)) by lia. cbn [skipn]. rewrite drop_0, He. done.
Qed.

Lemma string_body_plain fuel s rest :
  all_chars plain_char s = true -> (String.length s < fuel)%nat ->
  string_body fuel (bytes_of_string s ++ 34 :: rest) = Some (bytes_of_string s, rest).
Proof.
  revert fuel. induction s as [|c s IH]; intros [|fuel] Hs Hf; try (simpl in Hf; lia); [done|].
  simpl in Hs, Hf. guards. unfold plain_char in *. guards.
  change (bytes_of_string (String c s) ++ 34 :: rest) with (byteZ c :: (bytes_of_string s ++ 34 :: rest)).
  rewrite string_body_byte by (done || lia). by rewrite IH by (done || lia).
Qed.

Lemma signalPayload_bytes id :
  all_chars plain_char id = true ->
  bytes_of_string (signalPayload id) =
  123 :: 34 :: bytes_of_string "signal_id" ++ 34 :: 58 :: 34 :: bytes_of_string id ++ [34; 125].
Proof.
  intros Hp. unfold signalPayload. cbn [Marshal List.map]. rewrite (encodeString_plain id Hp), (encodeString_plain "signal_id") by done.
  cbn [strings_Join]. rewrite !bytes_of_string_app. rewrite <- !app_assoc. reflexivity.
Qed.

Lemma parseValue_string fuel depth rest body behind :
  string_body fuel rest = Some (body, behind) -> parseValue (S fuel) depth (34 :: rest) = Some (VString (string_of_bytes body), behind).
Proof. intros Hb. cbn [parseValue]. change (skip_space (34 :: rest)) with (34 :: rest). cbv iota. by rewrite Hb. Qed.

Lemma parseMembers_last fuel depth rest key value behind tail :
  string_body fuel rest = Some (key, 58 :: behind) -> parseValue fuel depth behind = Some (value, 125 :: tail) ->
  parseMembers (S fuel) depth (34 :: rest) = Some ([(string_of_bytes key, value)], tail).
Proof.
  intros Hk Hv. cbn [parseMembers]. change (skip_space (34 :: rest)) with (34 :: rest). cbv iota. rewrite Hk.
  change (skip_space (58 :: behind)) with (58 :: behind). cbv iota. rewrite Hv.
  change (skip_space (125 :: tail)) with (125 :: tail). reflexivity.
Qed.

Lemma parseValue_members fuel depth rest members behind :
  parseMembers fuel depth (34 :: rest) = Some (members, behind) ->
  parseValue (S fuel) (S depth) (123 :: 34 :: rest) = Some (VObject members, behind).
Proof.
  intros Hm. cbn [parseValue]. change (skip_space (123 :: 34 :: rest)) with (123 :: 34 :: rest). cbv iota.
  change (skip_space (34 :: rest)) with (34 :: rest). cbv iota. by rewrite Hm.
Qed.

(** The payload of a signal event reads back as the identifier of the signal. *)
Lemma payload_round_trip id :
  all_chars plain_char id = true -> id <> ""%string -> decodeExactSignalPayload (signalPayload id) = Ok id.
Proof.
  intros Hp Hn. unfold decodeExactSignalPayload.
  assert (parseJson (signalPayload id) = Some (VObject [("signal_id"%string, VString id)])) as ->.
  - unfold parseJson. rewrite (signalPayload_bytes id Hp). set (l := List.length _).
    assert (l = 16 + String.length id)%nat as ->.
    { unfold l. simpl. rewrite length_app, length_bytes_of_string. simpl. lia. }
    replace (2 * (16 + String.length id) + 2)%nat with (S (S (S (31 + 2 * String.length id))))%nat by lia.
    change maxNestingDepth with (S (Z.to_nat 9999)). rewrite (parseValue_members _ _ _ [("signal_id"%string, VString id)] []); [done|].
    rewrite (parseMembers_last _ _ _ (bytes_of_string "signal_id") (VString id) (34 :: bytes_of_string id ++ [34; 125]) []); [done| |].
    + apply (string_body_plain _ "signal_id"); [done|simpl; lia].
    + rewrite (parseValue_string _ _ _ (bytes_of_string id) [125]); [by rewrite string_of_bytes_of_string|].
      by rewrite string_body_plain by (done || lia).
  - simpl. by rewrite (proj2 (eqb_false _ _) Hn).
Qed.

(** A UUID needs no escape. *)
Lemma classes_plain ps s :
  Forall (fun p => forall c, p c = true -> plain_char c = true) ps -> matches_classes ps s = true -> all_chars plain_char s = true.
Proof.
  intros Hps. revert s. induction Hps as [|p ps Hp _ IH]; intros [|c s] Hm; try done. simpl in *. guards. rewrite Hp by done. by apply IH.
Qed.

Lemma uuid_plain s : uuidPattern s = true -> all_chars plain_char s = true.
Proof.
  apply classes_plain.
  assert (forall c, is_lower_hex c = true -> plain_char c = true) as H1 by by intros [[] [] [] [] [] [] [] []].
  assert (forall c, one_of_chars "-" c = true -> plain_char c = true) as H2 by by intros [[] [] [] [] [] [] [] []].
  assert (forall c, in_range 49 53 c = true -> plain_char c = true) as H3 by by intros [[] [] [] [] [] [] [] []].
  assert (forall c, one_of_chars "89ab" c = true -> plain_char c = true) as H4 by by intros [[] [] [] [] [] [] [] []].
  repeat constructor; assumption.
Qed.

Lemma uuid_nonempty s : uuidPattern s = true -> s <> ""%string.
Proof. by intros Hu ->. Qed.

(** ** Deliveries *)

(** An event is delivered by the acknowledgement of its identifier and type only, under the
    token it keeps from then on. *)
Lemma delivered_by call event event' :
  event_changes call event event' -> ob_DeliveredAt event' <> 0 ->
  (ob_DeliveredAt event <> 0 /\ ob_DeliveredClaimToken event' = ob_DeliveredClaimToken event) \/
  exists now, call = CallAckOutbox (ob_ID event) (ob_Type event) (ob_DeliveredClaimToken event') now.
Proof.
  intros [->|Hc] Hd; [by left|]. destruct call; try done.
  - destruct Hc as [_ [n ->]]. by left.
  - destruct Hc as [<- Hc]. unfold acknowledged in Hc. accepted. guards. subst.
    destruct (negb _); accepted; subst; [by left|right; by eexists].
  - destruct Hc as [<- Hc]. unfold rescheduled in Hc. accepted. subst. by left.
Qed.

(** What a workflow is started with is what the event is about. *)
Lemma facts_start event event' : event_facts event' = event_facts event -> newSignalWorkflowStart event' = newSignalWorkflowStart event.
Proof.
  intros Hf. unfold event_facts in Hf. injection Hf as E1 E2 E3 E4 E5 E6 E7 E8 _. unfold newSignalWorkflowStart.
  by rewrite E1, E2, E3, E4, E5, E6, E7, E8.
Qed.

Lemma start_names_event event start : newSignalWorkflowStart event = Ok start -> sws_OutboxEventID start = ob_ID event.
Proof. unfold newSignalWorkflowStart. intros. accepted. case_match; [|done]. by accepted; subst. Qed.
