(* ===== verification/DispatcherTheorems.v ===== *)
(** * Theorems about the dispatcher of the signal outbox

    Any number of dispatchers share the store with its other users, in any interleaving of
    their calls.  Whatever the interleaving, a dispatcher delivers an event only after its
    workflow was started or was found to exist, so that any other delivered event was
    acknowledged by another user with the token of its claim; a round of [RunOnce] is such an
    interleaving and accounts for every event it claimed; the events the store writes are
    always understood. *)

From S2P Require Import Prelude.
From S2P Require Import GoText.
From S2P Require Import GoUnicode.
From S2P Require Import InvestigationDomain.
From S2P Require Import StoreErrors.
From S2P Require Import SignalStore.
From S2P Require Import SignalDispatcher.
From S2P Require Import OutboxFacts.
From S2P Require Import OutboxTheorems.
From S2P Require Import DispatcherFacts.

Open Scope Z_scope.

(** ** Dispatchers side by side *)

(** A round that is under way: the claimed events that are left, and the answer of the starter
    for the first of them once there is one. *)
Record Process := { pr_options : Options; pr_events : list OutboxEvent; pr_answer : option StartAnswer }.

Record System := { sy_world : World; sy_processes : list Process }.

Definition System_empty : System := {| sy_world := {| w_store := Store_empty; w_starts := [] |}; sy_processes := [] |}.

(** What can happen next: someone else uses the store, a round claims its batch, the round [i]
    calls the starter for its next event, or tells the store what came of it. *)
Inductive Action :=
| ActOther (call : StoreCall)
| ActClaim (options : Options) (now : Time) (random : nat -> Z)
| ActStart (i : nat) (starter : SignalWorkflowStart -> StartAnswer)
| ActSettle (i : nat) (storeNow now : Time).

(** One event's surroundings, at one moment. *)
Definition moment (storeNow now : Time) : Surroundings := {|
  su_starter := fun _ _ => StartFailed None; su_storeClock := fun _ => storeNow; su_clock := fun _ => now;
  su_beforeStart := fun _ w => w; su_beforeStore := fun _ w => w
|}.

Section system.
Context `{Unicode}.

Definition perform (action : Action) (sys : System) : System :=
  let w := sy_world sys in
  let processes := sy_processes sys in
  match action with
  | ActOther call => {| sys with sy_world := {| w with w_store := performStore call (w_store w) |} |}
  | ActClaim options now random =>
      match onStore (wrapping "claim signal outbox batch" (ClaimOutbox (claimRequestOf options) now random)) w with
      | (Err _, w) => {| sys with sy_world := w |}
      | (Ok events, w) =>
          {| sy_world := w; sy_processes := processes ++ [{| pr_options := options; pr_events := events; pr_answer := None |}] |}
      end
  | ActStart i starter =>
      match processes !! i with
      | Some {| pr_options := options; pr_events := event :: events; pr_answer := None |} =>
          match newSignalWorkflowStart event with
          | Err _ =>
              {| sys with sy_processes := <[i := {| pr_options := options; pr_events := events; pr_answer := None |}]> processes |}
          | Ok start =>
              let answer := starter start in
              {| sy_world := {| w with w_starts := w_starts w ++ [(start, answer)] |};
                 sy_processes := <[i := {| pr_options := options; pr_events := event :: events; pr_answer := Some answer |}]> processes |}
          end
      | _ => sys
      end
  | ActSettle i storeNow now =>
      match processes !! i with
      | Some {| pr_options := options; pr_events := event :: events; pr_answer := Some answer |} =>
          let '(r, w) := onStore (settle options (moment storeNow now) 0 event answer).1 w in
          let left := if r is Ok _ then events else [] in
          {| sy_world := w; sy_processes := <[i := {| pr_options := options; pr_events := left; pr_answer := None |}]> processes |}
      | _ => sys
      end
  end.

Definition performAll (actions : list Action) (sys : System) : System := fold_left (fun sys action => perform action sys) actions sys.

(** ** The invariant *)

(** The store has no two events with one identifier: the random identifiers do not collide. *)
Definition distinct (w : World) : Prop := NoDup (ob_ID <$> store_outbox (w_store w)).

(** A workflow was asked for under the identifier of an event and started or existed; it is
    the event's own workflow if identifiers do not collide. *)
Definition wasStarted (w : World) (event : OutboxEvent) : Prop :=
  exists start answer, (start, answer) ∈ w_starts w /\ sws_OutboxEventID start = ob_ID event /\
    (answer = StartAnswered StartOutcomeStarted \/ answer = StartAnswered StartOutcomeAlreadyExists) /\
    (distinct w -> newSignalWorkflowStart event = Ok start).

(** Another user of the store acknowledged an event, with the token it was delivered under. *)
Definition acknowledgedBy (others : StoreCall -> Prop) (event : OutboxEvent) : Prop :=
  exists now, others (CallAckOutbox (ob_ID event) signalIngestedEventType (ob_DeliveredClaimToken event) now).

(** Every delivered signal event was started, unless one of the [others] acknowledged it. *)
Definition deliveries_started (others : StoreCall -> Prop) (w : World) : Prop :=
  Forall (fun event => ob_Type event = signalIngestedEventType -> ob_DeliveredAt event <> 0 ->
    wasStarted w event \/ acknowledgedBy others event)
    (store_outbox (w_store w)).

(** The events of a round are about what the outbox holds, and an answer was given to a start. *)
Definition process_sound (w : World) (process : Process) : Prop :=
  Forall (fun event => event_facts event ∈ event_facts <$> store_outbox (w_store w)) (pr_events process) /\
  match pr_events process, pr_answer process with
  | event :: _, Some answer => exists start, newSignalWorkflowStart event = Ok start /\ (start, answer) ∈ w_starts w
  | _, _ => True
  end.

Record system_sound (others : StoreCall -> Prop) (sys : System) : Prop := {
  sy_deliveries : deliveries_started others (sy_world sys);
  sy_sound : Forall (process_sound (sy_world sys)) (sy_processes sys)
}.

(** A later world keeps the events, as to what they are about, and the starts. *)
Definition later (w w' : World) : Prop :=
  event_facts <$> store_outbox (w_store w) `prefix_of` event_facts <$> store_outbox (w_store w') /\ w_starts w ⊆ w_starts w'.

Lemma facts_ids (events : list OutboxEvent) : ob_ID <$> events = (fun f => f.1.1.1.1.1.1.1.1) <$> (event_facts <$> events).
Proof. rewrite <- list_fmap_compose. done. Qed.

Lemma later_distinct w w' : later w w' -> distinct w' -> distinct w.
Proof. intros [[k Hk] _]. unfold distinct. rewrite !facts_ids, Hk, fmap_app. intros [? _]%NoDup_app. done. Qed.

Lemma later_started w w' event event' :
  later w w' -> event_facts event' = event_facts event -> wasStarted w event -> wasStarted w' event'.
Proof.
  intros Hl Hf (start & answer & Hin & Hid & Ha & Hd). exists start, answer.
  split_and!; [by apply Hl|unfold event_facts in Hf; congruence|done|]. intros Hdis. rewrite (facts_start event event' Hf). by apply Hd, (later_distinct w w').
Qed.

Lemma later_process w w' process : later w w' -> process_sound w process -> process_sound w' process.
Proof.
  intros [[k Hk] Hs] [Hf Ha]. split.
  - eapply Forall_impl; [exact Hf|]. intros event He. rewrite Hk, elem_of_app. by left.
  - repeat case_match; try done. destruct Ha as (start & ? & ?). eauto.
Qed.

Lemma later_processes w w' processes : later w w' -> Forall (process_sound w) processes -> Forall (process_sound w') processes.
Proof. intros Hl Hp. eapply Forall_impl; [exact Hp|]. intros. by eapply later_process. Qed.

(** ** Calls to the store *)

Lemma changed_facts call events events' :
  Forall2 (event_changes call) events events' -> event_facts <$> events' = event_facts <$> events.
Proof. induction 1 as [|e e' es es' He _ IH]; csimpl; [done|]. f_equal; [|done]. by eapply event_changes_facts. Qed.

Lemma store_change_later call w s' : store_change call (w_store w) s' -> later w {| w with w_store := s' |}.
Proof.
  intros (events & new & Ho & Hf & _)%store_change_events. split; [|done]. simpl. rewrite Ho, fmap_app, (changed_facts _ _ _ Hf). by eexists.
Qed.

(** A call keeps what was delivered started if what it acknowledges was, or it is another's. *)
Lemma store_change_deliveries others call w s' :
  store_change call (w_store w) s' ->
  (forall event token now, call = CallAckOutbox (ob_ID event) signalIngestedEventType token now -> event ∈ store_outbox (w_store w) ->
    wasStarted w event \/ others call) ->
  deliveries_started others w -> deliveries_started others {| w with w_store := s' |}.
Proof.
  intros Hc Hack Hd. pose proof (store_change_later _ _ _ Hc) as Hl. apply store_change_events in Hc as (events & new & Ho & Hf & _ & Hnew).
  unfold deliveries_started in *. simpl. rewrite Ho. apply Forall_app. split.
  - apply Forall_lookup_2. intros i e' He' Ht Hde. destruct (Forall2_lookup_r _ _ _ _ _ Hf He') as (e & He & Hch).
    pose proof (event_changes_facts _ _ _ Hch) as Hfa. assert (ob_Type e = signalIngestedEventType) as Hte by (unfold event_facts in Hfa; congruence).
    assert (ob_ID e' = ob_ID e) as Hid by (unfold event_facts in Hfa; congruence).
    destruct (delivered_by _ _ _ Hch Hde) as [[Hold Htok]|(now & Ecall)].
    + rewrite Forall_lookup in Hd. destruct (Hd i e He Hte Hold) as [Hs|[now Hn]]; [left; by apply (later_started w _ e e' Hl Hfa)|].
      right. exists now. by rewrite Hid, Htok.
    + rewrite Hte in Ecall. destruct (Hack e _ now Ecall) as [Hs|Hn]; [by eapply list_elem_of_lookup_2| |].
      * left. by apply (later_started w _ e e' Hl Hfa).
      * right. exists now. by rewrite Hid, <- Ecall.
  - eapply Forall_impl; [exact Hnew|]. intros e [Hp _] _ Hde. exfalso. unfold phaseOf, IsZero in Hp.
    rewrite (proj2 (Z.eqb_neq _ _) Hde) in Hp. done.
Qed.

Lemma wrapping_state {A} context (m : M Store A) s : (wrapping context m s).2 = (m s).2.
Proof. unfold wrapping. by destruct (m s) as [[] ?]. Qed.

Lemma onStore_world {A} (m : M Store A) w : (onStore m w).2 = {| w with w_store := (m (w_store w)).2 |}.
Proof. unfold onStore. by destruct (m (w_store w)). Qed.

(** What is told to the store about an answer is a retry, or an acknowledgement of a workflow
    that was started or existed. *)
Lemma settle_changes options around n event answer s :
  exists call, store_change call s ((settle options around n event answer).1 s).2 /\
    forall id token now, call = CallAckOutbox id signalIngestedEventType token now -> id = ob_ID event /\
      (answer = StartAnswered StartOutcomeStarted \/ answer = StartAnswered StartOutcomeAlreadyExists).
Proof.
  destruct answer as [[| |text]|code]; simpl; unfold retry; rewrite wrapping_state.
  1,2: eexists; split; [apply AckOutbox_changes|]; intros ??? [= <-]; auto.
  all: eexists; split; [apply RetryOutbox_changes|]; done.
Qed.

(** The event of the outbox with the identifier of a claimed one is about the same. *)
Lemma distinct_facts w event claimed :
  distinct w -> event ∈ store_outbox (w_store w) -> event_facts claimed ∈ event_facts <$> store_outbox (w_store w) ->
  ob_ID event = ob_ID claimed -> event_facts event = event_facts claimed.
Proof.
  intros Hd He Hc Hid. apply list_elem_of_fmap in Hc as (other & Hf & Ho).
  assert (ob_ID other = ob_ID claimed) as Hio by (unfold event_facts in Hf; congruence). rewrite Hf. f_equal.
  apply list_elem_of_lookup in He as [i Hi], Ho as [j Hj].
  assert (i = j) as ->; [|congruence]. eapply NoDup_lookup; [exact Hd| |]; rewrite list_lookup_fmap; [by rewrite Hi|].
  rewrite Hj. simpl. by rewrite Hio, Hid.
Qed.

Lemma later_deliveries others w starts :
  w_starts w ⊆ starts -> deliveries_started others w -> deliveries_started others {| w with w_starts := starts |}.
Proof.
  intros Hs Hd. eapply Forall_impl; [exact Hd|]. intros event He Ht Hde. destruct (He Ht Hde) as [?|?]; [left|by right].
  eapply later_started; [|done..]. by split.
Qed.

(** A dispatcher tells the store what came of the event it holds. *)
Lemma settle_sound others options storeNow now w event events answer :
  deliveries_started others w -> process_sound w {| pr_options := options; pr_events := event :: events; pr_answer := Some answer |} ->
  let w' := (onStore (settle options (moment storeNow now) 0 event answer).1 w).2 in later w w' /\ deliveries_started others w'.
Proof.
  intros Hd [Hfacts (start & Hst & Hin)]. simpl in *. apply Forall_cons in Hfacts as [Hfact _]. rewrite onStore_world.
  destruct (settle_changes options (moment storeNow now) 0 event answer (w_store w)) as (call & Hc & Hack).
  split; [by eapply store_change_later|]. eapply store_change_deliveries; [done| |done].
  intros stored token at_ -> Hel. destruct (Hack _ _ _ eq_refl) as [Hid Ha].
  left. exists start, answer. split_and!; [done| |done|].
  - rewrite Hid. by apply start_names_event.
  - intros Hdis. rewrite <- Hst. apply facts_start. by eapply distinct_facts.
Qed.

Lemma claim_sound others options now random w processes :
  system_sound others {| sy_world := w; sy_processes := processes |} ->
  system_sound others (perform (ActClaim options now random) {| sy_world := w; sy_processes := processes |}).
Proof.
  intros [Hd Hs]. simpl in *.
  pose proof (ClaimOutbox_changes (claimRequestOf options) now random (w_store w)) as Hc.
  pose proof (ClaimOutbox_claimed (claimRequestOf options) now random (w_store w)) as Hcl. unfold wp in Hc, Hcl.
  unfold onStore, wrapping. destruct (ClaimOutbox (claimRequestOf options) now random (w_store w)) as [[claimed|e] s'] eqn:Hr; simpl in *.
  all: pose proof (store_change_later _ _ _ Hc) as Hl.
  all: assert (deliveries_started others {| w_store := s'; w_starts := w_starts w |}) as Hd' by by eapply store_change_deliveries.
  all: split; [done|]; simpl; try by eapply later_processes.
  apply Forall_app. split; [by eapply later_processes|]. constructor; [|done]. split; [|by destruct claimed].
  apply Forall_forall. intros event He. apply list_elem_of_fmap_2. by apply (Hcl _ eq_refl).
Qed.

Lemma perform_sound others action sys : (forall call, action = ActOther call -> others call) ->
  system_sound others sys -> system_sound others (perform action sys).
Proof.
  intros Hothers [Hd Hs]. destruct sys as [w processes]. simpl in *. destruct action as [call|options now random|i starter|i storeNow now]; simpl.
  - pose proof (performStore_changes call (w_store w)) as Hc.
    split; simpl; [|by eapply later_processes; [by eapply store_change_later|]].
    eapply store_change_deliveries; try done. intros event token now' _ _. right. by apply Hothers.
  - by apply claim_sound.
  - destruct (processes !! i) as [[options [|event events] [answer|]]|] eqn:Hi; try done.
    pose proof (Forall_lookup_1 _ _ _ _ Hs Hi) as [Hev _]. simpl in Hev.
    destruct (newSignalWorkflowStart event) as [start|e] eqn:Hst.
    + assert (w_starts w ⊆ w_starts w ++ [(start, starter start)]) as Hsub by set_solver.
      split; simpl; [by apply later_deliveries|]. apply Forall_insert; [apply (later_processes w); [by split|done]|].
      split; [exact Hev|]. simpl. exists start. split; [done|]. set_solver.
    + apply Forall_cons in Hev as [_ Hev]. split; simpl; [done|]. apply Forall_insert; [done|]. split; [done|]. by destruct events.
  - destruct (processes !! i) as [[options [|event events] [answer|]]|] eqn:Hi; try done.
    pose proof (Forall_lookup_1 _ _ _ _ Hs Hi) as Hp.
    destruct (settle_sound others options storeNow now w event events answer Hd Hp) as [Hl Hd'].
    destruct (onStore _ w) as [r w'] eqn:Hr. simpl in Hl, Hd'. split; simpl; [done|].
    apply Forall_insert; [by eapply later_processes|]. eapply (later_process w); [done|].
    destruct Hp as [[_ Hev]%Forall_cons _]. simpl in Hev. destruct r; (split; [done|by destruct events]).
Qed.

Lemma performAll_sound others actions sys : (forall call, ActOther call ∈ actions -> others call) ->
  system_sound others sys -> system_sound others (performAll actions sys).
Proof.
  revert sys. induction actions as [|action actions IH]; intros sys Ho Hs; [done|]. apply IH; [set_solver|].
  apply perform_sound; [|done]. intros call ->. apply Ho. by left.
Qed.

Lemma reachable_sound actions : system_sound (fun call => ActOther call ∈ actions) (performAll actions System_empty).
Proof. apply performAll_sound; [done|]. split; constructor. Qed.

(** ** A round *)

(** A round whose surroundings are calls of others. *)
Definition amid (starter : nat -> SignalWorkflowStart -> StartAnswer) (storeClock clock : nat -> Time)
    (beforeStart beforeStore : nat -> list StoreCall) : Surroundings :=
  let calls others n w := {| w with w_store := performStoreAll (others n) (w_store w) |} in
  {| su_starter := starter; su_storeClock := storeClock; su_clock := clock;
     su_beforeStart := fun n (w : World) => calls beforeStart n w; su_beforeStore := fun n (w : World) => calls beforeStore n w |}.

Lemma performAll_app actions1 actions2 sys : performAll (actions1 ++ actions2) sys = performAll actions2 (performAll actions1 sys).
Proof. apply fold_left_app. Qed.

Lemma others_perform calls w processes :
  performAll (ActOther <$> calls) {| sy_world := w; sy_processes := processes |} =
  {| sy_world := {| w with w_store := performStoreAll calls (w_store w) |}; sy_processes := processes |}.
Proof.
  revert w. induction calls as [|call calls IH]; intros w; [by destruct w|]. csimpl.
  exact (IH {| w with w_store := performStore call (w_store w) |}).
Qed.

Lemma lookup_last {A} (l : list A) x : (l ++ [x]) !! length l = Some x.
Proof. by rewrite lookup_app_r, Nat.sub_diag by lia. Qed.

Lemma insert_last {A} (l : list A) x y : <[length l := y]> (l ++ [x]) = l ++ [y].
Proof. by rewrite insert_app_r_alt, Nat.sub_diag by lia. Qed.

Section schedule.
Context (options : Options) (starter : nat -> SignalWorkflowStart -> StartAnswer) (storeClock clock : nat -> Time)
  (beforeStart beforeStore : nat -> list StoreCall) (processes : list Process).
Local Abbreviation around := (amid starter storeClock clock beforeStart beforeStore).

Definition withRound (w : World) (events : list OutboxEvent) : System :=
  {| sy_world := w; sy_processes := processes ++ [{| pr_options := options; pr_events := events; pr_answer := None |}] |}.

Lemma settle_moment n event answer :
  settle options around n event answer = settle options (moment (storeClock n) (clock n)) 0 event answer.
Proof. by destruct answer as [[]|]. Qed.

(** What others do during the round. *)
Definition duringRound (call : StoreCall) : Prop := exists n, call ∈ beforeStart n \/ call ∈ beforeStore n.

(** The loop over the claimed events, as actions. *)
Lemma dispatchEvents_schedule n events result poison w :
  exists actions, performAll actions (withRound w events) = withRound (dispatchEvents options around n events result poison w).2 [] /\
    forall call, ActOther call ∈ actions -> duringRound call.
Proof.
  revert n result poison w. induction events as [|event events IH]; intros n result poison w; [exists []; set_solver|].
  cbn [dispatchEvents]. destruct (newSignalWorkflowStart event) as [start|e] eqn:Hst.
  - cbv zeta. set (w1 := su_beforeStart around n w). set (answer := su_starter around n start).
    set (w2 := su_beforeStore around n {| w1 with w_starts := w_starts w1 ++ [(start, answer)] |}).
    set (first := (ActOther <$> beforeStart n) ++ [ActStart (length processes) (starter n)] ++
      (ActOther <$> beforeStore n) ++ [ActSettle (length processes) (storeClock n) (clock n)]).
    assert (performAll first (withRound w (event :: events)) =
      let '(r, w3) := onStore (settle options around n event answer).1 w2 in withRound w3 (if r is Ok _ then events else [])) as Hfirst.
    { unfold first, withRound. rewrite !performAll_app, others_perform.
      cbn [performAll fold_left perform sy_world sy_processes]. rewrite lookup_last, Hst, insert_last. cbv zeta. fold (performAll).
      rewrite others_perform. cbn [performAll fold_left perform sy_world sy_processes]. rewrite lookup_last, settle_moment.
      change {| w_store := _; w_starts := _ |} with w2. destruct (onStore _ w2) as [r w3]. by rewrite insert_last. }
    assert (forall call, ActOther call ∈ first -> duringRound call) as Hduring.
    { intros call. unfold first. rewrite !elem_of_app, !list_elem_of_fmap, !list_elem_of_singleton. intros Hin. exists n. naive_solver. }
    destruct (settle options around n event answer) as [call count]. simpl in Hfirst. destruct (onStore call w2) as [[u|e] w3].
    + destruct (IH (S n) (count result) poison w3) as (rest & Hrest & Hd). exists (first ++ rest).
      split; [by rewrite performAll_app, Hfirst|]. intros c. rewrite elem_of_app. naive_solver.
    + by exists first.
  - destruct (IH (S n) result (Some ErrInvalidSignalOutboxEvent) w) as (rest & Hrest & Hd).
    exists (ActStart (length processes) (starter n) :: rest). split; [|set_solver]. cbn [performAll fold_left]. fold (performAll rest). rewrite <- Hrest.
    f_equal. unfold withRound. cbn [perform sy_world sy_processes]. by rewrite lookup_last, Hst, insert_last.
Qed.

Lemma RunOnce_schedule now random w :
  exists actions processes', performAll actions {| sy_world := w; sy_processes := processes |} =
    {| sy_world := (RunOnce options around now random w).2; sy_processes := processes' |} /\
    forall call, ActOther call ∈ actions -> duringRound call.
Proof.
  unfold RunOnce. pose (claim := ActClaim options now random).
  assert (performAll [claim] {| sy_world := w; sy_processes := processes |} = perform claim {| sy_world := w; sy_processes := processes |}) as Hc by done.
  unfold claim in Hc at 2. cbn [perform sy_world sy_processes] in Hc.
  destruct (onStore _ w) as [[events|e] w1]; [|exists [claim], processes; split; [done|set_solver]].
  set (result := {| dr_Claimed := _ |}). destruct (dispatchEvents_schedule 0 events result None w1) as (actions & Ha & Hd).
  eexists (claim :: actions), _. split; [|set_solver]. change (claim :: actions) with ([claim] ++ actions). rewrite performAll_app, Hc. exact Ha.
Qed.

(** A round of [RunOnce], whatever others do to the store between its calls, is one of the
    interleavings of the system: what holds of every interleaving holds after the round. *)
Theorem round_is_an_interleaving now random w :
  exists actions processes', performAll actions {| sy_world := w; sy_processes := processes |} =
    {| sy_world := (RunOnce options around now random w).2; sy_processes := processes' |} /\
    forall call, ActOther call ∈ actions -> duringRound call.
Proof. apply RunOnce_schedule. Qed.
End schedule.

(** C14. Whatever dispatchers and other users of the store do, in any order, every signal event
    that was delivered had its workflow asked for before, and the starter answered that it was
    started or already existed, unless a user who is not a dispatcher acknowledged the event,
    with the token of the claim it was delivered under; the same holds after a further round of
    [RunOnce], whatever others do during the round.  The workflow is that of the event itself as
    long as the random identifiers of events do not collide. *)
Theorem delivered_signal_was_started actions options starter storeClock clock beforeStart beforeStore now random :
  let w := sy_world (performAll actions System_empty) in
  deliveries_started (fun call => ActOther call ∈ actions) w /\
  deliveries_started (fun call => ActOther call ∈ actions \/ duringRound beforeStart beforeStore call)
    (RunOnce options (amid starter storeClock clock beforeStart beforeStore) now random w).2.
Proof.
  intros w. pose proof (reachable_sound actions) as Hs. split; [apply Hs|].
  destruct (RunOnce_schedule options starter storeClock clock beforeStart beforeStore
    (sy_processes (performAll actions System_empty)) now random w) as (more & processes' & Hm & Hmore).
  set (others := fun call => ActOther call ∈ actions \/ duringRound beforeStart beforeStore call).
  assert (system_sound others (performAll more {| sy_world := w; sy_processes := sy_processes (performAll actions System_empty) |})) as Hr.
  { apply performAll_sound; [intros call Hc; right; by apply Hmore|].
    assert (system_sound others (performAll actions System_empty)) as Ho
      by (apply performAll_sound; [by intros call ?; left|split; constructor]).
    unfold w. by destruct (performAll actions System_empty). }
  rewrite Hm in Hr. apply Hr.
Qed.

(** ** What a round reports *)

Definition settled (result : DispatchResult) : Z := dr_Started result + dr_AlreadyExists result + dr_Retried result.

(** The report of a round over [n] more events: who is counted was claimed, all are counted
    unless there is an error, and the error of an event that is not understood means that one
    is not counted. *)
Record accounts (n : nat) (before after : DispatchResult) (poison err : option GoError) : Prop := {
  ac_claimed : dr_Claimed after = dr_Claimed before;
  ac_started : dr_Started before <= dr_Started after;
  ac_exists : dr_AlreadyExists before <= dr_AlreadyExists after;
  ac_retried : dr_Retried before <= dr_Retried after;
  ac_settled : settled after <= settled before + Z.of_nat n;
  ac_all : err = None -> poison = None /\ settled after = settled before + Z.of_nat n;
  ac_poison : err = Some ErrInvalidSignalOutboxEvent ->
    poison = Some ErrInvalidSignalOutboxEvent \/ settled after < settled before + Z.of_nat n
}.

Lemma wrapping_error {A} context (m : M Store A) s e s' : wrapping context m s = (Err e, s') -> exists e', e = Errorf context e'.
Proof. unfold wrapping. destruct (m s) as [[] ?]; intros; simplify_eq; eauto. Qed.

Lemma settle_counts options around n event answer result :
  dr_Claimed ((settle options around n event answer).2 result) = dr_Claimed result /\
  dr_Started result <= dr_Started ((settle options around n event answer).2 result) /\
  dr_AlreadyExists result <= dr_AlreadyExists ((settle options around n event answer).2 result) /\
  dr_Retried result <= dr_Retried ((settle options around n event answer).2 result) /\
  settled ((settle options around n event answer).2 result) = settled result + 1.
Proof. destruct answer as [[]|]; simpl; unfold settled; simpl; lia. Qed.

Lemma dispatchEvents_accounts options around n events before poison w after err w' :
  dispatchEvents options around n events before poison w = (after, err, w') -> accounts (length events) before after poison err.
Proof.
  revert n before poison w. induction events as [|event events IH]; intros n before poison w Hd; cbn [dispatchEvents] in Hd.
  { simplify_eq. split; simpl; auto with lia. }
  destruct (newSignalWorkflowStart event) as [start|e].
  - pose proof (settle_counts options around n event (su_starter around n start) before) as Hc.
    destruct (settle _ _ _ _ _) as [call count] eqn:Hs. simpl in Hc. destruct (onStore call _) as [[u|e] w1] eqn:Ho.
    + destruct (IH _ _ _ _ Hd) as [? ? ? ? ? Hall Hpo]. split; simpl length; try lia.
      * intros [? ?]%Hall. split; [done|lia].
      * intros [?|?]%Hpo; [by left|right; lia].
    + simplify_eq. split; simpl length; try lia. done.
  - destruct (IH _ _ _ _ Hd) as [? ? ? ? ? Hall Hpo]. split; simpl length; try lia; by intros [? _]%Hall.
Qed.

(** A round settles at most the events it claimed, which are at most a hundred; it reports
    no error only if it settled them all, each as started, as existing or as put back; and it
    reports an event it does not understand only if one was left to its lease. *)
Theorem round_accounts_for_its_batch options around now random w :
  let '(result, err, _) := RunOnce options around now random w in
  0 <= dr_Started result /\ 0 <= dr_AlreadyExists result /\ 0 <= dr_Retried result /\
  settled result <= dr_Claimed result <= MaxOutboxClaimLimit /\
  (err = None -> settled result = dr_Claimed result) /\
  (err = Some ErrInvalidSignalOutboxEvent -> settled result < dr_Claimed result).
Proof.
  unfold RunOnce, onStore.
  pose proof (ClaimOutbox_claimed (claimRequestOf options) now random (w_store w)) as Hcl. unfold wp in Hcl.
  destruct (wrapping _ _ (w_store w)) as [r s'] eqn:Hw. destruct r as [events|e].
  - unfold wrapping in Hw. destruct (ClaimOutbox _ _ _ _) as [[claimed|?] ?]; simplify_eq. simpl in Hcl.
    destruct (Hcl _ eq_refl) as [_ Hlen]. destruct (dispatchEvents _ _ _ _ _ _ _) as [[result err] w'] eqn:Hd.
    destruct (dispatchEvents_accounts _ _ _ _ _ _ _ _ _ _ Hd) as [Hc ? ? ? Hle Hall Hpo]. unfold settled in Hle, Hall, Hpo. simpl in *.
    unfold settled. split_and!; try lia; [intros [_ ?]%Hall; lia|]. intros [?|?]%Hpo; [done|lia].
  - apply wrapping_error in Hw as [e' ->]. simpl. unfold settled, MaxOutboxClaimLimit. simpl. split_and!; (done || lia).
Qed.

(** ** Events are understood *)

(** C39. Every signal event in a store, whatever calls led to it, is understood by the
    dispatcher when the signal and its workspace are named by UUIDs: its payload, read back, is
    the signal's identifier, and the workflow is the one of the event, with its scope. *)
Theorem stored_signal_events_are_understood calls :
  Forall (fun event =>
    ob_Type event = signalIngestedEventType -> uuidPattern (ob_AggregateID event) = true -> uuidPattern (ob_WorkspaceID event) = true ->
    newSignalWorkflowStart event = Ok {|
      sws_Version := 1; sws_WorkflowID := ob_ID event; sws_OutboxEventID := ob_ID event; sws_TenantID := ob_WorkspaceID event;
      sws_WorkspaceID := ob_WorkspaceID event; sws_SignalID := ob_AggregateID event; sws_AggregateVersion := 1 |})
    (store_outbox (storeAfter calls)).
Proof.
  destruct (storeAfter_sound calls) as [Han _ _ Hev]. apply Forall_forall. intros event He Ht Ha Hw.
  pose proof (es_id event (proj1 (Forall_forall _ _) Hev event He)) as Hid.
  assert (announcement event ∈ announcement <$> store_outbox (storeAfter calls)) as Hin by by apply list_elem_of_fmap_2.
  rewrite Han in Hin. apply elem_of_app in Hin as [Hin|Hin]; apply list_elem_of_fmap in Hin as (aggregate & Heq & _);
    unfold announcement in Heq; injection Heq as E1 E2 E3 E4 E5 E6 E7; [|by rewrite E4 in Ht].
  unfold newSignalWorkflowStart. rewrite E7, <- E2, payload_round_trip by (by apply uuid_plain || by apply uuid_nonempty).
  rewrite Ht, E1, E3, E5, <- E6, Hid, Hw, Ha, !eqb_same. simpl. done.
Qed.
End system.
